(* ===== verification/_CoqProject ===== *)
-Q . S2P
Prelude.v
Mem.v
Double.v
Heap.v
HeapFacts.v
HeapFree.v
HeapTheorems.v
HeapAligned.v
TripleBuffer.v
Ring.v
Stream.v
Multiframe.v
RtapiTask.v
RtapiShmem.v
HalData.v
RingUniform.v
Delayline.v
DelaylineTheorems.v
Scope.v
ScopeTheorems.v
Samstr.v
SamstrTheorems.v
MatrixKb.v
HeapAllocator.v
HalMemory.v
HalList.v
HalObject.v
HalObjectFacts.v
HalPin.v
HalSignal.v
HalLinks.v
HalLinkOps.v
HalLinkSteps.v
HalSweep.v
HalBoot.v
HalFunct.v
HalThread.v
HalRing.v
HalRingTheorems.v
HalComp.v
HalParam.v
HalVtable.v
HalGroup.v
HalRcomp.v
HalRcompTheorems.v
HalFunctFacts.v
HalReach.v
HalTheorems.v
HalOnHeap.v
HalListTheorems.v
HalFunctTheorems.v
Encoder.v
EncoderTheorems.v
Stepgen.v
StepgenTheorems.v
Pwmgen.v
PwmgenTheorems.v
Hm2Encoder.v
Hm2EncoderTheorems.v
Hm2Velocity.v
Hm2Tram.v
Hm2TramTheorems.v
Sserial.v
SserialTheorems.v
Hm2Watchdog.v
Hm2WatchdogTheorems.v
Hm2Pins.v
Hm2PinsTheorems.v
Hm2Stepgen.v
Bitfile.v
BitfileTheorems.v
FirmwareTheorems.v
CString.v
HalCmdLine.v
HalCmd.v
HalCmdTheorems.v
HyComm.v
HyCommTheorems.v
RtapiApp.v
Inifile.v
