(* ===== verification/Prelude.v ===== *)
(** * Machinekit-HAL: root of the development

    Machinekit-HAL is the hardware abstraction layer of a machine control
    system.  Components, loaded into a real-time process, keep their inputs
    and outputs as pins in one shared memory segment; signals connect pins;
    threads call the exported functs of the components in order, once per
    period.  halcmd and remote clients change the connections while the
    machine runs.  Below HAL is the runtime: a heap inside the segment, the
    table of real-time tasks, shared memory, lock-free rings and triple
    buffers.

    ** Parts, files and sources

    Paths are relative to src/src.  A function of the code has a definition
    of the same name; a name with a suffix ([_begin], [_step], ...) or a name
    that the code does not have is a part of the function that the manifest
    maps to its lines.

    - Base of the development: Prelude (machine integers, option and result
      monads, weakest preconditions [wp] of the state and error monad [M],
      tactics), Mem (byte memory with frame lemmas), Double (IEEE binary64,
      rounding to nearest even), CString (string functions of the C library).
    - Heap, HeapFacts, HeapFree, HeapTheorems, HeapAligned:
      libraries/runtime/src/rtapi_heap.c.  Headers and the circular free list
      are bytes of the heap; [rep] relates them to a list of free and a set
      of used blocks.  HeapAligned adds aligned allocation and the trimming
      of the tail.
    - TripleBuffer: libraries/runtime/include/runtime/triple-buffer.h, as
      functions on the flag byte and as a transition system in which the
      loads and compare-and-swaps of the two sides interleave.
    - Ring, Stream, Multiframe: ring.h and multiframe.h of the same
      directory.  Storage is byte memory; the header is a record.
      RingUniform: rings with records of one size.
    - Delayline, DelaylineTheorems: the delay lines of
      modules/managed/components/delayline, on the record ring.
    - MatrixKb: keyboards that are scanned row by row
      (modules/managed/components/matrix_kb).
    - RtapiApp: the realtime application that loads modules,
      passes parameters and makes instances (executables/rtapi_app).
    - Inifile: the reader of ini files (libraries/mkini).
    - Scope, ScopeTheorems: the oscilloscope, its realtime part
      (modules/managed/components/scope_rt) and the capture functions of the
      program (modules/unmanaged/components/halscope).
    - Samstr, SamstrTheorems: sampler and streamer (modules/managed/components)
      with the programs at the other end of their buffers
      (modules/unmanaged/components/sampler_usr and halstreamer), as
      interleaved loads and stores.
    - RtapiTask, RtapiShmem: rtapi_task.c, rtapi_time.c, rtapi_shmem.c of
      libraries/runtime/src and shmdrvapi.c of libraries/runtime_memory.
    - HalData: the segment as a record [hal_state] of descriptors, object
      list, threads, entries, heaps and counters (hal_priv.h, hal_object.h).
      HalMemory, HalObject, HalPin, HalSignal, HalFunct, HalThread, HalRing,
      HalComp, HalParam, HalVtable, HalGroup, HalRcomp: the files of
      libraries/hal/src with the same name.
    - HalList: the doubly linked lists of hal/include/hal/hal_list.h and the
      loops over them, on the links.  The HAL model keeps such lists as
      sequences; HalListTheorems proves that the code on the links does to
      the sequence what the model says.
    - HalObjectFacts, HalLinks, HalLinkOps, HalLinkSteps, HalSweep, HalReach,
      HalTheorems: the invariant [link_inv] of objects, pins and signals, its
      preservation by each operation, and the theorems.  The transition system
      of HalReach has the calls that create components (with the library
      component), instances, functs, pins and signals, and those that link,
      unlink, delete signals, set barriers and the lock, and sweep.
      HalFunctFacts, HalFunctTheorems, HalRingTheorems, HalRcompTheorems: the
      same for functs and threads, rings, remote components.  HalBoot: a
      concrete allocator, platform and state, the input of the witnesses.
    - Encoder, Stepgen, Pwmgen (and their theorems): the quadrature counter,
      the step generator and the PWM generator of modules/managed/components.
    - Hm2Encoder, Hm2EncoderTheorems, Hm2Velocity: the counters of hostmot2
      cards (modules/managed/drivers/hostmot2/hostmot2_core/src/encoder.c).
      Hm2Tram, Hm2TramTheorems: the copies of the registers of a card (tram.c
      of the same directory).  Sserial, SserialTheorems: the fields and the
      state machine of smart-serial ports (sserial.c).  Hm2Watchdog,
      Hm2WatchdogTheorems: the watchdog and the functs of a card (watchdog.c,
      hostmot2.c), with the calls that may reach the card as a log.
      Hm2Pins, Hm2PinsTheorems: the pins of a card, who owns them, and the
      registers of the ports (pins.c, ioport.c).
      Hm2Stepgen: the step generators of a card (stepgen.c).
    - Bitfile, BitfileTheorems, FirmwareTheorems: files of FPGA firmware, as
      the user-space library builds and reads them (libraries/upci/src) and as
      the driver checks them (libraries/hostmot2_bitfile/src).
    - HyComm, HyCommTheorems: the serial protocol of Huanyang inverters
      (modules/unmanaged/drivers/huanyang_vfd/src/hy_comm.c).
    - HalCmdLine, HalCmd, HalCmdTheorems: lines and commands of halcmd
      (libraries/hal_command/src).

    ** How the parts interact

    HAL code uses its two heaps through the interface [Allocator] of HalData;
    its laws are [AllocatorSpec], against which the invariants are proved.
    The operations of the interface return a result of which [Crash] is one:
    a crash of the heap (an invalid block, a loop over the free list that does
    not end) is a crash of the HAL call that made it, and the laws promise that
    there is none for the blocks and sizes HAL hands over.  HeapAllocator makes
    the code's own heap an instance of the interface and discharges its laws;
    HalOnHeap composes the two: from the segment that [init_hal_data] sets up,
    the calls of HalReach on this heap are safe ([hal_on_heap_safe]).
    Code that is not in the repository, or differs by platform, enters as a
    class too: [Platform] (sizes and configuration), [Callbacks] (functions
    of loaded components), [ThreadFuncts] (what a funct does to the state),
    [Flavor] (thread systems), [SharedMemory] and [ShmOS] (the operating
    system's segments), [LLIO], [Board] and [PinBoard] (the transfers of a card), [PinHost]
    (allocations), [Realloc] (the
    allocator of the C library) and [Modules] (what dlopen finds, and what
    modules return).  halcmd takes the environment, the ini file and the
    expansion of tildes as parameters.

    Stateful code is in the monad [M S A] of Prelude: a result [Ok], an error
    code [Err], or [Crash] for what C leaves undefined or what ends the
    process (an invalid pointer, a failed HAL_ASSERT).  That an operation
    does not crash is therefore a statement of the theorems and never built
    into the definitions.

    ** The theorems

    - Memory: [malloc_outcome], [free_outcome], [arena_conserved],
      [malloc_aligned_outcome], [realloc_outcome], [shmalloc_rt_outcome]:
      allocation succeeds or nothing changes, blocks are disjoint, the sum of
      free and used units is conserved, free ends on every well-formed heap.
    - Exchange between threads: [tb_never_shared] and [tb_snapshot_latest]
      for every interleaving; [record_ring_fifo] refines record rings to
      bounded queues of byte strings; [stream_vectors_exact] and the other
      theorems of Stream; [read_frames_complete].
    - Objects: [hal_api_safe] is the main invariant: no sequence of the calls
      of HalReach crashes, and in every reachable state pins point to the value
      of their signal and counters agree with the links.  Names of new objects
      have no percent sign and at most 126 characters: some of them are used
      as formats, and a percent sign may crash ([percent_signal],
      [percent_pin]).  Deletion of components and instances is not among the
      calls.
      [link_outcome], [unlink_outcome], [pin_new_outcome], [sweep_outcome],
      [add_object_sorted] and the others give the result on every branch.
    - Lists: [add_entry_refines], [drop_funct_refines], [sweep_refines].
    - Functs and threads: [add_funct_outcome], [del_funct_outcome],
      [free_funct_outcome], [run_functs_in_order].
    - Rings, remote components: [attached_ring_kept], [ring_new_duplicate],
      [ccomp_match_settles].
    - Delay lines: [delay_line_delays], a theorem of the component and the
      ring together.
    - Keyboards: [keys_follow] (while not more keys are pressed than the limit
      allows; [third_key] shows the default limit of two), [card_codes].
    - Realtime application: [exit_reverse] (if the HAL library is still
      loaded; otherwise the exit crashes), [args_in_bounds],
      [array_arg_stored].
    - Ini files: [file_roundtrip] (names of sections of up to 254 characters;
      a longer one overruns a buffer, [long_section]), [lines_all].
    - Sampler and streamer: [sampler_whole], [streamer_in_order] for every
      interleaving, samples being whole unless the buffer goes round once while
      one of them is read ([torn_record]); [update_outcome].
    - Oscilloscope: [scope_record], [scope_auto], [float_above_spec].
    - Motion: [encoder_position]; [stepgen_drive], [stepgen_pattern],
      [stepgen_limits]; [pwm_pure_exact], [pwm_average];
      [hm2_rawcounts_track], [hm2_velocity], [hm2_index_zero].
    - Cards: [tram_read_registers], [card_position] (from the registers of a
      card to the position of a counter), [second_allocation_overruns];
      [fields_roundtrip], [absolute_encoder_tracks], [dead_port_idles];
      [outputs_follow], [inputs_sampled], [pins_allocated] (the registers of
      the ports follow the HAL pins);
      [subcounts_drift], [velocity_limited], [write_quiet] (the step
      generators);
      [bitfile_roundtrip], [firmware_accepts], [firmware_safe],
      [negative_chunk_loops]; [bitten_card_protected]
      (a board is reset only if its driver can do it, which is that of
      hm2_eth; [no_reset_write] is the rest), [recovery_writes_settings],
      [timer_register], [unregister_longest].
    - Inverters: [crc16_is_reference], [burst_detected], [hy_comm_safe],
      [hy_comm_reply].
    - halcmd: [net_all_or_nothing], [net_new_unchecked],
      [tokenize_roundtrip], [replace_vars_bounds].

    A theorem about an input that the code treats in an unexpected way states
    what the code does ([stream_write_wrap_overruns], [ring_new_duplicate],
    [net_new_unchecked], [signal_delete_outcome], [idle_blocks_others],
    [unregister_longest]), as do the examples at the
    end of a file ([removing_the_next_spins], [frequency_lost],
    [rearmed_in_the_same_period]).

    ** Bounds and fuel

    Integers are [Z] with the wrap-around of their C width written out.
    Loops over a list of the state recurse on that list.  The search of the
    free list takes the number of headers the heap can hold as fuel, the
    replacement of variables the length of the line; [malloc_outcome],
    [free_outcome] and [replace_vars_bounds] prove that they do not run out,
    [run_functs_in_order] that a cycle visits the entries and stops.
    Hypotheses on sizes (names of at most [HAL_NAME_LEN] characters, less than
    2^31 objects) keep counters from wrapping.

    ** Not modelled

    Messages, statistics that are only printed, and memory barriers (the
    model is sequentially consistent; interleavings are modelled for the
    triple buffer and for the double buffer of the encoder).  The jitter
    statistics of threads.  Output commands of halcmd, and those that call
    rtapi_app or start processes.  Of rtapi_app, the transport of requests,
    signals and the locking of memory.  The kernel driver shmdrv and the thread
    flavors.  Of the modelled drivers and components, the creation of their
    pins, which is a sequence of calls of HAL, and the opening of devices;
    of smart serial, the discovery of the devices of a port.
    The other hardware drivers under modules/managed/drivers and
    modules/unmanaged (register access is their substance), the graphical
    programs, the network servers (haltalk, messagebus, webtalk, msgd) on
    top of ZeroMQ and protobuf, the Python bindings, the component compilers
    and their inputs, the vendored libraries (runtime_math, pasm,
    prussdrv). *)
From stdpp Require Export base tactics list gmap strings numbers fin_maps sorting.
From Stdlib Require Export ZArith Lia.

#[export] Set Default Goal Selector "!".
#[export] Set Warnings "-clear-no-such-hyp".

(** ** Scope of the development: integers are [Z] *)
Declare Scope hal_scope.
Delimit Scope hal_scope with hal.
Open Scope Z_scope.
Open Scope hal_scope.

(** ** Machine-width integers

    A C integer of width [w] is a [Z]; [wrapu] and [wraps] are the
    conversions to the unsigned and to the two's complement signed type. *)
Definition wrapu (w z : Z) : Z := z mod 2 ^ w.

Definition wraps (w z : Z) : Z := (z + 2 ^ (w - 1)) mod 2 ^ w - 2 ^ (w - 1).

Abbreviation u8 := (wrapu 8).
Abbreviation u16 := (wrapu 16).
Abbreviation u32 := (wrapu 32).
Abbreviation u64 := (wrapu 64).
Abbreviation s8 := (wraps 8).
Abbreviation s16 := (wraps 16).
Abbreviation s32 := (wraps 32).
Abbreviation s64 := (wraps 64).

Lemma wrapu_range w z : 0 <= w -> 0 <= wrapu w z < 2 ^ w.
Proof. intros. apply Z.mod_pos_bound. lia. Qed.

Lemma wrapu_small w z : 0 <= z < 2 ^ w -> wrapu w z = z.
Proof. apply Z.mod_small. Qed.

Lemma wrapu_idemp w z : wrapu w (wrapu w z) = wrapu w z.
Proof. apply Zmod_mod. Qed.

Lemma wraps_range w z : 0 < w -> - 2 ^ (w - 1) <= wraps w z < 2 ^ (w - 1).
Proof.
  intros Hw. unfold wraps.
  assert (2 ^ w = 2 * 2 ^ (w - 1)) as E
    by (rewrite <- Z.pow_succ_r by lia; f_equal; lia).
  pose proof (Z.mod_pos_bound (z + 2 ^ (w - 1)) (2 ^ w) ltac:(lia)). lia.
Qed.

Lemma wraps_small w z : 0 < w -> - 2 ^ (w - 1) <= z < 2 ^ (w - 1) -> wraps w z = z.
Proof.
  intros Hw H. unfold wraps.
  assert (2 ^ w = 2 * 2 ^ (w - 1)) as E
    by (rewrite <- Z.pow_succ_r by lia; f_equal; lia).
  rewrite Z.mod_small by lia. lia.
Qed.

Lemma wraps_mod w z : 0 < w -> wraps w z mod 2 ^ w = z mod 2 ^ w.
Proof.
  intros Hw. unfold wraps. rewrite Zminus_mod_idemp_l. f_equal. lia.
Qed.

Lemma wraps_congr w x y : x mod 2 ^ w = y mod 2 ^ w -> wraps w x = wraps w y.
Proof. intros H. unfold wraps. f_equal. rewrite <- (Zplus_mod_idemp_l x), <- (Zplus_mod_idemp_l y). by rewrite H. Qed.

Lemma wraps_add_l w x y : wraps w (wraps w x + y) = wraps w (x + y).
Proof.
  unfold wraps. f_equal. replace ((x + 2 ^ (w - 1)) mod 2 ^ w - 2 ^ (w - 1) + y + 2 ^ (w - 1))
    with ((x + 2 ^ (w - 1)) mod 2 ^ w + y) by lia. rewrite Zplus_mod_idemp_l. f_equal. lia.
Qed.

Lemma wraps_sub w x y : 0 < w -> wraps w (wraps w x - wraps w y) = wraps w (x - y).
Proof.
  intros Hw. unfold Z.sub. rewrite wraps_add_l. apply wraps_congr.
  rewrite (Z.add_opp_r x (wraps w y)), Zminus_mod, wraps_mod, <- Zminus_mod by done. done.
Qed.

(** [RTAPI_ALIGN(x, boundary)] of rtapi_bitops.h on a 32-bit unsigned [x]:
    [x + (-x & (boundary - 1))]. *)
Definition RTAPI_ALIGN (x boundary : Z) : Z :=
  u32 (x + Z.land (u32 (- x)) (boundary - 1)).

(** [RTAPI_CACHELINE] (rtapi.h) without libck. *)
Definition RTAPI_CACHELINE : Z := 64.

Definition RTAPI_CACHE_ALIGN (x : Z) : Z := RTAPI_ALIGN x RTAPI_CACHELINE.

Lemma RTAPI_ALIGN_eq k x :
  0 <= k <= 31 -> 0 <= x -> x + 2 ^ k <= 2 ^ 32 ->
  RTAPI_ALIGN x (2 ^ k) = x + (- x) mod 2 ^ k.
Proof.
  intros Hk Hx Hb. unfold RTAPI_ALIGN.
  replace (2 ^ k - 1) with (Z.ones k) by (rewrite Z.ones_equiv; lia).
  rewrite Z.land_ones by lia.
  assert ((u32 (- x)) mod 2 ^ k = (- x) mod 2 ^ k) as ->.
  { unfold wrapu. apply Z.mod_mod_divide.
    exists (2 ^ (32 - k)). rewrite <- Z.pow_add_r by lia. f_equal. lia. }
  pose proof (Z.mod_pos_bound (- x) (2 ^ k) ltac:(lia)).
  apply wrapu_small. lia.
Qed.

(** Aligning rounds up to the next multiple of the boundary. *)
Lemma RTAPI_ALIGN_spec k x :
  0 <= k <= 31 -> 0 <= x -> x + 2 ^ k <= 2 ^ 32 ->
  x <= RTAPI_ALIGN x (2 ^ k) < x + 2 ^ k /\ (2 ^ k | RTAPI_ALIGN x (2 ^ k)).
Proof.
  intros Hk Hx Hb. rewrite RTAPI_ALIGN_eq by lia.
  pose proof (Z.mod_pos_bound (- x) (2 ^ k) ltac:(lia)).
  split; [lia |].
  apply Z.mod_divide; [lia |].
  rewrite Z.add_mod_idemp_r by lia.
  replace (x + - x) with 0 by lia. apply Z.mod_0_l. lia.
Qed.

Lemma land_neg_pow k x : 0 <= k -> Z.land x (- 2 ^ k) = x - x mod 2 ^ k.
Proof.
  intros Hk. replace (- 2 ^ k) with (Z.lnot (Z.ones k)) by (rewrite Z.ones_equiv; unfold Z.lnot; lia).
  rewrite <- Z.ldiff_land, Z.ldiff_ones_r, Z.shiftl_mul_pow2, Z.shiftr_div_pow2 by lia.
  pose proof (Z.div_mod x (2 ^ k) ltac:(lia)). lia.
Qed.

(** ** Results: a value, a negative C error code, or undefined behaviour
    (a NULL or dangling pointer is dereferenced) *)
Inductive result (A : Type) : Type :=
| Ok (a : A)
| Err (rc : Z)
| Crash.
Arguments Ok {A} a.
Arguments Err {A} rc.
Arguments Crash {A}.

Definition is_ok {A} (r : result A) : bool :=
  match r with Ok _ => true | _ => false end.

(** ** The state and error monad of the stateful components *)
Definition M (S A : Type) : Type := S -> result A * S.

#[export] Instance M_ret {S} : MRet (M S) := fun A a s => (Ok a, s).

#[export] Instance M_bind {S} : MBind (M S) := fun A B f m s =>
  match m s with
  | (Ok a, s') => f a s'
  | (Err e, s') => (Err e, s')
  | (Crash, s') => (Crash, s')
  end.

Definition get {S} : M S S := fun s => (Ok s, s).
Definition put {S} (s' : S) : M S unit := fun _ => (Ok tt, s').
Definition modify {S} (f : S -> S) : M S unit := fun s => (Ok tt, f s).
Definition raise {S A} (rc : Z) : M S A := fun s => (Err rc, s).
Definition crash {S A} : M S A := fun s => (Crash, s).

Lemma bind_ok {S A B} (m : M S A) (f : A -> M S B) s s' b :
  (m ≫= f) s = (Ok b, s') <-> exists a s1, m s = (Ok a, s1) /\ f a s1 = (Ok b, s').
Proof.
  unfold mbind, M_bind. destruct (m s) as [[a | e |] s1]; split.
  - intros H; eauto.
  - intros (a' & s1' & [= -> ->] & H); exact H.
  - discriminate.
  - intros (? & ? & [=] & _).
  - discriminate.
  - intros (? & ? & [=] & _).
Qed.

(** ** Weakest preconditions

    [wp m Q E s]: started in [s], [m] does not crash; it returns [a] in a
    state with [Q a], or fails with [e] in a state with [E e]. *)
Definition wp {S A} (m : M S A) (Q : A -> S -> Prop) (E : Z -> S -> Prop) (s : S) : Prop :=
  match m s with
  | (Ok a, s') => Q a s'
  | (Err e, s') => E e s'
  | (Crash, _) => False
  end.

Section WP.
Context {S : Type}.

Lemma wp_bind {A B} (m : M S A) (f : A -> M S B) Q E s :
  wp m (fun a => wp (f a) Q E) E s -> wp (m ≫= f) Q E s.
Proof. unfold wp, mbind, M_bind. destruct (m s) as [[] ?]; done. Qed.

Lemma wp_ret {A} (a : A) (Q : A -> S -> Prop) E s : Q a s -> wp (mret a) Q E s.
Proof. done. Qed.

Lemma wp_modify (f : S -> S) (Q : unit -> S -> Prop) E s : Q tt (f s) -> wp (modify f) Q E s.
Proof. done. Qed.

Lemma wp_get (Q : S -> S -> Prop) E s : Q s s -> wp get Q E s.
Proof. done. Qed.

Lemma wp_raise {A} e (Q : A -> S -> Prop) (E : Z -> S -> Prop) s : E e s -> wp (raise e) Q E s.
Proof. done. Qed.

Lemma wp_mono {A} (m : M S A) (Q Q' : A -> S -> Prop) (E E' : Z -> S -> Prop) s :
  wp m Q E s -> (forall a s', Q a s' -> Q' a s') -> (forall e s', E e s' -> E' e s') ->
  wp m Q' E' s.
Proof. unfold wp. destruct (m s) as [[] ?]; auto. Qed.

Lemma wp_and {A} (m : M S A) (Q Q' : A -> S -> Prop) (E E' : Z -> S -> Prop) s :
  wp m Q E s -> wp m Q' E' s ->
  wp m (fun a s' => Q a s' /\ Q' a s') (fun e s' => E e s' /\ E' e s') s.
Proof. unfold wp. destruct (m s) as [[] ?]; auto. Qed.

(** From a weakest precondition to a run. *)
Lemma wp_run {A} (m : M S A) Q E s r s' :
  wp m Q E s -> m s = (r, s') ->
  match r with Ok a => Q a s' | Err e => E e s' | Crash => False end.
Proof. unfold wp. intros Hw Hr. rewrite Hr in Hw. by destruct r. Qed.

Lemma run_wp {A} (m : M S A) Q E s a s' : m s = (Ok a, s') -> Q a s' -> wp m Q E s.
Proof. unfold wp. by intros ->. Qed.
End WP.

(** ** Error numbers of the C library the code returns *)
Definition EPERM : Z := 1.
Definition ENOENT : Z := 2.
Definition E2BIG : Z := 7.
Definition EAGAIN : Z := 11.
Definition ENOMEM : Z := 12.
Definition EBUSY : Z := 16.
Definition EEXIST : Z := 17.
Definition EINVAL : Z := 22.
Definition ERANGE : Z := 34.

(** ** Tactics *)

(** Case analysis on every [match] and [if] of the goal. *)
Ltac case_all := repeat (case_match; simplify_eq/=).

(** Closes goals of linear arithmetic over boolean comparisons. *)
Ltac zb := repeat match goal with
  | H : Z.ltb _ _ = true |- _ => apply Z.ltb_lt in H
  | H : Z.ltb _ _ = false |- _ => apply Z.ltb_ge in H
  | H : Z.leb _ _ = true |- _ => apply Z.leb_le in H
  | H : Z.leb _ _ = false |- _ => apply Z.leb_gt in H
  | H : Z.eqb _ _ = true |- _ => apply Z.eqb_eq in H
  | H : Z.eqb _ _ = false |- _ => apply Z.eqb_neq in H
  end.

Create HintDb hal discriminated.
#[export] Hint Resolve wrapu_range : hal.

(** ** The order of names: [strcmp] *)
Definition str_le (a b : string) : Prop := String.ltb b a = false.

Lemma string_compare_trans s1 s2 s3 :
  String.compare s1 s2 = Lt -> String.compare s2 s3 = Lt -> String.compare s1 s3 = Lt.
Proof.
  revert s2 s3. induction s1 as [| a s1 IH]; intros [| b s2] [| c s3]; simpl; try done.
  unfold Ascii.compare.
  destruct (N.compare_spec (Ascii.N_of_ascii a) (Ascii.N_of_ascii b)) as [Eab | Hab | Hab]; try done;
    destruct (N.compare_spec (Ascii.N_of_ascii b) (Ascii.N_of_ascii c)) as [Ebc | Hbc | Hbc]; try done;
    destruct (N.compare_spec (Ascii.N_of_ascii a) (Ascii.N_of_ascii c)); try lia; eauto.
Qed.

Lemma ltb_lt a b : String.ltb a b = true <-> String.compare a b = Lt.
Proof. unfold String.ltb. by destruct (String.compare a b). Qed.

Lemma str_le_trans a b c : str_le a b -> str_le b c -> str_le a c.
Proof.
  unfold str_le, String.ltb. intros Hab Hbc.
  pose proof (String.compare_antisym b a) as Eba. pose proof (String.compare_antisym c b) as Ecb.
  destruct (String.compare c a) eqn:Eca; try done.
  destruct (String.compare b a) eqn:E1; [| done |].
  - apply String.compare_eq_iff in E1 as ->. by rewrite Eca in Hbc.
  - destruct (String.compare c b) eqn:E2; [| done |].
    + apply String.compare_eq_iff in E2 as ->. by rewrite Eca in E1.
    + destruct (String.compare a b) eqn:E3; try done.
      pose proof (string_compare_trans c a b Eca E3). congruence.
Qed.

Lemma ltb_str_le a b : String.ltb a b = true -> str_le a b.
Proof.
  unfold str_le, String.ltb. intros H. rewrite String.compare_antisym.
  by destruct (String.compare a b).
Qed.

(** Insertion before the first larger name. *)
Fixpoint insert_name (n : string) (l : list string) : list string :=
  match l with
  | [] => [n]
  | m :: l' => if String.ltb n m then n :: m :: l' else m :: insert_name n l'
  end.

Lemma insert_name_perm n l : insert_name n l ≡ₚ n :: l.
Proof.
  induction l as [| m l IH]; simpl; [done |]. case_match; [done |].
  rewrite IH. apply Permutation_swap.
Qed.

Lemma insert_name_sorted n l :
  StronglySorted str_le l -> StronglySorted str_le (insert_name n l).
Proof.
  induction 1 as [| m l Hl IH Hm]; simpl; [by repeat constructor |].
  destruct (String.ltb n m) eqn:E.
  - constructor; [by constructor |]. apply ltb_str_le in E. constructor; [done |].
    eapply Forall_impl; [exact Hm |]. intros x. by apply str_le_trans.
  - constructor; [done |]. rewrite insert_name_perm. by constructor.
Qed.
