(* ===== verification/Mem.v ===== *)
(** * Byte memory

    The C code of the ring buffers works on raw bytes of a shared memory
    segment.  A segment is a finite map from byte offsets to byte values
    (0 where nothing was written); 32-bit words are little endian.  [agree]
    says that two memories are equal on an address range: every store and
    copy has one frame lemma stated with it, every load one lemma that it
    depends on its own range only. *)
From S2P Require Import Prelude.

Abbreviation mem := (gmap Z Z).

Definition byte (z : Z) : Prop := 0 <= z < 256.

Definition load8 (m : mem) (o : Z) : Z := m !!! o.

Definition store8 (m : mem) (o v : Z) : mem := <[o := v mod 256]> m.

Definition load32 (m : mem) (o : Z) : Z :=
  load8 m o + 256 * load8 m (o + 1) + 65536 * load8 m (o + 2)
  + 16777216 * load8 m (o + 3).

Definition store32 (m : mem) (o v : Z) : mem :=
  store8 (store8 (store8 (store8 m o v) (o + 1) (v / 256)) (o + 2) (v / 65536))
         (o + 3) (v / 16777216).

Fixpoint write_bytes (m : mem) (o : Z) (bs : list Z) : mem :=
  match bs with
  | [] => m
  | b :: bs' => write_bytes (store8 m o b) (o + 1) bs'
  end.

Fixpoint read_bytes (m : mem) (o : Z) (n : nat) : list Z :=
  match n with
  | O => []
  | S n' => load8 m o :: read_bytes m (o + 1) n'
  end.

Definition agree (m m' : mem) (lo hi : Z) : Prop :=
  forall a, lo <= a < hi -> load8 m' a = load8 m a.

Lemma agree_refl m lo hi : agree m m lo hi.
Proof. done. Qed.

Lemma agree_sym m m' lo hi : agree m m' lo hi -> agree m' m lo hi.
Proof. intros H a Ha. symmetry. auto. Qed.

Lemma agree_trans m m' m'' lo hi :
  agree m m' lo hi -> agree m' m'' lo hi -> agree m m'' lo hi.
Proof. intros H1 H2 a Ha. rewrite (H2 a Ha). auto. Qed.

Lemma agree_sub m m' lo hi lo' hi' :
  agree m m' lo hi -> lo <= lo' -> hi' <= hi -> agree m m' lo' hi'.
Proof. intros H ? ? a Ha. apply H. lia. Qed.

Lemma load8_store8 m o v : load8 (store8 m o v) o = v mod 256.
Proof. apply lookup_total_insert_eq. Qed.

Lemma load8_store8_ne m o v a : a <> o -> load8 (store8 m o v) a = load8 m a.
Proof. intros. unfold load8, store8. apply lookup_total_insert_ne. congruence. Qed.

Lemma store8_agree m o v lo hi :
  (o < lo \/ hi <= o) -> agree m (store8 m o v) lo hi.
Proof. intros H a Ha. apply load8_store8_ne. lia. Qed.

Lemma store32_agree m o v lo hi :
  (o + 4 <= lo \/ hi <= o) -> agree m (store32 m o v) lo hi.
Proof.
  intros H a Ha. unfold store32. rewrite !load8_store8_ne by lia. done.
Qed.

Lemma load32_store32 m o v : load32 (store32 m o v) o = u32 v.
Proof.
  unfold load32, store32.
  repeat (rewrite load8_store8 || rewrite load8_store8_ne by lia).
  unfold wrapu. change (2 ^ 32) with 4294967296.
  pose proof (Z.div_mod v 4294967296 ltac:(lia)).
  pose proof (Z.div_mod v 256 ltac:(lia)).
  pose proof (Z.div_mod (v / 256) 256 ltac:(lia)) as E1.
  pose proof (Z.div_mod (v / 65536) 256 ltac:(lia)) as E2.
  pose proof (Z.div_mod (v / 16777216) 256 ltac:(lia)) as E3.
  rewrite Z.div_div in E1, E2, E3 by lia.
  change (256 * 256) with 65536 in *. change (65536 * 256) with 16777216 in *.
  change (16777216 * 256) with 4294967296 in *. lia.
Qed.

Lemma load32_agree m m' o : agree m m' o (o + 4) -> load32 m' o = load32 m o.
Proof. intros H. unfold load32. by rewrite !H by lia. Qed.

Lemma load32_store32_ne m a o v :
  (a + 4 <= o \/ o + 4 <= a) -> load32 (store32 m a v) o = load32 m o.
Proof. intros. apply load32_agree, store32_agree. lia. Qed.

Lemma read_bytes_agree m m' o n :
  agree m m' o (o + Z.of_nat n) -> read_bytes m' o n = read_bytes m o n.
Proof.
  revert o. induction n as [| n IH]; intros o H; simpl; [done |].
  rewrite H by lia. f_equal. apply IH. eapply agree_sub; [done | lia | lia].
Qed.

Lemma read_bytes_length m o n : length (read_bytes m o n) = n.
Proof. revert o. induction n as [| n IH]; intros o; simpl; [done |]. by rewrite IH. Qed.

Lemma write_bytes_agree m o bs lo hi :
  (o + Z.of_nat (length bs) <= lo \/ hi <= o) -> agree m (write_bytes m o bs) lo hi.
Proof.
  revert m o. induction bs as [| b bs IH]; simpl; intros m o H; [done |].
  intros a Ha. rewrite IH by (try exact Ha; lia). apply load8_store8_ne. lia.
Qed.

Lemma read_write_bytes m o bs :
  Forall byte bs -> read_bytes (write_bytes m o bs) o (length bs) = bs.
Proof.
  revert m o. induction bs as [| b bs IH]; intros m o H; simpl; [done |].
  inversion H as [| ? ? Hb Hbs]; subst. f_equal; [| auto].
  rewrite (write_bytes_agree _ _ _ o (o + 1)) by lia.
  rewrite load8_store8. apply Z.mod_small. exact Hb.
Qed.

Lemma write_bytes_app m o a b :
  write_bytes m o (a ++ b) = write_bytes (write_bytes m o a) (o + Z.of_nat (length a)) b.
Proof.
  revert m o. induction a as [| x a IH]; intros m o; simpl.
  - by rewrite Z.add_0_r.
  - rewrite IH. f_equal. lia.
Qed.

Lemma load8_write_bytes m o bs i b :
  Forall byte bs -> bs !! i = Some b ->
  load8 (write_bytes m o bs) (o + Z.of_nat i) = b.
Proof.
  revert m o i. induction bs as [| c bs IH]; intros m o i H Hi; simpl; [done |].
  inversion H; subst. destruct i as [| i]; simpl in Hi; simplify_eq.
  - rewrite Z.add_0_r, (write_bytes_agree _ _ _ o (o + 1)) by lia.
    rewrite load8_store8. by apply Z.mod_small.
  - replace (o + Z.of_nat (S i)) with (o + 1 + Z.of_nat i) by lia. auto.
Qed.

Lemma load32_write_bytes m o b0 b1 b2 b3 rest :
  Forall byte (b0 :: b1 :: b2 :: b3 :: rest) ->
  load32 (write_bytes m o (b0 :: b1 :: b2 :: b3 :: rest)) o
  = b0 + 256 * b1 + 65536 * b2 + 16777216 * b3.
Proof.
  intros H.
  pose proof (load8_write_bytes m o _ 0 b0 H eq_refl) as E0.
  pose proof (load8_write_bytes m o _ 1 b1 H eq_refl) as E1.
  pose proof (load8_write_bytes m o _ 2 b2 H eq_refl) as E2.
  pose proof (load8_write_bytes m o _ 3 b3 H eq_refl) as E3.
  set (m' := write_bytes m o _) in *. rewrite Z.add_0_r in E0.
  change (Z.of_nat 1) with 1 in E1.
  change (Z.of_nat 2) with 2 in E2. change (Z.of_nat 3) with 3 in E3.
  unfold load32. by rewrite E0, E1, E2, E3.
Qed.

Lemma read_bytes_app m o n k :
  read_bytes m o (n + k) = read_bytes m o n ++ read_bytes m (o + Z.of_nat n) k.
Proof.
  revert o. induction n as [| n IH]; intros o; simpl.
  - by rewrite Z.add_0_r.
  - rewrite IH. do 3 f_equal. lia.
Qed.

(** Every byte of the memory is a byte: the loads of words are in range. *)
Definition mem_ok (m : mem) : Prop := forall a, byte (load8 m a).

Lemma mem_ok_empty : mem_ok ∅.
Proof. intros a. unfold load8. rewrite lookup_total_empty. done. Qed.

Lemma mem_ok_store8 m o v : mem_ok m -> mem_ok (store8 m o v).
Proof.
  intros H a. destruct (decide (a = o)) as [-> |].
  - rewrite load8_store8. apply Z.mod_pos_bound. lia.
  - rewrite load8_store8_ne by done. apply H.
Qed.

Lemma mem_ok_store32 m o v : mem_ok m -> mem_ok (store32 m o v).
Proof. intros. unfold store32. by repeat apply mem_ok_store8. Qed.

Lemma mem_ok_write_bytes m o bs : mem_ok m -> mem_ok (write_bytes m o bs).
Proof.
  revert m o. induction bs as [| b bs IH]; intros m o H; simpl; [done |].
  apply IH. by apply mem_ok_store8.
Qed.

Lemma load32_range m o : mem_ok m -> 0 <= load32 m o < 2 ^ 32.
Proof.
  intros H. unfold load32.
  pose proof (H o). pose proof (H (o + 1)). pose proof (H (o + 2)).
  pose proof (H (o + 3)). unfold byte in *. lia.
Qed.

#[export] Hint Resolve mem_ok_empty mem_ok_store8 mem_ok_store32 mem_ok_write_bytes
  agree_refl : hal.
