(* ===== verification/Double.v ===== *)
(** * C doubles

    A [double] is a specification float of the Standard Library with the
    parameters of IEEE binary64; every operation rounds to nearest even. *)
From Stdlib Require Export SpecFloat.
From S2P Require Import Prelude.

Abbreviation double := spec_float.

Definition dadd : double -> double -> double := SFadd 53 1024.
Definition dsub : double -> double -> double := SFsub 53 1024.
Definition dmul : double -> double -> double := SFmul 53 1024.
Definition ddiv : double -> double -> double := SFdiv 53 1024.
Definition dneg : double -> double := SFopp.
Definition dabs : double -> double := SFabs.
Definition dlt : double -> double -> bool := SFltb.
Definition dle : double -> double -> bool := SFleb.
Definition deq : double -> double -> bool := SFeqb.

(** Integers that are converted to double. *)
Definition dbl_of_Z (z : Z) : double := binary_normalize 53 1024 z 0 false.

(** A value from its bit pattern. *)
Definition float_of_bits (b : Z) : double :=
  let sign := negb (b / 2 ^ 63 mod 2 =? 0) in
  let exp := b / 2 ^ 52 mod 2 ^ 11 in
  let man := b mod 2 ^ 52 in
  if exp =? 2047 then if man =? 0 then S754_infinity sign else S754_nan
  else
    match (if exp =? 0 then man else man + 2 ^ 52) with
    | Zpos m => S754_finite sign m (Z.max exp 1 - 1075)
    | _ => S754_zero sign
    end.

(** The bit pattern of a value in canonical form. *)
Definition bits_of_float (d : double) : Z :=
  let bit (s : bool) := if s then 2 ^ 63 else 0 in
  match d with
  | S754_zero s => bit s
  | S754_infinity s => bit s + 0x7ff0000000000000
  | S754_nan => 0x7ff8000000000000
  | S754_finite s m e =>
      bit s + if Zpos m <? 2 ^ 52 then Zpos m else (e + 1075) * 2 ^ 52 + (Zpos m - 2 ^ 52)
  end.

Definition d0 : double := S754_zero false.
Definition d1 : double := dbl_of_Z 1.
Definition d1e_9 : double := float_of_bits 0x3e112e0be826d695.     (* 1e-9 *)
Definition d1e_20 : double := float_of_bits 0x3bc79ca10c924223.    (* 1e-20 *)
Definition d1e_4 : double := float_of_bits 0x3f1a36e2eb1c432d.     (* 0.0001 *)
Definition d_half : double := float_of_bits 0x3fe0000000000000.
Definition d_three_halves : double := float_of_bits 0x3ff8000000000000.

(** Conversion to a [w]-bit signed integer: towards zero; [None] when the
    value is none of that type (undefined behaviour). *)
Definition dbl_to_sint (w : Z) (d : double) : option Z :=
  match d with
  | S754_zero _ => Some 0
  | S754_finite s m e =>
      let z := if e <? 0 then Z.shiftr (Zpos m) (- e) else Z.shiftl (Zpos m) e in
      let z := if s then - z else z in
      if (- 2 ^ (w - 1) <=? z) && (z <? 2 ^ (w - 1)) then Some z else None
  | _ => None
  end.

Lemma deq_zero x : deq x d0 = true -> exists s, x = S754_zero s.
Proof. destruct x as [s | [] | | [] ? ?]; try done. by exists s. Qed.

(** The two-sided limit of the code: [if (x > hi) x = hi; else if (x < lo) x = lo]. *)
Definition dclamp (x lo hi : double) : double :=
  if dlt hi x then hi else if dlt x lo then lo else x.

Lemma dlt_irrefl x : dlt x x = false.
Proof.
  destruct x as [| [] | | [] m e]; try done; unfold dlt, SFltb, SFcompare;
    by rewrite Z.compare_refl, Pos.compare_cont_refl.
Qed.

Lemma dlt_asym x y : dlt x y = true -> dlt y x = false.
Proof.
  destruct x as [[] | [] | | [] mx ex], y as [[] | [] | | [] my ey]; try done; unfold dlt, SFltb, SFcompare;
    rewrite (Z.compare_antisym ex ey); destruct (ex ?= ey); try done; simpl;
    pose proof (Pos.compare_cont_antisym mx my Eq) as Ha; simpl in Ha; rewrite <- Ha;
    by destruct (Pos.compare_cont Eq mx my).
Qed.

(** The result of the limit is never beyond a limit. *)
Lemma dclamp_hi x lo hi : dlt hi lo = false -> dlt hi (dclamp x lo hi) = false.
Proof.
  intros Hh. unfold dclamp. destruct (dlt hi x) eqn:E1; [apply dlt_irrefl |]. by destruct (dlt x lo).
Qed.

Lemma dclamp_lo x lo hi : dlt hi lo = false -> dlt (dclamp x lo hi) lo = false.
Proof.
  intros Hh. unfold dclamp. destruct (dlt hi x) eqn:E1; [done |].
  destruct (dlt x lo) eqn:E2; [apply dlt_irrefl | done].
Qed.

(** ** Values whose sign is not set *)
Definition nonneg (x : double) : bool :=
  match x with
  | S754_nan => true
  | S754_zero s | S754_infinity s | S754_finite s _ _ => negb s
  end.

Lemma round_aux_nonneg m e l : nonneg (binary_round_aux 53 1024 false m e l) = true.
Proof.
  unfold binary_round_aux. destruct (shr_fexp _ _ _ _ _) as [r1 e1]. destruct (shr_fexp _ _ _ _ _) as [r2 e2].
  destruct (shr_m r2); try done. by case_match.
Qed.

Lemma dbl_of_Z_nonneg z : 0 <= z -> nonneg (dbl_of_Z z) = true.
Proof.
  intros Hz. unfold dbl_of_Z, binary_normalize. destruct z as [| p | p]; [done | | lia].
  unfold binary_round. destruct (shl_align _ _ _). apply round_aux_nonneg.
Qed.

Lemma dmul_nonneg x y : nonneg x = true -> nonneg y = true -> nonneg (dmul x y) = true.
Proof. destruct x as [[] | [] | | []], y as [[] | [] | | []]; try done. intros _ _. apply round_aux_nonneg. Qed.

Lemma ddiv_nonneg x y : nonneg x = true -> nonneg y = true -> nonneg (ddiv x y) = true.
Proof.
  destruct x as [[] | [] | | []], y as [[] | [] | | []]; try done. intros _ _.
  unfold ddiv, SFdiv. destruct (SFdiv_core_binary _ _ _ _ _ _) as [[? ?] ?]. apply round_aux_nonneg.
Qed.

Lemma dabs_nonneg x : nonneg (dabs x) = true.
Proof. by destruct x. Qed.

Lemma positive_nonneg x : dle x d0 = false -> nonneg x = true.
Proof. by destruct x as [[] | [] | | []]. Qed.

Lemma nonneg_limits x : nonneg x = true -> dlt x (dneg x) = false.
Proof. by destruct x as [[] | [] | | []]. Qed.
