(* ===== verification/Heap.v ===== *)
(** * The shared memory heap (runtime/src/rtapi_heap.c)

    The allocator of K&R, with offsets from the heap descriptor instead of
    pointers.  A block is a header of 8 bytes (the offset of the next free
    block, and the tag: the size in units of 8 bytes, 24 bits, and the
    attributes, 8 bits) and the memory behind it.  The headers are in byte
    memory; offset 0 is the sentinel of the circular free list.  The mutex
    and the messages are not modelled. *)
From S2P Require Import Prelude Mem.

Definition sizeof_hdr : Z := 8.
Definition ATTR_ALIGNED : Z := 1.
Definition RTAPIHEAP_TRIM : Z := 4.

(** ** Headers *)
Definition hnext (m : mem) (p : Z) : Z := load32 m p.
Definition tag (m : mem) (p : Z) : Z := load32 m (p + 4).
Definition tag_size (w : Z) : Z := w mod 2 ^ 24.
Definition tag_attr (w : Z) : Z := w / 2 ^ 24.
Definition hsize (m : mem) (p : Z) : Z := tag_size (tag m p).
Definition hattr (m : mem) (p : Z) : Z := tag_attr (tag m p).

Definition set_next (m : mem) (p v : Z) : mem := store32 m p v.
(** Assignments to bit fields keep the low 24 and 8 bits. *)
Definition set_tag (m : mem) (p size attr : Z) : mem :=
  store32 m (p + 4) (size mod 2 ^ 24 + 2 ^ 24 * (attr mod 2 ^ 8)).
Definition set_size (m : mem) (p size : Z) : mem := set_tag m p size (hattr m p).
Definition set_attr (m : mem) (p attr : Z) : mem := set_tag m p (hsize m p) attr.

(** ** State ([struct rtapi_heap]) *)
Record rtapi_heap := RtapiHeap {
  hp_mem : mem;           (* from the descriptor on; the base header is at 0 *)
  hp_free_p : Z;
  hp_arena_size : Z;
  hp_flags : Z;
  hp_requested : Z;
  hp_allocated : Z;
  hp_freed : Z;           (* int *)
}.

Definition set_mem (m : mem) (h : rtapi_heap) : rtapi_heap :=
  RtapiHeap m (hp_free_p h) (hp_arena_size h) (hp_flags h) (hp_requested h) (hp_allocated h) (hp_freed h).
Definition set_free_p (p : Z) (h : rtapi_heap) : rtapi_heap :=
  RtapiHeap (hp_mem h) p (hp_arena_size h) (hp_flags h) (hp_requested h) (hp_allocated h) (hp_freed h).
Definition count_malloc (req alloc : Z) (h : rtapi_heap) : rtapi_heap :=
  RtapiHeap (hp_mem h) (hp_free_p h) (hp_arena_size h) (hp_flags h)
    (u64 (hp_requested h + req)) (u64 (hp_allocated h + alloc)) (hp_freed h).
Definition count_free (n : Z) (h : rtapi_heap) : rtapi_heap :=
  RtapiHeap (hp_mem h) (hp_free_p h) (hp_arena_size h) (hp_flags h)
    (hp_requested h) (hp_allocated h) (s32 (hp_freed h + n)).
Definition count_arena (n : Z) (h : rtapi_heap) : rtapi_heap :=
  RtapiHeap (hp_mem h) (hp_free_p h) (u64 (hp_arena_size h + n)) (hp_flags h)
    (hp_requested h) (hp_allocated h) (hp_freed h).

Record rtapi_heap_stat := HeapStat {
  st_arena_size : Z;
  st_total_avail : Z;
  st_fragments : Z;
  st_largest : Z;
  st_requested : Z;
  st_allocated : Z;
  st_freed : Z;
}.

Module Heap.
Abbreviation M := (M rtapi_heap).

(** Every block has a header: the loops over the free list make at most one
    step for each 8 bytes of the arena, and one for the sentinel. *)
Definition fuel (h : rtapi_heap) : nat := Z.to_nat (hp_arena_size h / sizeof_hdr + 2).

(** ** Allocation *)
Definition block_units (nbytes : Z) : Z :=
  u64 (nbytes + sizeof_hdr - 1) / sizeof_hdr + 1.

(** The loop over the free list from behind [freep]: the previous block and
    the first block that is big enough, or [Some None]. *)
Fixpoint search (fuel : nat) (m : mem) (freep nunits prevp p : Z) : option (option (Z * Z)) :=
  match fuel with
  | O => None
  | S fuel =>
      if nunits <=? hsize m p then Some (Some (prevp, p))
      else if p =? freep then Some None
      else search fuel m freep nunits p (hnext m p)
  end.

(** [rtapi_allocsize]: the bytes behind the pointer, of the whole region
    when it is aligned; the difference is a [size_t]. *)
Definition allocsize (m : mem) (ap : Z) : Z :=
  let ap := if Z.testbit (hattr m (ap - 8)) 0 then hsize m (ap - 8) else ap in
  u64 ((hsize m (ap - 8) - 1) * sizeof_hdr).

Definition rtapi_allocsize (ap : Z) : M Z := h ← get; mret (allocsize (hp_mem h) ap).

(** Taking [nunits] from the block at [p]: the whole block, or its end. *)
Definition carve (m : mem) (prevp p nunits : Z) : mem * Z :=
  let '(m, p) :=
    if hsize m p =? nunits then (set_next m prevp (hnext m p), p)
    else
      let m := set_size m p (hsize m p - nunits) in
      let p := p + sizeof_hdr * hsize m p in
      (set_size m p nunits, p) in
  (set_attr m p 0, p).

Definition rtapi_malloc (nbytes : Z) : M (option Z) :=
  h ← get;
  let m := hp_mem h in
  let nunits := block_units nbytes in
  let freep := hp_free_p h in
  match search (fuel h) m freep nunits freep (hnext m freep) with
  | None => crash
  | Some None => mret None
  | Some (Some (prevp, p)) =>
      let '(m, p) := carve m prevp p nunits in
      put (count_malloc nbytes (allocsize m (p + sizeof_hdr))
             (set_free_p prevp (set_mem m h))) ≫= fun _ =>
      mret (Some (p + sizeof_hdr))
  end.

(** ** Release *)

(** The loop that looks for the place of the freed block [bp]. *)
Fixpoint place (fuel : nat) (m : mem) (bp p : Z) : option Z :=
  match fuel with
  | O => None
  | S fuel =>
      let next := hnext m p in
      if (p <? bp) && (bp <? next) then Some p
      else if (next <=? p) && ((p <? bp) || (bp <? next)) then Some p
      else place fuel m bp next
  end.

(** Linking [bp] in behind [p], joined with its neighbours. *)
Definition join_upper (m : mem) (p bp : Z) : mem :=
  let next := hnext m p in
  if bp + sizeof_hdr * hsize m bp =? next then
    let m1 := set_size m bp (hsize m bp + hsize m next) in
    set_next m1 bp (hnext m1 (hnext m1 p))
  else set_next m bp next.

Definition join_lower (m : mem) (p bp : Z) : mem :=
  if p + sizeof_hdr * hsize m p =? bp then
    let m1 := set_size m p (hsize m p + hsize m bp) in set_next m1 p (hnext m1 bp)
  else set_next m p bp.

Definition unlocked_free (ap : Z) : M unit :=
  h ← get;
  let m := hp_mem h in
  let ap := if Z.testbit (hattr m (ap - 8)) 0 then hsize m (ap - 8) else ap in
  let bp := ap - sizeof_hdr in
  match place (fuel h + fuel h) m bp (hp_free_p h) with
  | None => crash
  | Some p =>
      put (set_free_p p (set_mem (join_lower (join_upper m p bp) p bp)
             (count_free (sizeof_hdr * (hsize m bp - 1)) h)))
  end.

Definition rtapi_free (ap : Z) : M unit := unlocked_free ap.

(** ** Derived operations *)
Definition rtapi_calloc (nelem elsize : Z) : M (option Z) :=
  let n := u64 (nelem * elsize) in
  p ← rtapi_malloc n;
  match p with
  | None => mret None
  | Some p =>
      modify (fun h => set_mem (write_bytes (hp_mem h) p (replicate (Z.to_nat n) 0)) h) ≫= fun _ =>
      mret (Some p)
  end.

Definition rtapi_realloc (ptr size : Z) : M (option Z) :=
  sz ← rtapi_allocsize ptr;
  if size <=? sz then mret (Some ptr)
  else
    p ← rtapi_malloc size;
    match p with
    | None => mret None
    | Some p =>
        modify (fun h => set_mem (write_bytes (hp_mem h) p
          (read_bytes (hp_mem h) ptr (Z.to_nat (if size <? sz then size else sz)))) h) ≫= fun _ =>
        rtapi_free ptr ≫= fun _ => mret (Some p)
    end.

(** Adding memory: [space] is the offset of the region from the descriptor. *)
Definition rtapi_heap_addmem (space size : Z) : M Z :=
  if space <? 0 then raise (- EINVAL)
  else
    modify (fun h => set_mem (write_bytes (hp_mem h) space (replicate (Z.to_nat size) 0)) h) ≫= fun _ =>
    let clicks := size / sizeof_hdr in
    modify (fun h => set_mem (set_size (hp_mem h) space clicks) h) ≫= fun _ =>
    unlocked_free (space + sizeof_hdr) ≫= fun _ =>
    modify (count_free (- ((clicks - 1) * sizeof_hdr))) ≫= fun _ =>
    modify (count_arena size) ≫= fun _ => mret 0.

Definition rtapi_heap_init (m : mem) : rtapi_heap :=
  RtapiHeap (set_size (set_next m 0 0) 0 0) 0 0 0 0 0 0.

(** ** Aligned allocation, for a heap mapped at address [addr]

    The region is [align] bytes larger; the tag in front of the result
    refers to it.  With [RTAPIHEAP_TRIM] the units behind it are freed. *)
Definition trim_block (base trim : Z) : M unit :=
  let this := base - sizeof_hdr in
  h ← get;
  let m := hp_mem h in
  let new := this + sizeof_hdr * (hsize m this - trim) in
  let m := set_tag (set_next m new (hnext m this)) new trim 0 in
  let m := set_next m this new in
  modify (set_mem (set_size m this (hsize m this - trim))) ≫= fun _ =>
  unlocked_free (new + sizeof_hdr).

Definition rtapi_malloc_aligned (addr nbytes align : Z) : M (option Z) :=
  if negb (Z.land align (u64 (align - 1)) =? 0) then mret None
  else
    r ← rtapi_malloc (u64 (nbytes + align));
    match r with
    | None => if align <? 4 then mret None else crash      (* the tag goes below address [align] *)
    | Some base =>
        let result := Z.land (addr + base + align) (- align) - addr in
        let slack := u64 (result - base) in
        if slack <? 4 then mret None
        else if result <? 4 then crash                     (* [align] is 0 *)
        else
          modify (fun h => set_mem (set_tag (hp_mem h) (result - 8) base ATTR_ALIGNED) h) ≫= fun _ =>
          let trim := u64 (align - slack) / sizeof_hdr in
          h ← get;
          (if negb (Z.land (hp_flags h) RTAPIHEAP_TRIM =? 0) && (0 <? trim)
           then trim_block base trim else mret tt) ≫= fun _ =>
          mret (Some result)
    end.

(** ** Reports *)
Fixpoint walk (fuel : nat) (m : mem) (freep p : Z) (l : list (Z * Z)) : option (list (Z * Z)) :=
  match fuel with
  | O => None
  | S fuel =>
      let l := if hsize m p =? 0 then l else l ++ [(p + sizeof_hdr, hsize m p)] in
      if p =? freep then Some l else walk fuel m freep (hnext m p) l
  end.

(** The chunks the callback is called for (address, bytes), and the number
    of units it returns. *)
Definition rtapi_heap_walk_freelist : M (list (Z * Z) * Z) :=
  h ← get;
  match walk (fuel h) (hp_mem h) (hp_free_p h) (hnext (hp_mem h) (hp_free_p h)) [] with
  | None => crash
  | Some l => mret (map (fun b => (b.1, b.2 * sizeof_hdr)) l, fold_left Z.add (map snd l) 0)
  end.

Definition rtapi_heap_status : M rtapi_heap_stat :=
  h ← get;
  match walk (fuel h) (hp_mem h) (hp_free_p h) (hnext (hp_mem h) (hp_free_p h)) [] with
  | None => crash
  | Some l =>
      mret (HeapStat (hp_arena_size h) (u64 (fold_left Z.add (map snd l) 0 * sizeof_hdr))
        (Z.of_nat (length l)) (u64 (fold_left Z.max (map snd l) 0 * sizeof_hdr))
        (hp_requested h) (hp_allocated h) (u64 (hp_freed h)))
  end.

Definition rtapi_heap_setflags (flags : Z) : M Z :=
  h ← get;
  put (RtapiHeap (hp_mem h) (hp_free_p h) (hp_arena_size h) flags (hp_requested h)
         (hp_allocated h) (hp_freed h)) ≫= fun _ => mret (hp_flags h).
End Heap.
