(* ===== verification/HeapFacts.v ===== *)
(** * Facts about the heap

    [rep h F A]: the free list of [h] is [F] (offsets and sizes, in address
    order, no two of them adjacent), and [A] are the blocks in use; what
    malloc does to [F] and [A]. *)
From S2P Require Import Prelude Mem Heap.
Import Heap.

(** ** Headers *)
Definition sep (a b : Z) : Prop := a + 8 <= b \/ b + 8 <= a.

Lemma hnext_set_next m p v : 0 <= v < 2 ^ 32 -> hnext (set_next m p v) p = v.
Proof. intros Hv. unfold hnext, set_next. rewrite load32_store32. by apply wrapu_small. Qed.

Lemma hnext_set_next_ne m p v q : sep p q -> hnext (set_next m p v) q = hnext m q.
Proof. intros Hs. apply load32_store32_ne. unfold sep in Hs. lia. Qed.

Lemma tag_set_next m p v q : p = q \/ sep p q -> tag (set_next m p v) q = tag m q.
Proof. intros Hs. apply load32_store32_ne. unfold sep in Hs. lia. Qed.

Lemma hnext_set_tag m p s a q : p = q \/ sep p q -> hnext (set_tag m p s a) q = hnext m q.
Proof. intros Hs. apply load32_store32_ne. unfold sep in Hs. lia. Qed.

Lemma tag_set_tag_ne m p s a q : sep p q -> tag (set_tag m p s a) q = tag m q.
Proof. intros Hs. apply load32_store32_ne. unfold sep in Hs. lia. Qed.

Lemma tag_set_tag m p s a : tag (set_tag m p s a) p = s mod 2 ^ 24 + 2 ^ 24 * (a mod 2 ^ 8).
Proof.
  unfold tag, set_tag. rewrite load32_store32. apply wrapu_small.
  pose proof (Z.mod_pos_bound s (2 ^ 24) ltac:(lia)). pose proof (Z.mod_pos_bound a (2 ^ 8) ltac:(lia)). lia.
Qed.

Lemma hsize_set_tag m p s a : hsize (set_tag m p s a) p = s mod 2 ^ 24.
Proof.
  unfold hsize. rewrite tag_set_tag. unfold tag_size. rewrite Z.mul_comm, Z_mod_plus_full.
  apply Zmod_mod.
Qed.

Lemma hattr_set_tag m p s a : hattr (set_tag m p s a) p = a mod 2 ^ 8.
Proof.
  unfold hattr. rewrite tag_set_tag. unfold tag_attr. rewrite Z.mul_comm, Z_div_plus_full by lia.
  rewrite Z.div_small; [lia |]. apply Z.mod_pos_bound. lia.
Qed.

Lemma hsize_range m p : 0 <= hsize m p < 2 ^ 24.
Proof. apply Z.mod_pos_bound. lia. Qed.

Lemma hsize_tag m m' p : tag m' p = tag m p -> hsize m' p = hsize m p.
Proof. unfold hsize. by intros ->. Qed.
Lemma hattr_tag m m' p : tag m' p = tag m p -> hattr m' p = hattr m p.
Proof. unfold hattr. by intros ->. Qed.

Lemma set_next_agree m p v lo hi : p + 8 <= lo \/ hi <= p -> agree m (set_next m p v) lo hi.
Proof. intros Hp. apply store32_agree. lia. Qed.
Lemma set_tag_agree m p s a lo hi : p + 8 <= lo \/ hi <= p -> agree m (set_tag m p s a) lo hi.
Proof. intros Hp. apply store32_agree. lia. Qed.

(** ** Segments of the free list *)
Abbreviation addrs F := (map fst F).

Fixpoint seg (m : mem) (a : Z) (F : list (Z * Z)) (z : Z) : Prop :=
  match F with
  | [] => hnext m a = z
  | (b, s) :: F' => hnext m a = b /\ hsize m b = s /\ seg m b F' z
  end.

Fixpoint lastaddr (a : Z) (F : list (Z * Z)) : Z :=
  match F with [] => a | (b, _) :: F' => lastaddr b F' end.

Lemma lastaddr_app a F1 F2 : lastaddr a (F1 ++ F2) = lastaddr (lastaddr a F1) F2.
Proof. revert a. induction F1 as [| [b s] F1 IH]; intros a; simpl; [done |]. apply IH. Qed.

Lemma lastaddr_in a F : lastaddr a F ∈ a :: addrs F.
Proof.
  revert a. induction F as [| [b s] F IH]; intros a; simpl; [left |]. right. apply IH.
Qed.

Lemma seg_last m a F z : seg m a F z -> hnext m (lastaddr a F) = z.
Proof. revert a. induction F as [| [b s] F IH]; intros a; simpl; [done |]. intros (_ & _ & ?). by apply IH. Qed.

Lemma seg_app m a F1 F2 z :
  seg m a (F1 ++ F2) z <->
  seg m a F1 (hnext m (lastaddr a F1)) /\ seg m (lastaddr a F1) F2 z.
Proof.
  revert a. induction F1 as [| [b s] F1 IH]; intros a; simpl; [tauto |]. rewrite IH. tauto.
Qed.

(** Only the link of the last block may change. *)
Lemma seg_change m m' a F z :
  seg m a F z -> NoDup (a :: addrs F) ->
  (forall x, x ∈ a :: addrs F -> x <> lastaddr a F -> hnext m' x = hnext m x) ->
  (forall x, x ∈ addrs F -> hsize m' x = hsize m x) ->
  seg m' a F (hnext m' (lastaddr a F)).
Proof.
  revert a. induction F as [| [b s] F IH]; intros a; simpl; [done |].
  intros (Ha & Hb & Hs) [Hn1 Hn2]%NoDup_cons Hnx Hsz. split; [| split].
  - rewrite Hnx; [done | left |]. intros ->. apply Hn1. apply (lastaddr_in b F).
  - by rewrite Hsz by left.
  - apply IH; [done | done | |]; intros x Hx; [apply Hnx | apply Hsz]; by right.
Qed.

Lemma seg_same m m' a F z :
  seg m a F z -> (forall x, x ∈ a :: addrs F -> hnext m' x = hnext m x) ->
  (forall x, x ∈ addrs F -> hsize m' x = hsize m x) -> seg m' a F z.
Proof.
  revert a. induction F as [| [b s] F IH]; intros a; simpl; [intros <- Hn _; apply Hn; left |].
  intros (Ha & Hb & Hs) Hnx Hsz. split; [rewrite Hnx by left; done |].
  split; [by rewrite Hsz by left |]. apply IH; [done | |]; intros x Hx; [apply Hnx | apply Hsz]; by right.
Qed.

(** The segment depends on its start by the link only. *)
Lemma seg_start m a b F z : seg m a F z -> hnext m b = hnext m a -> seg m b F z.
Proof. destruct F as [| [c s] F]; simpl; [by intros <- |]. by intros (-> & ?) ->. Qed.

(** ** Blocks in address order, none adjacent *)
Fixpoint spaced (lo : Z) (F : list (Z * Z)) : Prop :=
  match F with
  | [] => True
  | (b, s) :: F' => lo < b /\ 1 <= s /\ spaced (b + 8 * s) F'
  end.

Fixpoint units (F : list (Z * Z)) : Z := match F with [] => 0 | (_, s) :: F' => s + units F' end.

Lemma spaced_lower lo F x s : spaced lo F -> (x, s) ∈ F -> lo < x /\ 1 <= s.
Proof.
  revert lo. induction F as [| [b t] F IH]; intros lo; simpl; [by intros _ ?%not_elem_of_nil |].
  intros (Hb & Ht & HF) [Hx | Hx]%elem_of_cons; [by simplify_eq |].
  destruct (IH _ HF Hx). lia.
Qed.

Lemma spaced_weaken lo lo' F : spaced lo F -> lo' <= lo -> spaced lo' F.
Proof. destruct F as [| [b s] F]; simpl; [done |]. intros (? & ? & ?) ?. split; [lia | done]. Qed.

Lemma spaced_app lo F1 F2 : spaced lo (F1 ++ F2) ->
  spaced lo F1 /\ forall b s, (b, s) ∈ F1 -> spaced (b + 8 * s) F2.
Proof.
  revert lo. induction F1 as [| [b s] F1 IH]; intros lo; simpl.
  - intros _. split; [done |]. by intros ? ? ?%not_elem_of_nil.
  - intros (Hb & Hs & HF). destruct (IH _ HF) as [H1 H2]. split; [done |].
    intros b' s' [Hx | Hx]%elem_of_cons; [| by eapply H2]. simplify_eq.
    clear IH. revert HF H1 H2. generalize (b + 8 * s). induction F1 as [| [c t] F1 IH]; intros lo'; [done |].
    intros HF H1 H2. destruct F2 as [| [d u] F2]; [done |]. simpl.
    destruct (H2 c t ltac:(left)) as (? & ? & ?). simpl in H1. destruct H1 as (? & ? & _). split; [lia | done].
Qed.

Lemma units_app F1 F2 : units (F1 ++ F2) = units F1 + units F2.
Proof. induction F1 as [| [b s] F1 IH]; simpl; lia. Qed.

Lemma units_length lo F : spaced lo F -> Z.of_nat (length F) <= units F.
Proof. revert lo. induction F as [| [b s] F IH]; intros lo; simpl; [lia |]. intros (_ & ? & ?%IH). lia. Qed.

Lemma addrs_elem (F : list (Z * Z)) x : x ∈ addrs F -> exists s, (x, s) ∈ F.
Proof. intros ([y s] & -> & Hin)%list_elem_of_fmap. eauto. Qed.

Lemma spaced_NoDup lo a F : a <= lo -> spaced lo F -> NoDup (a :: addrs F).
Proof.
  revert lo a. induction F as [| [b s] F IH]; intros lo a Ha HF; [apply NoDup_singleton |].
  simpl in HF. destruct HF as (Hb & Hs & HF). constructor.
  - simpl. intros [-> | Hx]%elem_of_cons; [lia |]. apply addrs_elem in Hx as [t Hx].
    apply (spaced_lower _ _ _ _ HF) in Hx. lia.
  - simpl. apply (IH (b + 8 * s)); [lia | done].
Qed.

(** ** The loop of malloc *)
Section Search.
Variables (m : mem) (fp n : Z).

(** The first big enough block of [F], or all of [F] is passed. *)
Lemma search_seg F k a z :
  seg m a F z -> (fp ∉ addrs F) ->
  (exists Fa p s Fb, F = Fa ++ (p, s) :: Fb /\ n <= s /\
     search (length F + k) m fp n a (hnext m a) = Some (Some (lastaddr a Fa, p))) \/
  (Forall (fun b => b.2 < n) F /\
     search (length F + k) m fp n a (hnext m a) = search k m fp n (lastaddr a F) z).
Proof.
  revert a. induction F as [| [b s] F IH]; intros a; simpl.
  - intros -> _. by right.
  - intros (Hb & Hs & HF) [Hf1 Hf2]%not_elem_of_cons. rewrite Hb, Hs.
    destruct (n <=? s) eqn:E; zb.
    + left. exists [], b, s, F. done.
    + rewrite (proj2 (Z.eqb_neq b fp)) by done.
      destruct (IH b HF Hf2) as [(Fa & p & t & Fb & -> & Hn & ->) | [Hall ->]].
      * left. exists ((b, s) :: Fa), p, t, Fb. done.
      * right. split; [by constructor | done].
Qed.

(** The segment that ends at [fp]. *)
Lemma search_end F k a z :
  seg m a F z -> NoDup (addrs F) -> F <> [] -> lastaddr a F = fp ->
  (exists Fa p s Fb, F = Fa ++ (p, s) :: Fb /\ n <= s /\
     search (length F + k) m fp n a (hnext m a) = Some (Some (lastaddr a Fa, p))) \/
  (Forall (fun b => b.2 < n) F /\ search (length F + k) m fp n a (hnext m a) = Some None).
Proof.
  revert a. induction F as [| [b s] F IH]; intros a; [done |]. simpl.
  intros (Hb & Hs & HF) [Hn1 Hn2]%NoDup_cons _ Hl. rewrite Hb, Hs.
  destruct (n <=? s) eqn:E; zb.
  - left. exists [], b, s, F. done.
  - destruct F as [| c F].
    + simpl in Hl. subst fp. rewrite Z.eqb_refl. right. split; [by constructor | done].
    + rewrite (proj2 (Z.eqb_neq b fp)).
      2:{ intros ->. apply Hn1. rewrite <- Hl. destruct c as [c t]. apply (lastaddr_in c F). }
      destruct (IH b HF Hn2 ltac:(done) Hl) as [(Fa & p & t & Fb & -> & Hn & ->) | [Hall ->]].
      * left. exists ((b, s) :: Fa), p, t, Fb. done.
      * right. split; [by constructor | done].
Qed.

Lemma lastaddr_split a F x : x ∈ a :: addrs F -> exists F1 F2, F = F1 ++ F2 /\ lastaddr a F1 = x.
Proof.
  revert a. induction F as [| [b s] F IH]; intros a Hx.
  - apply list_elem_of_singleton in Hx as ->. by exists [], [].
  - apply elem_of_cons in Hx as [-> | Hx]; [by exists [], ((b, s) :: F) |].
    destruct (IH b Hx) as (F1 & F2 & -> & Hl). by exists ((b, s) :: F1), F2.
Qed.

(** One round from any start finds a block, if there is one. *)
Lemma search_spec F k :
  seg m 0 F 0 -> NoDup (0 :: addrs F) -> fp ∈ 0 :: addrs F -> hsize m 0 = 0 -> 1 <= n ->
  (exists Fa p s Fb, F = Fa ++ (p, s) :: Fb /\ n <= s /\
     search (S (length F) + k) m fp n fp (hnext m fp) = Some (Some (lastaddr 0 Fa, p))) \/
  (Forall (fun b => b.2 < n) F /\ search (S (length F) + k) m fp n fp (hnext m fp) = Some None).
Proof.
  intros Hseg Hn Hfp H0 Hn1. destruct (lastaddr_split _ _ _ Hfp) as (F1 & F2 & -> & Hl).
  apply seg_app in Hseg as [Hs1 Hs2]. rewrite Hl in Hs1, Hs2.
  rewrite map_app in Hn. apply NoDup_cons in Hn as [Hz Hn]. apply NoDup_app in Hn as (Hna & Hnb & Hnc).
  rewrite not_elem_of_app in Hz.
  replace (S (length (F1 ++ F2)) + k)%nat with (length F2 + S (length F1 + k))%nat
    by (rewrite length_app; lia).
  assert (fp ∉ addrs F2) as Hf2.
  { pose proof (lastaddr_in 0 F1) as Hin. rewrite Hl in Hin.
    apply elem_of_cons in Hin as [-> | Hin]; [tauto | by apply Hnb]. }
  destruct (search_seg F2 (S (length F1 + k)) fp 0 Hs2 Hf2) as [(Fa & p & s & Fb & -> & Hs & ->) | [Hall ->]].
  { left. exists (F1 ++ Fa), p, s, Fb. rewrite <- app_assoc, lastaddr_app, Hl. done. }
  cbn [search]. rewrite H0, (proj2 (Z.leb_gt n 0)) by lia.
  destruct (decide (F1 = [])) as [-> | Hne].
  { simpl in Hl. subst fp. rewrite Z.eqb_refl. right. done. }
  rewrite (proj2 (Z.eqb_neq 0 fp)).
  2:{ intros <-. destruct F1 as [| [b s] F1]; [done |]. simpl in Hl. apply (proj1 Hz).
      rewrite <- Hl. apply (lastaddr_in b F1). }
  destruct (search_end F1 k 0 _ Hs1 Hna Hne Hl) as [(Fa & p & s & Fb & -> & Hs & ->) | [Hall' ->]].
  - left. exists Fa, p, s, (Fb ++ F2). by rewrite <- app_assoc.
  - right. split; [by apply Forall_app | done].
Qed.
End Search.

(** ** The loop of free *)
Section Place.
Variables (m : mem) (bp : Z).

Lemma place_up G1 G2 k a lo :
  seg m a (G1 ++ G2) 0 -> a <= lo -> spaced lo (G1 ++ G2) -> 0 <= a < bp ->
  (forall x s, (x, s) ∈ G1 -> x < bp) -> (forall x s, (x, s) ∈ G2 -> bp < x) ->
  place (S (length G1) + k) m bp a = Some (lastaddr a G1).
Proof.
  revert a lo. induction G1 as [| [b s] G1 IH]; intros a lo Hs Hlo Hsp Ha H1 H2.
  - simpl. destruct G2 as [| [c t] G2]; simpl in Hs.
    + rewrite Hs. rewrite (proj2 (Z.ltb_lt a bp)), (proj2 (Z.ltb_ge bp 0)), (proj2 (Z.leb_le 0 a)) by lia. done.
    + destruct Hs as (-> & _). assert (bp < c) by (eapply H2; left).
      by rewrite (proj2 (Z.ltb_lt a bp)), (proj2 (Z.ltb_lt bp c)) by lia.
  - assert (b < bp) by (eapply H1; left). simpl in Hs, Hsp. destruct Hs as (Hb & _ & Hs). destruct Hsp as (Hlb & Hs1 & Hsp).
    cbn [length]. change (S (S (length G1)) + k)%nat with (S (S (length G1) + k)).
    cbn [place]. rewrite Hb.
    rewrite (proj2 (Z.ltb_ge bp b)), andb_false_r, (proj2 (Z.leb_gt b a)) by lia. simpl andb.
    simpl lastaddr. apply (IH b (b + 8 * s)); try done; try lia.
    intros x t Hx. eapply H1. by right.
Qed.

Lemma place_wrap G k a lo :
  seg m a G 0 -> a <= lo -> spaced lo G -> bp < a -> 0 < bp ->
  place (S (length G) + k) m bp a = place k m bp 0.
Proof.
  revert a lo. induction G as [| [b s] G IH]; intros a lo Hs Hlo Hsp Ha Hp; cbn [length].
  - simpl in Hs. simpl. rewrite Hs.
    rewrite (proj2 (Z.ltb_ge a bp)), (proj2 (Z.ltb_ge bp 0)) by lia. simpl orb. by rewrite !andb_false_r.
  - simpl in Hs, Hsp. destruct Hs as (Hb & _ & Hs). destruct Hsp as (Hlb & Hs1 & Hsp).
    change (S (S (length G)) + k)%nat with (S (S (length G) + k)). cbn [place]. rewrite Hb.
    rewrite (proj2 (Z.ltb_ge a bp)), (proj2 (Z.leb_gt b a)) by lia. simpl andb.
    apply (IH b (b + 8 * s)); try done; lia.
Qed.

Lemma place_spec G1 G2 fp lo k :
  seg m 0 (G1 ++ G2) 0 -> 0 <= lo -> spaced lo (G1 ++ G2) -> 0 < bp ->
  fp ∈ 0 :: addrs (G1 ++ G2) ->
  (forall x s, (x, s) ∈ G1 -> x < bp) -> (forall x s, (x, s) ∈ G2 -> bp < x) ->
  (2 * S (length (G1 ++ G2)) <= k)%nat ->
  place k m bp fp = Some (lastaddr 0 G1).
Proof.
  intros Hs Hlo Hsp Hbp Hfp H1 H2 Hk. destruct (lastaddr_split _ _ _ Hfp) as (F1 & F2 & HF & Hl).
  pose proof Hs as Hs0. pose proof Hsp as Hsp0. rewrite HF in Hs0, Hsp0.
  apply seg_app in Hs0 as [_ Hs2]. rewrite Hl in Hs2.
  assert (length F2 <= length (G1 ++ G2))%nat as Hlen by (rewrite HF, length_app; lia).
  assert (exists lo', fp <= lo' /\ spaced lo' F2) as (lo' & Hlo' & Hsp2).
  { destruct (spaced_app _ _ _ Hsp0) as [Ha Hb].
    pose proof (lastaddr_in 0 F1) as Hin. rewrite Hl in Hin.
    apply elem_of_cons in Hin as [-> | Hin].
    - exists 0. split; [done |]. clear -Hsp0 Hlo Hb. destruct F1 as [| [b s] F1]; [by eapply spaced_weaken |].
      simpl in Hsp0. destruct Hsp0 as (? & ? & _). eapply spaced_weaken; [apply (Hb b s); left | lia].
    - apply addrs_elem in Hin as [s Hin]. exists (fp + 8 * s).
      pose proof (spaced_lower _ _ _ _ Ha Hin). split; [lia | by eapply Hb]. }
  assert (forall j, place (S (length G1) + j) m bp 0 = Some (lastaddr 0 G1)) as Hzero.
  { intros j. eapply place_up; try done. }
  destruct (decide (fp < bp)) as [Hlt | Hge].
  - (* the place is behind [fp] *)
    assert (exists H1', G1 = F1 ++ H1' /\ F2 = H1' ++ G2) as (H1' & -> & ->).
    { clear -HF Hl Hlt H2 Hsp Hlo. apply app_eq_inv in HF as [(k & -> & ->) | (k & -> & ->)]; [eauto |].
      destruct k as [| c k] using rev_ind; [exists []; by rewrite !app_nil_r |]. exfalso.
      destruct c as [c t]. rewrite !lastaddr_app in Hl. simpl in Hl. subst c.
      assert (bp < fp); [| lia]. apply (H2 fp t). set_solver. }
    rewrite lastaddr_app, Hl. assert (0 <= fp).
    { pose proof (lastaddr_in 0 F1) as Hin. rewrite Hl in Hin. apply elem_of_cons in Hin as [-> | Hin]; [lia |].
      apply addrs_elem in Hin as [s Hin]. rewrite <- app_assoc in Hsp. apply spaced_app in Hsp as [Hsp _].
      apply (spaced_lower _ _ _ _ Hsp) in Hin. lia. }
    replace k with (S (length H1') + (k - S (length H1')))%nat by (rewrite !length_app in *; lia).
    eapply place_up; try done. intros x s Hx. eapply H1, elem_of_app. by right.
  - assert (bp < fp).
    { assert (fp <> bp); [| lia]. intros ->. apply elem_of_cons in Hfp as [| Hfp]; [lia |].
      apply addrs_elem in Hfp as [s [Hx | Hx]%elem_of_app]; [apply H1 in Hx | apply H2 in Hx]; lia. }
    replace k with (S (length F2) + (S (length G1) + (k - S (length F2) - S (length G1))))%nat
      by (rewrite !length_app in *; lia).
    rewrite (place_wrap F2 _ fp lo'); try done.
Qed.
End Place.

(** ** Heaps *)
Definition sizeof_heap : Z := 72.

Definition used_units (A : gmap Z Z) : Z := map_fold (fun _ u acc => u + acc) 0 A.

Lemma used_units_insert A a u : A !! a = None -> used_units (<[a := u]> A) = u + used_units A.
Proof. intros Ha. unfold used_units. rewrite map_fold_insert_L; [done | lia | done]. Qed.

Lemma used_units_delete A a u : A !! a = Some u -> used_units A = u + used_units (delete a A).
Proof. intros Ha. unfold used_units. rewrite (map_fold_delete_L _ _ a u A); [done | lia | done]. Qed.

(** A block in use: its header, as malloc leaves it. *)
Record used_block (m : mem) (a u : Z) : Prop := UsedBlock {
  ub_size : hsize m a = u;
  ub_attr : hattr m a = 0;
  ub_units : 1 <= u;
  ub_range : sizeof_heap <= a /\ a + 8 * u <= 2 ^ 32;
}.

Definition disjoint_blocks (a u b v : Z) : Prop := a + 8 * u <= b \/ b + 8 * v <= a.

(** The arenas hold less than 2^24 units: the size field has 24 bits. *)
Record rep (h : rtapi_heap) (F : list (Z * Z)) (A : gmap Z Z) : Prop := Rep {
  r_seg : seg (hp_mem h) 0 F 0;
  r_base : hsize (hp_mem h) 0 = 0;
  r_spaced : spaced (sizeof_heap - 1) F;
  r_free_p : hp_free_p h ∈ 0 :: addrs F;
  r_high : forall b s, (b, s) ∈ F -> b + 8 * s <= 2 ^ 32;
  r_used : forall a u, A !! a = Some u -> used_block (hp_mem h) a u;
  r_disjoint : forall a u b v, A !! a = Some u -> A !! b = Some v -> a <> b -> disjoint_blocks a u b v;
  r_disjoint_free : forall a u b s, A !! a = Some u -> (b, s) ∈ F -> disjoint_blocks a u b s;
  r_units : units F + used_units A < 2 ^ 24;
  r_arena : 8 * (units F + used_units A) <= hp_arena_size h;
}.

Lemma used_units_nonneg A : (forall a u, A !! a = Some u -> 1 <= u) -> 0 <= used_units A.
Proof.
  intros HA. unfold used_units. apply (map_fold_weak_ind (fun r A' => (forall a u, A' !! a = Some u -> 1 <= u) -> 0 <= r));
    [done | | done].
  intros a u A' r Ha IH HA'. assert (1 <= u) by (apply (HA' a); by rewrite lookup_insert_eq).
  enough (0 <= r) by lia. apply IH. intros b v Hb. apply (HA' b). rewrite lookup_insert_ne; [done |]. congruence.
Qed.

(** ** Separation of headers *)
Lemma spaced_sep lo F x y : spaced lo F -> x ∈ addrs F -> y ∈ addrs F -> x = y \/ sep x y.
Proof.
  revert lo. induction F as [| [b s] F IH]; intros lo; simpl; [by intros _ ?%not_elem_of_nil |].
  intros (Hb & Hs & HF) [-> | Hx]%elem_of_cons [-> | Hy]%elem_of_cons; [by left | | | by eapply IH].
  - right. apply addrs_elem in Hy as [t Hy]. apply (spaced_lower _ _ _ _ HF) in Hy. unfold sep. lia.
  - right. apply addrs_elem in Hx as [t Hx]. apply (spaced_lower _ _ _ _ HF) in Hx. unfold sep. lia.
Qed.

Lemma heads_sep F x y : spaced (sizeof_heap - 1) F -> x ∈ 0 :: addrs F -> y ∈ 0 :: addrs F -> x = y \/ sep x y.
Proof.
  intros HF. assert (forall z, z ∈ addrs F -> sep 0 z) as H0.
  { intros z Hz. apply addrs_elem in Hz as [t Hz]. apply (spaced_lower _ _ _ _ HF) in Hz.
    unfold sep, sizeof_heap in *. lia. }
  intros [-> | Hx]%elem_of_cons [-> | Hy]%elem_of_cons.
  - by left.
  - right. by apply H0.
  - right. destruct (H0 x Hx); [by right | by left].
  - by eapply spaced_sep.
Qed.

Lemma addr_in (F : list (Z * Z)) b s : (b, s) ∈ F -> b ∈ addrs F.
Proof. intros Hb. by apply (list_elem_of_fmap_2 fst F (b, s)). Qed.

Lemma used_block_agree m m' a u :
  used_block m a u -> agree m m' a (a + 8) -> used_block m' a u.
Proof.
  intros [Hs Ha Hu Hr] Hag. assert (tag m' a = tag m a) as Ht.
  { unfold tag. apply load32_agree. eapply agree_sub; [done | lia | lia]. }
  split; [by rewrite (hsize_tag m) | by rewrite (hattr_tag m) | done | done].
Qed.

(** Outside the free blocks (and the sentinel) nothing changes. *)
Definition frame (m m' : mem) (F : list (Z * Z)) : Prop :=
  forall lo hi, 8 <= lo -> (forall b s, (b, s) ∈ F -> b + 8 * s <= lo \/ hi <= b) -> agree m m' lo hi.

Lemma frame_refl m F : frame m m F.
Proof. done. Qed.

Lemma frame_trans m1 m2 m3 F : frame m1 m2 F -> frame m2 m3 F -> frame m1 m3 F.
Proof. intros H1 H2 lo hi Hlo HF. eapply agree_trans; eauto. Qed.

Lemma frame_set_next m p v F : p ∈ 0 :: addrs F -> (forall b s, (b, s) ∈ F -> 1 <= s) -> frame m (set_next m p v) F.
Proof.
  intros Hp Hs lo hi Hlo HF. apply set_next_agree. apply elem_of_cons in Hp as [-> | Hp]; [lia |].
  apply addrs_elem in Hp as [s Hp]. specialize (HF _ _ Hp). specialize (Hs _ _ Hp). lia.
Qed.

Lemma frame_set_tag m p n a F b s :
  (b, s) ∈ F -> b <= p -> p + 8 <= b + 8 * s -> frame m (set_tag m p n a) F.
Proof.
  intros Hb Hp Hs lo hi Hlo HF. apply set_tag_agree. specialize (HF _ _ Hb). lia.
Qed.

Lemma frame_used m m' F a u : frame m m' F ->
  (forall b s, (b, s) ∈ F -> disjoint_blocks a u b s) -> sizeof_heap <= a -> agree m m' a (a + 8 * u).
Proof.
  intros Hf Hd Ha. apply Hf; [unfold sizeof_heap in Ha; lia |]. intros b s Hb.
  specialize (Hd b s Hb). unfold disjoint_blocks in Hd. lia.
Qed.

(** ** Malloc on lists: [n] units from the end of a block *)
Definition taken (Fa : list (Z * Z)) (p s n : Z) (Fb : list (Z * Z)) : list (Z * Z) :=
  Fa ++ (if s =? n then [] else [(p, s - n)]) ++ Fb.

Section Carve.
Variables (m : mem) (Fa Fb : list (Z * Z)) (p s n : Z).
Hypothesis Hseg : seg m 0 (Fa ++ (p, s) :: Fb) 0.
Hypothesis Hsp : spaced (sizeof_heap - 1) (Fa ++ (p, s) :: Fb).
Hypothesis Hhigh : forall b t, (b, t) ∈ Fa ++ (p, s) :: Fb -> b + 8 * t <= 2 ^ 32.
Hypothesis Hn : 1 <= n <= s.

Let F := Fa ++ (p, s) :: Fb.
Let prevp := lastaddr 0 Fa.

Lemma carve_heads :
  p ∈ 0 :: addrs F /\ prevp ∈ 0 :: addrs F /\
  (forall x, x ∈ addrs Fa -> x ∈ 0 :: addrs F) /\ (forall x, x ∈ addrs Fb -> x ∈ 0 :: addrs F) /\
  (forall x, x ∈ 0 :: addrs Fa -> sep p x) /\ (forall x, x ∈ addrs Fb -> sep p x).
Proof.
  assert (forall x, x ∈ 0 :: addrs F <-> x ∈ 0 :: addrs Fa \/ x = p \/ x ∈ addrs Fb) as HF.
  { intros x. unfold F. rewrite map_app. simpl. rewrite !elem_of_cons, elem_of_app, elem_of_cons. tauto. }
  assert (NoDup (0 :: addrs F)) as Hnd by (apply (spaced_NoDup (sizeof_heap - 1)); done).
  unfold F in Hnd. rewrite map_app in Hnd. simpl in Hnd.
  change (NoDup ((0 :: addrs Fa) ++ p :: addrs Fb)) in Hnd.
  apply NoDup_app in Hnd as (_ & Hd & Hnd). apply NoDup_cons in Hnd as [Hpb _].
  assert (p ∈ 0 :: addrs F) as Hp by (apply HF; tauto). split; [done |].
  split; [apply HF; left; apply lastaddr_in |].
  split; [intros x Hx; apply HF; left; by right |]. split; [intros x Hx; apply HF; tauto |].
  split; intros x Hx.
  - destruct (heads_sep F p x Hsp Hp) as [-> |]; [apply HF; by left | | done].
    destruct (Hd x Hx). left.
  - destruct (heads_sep F p x Hsp Hp) as [-> |]; [apply HF; tauto | done | done].
Qed.

Lemma carve_next : 0 <= hnext m p < 2 ^ 32.
Proof.
  pose proof Hseg as Hs. apply seg_app in Hs as [_ Hs]. simpl in Hs. destruct Hs as (_ & _ & Hs).
  destruct Fb as [| [b t] Fb']; simpl in Hs; [lia |]. destruct Hs as (-> & _).
  assert ((b, t) ∈ Fa ++ (p, s) :: (b, t) :: Fb') as Hb by set_solver.
  pose proof (spaced_lower _ _ _ _ Hsp Hb). specialize (Hhigh _ _ Hb). unfold sizeof_heap in *. lia.
Qed.

Lemma carve_order : (forall x, x ∈ 0 :: addrs Fa -> x ∈ addrs Fb -> False) /\
  (forall x t, (x, t) ∈ Fb -> p + 8 * s < x) /\ (forall x, x ∈ 0 :: addrs Fa -> x + 8 <= p).
Proof.
  assert (NoDup (0 :: addrs F)) as Hall by (apply (spaced_NoDup (sizeof_heap - 1)); done).
  unfold F in Hall. rewrite map_app in Hall. simpl in Hall.
  change (NoDup ((0 :: addrs Fa) ++ p :: addrs Fb)) in Hall.
  apply NoDup_app in Hall as (_ & Hall & _). split; [| split].
  - intros x Hx Hb. apply (Hall x Hx). by right.
  - intros x t Hx. assert (spaced (p + 8 * s) Fb) as Hsf.
    { destruct (spaced_app _ _ _ Hsp) as [Hsp1 Hsp']. destruct Fa as [| [c r] Fa']; [by destruct Hsp as (_ & _ & ?) |].
      by destruct (Hsp' c r ltac:(left)) as (_ & _ & ?). }
    by apply (spaced_lower _ _ _ _ Hsf) in Hx as [? _].
  - intros x [-> | Hx]%elem_of_cons.
    + assert ((p, s) ∈ F) as HpF by (unfold F; set_solver).
      apply (spaced_lower _ _ _ _ Hsp) in HpF. unfold sizeof_heap in *. lia.
    + apply addrs_elem in Hx as [t Hx]. destruct (spaced_app _ _ _ Hsp) as [Hsp1 Hsp'].
      destruct (Hsp' _ _ Hx) as (? & _). apply (spaced_lower _ _ _ _ Hsp1) in Hx. lia.
Qed.

(** What both cases establish. *)
Definition carved (m' : mem) (q : Z) : Prop :=
  q = p + 8 * (s - n) /\ seg m' 0 (taken Fa p s n Fb) 0 /\ hsize m' q = n /\ hattr m' q = 0 /\
  hsize m' 0 = hsize m 0 /\ frame m m' F.

Lemma carve_sizes : (p, s) ∈ F /\ s < 2 ^ 24 /\ hsize m p = s /\ seg m 0 Fa (hnext m prevp) /\
  hnext m prevp = p /\ seg m p Fb 0 /\ (forall b t, (b, t) ∈ F -> 1 <= t).
Proof.
  pose proof Hseg as Hs. apply seg_app in Hs as [Hsa Hs]. simpl in Hs. destruct Hs as (Hnp & Hsz & Hsb).
  split; [unfold F; set_solver |]. split; [rewrite <- Hsz; apply hsize_range |]. repeat split; try done.
  intros b t Hb. by apply (spaced_lower _ _ _ _ Hsp) in Hb as [_ ?].
Qed.

(** The whole block: its predecessor is linked to its successor. *)
Lemma carve_whole : s = n -> carved (set_attr (set_next m prevp (hnext m p)) p 0) p.
Proof.
  intros Heq. destruct carve_heads as (Hp & Hpr & Hin1 & Hin2 & Hs1 & Hs2).
  destruct carve_order as (Hord & _ & _). destruct carve_sizes as (HpF & Hs24 & Hsz & Hsa & Hnp & Hsb & H1).
  set (m1 := set_next m prevp (hnext m p)). unfold set_attr. set (m' := set_tag m1 p (hsize m1 p) 0).
  assert (sep p prevp) as Hsep by (apply Hs1, lastaddr_in).
  assert (hnext m' prevp = hnext m p) as Hpv.
  { unfold m'. rewrite hnext_set_tag by (by right). unfold m1. by rewrite hnext_set_next by apply carve_next. }
  assert (forall x, x ∈ 0 :: addrs F -> x <> prevp -> hnext m' x = hnext m x) as Hnx.
  { intros x Hx Hne. unfold m'. rewrite hnext_set_tag by (by eapply heads_sep).
    apply hnext_set_next_ne. by destruct (heads_sep F prevp x Hsp Hpr Hx) as [<- |]. }
  assert (forall x, x ∈ 0 :: addrs F -> hsize m1 x = hsize m x) as Ht1.
  { intros x Hx. apply hsize_tag, tag_set_next. by eapply heads_sep. }
  assert (forall x, x ∈ 0 :: addrs F -> sep p x -> hsize m' x = hsize m x) as Htg.
  { intros x Hx Hpx. rewrite <- Ht1 by done. apply hsize_tag. by apply tag_set_tag_ne. }
  split; [lia |]. unfold taken. rewrite (proj2 (Z.eqb_eq s n)) by done. split; [| split; [| split; [| split]]].
  - apply seg_app. fold prevp. split.
    + eapply seg_change; [exact Hsa | | |].
      * apply spaced_app in Hsp as [Ha _]. by apply (spaced_NoDup (sizeof_heap - 1)).
      * intros x [-> | Hx]%elem_of_cons Hne; apply Hnx; try done; [left | by apply Hin1].
      * intros x Hx. apply Htg; [by apply Hin1 | apply Hs1; by right].
    + apply (seg_start _ p); [| rewrite Hpv, Hnx; [done | done |]].
      2:{ intros ->. destruct Hsep; lia. }
      eapply seg_same; [exact Hsb | |].
      * intros x [-> | Hx]%elem_of_cons; apply Hnx; [done | | by apply Hin2 |].
        -- intros ->. destruct Hsep; lia.
        -- intros ->. eapply Hord; [apply lastaddr_in | done].
      * intros x Hx. apply Htg; [by apply Hin2 | by apply Hs2].
  - unfold m'. rewrite hsize_set_tag, Ht1, Hsz by done. rewrite Z.mod_small; lia.
  - unfold m'. by rewrite hattr_set_tag.
  - apply Htg; [left | apply Hs1; left].
  - eapply frame_trans; [by apply frame_set_next | eapply frame_set_tag; [exact HpF | lia | lia]].
Qed.

(** The end of the block: the rest stays in the list. *)
Lemma carve_tail :
  s <> n -> let q := p + 8 * (s - n) in
  carved (set_attr (set_size (set_size m p (s - n)) q n) q 0) q.
Proof.
  intros Hne q. destruct carve_heads as (Hp & Hpr & Hin1 & Hin2 & Hs1 & Hs2).
  destruct carve_order as (_ & Hup & Hlo). destruct carve_sizes as (HpF & Hs24 & Hsz & Hsa & Hnp & Hsb & H1).
  unfold set_attr, set_size.
  set (m1 := set_tag m p (s - n) (hattr m p)). set (m2 := set_tag m1 q n (hattr m1 q)).
  set (m3 := set_tag m2 q (hsize m2 q) 0).
  assert (sep q p) as Hqp by (unfold sep, q; lia).
  assert (forall x, x ∈ 0 :: addrs F -> x <> p -> sep p x /\ sep q x) as Hother.
  { intros x Hx Hxp. destruct (heads_sep F p x Hsp Hp Hx) as [-> | Hpx]; [done |]. split; [done |].
    unfold F in Hx. rewrite map_app in Hx. simpl in Hx.
    change (x ∈ (0 :: addrs Fa) ++ p :: addrs Fb) in Hx. apply elem_of_app in Hx as [Hx | [Hx | Hx]%elem_of_cons].
    - specialize (Hlo x Hx). unfold sep, q. lia.
    - done.
    - apply addrs_elem in Hx as [t Hx]. specialize (Hup x t Hx). unfold sep, q. lia. }
  assert (forall x, x ∈ 0 :: addrs F -> hnext m3 x = hnext m x) as Hnx.
  { intros x Hx. unfold m3, m2, m1. destruct (decide (x = p)) as [-> | Hxp].
    - rewrite !hnext_set_tag by auto. done.
    - destruct (Hother x Hx Hxp). rewrite !hnext_set_tag by auto. done. }
  assert (forall x, x ∈ 0 :: addrs F -> x <> p -> hsize m3 x = hsize m x) as Htg.
  { intros x Hx Hxp. destruct (Hother x Hx Hxp). apply hsize_tag. unfold m3, m2, m1.
    by rewrite !tag_set_tag_ne. }
  assert (hsize m3 p = s - n) as Hsp3.
  { transitivity (hsize m1 p); [apply hsize_tag; unfold m3, m2; by rewrite !tag_set_tag_ne |].
    unfold m1. rewrite hsize_set_tag. apply Z.mod_small. lia. }
  split; [done |]. unfold taken. rewrite (proj2 (Z.eqb_neq s n)) by done.
  split; [| split; [| split; [| split]]].
  - simpl app. apply seg_app. fold prevp. rewrite Hnx by done. simpl. split; [| split; [by rewrite Hnx | split; [done |]]].
    + eapply seg_same; [exact Hsa | |].
      * intros x [-> | Hx]%elem_of_cons; apply Hnx; [left | by apply Hin1].
      * intros x Hx. apply Htg; [by apply Hin1 |]. intros ->.
        assert (sep p p) as [] by (apply Hs1; by right); lia.
    + eapply seg_same; [exact Hsb | |].
      * intros x [-> | Hx]%elem_of_cons; apply Hnx; [done | by apply Hin2].
      * intros x Hx. apply Htg; [by apply Hin2 |]. intros ->.
        assert (sep p p) as [] by (by apply Hs2); lia.
  - unfold m3. rewrite hsize_set_tag. unfold m2. rewrite hsize_set_tag, Zmod_mod. apply Z.mod_small. lia.
  - unfold m3. by rewrite hattr_set_tag.
  - apply Htg; [left |]. intros <-. specialize (Hlo 0 ltac:(left)). lia.
  - apply (frame_trans _ m1); [eapply frame_set_tag; [exact HpF | lia | lia] |].
    apply (frame_trans _ m2); eapply frame_set_tag; try exact HpF; unfold q; lia.
Qed.

Lemma carve_spec m' q : carve m prevp p n = (m', q) -> carved m' q.
Proof.
  destruct carve_sizes as (HpF & Hs24 & Hsz & _). unfold carve. rewrite Hsz.
  destruct (s =? n) eqn:E; zb; intros [= <- <-].
  - by apply carve_whole.
  - assert (hsize (set_size m p (s - n)) p = s - n) as ->.
    { unfold set_size. rewrite hsize_set_tag. apply Z.mod_small. lia. }
    by apply carve_tail.
Qed.
End Carve.

(** ** Malloc *)
Lemma spaced_taken lo Fa p s n Fb :
  spaced lo (Fa ++ (p, s) :: Fb) -> 1 <= n <= s -> spaced lo (taken Fa p s n Fb).
Proof.
  unfold taken. revert lo. induction Fa as [| [b t] Fa IH]; intros lo; simpl.
  - intros (Hp & Hs & HF) Hn. destruct (s =? n) eqn:E; zb; simpl.
    + eapply spaced_weaken; [done | lia].
    + split; [done |]. split; [lia |]. eapply spaced_weaken; [done | lia].
  - intros (? & ? & HF) Hn. split; [done |]. split; [done |]. by apply IH.
Qed.

Lemma units_taken Fa p s n Fb : units (taken Fa p s n Fb) = units (Fa ++ (p, s) :: Fb) - n.
Proof. unfold taken. rewrite !units_app. simpl. destruct (s =? n) eqn:E; zb; simpl; lia. Qed.

Lemma taken_elem Fa p s n Fb b t : (b, t) ∈ taken Fa p s n Fb ->
  ((b, t) ∈ Fa ++ Fb) \/ (b = p /\ t = s - n /\ s <> n).
Proof.
  unfold taken. destruct (s =? n) eqn:E; zb; simpl; rewrite !elem_of_app; [tauto |].
  rewrite elem_of_cons. intros [? | [[= -> ->] | ?]]; auto.
Qed.

Lemma spaced_disjoint lo Fa p s Fb b t :
  spaced lo (Fa ++ (p, s) :: Fb) -> (b, t) ∈ Fa ++ Fb -> b + 8 * t < p \/ p + 8 * s < b.
Proof.
  intros Hsp [Hb | Hb]%elem_of_app.
  - left. destruct (spaced_app _ _ _ Hsp) as [_ H2]. by destruct (H2 _ _ Hb) as (? & _).
  - right. assert (spaced (p + 8 * s) Fb) as Hsf.
    { destruct (spaced_app _ _ _ Hsp) as [_ H2]. destruct Fa as [| [c r] Fa]; [by destruct Hsp as (_ & _ & ?) |].
      by destruct (H2 c r ltac:(left)) as (_ & _ & ?). }
    by apply (spaced_lower _ _ _ _ Hsf) in Hb as [? _].
Qed.

Lemma taken_addrs Fa p s n Fb : lastaddr 0 Fa ∈ 0 :: addrs (taken Fa p s n Fb).
Proof.
  unfold taken. rewrite map_app. pose proof (lastaddr_in 0 Fa) as [-> | Hin]%elem_of_cons; [left |].
  right. apply elem_of_app. by left.
Qed.

Section MallocRep.
Variables (h h' : rtapi_heap) (Fa Fb : list (Z * Z)) (p s n : Z) (A : gmap Z Z).
Let F := Fa ++ (p, s) :: Fb.
Let q := p + 8 * (s - n).
Hypothesis Hr : rep h F A.
Hypothesis Hn : 1 <= n <= s.
Hypothesis Hc : carved (hp_mem h) Fa Fb p s n (hp_mem h') q.
Hypothesis Hfp : hp_free_p h' = lastaddr 0 Fa.
Hypothesis Har : hp_arena_size h' = hp_arena_size h.

Lemma carved_in : (p, s) ∈ F.
Proof. unfold F. apply elem_of_app. right. left. Qed.

Lemma carved_fresh : A !! q = None.
Proof.
  destruct (A !! q) as [u |] eqn:E; [| done]. exfalso.
  pose proof (r_disjoint_free _ _ _ Hr _ _ _ _ E carved_in) as Hd.
  pose proof (ub_units _ _ _ (r_used _ _ _ Hr _ _ E)). unfold disjoint_blocks, q in Hd. lia.
Qed.

Lemma rep_malloc : rep h' (taken Fa p s n Fb) (<[q := n]> A).
Proof.
  destruct Hc as (Hq & Hseg & Hsz & Hat & Hb0 & Hfr).
  pose proof (spaced_lower _ _ _ _ (r_spaced _ _ _ Hr) carved_in) as [Hlow _].
  pose proof (r_high _ _ _ Hr _ _ carved_in) as Hhi.
  assert (forall a u, A !! a = Some u -> disjoint_blocks a u p s) as Hdp.
  { intros a u Ha. apply (r_disjoint_free _ _ _ Hr _ _ _ _ Ha carved_in). }
  assert (forall b t, (b, t) ∈ Fa ++ Fb -> (b, t) ∈ F) as Hsub.
  { intros b t Hb. unfold F. rewrite elem_of_app, elem_of_cons. apply elem_of_app in Hb. tauto. }
  split.
  - done.
  - rewrite Hb0. apply Hr.
  - apply spaced_taken; [apply Hr | done].
  - rewrite Hfp. apply taken_addrs.
  - intros b t [Hb | (-> & -> & _)]%taken_elem; [apply (r_high _ _ _ Hr), Hsub, Hb | lia].
  - intros a u Ha. destruct (decide (a = q)) as [Ea |].
    + rewrite Ea, lookup_insert_eq in Ha. injection Ha as <-. rewrite Ea. split; [done | done | lia |]. unfold sizeof_heap, q in *. lia.
    + rewrite lookup_insert_ne in Ha by done. pose proof (r_used _ _ _ Hr _ _ Ha) as Hu.
      eapply used_block_agree; [done |]. destruct Hu as [_ _ Hu [Hra _]].
      eapply agree_sub; [eapply (frame_used _ _ F a u Hfr); [|done] | lia | lia].
      intros b t Hb. by apply (r_disjoint_free _ _ _ Hr _ _ _ _ Ha).
  - intros a u b v Ha Hb Hne. unfold disjoint_blocks in *.
    destruct (decide (a = q)) as [Ea |]; destruct (decide (b = q)) as [Eb |]; [congruence | | |].
    + rewrite Ea, lookup_insert_eq in Ha. injection Ha as <-. rewrite lookup_insert_ne in Hb by done.
      specialize (Hdp _ _ Hb). unfold q. lia.
    + rewrite Eb, lookup_insert_eq in Hb. injection Hb as <-. rewrite lookup_insert_ne in Ha by done.
      specialize (Hdp _ _ Ha). unfold q. lia.
    + rewrite lookup_insert_ne in Ha, Hb by done. by apply (r_disjoint _ _ _ Hr _ _ _ _ Ha Hb).
  - intros a u b t Ha Hb. unfold disjoint_blocks in *. destruct (decide (a = q)) as [Ea |].
    + rewrite Ea, lookup_insert_eq in Ha. injection Ha as <-. apply taken_elem in Hb as [Hb | (-> & -> & _)]; [| unfold q; lia].
      pose proof (spaced_disjoint _ _ _ _ _ _ _ (r_spaced _ _ _ Hr) Hb). unfold q. lia.
    + rewrite lookup_insert_ne in Ha by done. apply taken_elem in Hb as [Hb | (-> & -> & _)].
      * by apply (r_disjoint_free _ _ _ Hr _ _ _ _ Ha), Hsub.
      * specialize (Hdp _ _ Ha). lia.
  - rewrite units_taken, used_units_insert by apply carved_fresh. pose proof (r_units _ _ _ Hr). unfold F in *. lia.
  - rewrite units_taken, used_units_insert by apply carved_fresh. pose proof (r_arena _ _ _ Hr). unfold F in *. lia.
Qed.
End MallocRep.

Lemma used_units_rep h F A : rep h F A -> 0 <= used_units A.
Proof. intros Hr. apply used_units_nonneg. intros a u Ha. apply (r_used _ _ _ Hr _ _ Ha). Qed.

Lemma rep_fuel h F A : rep h F A -> (S (length F) <= fuel h)%nat.
Proof.
  intros Hr. pose proof (units_length _ _ (r_spaced _ _ _ Hr)). pose proof (used_units_rep _ _ _ Hr).
  pose proof (r_arena _ _ _ Hr) as Ha. unfold fuel, sizeof_hdr.
  assert (units F <= hp_arena_size h / 8) by (apply Z.div_le_lower_bound; lia). lia.
Qed.

Definition malloc_units (nbytes : Z) : Z := (nbytes + 7) / 8 + 1.

(** The outcome of a malloc that got [n] units from the end of block [p]. *)
Record malloced h (F : list (Z * Z)) (A : gmap Z Z) (n q : Z) h' : Prop := Malloced {
  md_block : exists Fa p s Fb, F = Fa ++ (p, s) :: Fb /\ n <= s /\ q = p + 8 * (s - n) /\
     rep h' (taken Fa p s n Fb) (<[q := n]> A);
  md_fresh : A !! q = None;
  md_frame : frame (hp_mem h) (hp_mem h') F;
  md_arena : hp_arena_size h' = hp_arena_size h;
  md_flags : hp_flags h' = hp_flags h;
}.

Lemma malloc_run h F A nbytes :
  rep h F A -> 0 <= nbytes < 2 ^ 64 - 7 ->
  (exists q h', rtapi_malloc nbytes h = (Ok (Some (q + 8)), h') /\ malloced h F A (malloc_units nbytes) q h') \/
  (Forall (fun b => b.2 < malloc_units nbytes) F /\ rtapi_malloc nbytes h = (Ok None, h)).
Proof.
  intros Hr Hb. assert (block_units nbytes = malloc_units nbytes) as Hu.
  { unfold block_units, malloc_units, sizeof_hdr. rewrite wrapu_small by lia. do 2 f_equal. lia. }
  assert (1 <= malloc_units nbytes) as Hn1.
  { unfold malloc_units. pose proof (Z.div_pos (nbytes + 7) 8). lia. }
  unfold rtapi_malloc, mbind, M_bind, get. rewrite Hu. set (n := malloc_units nbytes) in *.
  pose proof (rep_fuel _ _ _ Hr) as Hfuel.
  replace (fuel h) with (S (length F) + (fuel h - S (length F)))%nat by lia.
  destruct (search_spec (hp_mem h) (hp_free_p h) n F (fuel h - S (length F))) as
    [(Fa & p & s & Fb & HF & Hs & ->) | [Hall ->]]; try apply Hr; try done.
  { apply (spaced_NoDup (sizeof_heap - 1)); [done | apply Hr]. }
  - left. destruct (carve (hp_mem h) (lastaddr 0 Fa) p n) as [m' q] eqn:Ec. subst F.
    pose proof (carve_spec _ Fa Fb p s n (r_seg _ _ _ Hr) (r_spaced _ _ _ Hr) (r_high _ _ _ Hr) ltac:(lia) _ _ Ec) as Hc.
    pose proof Hc as (Hq & _). eexists q, _. split; [done |]. subst q. split; try done.
    + exists Fa, p, s, Fb. split; [done |]. split; [done |]. split; [done |].
      eapply (rep_malloc h); try done.
    + eapply (carved_fresh h); done.
    + apply Hc.
  - right. done.
Qed.
