(* ===== verification/HeapFree.v ===== *)
(** * Facts about the heap: free and added memory

    [release] is free on the list of free blocks; the code refines it. *)
From S2P Require Import Prelude Mem Heap HeapFacts.
Import Heap.

(** ** Free on lists *)
Definition merge_up (bp u : Z) (F : list (Z * Z)) : list (Z * Z) :=
  match F with
  | (b, s) :: F' => if bp + 8 * u =? b then (bp, u + s) :: F' else (bp, u) :: F
  | [] => [(bp, u)]
  end.

(** The block goes to its place and is joined with adjacent blocks. *)
Fixpoint release (bp u : Z) (F : list (Z * Z)) : list (Z * Z) :=
  match F with
  | [] => [(bp, u)]
  | (b, s) :: F' =>
      if b <? bp then
        if b + 8 * s =? bp
        then match merge_up bp u F' with (_, w) :: R => (b, s + w) :: R | [] => [] end
        else (b, s) :: release bp u F'
      else merge_up bp u F
  end.

(** The size of the block joined with its upper neighbour, and the blocks
    behind it. *)
Definition up_size (bp u : Z) (G : list (Z * Z)) : Z :=
  match G with (b, s) :: _ => if bp + 8 * u =? b then u + s else u | [] => u end.
Definition up_rest (bp u : Z) (G : list (Z * Z)) : list (Z * Z) :=
  match G with (b, s) :: G' => if bp + 8 * u =? b then G' else G | [] => [] end.

Lemma merge_up_eq bp u G : merge_up bp u G = (bp, up_size bp u G) :: up_rest bp u G.
Proof. destruct G as [| [b s] G]; simpl; [done |]. by destruct (bp + 8 * u =? b). Qed.

Lemma units_up bp u G : up_size bp u G + units (up_rest bp u G) = u + units G.
Proof. destruct G as [| [b s] G]; simpl; [done |]. destruct (bp + 8 * u =? b); simpl; lia. Qed.

Lemma up_rest_sub bp u G x : x ∈ up_rest bp u G -> x ∈ G.
Proof.
  destruct G as [| [b s] G]; simpl; [done |]. destruct (bp + 8 * u =? b); [by right | done].
Qed.

Lemma release_split lo G1 G2 bp u :
  spaced lo (G1 ++ G2) -> (forall x s, (x, s) ∈ G1 -> x + 8 * s <= bp) ->
  (forall x s, (x, s) ∈ G2 -> bp < x) ->
  (G1 = [] /\ release bp u (G1 ++ G2) = (bp, up_size bp u G2) :: up_rest bp u G2) \/
  (exists G p s, G1 = G ++ [(p, s)] /\ release bp u (G1 ++ G2) =
     G ++ (if p + 8 * s =? bp then (p, s + up_size bp u G2) :: up_rest bp u G2
           else (p, s) :: (bp, up_size bp u G2) :: up_rest bp u G2)).
Proof.
  revert lo. induction G1 as [| [b s] G1 IH]; intros lo Hsp H1 H2.
  - left. split; [done |]. simpl. rewrite <- merge_up_eq. destruct G2 as [| [c t] G2]; [done |].
    simpl release. rewrite (proj2 (Z.ltb_ge c bp)); [done |]. specialize (H2 c t ltac:(left)). lia.
  - right. simpl in Hsp. destruct Hsp as (Hb & Hs & Hsp).
    assert (b + 8 * s <= bp) by (apply (H1 b s); left). simpl. rewrite (proj2 (Z.ltb_lt b bp)) by lia.
    assert (forall x t, (x, t) ∈ G1 -> x + 8 * t <= bp) as H1' by (intros x t Hx; apply (H1 x t); by right).
    destruct (IH _ Hsp H1' H2) as [[-> Hrel] | (G & p & t & -> & Hrel)].
    + exists [], b, s. split; [done |]. simpl. destruct (b + 8 * s =? bp) eqn:E; [by rewrite merge_up_eq |].
      simpl in Hrel. by rewrite Hrel.
    + exists ((b, s) :: G), p, t. split; [done |]. rewrite Hrel. simpl.
      destruct (b + 8 * s =? bp) eqn:E; [| done]. zb. exfalso.
      assert (b + 8 * s < p /\ 1 <= t) as [? ?].
      { apply (spaced_lower _ _ _ _ Hsp). rewrite !elem_of_app. left. right. left. }
      specialize (H1' p t). assert (p + 8 * t <= bp); [| lia]. apply H1', elem_of_app. right. left.
Qed.

Lemma up_spaced bp u G : spaced (bp + 8 * u - 1) G ->
  (forall x s, (x, s) ∈ G -> bp + 8 * u <= x) -> spaced (bp + 8 * up_size bp u G) (up_rest bp u G).
Proof.
  destruct G as [| [b s] G]; simpl; [done |]. intros (Hb & Hs & HG) Hx.
  destruct (bp + 8 * u =? b) eqn:E; zb.
  - replace (bp + 8 * (u + s)) with (b + 8 * s) by lia. done.
  - simpl. split; [lia | done].
Qed.

Lemma release_spaced lo G1 G2 bp u :
  spaced lo (G1 ++ G2) -> lo < bp -> 1 <= u -> (forall x s, (x, s) ∈ G1 -> x + 8 * s <= bp) ->
  (forall x s, (x, s) ∈ G2 -> bp + 8 * u <= x) ->
  spaced lo (release bp u (G1 ++ G2)) /\ units (release bp u (G1 ++ G2)) = u + units (G1 ++ G2).
Proof.
  intros Hsp Hlo Hu H1 H2.
  assert (spaced (bp + 8 * up_size bp u G2) (up_rest bp u G2) /\ 1 <= up_size bp u G2) as [Hup Hw].
  { split.
    - apply up_spaced; [| done]. destruct G2 as [| [c t] G2]; [done |].
      assert (bp + 8 * u <= c) by (eapply H2; left).
      clear -Hsp H. induction G1 as [| [b s] G1 IH] in lo, Hsp |- *; simpl in Hsp |- *.
      + destruct Hsp as (? & ? & ?). split; [lia | done].
      + destruct Hsp as (_ & _ & Hsp). by eapply IH.
    - destruct G2 as [| [c t] G2]; simpl; [done |]. case_match; [| done].
      assert (1 <= t); [| lia]. eapply (spaced_lower _ _ c t Hsp). apply elem_of_app. right. left. }
  destruct (release_split lo G1 G2 bp u) as [[-> ->] | (G & p & s & -> & ->)]; try done.
  { intros x s Hx. apply H2 in Hx. lia. }
  - simpl. pose proof (units_up bp u G2). split; [| lia]. done.
  - pose proof (units_up bp u G2). rewrite <- app_assoc in Hsp. simpl in Hsp.
    assert (p + 8 * s <= bp) as Hps by (apply (H1 p s), elem_of_app; right; left).
    rewrite !units_app. simpl. split; [| case_match; simpl; lia].
    clear -Hsp Hup Hw Hps. induction G as [| [b t] G IH] in lo, Hsp |- *; simpl in Hsp |- *.
    + destruct Hsp as (? & ? & _). destruct (p + 8 * s =? bp) eqn:E; zb; simpl.
      * split; [done |]. split; [lia |]. replace (p + 8 * (s + up_size bp u G2)) with (bp + 8 * up_size bp u G2) by lia. done.
      * split; [done |]. split; [done |]. split; [lia |]. done.
    + destruct Hsp as (? & ? & Hsp). split; [done |]. split; [done |]. by apply IH.
Qed.

(** A block of the result lies in old blocks or the released one. *)
Lemma release_elem lo G1 G2 bp u b t :
  spaced lo (G1 ++ G2) -> (forall x s, (x, s) ∈ G1 -> x + 8 * s <= bp) ->
  (forall x s, (x, s) ∈ G2 -> bp + 8 * u <= x) -> 1 <= u ->
  (b, t) ∈ release bp u (G1 ++ G2) ->
  forall lo' hi', lo' < hi' -> (forall x s, (x, s) ∈ (bp, u) :: G1 ++ G2 -> x + 8 * s <= lo' \/ hi' <= x) ->
  b + 8 * t <= lo' \/ hi' <= b.
Proof.
  intros Hsp H1 H2 Hu Hb lo' hi' Hlt Hd.
  assert (bp + 8 * u <= lo' \/ hi' <= bp) as Hdb by (apply Hd; left).
  assert (forall x s, (x, s) ∈ G1 ++ G2 -> x + 8 * s <= lo' \/ hi' <= x) as HdF by (intros; apply Hd; by right).
  assert (bp + 8 * up_size bp u G2 <= lo' \/ hi' <= bp) as Hup.
  { destruct G2 as [| [c r] G2]; simpl; [done |]. destruct (bp + 8 * u =? c) eqn:E; zb; [| done].
    assert (c + 8 * r <= lo' \/ hi' <= c) by (apply HdF, elem_of_app; right; left). lia. }
  destruct (release_split lo G1 G2 bp u) as [[-> Hr] | (G & p & s & -> & Hr)]; try done.
  { intros x s Hx. apply H2 in Hx. lia. }
  - rewrite Hr in Hb. apply elem_of_cons in Hb as [[= -> ->] | Hb]; [done |].
    apply HdF. by apply up_rest_sub in Hb.
  - assert (p + 8 * s <= lo' \/ hi' <= p) as Hdp.
    { apply HdF. rewrite !elem_of_app. left. right. left. }
    rewrite Hr in Hb. apply elem_of_app in Hb as [Hb | Hb]; [apply HdF; rewrite !elem_of_app; tauto |].
    destruct (p + 8 * s =? bp) eqn:E; zb.
    + apply elem_of_cons in Hb as [[= -> ->] | Hb]; [lia |].
      apply HdF, elem_of_app. right. by apply up_rest_sub in Hb.
    + apply elem_of_cons in Hb as [[= -> ->] | [[= -> ->] | Hb]%elem_of_cons]; [done | done |].
      apply HdF, elem_of_app. right. by apply up_rest_sub in Hb.
Qed.

(** ** The joins of free *)
Section Join.
Variables (m : mem) (G1 G2 : list (Z * Z)) (bp u : Z).
Hypothesis Hseg : seg m 0 (G1 ++ G2) 0.
Hypothesis Hsp : spaced (sizeof_heap - 1) (G1 ++ G2).
Hypothesis Hhigh : forall b t, (b, t) ∈ G1 ++ G2 -> b + 8 * t <= 2 ^ 32.
Hypothesis H1 : forall x s, (x, s) ∈ G1 -> x + 8 * s <= bp.
Hypothesis H2 : forall x s, (x, s) ∈ G2 -> bp + 8 * u <= x.
Hypothesis Hbp : hsize m bp = u /\ 1 <= u /\ sizeof_heap <= bp < 2 ^ 32.
Hypothesis Hbase : hsize m 0 = 0.
Hypothesis Hunits : u + units (G1 ++ G2) < 2 ^ 24.

Let p := lastaddr 0 G1.
Let w := up_size bp u G2.
Let R := up_rest bp u G2.

Lemma join_seps :
  (forall x, x ∈ 0 :: addrs G1 -> sep bp x) /\ (forall x, x ∈ addrs G2 -> sep bp x) /\
  (forall x y, x ∈ 0 :: addrs G1 -> y ∈ addrs G2 -> sep x y) /\
  (forall x y, x ∈ 0 :: addrs G1 -> y ∈ 0 :: addrs G1 -> x = y \/ sep x y) /\
  (forall x y, x ∈ addrs G2 -> y ∈ addrs G2 -> x = y \/ sep x y).
Proof.
  assert (forall x, x ∈ 0 :: addrs G1 -> x + 8 <= bp) as Hlo.
  { intros x [-> | Hx]%elem_of_cons; [unfold sizeof_heap in Hbp; lia |].
    apply addrs_elem in Hx as [s Hx]. specialize (H1 _ _ Hx).
    assert (1 <= s); [| lia]. eapply (spaced_lower _ _ x s Hsp). apply elem_of_app. by left. }
  assert (forall x, x ∈ addrs G2 -> bp + 8 <= x) as Hhi.
  { intros x Hx. apply addrs_elem in Hx as [s Hx]. specialize (H2 _ _ Hx). lia. }
  assert (forall x, x ∈ 0 :: addrs G1 -> x ∈ 0 :: addrs (G1 ++ G2)) as Hin1.
  { intros x. rewrite map_app, !elem_of_cons, elem_of_app. tauto. }
  assert (forall x, x ∈ addrs G2 -> x ∈ 0 :: addrs (G1 ++ G2)) as Hin2.
  { intros x. rewrite map_app, !elem_of_cons, elem_of_app. tauto. }
  split; [| split; [| split; [| split]]]; intros x.
  - intros Hx%Hlo. by right.
  - intros Hx%Hhi. by left.
  - intros y Hx%Hlo Hy%Hhi. left. lia.
  - intros y Hx Hy. eapply heads_sep; [exact Hsp | auto | auto].
  - intros y Hx Hy. eapply heads_sep; [exact Hsp | auto | auto].
Qed.

Lemma join_size : 0 <= w < 2 ^ 24.
Proof.
  pose proof (units_up bp u G2) as Hw. fold w in Hw. rewrite units_app in Hunits.
  assert (0 <= units G1 /\ 0 <= units R) as [? ?].
  { assert (forall lo G, spaced lo G -> 0 <= units G) as Hnn.
    { intros lo G HG. pose proof (units_length _ _ HG). lia. }
    destruct (spaced_app _ _ _ Hsp) as [Ha _]. split; [by eapply Hnn |].
    unfold R. assert (forall G, (forall x s, (x, s) ∈ G -> 1 <= s) -> 0 <= units G) as Hp.
    { induction G as [| [b s] G IH]; intros HG; simpl; [done |].
      assert (1 <= s) by (eapply HG; left). assert (0 <= units G); [| lia]. apply IH. intros; eapply HG; by right. }
    apply Hp. intros x s Hx%up_rest_sub. eapply (spaced_lower _ _ x s Hsp). apply elem_of_app. by right. }
  fold R in Hw. split; [| lia]. unfold w, up_size. destruct G2 as [| [c t] G2']; [lia |].
  case_match; [| lia]. assert (1 <= t); [| lia]. eapply (spaced_lower _ _ c t Hsp). apply elem_of_app. right. left.
Qed.

Lemma join_next : 0 <= hnext m p < 2 ^ 32 /\ (forall x, x ∈ addrs G2 -> 0 <= hnext m x < 2 ^ 32).
Proof.
  pose proof Hseg as Hs. apply seg_app in Hs as [_ Hs]. fold p in Hs.
  assert (forall b t, (b, t) ∈ G2 -> 0 <= b < 2 ^ 32) as Hr.
  { intros b t Hb. assert ((b, t) ∈ G1 ++ G2) as Hb' by (apply elem_of_app; by right).
    pose proof (spaced_lower _ _ _ _ Hsp Hb'). specialize (Hhigh _ _ Hb'). unfold sizeof_heap in *. lia. }
  clear -Hs Hr. revert Hs Hr. generalize p. induction G2 as [| [b t] G IH]; intros a Hs Hr; simpl in Hs.
  - split; [lia |]. by intros x ?%not_elem_of_nil.
  - destruct Hs as (-> & _ & Hs). split; [eapply Hr; left |].
    destruct (IH b Hs) as [Hb HG]; [intros; eapply Hr; by right |].
    intros x [-> | Hx]%elem_of_cons; auto.
Qed.

Definition upped (m1 : mem) : Prop :=
  seg m1 bp R 0 /\ hsize m1 bp = w /\
  (forall x, x ∈ 0 :: addrs G1 -> hnext m1 x = hnext m x /\ tag m1 x = tag m x).

Lemma join_upper_spec : upped (join_upper m p bp).
Proof.
  destruct join_seps as (Hs1 & Hs2 & Hs12 & _ & Hs22). destruct join_next as [Hnp Hn2].
  pose proof Hseg as Hs. apply seg_app in Hs as [_ Hs]. fold p in Hs.
  destruct Hbp as (Hsz & Hu & Hrange). pose proof join_size as Hw.
  unfold upped, join_upper, w, R. rewrite Hsz. unfold sizeof_hdr.
  destruct G2 as [| [b s] G] eqn:EG.
  { simpl in Hs. rewrite Hs, (proj2 (Z.eqb_neq _ 0)) by (unfold sizeof_heap in Hrange; lia). simpl. split; [| split].
    - by rewrite hnext_set_next.
    - rewrite <- Hsz. apply hsize_tag, tag_set_next. by left.
    - intros x Hx. rewrite hnext_set_next_ne, tag_set_next by auto. done. }
  simpl in Hs. destruct Hs as (Hpb & Hbs & Hs). rewrite Hpb. simpl.
  assert (b ∈ addrs G2) as HbG by (rewrite EG; left).
  assert (p ∈ 0 :: addrs G1) as HpG by apply lastaddr_in.
  destruct (bp + 8 * u =? b) eqn:E; zb.
  - set (m1 := set_size m bp (u + hsize m b)).
    assert (hnext m1 p = b) as ->.
    { unfold m1, set_size. rewrite hnext_set_tag; [done |]. right. by apply Hs1. }
    assert (hnext m1 b = hnext m b) as ->.
    { unfold m1, set_size. rewrite hnext_set_tag; [done |]. right. apply Hs2. left. }
    assert (0 <= hnext m b < 2 ^ 32) as Hnb by (apply Hn2; left). split; [| split].
    + apply (seg_start _ b).
      * eapply seg_same; [exact Hs | |].
        -- intros x Hx. rewrite hnext_set_next_ne by (by apply Hs2). unfold m1, set_size.
           rewrite hnext_set_tag; [done |]. right. by apply Hs2.
        -- intros x Hx. apply hsize_tag. assert (sep bp x) by (apply Hs2; by right).
           rewrite tag_set_next by auto. unfold m1, set_size. by rewrite tag_set_tag_ne.
      * rewrite hnext_set_next by done. rewrite hnext_set_next_ne by (apply Hs2; left).
        unfold m1, set_size. rewrite hnext_set_tag; [done |]. right. apply Hs2. left.
    + transitivity (hsize m1 bp); [apply hsize_tag, tag_set_next; by left |].
      unfold m1, set_size. rewrite hsize_set_tag, Hbs. apply Z.mod_small.
      unfold w in Hw. simpl in Hw. rewrite (proj2 (Z.eqb_eq _ b)) in Hw by done. lia.
    + intros x Hx. assert (sep bp x) by auto. unfold m1, set_size.
      rewrite hnext_set_next_ne, tag_set_next, hnext_set_tag, tag_set_tag_ne by auto. done.
  - split; [| split].
    + simpl. split; [by rewrite hnext_set_next by (rewrite <- Hpb; done) |]. split.
      * rewrite <- Hbs. apply hsize_tag, tag_set_next. right. apply Hs2. left.
      * eapply seg_same; [exact Hs | |].
        -- intros x Hx. apply hnext_set_next_ne. by apply Hs2.
        -- intros x Hx. apply hsize_tag, tag_set_next. right. apply Hs2. by right.
    + rewrite <- Hsz. apply hsize_tag, tag_set_next. by left.
    + intros x Hx. rewrite hnext_set_next_ne, tag_set_next by auto. done.
Qed.

Lemma release_last :
  (G1 = [] /\ p = 0 /\ release bp u (G1 ++ G2) = (bp, w) :: R) \/
  (exists G s, G1 = G ++ [(p, s)] /\ seg m 0 G p /\ hsize m p = s /\ 1 <= s /\ 
    release bp u (G1 ++ G2) = G ++ (if p + 8 * s =? bp then (p, s + w) :: R else (p, s) :: (bp, w) :: R)).
Proof.
  destruct (release_split _ _ _ bp u Hsp H1) as [[-> Hr] | (G & q & s & HG & Hr)].
  { intros x s Hx. specialize (H2 _ _ Hx). lia. }
  - by left.
  - right. assert (p = q) as Hp by (unfold p; rewrite HG, lastaddr_app; done).
    exists G, s. rewrite <- Hp in HG, Hr. split; [done |].
    pose proof Hseg as Hs. rewrite HG, <- app_assoc in Hs. apply seg_app in Hs as [Hsa Hs].
    simpl in Hs. destruct Hs as (Hn & Hsz & _). rewrite Hn in Hsa. repeat split; try done.
    eapply (spaced_lower _ _ p s Hsp). rewrite HG, !elem_of_app. left. right. left.
Qed.


(** The second half, on the memory the first one left. *)
Section Lower.
Variable m1 : mem.
Hypothesis Hup : upped m1.

Lemma lower_facts :
  p ∈ 0 :: addrs G1 /\ sep p bp /\ (forall x, x ∈ addrs R -> sep p x) /\ 0 <= hnext m1 bp < 2 ^ 32 /\
  (forall x, x ∈ 0 :: addrs G1 -> hnext m1 x = hnext m x /\ hsize m1 x = hsize m x).
Proof.
  destruct Hup as (HsR & HwR & Hkeep). destruct join_seps as (Hs1 & Hs2 & Hs12 & _).
  assert (p ∈ 0 :: addrs G1) as HpG by apply lastaddr_in. split; [done |].
  split; [destruct (Hs1 p HpG); [by right | by left] |]. split; [| split].
  - intros x Hx. apply addrs_elem in Hx as [t Hx%up_rest_sub]. eapply Hs12; [done | by eapply addr_in].
  - destruct R as [| [c t] R'] eqn:ER; simpl in HsR; [lia |]. destruct HsR as (-> & _).
    assert ((c, t) ∈ G1 ++ G2) as Hc.
    { apply elem_of_app. right. apply (up_rest_sub bp u). fold R. rewrite ER. left. }
    pose proof (spaced_lower _ _ _ _ Hsp Hc). specialize (Hhigh _ _ Hc). unfold sizeof_heap in *. lia.
  - intros x Hx. destruct (Hkeep x Hx) as [-> Ht]. split; [done | by apply hsize_tag].
Qed.

(** There is no block below: the sentinel is linked to the block. *)
Lemma lower_first : G1 = [] -> p = 0 ->
  seg (set_next m1 p bp) 0 ((bp, w) :: R) 0 /\ hsize (set_next m1 p bp) 0 = 0.
Proof.
  intros HG Hp0. destruct lower_facts as (HpG & Hpbp & HpR & Hnb & Hkeep). destruct Hup as (HsR & HwR & _).
  destruct Hbp as (_ & Hu & Hrange). rewrite Hp0 in Hpbp, HpR |- *. split.
  - simpl. split; [apply hnext_set_next; unfold sizeof_heap in *; lia |]. split.
    + rewrite <- HwR. apply hsize_tag, tag_set_next. by right.
    + eapply seg_same; [exact HsR | |].
      * intros x [-> | Hx]%elem_of_cons; apply hnext_set_next_ne; auto.
      * intros x Hx. apply hsize_tag, tag_set_next. auto.
  - transitivity (hsize m1 0); [apply hsize_tag, tag_set_next; by left |].
    rewrite (proj2 (Hkeep 0 ltac:(left))). done.
Qed.

(** The block below is not adjacent: it is linked to the block. *)
Lemma lower_link G s : G1 = G ++ [(p, s)] -> p <> 0 ->
  seg (set_next m1 p bp) 0 (G1 ++ (bp, w) :: R) 0 /\ hsize (set_next m1 p bp) 0 = 0.
Proof.
  intros HG Hpz. destruct lower_facts as (HpG & Hpbp & HpR & Hnb & Hkeep). destruct Hup as (HsR & HwR & _).
  destruct join_seps as (_ & _ & _ & Hs11 & _). destruct Hbp as (_ & Hu & Hrange).
  set (m3 := set_next m1 p bp).
  assert (forall x, sep p x -> hnext m3 x = hnext m1 x) as Hfr by (intros x Hx; by apply hnext_set_next_ne).
  assert (forall x, p = x \/ sep p x -> hsize m3 x = hsize m1 x) as Hft by (intros x Hx; by apply hsize_tag, tag_set_next).
  assert (hnext m3 p = bp) as Hp3 by (apply hnext_set_next; unfold sizeof_heap in *; lia).
  split.
  - apply seg_app. fold p. split; [| simpl; split; [done | split]].
    + assert (seg m1 0 G1 (hnext m1 p)) as Hs1'.
      { pose proof Hseg as Hsg. apply seg_app in Hsg as [Hsg _]. fold p in Hsg.
        rewrite (proj1 (Hkeep p HpG)). eapply seg_same; [exact Hsg | |]; intros x Hx; apply Hkeep; [done | by right]. }
      eapply seg_change; [exact Hs1' | | |].
      * destruct (spaced_app _ _ _ Hsp) as [Ha _]. by apply (spaced_NoDup (sizeof_heap - 1)).
      * intros x Hx Hne. apply Hfr. destruct (Hs11 p x HpG Hx); [by subst | done].
      * intros x Hx. apply Hft. apply (Hs11 p x HpG). by right.
    + rewrite Hft by auto. done.
    + eapply seg_same; [exact HsR | |].
      * intros x [-> | Hx]%elem_of_cons; apply Hfr; auto.
      * intros x Hx. apply Hft. auto.
  - rewrite Hft by (apply Hs11; [done | left]). rewrite (proj2 (Hkeep 0 ltac:(left))). done.
Qed.

Lemma lower_sizes G s : G1 = G ++ [(p, s)] -> 1 <= s -> 0 <= s + w < 2 ^ 24.
Proof.
  intros HG Hs. pose proof join_size. pose proof (units_up bp u G2) as Hupu. fold w R in Hupu.
  rewrite units_app, HG, units_app in Hunits. simpl in Hunits.
  assert (forall F, (forall x t, (x, t) ∈ F -> 1 <= t) -> 0 <= units F) as Hnn.
  { induction F as [| [b t] F IH]; intros HF; simpl; [done |].
    assert (1 <= t) by (eapply HF; left). assert (0 <= units F); [| lia]. apply IH. intros; eapply HF; by right. }
  assert (0 <= units G).
  { apply Hnn. intros x t Hx. eapply (spaced_lower _ _ x t Hsp). rewrite HG, !elem_of_app. tauto. }
  assert (0 <= units R); [| lia].
  apply Hnn. intros x t Hx%up_rest_sub. eapply (spaced_lower _ _ x t Hsp). rewrite elem_of_app. tauto.
Qed.

(** The block below is adjacent: it grows. *)
Lemma lower_join G s : G1 = G ++ [(p, s)] -> p <> 0 -> seg m 0 G p -> hsize m p = s -> 1 <= s ->
  let m2 := set_next (set_size m1 p (s + w)) p (hnext m1 bp) in
  seg m2 0 (G ++ (p, s + w) :: R) 0 /\ hsize m2 0 = 0.
Proof.
  intros HG Hpz Hsa Hsz Hs m2. destruct lower_facts as (HpG & Hpbp & HpR & Hnb & Hkeep).
  destruct Hup as (HsR & HwR & _). destruct join_seps as (_ & _ & _ & Hs11 & _).
  assert (forall x, sep p x -> hnext m2 x = hnext m1 x /\ hsize m2 x = hsize m1 x) as Hfr.
  { intros x Hx. unfold m2, set_size. rewrite hnext_set_next_ne, hnext_set_tag by auto.
    split; [done |]. apply hsize_tag. by rewrite tag_set_next, tag_set_tag_ne by auto. }
  assert (forall x, x ∈ 0 :: addrs G -> sep p x) as HpGs.
  { intros x Hx. destruct (Hs11 p x HpG) as [<- |]; [| | done].
    - rewrite HG, map_app, elem_of_cons, elem_of_app. apply elem_of_cons in Hx. tauto.
    - exfalso. assert (NoDup (0 :: addrs G1)) as Hnd.
      { destruct (spaced_app _ _ _ Hsp) as [Ha _]. by apply (spaced_NoDup (sizeof_heap - 1)). }
      rewrite HG, map_app in Hnd. change (NoDup ((0 :: addrs G) ++ [p])) in Hnd.
      apply NoDup_app in Hnd as (_ & Hnd & _). apply (Hnd p Hx). left. }
  assert (forall x, x ∈ 0 :: addrs G -> hnext m2 x = hnext m x /\ hsize m2 x = hsize m x) as HGk.
  { intros x Hx. destruct (Hfr x (HpGs x Hx)) as [-> ->]. apply Hkeep.
    rewrite HG, map_app, elem_of_cons, elem_of_app. apply elem_of_cons in Hx. tauto. }
  split; [| rewrite (proj2 (HGk 0 ltac:(left))); done].
  apply seg_app. rewrite (proj1 (HGk _ (lastaddr_in 0 G))). rewrite (seg_last _ _ _ _ Hsa).
  split; [| simpl; split; [| split]].
  - eapply seg_same; [exact Hsa | |]; intros x Hx; apply HGk; [done | by right].
  - rewrite (proj1 (HGk _ (lastaddr_in 0 G))). by apply seg_last.
  - transitivity (hsize (set_size m1 p (s + w)) p); [apply hsize_tag, tag_set_next; by left |].
    unfold set_size. rewrite hsize_set_tag. apply Z.mod_small. by eapply lower_sizes.
  - apply (seg_start _ bp).
    + eapply seg_same; [exact HsR | |].
      * intros x [-> | Hx]%elem_of_cons; apply Hfr; auto.
      * intros x Hx. apply Hfr. auto.
    + unfold m2. rewrite hnext_set_next by done. symmetry. by apply Hfr.
Qed.

Lemma join_lower_spec :
  let m2 := join_lower m1 p bp in seg m2 0 (release bp u (G1 ++ G2)) 0 /\ hsize m2 0 = 0.
Proof.
  destruct lower_facts as (HpG & Hpbp & HpR & Hnb & Hkeep). pose proof Hup as (HsR & HwR & _).
  destruct Hbp as (_ & Hu & Hrange). unfold join_lower, sizeof_hdr. cbv zeta.
  rewrite (proj2 (Hkeep p HpG)).
  destruct release_last as [(HG & Hp0 & ->) | (G & s & HG & Hsa & Hsz & Hs & ->)].
  - assert ((p + 8 * hsize m p =? bp) = false) as ->.
    { apply Z.eqb_neq. rewrite Hp0, Hbase. unfold sizeof_heap in *. lia. }
    by apply lower_first.
  - assert (p <> 0) as Hpz.
    { assert ((p, s) ∈ G1 ++ G2) as Hps by (rewrite HG, !elem_of_app; left; right; left).
      apply (spaced_lower _ _ _ _ Hsp) in Hps. unfold sizeof_heap in *. lia. }
    rewrite Hsz. destruct (p + 8 * s =? bp) eqn:E; zb.
    + rewrite HwR. assert (hnext (set_size m1 p (s + w)) bp = hnext m1 bp) as ->.
      { unfold set_size. rewrite hnext_set_tag; auto. }
      by apply lower_join.
    + assert (G ++ (p, s) :: (bp, w) :: R = G1 ++ (bp, w) :: R) as -> by (rewrite HG, <- app_assoc; done).
      by eapply lower_link.
Qed.
End Lower.
End Join.

(** ** Free *)
Lemma spaced_split lo F bp u :
  spaced lo F -> 1 <= u -> (forall b s, (b, s) ∈ F -> disjoint_blocks bp u b s) ->
  exists G1 G2, F = G1 ++ G2 /\ (forall x s, (x, s) ∈ G1 -> x + 8 * s <= bp) /\
    (forall x s, (x, s) ∈ G2 -> bp + 8 * u <= x).
Proof.
  revert lo. induction F as [| [b s] F IH]; intros lo Hsp Hu Hd.
  - exists [], []. split; [done |]. split; by intros ? ? ?%not_elem_of_nil.
  - simpl in Hsp. destruct Hsp as (Hb & Hs & Hsp). destruct (Hd b s ltac:(left)) as [Hdb | Hdb].
    + exists [], ((b, s) :: F). split; [done |]. split; [by intros ? ? ?%not_elem_of_nil |].
      intros x t [Hx | Hx]%elem_of_cons; [by simplify_eq |]. apply (spaced_lower _ _ _ _ Hsp) in Hx. lia.
    + destruct (IH _ Hsp Hu) as (G1 & G2 & -> & H1 & H2); [intros; apply Hd; by right |].
      exists ((b, s) :: G1), G2. split; [done |]. split; [| done].
      intros x t [Hx | Hx]%elem_of_cons; [by simplify_eq | by eapply H1].
Qed.

(** The block [bp] of [u] units is not in use, nor on the free list. *)
Record loose (h : rtapi_heap) (F : list (Z * Z)) (A : gmap Z Z) (bp u : Z) : Prop := Loose {
  lo_size : hsize (hp_mem h) bp = u;
  lo_attr : hattr (hp_mem h) bp = 0;
  lo_units : 1 <= u;
  lo_range : sizeof_heap <= bp /\ bp + 8 * u <= 2 ^ 32;
  lo_free : forall b s, (b, s) ∈ F -> disjoint_blocks bp u b s;
  lo_used : forall a v, A !! a = Some v -> disjoint_blocks bp u a v;
  lo_total : u + units F + used_units A < 2 ^ 24;
}.

Section FreeRep.
Variables (h : rtapi_heap) (G1 G2 : list (Z * Z)) (A : gmap Z Z) (bp u : Z).
Let F := G1 ++ G2.
Hypothesis Hr : rep h F A.
Hypothesis Hl : loose h F A bp u.
Hypothesis H1 : forall x s, (x, s) ∈ G1 -> x + 8 * s <= bp.
Hypothesis H2 : forall x s, (x, s) ∈ G2 -> bp + 8 * u <= x.

Let m := hp_mem h.
Let p := lastaddr 0 G1.
Let m' := join_lower (join_upper m p bp) p bp.

Lemma free_side : (hsize m bp = u /\ 1 <= u /\ sizeof_heap <= bp < 2 ^ 32) /\ u + units (G1 ++ G2) < 2 ^ 24.
Proof.
  pose proof (lo_units _ _ _ _ _ Hl). pose proof (lo_range _ _ _ _ _ Hl). pose proof (lo_total _ _ _ _ _ Hl).
  pose proof (used_units_rep _ _ _ Hr). unfold F in *. split; [split; [apply Hl |] |]; lia.
Qed.

Lemma free_place : place (fuel h + fuel h) m bp (hp_free_p h) = Some p.
Proof.
  destruct free_side as [(_ & Hu & Hb) _].
  eapply (place_spec m bp G1 G2 _ (sizeof_heap - 1)); try apply Hr.
  - unfold sizeof_heap. lia.
  - unfold sizeof_heap in Hb. lia.
  - intros x s Hx. pose proof (H1 _ _ Hx).
    assert (1 <= s); [| lia]. eapply (spaced_lower _ _ x s (r_spaced _ _ _ Hr)). apply elem_of_app. by left.
  - intros x s Hx. pose proof (H2 _ _ Hx). lia.
  - pose proof (rep_fuel _ _ _ Hr). unfold F in *. lia.
Qed.

Lemma free_frame : frame m m' ((bp, u) :: F).
Proof.
  destruct free_side as [(_ & Hu & Hb) _].
  assert (forall b s, (b, s) ∈ (bp, u) :: F -> 1 <= s) as Hs1.
  { intros b s [Hx | Hx]%elem_of_cons; [by simplify_eq |]. eapply (spaced_lower _ _ b s (r_spaced _ _ _ Hr)). done. }
  assert (bp ∈ 0 :: addrs ((bp, u) :: F)) as Hbin by (simpl; right; left).
  assert (p ∈ 0 :: addrs ((bp, u) :: F)) as Hpin.
  { pose proof (lastaddr_in 0 G1) as [Hp | Hp]%elem_of_cons; unfold p; [rewrite Hp; left |].
    simpl. do 2 right. unfold F. rewrite map_app. apply elem_of_app. by left. }
  assert (forall m1 n a, frame m1 (set_tag m1 bp n a) ((bp, u) :: F)) as Htag.
  { intros m1 n a. eapply frame_set_tag; [left | lia | lia]. }
  apply (frame_trans _ (join_upper m p bp)).
  - unfold join_upper. case_match; [| by apply frame_set_next].
    eapply frame_trans; [apply Htag | by apply frame_set_next].
  - unfold m', join_lower. case_match eqn:E; [| by apply frame_set_next].
    eapply frame_trans; [| by apply frame_set_next].
    apply elem_of_cons in Hpin as [Hp0 | Hpin].
    + exfalso. zb. rewrite Hp0 in E. unfold sizeof_heap in Hb.
      assert (hsize (join_upper m p bp) 0 = 0); [| rewrite Hp0 in H; unfold sizeof_hdr in E; lia].
      destruct (join_upper_spec m G1 G2 bp u) as (_ & _ & Hk); try apply Hr; try done; try apply free_side.
      destruct (Hk 0 ltac:(left)) as [_ Ht]. transitivity (hsize m 0); [by apply hsize_tag | apply Hr].
    + apply addrs_elem in Hpin as [s Hpin]. pose proof (Hs1 _ _ Hpin).
      eapply frame_set_tag; [exact Hpin | lia | lia].
Qed.

Lemma rep_free h'' :
  hp_mem h'' = m' -> hp_free_p h'' = p -> 8 * (u + units F + used_units A) <= hp_arena_size h'' ->
  rep h'' (release bp u F) A.
Proof.
  intros Hm Hp Har. destruct free_side as [Hbp Htot]. pose proof Hbp as (_ & Hu & Hbr).
  destruct (release_spaced (sizeof_heap - 1) G1 G2 bp u) as [Hsp Hun]; try apply Hr; try done; [lia |].
  assert (upped m G1 G2 bp u (join_upper m p bp)) as Hup by (apply join_upper_spec; try apply Hr; done).
  destruct (join_lower_spec m G1 G2 bp u (r_seg _ _ _ Hr) (r_spaced _ _ _ Hr) (r_high _ _ _ Hr) H1 H2 Hbp
    (r_base _ _ _ Hr) Htot _ Hup) as [Hseg Hb0].
  assert (forall lo' hi', lo' < hi' -> (forall x s, (x, s) ∈ (bp, u) :: F -> x + 8 * s <= lo' \/ hi' <= x) ->
    forall b t, (b, t) ∈ release bp u F -> b + 8 * t <= lo' \/ hi' <= b) as Hel.
  { intros lo' hi' Hlt Hd b t Hb. by eapply (release_elem _ G1 G2 bp u b t (r_spaced _ _ _ Hr)). }
  split.
  - by rewrite Hm.
  - by rewrite Hm.
  - done.
  - rewrite Hp. destruct (release_last m G1 G2 bp u) as [(_ & Hp0 & _) | (G & s & HG & _ & _ & _ & Hrel)];
      try apply Hr; try done; [unfold p; rewrite Hp0; left |].
    unfold F. rewrite Hrel. right. rewrite map_app. apply elem_of_app. right. case_match; left.
  - intros b t Hb. eapply (Hel (2 ^ 32) (Z.max (2 ^ 32) b + 1)) in Hb; [lia | lia |].
    intros x s [Hx | Hx]%elem_of_cons; left; [simplify_eq; apply (lo_range _ _ _ _ _ Hl) | by apply (r_high _ _ _ Hr)].
  - intros a v Ha. rewrite Hm. pose proof (r_used _ _ _ Hr _ _ Ha) as Hub.
    eapply used_block_agree; [done |]. destruct Hub as [_ _ Hv [Hra _]].
    eapply agree_sub; [eapply (frame_used _ _ _ a v free_frame); [|done] | lia | lia].
    intros b t [Hb | Hb]%elem_of_cons; [simplify_eq | by apply (r_disjoint_free _ _ _ Hr _ _ _ _ Ha)].
    destruct (lo_used _ _ _ _ _ Hl _ _ Ha); [by right | by left].
  - apply (r_disjoint _ _ _ Hr).
  - intros a v b t Ha Hb. pose proof (r_used _ _ _ Hr _ _ Ha) as [_ _ Hv _].
    assert (b + 8 * t <= a \/ a + 8 * v <= b) as [|]; [| by right | by left].
    eapply Hel; [lia | | exact Hb]. intros x s [Hx | Hx]%elem_of_cons.
    + simplify_eq. destruct (lo_used _ _ _ _ _ Hl _ _ Ha); [by left | by right].
    + destruct (r_disjoint_free _ _ _ Hr _ _ _ _ Ha Hx); [by right | by left].
  - unfold F in *. rewrite Hun. pose proof (lo_total _ _ _ _ _ Hl). lia.
  - unfold F in *. rewrite Hun. lia.
Qed.
End FreeRep.

(** ** The operations *)

(** Memory changed outside the headers. *)
Lemma rep_agree h h' F A :
  rep h F A -> hp_free_p h' = hp_free_p h -> hp_arena_size h' = hp_arena_size h ->
  agree (hp_mem h) (hp_mem h') 0 8 ->
  (forall b s, (b, s) ∈ F -> agree (hp_mem h) (hp_mem h') b (b + 8)) ->
  (forall a u, A !! a = Some u -> agree (hp_mem h) (hp_mem h') a (a + 8)) -> rep h' F A.
Proof.
  intros Hr Hfp Har H0 HF HA. pose proof (r_used _ _ _ Hr) as Hused.
  assert (hsize (hp_mem h) 0 = 0) as Hbase by apply Hr. destruct Hr.
  assert (forall x, agree (hp_mem h) (hp_mem h') x (x + 8) ->
    hnext (hp_mem h') x = hnext (hp_mem h) x /\ tag (hp_mem h') x = tag (hp_mem h) x) as Hx.
  { intros x Hag. split; apply load32_agree; eapply agree_sub; try exact Hag; lia. }
  split; rewrite ?Hfp, ?Har; try done.
  - eapply seg_same; [done | |].
    + intros x [-> | Hin]%elem_of_cons; [by apply Hx |]. apply addrs_elem in Hin as [s Hin]. by eapply Hx, HF.
    + intros x Hin. apply addrs_elem in Hin as [s Hin]. by eapply hsize_tag, Hx, HF.
  - transitivity (hsize (hp_mem h) 0); [by apply hsize_tag, Hx | done].
  - intros a u Ha. eapply used_block_agree; [by apply Hused | by eapply HA].
Qed.

Lemma rep_delete h F A a u : rep h F A -> A !! a = Some u -> rep h F (delete a A).
Proof.
  intros Hr Ha. pose proof (used_units_delete _ _ _ Ha) as Hu.
  assert (1 <= u) by apply (ub_units _ _ _ (r_used _ _ _ Hr _ _ Ha)). destruct Hr.
  assert (forall b v, delete a A !! b = Some v -> A !! b = Some v) as Hd by (intros b v [_ ?]%lookup_delete_Some; done).
  split; try done; eauto; lia.
Qed.

Lemma loose_used h F A a u : rep h F A -> A !! a = Some u -> loose h F (delete a A) a u.
Proof.
  intros Hr Ha. destruct (r_used _ _ _ Hr _ _ Ha). split; try done.
  - intros b s Hb. by apply (r_disjoint_free _ _ _ Hr _ _ _ _ Ha).
  - intros b v [Hne Hb]%lookup_delete_Some. by apply (r_disjoint _ _ _ Hr _ _ _ _ Ha Hb).
  - pose proof (r_units _ _ _ Hr) as Hu. rewrite (used_units_delete _ _ _ Ha) in Hu. lia.
Qed.

(** Release of a loose block. *)
Lemma release_run h F A bp u :
  rep h F A -> loose h F A bp u ->
  exists h', unlocked_free (bp + 8) h = (Ok tt, h') /\ frame (hp_mem h) (hp_mem h') ((bp, u) :: F) /\
    hp_arena_size h' = hp_arena_size h /\ hp_flags h' = hp_flags h /\
    forall h'', hp_mem h'' = hp_mem h' -> hp_free_p h'' = hp_free_p h' ->
      8 * (u + units F + used_units A) <= hp_arena_size h'' -> rep h'' (release bp u F) A.
Proof.
  intros Hr Hl. destruct (spaced_split _ F bp u (r_spaced _ _ _ Hr) (lo_units _ _ _ _ _ Hl) (lo_free _ _ _ _ _ Hl))
    as (G1 & G2 & -> & H1 & H2).
  unfold unlocked_free, mbind, M_bind, get. replace (bp + 8 - 8) with bp by lia.
  rewrite (lo_attr _ _ _ _ _ Hl). change (Z.testbit 0 0) with false. cbv iota.
  replace (bp + 8 - sizeof_hdr) with bp by (unfold sizeof_hdr; lia).
  rewrite (free_place h G1 G2 A bp u Hr Hl H1 H2).
  eexists. split; [done |]. simpl. split; [| split; [done | split; [done |]]].
  - by eapply free_frame.
  - intros h'' Hm Hp Ha. by eapply (rep_free h G1 G2 A bp u).
Qed.

Lemma free_run h F A a u :
  rep h F A -> A !! a = Some u ->
  exists h', rtapi_free (a + 8) h = (Ok tt, h') /\ rep h' (release a u F) (delete a A) /\
    frame (hp_mem h) (hp_mem h') ((a, u) :: F) /\ hp_arena_size h' = hp_arena_size h /\ hp_flags h' = hp_flags h.
Proof.
  intros Hr Ha. pose proof (rep_delete _ _ _ _ _ Hr Ha) as Hr'. pose proof (loose_used _ _ _ _ _ Hr Ha) as Hl.
  destruct (release_run _ _ _ _ _ Hr' Hl) as (h' & Hrun & Hfr & Har & Hfl & Hrep).
  exists h'. split; [done |]. split; [| done]. apply Hrep; [done | done |].
  pose proof (r_arena _ _ _ Hr) as Hall. rewrite (used_units_delete _ _ _ Ha) in Hall. lia.
Qed.

(** ** Adding memory *)
Lemma load8_zeros m o n i : (i < n)%nat -> load8 (write_bytes m o (replicate n 0)) (o + Z.of_nat i) = 0.
Proof.
  intros Hi. apply load8_write_bytes; [apply Forall_replicate; done |]. by apply lookup_replicate_2.
Qed.

Lemma tag_zeros m o n : 8 <= Z.of_nat n -> tag (write_bytes m o (replicate n 0)) o = 0.
Proof.
  intros Hn. unfold tag, load32.
  assert (forall k, 0 <= k < 8 -> load8 (write_bytes m o (replicate n 0)) (o + k) = 0) as Hz.
  { intros k Hk. rewrite <- (Z2Nat.id k) by lia. apply load8_zeros. lia. }
  replace (o + 4 + 1) with (o + 5) by lia. replace (o + 4 + 2) with (o + 6) by lia.
  replace (o + 4 + 3) with (o + 7) by lia. rewrite !Hz by lia. done.
Qed.

Lemma addmem_run h F A space size :
  rep h F A -> sizeof_heap <= space -> 8 <= size -> space + size <= 2 ^ 32 ->
  (forall b s, (b, s) ∈ F -> b + 8 * s <= space \/ space + size <= b) ->
  (forall a u, A !! a = Some u -> a + 8 * u <= space \/ space + size <= a) ->
  size / 8 + units F + used_units A < 2 ^ 24 -> 0 <= hp_arena_size h -> hp_arena_size h + size < 2 ^ 64 ->
  exists h', rtapi_heap_addmem space size h = (Ok 0, h') /\
    rep h' (release space (size / 8) F) A /\ hp_arena_size h' = hp_arena_size h + size /\
    (forall a u, A !! a = Some u -> agree (hp_mem h) (hp_mem h') a (a + 8 * u)).
Proof.
  intros Hr Hsp Hsz Hhi HF HA Htot Har0 Har.
  pose proof (Z.div_mod size 8 ltac:(lia)) as Hdm. pose proof (Z.mod_pos_bound size 8 ltac:(lia)) as Hmb.
  set (c := size / 8) in *. unfold rtapi_heap_addmem. rewrite (proj2 (Z.ltb_ge space 0)) by (unfold sizeof_heap in *; lia).
  unfold mbind, M_bind, modify. change (size / sizeof_hdr) with c. cbv beta iota.
  set (m1 := write_bytes (hp_mem h) space (replicate (Z.to_nat size) 0)).
  set (h1 := set_mem (set_size m1 space c) (set_mem m1 h)).
  assert (forall lo hi, hi <= space \/ space + size <= lo -> agree (hp_mem h) (hp_mem h1) lo hi) as Hag.
  { intros lo hi Hd. unfold h1, set_size. simpl. eapply agree_trans.
    - apply (write_bytes_agree _ space (replicate (Z.to_nat size) 0)). rewrite length_replicate. lia.
    - apply set_tag_agree. lia. }
  assert (forall b s, (b, s) ∈ F -> 1 <= s) as HF1 by (intros b s Hb; by apply (spaced_lower _ _ b s (r_spaced _ _ _ Hr))).
  assert (rep h1 F A) as Hr1.
  { eapply (rep_agree h); try done.
    - apply Hag. unfold sizeof_heap in *. lia.
    - intros b s Hb. apply Hag. specialize (HF _ _ Hb). specialize (HF1 _ _ Hb). lia.
    - intros a u Ha. apply Hag. specialize (HA _ _ Ha). pose proof (r_used _ _ _ Hr _ _ Ha) as [_ _ ? _]. lia. }
  assert (hattr m1 space = 0) as Hat.
  { unfold hattr. unfold m1. rewrite tag_zeros by lia. done. }
  pose proof (used_units_rep _ _ _ Hr) as HuA. pose proof (units_length _ _ (r_spaced _ _ _ Hr)) as HuF.
  assert (loose h1 F A space c) as Hl.
  { split; try lia.
    - unfold h1, set_size. simpl. rewrite hsize_set_tag. apply Z.mod_small. lia.
    - unfold h1, set_size. simpl. rewrite hattr_set_tag, Hat. done.
    - intros b s Hb. specialize (HF _ _ Hb). unfold disjoint_blocks. lia.
    - intros a u Ha. specialize (HA _ _ Ha). unfold disjoint_blocks. lia. }
  destruct (release_run _ _ _ _ _ Hr1 Hl) as (h2 & Hrun & Hfr & Har2 & _ & Hrep).
  change (space + sizeof_hdr) with (space + 8).
  match goal with |- context [unlocked_free _ ?x] => change x with h1 end. rewrite Hrun. eexists. split; [done |].
  assert (hp_arena_size h2 = hp_arena_size h) as Ha2 by done.
  assert (u64 (hp_arena_size h + size) = hp_arena_size h + size) as Hw by (apply wrapu_small; lia).
  split; [| split].
  - apply Hrep; [done | done |]. simpl. rewrite Ha2, Hw. pose proof (r_arena _ _ _ Hr). lia.
  - simpl. by rewrite Ha2.
  - intros a u Ha. simpl. pose proof (r_used _ _ _ Hr _ _ Ha) as [_ _ Hu1 [Ha72 _]].
    eapply agree_trans; [apply Hag; specialize (HA _ _ Ha); lia |].
    eapply frame_used; [exact Hfr | | done]. intros b s [Hb | Hb]%elem_of_cons.
    + simplify_eq. specialize (HA _ _ Ha). unfold disjoint_blocks. lia.
    + by apply (r_disjoint_free _ _ _ Hr _ _ _ _ Ha).
Qed.
