(* ===== verification/HeapTheorems.v ===== *)
(** * Theorems about the heap *)
From S2P Require Import Prelude Mem Heap HeapFacts HeapFree.
Import Heap.

(** The contents of the blocks in use. *)
Definition contents_kept (h h' : rtapi_heap) (A : gmap Z Z) : Prop :=
  forall a u, A !! a = Some u -> agree (hp_mem h) (hp_mem h') (a + 8) (a + 8 * u).

Lemma kept_frame h h' F F0 A A0 :
  rep h F A0 -> frame (hp_mem h) (hp_mem h') F0 ->
  (forall a u, A !! a = Some u -> A0 !! a = Some u /\ forall b s, (b, s) ∈ F0 -> disjoint_blocks a u b s) ->
  contents_kept h h' A.
Proof.
  intros Hr Hf HA a u Ha. destruct (HA _ _ Ha) as [Ha0 Hd].
  destruct (r_used _ _ _ Hr _ _ Ha0) as [_ _ Hu [Hlow _]].
  eapply agree_sub; [by eapply frame_used | lia | lia].
Qed.

(** C4: rtapi_malloc on a well-formed heap always returns.  It gives a block
    of at least [nbytes] bytes that is none of the blocks in use, takes
    exactly its units from the free list, and changes no block in use; it
    fails only if every free block is too small, and then changes nothing. *)
Theorem malloc_outcome h F A nbytes r h' :
  rep h F A -> 0 <= nbytes < 2 ^ 64 - 7 -> rtapi_malloc nbytes h = (r, h') ->
  let n := malloc_units nbytes in
  match r with
  | Ok (Some p) => exists F', rep h' F' (<[p - 8 := n]> A) /\ A !! (p - 8) = None /\
      nbytes <= 8 * (n - 1) /\ units F' = units F - n /\ contents_kept h h' A
  | Ok None => h' = h /\ forall b s, (b, s) ∈ F -> s < n
  | _ => False
  end.
Proof.
  intros Hr Hb Hrun. cbv zeta. destruct (malloc_run h F A nbytes Hr Hb) as [(q & h1 & Hm & Hd) | [Hall Hm]];
    rewrite Hm in Hrun; simplify_eq.
  - destruct Hd as [(Fa & p & s & Fb & -> & Hs & -> & Hrep) Hfresh Hfr _ _].
    replace (p + 8 * (s - malloc_units nbytes) + 8 - 8) with (p + 8 * (s - malloc_units nbytes)) by lia.
    eexists. split; [exact Hrep |]. split; [done |]. split.
    { unfold malloc_units. pose proof (Z.div_mod (nbytes + 7) 8 ltac:(lia)).
      pose proof (Z.mod_pos_bound (nbytes + 7) 8 ltac:(lia)). lia. }
    split; [apply units_taken |].
    eapply kept_frame; [exact Hr | exact Hfr |]. intros a u Ha. split; [done |].
    intros b t Ht. by apply (r_disjoint_free _ _ _ Hr _ _ _ _ Ha).
  - split; [done |]. intros b s Hin. rewrite Forall_forall in Hall. by apply (Hall _ Hin).
Qed.

Lemma free_run_kept h F A a u :
  rep h F A -> A !! a = Some u ->
  exists h', rtapi_free (a + 8) h = (Ok tt, h') /\ rep h' (release a u F) (delete a A) /\
    contents_kept h h' (delete a A).
Proof.
  intros Hr Ha. destruct (free_run h F A a u Hr Ha) as (h1 & Hf & Hrep & Hfr & _). exists h1.
  split; [done |]. split; [done |].
  eapply kept_frame; [exact Hr | exact Hfr |]. intros b v [Hne Hb]%lookup_delete_Some. split; [done |].
  intros x s [Hx | Hx]%elem_of_cons; [simplify_eq; by apply (r_disjoint _ _ _ Hr _ _ _ _ Hb Ha) |].
  by apply (r_disjoint_free _ _ _ Hr _ _ _ _ Hb).
Qed.

Lemma release_units h F A a u : rep h F A -> A !! a = Some u -> units (release a u F) = units F + u.
Proof.
  intros Hr Ha. pose proof (loose_used _ _ _ _ _ Hr Ha) as Hl.
  destruct (spaced_split _ F a u (r_spaced _ _ _ Hr) (lo_units _ _ _ _ _ Hl) (lo_free _ _ _ _ _ Hl))
    as (G1 & G2 & -> & H1 & H2).
  destruct (release_spaced (sizeof_heap - 1) G1 G2 a u (r_spaced _ _ _ Hr)) as [_ ->]; try done; [| apply Hl | lia].
  pose proof (lo_range _ _ _ _ _ Hl). lia.
Qed.

(** C5: rtapi_free of a block in use always returns; the block goes back to
    its place in the address-ordered free list, joined with the free blocks
    it touches, so that no two free blocks are ever adjacent; nothing is
    lost, and no other block in use changes. *)
Theorem free_outcome h F A a u r h' :
  rep h F A -> A !! a = Some u -> rtapi_free (a + 8) h = (r, h') ->
  r = Ok tt /\ rep h' (release a u F) (delete a A) /\ units (release a u F) = units F + u /\
  contents_kept h h' (delete a A).
Proof.
  intros Hr Ha Hrun. destruct (free_run_kept h F A a u Hr Ha) as (h1 & Hf & Hrep & Hk).
  rewrite Hf in Hrun. simplify_eq. split; [done |]. split; [done |]. split; [by eapply release_units | done].
Qed.

(** ** Sequences of calls on one arena *)
Inductive heap_step : rtapi_heap * gmap Z Z -> rtapi_heap * gmap Z Z -> Prop :=
| step_malloc h A nbytes p h' :
    0 <= nbytes < 2 ^ 64 - 7 -> rtapi_malloc nbytes h = (Ok (Some p), h') ->
    heap_step (h, A) (h', <[p - 8 := malloc_units nbytes]> A)
| step_free h A a h' :
    is_Some (A !! a) -> rtapi_free (a + 8) h = (Ok tt, h') -> heap_step (h, A) (h', delete a A).

(** From an empty heap to which the arena [space, space + size) was added. *)
Inductive heap_reach (m : mem) (space size : Z) : rtapi_heap -> gmap Z Z -> Prop :=
| reach_arena h : rtapi_heap_addmem space size (rtapi_heap_init m) = (Ok 0, h) -> heap_reach m space size h ∅
| reach_step h A h' A' : heap_reach m space size h A -> heap_step (h, A) (h', A') -> heap_reach m space size h' A'.

Lemma heap_rep_init m : rep (rtapi_heap_init m) [] ∅.
Proof.
  unfold rtapi_heap_init. split; simpl; try done.
  - unfold set_size. rewrite hnext_set_tag by (by left). by apply hnext_set_next.
  - unfold set_size. rewrite hsize_set_tag. done.
  - left.
  - by intros ? ? ?%not_elem_of_nil.
Qed.

(** Free blocks inside [lo, hi) that add up to all of it are one block. *)
Lemma spaced_span lo F b t hi :
  spaced lo ((b, t) :: F) -> (forall x s, (x, s) ∈ (b, t) :: F -> x + 8 * s <= hi) ->
  8 * units ((b, t) :: F) <= hi - b /\ (F <> [] -> 8 * units ((b, t) :: F) < hi - b).
Proof.
  revert lo b t. induction F as [| [c v] F IH]; intros lo b t (Hb & Ht & HF) Hhi.
  - split; [| done]. specialize (Hhi b t ltac:(left)). simpl. lia.
  - destruct (IH _ _ _ HF) as [H1 _]; [intros x s Hx; apply Hhi; by right |].
    destruct HF as (Hc & _ & _). simpl in *. split; [lia | intros _; lia].
Qed.

Lemma full_arena lo F space c :
  spaced lo F -> 1 <= c -> (forall b s, (b, s) ∈ F -> space <= b /\ b + 8 * s <= space + 8 * c) ->
  units F = c -> F = [(space, c)].
Proof.
  intros Hsp Hc Hin Hu. destruct F as [| [b t] F]; [simpl in Hu; lia |].
  destruct (spaced_span lo F b t (space + 8 * c) Hsp) as [H1 H2]; [intros x s Hx; by apply Hin |].
  destruct (Hin b t ltac:(left)) as [Hb _].
  destruct F as [| x F]; [| specialize (H2 ltac:(done)); lia].
  cbn [units] in Hu, H1. assert (b = space) as -> by lia. repeat f_equal. lia.
Qed.

Record arena_inv (space c : Z) (h : rtapi_heap) (A : gmap Z Z) : Prop := ArenaInv {
  ai_rep : exists F, rep h F A /\ units F + used_units A = c /\
    forall b s, (b, s) ∈ F -> space <= b /\ b + 8 * s <= space + 8 * c;
  ai_used : forall a u, A !! a = Some u -> space <= a /\ a + 8 * u <= space + 8 * c;
}.

Lemma arena_step space c h A h' A' :
  arena_inv space c h A -> heap_step (h, A) (h', A') -> arena_inv space c h' A'.
Proof.
  intros [(F & Hr & Hu & HF) HA] Hs.
  assert (units F + used_units A = c /\ True) as Hu1 by done. clear Hu.
  inversion Hs as [? ? nbytes p ? Hb Hrun | ? ? a ? [u Ha] Hrun]; subst.
  - destruct (malloc_run h F A nbytes Hr Hb) as [(q & h1 & Hm & Hd) | [_ Hm]]; rewrite Hm in Hrun; simplify_eq.
    destruct Hd as [(Fa & p & s & Fb & -> & Hn & -> & Hrep) Hfresh _ _ _]. destruct Hu1 as [Hu _]. set (n := malloc_units nbytes) in *.
    replace (p + 8 * (s - n) + 8 - 8) with (p + 8 * (s - n)) by lia.
    assert ((p, s) ∈ Fa ++ (p, s) :: Fb) as Hin by (apply elem_of_app; right; left).
    specialize (HF _ _ Hin) as Hps.
    assert (1 <= n) as Hn1.
    { unfold n, malloc_units. pose proof (Z.div_pos (nbytes + 7) 8). lia. }
    split.
    + eexists. split; [exact Hrep |]. rewrite units_taken, used_units_insert by done. split; [lia |].
      intros b t [Hbt | (-> & -> & _)]%taken_elem; [| lia].
      apply HF. rewrite elem_of_app, elem_of_cons. apply elem_of_app in Hbt. tauto.
    + intros x v Hx. apply lookup_insert_Some in Hx as [[<- <-] | [_ Hx]]; [lia | by apply HA].
  - destruct (free_run h F A a u Hr Ha) as (h1 & Hf & Hrep & _). rewrite Hf in Hrun. simplify_eq. destruct Hu1 as [Hu _].
    pose proof (loose_used _ _ _ _ _ Hr Ha) as Hl. pose proof (HA _ _ Ha) as Hau.
    destruct (spaced_split _ F a u (r_spaced _ _ _ Hr) (lo_units _ _ _ _ _ Hl) (lo_free _ _ _ _ _ Hl))
      as (G1 & G2 & -> & H1 & H2).
    split; [| intros x v [_ Hx]%lookup_delete_Some; by apply HA].
    exists (release a u (G1 ++ G2)). split; [done |]. split.
    + destruct (release_spaced (sizeof_heap - 1) G1 G2 a u (r_spaced _ _ _ Hr)) as [_ ->]; try done; [| apply Hl |].
      * pose proof (lo_range _ _ _ _ _ Hl). lia.
      * rewrite (used_units_delete _ _ _ Ha) in Hu. lia.
    + intros b t Hbt.
      assert (1 <= t) as Ht by (by apply (spaced_lower _ _ b t (r_spaced _ _ _ Hrep))). split.
      * assert (b + 8 * t <= Z.min b space - 1 \/ space <= b) as [|]; [| lia | done].
        eapply (release_elem _ G1 G2 a u b t (r_spaced _ _ _ Hr)); try done; [apply Hl | lia |].
        intros x v [Hx | Hx]%elem_of_cons; right; [simplify_eq; lia | apply HF in Hx; lia].
      * assert (b + 8 * t <= space + 8 * c \/ Z.max b (space + 8 * c) + 1 <= b) as [|]; [| done | lia].
        eapply (release_elem _ G1 G2 a u b t (r_spaced _ _ _ Hr)); try done; [apply Hl | lia |].
        intros x v [Hx | Hx]%elem_of_cons; left; [simplify_eq; lia | apply HF in Hx; lia].
Qed.

(** However a sequence of mallocs and frees goes, the free blocks and
    the blocks in use together are exactly the units of the arena; when all
    blocks have been freed the free list is the arena in one piece. *)
Theorem arena_conserved m space size h A :
  sizeof_heap <= space -> 8 <= size < 2 ^ 27 -> space + size <= 2 ^ 32 ->
  heap_reach m space size h A ->
  exists F, rep h F A /\ units F + used_units A = size / 8 /\ (A = ∅ -> F = [(space, size / 8)]).
Proof.
  intros Hsp Hsz Hhi Hreach. pose proof (Z.div_mod size 8 ltac:(lia)). pose proof (Z.mod_pos_bound size 8 ltac:(lia)).
  assert (arena_inv space (size / 8) h A) as [(F & Hr & Hu & HF) _].
  { induction Hreach as [h Hrun | h A h' A' _ IH Hs]; [| by eapply arena_step].
    destruct (addmem_run (rtapi_heap_init m) [] ∅ space size) as (h1 & Hadd & Hrep & _); try done; try lia.
    { apply heap_rep_init. }
    { by intros ? ? ?%not_elem_of_nil. }
    { change (used_units ∅) with 0. simpl. lia. }
    { simpl. lia. }
    rewrite Hadd in Hrun. simplify_eq. split; [| done].
    eexists. split; [exact Hrep |]. simpl. unfold used_units. rewrite map_fold_empty. split; [lia |].
    intros b s Hb. apply list_elem_of_singleton in Hb. simplify_eq. lia. }
  exists F. split; [done |]. split; [done |]. intros ->. unfold used_units in Hu. rewrite map_fold_empty in Hu.
  eapply full_arena; [apply Hr | lia | done | lia].
Qed.

(** ** Reallocation and zeroed memory *)
Lemma frame_bytes m m' F lo n : frame m m' F -> 8 <= lo ->
  (forall b s, (b, s) ∈ F -> b + 8 * s <= lo \/ lo + Z.of_nat n <= b) ->
  read_bytes m' lo n = read_bytes m lo n.
Proof. intros Hf Hlo HF. apply read_bytes_agree. by apply Hf. Qed.

(** The memory of a block that was not in use before. *)
Lemma rep_write h F A q n bs :
  rep h F A -> A !! q = Some n -> Z.of_nat (length bs) <= 8 * (n - 1) ->
  rep (set_mem (write_bytes (hp_mem h) (q + 8) bs) h) F A.
Proof.
  intros Hr Hq Hlen. pose proof (r_used _ _ _ Hr _ _ Hq) as [_ _ Hn [Hlow _]].
  assert (forall lo hi, hi <= q + 8 \/ q + 8 * n <= lo ->
    agree (hp_mem h) (write_bytes (hp_mem h) (q + 8) bs) lo hi) as Hag.
  { intros lo hi Hd. apply write_bytes_agree. lia. }
  eapply (rep_agree h); try done; simpl.
  - apply Hag. unfold sizeof_heap in *. lia.
  - intros b s Hb. apply Hag. pose proof (r_disjoint_free _ _ _ Hr _ _ _ _ Hq Hb) as Hd.
    pose proof (spaced_lower _ _ b s (r_spaced _ _ _ Hr) Hb). unfold disjoint_blocks in Hd. lia.
  - intros a u Ha. apply Hag. destruct (decide (a = q)) as [-> |]; [lia |].
    pose proof (r_disjoint _ _ _ Hr _ _ _ _ Hq Ha ltac:(done)) as Hd.
    pose proof (ub_units _ _ _ (r_used _ _ _ Hr _ _ Ha)). unfold disjoint_blocks in Hd. lia.
Qed.

Lemma write_kept h F A q n bs A0 :
  rep h F A -> A !! q = Some n -> Z.of_nat (length bs) <= 8 * (n - 1) ->
  (forall a u, A0 !! a = Some u -> A !! a = Some u /\ a <> q) ->
  contents_kept h (set_mem (write_bytes (hp_mem h) (q + 8) bs) h) A0.
Proof.
  intros Hr Hq Hlen H0 a u Ha. destruct (H0 _ _ Ha) as [HaA Hne]. simpl. apply write_bytes_agree.
  pose proof (r_disjoint _ _ _ Hr _ _ _ _ Hq HaA ltac:(done)) as Hd. unfold disjoint_blocks in Hd. lia.
Qed.

Lemma read_bytes_byte m o n : mem_ok m -> Forall byte (read_bytes m o n).
Proof. intros Hm. revert o. induction n as [| n IH]; intros o; simpl; constructor; auto. Qed.

Lemma malloc_units_bytes n : n <= 8 * (malloc_units n - 1).
Proof.
  unfold malloc_units. pose proof (Z.div_mod (n + 7) 8 ltac:(lia)).
  pose proof (Z.mod_pos_bound (n + 7) 8 ltac:(lia)). lia.
Qed.

Lemma allocsize_used h F A a u : rep h F A -> A !! a = Some u ->
  allocsize (hp_mem h) (a + 8) = 8 * (u - 1).
Proof.
  intros Hr Ha. destruct (r_used _ _ _ Hr _ _ Ha) as [Hs Hat Hu _]. unfold allocsize.
  replace (a + 8 - 8) with a by lia. rewrite Hat. change (Z.testbit 0 0) with false. cbv iota.
  replace (a + 8 - 8) with a by lia. rewrite Hs. pose proof (hsize_range (hp_mem h) a) as Hr2. rewrite Hs in Hr2.
  unfold sizeof_hdr. rewrite wrapu_small; lia.
Qed.

Lemma kept_trans h1 h2 h3 A : contents_kept h1 h2 A -> contents_kept h2 h3 A -> contents_kept h1 h3 A.
Proof. intros H1 H2 a u Ha. eapply agree_trans; eauto. Qed.

Lemma malloced_kept h F A n q h' : rep h F A -> malloced h F A n q h' -> contents_kept h h' A.
Proof.
  intros Hr [_ _ Hfr _ _]. eapply kept_frame; [exact Hr | exact Hfr |]. intros a u Ha. split; [done |].
  intros b t Ht. by apply (r_disjoint_free _ _ _ Hr _ _ _ _ Ha).
Qed.

(** rtapi_calloc gives a block of zeros, or nothing; the blocks in use
    keep their contents. *)
Theorem calloc_outcome h F A nelem elsize r h' :
  rep h F A -> 0 <= nelem * elsize < 2 ^ 64 - 7 -> rtapi_calloc nelem elsize h = (r, h') ->
  match r with
  | Ok (Some p) => exists F', rep h' F' (<[p - 8 := malloc_units (nelem * elsize)]> A) /\ A !! (p - 8) = None /\
      read_bytes (hp_mem h') p (Z.to_nat (nelem * elsize)) = replicate (Z.to_nat (nelem * elsize)) 0 /\
      contents_kept h h' A
  | Ok None => h' = h
  | _ => False
  end.
Proof.
  intros Hr Hb Hrun. unfold rtapi_calloc in Hrun. rewrite wrapu_small in Hrun by lia.
  set (n := nelem * elsize) in *. unfold mbind, M_bind in Hrun.
  destruct (malloc_run h F A n Hr Hb) as [(q & h1 & Hm & Hd) | [Hall Hm]]; rewrite Hm in Hrun; [| unfold mret, M_ret in Hrun; by simplify_eq].
  unfold mret, M_ret in Hrun. simpl in Hrun. simplify_eq. pose proof (malloced_kept _ _ _ _ _ _ Hr Hd) as Hk.
  destruct Hd as [(Fa & p & s & Fb & _ & _ & _ & Hrep) Hfresh _ _ _].
  replace (q + 8 - 8) with q by lia. pose proof (malloc_units_bytes n).
  assert (Z.of_nat (length (replicate (Z.to_nat n) 0)) <= 8 * (malloc_units n - 1)) as Hlen
    by (rewrite length_replicate; lia).
  eexists. split; [by eapply rep_write; [done | apply lookup_insert_eq |] |]. split; [done |]. split.
  - simpl. rewrite <- (length_replicate (Z.to_nat n) 0) at 2. rewrite read_write_bytes; [done |].
    by apply Forall_replicate.
  - eapply kept_trans; [exact Hk |]. eapply write_kept; [done | apply lookup_insert_eq | done |].
    intros a u Ha. split; [rewrite lookup_insert_ne; [done |] |]; congruence.
Qed.

(** rtapi_realloc keeps the bytes: a block that is large enough stays
    where it is; otherwise the bytes move to a new block and the old one is
    freed, or, without memory, nothing changes. *)
Theorem realloc_outcome h F A a u size r h' :
  rep h F A -> mem_ok (hp_mem h) -> A !! a = Some u -> 0 <= size < 2 ^ 64 - 7 ->
  rtapi_realloc (a + 8) size h = (r, h') ->
  match r with
  | Ok (Some p) => exists F' u', rep h' F' (<[p - 8 := u']> (delete a A)) /\ size <= 8 * (u' - 1) /\
      read_bytes (hp_mem h') p (Z.to_nat (Z.min size (8 * (u - 1))))
      = read_bytes (hp_mem h) (a + 8) (Z.to_nat (Z.min size (8 * (u - 1)))) /\
      contents_kept h h' (delete a A)
  | Ok None => h' = h
  | _ => False
  end.
Proof.
  intros Hr Hby Ha Hb Hrun. unfold rtapi_realloc, rtapi_allocsize, mbind, M_bind, get in Hrun. simpl in Hrun.
  rewrite (allocsize_used _ _ _ _ _ Hr Ha) in Hrun. set (sz := 8 * (u - 1)) in *.
  pose proof (r_used _ _ _ Hr _ _ Ha) as [_ _ Hu1 [Hlow _]].
  destruct (size <=? sz) eqn:E; zb.
  { unfold mret, M_ret in Hrun. simplify_eq. exists F, u. replace (a + 8 - 8) with a by lia.
    by rewrite insert_delete_eq, insert_id. }
  destruct (malloc_run h F A size Hr Hb) as [(q & h1 & Hm & Hd) | [Hall Hm]]; rewrite Hm in Hrun; [| unfold mret, M_ret in Hrun; by simplify_eq].
  simpl in Hrun. rewrite (proj2 (Z.ltb_ge size sz)) in Hrun by lia.
  pose proof (malloced_kept _ _ _ _ _ _ Hr Hd) as Hk.
  destruct Hd as [(Fa & p & s & Fb & _ & _ & _ & Hrep) Hfresh _ _ _].
  set (bs := read_bytes (hp_mem h1) (a + 8) (Z.to_nat sz)) in *.
  assert (bs = read_bytes (hp_mem h) (a + 8) (Z.to_nat sz)) as Hbs.
  { apply read_bytes_agree. eapply agree_sub; [apply (Hk a u Ha) | lia | unfold sz; lia]. }
  pose proof (malloc_units_bytes size).
  assert (Z.of_nat (length bs) <= 8 * (malloc_units size - 1)) as Hlen by (unfold bs; rewrite read_bytes_length; lia).
  assert (q <> a) as Hqa by (intros ->; congruence).
  set (A1 := <[q := malloc_units size]> A) in *.
  assert (A1 !! q = Some (malloc_units size)) as Hq by apply lookup_insert_eq.
  assert (A1 !! a = Some u) as Ha1 by (unfold A1; by rewrite lookup_insert_ne).
  pose proof (rep_write _ _ _ _ _ bs Hrep Hq Hlen) as Hw. set (h2 := set_mem _ h1) in *.
  destruct (free_run h2 _ A1 a u Hw Ha1) as (h3 & Hf & Hrep3 & Hfr & _). rewrite Hf in Hrun. unfold mret, M_ret in Hrun. injection Hrun as <- <-.
  replace (q + 8 - 8) with q by lia.
  assert (contents_kept h2 h3 (delete a A1)) as Hk3.
  { eapply kept_frame; [exact Hw | exact Hfr |]. intros b v [Hne Hbv]%lookup_delete_Some. split; [done |].
    intros x t [Hx | Hx]%elem_of_cons; [simplify_eq; by apply (r_disjoint _ _ _ Hw _ _ _ _ Hbv Ha1) |].
    by apply (r_disjoint_free _ _ _ Hw _ _ _ _ Hbv). }
  eexists _, (malloc_units size). split; [unfold A1 in Hrep3; rewrite delete_insert_ne in Hrep3 by done; exact Hrep3 |].
  split; [done |]. split.
  - rewrite Z.min_r by lia. rewrite <- Hbs.
    transitivity (read_bytes (hp_mem h2) (q + 8) (Z.to_nat sz)).
    + apply read_bytes_agree. eapply agree_sub; [apply (Hk3 q (malloc_units size)) | lia | lia].
      rewrite lookup_delete_ne by done. done.
    + unfold h2. simpl. replace (Z.to_nat sz) with (length bs) at 1 by (unfold bs; by rewrite read_bytes_length).
      apply read_write_bytes. rewrite Hbs. by apply read_bytes_byte.
  - intros b v Hbv. apply lookup_delete_Some in Hbv as [Hne Hbv].
    eapply agree_trans; [apply (Hk b v Hbv) |]. eapply agree_trans.
    + apply (write_kept h1 _ A1 q (malloc_units size) bs (delete a A) Hrep Hq Hlen);
        [| by rewrite lookup_delete_ne].
      intros c w [_ Hc]%lookup_delete_Some. assert (c <> q) by congruence.
      split; [unfold A1; by rewrite lookup_insert_ne | done].
    + apply (Hk3 b v). rewrite lookup_delete_ne by done. unfold A1. rewrite lookup_insert_ne; [done | congruence].
Qed.
