(* ===== verification/HeapAligned.v ===== *)
(** * Theorems about the heap: aligned allocation *)
From S2P Require Import Prelude Mem Heap HeapFacts HeapFree HeapTheorems.
Import Heap.

Lemma rep_add h F A a u :
  rep h F A -> A !! a = None -> used_block (hp_mem h) a u ->
  (forall b s, (b, s) ∈ F -> disjoint_blocks a u b s) ->
  (forall b v, A !! b = Some v -> disjoint_blocks a u b v) ->
  u + units F + used_units A < 2 ^ 24 -> 8 * (u + units F + used_units A) <= hp_arena_size h ->
  rep h F (<[a := u]> A).
Proof.
  intros Hr Ha Hu HF HA Ht Har. pose proof (r_used _ _ _ Hr) as Hused.
  pose proof (r_disjoint _ _ _ Hr) as Hd. pose proof (r_disjoint_free _ _ _ Hr) as Hdf. destruct Hr.
  split; rewrite ?used_units_insert by done; try done; try lia.
  - intros b v [[<- <-] | [_ Hb]]%lookup_insert_Some; auto.
  - intros b v c w [[<- <-] | [Hne Hb]]%lookup_insert_Some [[<- <-] | [Hne' Hc]]%lookup_insert_Some Hbc; try done; eauto.
    destruct (HA _ _ Hb); [by right | by left].
  - intros b v c s [[<- <-] | [_ Hb]]%lookup_insert_Some Hc; eauto.
Qed.

(** ** The alignment arithmetic *)
Section Align.
Variables (k addr base : Z).
Hypothesis Hk : 3 <= k < 60.
Hypothesis Haddr : 0 <= addr /\ (8 | addr).
Hypothesis Hbase : 0 <= base /\ (8 | base).
Let align := 2 ^ k.
Let result := Z.land (addr + base + align) (- align) - addr.

Lemma aligned_result :
  (align | addr + result) /\ 8 <= result - base <= align /\ (8 | result).
Proof.
  assert (0 < align) by (unfold align; lia).
  assert (8 | align) as H8.
  { exists (2 ^ (k - 3)). unfold align. change 8 with (2 ^ 3). rewrite <- (Z.pow_add_r 2 (k - 3) 3) by lia. f_equal. lia. }
  assert (result = addr + base + align - (addr + base + align) mod align - addr) as Hres.
  { unfold result, align. rewrite land_neg_pow by lia. done. }
  pose proof (Z.div_mod (addr + base + align) align ltac:(lia)) as Hdm.
  pose proof (Z.mod_pos_bound (addr + base + align) align ltac:(lia)) as Hmb.
  set (r := (addr + base + align) mod align) in *. set (q := (addr + base + align) / align) in *.
  assert (addr + result = align * q) as Hq by lia.
  assert (8 | result) as H8r.
  { replace result with (align * q - addr) by lia. apply Z.divide_sub_r; [by apply Z.divide_mul_l | apply Haddr]. }
  split; [exists q; lia |]. split; [| done]. split; [| lia].
  assert (8 | result - base) as [j Hj] by (apply Z.divide_sub_r; [done | apply Hbase]). lia.
Qed.
End Align.

(** An aligned region: the block it lies in, and the tag that refers to it. *)
Record aligned_block (m : mem) (p base u : Z) : Prop := AlignedBlock {
  al_inside : base + 8 <= p /\ p <= base + 8 * (u - 1);
  al_attr : hattr m (p - 8) = ATTR_ALIGNED;
  al_base : hsize m (p - 8) = base mod 2 ^ 24;
}.

Lemma set_tag_used h F A q n p base :
  rep h F A -> A !! q = Some n -> q + 8 <= p - 8 -> p <= q + 8 * n ->
  let h' := set_mem (set_tag (hp_mem h) (p - 8) base ATTR_ALIGNED) h in
  rep h' F A /\ contents_kept h h' (delete q A).
Proof.
  intros Hr Hq Hlo Hhi h'. pose proof (r_used _ _ _ Hr _ _ Hq) as [_ _ Hn [Hlow _]].
  assert (forall lo hi, hi <= q + 8 \/ q + 8 * n <= lo -> agree (hp_mem h) (hp_mem h') lo hi) as Hag.
  { intros lo hi Hd. apply set_tag_agree. lia. }
  assert (forall a u, A !! a = Some u -> a <> q -> a + 8 * u <= q \/ q + 8 * n <= a) as Hda.
  { intros a u Ha Hne. pose proof (r_disjoint _ _ _ Hr _ _ _ _ Hq Ha ltac:(done)) as Hd.
    unfold disjoint_blocks in Hd. lia. }
  split.
  - eapply (rep_agree h); try done.
    + apply Hag. unfold sizeof_heap in *. lia.
    + intros b s Hb. apply Hag. pose proof (r_disjoint_free _ _ _ Hr _ _ _ _ Hq Hb) as Hd.
      pose proof (spaced_lower _ _ b s (r_spaced _ _ _ Hr) Hb). unfold disjoint_blocks in Hd. lia.
    + intros a u Ha. apply Hag. destruct (decide (a = q)) as [-> |]; [lia |].
      specialize (Hda _ _ Ha ltac:(done)). pose proof (ub_units _ _ _ (r_used _ _ _ Hr _ _ Ha)). lia.
  - intros a u [Hne Ha]%lookup_delete_Some. apply Hag. specialize (Hda _ _ Ha ltac:(done)). lia.
Qed.

Definition blocks_aligned (F : list (Z * Z)) : Prop := forall b s, (b, s) ∈ F -> (8 | b).

(** ** Trimming: the last [t] units of a block in use become a free block *)
Definition trimmed (m : mem) (q u t : Z) : mem :=
  let new := q + 8 * (u - t) in
  set_size (set_next (set_tag (set_next m new (hnext m q)) new t 0) q new) q (u - t).

Section Trim.
Variables (m : mem) (q u t : Z).
Hypothesis Hsize : hsize m q = u.
Hypothesis Hattr : hattr m q = 0.
Hypothesis Ht : 1 <= t < u.
Let new := q + 8 * (u - t).

Lemma trimmed_agree lo hi : (hi <= q \/ q + 8 <= lo) -> (hi <= new \/ new + 8 <= lo) -> agree m (trimmed m q u t) lo hi.
Proof.
  intros Hq Hn. unfold trimmed, set_size. cbv zeta. fold new.
  repeat (eapply agree_trans; [| first [apply set_tag_agree | apply set_next_agree]; lia]). done.
Qed.

Lemma trimmed_tags : hsize (trimmed m q u t) q = u - t /\ hattr (trimmed m q u t) q = 0 /\
  hsize (trimmed m q u t) new = t /\ hattr (trimmed m q u t) new = 0.
Proof.
  pose proof (hsize_range m q) as Hu. assert (sep q new) as Hsep by (left; unfold new; lia).
  assert (sep new q) as Hsep' by (right; unfold new; lia).
  unfold trimmed, set_size. cbv zeta. fold new.
  set (m1 := set_next m new (hnext m q)). set (m2 := set_tag m1 new t 0). set (m3 := set_next m2 q new).
  assert (tag m3 q = tag m q) as Hq.
  { unfold m3. rewrite tag_set_next by (by left). unfold m2. rewrite tag_set_tag_ne by done. apply tag_set_next. by right. }
  assert (hattr m3 q = 0) as Ha by (rewrite (hattr_tag _ _ _ Hq); done).
  assert (forall f, (forall m m', tag m' new = tag m new -> f m' new = f m new :> Z) ->
    f (set_tag m3 q (u - t) 0) new = f m2 new) as Hn.
  { intros f Hf. apply Hf. rewrite tag_set_tag_ne by done. unfold m3. apply tag_set_next. by right. }
  rewrite hsize_set_tag, hattr_set_tag, Ha, (Hn hsize), (Hn hattr) by (intros; by apply hsize_tag || by apply hattr_tag).
  unfold m2. rewrite hsize_set_tag, hattr_set_tag. rewrite !Z.mod_small by lia. done.
Qed.

(** As the code computes it. *)
Lemma trimmed_eq : let m3 := set_next (set_tag (set_next m new (hnext m q)) new t 0) q new in
  set_size m3 q (hsize m3 q - t) = trimmed m q u t.
Proof.
  cbv zeta. assert (sep q new) as Hsep by (left; unfold new; lia).
  assert (sep new q) as Hsep' by (right; unfold new; lia).
  unfold trimmed. cbv zeta. fold new. f_equal. f_equal. rewrite <- Hsize. apply hsize_tag.
  rewrite tag_set_next by (by left). rewrite tag_set_tag_ne by done. apply tag_set_next. by right.
Qed.
End Trim.

Lemma trim_run h F A q u t :
  rep h F A -> A !! q = Some u -> 1 <= t < u ->
  exists h', trim_block (q + 8) t h = (Ok tt, h') /\
    rep h' (release (q + 8 * (u - t)) t F) (<[q := u - t]> A) /\ hp_arena_size h' = hp_arena_size h /\
    contents_kept h h' (delete q A) /\ agree (hp_mem h) (hp_mem h') (q + 8) (q + 8 * (u - t)).
Proof.
  intros Hr Hq Ht. pose proof (r_used _ _ _ Hr _ _ Hq) as [Hsz Hat _ [Hlow Hhigh]].
  set (new := q + 8 * (u - t)). set (h1 := set_mem (trimmed (hp_mem h) q u t) h).
  destruct (trimmed_tags _ _ _ _ Hsz Hat Ht) as (Tq & Tqa & Tn & Tna). fold new in Tn, Tna.
  assert (forall b s, disjoint_blocks q u b s -> 1 <= s -> agree (hp_mem h) (hp_mem h1) b (b + 8 * s)) as Hag.
  { intros b s Hd Hs. unfold disjoint_blocks in Hd. apply trimmed_agree; lia. }
  assert (forall b s, (b, s) ∈ F -> disjoint_blocks q u b s /\ 1 <= s) as HF.
  { intros b s Hb. split; [by apply (r_disjoint_free _ _ _ Hr _ _ _ _ Hq) | by apply (spaced_lower _ _ b s (r_spaced _ _ _ Hr))]. }
  assert (forall b v, delete q A !! b = Some v -> disjoint_blocks q u b v /\ 1 <= v) as HA.
  { intros b v [Hne Hb]%lookup_delete_Some. split; [by apply (r_disjoint _ _ _ Hr _ _ _ _ Hq Hb) |].
    apply (ub_units _ _ _ (r_used _ _ _ Hr _ _ Hb)). }
  pose proof (rep_delete _ _ _ _ _ Hr Hq) as Hrd.
  pose proof (r_units _ _ _ Hr) as Htot. pose proof (r_arena _ _ _ Hr) as Har.
  rewrite (used_units_delete _ _ _ Hq) in Htot, Har.
  assert (rep h1 F (delete q A)) as Hr1.
  { eapply (rep_agree h); try done.
    - apply trimmed_agree; unfold sizeof_heap in *; lia.
    - intros b s Hb. destruct (HF _ _ Hb). eapply agree_sub; [by apply (Hag b s) | lia | lia].
    - intros b v Hb. destruct (HA _ _ Hb). eapply agree_sub; [by apply (Hag b v) | lia | lia]. }
  assert (rep h1 F (<[q := u - t]> A)) as Hr2.
  { rewrite <- insert_delete_eq. apply rep_add; [exact Hr1 | apply lookup_delete_eq | | | | lia | simpl; lia].
    - split; [exact Tq | exact Tqa | lia | lia].
    - intros b s Hb. destruct (HF _ _ Hb). unfold disjoint_blocks in *. lia.
    - intros b v Hb. destruct (HA _ _ Hb). unfold disjoint_blocks in *. lia. }
  assert (used_units (<[q := u - t]> A) = u - t + used_units (delete q A)) as Hus.
  { rewrite <- insert_delete_eq, used_units_insert; [done | apply lookup_delete_eq]. }
  assert (loose h1 F (<[q := u - t]> A) new t) as Hl.
  { split; [exact Tn | exact Tna | lia | unfold new; lia | | | lia].
    - intros b s Hb. destruct (HF _ _ Hb). unfold disjoint_blocks, new in *. lia.
    - intros b v Hb. destruct (decide (b = q)) as [-> |].
      + rewrite lookup_insert_eq in Hb. simplify_eq. unfold disjoint_blocks, new. lia.
      + rewrite lookup_insert_ne in Hb by done.
        destruct (HA b v) as [Hd _]; [by rewrite lookup_delete_ne |]. unfold disjoint_blocks, new in *. lia. }
  destruct (release_run _ _ _ _ _ Hr2 Hl) as (h2 & Hrun & Hfr & Har2 & Hfl2 & Hrep). exists h2.
  split.
  { unfold trim_block, mbind, M_bind, get, modify. replace (q + 8 - sizeof_hdr) with q by (unfold sizeof_hdr; lia).
    pose proof (trimmed_eq _ _ _ _ Hsz Ht) as Heq. cbv zeta in Heq. fold new in Heq.
    rewrite Hsz. change (q + sizeof_hdr * (u - t)) with new. rewrite Heq. exact Hrun. }
  split; [apply Hrep; [done | done | rewrite Har2, Hus; simpl; lia] |]. split; [exact Har2 |]. split.
  - intros b v Hb. destruct (HA _ _ Hb) as [Hd Hv]. apply lookup_delete_Some in Hb as [Hne Hb].
    pose proof (r_used _ _ _ Hr _ _ Hb) as [_ _ _ [Hb72 _]].
    eapply agree_sub; [eapply agree_trans; [apply (Hag b v Hd Hv) |] | lia | lia].
    eapply frame_used; [exact Hfr | | done]. intros x s [Hx | Hx]%elem_of_cons.
    + injection Hx as -> ->. unfold disjoint_blocks, new in *. lia.
    + by apply (r_disjoint_free _ _ _ Hr _ _ _ _ Hb).
  - eapply agree_trans; [apply (trimmed_agree _ q u t); unfold new; lia |]. apply Hfr; [unfold sizeof_heap in Hlow; lia |].
    intros x s [Hx | Hx]%elem_of_cons; [injection Hx as -> ->; unfold new; lia |].
    destruct (HF _ _ Hx). unfold disjoint_blocks, new in *. lia.
Qed.

(** What rtapi_malloc_aligned does to the free list: the block at [q] is cut
    from the end of a free block, and its last [t] units may be cut off again. *)
Definition aligned_list (Fa : list (Z * Z)) (b s u t : Z) (Fb : list (Z * Z)) : list (Z * Z) :=
  let F := taken Fa b s u Fb in
  if t =? 0 then F else release (b + 8 * (s - u) + 8 * (u - t)) t F.

Lemma malloc_aligned_run k addr h F A nbytes r h' :
  rep h F A -> blocks_aligned F -> 3 <= k < 60 -> 0 <= addr /\ (8 | addr) ->
  0 <= nbytes -> nbytes + 2 ^ k < 2 ^ 63 ->
  rtapi_malloc_aligned addr nbytes (2 ^ k) h = (r, h') ->
  match r with
  | Ok (Some p) => exists Fa b s Fb u t q, F = Fa ++ (b, s) :: Fb /\ 1 <= u <= s /\ 0 <= t < u /\ q = b + 8 * (s - u) /\
      rep h' (aligned_list Fa b s u t Fb) (<[q := u - t]> A) /\ A !! q = None /\
      (2 ^ k | addr + p) /\ p + nbytes <= q + 8 * (u - t) /\ aligned_block (hp_mem h') p (q + 8) (u - t) /\
      contents_kept h h' A /\ hp_arena_size h' = hp_arena_size h
  | Ok None => False
  | Err _ => False
  | Crash => h' = h /\ forall b s, (b, s) ∈ F -> s < malloc_units (nbytes + 2 ^ k)
  end.
Proof.
  intros Hr Hal Hk Haddr Hn Hb Hrun. unfold rtapi_malloc_aligned in Hrun.
  assert (8 <= 2 ^ k < 2 ^ 60) as Hk8.
  { split; [change 8 with (2 ^ 3); apply Z.pow_le_mono_r; lia | apply Z.pow_lt_mono_r; lia]. }
  assert (Z.land (2 ^ k) (u64 (2 ^ k - 1)) = 0) as Hpow.
  { rewrite wrapu_small by lia. replace (2 ^ k - 1) with (Z.ones k) by (rewrite Z.ones_equiv; lia).
    rewrite Z.land_ones by lia. apply Z.mod_same. lia. }
  rewrite Hpow in Hrun. rewrite wrapu_small in Hrun by lia. cbn [negb Z.eqb] in Hrun. unfold mbind, M_bind in Hrun.
  destruct (malloc_run h F A (nbytes + 2 ^ k) Hr ltac:(lia)) as [(q & h1 & Hm & Hd) | [Hall Hm]]; rewrite Hm in Hrun.
  2:{ rewrite (proj2 (Z.ltb_ge _ 4)) in Hrun by lia. unfold crash in Hrun. injection Hrun as <- <-.
      split; [done |]. intros b s Hin. rewrite Forall_forall in Hall. by apply (Hall _ Hin). }
  pose proof (malloced_kept _ _ _ _ _ _ Hr Hd) as Hkept.
  destruct Hd as [(Fa & p0 & s & Fb & -> & Hs & Hq & Hrep) Hfresh _ Har Hfl]. set (u := malloc_units (nbytes + 2 ^ k)) in *.
  assert ((p0, s) ∈ Fa ++ (p0, s) :: Fb) as Hin by (apply elem_of_app; right; left).
  assert (8 | q + 8) as H8q.
  { destruct (Hal _ _ Hin) as [j Hj]. exists (j + (s - u) + 1). lia. }
  pose proof (r_used _ _ _ Hrep q u ltac:(apply lookup_insert_eq)) as [_ _ Hu [Hlow Hhigh]].
  destruct (aligned_result k addr (q + 8) Hk Haddr) as (Hdiv & Hslack & H8r).
  { split; [unfold sizeof_heap in Hlow; lia | done]. }
  set (result := Z.land (addr + (q + 8) + 2 ^ k) (- 2 ^ k) - addr) in *.
  rewrite (wrapu_small 64 (result - (q + 8))) in Hrun by lia.
  rewrite (proj2 (Z.ltb_ge _ 4)) in Hrun by lia.
  rewrite (proj2 (Z.ltb_ge result 4)) in Hrun by (unfold sizeof_heap in Hlow; lia).
  pose proof (malloc_units_bytes (nbytes + 2 ^ k)) as Hbytes. fold u in Hbytes.
  destruct (set_tag_used h1 _ _ q u result (q + 8) Hrep ltac:(apply lookup_insert_eq) ltac:(lia) ltac:(lia)) as [Hrep2 Hk2].
  rewrite delete_insert_eq, delete_id in Hk2 by done.
  unfold modify, get, mret, M_ret in Hrun. cbv beta iota in Hrun. set (h2 := set_mem (set_tag (hp_mem h1) (result - 8) (q + 8) ATTR_ALIGNED) h1) in *.
  assert (hattr (hp_mem h2) (result - 8) = ATTR_ALIGNED /\ hsize (hp_mem h2) (result - 8) = (q + 8) mod 2 ^ 24) as [Tat Tsz].
  { unfold h2. simpl. rewrite hattr_set_tag, hsize_set_tag. done. }
  rewrite (wrapu_small 64 (2 ^ k - (result - (q + 8)))) in Hrun by lia.
  assert (8 | 2 ^ k - (result - (q + 8))) as [t Ht].
  { apply Z.divide_sub_r; [| apply Z.divide_sub_r; done].
    exists (2 ^ (k - 3)). change 8 with (2 ^ 3). rewrite <- Z.pow_add_r by lia. f_equal. lia. }
  assert ((2 ^ k - (result - (q + 8))) / sizeof_hdr = t) as Htd by (rewrite Ht; apply Z.div_mul; done).
  rewrite Htd in Hrun.
  destruct (negb _ && (0 <? t)) eqn:Etrim.
  - apply andb_prop in Etrim as [_ Et]. apply Z.ltb_lt in Et.
    destruct (trim_run h2 _ _ q u t Hrep2 ltac:(apply lookup_insert_eq) ltac:(lia)) as (h3 & Hrun3 & Hrep3 & Har3 & Hk3 & Hin3).
    rewrite Hrun3 in Hrun. injection Hrun as <- <-. rewrite delete_insert_eq, delete_id in Hk3 by done.
    rewrite insert_insert_eq in Hrep3. exists Fa, p0, s, Fb, u, t, q. unfold aligned_list.
    rewrite (proj2 (Z.eqb_neq t 0)) by lia. rewrite <- Hq. split; [done |]. split; [lia |]. split; [lia |]. split; [done |].
    split; [exact Hrep3 |]. split; [done |]. split; [done |]. split; [lia |].
    assert (tag (hp_mem h3) (result - 8) = tag (hp_mem h2) (result - 8)) as Htag.
    { apply load32_agree. eapply agree_sub; [exact Hin3 | lia | lia]. }
    split; [| split; [by eapply kept_trans, kept_trans; [exact Hkept | exact Hk2 |] | by rewrite Har3]].
    split; [lia | rewrite (hattr_tag _ _ _ Htag); done | rewrite (hsize_tag _ _ _ Htag); done].
  - injection Hrun as <- <-. exists Fa, p0, s, Fb, u, 0, q. unfold aligned_list. rewrite Z.sub_0_r, Z.eqb_refl.
    split; [done |]. split; [lia |]. split; [lia |]. split; [done |].
    split; [exact Hrep2 |]. split; [done |]. split; [done |]. split; [lia |].
    split; [by split; [lia | |] |]. split; [by eapply kept_trans | done].
Qed.

(** rtapi_malloc_aligned, with trimming or without, gives a region of [nbytes]
    bytes inside a block that was not in use, at an address that is a
    multiple of the alignment; the tag in front of it records the offset of
    the block modulo 2^24; what trimming cuts off goes back to the free list. *)
Theorem malloc_aligned_outcome k addr h F A nbytes r h' :
  rep h F A -> blocks_aligned F -> 3 <= k < 60 -> 0 <= addr /\ (8 | addr) ->
  0 <= nbytes -> nbytes + 2 ^ k < 2 ^ 63 ->
  rtapi_malloc_aligned addr nbytes (2 ^ k) h = (r, h') ->
  match r with
  | Ok (Some p) => exists F' base u, rep h' F' (<[base - 8 := u]> A) /\ A !! (base - 8) = None /\
      (2 ^ k | addr + p) /\ p + nbytes <= base + 8 * (u - 1) /\ aligned_block (hp_mem h') p base u /\
      contents_kept h h' A
  | Ok None => False
  | Err _ => False
  | Crash => h' = h /\ forall b s, (b, s) ∈ F -> s < malloc_units (nbytes + 2 ^ k)
  end.
Proof.
  intros Hr Hal Hk Haddr Hn Hb Hrun. pose proof (malloc_aligned_run k addr h F A nbytes r h' Hr Hal Hk Haddr Hn Hb Hrun) as Ho.
  destruct r as [[p |] | |]; try done.
  destruct Ho as (Fa & b & s & Fb & u & t & q & _ & _ & _ & _ & Hrep & Hno & Hd & Hlen & Hab & Hkept & _).
  exists (aligned_list Fa b s u t Fb), (q + 8), (u - t). replace (q + 8 - 8) with q by lia.
  repeat (split; [first [assumption | lia] |]). assumption.
Qed.

(** The pointer to an aligned region stands for its block, if the offset of
    the block fits the 24 bits of the tag. *)
Lemma free_aligned_eq h F A p base u :
  rep h F A -> A !! (base - 8) = Some u -> aligned_block (hp_mem h) p base u -> 0 <= base < 2 ^ 24 ->
  rtapi_free p h = rtapi_free (base - 8 + 8) h.
Proof.
  intros Hr Ha [Hin Hat Hsz] Hb.
  unfold rtapi_free, unlocked_free, mbind, M_bind, get. rewrite Hat, Hsz, Z.mod_small by lia.
  change (Z.testbit ATTR_ALIGNED 0) with true. cbv iota.
  replace (base - 8 + 8 - 8) with (base - 8) by lia.
  rewrite (ub_attr _ _ _ (r_used _ _ _ Hr _ _ Ha)). change (Z.testbit 0 0) with false. cbv iota.
  by replace (base - 8 + 8) with base by lia.
Qed.

(** Freeing an aligned region frees the block it lies in. *)
Theorem free_aligned_outcome h F A p base u r h' :
  rep h F A -> A !! (base - 8) = Some u -> aligned_block (hp_mem h) p base u -> 0 <= base < 2 ^ 24 ->
  rtapi_free p h = (r, h') ->
  r = Ok tt /\ rep h' (release (base - 8) u F) (delete (base - 8) A) /\ contents_kept h h' (delete (base - 8) A).
Proof.
  intros Hr Ha Hal Hb Hrun. rewrite (free_aligned_eq h F A p base u) in Hrun by done.
  destruct (free_run_kept h F A (base - 8) u Hr Ha) as (h1 & Hf & ? & ?).
  rewrite Hf in Hrun. by simplify_eq.
Qed.

(** ** Witnesses: an arena of 32 units, and a block of 4 units in it *)
Definition w_heap : rtapi_heap := snd (rtapi_heap_addmem 128 256 (rtapi_heap_init ∅)).
Definition w_heap_used : rtapi_heap := snd (rtapi_malloc 20 w_heap).

Lemma fresh_arena m space size :
  sizeof_heap <= space -> 8 <= size < 2 ^ 27 -> space + size <= 2 ^ 32 ->
  rep (snd (rtapi_heap_addmem space size (rtapi_heap_init m))) [(space, size / 8)] ∅.
Proof.
  intros ? ? ?. pose proof (Z.div_mod size 8 ltac:(lia)). pose proof (Z.mod_pos_bound size 8 ltac:(lia)).
  destruct (addmem_run (rtapi_heap_init m) [] ∅ space size (heap_rep_init m)) as (h & -> & Hrep & _); [done | lia | lia | | | | | |].
  - by intros ? ? ?%not_elem_of_nil.
  - by intros ? ? [=].
  - change (used_units ∅) with 0. simpl. lia.
  - simpl. lia.
  - simpl. lia.
  - exact Hrep.
Qed.

Lemma w_heap_rep : rep w_heap [(128, 32)] ∅.
Proof. apply (fresh_arena ∅ 128 256); unfold sizeof_heap; lia. Qed.

Lemma w_used_rep : exists F, rep w_heap_used F {[352 := 4]}.
Proof.
  destruct (rtapi_malloc 20 w_heap) as [r h'] eqn:E.
  destruct (malloc_run w_heap _ _ 20 w_heap_rep ltac:(lia)) as [(q & h1 & Hm & Hd) | [Hall Hm]].
  - assert (q = 352) as ->.
    { assert (fst (rtapi_malloc 20 w_heap) = Ok (Some 360)) as Hq by (vm_compute; reflexivity).
      rewrite Hm in Hq. simpl in Hq. injection Hq as Hq. lia. }
    unfold w_heap_used. rewrite Hm. simpl. destruct Hd as [(Fa & p & s & Fb & _ & _ & _ & Hrep) _ _ _ _].
    eexists. exact Hrep.
  - assert (is_ok (fst (rtapi_malloc 20 w_heap)) = true) by (vm_compute; reflexivity).
    assert (fst (rtapi_malloc 20 w_heap) = Ok (Some 360)) as Hq by (vm_compute; reflexivity).
    rewrite Hm in Hq. discriminate.
Qed.

Lemma malloc_outcome_witness : exists F' h', rtapi_malloc 20 w_heap = (Ok (Some 360), h') /\
  rep h' F' {[352 := 4]}.
Proof.
  destruct (rtapi_malloc 20 w_heap) as [r h'] eqn:E.
  pose proof (malloc_outcome w_heap _ _ 20 r h' w_heap_rep ltac:(lia) E) as Ho.
  assert (r = Ok (Some 360)) as -> by (change r with (fst (r, h')); rewrite <- E; vm_compute; reflexivity).
  destruct Ho as (F' & Hrep & _). exists F', h'. split; [reflexivity | exact Hrep].
Defined.

Lemma free_outcome_witness : exists h', rtapi_free 360 w_heap_used = (Ok tt, h') /\ exists F, rep h' F ∅.
Proof.
  destruct w_used_rep as [F Hr]. destruct (rtapi_free (352 + 8) w_heap_used) as [r h'] eqn:E.
  destruct (free_outcome w_heap_used F {[352 := 4]} 352 4 r h' Hr ltac:(reflexivity) E) as (-> & Hrep & _).
  exists h'. split; [exact E |]. eexists. exact Hrep.
Defined.

Lemma arena_conserved_witness :
  exists h, heap_reach ∅ 128 256 h ∅ /\ exists F, rep h F ∅ /\ F = [(128, 32)].
Proof.
  assert (heap_reach ∅ 128 256 w_heap ∅) as Hreach.
  { apply reach_arena. unfold w_heap. vm_compute. reflexivity. }
  exists w_heap. split; [exact Hreach |].
  destruct (arena_conserved ∅ 128 256 w_heap ∅ ltac:(unfold sizeof_heap; lia) ltac:(lia) ltac:(lia) Hreach) as (F & Hr & _ & HF).
  exists F. split; [exact Hr | apply HF; reflexivity].
Defined.

Lemma calloc_outcome_witness : exists h', rtapi_calloc 4 4 w_heap = (Ok (Some 368), h') /\
  read_bytes (hp_mem h') 368 16 = replicate 16 0.
Proof.
  destruct (rtapi_calloc 4 4 w_heap) as [r h'] eqn:E.
  pose proof (calloc_outcome w_heap _ _ 4 4 r h' w_heap_rep ltac:(lia) E) as Ho.
  assert (r = Ok (Some 368)) as -> by (change r with (fst (r, h')); rewrite <- E; vm_compute; reflexivity).
  destruct Ho as (F' & _ & _ & Hz & _). exists h'. split; [reflexivity | exact Hz].
Defined.

Lemma mem_ok_dec (m : mem) : forallb (fun kv => (0 <=? kv.2) && (kv.2 <? 256)) (map_to_list m) = true -> mem_ok m.
Proof.
  intros Hm x. unfold load8, lookup_total, map_lookup_total. destruct (m !! x) as [v |] eqn:E; [| done].
  rewrite forallb_forall in Hm. specialize (Hm (x, v)). simpl in *. unfold byte.
  rewrite andb_true_iff, Z.leb_le, Z.ltb_lt in Hm. apply Hm, list_elem_of_In, elem_of_map_to_list. done.
Qed.

Lemma w_used_bytes : mem_ok (hp_mem w_heap_used).
Proof. apply mem_ok_dec. vm_compute. reflexivity. Qed.

Lemma realloc_outcome_witness : exists p h', rtapi_realloc 360 100 w_heap_used = (Ok (Some p), h') /\
  read_bytes (hp_mem h') p 24 = read_bytes (hp_mem w_heap_used) 360 24.
Proof.
  destruct w_used_rep as [F Hr]. destruct (rtapi_realloc (352 + 8) 100 w_heap_used) as [r h'] eqn:E.
  pose proof (realloc_outcome w_heap_used F {[352 := 4]} 352 4 100 r h' Hr w_used_bytes ltac:(reflexivity) ltac:(lia) E) as Ho.
  destruct r as [[p |] | |]; [| exfalso; vm_compute in E; discriminate E | contradiction | contradiction].
  destruct Ho as (F' & u' & _ & _ & Hb & _). exists p, h'. split; [exact E | exact Hb].
Defined.

Lemma malloc_aligned_outcome_witness : exists p h', rtapi_malloc_aligned 4096 20 64 w_heap = (Ok (Some p), h') /\
  (64 | 4096 + p).
Proof.
  destruct (rtapi_malloc_aligned 4096 20 64 w_heap) as [r h'] eqn:E.
  pose proof (malloc_aligned_outcome 6 4096 w_heap [(128, 32)] ∅ 20 r h' w_heap_rep) as Ho.
  assert (blocks_aligned [(128, 32)]) as Hal.
  { intros b s Hb. apply list_elem_of_singleton in Hb. injection Hb as -> ->. exists 16. lia. }
  specialize (Ho Hal ltac:(lia) ltac:(split; [lia | exists 512; lia]) ltac:(lia) ltac:(lia) E).
  assert (exists p, r = Ok (Some p)) as [p ->].
  { change r with (fst (r, h')). rewrite <- E. vm_compute. eexists. reflexivity. }
  destruct Ho as (F' & base & u & _ & _ & Hd & _). exists p, h'. split; [reflexivity | exact Hd].
Defined.

Definition w_heap_aligned : rtapi_heap :=
  set_mem (set_tag (hp_mem w_heap_used) (368 - 8) 360 ATTR_ALIGNED) w_heap_used.

Lemma free_aligned_outcome_witness :
  exists h', rtapi_free 368 w_heap_aligned = (Ok tt, h') /\ exists F, rep h' F ∅.
Proof.
  destruct w_used_rep as [F Hr].
  destruct (set_tag_used w_heap_used F {[352 := 4]} 352 4 368 360 Hr ltac:(reflexivity) ltac:(lia) ltac:(lia)) as [Hr' _].
  destruct (rtapi_free 368 w_heap_aligned) as [r h'] eqn:E.
  assert (aligned_block (hp_mem w_heap_aligned) 368 360 4) as Hal.
  { split; [lia | |]; vm_compute; reflexivity. }
  destruct (free_aligned_outcome w_heap_aligned F {[352 := 4]} 368 360 4 r h' Hr' ltac:(reflexivity) Hal ltac:(lia) E)
    as (-> & Hrep & _).
  exists h'. split; [reflexivity |]. eexists. exact Hrep.
Defined.
