(* ===== verification/TripleBuffer.v ===== *)
(** * Triple buffer (runtime/include/runtime/triple-buffer.h)

    The flag byte of a triple buffer holds three 2-bit buffer indices and a
    'new data' bit; the producer flips and the consumer snapshots with
    compare-and-swap.  [rtapi_tb_flip] and [rtapi_tb_snapshot] are given
    twice: as the loop bodies that compute the new flag byte, and as the
    steps of a transition system [step] in which loads and compare-and-swaps
    of the two sides interleave. *)
From S2P Require Import Prelude.

Module TripleBuffer.

(** ** Flag byte: (unused) (new write) (2x dirty) (2x clean) (2x snap) *)
Definition rtapi_tb_init : Z := 0x6.

Definition rtapi_tb_snap_idx (flags : Z) : Z := Z.land flags 0x3.

Definition rtapi_tb_write_idx (flags : Z) : Z := Z.shiftr (Z.land flags 0x30) 4.

(** Index in the middle field: the buffer that neither side works on. *)
Definition mid_idx (flags : Z) : Z := Z.shiftr (Z.land flags 0xC) 2.

(** The byte [rtapi_tb_snapshot] tries to store; [None] when it returns
    false because no new data is available. *)
Definition tb_snapshot_new (flagsNow : Z) : option Z :=
  if Z.land flagsNow 0x40 =? 0 then None
  else Some (Z.lor (Z.lor (Z.land flagsNow 0x30)
                          (Z.shiftl (Z.land flagsNow 0x3) 2))
                   (Z.shiftr (Z.land flagsNow 0xC) 2)).

(** The byte [rtapi_tb_flip] tries to store. *)
Definition tb_flip_new (flagsNow : Z) : Z :=
  Z.lor (Z.lor (Z.lor 0x40 (Z.shiftl (Z.land flagsNow 0xC) 2))
               (Z.shiftr (Z.land flagsNow 0x30) 2))
        (Z.land flagsNow 0x3).

(** Without interference each loop runs once. *)
Definition rtapi_tb_snapshot (flags : Z) : bool * Z :=
  match tb_snapshot_new flags with
  | None => (false, flags)
  | Some f => (true, f)
  end.

Definition rtapi_tb_flip (flags : Z) : Z := tb_flip_new flags.

(** ** Interleaved execution

    Producer: idle, or between the load and the compare-and-swap of
    [rtapi_tb_flip].  Consumer: idle, or inside [rtapi_tb_snapshot] holding
    [flagsNow], which is loaded once, before the loop. *)
Inductive producer_pc := PIdle | PLoaded (flagsNow : Z).
Inductive consumer_pc := CIdle | CLoaded (flagsNow : Z).

Record sys := Sys {
  flags : Z;
  buffer : Z -> Z;          (* buffer[3] *)
  ppc : producer_pc;
  cpc : consumer_pc;
  last : option Z;          (* value of the last completed flip *)
}.

Definition initial (b : Z -> Z) : sys := Sys rtapi_tb_init b PIdle CIdle None.

Definition upd (b : Z -> Z) (i v : Z) : Z -> Z := fun j => if j =? i then v else b j.

Inductive producer_step : sys -> sys -> Prop :=
| PWrite s v :
    ppc s = PIdle ->
    producer_step s (Sys (flags s) (upd (buffer s) (rtapi_tb_write_idx (flags s)) v)
                         PIdle (cpc s) (last s))
| PLoad s :
    ppc s = PIdle ->
    producer_step s (Sys (flags s) (buffer s) (PLoaded (flags s)) (cpc s) (last s))
| PCasOk s f :
    ppc s = PLoaded f -> flags s = f ->
    producer_step s (Sys (tb_flip_new f) (buffer s) PIdle (cpc s)
                         (Some (buffer s (rtapi_tb_write_idx f))))
| PCasFail s f :
    ppc s = PLoaded f -> flags s <> f ->
    producer_step s (Sys (flags s) (buffer s) (PLoaded (flags s)) (cpc s) (last s)).

Inductive consumer_step : sys -> sys -> Prop :=
| CLoad s :
    cpc s = CIdle ->
    consumer_step s (Sys (flags s) (buffer s) (ppc s) (CLoaded (flags s)) (last s))
| CNoData s f :
    cpc s = CLoaded f -> tb_snapshot_new f = None ->
    consumer_step s (Sys (flags s) (buffer s) (ppc s) CIdle (last s))
| CCasOk s f f' :
    cpc s = CLoaded f -> tb_snapshot_new f = Some f' -> flags s = f ->
    consumer_step s (Sys f' (buffer s) (ppc s) CIdle (last s))
| CCasFail s f f' :
    cpc s = CLoaded f -> tb_snapshot_new f = Some f' -> flags s <> f ->
    consumer_step s s.

Definition step (s s' : sys) : Prop := producer_step s s' \/ consumer_step s s'.

Inductive reachable (b : Z -> Z) : sys -> Prop :=
| reach_init : reachable b (initial b)
| reach_step s s' : reachable b s -> step s s' -> reachable b s'.

(** ** Well-formed flags: the three indices are a permutation of 0, 1, 2 *)
Definition flags_ok (f : Z) : bool :=
  (0 <=? f) && (f <? 128)
  && (rtapi_tb_write_idx f <? 3) && (mid_idx f <? 3) && (rtapi_tb_snap_idx f <? 3)
  && negb (rtapi_tb_write_idx f =? mid_idx f)
  && negb (mid_idx f =? rtapi_tb_snap_idx f)
  && negb (rtapi_tb_write_idx f =? rtapi_tb_snap_idx f).

(** A property of the flag byte holds when it holds of the 128 values. *)
Definition all_flags (P : Z -> bool) : bool := forallb P (map Z.of_nat (seq 0 128)).

Lemma all_flags_sound P f : all_flags P = true -> flags_ok f = true -> P f = true.
Proof.
  intros H Hf. unfold flags_ok in Hf.
  rewrite !andb_true_iff in Hf. destruct_and! Hf. zb.
  unfold all_flags in H. rewrite forallb_forall in H. apply H.
  apply in_map_iff. exists (Z.to_nat f). split; [lia |].
  apply in_seq. lia.
Qed.

Ltac by_flags P :=
  apply (all_flags_sound P); [vm_compute; reflexivity | assumption].

Definition new_data (f : Z) : bool := negb (Z.land f 0x40 =? 0).

Definition flip_spec (f : Z) : bool :=
  implb (flags_ok f)
    (flags_ok (tb_flip_new f) && new_data (tb_flip_new f)
     && (mid_idx (tb_flip_new f) =? rtapi_tb_write_idx f)
     && (rtapi_tb_write_idx (tb_flip_new f) =? mid_idx f)
     && (rtapi_tb_snap_idx (tb_flip_new f) =? rtapi_tb_snap_idx f)).

Definition snapshot_spec (f : Z) : bool :=
  implb (flags_ok f)
    match tb_snapshot_new f with
    | None => negb (new_data f)
    | Some f' => new_data f && flags_ok f' && negb (new_data f')
                 && (mid_idx f' =? rtapi_tb_snap_idx f)
                 && (rtapi_tb_snap_idx f' =? mid_idx f)
                 && (rtapi_tb_write_idx f' =? rtapi_tb_write_idx f)
    end.

Lemma flip_flags f :
  flags_ok f = true ->
  flags_ok (tb_flip_new f) = true /\ new_data (tb_flip_new f) = true /\
  mid_idx (tb_flip_new f) = rtapi_tb_write_idx f /\
  rtapi_tb_write_idx (tb_flip_new f) = mid_idx f /\
  rtapi_tb_snap_idx (tb_flip_new f) = rtapi_tb_snap_idx f.
Proof.
  intros Hf. assert (flip_spec f = true) as H by by_flags flip_spec.
  unfold flip_spec in H. rewrite Hf in H. simpl in H.
  rewrite !andb_true_iff in H. destruct_and! H. zb. split_and!; done.
Qed.

Lemma snapshot_flags f f' :
  flags_ok f = true -> tb_snapshot_new f = Some f' ->
  flags_ok f' = true /\ new_data f = true /\ new_data f' = false /\
  mid_idx f' = rtapi_tb_snap_idx f /\ rtapi_tb_snap_idx f' = mid_idx f /\
  rtapi_tb_write_idx f' = rtapi_tb_write_idx f.
Proof.
  intros Hf E. assert (snapshot_spec f = true) as H by by_flags snapshot_spec.
  unfold snapshot_spec in H. rewrite Hf, E in H. simpl in H.
  rewrite !andb_true_iff in H. destruct_and! H. zb.
  match goal with h : negb _ = true |- _ => apply negb_true_iff in h end. split_and!; done.
Qed.

Lemma flags_ok_distinct f :
  flags_ok f = true ->
  rtapi_tb_write_idx f <> mid_idx f /\ rtapi_tb_write_idx f <> rtapi_tb_snap_idx f.
Proof.
  intros Hf. unfold flags_ok in Hf.
  rewrite !andb_true_iff in Hf. destruct_and! Hf.
  repeat match goal with h : negb _ = true |- _ => apply negb_true_iff in h end.
  zb. auto.
Qed.

(** The invariant: the flags are well formed, and the last flipped value is
    in the middle buffer while 'new data' is set and in the snapshot buffer
    once it has been taken. *)
Record inv (s : sys) : Prop := Inv {
  inv_flags : flags_ok (flags s) = true;
  inv_last : forall v, last s = Some v ->
    buffer s (if new_data (flags s) then mid_idx (flags s)
              else rtapi_tb_snap_idx (flags s)) = v;
  inv_new : new_data (flags s) = true -> is_Some (last s);
}.

Lemma inv_initial b : inv (initial b).
Proof. split; [reflexivity | discriminate | discriminate]. Qed.

Lemma upd_ne b i j v : j <> i -> upd b i v j = b j.
Proof. unfold upd. intros. destruct (Z.eqb_spec j i); congruence. Qed.

Lemma inv_producer s s' : inv s -> producer_step s s' -> inv s'.
Proof.
  intros [Hf Hl Hn] Hs. inversion Hs; subst; simpl in *.
  - destruct (flags_ok_distinct _ Hf).
    split; simpl; [done | | done].
    intros w Hw. rewrite upd_ne by (case_match; congruence). auto.
  - split; auto.
  - destruct (flip_flags _ Hf) as (? & Hnd & Hm & _).
    split; simpl; [done | | by eexists].
    intros v [= <-]. by rewrite Hnd, Hm.
  - split; auto.
Qed.

Lemma inv_consumer s s' : inv s -> consumer_step s s' -> inv s'.
Proof.
  intros [Hf Hl Hn] Hs. inversion Hs; subst; simpl in *; try (split; by auto).
  match goal with h : tb_snapshot_new _ = Some _ |- _ =>
    destruct (snapshot_flags _ _ Hf h) as (? & Hnd & Hnd' & ? & Hsi & _) end.
  split; simpl; [done | | by rewrite Hnd'].
  intros v Hv. rewrite Hnd', Hsi. specialize (Hl v Hv). by rewrite Hnd in Hl.
Qed.

Lemma reachable_inv b s : reachable b s -> inv s.
Proof.
  induction 1 as [| s s' _ IH [H | H]].
  - apply inv_initial.
  - by eapply inv_producer.
  - by eapply inv_consumer.
Qed.

(** C17: In every interleaving of producer and consumer the buffer the
    producer writes is neither the one the consumer reads nor the one in
    transit, so a write never changes the consumer's snapshot. *)
Theorem tb_never_shared b s v :
  reachable b s ->
  rtapi_tb_write_idx (flags s) <> rtapi_tb_snap_idx (flags s) /\
  rtapi_tb_write_idx (flags s) <> mid_idx (flags s) /\
  upd (buffer s) (rtapi_tb_write_idx (flags s)) v (rtapi_tb_snap_idx (flags s))
    = buffer s (rtapi_tb_snap_idx (flags s)).
Proof.
  intros H. destruct (flags_ok_distinct _ (inv_flags _ (reachable_inv _ _ H))).
  split; [done |]. split; [done |]. apply upd_ne. congruence.
Qed.

Lemma tb_never_shared_witness :
  let s := initial (fun _ => 0) in
  rtapi_tb_write_idx (flags s) <> rtapi_tb_snap_idx (flags s).
Proof.
  exact (proj1 (tb_never_shared (fun _ => 0) (initial (fun _ => 0)) 0
                  (reach_init _))).
Defined.

(** C18: When [rtapi_tb_snapshot] has succeeded, the snapshot buffer holds
    the value of the last completed flip: the consumer sees the most recent
    update, whatever the interleaving before. *)
Theorem tb_snapshot_latest b s s' f f' :
  reachable b s -> consumer_step s s' ->
  cpc s = CLoaded f -> tb_snapshot_new f = Some f' -> flags s = f ->
  cpc s' = CIdle /\ new_data (flags s') = false /\
  last s' = Some (buffer s' (rtapi_tb_snap_idx (flags s'))).
Proof.
  intros Hr Hs Hc Hn Hf. pose proof (reachable_inv _ _ Hr) as [Hok Hl Hnew].
  inversion Hs; subst; simpl in *; simplify_eq; try congruence.
  destruct (snapshot_flags _ _ Hok Hn) as (? & Hnd & Hnd' & ? & Hsi & _).
  split; [done |]. split; [done |].
  destruct (Hnew Hnd) as [v Hv]. specialize (Hl v Hv).
  rewrite Hnd in Hl. rewrite Hsi, Hl. done.
Qed.

Definition flipped : sys :=
  Sys (tb_flip_new 0x6) (upd (fun _ => 0) 0 42) PIdle CIdle (Some 42).

Lemma reachable_flipped : reachable (fun _ => 0) flipped.
Proof.
  eapply reach_step.
  { eapply reach_step.
    { eapply reach_step; [apply reach_init |]. left. apply (PWrite _ 42). reflexivity. }
    left. apply PLoad. reflexivity. }
  left. refine (PCasOk (Sys 0x6 _ (PLoaded 0x6) CIdle None) 0x6 eq_refl eq_refl).
Qed.

Lemma tb_snapshot_latest_witness :
  let s := Sys (flags flipped) (buffer flipped) PIdle (CLoaded (flags flipped)) (Some 42) in
  let s' := Sys 24 (buffer flipped) PIdle CIdle (Some 42) in
  last s' = Some (buffer s' (rtapi_tb_snap_idx (flags s'))).
Proof.
  intros s s'.
  assert (reachable (fun _ => 0) s) as Hr
    by exact (reach_step _ _ _ reachable_flipped (or_intror (CLoad flipped eq_refl))).
  assert (consumer_step s s') as Hs
    by exact (CCasOk s (flags flipped) 24 eq_refl eq_refl eq_refl).
  exact (proj2 (proj2 (tb_snapshot_latest _ s s' (flags flipped) 24 Hr Hs eq_refl eq_refl eq_refl))).
Defined.

(** A consumer whose compare-and-swap has failed never leaves the loop on its
    own: [flagsNow] is not loaded again. *)
Inductive consumer_steps : sys -> sys -> Prop :=
| cs_refl s : consumer_steps s s
| cs_step s s' s'' : consumer_step s s' -> consumer_steps s' s'' -> consumer_steps s s''.

(** [rtapi_tb_snapshot] loads [flagsNow] before its loop and never
    again: once the producer has changed the flags between that load and the
    compare-and-swap, no number of further iterations of the consumer makes
    it return; only another producer step can release it. *)
Theorem tb_snapshot_stale_spins s f f' s' :
  cpc s = CLoaded f -> tb_snapshot_new f = Some f' -> flags s <> f ->
  consumer_steps s s' -> s' = s.
Proof.
  intros Hc Hn Hf Hs. induction Hs as [| s s1 s2 H1 H2 IH]; [done |].
  assert (s1 = s) as -> by (inversion H1; subst; simplify_eq; congruence).
  auto.
Qed.

Definition stale : sys :=
  Sys (tb_flip_new (flags flipped)) (buffer flipped) PIdle
      (CLoaded (flags flipped)) (Some 0).

Lemma tb_snapshot_stale_spins_witness :
  reachable (fun _ => 0) stale /\ forall s', consumer_steps stale s' -> s' = stale.
Proof.
  split.
  - refine (reach_step _ _ _ _
      (or_introl (PCasOk (Sys (flags flipped) (buffer flipped) (PLoaded (flags flipped))
                              (CLoaded (flags flipped)) (Some 42))
                         (flags flipped) eq_refl eq_refl))).
    refine (reach_step _ _ _ _
      (or_introl (PLoad (Sys (flags flipped) (buffer flipped) PIdle
                             (CLoaded (flags flipped)) (Some 42)) eq_refl))).
    refine (reach_step _ _ _ reachable_flipped (or_intror (CLoad flipped eq_refl))).
  - intros s'. apply (tb_snapshot_stale_spins stale (flags flipped) 24 s'
                       eq_refl eq_refl).
    vm_compute. discriminate.
Defined.

(** Flipping twice without a snapshot in between restores the three
    indices with 'new data' set: the producer alternates between two
    buffers and never touches the consumer's. *)
Theorem tb_flip_flip f :
  flags_ok f = true ->
  tb_flip_new (tb_flip_new f) = Z.lor f 0x40 /\
  rtapi_tb_snap_idx (rtapi_tb_flip (rtapi_tb_flip f)) = rtapi_tb_snap_idx f.
Proof.
  intros Hf. split.
  - apply Z.eqb_eq.
    apply (all_flags_sound (fun f => Z.eqb (tb_flip_new (tb_flip_new f)) (Z.lor f 0x40)));
      [vm_compute; reflexivity | assumption].
  - unfold rtapi_tb_flip. destruct (flip_flags _ Hf) as (Hf' & _ & _ & _ & <-).
    by destruct (flip_flags _ Hf') as (_ & _ & _ & _ & <-).
Qed.

Lemma tb_flip_flip_witness : tb_flip_new (tb_flip_new 0x6) = Z.lor 0x6 0x40.
Proof. exact (proj1 (tb_flip_flip 0x6 eq_refl)). Defined.

End TripleBuffer.
