(* ===== verification/Ring.v ===== *)
(** * Ring buffers (runtime/include/runtime/ring.h)

    Module [Ring] models the shared ring header and storage and the
    record-mode operations; module [Stream] (file Stream.v) the byte-stream
    operations on the same data.  The memory of a ring is the byte memory
    that starts at [ringheader_t.buf]: the ring storage of [size] bytes,
    padding up to the cache line, and the trailer, whose first word is the
    [tail] index.  The header fields before [buf] are a record.

    The abstract specification of a record ring is a queue of byte strings;
    [rep r q] says that the ring [r] stores the queue [q]. *)
From S2P Require Import Prelude Mem.

Module Ring.

(** ** Data *)
Definition RINGTYPE_RECORD : Z := 0.
Definition RINGTYPE_MULTIPART : Z := 1.
Definition RINGTYPE_STREAM : Z := 2.
Definition RINGTYPE_MASK : Z := 3.
Definition RB_ALIGN : Z := 8.
Definition RINGBUFFER_MAGIC : Z := 0x74737769.
Definition sizeof_rrecsize : Z := 4.
Definition sizeof_ringheader : Z := 128.
Definition sizeof_ringtrailer : Z := 64.

Record ringheader := RingHeader {
  rh_type : Z;
  rh_use_rmutex : Z;
  rh_use_wmutex : Z;
  rh_refcount : Z;
  rh_reader : Z;
  rh_writer : Z;
  rh_reader_instance : Z;
  rh_writer_instance : Z;
  rh_rmutex : Z;
  rh_wmutex : Z;
  rh_trailer_size : Z;
  rh_size_mask : Z;
  rh_size : Z;
  rh_generation : Z;
  rh_head : Z;
}.

(** [ringbuffer_t]: the per-user view; [rb_mem] is the memory from [buf]
    on, [rb_scratchpad] the offset of the scratchpad in it. *)
Record ringbuffer := RingBuffer {
  rb_magic : Z;
  rb_header : ringheader;
  rb_mem : mem;
  rb_scratchpad : option Z;
}.

(** ** Sizes and layout *)
Definition size_aligned (x : Z) : Z := RTAPI_ALIGN x RB_ALIGN.

Definition next_power_of_two (v : Z) : Z :=
  let v := u32 (v - 1) in
  let v := Z.lor v (Z.shiftr v 1) in
  let v := Z.lor v (Z.shiftr v 2) in
  let v := Z.lor v (Z.shiftr v 4) in
  let v := Z.lor v (Z.shiftr v 8) in
  let v := Z.lor v (Z.shiftr v 16) in
  u32 (v + 1).

Definition ring_storage_alloc (flags sz : Z) : Z :=
  if Z.land flags RINGTYPE_MASK =? RINGTYPE_STREAM
  then RTAPI_CACHE_ALIGN (next_power_of_two sz)
  else RTAPI_CACHE_ALIGN (size_aligned sz).

Definition ring_trailer_alloc (sp_size : Z) : Z :=
  size_aligned (u32 (sizeof_ringtrailer + sp_size)).

Definition ring_memsize (flags sz sp_size : Z) : Z :=
  u32 (sizeof_ringheader + ring_storage_alloc flags sz + ring_trailer_alloc sp_size).

Definition trailer_from_header (h : ringheader) : Z := RTAPI_CACHE_ALIGN (rh_size h).

(** [t->tail]: the word at the start of the trailer. *)
Definition load_tail (h : ringheader) (m : mem) : Z := load32 m (trailer_from_header h).

Definition store_tail (h : ringheader) (m : mem) (v : Z) : mem :=
  store32 m (trailer_from_header h) v.

Definition tail (r : ringbuffer) : Z := load_tail (rb_header r) (rb_mem r).

Definition set_mem (r : ringbuffer) (m : mem) : ringbuffer :=
  RingBuffer (rb_magic r) (rb_header r) m (rb_scratchpad r).

Definition set_tail (r : ringbuffer) (v : Z) : ringbuffer :=
  set_mem r (store_tail (rb_header r) (rb_mem r) v).

Definition set_head (r : ringbuffer) (generation head : Z) : ringbuffer :=
  let h := rb_header r in
  RingBuffer (rb_magic r)
    (RingHeader (rh_type h) (rh_use_rmutex h) (rh_use_wmutex h) (rh_refcount h)
       (rh_reader h) (rh_writer h) (rh_reader_instance h) (rh_writer_instance h)
       (rh_rmutex h) (rh_wmutex h) (rh_trailer_size h) (rh_size_mask h) (rh_size h)
       generation head)
    (rb_mem r) (rb_scratchpad r).

Definition ring_scratchpad_size (h : ringheader) : Z :=
  u32 (rh_trailer_size h - sizeof_ringtrailer).

(** [ringheader_init] writes into memory that it does not clear: the mutex
    hints, and the field of the other mode, keep their old value. *)
Definition ringheader_init (old : ringheader) (m : mem) (flags sz sp_size : Z)
  : ringheader * mem :=
  let h := RingHeader (Z.land flags RINGTYPE_MASK)
    (rh_use_rmutex old) (rh_use_wmutex old) 1 0 0 0 0 0 0
    (ring_trailer_alloc sp_size)
    (if Z.land flags RINGTYPE_STREAM =? 0 then rh_size_mask old
     else u32 (ring_storage_alloc flags sz - 1))
    (ring_storage_alloc flags sz)
    (if Z.land flags RINGTYPE_STREAM =? 0 then 0 else rh_generation old)
    0 in
  (h, store_tail h m 0).

Definition ringbuffer_init (h : ringheader) (m : mem) : ringbuffer :=
  RingBuffer RINGBUFFER_MAGIC h m
    (if ring_scratchpad_size h =? 0 then None
     else Some (trailer_from_header h + sizeof_ringtrailer)).

Definition ring_isstream (r : ringbuffer) : bool := rh_type (rb_header r) =? RINGTYPE_STREAM.
Definition ring_ismultipart (r : ringbuffer) : bool := rh_type (rb_header r) =? RINGTYPE_MULTIPART.
Definition ring_refcount (h : ringheader) : Z := rh_refcount h.
Definition ring_use_wmutex (r : ringbuffer) : Z := rh_use_wmutex (rb_header r).
Definition ring_use_rmutex (r : ringbuffer) : Z := rh_use_rmutex (rb_header r).
Definition ringbuffer_attached (r : ringbuffer) : bool := rb_magic r =? RINGBUFFER_MAGIC.

(** ** Record mode: write side

    [inl code] is an error return, [inr data] the offset of the data. *)
Definition record_usage (record_size : Z) : Z :=
  size_aligned (u32 (record_size + sizeof_rrecsize)).

Definition record_write_begin (r : ringbuffer) (sz : Z) : Z + Z :=
  let h := rb_header r in
  let a := size_aligned (u32 (sz + sizeof_rrecsize)) in
  if rh_size h <? a then inl ERANGE
  else
    let free := u32 (u32 (rh_size h + rh_head h - tail r - 1) mod rh_size h + 1) in
    if free <=? a then inl EAGAIN
    else if rh_size h <? u32 (tail r + a) then
      if rh_head h <=? a then inl EAGAIN
      else inr (0 + sizeof_rrecsize)
    else inr (tail r + sizeof_rrecsize).

Definition record_write_end (r : ringbuffer) (data sz : Z) : Z * ringbuffer :=
  let h := rb_header r in
  let a := size_aligned (u32 (sz + sizeof_rrecsize)) in
  let r1 := if data =? 0 + sizeof_rrecsize
            then set_tail (set_mem r (store32 (rb_mem r) (tail r) (-1))) 0
            else r in
  let r2 := set_mem r1 (store32 (rb_mem r1) (tail r1) sz) in
  (0, set_tail r2 (u32 (tail r2 + a) mod rh_size h)).

(** [data] are the bytes at the caller's pointer; [sz] of them are copied. *)
Definition record_write (r : ringbuffer) (data : list Z) (sz : Z) : Z * ringbuffer :=
  match record_write_begin r sz with
  | inl code => (code, r)
  | inr ptr =>
      record_write_end (set_mem r (write_bytes (rb_mem r) ptr (take (Z.to_nat sz) data)))
                       ptr sz
  end.

Definition record_write_space (h : ringheader) (m : mem) : Z :=
  let t := load_tail h m in
  let avail := if t <? rh_head h then s32 (rh_head h - t)
               else s32 (Z.max (rh_head h) (u32 (rh_size h - t))) in
  u32 (Z.max 0 (avail - 2 * RB_ALIGN)).

Definition record_space (element : Z) : Z := size_aligned (u32 (element + sizeof_rrecsize)).

(** ** Record mode: read side

    A wrap mark (negative size) restarts at offset 0.  Fuel 2 is exactly
    enough: a third call would repeat the second one, see
    [ring_read_at_fuel]; [None] is the endless recursion. *)
Fixpoint ring_read_at (fuel : nat) (r : ringbuffer) (offset : Z) : option (Z + Z * Z) :=
  match fuel with
  | O => None
  | S fuel =>
      if offset =? tail r then Some (inl EAGAIN)
      else
        let sz := s32 (load32 (rb_mem r) offset) in
        if sz <? 0 then ring_read_at fuel r 0
        else Some (inr (offset + sizeof_rrecsize, u32 sz))
  end.

Definition record_read (r : ringbuffer) : option (Z + Z * Z) :=
  ring_read_at 2 r (rh_head (rb_header r)).

Definition record_next (r : ringbuffer) : option Z :=
  match record_read r with
  | Some (inr (data, _)) => Some data
  | _ => None
  end.

Definition record_next_size (r : ringbuffer) : Z :=
  match record_read r with
  | Some (inr (_, sz)) => s32 sz
  | _ => -1
  end.

Fixpoint ring_shift_offset (fuel : nat) (r : ringbuffer) (offset : Z) : option Z :=
  match fuel with
  | O => None
  | S fuel =>
      if rh_head (rb_header r) =? tail r then Some (-1)
      else
        let sz := s32 (load32 (rb_mem r) offset) in
        if sz <? 0 then ring_shift_offset fuel r 0
        else
          let sz := s32 (size_aligned (u32 (sz + sizeof_rrecsize))) in
          Some (s32 (u32 (offset + sz) mod rh_size (rb_header r)))
  end.

Definition record_shift (r : ringbuffer) : option (Z * ringbuffer) :=
  match ring_shift_offset 2 r (rh_head (rb_header r)) with
  | None => None
  | Some off =>
      if off <? 0 then Some (EAGAIN, r)
      else Some (0, set_head r (u64 (rh_generation (rb_header r) + 1)) (u32 off))
  end.

(** The loop of [record_flush_reader] with explicit fuel. *)
Fixpoint record_flush_reader (fuel : nat) (r : ringbuffer) (count : Z)
  : option (Z * ringbuffer) :=
  match fuel with
  | O => None
  | S fuel =>
      match record_shift r with
      | None => None
      | Some (code, r') =>
          if code =? 0 then record_flush_reader fuel r' (count + 1)
          else Some (count, r)
      end
  end.

Definition record_flush (r : ringbuffer) : ringbuffer :=
  set_head r (u64 (rh_generation (rb_header r) + 1)) (tail r).

(** ** Iterators *)
Record ringiter := RingIter { it_generation : Z; it_offset : Z }.

Definition record_iter_init (r : ringbuffer) : Z * ringiter :=
  (0, RingIter (rh_generation (rb_header r)) (rh_head (rb_header r))).

Definition record_iter_invalid (r : ringbuffer) (it : ringiter) : Z :=
  if it_generation it <? rh_generation (rb_header r) then EINVAL else 0.

Definition record_iter_shift (r : ringbuffer) (it : ringiter) : option (Z * ringiter) :=
  if record_iter_invalid r it =? 0 then
    match ring_shift_offset 2 r (it_offset it) with
    | None => None
    | Some off =>
        if off <? 0 then Some (EAGAIN, it)
        else Some (0, RingIter (u64 (it_generation it + 1)) (u32 off))
    end
  else Some (EINVAL, it).

Definition record_iter_read (r : ringbuffer) (it : ringiter) : option (Z + Z * Z) :=
  if record_iter_invalid r it =? 0 then ring_read_at 2 r (it_offset it)
  else Some (inl EINVAL).

(** ** Abstract specification: the ring stores a queue of records

    [lin m o q e]: the records [q] are stored back to back from offset [o]
    and end at [e]. *)
Definition rec_size (d : list Z) : Z := size_aligned (Z.of_nat (length d) + 4).

Fixpoint lin (m : mem) (o : Z) (q : list (list Z)) (e : Z) : Prop :=
  match q with
  | [] => o = e
  | d :: q' =>
      load32 m o = Z.of_nat (length d) /\
      read_bytes m (o + 4) (length d) = d /\
      Z.of_nat (length d) + 12 < 2 ^ 31 /\
      lin m (o + rec_size d) q' e
  end.

(** The two shapes of the used region: [head, tail), or the end of the
    storage from [head] up to the wrap point [e] followed by [0, tail). *)
Definition rep_data (m : mem) (sz hd tl : Z) (q : list (list Z)) : Prop :=
  (hd <= tl /\ lin m hd q tl) \/
  (tl < hd /\ exists q1 q2 e,
     q = q1 ++ q2 /\ lin m hd q1 e /\ lin m 0 q2 tl /\
     (e = sz \/ (e < sz /\ load32 m e = 2 ^ 32 - 1 /\ q2 <> []))).

Record rep (r : ringbuffer) (q : list (list Z)) : Prop := Rep {
  rep_size : 0 < rh_size (rb_header r) < 2 ^ 31;
  rep_size8 : (8 | rh_size (rb_header r));
  rep_head : 0 <= rh_head (rb_header r) < rh_size (rb_header r);
  rep_head8 : (8 | rh_head (rb_header r));
  rep_tail : 0 <= tail r < rh_size (rb_header r);
  rep_tail8 : (8 | tail r);
  rep_mem : mem_ok (rb_mem r);
  rep_q : rep_data (rb_mem r) (rh_size (rb_header r)) (rh_head (rb_header r)) (tail r) q;
}.

Lemma size_aligned_spec x :
  0 <= x -> x + 8 <= 2 ^ 32 -> x <= size_aligned x < x + 8 /\ (8 | size_aligned x).
Proof. intros. apply (RTAPI_ALIGN_spec 3); simpl; lia. Qed.

Lemma rec_size_spec d :
  Z.of_nat (length d) + 12 <= 2 ^ 32 ->
  Z.of_nat (length d) + 4 <= rec_size d < Z.of_nat (length d) + 12 /\ (8 | rec_size d).
Proof.
  intros H. unfold rec_size.
  destruct (size_aligned_spec (Z.of_nat (length d) + 4)); [lia | lia |]. split; [lia | done].
Qed.

Lemma rec_size_ge8 d : Z.of_nat (length d) + 12 <= 2 ^ 32 -> 8 <= rec_size d.
Proof. intros H. destruct (rec_size_spec d H) as [? [k Hk]]. lia. Qed.

Lemma cache_align_ge h : 0 < rh_size h < 2 ^ 31 -> rh_size h <= trailer_from_header h.
Proof.
  intros H. unfold trailer_from_header, RTAPI_CACHE_ALIGN, RTAPI_CACHELINE.
  pose proof (RTAPI_ALIGN_spec 6 (rh_size h) ltac:(lia) ltac:(lia) ltac:(lia)) as Ha.
  change (2 ^ 6) with 64 in Ha. lia.
Qed.

(** Elimination of [8 | x] for [lia]. *)
Ltac div8 := repeat match goal with
  | H : (8 | _) |- _ => let k := fresh "k" in destruct H as [k ?]
  end.

Lemma lin_le m o q e : lin m o q e -> o <= e.
Proof.
  revert o. induction q as [| d q IH]; simpl; intros o; [lia |].
  intros (_ & _ & Hl & H). apply IH in H.
  pose proof (rec_size_ge8 d ltac:(lia)). lia.
Qed.

Lemma lin_nil_inv m o q : lin m o q o -> q = [].
Proof.
  destruct q as [| d q]; simpl; [done |]. intros (_ & _ & Hl & H).
  apply lin_le in H. pose proof (rec_size_ge8 d ltac:(lia)). lia.
Qed.

Lemma lin_agree m m' o q e : agree m m' o e -> lin m o q e -> lin m' o q e.
Proof.
  revert o. induction q as [| d q IH]; simpl; intros o Ha H; [done |].
  destruct H as (H1 & H2 & Hl & H). pose proof (lin_le _ _ _ _ H).
  destruct (rec_size_spec d ltac:(lia)) as [? _].
  split_and!; [| | done |].
  - erewrite load32_agree; [done |]. eapply agree_sub; [done | lia | lia].
  - erewrite read_bytes_agree; [done |]. eapply agree_sub; [done | lia | lia].
  - apply IH; [| done]. eapply agree_sub; [done | lia | lia].
Qed.

Lemma lin_snoc m o q e d :
  lin m o q e -> load32 m e = Z.of_nat (length d) ->
  read_bytes m (e + 4) (length d) = d -> Z.of_nat (length d) + 12 < 2 ^ 31 ->
  lin m o (q ++ [d]) (e + rec_size d).
Proof.
  revert o. induction q as [| d' q IH]; simpl; intros o.
  - intros -> ? ? ?. done.
  - intros (? & ? & ? & ?) ? ? ?. split_and!; auto.
Qed.

Lemma lin_div8 m o q e : (8 | o) -> lin m o q e -> (8 | e).
Proof.
  revert o. induction q as [| d q IH]; simpl; intros o Ho.
  - by intros <-.
  - intros (_ & _ & Hl & H). apply IH in H; [done |].
    apply Z.divide_add_r; [done |]. apply rec_size_spec. lia.
Qed.

Lemma s32_len n : 0 <= n < 2 ^ 31 -> s32 n = n.
Proof. intros. apply wraps_small; lia. Qed.

Lemma s32_mark : s32 (2 ^ 32 - 1) = -1.
Proof. reflexivity. Qed.

Lemma rep_empty r q : rep r q -> (rh_head (rb_header r) = tail r <-> q = []).
Proof.
  intros [Hs _ Hh _ Ht _ _ [[Hle Hl] | (Hlt & q1 & q2 & e & -> & H1 & H2 & He)]].
  - split; [intros E; rewrite E in Hl; by apply lin_nil_inv in Hl | by intros ->].
  - split; [lia |]. intros E. apply app_eq_nil in E as [-> ->]. simpl in *.
    destruct He as [-> | (_ & _ & He)]; [lia | done].
Qed.

(** Where the record at the front of the queue lies, and what is left when
    it is consumed. *)
Lemma rep_front r d q :
  rep r (d :: q) ->
  exists o, 0 <= o /\ o <> tail r /\
    (o = rh_head (rb_header r) \/
     (o = 0 /\ load32 (rb_mem r) (rh_head (rb_header r)) = 2 ^ 32 - 1)) /\
    load32 (rb_mem r) o = Z.of_nat (length d) /\
    read_bytes (rb_mem r) (o + 4) (length d) = d /\
    Z.of_nat (length d) + 12 < 2 ^ 31 /\
    (8 | o) /\ o + rec_size d <= rh_size (rb_header r) /\
    rep_data (rb_mem r) (rh_size (rb_header r))
      ((o + rec_size d) mod rh_size (rb_header r)) (tail r) q.
Proof.
  intros [Hs _ Hh Hh8 Ht _ _ [[Hle Hl] | (Hlt & q1 & q2 & e & E & H1 & H2 & He)]].
  - destruct Hl as (Hd & Hb & Hn & Hl). pose proof (lin_le _ _ _ _ Hl).
    pose proof (rec_size_ge8 d ltac:(lia)).
    exists (rh_head (rb_header r)). split_and!; [lia | lia | by left | done | done | done | done | lia |].
    rewrite Z.mod_small by lia. left. done.
  - destruct q1 as [| d1 q1]; simpl in E; simplify_eq; simpl in H1.
    + destruct He as [-> | (He & Hm & Hne)]; [lia |]. subst e.
      simpl in H2. destruct H2 as (Hd & Hb & Hn & Hl). pose proof (lin_le _ _ _ _ Hl).
      pose proof (rec_size_ge8 d ltac:(lia)).
      exists 0. split_and!; [lia | lia | by right | done | done | done | by exists 0 | lia |].
      rewrite Z.mod_small by lia. left. split; [lia | done].
    + destruct H1 as (Hd & Hb & Hn & Hl). pose proof (lin_le _ _ _ _ Hl).
      pose proof (rec_size_ge8 d1 ltac:(lia)).
      assert (e <= rh_size (rb_header r)) by (destruct He; lia).
      exists (rh_head (rb_header r)). split_and!; [lia | lia | by left | done | done | done | done | lia |].
      destruct (decide (rh_head (rb_header r) + rec_size d1 = rh_size (rb_header r))) as [E |].
      * rewrite E, Z.mod_same by lia. rewrite E in Hl.
        assert (e = rh_size (rb_header r)) as -> by lia. apply lin_nil_inv in Hl as ->.
        left. split; [lia | done].
      * rewrite Z.mod_small by lia. right. split; [lia |]. exists q1, q2, e. done.
Qed.

Lemma record_read_empty r : rep r [] -> record_read r = Some (inl EAGAIN).
Proof.
  intros H. unfold record_read, ring_read_at.
  rewrite (proj2 (rep_empty r [] H) eq_refl), Z.eqb_refl. done.
Qed.

(** The size test of a record at the front. *)
Lemma ring_read_at_front r d q fuel :
  rep r (d :: q) -> exists o,
    ring_read_at (S (S fuel)) r (rh_head (rb_header r))
      = Some (inr (o + 4, Z.of_nat (length d))) /\
    read_bytes (rb_mem r) (o + 4) (length d) = d.
Proof.
  intros H. destruct (rep_front _ _ _ H) as (o & _ & Hot & Ho & Hd & Hb & Hn & _).
  exists o. split; [| done].
  assert (forall f, ring_read_at (S f) r o = Some (inr (o + 4, Z.of_nat (length d)))) as Hread.
  { intros f. simpl. rewrite (proj2 (Z.eqb_neq _ _) Hot), Hd, s32_len by lia.
    rewrite (proj2 (Z.ltb_ge _ _)) by lia. by rewrite wrapu_small by lia. }
  destruct Ho as [<- | [-> Hm]]; [apply Hread |].
  destruct (Z.eqb_spec (rh_head (rb_header r)) (tail r)) as [E |].
  { apply (rep_empty _ _ H) in E. discriminate. }
  change (ring_read_at (S (S fuel)) r (rh_head (rb_header r))) with
    (if rh_head (rb_header r) =? tail r then Some (inl EAGAIN)
     else let sz := s32 (load32 (rb_mem r) (rh_head (rb_header r))) in
          if sz <? 0 then ring_read_at (S fuel) r 0
          else Some (inr (rh_head (rb_header r) + sizeof_rrecsize, u32 sz))).
  rewrite (proj2 (Z.eqb_neq _ _)) by done. cbv zeta. rewrite Hm, s32_mark. apply Hread.
Qed.

Lemma ring_shift_at r d q :
  rep r (d :: q) -> exists o,
    (o = rh_head (rb_header r) \/
     (o = 0 /\ load32 (rb_mem r) (rh_head (rb_header r)) = 2 ^ 32 - 1)) /\
    o + rec_size d <= rh_size (rb_header r) /\
    let hd := (o + rec_size d) mod rh_size (rb_header r) in
    ring_shift_offset 2 r (rh_head (rb_header r)) = Some hd /\
    0 <= hd < rh_size (rb_header r) /\ (8 | hd) /\
    rep_data (rb_mem r) (rh_size (rb_header r)) hd (tail r) q.
Proof.
  intros H. destruct (rep_front _ _ _ H) as (o & Ho0 & Hot & Ho & Hd & Hb & Hn & Ho8 & Hos & Hq).
  destruct H as [Hs Hs8 Hh Hh8 Ht Ht8 Hm Hr].
  assert (rh_head (rb_header r) <> tail r) as Hne.
  { intros E. pose proof (Rep _ _ Hs Hs8 Hh Hh8 Ht Ht8 Hm Hr) as H.
    apply (rep_empty _ _ H) in E. discriminate. }
  pose proof (rec_size_ge8 d ltac:(lia)). destruct (rec_size_spec d ltac:(lia)) as [Hrs Hr8].
  pose proof (Z.mod_pos_bound (o + rec_size d) (rh_size (rb_header r)) ltac:(lia)).
  exists o. split; [exact Ho |]. split; [exact Hos |]. cbv zeta. split_and!; [| lia | lia | | done].
  2: { rewrite Z.mod_eq by lia. apply Z.divide_sub_r; [by apply Z.divide_add_r |].
       by apply Z.divide_mul_l. }
  assert (forall f, ring_shift_offset (S f) r o
            = Some ((o + rec_size d) mod rh_size (rb_header r))) as Hshift.
  { intros f. simpl. rewrite (proj2 (Z.eqb_neq _ _)) by done.
    rewrite Hd, s32_len by lia. rewrite (proj2 (Z.ltb_ge _ _)) by lia.
    unfold sizeof_rrecsize. rewrite (wrapu_small 32 (_ + 4)) by lia.
    change (size_aligned (Z.of_nat (length d) + 4)) with (rec_size d).
    rewrite (s32_len (rec_size d)) by lia. rewrite (wrapu_small 32 (o + _)) by lia.
    by rewrite s32_len by lia. }
  destruct Ho as [<- | [-> Hmk]]; [apply Hshift |].
  change (ring_shift_offset 2 r (rh_head (rb_header r))) with
    (if rh_head (rb_header r) =? tail r then Some (-1)
     else let sz := s32 (load32 (rb_mem r) (rh_head (rb_header r))) in
          if sz <? 0 then ring_shift_offset 1 r 0
          else let sz := s32 (size_aligned (u32 (sz + sizeof_rrecsize))) in
               Some (s32 (u32 (rh_head (rb_header r) + sz) mod rh_size (rb_header r)))).
  rewrite (proj2 (Z.eqb_neq _ _)) by done. cbv zeta. rewrite Hmk, s32_mark. apply Hshift.
Qed.

Lemma ring_shift_front r d q :
  rep r (d :: q) -> exists hd,
    ring_shift_offset 2 r (rh_head (rb_header r)) = Some hd /\
    0 <= hd < rh_size (rb_header r) /\ (8 | hd) /\
    rep_data (rb_mem r) (rh_size (rb_header r)) hd (tail r) q.
Proof. intros H. destruct (ring_shift_at r d q H) as (o & _ & _ & Hs). by eexists. Qed.

Lemma rep_set_head r q gen hd q' :
  rep r q -> 0 <= hd < rh_size (rb_header r) -> (8 | hd) ->
  rep_data (rb_mem r) (rh_size (rb_header r)) hd (tail r) q' ->
  rep (set_head r gen hd) q'.
Proof. intros [] ? ? ?. split; simpl; auto. Qed.

(** ** Effect of the write side *)
Lemma tail_set_tail r v : 0 <= v < 2 ^ 32 -> tail (set_tail r v) = v.
Proof.
  intros Hv. unfold tail, set_tail, load_tail, store_tail, set_mem. simpl.
  rewrite load32_store32. by apply wrapu_small.
Qed.

Lemma tail_set_mem r m' :
  agree (rb_mem r) m' (trailer_from_header (rb_header r))
        (trailer_from_header (rb_header r) + 4) ->
  tail (set_mem r m') = tail r.
Proof. intros Ha. unfold tail, load_tail, set_mem. simpl. by apply load32_agree. Qed.

(** [record_write_end]: the record header goes to offset 0 when [data] is
    the start of the storage, after a wrap mark at the old tail; else to the
    tail.  Nothing else of the storage changes. *)
Lemma write_end_effect r data n a :
  let h := rb_header r in let m := rb_mem r in
  0 < rh_size h < 2 ^ 31 -> (8 | rh_size h) ->
  0 <= tail r < rh_size h -> (8 | tail r) -> mem_ok m ->
  0 <= n -> a = size_aligned (u32 (n + sizeof_rrecsize)) -> 0 < a ->
  let w := if data =? 4 then 0 else tail r in
  w + a <= rh_size h ->
  exists m', record_write_end r data n = (0, set_mem r m') /\
    mem_ok m' /\
    load32 m' (trailer_from_header h) = (w + a) mod rh_size h /\
    load32 m' w = u32 n /\
    (data = 4 -> tail r <> 0 -> load32 m' (tail r) = 2 ^ 32 - 1) /\
    (forall lo hi, 0 <= lo -> hi <= rh_size h -> (hi <= w \/ w + 4 <= lo) ->
       (data = 4 -> hi <= tail r \/ tail r + 4 <= lo) -> agree m m' lo hi) /\
    (forall lo hi, rh_size h <= lo ->
       hi <= trailer_from_header h \/ trailer_from_header h + 4 <= lo -> agree m m' lo hi).
Proof.
  intros h m Hsize Hsize8 Htail Htail8 Hmem Hn Ha Ha0 w Hw.
  pose proof (cache_align_ge h Hsize) as Htrailer. div8.
  assert (0 <= w /\ w + 4 <= rh_size h) as [Hw0 Hw4].
  { unfold w. case_match; zb; lia. }
  pose proof (Z.mod_pos_bound (w + a) (rh_size h) ltac:(lia)) as Hmod.
  set (r1 := if data =? 4 then set_tail (set_mem r (store32 m (tail r) (-1))) 0 else r).
  assert (rb_header r1 = h) as Hr1 by (unfold r1; by case_match).
  assert (tail r1 = w) as Ht1.
  { unfold r1, w. case_match; [| done]. by apply tail_set_tail. }
  set (m2 := store32 (rb_mem r1) w n).
  assert (tail (set_mem r1 m2) = w) as Ht2.
  { rewrite tail_set_mem; [done |]. apply store32_agree. rewrite Hr1. lia. }
  assert (forall lo hi, 0 <= lo -> hi <= rh_size h ->
            (data = 4 -> hi <= tail r \/ tail r + 4 <= lo) -> agree m (rb_mem r1) lo hi) as Hag1.
  { intros lo hi ? ? Ht. unfold r1. case_match; [| apply agree_refl]. zb.
    unfold set_tail, store_tail. simpl. eapply agree_trans; apply store32_agree; [tauto | right].
    change (rb_header r) with h. lia. }
  exists (store_tail h m2 (u32 (w + a) mod rh_size h)).
  assert (0 <= w + a < 2 ^ 32) by lia.
  split_and!.
  - unfold record_write_end. change (0 + sizeof_rrecsize) with 4.
    fold h m r1. rewrite Ht1. fold m2. rewrite Ht2, <- Ha.
    unfold set_tail, set_mem. simpl. rewrite Hr1. unfold r1.
    by case_match; unfold set_tail, set_mem.
  - apply mem_ok_store32, mem_ok_store32. unfold r1. case_match; [| done].
    by apply mem_ok_store32, mem_ok_store32.
  - rewrite wrapu_small by lia. unfold store_tail. rewrite load32_store32. apply wrapu_small. lia.
  - unfold store_tail, m2. erewrite load32_agree; [apply load32_store32 |].
    apply store32_agree. lia.
  - intros -> Ht. unfold store_tail, m2, r1, set_tail, store_tail. simpl.
    change (rb_header r) with h. unfold w. simpl.
    rewrite !load32_store32_ne by lia. by rewrite load32_store32.
  - intros lo hi ? ? ? ?. eapply agree_trans; [by apply Hag1 |].
    eapply agree_trans; apply store32_agree; [tauto | lia].
  - intros lo hi ? ?. unfold store_tail, m2, r1. case_match; simpl.
    + unfold store_tail. simpl. change (rb_header r) with h.
      eapply agree_trans; [| apply store32_agree; lia].
      eapply agree_trans; [| apply store32_agree; lia].
      eapply agree_trans; apply store32_agree; lia.
    + eapply agree_trans; apply store32_agree; lia.
Qed.

(** What [record_write_begin] guarantees on success: room for the record at
    the tail, or at the start of the storage in front of the head. *)
Lemma write_begin_spec r q d :
  rep r q -> Z.of_nat (length d) + 12 < 2 ^ 31 ->
  let n := Z.of_nat (length d) in let a := rec_size d in
  let t := tail r in let hd := rh_head (rb_header r) in let sz := rh_size (rb_header r) in
  match record_write_begin r n with
  | inl code =>
      (code = ERANGE /\ sz < a) \/
      (code = EAGAIN /\ a <= sz /\
       (if t <? hd then hd - t <= a
        else sz - t + hd <= a \/ (sz < t + a /\ hd <= a)))
  | inr ptr =>
      (ptr = t + 4 /\ t + a <= sz /\ (t < hd -> t + a < hd) /\ (hd <= t -> t + a < sz + hd)) \/
      (ptr = 4 /\ sz < t + a /\ hd <= t /\ a < hd)
  end.
Proof.
  intros [Hs Hs8 Hh Hh8 Ht Ht8 Hm Hr] Hn n a t hd sz.
  destruct (rec_size_spec d ltac:(lia)) as [Ha _]. fold a in Ha.
  unfold record_write_begin. unfold sizeof_rrecsize.
  rewrite (wrapu_small 32 (n + 4)) by lia. change (size_aligned (n + 4)) with a.
  fold sz hd t. rewrite (wrapu_small 32 (sz + hd - t - 1)) by lia.
  pose proof (Z.mod_pos_bound (sz + hd - t - 1) sz ltac:(lia)).
  rewrite (wrapu_small 32 (_ + 1)) by lia.
  assert ((sz + hd - t - 1) mod sz + 1 = if t <? hd then hd - t else sz - t + hd) as ->.
  { case_match; zb.
    - replace (sz + hd - t - 1) with (hd - t - 1 + 1 * sz) by lia.
      rewrite Z.mod_add, Z.mod_small by lia. lia.
    - rewrite Z.mod_small by lia. lia. }
  rewrite (wrapu_small 32 (t + a)) by lia.
  repeat case_match; simplify_eq; zb; lia.
Qed.

(** The used region after the record [d] was stored at [w]. *)
Lemma rep_data_write m m' sz hd t q d w :
  let a := rec_size d in
  rep_data m sz hd t q -> 0 <= hd < sz -> 0 <= t < sz -> (8 | sz) -> (8 | t) -> (8 | hd) ->
  Z.of_nat (length d) + 12 < 2 ^ 31 ->
  load32 m' w = Z.of_nat (length d) -> read_bytes m' (w + 4) (length d) = d ->
  (w = t /\ t + a <= sz /\ (t < hd -> t + a < hd) /\ (hd <= t -> t + a < sz + hd) /\
   (forall lo hi, 0 <= lo -> hi <= sz -> hi <= t \/ t + a <= lo -> agree m m' lo hi)) \/
  (w = 0 /\ sz < t + a /\ hd <= t /\ a < hd /\ load32 m' t = 2 ^ 32 - 1 /\
   (forall lo hi, a <= lo -> hi <= t -> agree m m' lo hi)) ->
  rep_data m' sz hd ((w + a) mod sz) (q ++ [d]).
Proof.
  intros a Hr Hh Ht Hs8 Ht8 Hh8 Hn Hl Hb Hw.
  assert (8 <= a) by (apply rec_size_ge8; lia).
  destruct Hw as [(-> & Hta & Hth & Hht & Hag) | (-> & Hta & Hht & Hah & Hmk & Hag)].
  - destruct Hr as [[Hle Hq] | (Hlt & q1 & q2 & e & -> & H1 & H2 & He)].
    + assert (lin m' hd (q ++ [d]) (t + a)) as Hlin.
      { apply lin_snoc; [| done | done | done].
        eapply lin_agree; [| done]. apply Hag; lia. }
      destruct (decide (t + a = sz)) as [E |].
      * rewrite E, Z.mod_same by lia. right. split; [lia |].
        exists (q ++ [d]), [], sz. rewrite app_nil_r. rewrite E in Hlin.
        split_and!; [done | done | done | by left].
      * rewrite Z.mod_small by lia. left. split; [lia | done].
    + rewrite Z.mod_small by lia. right. split; [lia |].
      pose proof (lin_le _ _ _ _ H1). pose proof (lin_div8 _ _ _ _ Hh8 H1).
      exists q1, (q2 ++ [d]), e. rewrite <- app_assoc. split_and!; [done | | |].
      * eapply lin_agree; [| done]. apply Hag; destruct He; lia.
      * apply lin_snoc; [| done | done | done]. eapply lin_agree; [| done]. apply Hag; lia.
      * destruct He as [-> | (He & Hm & Hne)]; [by left | right]. div8.
        split_and!; [done | | by destruct q2].
        rewrite (load32_agree m m'); [done |]. apply Hag; lia.
  - rewrite Z.add_0_l, Z.mod_small by lia.
    destruct Hr as [[Hle Hq] | (Hlt & _)]; [| lia].
    right. split; [lia |]. exists q, [d], t. split_and!; [done | | |].
    + eapply lin_agree; [| done]. apply Hag; lia.
    + split_and!; [done | by rewrite Z.add_0_l in Hb | done | done].
    + right. split_and!; [lia | done | done].
Qed.

(** The heart of the refinement: a successful write appends the record, a
    refused one changes nothing. *)
Lemma record_write_rep r q d :
  rep r q -> Forall byte d -> Z.of_nat (length d) + 12 < 2 ^ 31 ->
  match record_write r d (Z.of_nat (length d)) with
  | (code, r') =>
      (code = 0 /\ rep r' (q ++ [d])) \/ ((code = EAGAIN \/ code = ERANGE) /\ r' = r)
  end.
Proof.
  intros H Hb Hn. pose proof (write_begin_spec r q d H Hn) as Hw. cbv zeta in Hw.
  unfold record_write. destruct (record_write_begin r _) as [code | ptr].
  { right. split; [| done]. destruct Hw as [[-> _] | [-> _]]; auto. }
  rewrite Nat2Z.id, firstn_all.
  pose proof H as [Hs Hs8 Hh Hh8 Ht Ht8 Hm Hr].
  pose proof (cache_align_ge _ Hs) as Htr.
  destruct (rec_size_spec d ltac:(lia)) as [Ha Ha8].
  set (r0 := set_mem r (write_bytes (rb_mem r) ptr d)).
  assert (tail r0 = tail r) as Ht0.
  { apply (tail_set_mem r). apply write_bytes_agree. left.
    destruct Hw as [(-> & ?) | (-> & ?)]; lia. }
  destruct (write_end_effect r0 ptr (Z.of_nat (length d)) (rec_size d)) as (m' & -> & Hm' & Htl & Hlen & Hmk & Hag & _);
    try rewrite Ht0; [done | done | done | done | by apply mem_ok_write_bytes | lia | | lia | |].
  { unfold rec_size, sizeof_rrecsize. by rewrite (wrapu_small 32 (_ + 4)) by lia. }
  { destruct Hw as [(-> & ?) | (-> & ?)]; case_match; zb; simpl; lia. }
  simpl in Htl, Hag. rewrite Ht0 in *.
  left. split; [done |].
  assert (tail (set_mem r0 m') = ((if ptr =? 4 then 0 else tail r) + rec_size d)
            mod rh_size (rb_header r)) as Htail' by exact Htl.
  rewrite wrapu_small in Hlen by lia.
  (* the bytes outside the written range, and the record itself *)
  assert (forall lo hi, 0 <= lo -> hi <= rh_size (rb_header r) ->
            (hi <= (if ptr =? 4 then 0 else tail r)
             \/ (if ptr =? 4 then 0 else tail r) + rec_size d <= lo) ->
            (ptr = 4 -> hi <= tail r \/ tail r + 4 <= lo) -> agree (rb_mem r) m' lo hi) as Hout.
  { intros lo hi ? ? Hlh ?. eapply agree_trans; [| apply Hag; [done | done | lia | done]].
    apply write_bytes_agree.
    destruct Hw as [(-> & ?) | (-> & ?)]; case_match; zb; simpl in *; lia. }
  assert (read_bytes m' ((if ptr =? 4 then 0 else tail r) + 4) (length d) = d) as Hbytes.
  { erewrite read_bytes_agree; [apply read_write_bytes; exact Hb |].
    destruct Hw as [(-> & Hw) | (-> & Hw)].
    - assert ((if tail r + 4 =? 4 then 0 else tail r) = tail r) as Ew by (case_match; zb; lia).
      rewrite Ew in *. apply Hag; [lia | lia | lia |]. intros. right. lia.
    - simpl. apply Hag; [lia | lia | simpl; lia |]. intros. left. lia. }
  assert (0 <= tail (set_mem r0 m') < rh_size (rb_header r)) by
    (rewrite Htail'; apply Z.mod_pos_bound; lia).
  assert ((8 | tail (set_mem r0 m'))) as Htail8'.
  { rewrite Htail', Z.mod_eq by lia. apply Z.divide_sub_r; [| by apply Z.divide_mul_l].
    apply Z.divide_add_r; [| done]. case_match; [by exists 0 | done]. }
  split; [done | done | done | done | done | done | exact Hm' |].
  rewrite Htail'. change (rb_header (set_mem r0 m')) with (rb_header r).
  change (rb_mem (set_mem r0 m')) with m'.
  eapply rep_data_write; [done | done | done | done | done | done | done | done | done |].
  destruct Hw as [(-> & ? & ? & ? ) | (-> & ? & ? & ?)]; [left | right].
  - assert ((if tail r + 4 =? 4 then 0 else tail r) = tail r) as Ew by (case_match; zb; lia).
    rewrite Ew in *. split_and!; [done | lia | lia | lia |].
    intros lo hi ? ? ?. apply Hout; [done | done | done |]. intros. div8. lia.
  - simpl in *. div8. split_and!; [done | lia | lia | lia | apply Hmk; lia |].
    intros lo hi ? ?. apply Hout; lia.
Qed.

(** [ring_read_at] decides with two calls: more fuel changes nothing unless
    the size field at offset 0 is itself a wrap mark. *)
Lemma ring_read_at_fuel r off fuel :
  0 <= s32 (load32 (rb_mem r) 0) ->
  ring_read_at (S (S fuel)) r off = ring_read_at 2 r off.
Proof.
  intros H. simpl. repeat case_match; zb; try done; lia.
Qed.

(** A freshly initialised ring stores the empty queue. *)
Lemma storage_alloc_record flags sz :
  Z.land flags RINGTYPE_MASK <> RINGTYPE_STREAM -> 0 < sz <= 2 ^ 30 ->
  sz <= ring_storage_alloc flags sz < 2 ^ 31 /\ (64 | ring_storage_alloc flags sz).
Proof.
  intros Hf Hs. unfold ring_storage_alloc. rewrite (proj2 (Z.eqb_neq _ _)) by done.
  destruct (size_aligned_spec sz) as [Ha _]; [lia | lia |].
  unfold RTAPI_CACHE_ALIGN, RTAPI_CACHELINE.
  pose proof (RTAPI_ALIGN_spec 6 (size_aligned sz) ltac:(lia) ltac:(lia) ltac:(lia)) as [H Hd].
  change (2 ^ 6) with 64 in *. split; [lia | done].
Qed.

Lemma rep_init old m flags sz sp :
  mem_ok m -> Z.land flags RINGTYPE_MASK <> RINGTYPE_STREAM -> 0 < sz <= 2 ^ 30 ->
  let '(h, m') := ringheader_init old m flags sz sp in
  rep (ringbuffer_init h m') [].
Proof.
  intros Hm Hf Hs. unfold ringheader_init.
  set (h := RingHeader _ _ _ _ _ _ _ _ _ _ _ _ _ _ _).
  destruct (storage_alloc_record flags sz Hf Hs) as [Ha Hd].
  assert (tail (ringbuffer_init h (store_tail h m 0)) = 0) as Ht
    by (unfold tail, load_tail, store_tail; simpl; by rewrite load32_store32).
  assert ((8 | 0)) by (by exists 0).
  split; try rewrite Ht; simpl; try done; try lia.
  - eapply Z.divide_trans; [| exact Hd]. by exists 8.
  - by apply mem_ok_store32.
  - left. simpl. split; lia.
Qed.

(** ** Operations on a ring and on its abstract queue *)
Inductive rop :=
| OpWrite (d : list Z)
| OpRead
| OpNextSize
| OpShift
| OpFlushReader
| OpFlush.

Inductive robs :=
| ObsCode (code : Z)
| ObsRecord (d : list Z).

(** One call of the API; a read copies the bytes the returned pointer shows. *)
Definition run_op (r : ringbuffer) (op : rop) : option (robs * ringbuffer) :=
  match op with
  | OpWrite d =>
      let '(code, r') := record_write r d (Z.of_nat (length d)) in
      Some (ObsCode code, r')
  | OpRead =>
      match record_read r with
      | Some (inl code) => Some (ObsCode code, r)
      | Some (inr (data, sz)) => Some (ObsRecord (read_bytes (rb_mem r) data (Z.to_nat sz)), r)
      | None => None
      end
  | OpNextSize => Some (ObsCode (record_next_size r), r)
  | OpShift =>
      match record_shift r with
      | Some (code, r') => Some (ObsCode code, r')
      | None => None
      end
  | OpFlushReader =>
      match record_flush_reader (S (Z.to_nat (rh_size (rb_header r)))) r 0 with
      | Some (n, r') => Some (ObsCode n, r')
      | None => None
      end
  | OpFlush => Some (ObsCode 0, record_flush r)
  end.

Inductive queue_step (cap : Z) (q : list (list Z)) : rop -> robs -> list (list Z) -> Prop :=
| QWrite d : queue_step cap q (OpWrite d) (ObsCode 0) (q ++ [d])
| QFull d : rec_size d <= cap -> queue_step cap q (OpWrite d) (ObsCode EAGAIN) q
| QTooBig d : cap < rec_size d -> queue_step cap q (OpWrite d) (ObsCode ERANGE) q
| QRead d q' : q = d :: q' -> queue_step cap q OpRead (ObsRecord d) q
| QReadEmpty : q = [] -> queue_step cap q OpRead (ObsCode EAGAIN) q
| QNextSize : queue_step cap q OpNextSize
    (ObsCode (match q with [] => -1 | d :: _ => Z.of_nat (length d) end)) q
| QShift d q' : q = d :: q' -> queue_step cap q OpShift (ObsCode 0) q'
| QShiftEmpty : q = [] -> queue_step cap q OpShift (ObsCode EAGAIN) q
| QFlushReader : queue_step cap q OpFlushReader (ObsCode (Z.of_nat (length q))) []
| QFlush : queue_step cap q OpFlush (ObsCode 0) [].

Definition rop_ok (op : rop) : Prop :=
  match op with
  | OpWrite d => Forall byte d /\ Z.of_nat (length d) + 12 < 2 ^ 31
  | _ => True
  end.

Lemma record_shift_rep r d q :
  rep r (d :: q) -> exists r', record_shift r = Some (0, r') /\ rep r' q /\
    rh_size (rb_header r') = rh_size (rb_header r) /\
    rh_generation (rb_header r') = u64 (rh_generation (rb_header r) + 1) /\
    rb_mem r' = rb_mem r.
Proof.
  intros H. destruct (ring_shift_front _ _ _ H) as (hd & E & Hhd & Hhd8 & Hq).
  pose proof (rep_size _ _ H).
  unfold record_shift. rewrite E, (proj2 (Z.ltb_ge _ _)) by lia.
  rewrite (wrapu_small 32 hd) by lia. eexists. split; [done |].
  split; [by eapply rep_set_head | done].
Qed.

Lemma record_shift_empty r : rep r [] -> record_shift r = Some (EAGAIN, r).
Proof.
  intros H. unfold record_shift. simpl.
  by rewrite (proj2 (Z.eqb_eq _ _) (proj2 (rep_empty _ _ H) eq_refl)).
Qed.

Lemma flush_reader_rep fuel r q c :
  rep r q -> (length q < fuel)%nat -> exists r',
    record_flush_reader fuel r c = Some (c + Z.of_nat (length q), r') /\ rep r' [] /\
    rh_size (rb_header r') = rh_size (rb_header r).
Proof.
  revert r q c. induction fuel as [| fuel IH]; intros r q c H Hf; [lia |]. simpl.
  destruct q as [| d q].
  - rewrite record_shift_empty by done. exists r. simpl. by rewrite Z.add_0_r.
  - destruct (record_shift_rep _ _ _ H) as (r' & -> & Hr' & Hs' & _). simpl in *.
    destruct (IH r' q (c + 1) Hr' ltac:(lia)) as (r'' & -> & ? & ?).
    exists r''. split; [do 2 f_equal; lia |]. split; [done | congruence].
Qed.

(** A ring of [size] bytes holds fewer than [size] records. *)
Lemma lin_count m o q e : lin m o q e -> 8 * Z.of_nat (length q) <= e - o.
Proof.
  revert o. induction q as [| d q IH]; simpl; intros o; [lia |].
  intros (_ & _ & Hl & H). apply IH in H. pose proof (rec_size_ge8 d ltac:(lia)). lia.
Qed.

Lemma rep_count r q : rep r q -> 8 * Z.of_nat (length q) <= rh_size (rb_header r).
Proof.
  intros [Hs _ Hh _ Ht _ _ [[Hle Hl] | (Hlt & q1 & q2 & e & -> & H1 & H2 & He)]].
  - apply lin_count in Hl. lia.
  - apply lin_count in H1, H2. rewrite length_app. destruct He; lia.
Qed.

Lemma record_flush_rep r q : rep r q -> rep (record_flush r) [].
Proof.
  intros H. eapply rep_set_head; [done | apply H | apply H |].
  left. split; [lia | done].
Qed.

Lemma write_size r d n : rh_size (rb_header (snd (record_write r d n))) = rh_size (rb_header r).
Proof.
  unfold record_write. case_match; [done |]. unfold record_write_end.
  case_match; done.
Qed.

(** One operation simulates one step of the queue. *)
Lemma run_op_sim r q op :
  rep r q -> rop_ok op -> exists obs r' q',
    run_op r op = Some (obs, r') /\ queue_step (rh_size (rb_header r)) q op obs q' /\
    rep r' q' /\ rh_size (rb_header r') = rh_size (rb_header r).
Proof.
  intros H Hop. pose proof (rep_size _ _ H). destruct op as [d | | | | |]; cbn [run_op rop_ok] in *.
  - destruct Hop as [Hb Hn]. pose proof (record_write_rep r q d H Hb Hn) as Hw.
    pose proof (write_begin_spec r q d H Hn) as Hbeg. cbv zeta in Hbeg.
    pose proof (write_size r d (Z.of_nat (length d))) as Hsz.
    unfold record_write in *. destruct (record_write_begin r _) as [code | ptr].
    + exists (ObsCode code), r, q. split; [done |]. split_and!; [| done | done].
      destruct Hbeg as [[-> ?] | (-> & ? & _)]; by constructor.
    + destruct (record_write_end _ _ _) as [code r'] eqn:E.
      assert (code = 0) as -> by (unfold record_write_end in E; by simplify_eq).
      destruct Hw as [[_ Hr'] | [[? | ?] _]]; [| done | done].
      exists (ObsCode 0), r', (q ++ [d]). split_and!; [done | constructor | done | done].
  - destruct q as [| d q].
    + rewrite record_read_empty by done. eexists _, r, []. split_and!; [done | by constructor | done..].
    + destruct (ring_read_at_front _ _ _ 0 H) as (o & E & Hb). unfold record_read. rewrite E.
      rewrite Nat2Z.id, Hb. eexists _, r, (d :: q). split_and!; [done | by econstructor | done..].
  - eexists _, r, q. split; [done |]. split_and!; [| done..].
    assert (record_next_size r = match q with [] => -1 | d :: _ => Z.of_nat (length d) end) as ->
      ; [| constructor].
    unfold record_next_size. destruct q as [| d q]; [by rewrite record_read_empty |].
    destruct (ring_read_at_front _ _ _ 0 H) as (o & E & Hb). unfold record_read. rewrite E.
    destruct (rep_front _ _ _ H) as (? & _ & _ & _ & _ & _ & ? & _). apply s32_len. lia.
  - destruct q as [| d q].
    + rewrite record_shift_empty by done. eexists _, r, []. split_and!; [done | by constructor | done..].
    + destruct (record_shift_rep _ _ _ H) as (r' & -> & ? & ? & _).
      eexists _, r', q. split_and!; [done | by econstructor | done..].
  - pose proof (rep_count _ _ H).
    destruct (flush_reader_rep (S (Z.to_nat (rh_size (rb_header r)))) r q 0 H) as (r' & -> & ? & ?);
      [lia |].
    eexists _, r', []. split_and!; [done | constructor | done..].
  - eexists _, (record_flush r), []. split_and!; [done | constructor | by eapply record_flush_rep | done].
Qed.

(** Sequences of operations. *)
Fixpoint run_ops (r : ringbuffer) (ops : list rop) : option (list robs * ringbuffer) :=
  match ops with
  | [] => Some ([], r)
  | op :: ops =>
      match run_op r op with
      | None => None
      | Some (o, r') =>
          match run_ops r' ops with
          | None => None
          | Some (os, r'') => Some (o :: os, r'')
          end
      end
  end.

Inductive queue_steps (cap : Z) : list (list Z) -> list rop -> list robs -> list (list Z) -> Prop :=
| QS_nil q : queue_steps cap q [] [] q
| QS_cons q op o q' ops os q'' :
    queue_step cap q op o q' -> queue_steps cap q' ops os q'' ->
    queue_steps cap q (op :: ops) (o :: os) q''.

Lemma run_ops_sim ops r q :
  rep r q -> Forall rop_ok ops -> exists os r' q',
    run_ops r ops = Some (os, r') /\
    queue_steps (rh_size (rb_header r)) q ops os q' /\ rep r' q'.
Proof.
  revert r q. induction ops as [| op ops IH]; intros r q H Hops.
  - exists [], r, q. split_and!; [done | constructor | done].
  - inversion Hops; subst. destruct (run_op_sim r q op) as (o & r1 & q1 & E1 & Hs1 & H1 & Hz1); [done.. |].
    destruct (IH r1 q1) as (os & r2 & q2 & E2 & Hs2 & Hr2); [done.. |].
    exists (o :: os), r2, q2. simpl. rewrite E1, E2. rewrite Hz1 in Hs2.
    split_and!; [done | by econstructor | done].
Qed.

(** ** Properties *)

Definition header0 : ringheader := RingHeader 0 0 0 0 0 0 0 0 0 0 0 0 0 0 0.

Definition new_ring (flags sz sp : Z) : ringbuffer :=
  let '(h, m) := ringheader_init header0 ∅ flags sz sp in ringbuffer_init h m.

Definition ring64 : ringbuffer := new_ring 0 64 0.

Lemma rep_new_ring flags sz sp :
  Z.land flags RINGTYPE_MASK <> RINGTYPE_STREAM -> 0 < sz <= 2 ^ 30 ->
  rep (new_ring flags sz sp) [].
Proof. intros Hf Hs. exact (rep_init header0 ∅ flags sz sp mem_ok_empty Hf Hs). Qed.

(** C3: A record ring refines a bounded FIFO queue: from initialisation on,
    every sequence of writes, reads, shifts and flushes terminates, returns
    the codes and records that the abstract queue allows - records come out
    in order, unchanged and with their boundaries, EAGAIN on reading means
    empty, ERANGE means larger than the ring - and leaves a ring that stores
    the abstract queue. *)
Theorem record_ring_fifo flags sz sp ops :
  Z.land flags RINGTYPE_MASK <> RINGTYPE_STREAM -> 0 < sz <= 2 ^ 30 ->
  Forall rop_ok ops ->
  let r := new_ring flags sz sp in
  exists os r' q', run_ops r ops = Some (os, r') /\
    queue_steps (rh_size (rb_header r)) [] ops os q' /\ rep r' q'.
Proof. intros Hf Hs Hops r. by apply run_ops_sim; [apply rep_new_ring |]. Qed.

Definition demo_ops : list rop :=
  [OpWrite [1; 2; 3]; OpWrite []; OpWrite [4; 5; 6; 7; 8]; OpWrite (repeat 9 60);
   OpWrite (repeat 9 44); OpRead; OpShift; OpNextSize; OpShift; OpRead; OpShift; OpRead; OpShift].

Lemma record_ring_fifo_witness :
  (exists os r' q', run_ops ring64 demo_ops = Some (os, r') /\
    queue_steps 64 [] demo_ops os q' /\ rep r' q') /\
  fst <$> run_ops ring64 demo_ops =
    Some [ObsCode 0; ObsCode 0; ObsCode 0; ObsCode EAGAIN; ObsCode EAGAIN;
          ObsRecord [1; 2; 3]; ObsCode 0; ObsCode 0; ObsCode 0;
          ObsRecord [4; 5; 6; 7; 8]; ObsCode 0; ObsCode EAGAIN; ObsCode EAGAIN].
Proof.
  split; [| vm_compute; reflexivity].
  refine (record_ring_fifo 0 64 0 demo_ops _ _ _).
  - vm_compute. discriminate.
  - vm_compute. split; [reflexivity | discriminate].
  - repeat constructor; vm_compute; try reflexivity; discriminate.
Defined.

(** [record_write_space] keeps its promise: when it reports [n > 0]
    bytes, writing a record of any length up to [n] succeeds. *)
Theorem record_write_space_sound r q d :
  rep r q -> Forall byte d ->
  0 < record_write_space (rb_header r) (rb_mem r) ->
  Z.of_nat (length d) <= record_write_space (rb_header r) (rb_mem r) ->
  exists r', record_write r d (Z.of_nat (length d)) = (0, r') /\ rep r' (q ++ [d]).
Proof.
  intros H Hb Hpos Hd. pose proof H as [Hs Hs8 Hh Hh8 Ht Ht8 Hm Hr].
  change (load_tail (rb_header r) (rb_mem r)) with (tail r) in *.
  unfold record_write_space in Hpos, Hd.
  change (load_tail (rb_header r) (rb_mem r)) with (tail r) in *. cbv zeta in *.
  set (avail := if tail r <? rh_head (rb_header r) then _ else _) in *.
  assert (avail = if tail r <? rh_head (rb_header r) then rh_head (rb_header r) - tail r
          else Z.max (rh_head (rb_header r)) (rh_size (rb_header r) - tail r)) as Eav.
  { unfold avail. case_match; zb; [by apply s32_len; lia |].
    rewrite (wrapu_small 32 (_ - _)) by lia. apply s32_len. lia. }
  assert (0 < avail <= rh_size (rb_header r)) by (rewrite Eav; case_match; zb; lia).
  unfold RB_ALIGN in *. rewrite wrapu_small in Hpos, Hd by lia.
  pose proof (record_write_rep r q d H Hb ltac:(lia)) as Hw.
  pose proof (write_begin_spec r q d H ltac:(lia)) as Hbeg. cbv zeta in Hbeg.
  destruct (rec_size_spec d ltac:(lia)) as [Hrs Hrs8].
  assert (rec_size d <= avail - 8) as Hle.
  { destruct Hrs8 as [k Hk]. assert ((8 | avail)) as [j Hj]; [| lia].
    rewrite Eav. destruct (tail r <? rh_head (rb_header r)); [by apply Z.divide_sub_r |].
    destruct (Z.max_spec (rh_head (rb_header r)) (rh_size (rb_header r) - tail r)) as [[_ ->] | [_ ->]];
      [by apply Z.divide_sub_r | done]. }
  unfold record_write in *. destruct (record_write_begin r _) as [code | ptr].
  { exfalso. rewrite Eav in Hle. destruct (tail r <? rh_head (rb_header r)) eqn:E; zb; lia. }
  destruct (record_write_end _ _ _) as [code r'] eqn:E.
  assert (code = 0) as -> by (unfold record_write_end in E; by simplify_eq).
  destruct Hw as [[_ ?] | [[? | ?] _]]; [eauto | done | done].
Qed.

Lemma record_write_space_sound_witness :
  record_write_space (rb_header ring64) (rb_mem ring64) = 48 /\
  exists r', record_write ring64 (repeat 7 48) 48 = (0, r') /\ rep r' [repeat 7 48].
Proof.
  split; [vm_compute; reflexivity |].
  refine (record_write_space_sound ring64 [] (repeat 7 48) (rep_new_ring 0 64 0 _ _) _ _ _).
  - vm_compute. discriminate.
  - vm_compute. split; [reflexivity | discriminate].
  - repeat constructor; vm_compute; try reflexivity; discriminate.
  - vm_compute. reflexivity.
  - vm_compute. discriminate.
Defined.

(** The comment on [record_write_space] promises that writing the
    reported size will succeed; when it reports 0 the zero-length record,
    which the ring supports, can be refused. *)
Theorem record_write_space_zero_refused :
  exists r q, rep r q /\ record_write_space (rb_header r) (rb_mem r) = 0 /\
    record_write r [] 0 = (EAGAIN, r).
Proof.
  pose proof (record_write_rep ring64 [] (repeat 7 48)
    (rep_new_ring 0 64 0 ltac:(vm_compute; discriminate) ltac:(lia))
    ltac:(repeat constructor; vm_compute; try reflexivity; discriminate)
    ltac:(vm_compute; reflexivity)) as H.
  set (r1 := snd (record_write ring64 (repeat 7 48) 48)).
  exists r1, [repeat 7 48]. split_and!.
  - change (Z.of_nat (length (repeat 7 48))) with 48 in H. unfold r1.
    destruct (record_write ring64 (repeat 7 48) 48) as [code r'] eqn:E.
    destruct H as [[_ H] | [[-> | ->] _]]; [exact H | |]; vm_compute in E; discriminate.
  - vm_compute. reflexivity.
  - vm_compute. reflexivity.
Qed.

(** No write of a record touches a byte outside the ring storage other
    than the tail index: the padding, the rest of the trailer and the
    scratchpad keep their contents. *)
Theorem record_write_in_bounds r q d lo hi :
  rep r q -> Z.of_nat (length d) + 12 < 2 ^ 31 -> rh_size (rb_header r) <= lo ->
  hi <= trailer_from_header (rb_header r) \/ trailer_from_header (rb_header r) + 4 <= lo ->
  agree (rb_mem r) (rb_mem (snd (record_write r d (Z.of_nat (length d))))) lo hi.
Proof.
  intros H Hn Hlo Hhi. pose proof H as [Hs Hs8 Hh Hh8 Ht Ht8 Hm Hr].
  pose proof (write_begin_spec r q d H Hn) as Hw. cbv zeta in Hw.
  pose proof (cache_align_ge _ Hs) as Htr. destruct (rec_size_spec d ltac:(lia)) as [Ha _].
  unfold record_write. destruct (record_write_begin r _) as [code | ptr]; [done |].
  rewrite Nat2Z.id, firstn_all. set (r0 := set_mem r (write_bytes (rb_mem r) ptr d)).
  assert (agree (rb_mem r) (rb_mem r0) lo hi) as H0.
  { apply write_bytes_agree. left. destruct Hw as [(-> & ?) | (-> & ?)]; lia. }
  assert (tail r0 = tail r) as Ht0.
  { apply (tail_set_mem r). apply write_bytes_agree. left.
    destruct Hw as [(-> & ?) | (-> & ?)]; lia. }
  destruct (write_end_effect r0 ptr (Z.of_nat (length d)) (rec_size d))
    as (m' & -> & _ & _ & _ & _ & _ & Hout);
    try rewrite Ht0; [done | done | done | done | by apply mem_ok_write_bytes | lia | | lia | |].
  { unfold rec_size, sizeof_rrecsize. by rewrite (wrapu_small 32 (_ + 4)) by lia. }
  { destruct Hw as [(-> & ?) | (-> & ?)]; case_match; zb; simpl; lia. }
  eapply agree_trans; [exact H0 |]. by apply Hout.
Qed.

Lemma record_write_in_bounds_witness :
  agree (rb_mem ring64) (rb_mem (snd (record_write ring64 [1; 2; 3] 3))) 68 1000.
Proof.
  refine (record_write_in_bounds ring64 [] [1; 2; 3] 68 1000 (rep_new_ring 0 64 0 _ _) _ _ _).
  - vm_compute. discriminate.
  - vm_compute. split; [reflexivity | discriminate].
  - vm_compute. reflexivity.
  - vm_compute. discriminate.
  - right. vm_compute. discriminate.
Defined.

(** Every consumed record invalidates the iterators positioned before
    it: an iterator made by [record_iter_init] reads the front record, and
    once a record was shifted out it reports EINVAL (until the 64-bit
    generation counter wraps). *)
Theorem record_iter_invalidated r d q r' code :
  rep r (d :: q) -> 0 <= rh_generation (rb_header r) < 2 ^ 64 - 1 ->
  record_shift r = Some (code, r') ->
  let it := snd (record_iter_init r) in
  record_iter_read r it = record_read r /\
  record_iter_read r' it = Some (inl EINVAL) /\
  record_iter_shift r' it = Some (EINVAL, it).
Proof.
  intros H Hg Hs it. destruct (record_shift_rep _ _ _ H) as (r1 & E & _ & _ & Hgen & _).
  rewrite E in Hs. simplify_eq.
  unfold record_iter_read, record_iter_shift, record_iter_invalid. subst it.
  cbn [record_iter_init snd it_generation it_offset].
  rewrite Hgen, (wrapu_small 64) by lia.
  rewrite Z.ltb_irrefl. rewrite (proj2 (Z.ltb_lt _ _)) by lia. done.
Qed.

Definition ring_one : ringbuffer := snd (record_write ring64 [1; 2; 3] 3).

Lemma rep_ring_one : rep ring_one [[1; 2; 3]].
Proof.
  pose proof (record_write_rep ring64 [] [1; 2; 3]
    (rep_new_ring 0 64 0 ltac:(vm_compute; discriminate) ltac:(lia))
    ltac:(repeat constructor; vm_compute; try reflexivity; discriminate)
    ltac:(vm_compute; reflexivity)) as H.
  change (Z.of_nat (length [1; 2; 3])) with 3 in H. unfold ring_one.
  destruct (record_write ring64 [1; 2; 3] 3) as [code r'] eqn:E.
  destruct H as [[_ H] | [[-> | ->] _]]; [exact H | |]; vm_compute in E; discriminate.
Qed.

Lemma record_iter_invalidated_witness :
  exists r', record_shift ring_one = Some (0, r') /\
    record_iter_read r' (snd (record_iter_init ring_one)) = Some (inl EINVAL).
Proof.
  eexists. split; [vm_compute; reflexivity |].
  refine (proj1 (proj2 (record_iter_invalidated ring_one [1; 2; 3] [] _ 0 rep_ring_one _ _))).
  - vm_compute. split; [discriminate | reflexivity].
  - vm_compute. reflexivity.
Defined.

(** The memory that [ring_memsize] asks for holds the header, the
    storage, the cache-aligned trailer and the whole scratchpad. *)
Theorem ring_memsize_sufficient old m flags sz sp :
  Z.land flags RINGTYPE_MASK <> RINGTYPE_STREAM -> 0 < sz <= 2 ^ 29 -> 0 <= sp <= 2 ^ 29 ->
  let h := fst (ringheader_init old m flags sz sp) in
  sizeof_ringheader + trailer_from_header h + sizeof_ringtrailer + sp
    <= ring_memsize flags sz sp /\
  sp <= ring_scratchpad_size h < sp + 8 /\ sz <= rh_size h.
Proof.
  intros Hf Hs Hsp h. simpl in h. subst h.
  destruct (storage_alloc_record flags sz Hf ltac:(lia)) as [Ha [k Hk]].
  assert (ring_storage_alloc flags sz < sz + 128) as Hub.
  { unfold ring_storage_alloc. rewrite (proj2 (Z.eqb_neq _ _)) by done.
    destruct (size_aligned_spec sz) as [? _]; [lia | lia |].
    unfold RTAPI_CACHE_ALIGN, RTAPI_CACHELINE.
    pose proof (RTAPI_ALIGN_spec 6 (size_aligned sz) ltac:(lia) ltac:(lia) ltac:(lia)) as [Hal _].
    change (2 ^ 6) with 64 in Hal. lia. }
  destruct (size_aligned_spec (64 + sp)) as [Hsa _]; [lia | lia |].
  pose proof (RTAPI_ALIGN_eq 6 (ring_storage_alloc flags sz) ltac:(lia) ltac:(lia) ltac:(lia)) as Hal.
  change (2 ^ 6) with 64 in Hal. rewrite Hk, <- Z.mul_opp_l, Z.mod_mul, <- Hk in Hal by lia.
  unfold ring_memsize, ring_scratchpad_size, trailer_from_header, ring_trailer_alloc,
    RTAPI_CACHE_ALIGN, RTAPI_CACHELINE, sizeof_ringtrailer, sizeof_ringheader.
  cbn [rh_size rh_trailer_size]. rewrite Hal. rewrite (wrapu_small 32 (64 + sp)) by lia.
  rewrite !wrapu_small by lia. lia.
Qed.

Lemma ring_memsize_sufficient_witness :
  128 + 64 + 64 + 10 <= ring_memsize 0 50 10.
Proof.
  refine (proj1 (ring_memsize_sufficient header0 ∅ 0 50 10 _ _ _)).
  - vm_compute. discriminate.
  - vm_compute. split; [reflexivity | discriminate].
  - vm_compute. split; discriminate.
Defined.

End Ring.
