(* ===== verification/Stream.v ===== *)
(** * Stream-mode ring operations (runtime/include/runtime/ring.h)

    The [stream_*] functions move bytes through a ring whose storage is a
    power of two; [head] and [tail] are reduced with [size_mask].  The
    abstract content of a stream ring is the list of bytes from [head] to
    [tail], wrapping around. *)
From S2P Require Import Prelude Mem Ring.
Import Ring.

Module Stream.

(** ** Operations *)

(** [ringvec_t]: base offset in the buffer and length. *)
Record ringvec := RingVec { rv_base : option Z; rv_len : Z }.

Definition stream_read_space (h : ringheader) (m : mem) : Z :=
  let w := load_tail h m in
  let r := rh_head h in
  if r <? w then u32 (w - r)
  else Z.land (u32 (w - r + rh_size h)) (rh_size_mask h).

Definition stream_write_space (h : ringheader) (m : mem) : Z :=
  let w := load_tail h m in
  let r := rh_head h in
  if r <? w then u32 (Z.land (u32 (r - w + rh_size h)) (rh_size_mask h) - 1)
  else if w <? r then u32 (r - w - 1)
  else u32 (rh_size h - 1).

Definition stream_get_read_vector (rb : ringbuffer) : ringvec * ringvec :=
  let h := rb_header rb in
  let w := tail rb in
  let r := rh_head h in
  let free_cnt := if r <? w then u32 (w - r)
                  else Z.land (u32 (w - r + rh_size h)) (rh_size_mask h) in
  let cnt2 := u32 (r + free_cnt) in
  if rh_size h <? cnt2
  then (RingVec (Some r) (u32 (rh_size h - r)),
        RingVec (Some 0) (Z.land cnt2 (rh_size_mask h)))
  else (RingVec (Some r) free_cnt, RingVec None 0).

(** The base of an empty second segment is left as the caller had it. *)
Definition stream_get_write_vector (rb : ringbuffer) (old : option Z) : ringvec * ringvec :=
  let h := rb_header rb in
  let w := tail rb in
  let r := rh_head h in
  let free_cnt :=
    if r <? w then u32 (Z.land (u32 (r - w + rh_size h)) (rh_size_mask h) - 1)
    else if w <? r then u32 (u32 (r - w) - 1)
    else u32 (rh_size h - 1) in
  let cnt2 := u32 (w + free_cnt) in
  if rh_size h <? cnt2
  then (RingVec (Some w) (u32 (rh_size h - w)),
        RingVec (Some 0) (Z.land cnt2 (rh_size_mask h)))
  else (RingVec (Some w) free_cnt, RingVec old 0).

(** Returns the bytes copied to [dest], whose number is the return value. *)
Definition stream_read (rb : ringbuffer) (cnt : Z) : list Z * ringbuffer :=
  let h := rb_header rb in
  let m := rb_mem rb in
  let free_cnt := stream_read_space h m in
  if free_cnt =? 0 then ([], rb)
  else
    let to_read := if free_cnt <? cnt then free_cnt else cnt in
    let cnt2 := u32 (rh_head h + to_read) in
    let n1 := if rh_size h <? cnt2 then u32 (rh_size h - rh_head h) else to_read in
    let n2 := if rh_size h <? cnt2 then Z.land cnt2 (rh_size_mask h) else 0 in
    let d1 := read_bytes m (rh_head h) (Z.to_nat n1) in
    if n2 =? 0
    then (d1, set_head rb (rh_generation h) (Z.land (u32 (rh_head h + n1)) (rh_size_mask h)))
    else (d1 ++ read_bytes m (rh_head h + n1) (Z.to_nat n2),
          set_head rb (rh_generation h) (Z.land (u32 (rh_head h + n1 + n2)) (rh_size_mask h))).

Definition stream_peek (rb : ringbuffer) (cnt : Z) : list Z :=
  let h := rb_header rb in
  let m := rb_mem rb in
  let tmp_head := rh_head h in
  let free_cnt := stream_read_space h m in
  if free_cnt =? 0 then []
  else
    let to_read := if free_cnt <? cnt then free_cnt else cnt in
    let cnt2 := u32 (tmp_head + to_read) in
    let n1 := if rh_size h <? cnt2 then u32 (rh_size h - tmp_head) else to_read in
    let n2 := if rh_size h <? cnt2 then Z.land cnt2 (rh_size_mask h) else 0 in
    let d1 := read_bytes m tmp_head (Z.to_nat n1) in
    let tmp_head := Z.land (u32 (tmp_head + n1)) (rh_size_mask h) in
    if n2 =? 0 then d1 else d1 ++ read_bytes m tmp_head (Z.to_nat n2).

Definition stream_read_advance (rb : ringbuffer) (cnt : Z) : ringbuffer :=
  let h := rb_header rb in
  set_head rb (rh_generation h) (Z.land (u32 (rh_head h + cnt)) (rh_size_mask h)).

Definition stream_flush (rb : ringbuffer) : Z * ringbuffer :=
  let left := stream_read_space (rb_header rb) (rb_mem rb) in
  (left, if 0 <? left then stream_read_advance rb left else rb).

(** [src] are the bytes at the caller's pointer, at least [cnt] of them.
    [t->tail] is loaded from memory at each use, also after the copies. *)
Definition stream_write (rb : ringbuffer) (src : list Z) (cnt : Z) : Z * ringbuffer :=
  let h := rb_header rb in
  let free_cnt := stream_write_space h (rb_mem rb) in
  if free_cnt =? 0 then (0, rb)
  else
    let to_write := if free_cnt <? cnt then free_cnt else cnt in
    let cnt2 := u32 (tail rb + to_write) in
    let n1 := if rh_size h <? cnt2 then u32 (rh_size h - tail rb) else to_write in
    let n2 := if rh_size h <? cnt2 then Z.land cnt2 (rh_size_mask h) else 0 in
    let rb1 := set_mem rb (write_bytes (rb_mem rb) (tail rb) (take (Z.to_nat n1) src)) in
    if n2 =? 0
    then (to_write, set_tail rb1 (Z.land (u32 (tail rb1 + n1)) (rh_size_mask h)))
    else
      let rb2 := set_mem rb1 (write_bytes (rb_mem rb1) (tail rb1 + n1)
                                (take (Z.to_nat n2) (drop (Z.to_nat n1) src))) in
      (to_write, set_tail rb2 (Z.land (u32 (tail rb2 + n1 + n2)) (rh_size_mask h))).

Definition stream_write_advance (rb : ringbuffer) (cnt : Z) : ringbuffer :=
  set_tail rb (Z.land (u32 (tail rb + cnt)) (rh_size_mask (rb_header rb))).

(** ** Well-formed stream rings and their content *)
Record stream_ok (rb : ringbuffer) (k : Z) : Prop := StreamOk {
  so_k : 6 <= k <= 30;
  so_size : rh_size (rb_header rb) = 2 ^ k;
  so_mask : rh_size_mask (rb_header rb) = 2 ^ k - 1;
  so_head : 0 <= rh_head (rb_header rb) < 2 ^ k;
  so_tail : 0 <= tail rb < 2 ^ k;
  so_mem : mem_ok (rb_mem rb);
}.

(** Number of bytes stored, and the bytes, in order. *)
Definition used (rb : ringbuffer) : Z :=
  (tail rb - rh_head (rb_header rb)) mod rh_size (rb_header rb).

Definition ring_bytes (m : mem) (sz hd n : Z) : list Z :=
  map (fun i => load8 m ((hd + Z.of_nat i) mod sz)) (seq 0 (Z.to_nat n)).

Definition content (rb : ringbuffer) : list Z :=
  ring_bytes (rb_mem rb) (rh_size (rb_header rb)) (rh_head (rb_header rb)) (used rb).

Lemma land_mask k z : 0 <= k -> Z.land z (2 ^ k - 1) = z mod 2 ^ k.
Proof.
  intros. replace (2 ^ k - 1) with (Z.ones k) by (rewrite Z.ones_equiv; lia).
  by apply Z.land_ones.
Qed.

Lemma pow_bounds k : 6 <= k <= 30 -> 64 <= 2 ^ k <= 2 ^ 30.
Proof.
  intros. split.
  - change 64 with (2 ^ 6). apply Z.pow_le_mono_r; lia.
  - apply Z.pow_le_mono_r; lia.
Qed.

Lemma trailer_pow rb k : stream_ok rb k -> trailer_from_header (rb_header rb) = 2 ^ k.
Proof.
  intros [Hk Hs _ _ _ _]. pose proof (pow_bounds k Hk).
  unfold trailer_from_header, RTAPI_CACHE_ALIGN, RTAPI_CACHELINE. rewrite Hs.
  pose proof (RTAPI_ALIGN_eq 6 (2 ^ k) ltac:(lia) ltac:(lia) ltac:(lia)) as Ha.
  change (2 ^ 6) with 64 in Ha. rewrite Ha.
  replace (2 ^ k) with (2 ^ (k - 6) * 64)
    by (change 64 with (2 ^ 6); rewrite <- Z.pow_add_r by lia; f_equal; lia).
  rewrite <- Z.mul_opp_l, Z.mod_mul by lia. lia.
Qed.

Lemma used_cases rb k : stream_ok rb k ->
  used rb = if rh_head (rb_header rb) <=? tail rb then tail rb - rh_head (rb_header rb)
            else tail rb - rh_head (rb_header rb) + 2 ^ k.
Proof.
  intros [Hk Hs _ Hh Ht _]. unfold used. rewrite Hs. case_match; zb.
  - apply Z.mod_small. lia.
  - rewrite <- (Z.mod_add _ 1) by lia. rewrite Z.mod_small; lia.
Qed.

Lemma read_space_used rb k : stream_ok rb k ->
  stream_read_space (rb_header rb) (rb_mem rb) = used rb.
Proof.
  intros H. rewrite (used_cases _ _ H). destruct H as [Hk Hs Hm Hh Ht _].
  pose proof (pow_bounds k Hk).
  unfold stream_read_space. change (load_tail _ _) with (tail rb). rewrite Hm, Hs.
  repeat case_match; zb; try lia.
  - rewrite wrapu_small by lia. done.
  - assert (tail rb = rh_head (rb_header rb)) as -> by lia.
    rewrite land_mask, wrapu_small by lia. rewrite Z.sub_diag, Z.add_0_l, Z.mod_same; lia.
  - rewrite land_mask, wrapu_small by lia. rewrite Z.mod_small; lia.
Qed.

Lemma write_space_used rb k : stream_ok rb k ->
  stream_write_space (rb_header rb) (rb_mem rb) = 2 ^ k - 1 - used rb.
Proof.
  intros H. rewrite (used_cases _ _ H). destruct H as [Hk Hs Hm Hh Ht _].
  pose proof (pow_bounds k Hk).
  unfold stream_write_space. change (load_tail _ _) with (tail rb). rewrite Hm, Hs.
  repeat case_match; zb; try lia.
  - rewrite land_mask, (wrapu_small 32 (_ - _ + _)) by lia.
    rewrite Z.mod_small, wrapu_small by lia. lia.
  - rewrite wrapu_small by lia. lia.
  - rewrite wrapu_small by lia. lia.
Qed.

Lemma used_range rb k : stream_ok rb k -> 0 <= used rb < 2 ^ k.
Proof. intros [Hk Hs _ _ _ _]. unfold used. rewrite Hs. apply Z.mod_pos_bound. lia. Qed.

(** A contiguous block of the ring is read by [read_bytes]. *)
Lemma ring_bytes_contig m sz hd n :
  0 <= hd -> 0 <= n -> hd + n <= sz -> ring_bytes m sz hd n = read_bytes m hd (Z.to_nat n).
Proof.
  intros Hh Hn Hs. unfold ring_bytes.
  assert (forall j l, hd + Z.of_nat (j + l) <= sz ->
     map (fun i => load8 m ((hd + Z.of_nat i) mod sz)) (seq j l)
     = read_bytes m (hd + Z.of_nat j) l) as Hg.
  { intros j l. revert j. induction l as [| l IH]; intros j Hj; simpl; [done |].
    rewrite Z.mod_small by lia. f_equal. rewrite IH by lia. f_equal. lia. }
  rewrite Hg by lia. f_equal. simpl. lia.
Qed.

Lemma ring_bytes_app m sz hd a b :
  0 <= a -> 0 <= b ->
  ring_bytes m sz hd (a + b) = ring_bytes m sz hd a ++ ring_bytes m sz (hd + a) b.
Proof.
  intros Ha Hb. unfold ring_bytes. rewrite Z2Nat.inj_add, seq_app, map_app by lia.
  f_equal. rewrite Nat.add_0_l, <- (Nat.add_0_r (Z.to_nat a)) at 1.
  generalize (Z.to_nat b) as l. intros l.
  assert (forall j, map (fun i => load8 m ((hd + Z.of_nat i) mod sz)) (seq (Z.to_nat a + j) l)
     = map (fun i => load8 m ((hd + a + Z.of_nat i) mod sz)) (seq j l)) as Hg.
  { induction l as [| l IH]; intros j; simpl; [done |].
    f_equal; [do 2 f_equal; lia |]. rewrite <- IH. do 2 f_equal. lia. }
  apply Hg.
Qed.

Lemma ring_bytes_mod m sz hd n :
  0 < sz -> ring_bytes m sz (hd mod sz) n = ring_bytes m sz hd n.
Proof.
  intros. unfold ring_bytes. apply map_ext. intros i. by rewrite Z.add_mod_idemp_l by lia.
Qed.

Lemma ring_bytes_length m sz hd n : length (ring_bytes m sz hd n) = Z.to_nat n.
Proof. unfold ring_bytes. by rewrite length_map, length_seq. Qed.

Lemma read_bytes_take m o n j : (j <= n)%nat -> take j (read_bytes m o n) = read_bytes m o j.
Proof.
  intros Hj. replace n with (j + (n - j))%nat by lia.
  rewrite read_bytes_app, take_app_le by (rewrite read_bytes_length; lia).
  rewrite take_ge; [done |]. rewrite read_bytes_length. lia.
Qed.

(** A block of the ring is one or two contiguous blocks of the storage. *)
Lemma ring_bytes_split m sz hd n :
  0 <= hd < sz -> 0 <= n <= sz ->
  ring_bytes m sz hd n =
    if sz <? hd + n
    then read_bytes m hd (Z.to_nat (sz - hd)) ++ read_bytes m 0 (Z.to_nat (hd + n - sz))
    else read_bytes m hd (Z.to_nat n).
Proof.
  intros Hh Hn. case_match; zb; [| by apply ring_bytes_contig; lia].
  replace n with ((sz - hd) + (hd + n - sz)) at 1 by lia.
  rewrite ring_bytes_app, ring_bytes_contig by lia. f_equal.
  replace (hd + (sz - hd)) with sz by lia.
  rewrite <- ring_bytes_mod, Z.mod_same by lia. apply ring_bytes_contig; lia.
Qed.

Lemma ring_bytes_take m sz hd n j :
  0 <= j -> take (Z.to_nat j) (ring_bytes m sz hd n) = ring_bytes m sz hd (Z.min j n).
Proof.
  intros Hj. destruct (decide (j <= n)).
  - rewrite Z.min_l by lia. replace n with (j + (n - j)) by lia.
    rewrite ring_bytes_app, take_app_le by (rewrite ?ring_bytes_length; lia).
    apply take_ge. rewrite ring_bytes_length. lia.
  - rewrite Z.min_r by lia. apply take_ge. rewrite ring_bytes_length. lia.
Qed.

Lemma ring_bytes_drop m sz hd n j :
  0 <= j <= n -> drop (Z.to_nat j) (ring_bytes m sz hd n) = ring_bytes m sz (hd + j) (n - j).
Proof.
  intros Hj. replace n with (j + (n - j)) at 1 by lia.
  rewrite ring_bytes_app by lia. apply drop_app_length'. by rewrite ring_bytes_length.
Qed.

Lemma ring_bytes_agree m m' sz hd n :
  0 < sz -> agree m m' 0 sz -> ring_bytes m' sz hd n = ring_bytes m sz hd n.
Proof.
  intros Hs Ha. unfold ring_bytes. apply map_ext. intros i. apply Ha.
  apply Z.mod_pos_bound. lia.
Qed.

(** The transferred amount and where it starts and ends. *)
Lemma to_copy_min free cnt : (if free <? cnt then free else cnt) = Z.min cnt free.
Proof. case_match; zb; lia. Qed.

Lemma stream_ok_mem rb k m' :
  stream_ok rb k -> mem_ok m' -> 0 <= tail (set_mem rb m') < 2 ^ k ->
  stream_ok (set_mem rb m') k.
Proof. intros [] ? ?. by split. Qed.

Lemma stream_ok_set_head rb k gen hd :
  stream_ok rb k -> 0 <= hd < 2 ^ k -> stream_ok (set_head rb gen hd) k.
Proof. intros [] ?. by split. Qed.

Lemma stream_ok_set_tail rb k w :
  stream_ok rb k -> 0 <= w < 2 ^ k -> stream_ok (set_tail rb w) k.
Proof.
  intros H Hw. pose proof (pow_bounds k (so_k _ _ H)).
  unfold set_tail. apply stream_ok_mem; [done | |].
  - apply mem_ok_store32. apply H.
  - change (set_mem rb (store_tail (rb_header rb) (rb_mem rb) w)) with (set_tail rb w).
    rewrite tail_set_tail; lia.
Qed.

(** The free part of the storage after [tail] does not hold content. *)
Lemma used_not_free rb k i c :
  stream_ok rb k -> 0 <= i < used rb -> 0 <= c <= 2 ^ k - 1 - used rb ->
  tail rb + c <= 2 ^ k ->
  let p := (rh_head (rb_header rb) + i) mod 2 ^ k in
  0 <= p < 2 ^ k /\ (p < tail rb \/ tail rb + c <= p).
Proof.
  intros H Hi Hc Hw p. pose proof (pow_bounds k (so_k _ _ H)).
  rewrite (used_cases _ _ H) in *. destruct H as [Hk Hs Hm Hh Ht _].
  assert (p = if rh_head (rb_header rb) + i <? 2 ^ k then rh_head (rb_header rb) + i
              else rh_head (rb_header rb) + i - 2 ^ k) as ->.
  { unfold p. repeat case_match; zb; first [apply Z.mod_small; lia |
      rewrite <- (Z.mod_add _ (-1)), Z.mod_small; lia]. }
  repeat case_match; zb; lia.
Qed.

(** The new head after consuming [n] bytes. *)
Lemma consume rb k n :
  stream_ok rb k -> 0 <= n <= used rb ->
  let rb' := set_head rb (rh_generation (rb_header rb))
               ((rh_head (rb_header rb) + n) mod 2 ^ k) in
  stream_ok rb' k /\ content rb' = drop (Z.to_nat n) (content rb).
Proof.
  intros H Hn rb'. pose proof (used_range _ _ H). destruct H as [Hk Hs Hm Hh Ht Hmem] eqn:E.
  assert (stream_ok rb' k) as Hok.
  { apply stream_ok_set_head; [done |]. apply Z.mod_pos_bound. lia. }
  split; [done |]. unfold content at 2. rewrite ring_bytes_drop by lia.
  assert (used rb' = used rb - n) as Hu.
  { unfold used at 1. simpl. change (tail rb') with (tail rb). rewrite Hs.
    rewrite Zminus_mod_idemp_r. unfold used in *. rewrite Hs in *.
    rewrite Z.sub_add_distr, <- Zminus_mod_idemp_l. apply Z.mod_small. lia. }
  unfold content. rewrite Hu. simpl. rewrite Hs.
  apply ring_bytes_mod. lia.
Qed.

(** ** Claims *)

(** [stream_read_space] and [stream_write_space] of a well-formed stream ring of
    [2^k] bytes are the number of stored bytes and the rest, less the one
    byte that tells a full ring from an empty one. *)
Theorem stream_space_exact rb k :
  stream_ok rb k ->
  stream_read_space (rb_header rb) (rb_mem rb) = Z.of_nat (length (content rb)) /\
  stream_read_space (rb_header rb) (rb_mem rb) + stream_write_space (rb_header rb) (rb_mem rb)
    = rh_size (rb_header rb) - 1.
Proof.
  intros H. pose proof (used_range _ _ H).
  rewrite (read_space_used _ _ H), (write_space_used _ _ H), (so_size _ _ H).
  unfold content. rewrite ring_bytes_length. lia.
Qed.

(** [stream_peek] copies the first [cnt] bytes of the content (all of
    them when fewer are stored), also when they wrap around the end of the
    storage. *)
Theorem stream_peek_content rb k cnt :
  stream_ok rb k -> 0 <= cnt ->
  stream_peek rb cnt = take (Z.to_nat cnt) (content rb).
Proof.
  intros H Hc. pose proof (used_range _ _ H) as Hu. pose proof (pow_bounds k (so_k _ _ H)).
  unfold stream_peek. rewrite (read_space_used _ _ H), to_copy_min.
  unfold content. rewrite ring_bytes_take by done.
  destruct H as [Hk Hs Hm Hh Ht _]. rewrite Hs, Hm.
  destruct (used rb =? 0) eqn:E0; zb.
  { rewrite E0, Z.min_r by lia. done. }
  set (n := Z.min cnt (used rb)). assert (0 <= n < 2 ^ k) by (unfold n; lia).
  rewrite ring_bytes_split by lia.
  rewrite (wrapu_small 32 (_ + n)) by lia.
  destruct (2 ^ k <? rh_head (rb_header rb) + n) eqn:E1; zb.
  - rewrite !land_mask, (wrapu_small 32 (2 ^ k - _)) by lia.
    replace (rh_head (rb_header rb) + (2 ^ k - rh_head (rb_header rb))) with (2 ^ k) by lia.
    rewrite (wrapu_small 32 (2 ^ k)), Z.mod_same by lia.
    assert ((rh_head (rb_header rb) + n) mod 2 ^ k = rh_head (rb_header rb) + n - 2 ^ k) as ->.
    { rewrite <- (Z.mod_add _ (-1)), Z.mod_small; lia. }
    case_match; zb; [lia | done].
  - done.
Qed.

(** [stream_read] returns the first bytes of the content and removes
    them, as long as they do not wrap around the end of the storage. *)
Theorem stream_read_contiguous rb k cnt bs rb' :
  stream_ok rb k -> 0 <= cnt ->
  rh_head (rb_header rb) + Z.min cnt (used rb) <= rh_size (rb_header rb) ->
  stream_read rb cnt = (bs, rb') ->
  bs = take (Z.to_nat cnt) (content rb) /\
  content rb' = drop (Z.to_nat cnt) (content rb) /\ stream_ok rb' k.
Proof.
  intros H Hc Hw. pose proof (used_range _ _ H) as Hu. pose proof (pow_bounds k (so_k _ _ H)).
  unfold stream_read. rewrite (read_space_used _ _ H), to_copy_min.
  pose proof H as [Hk Hs Hm Hh Ht _]. rewrite Hs in Hw. rewrite Hs, Hm.
  unfold content at 1. rewrite ring_bytes_take by done.
  assert (Z.to_nat cnt `min` length (content rb) = Z.to_nat (Z.min cnt (used rb)))%nat as Hl.
  { unfold content. rewrite ring_bytes_length. lia. }
  assert (drop (Z.to_nat cnt) (content rb) = drop (Z.to_nat (Z.min cnt (used rb))) (content rb)) as ->.
  { rewrite <- Hl. destruct (decide (Z.to_nat cnt <= length (content rb))%nat).
    - by rewrite Nat.min_l by lia.
    - rewrite Nat.min_r, !drop_ge by lia. done. }
  destruct (used rb =? 0) eqn:E0; zb.
  { intros [= <- <-]. rewrite E0, Z.min_r by lia. done. }
  set (n := Z.min cnt (used rb)) in *. assert (0 <= n < 2 ^ k) by (unfold n; lia).
  rewrite (wrapu_small 32 (_ + n)) by lia.
  destruct (2 ^ k <? rh_head (rb_header rb) + n) eqn:E1; zb; [lia |].
  simpl. rewrite land_mask, wrapu_small by lia. intros [= <- <-].
  destruct (consume rb k n H) as [? ?]; [lia |].
  split; [| done]. symmetry. rewrite Hs. apply ring_bytes_contig; lia.
Qed.

(** [stream_write] appends the first bytes of the source to the content,
    as many as fit, as long as they do not wrap around the end of the storage. *)
Theorem stream_write_contiguous rb k src n rb' :
  stream_ok rb k -> Forall byte src -> Z.of_nat (length src) < 2 ^ 32 ->
  tail rb + Z.min (Z.of_nat (length src)) (2 ^ k - 1 - used rb) <= rh_size (rb_header rb) ->
  stream_write rb src (Z.of_nat (length src)) = (n, rb') ->
  n = Z.min (Z.of_nat (length src)) (2 ^ k - 1 - used rb) /\
  content rb' = content rb ++ take (Z.to_nat n) src /\ stream_ok rb' k.
Proof.
  intros H Hb Hlen Hw. pose proof (used_range _ _ H) as Hu.
  pose proof (pow_bounds k (so_k _ _ H)).
  unfold stream_write. rewrite (write_space_used _ _ H), to_copy_min.
  pose proof H as [Hk Hs Hm Hh Ht Hmem]. rewrite Hs in Hw. rewrite Hs, Hm.
  destruct (2 ^ k - 1 - used rb =? 0) eqn:E0; zb.
  { intros [= <- <-]. rewrite E0, Z.min_r by lia. by rewrite app_nil_r. }
  set (c := Z.min (Z.of_nat (length src)) (2 ^ k - 1 - used rb)) in *.
  assert (0 <= c <= 2 ^ k - 1 - used rb) by (unfold c; lia).
  rewrite (wrapu_small 32 (_ + c)) by lia.
  destruct (2 ^ k <? tail rb + c) eqn:E1; zb; [lia |]. simpl.
  set (d := take (Z.to_nat c) src).
  assert (length d = Z.to_nat c) as Hld by (unfold d; rewrite length_take; lia).
  assert (Forall byte d) as Hbd by (by apply Forall_take).
  set (m1 := write_bytes (rb_mem rb) (tail rb) d).
  assert (tail (set_mem rb m1) = tail rb) as Ht1.
  { apply tail_set_mem, write_bytes_agree. left.
    change (tail rb + Z.of_nat (length d) <= trailer_from_header (rb_header rb)).
    rewrite (trailer_pow _ _ H). lia. }
  rewrite Ht1, land_mask, wrapu_small by lia. intros [= <- <-].
  assert (0 <= (tail rb + c) mod 2 ^ k < 2 ^ k) as Hr by (apply Z.mod_pos_bound; lia).
  assert (stream_ok (set_mem rb m1) k) as Hok1.
  { apply stream_ok_mem; [done | by apply mem_ok_write_bytes | by rewrite Ht1]. }
  assert (stream_ok (set_tail (set_mem rb m1) ((tail rb + c) mod 2 ^ k)) k) as Hok2
    by (by apply stream_ok_set_tail).
  split; [done |]. split; [| done].
  assert (used (set_tail (set_mem rb m1) ((tail rb + c) mod 2 ^ k)) = used rb + c) as Hu2.
  { unfold used at 1. rewrite tail_set_tail by lia. simpl. rewrite Hs.
    rewrite Zminus_mod_idemp_l. unfold used in *. rewrite Hs in *.
    rewrite Z.add_sub_swap, <- Zplus_mod_idemp_l. apply Z.mod_small. lia. }
  unfold content at 1. rewrite Hu2. simpl. rewrite Hs.
  assert (agree m1 (store_tail (rb_header rb) m1 ((tail rb + c) mod 2 ^ k)) 0 (2 ^ k)) as Ha.
  { unfold store_tail. apply store32_agree. rewrite (trailer_pow _ _ H). lia. }
  change (ring_bytes (store_tail (rb_header rb) m1 ((tail rb + c) mod 2 ^ k)) (2 ^ k)
            (rh_head (rb_header rb)) (used rb + c) = content rb ++ d).
  rewrite (ring_bytes_agree m1 _ (2 ^ k)) by (done || lia).
  rewrite ring_bytes_app by lia. f_equal.
  - unfold content. rewrite Hs. unfold ring_bytes. apply map_ext_in.
    intros i Hi%in_seq.
    destruct (used_not_free rb k (Z.of_nat i) c H) as [? ?]; [lia.. |].
    apply (write_bytes_agree _ _ _ ((rh_head (rb_header rb) + Z.of_nat i) mod 2 ^ k)
             ((rh_head (rb_header rb) + Z.of_nat i) mod 2 ^ k + 1)); [| lia].
    rewrite Hld. lia.
  - rewrite <- ring_bytes_mod by lia.
    assert ((rh_head (rb_header rb) + used rb) mod 2 ^ k = tail rb) as ->.
    { unfold used. rewrite Hs, Zplus_mod_idemp_r. rewrite Zplus_minus. by apply Z.mod_small. }
    rewrite ring_bytes_contig by lia. rewrite <- Hld. by apply read_write_bytes.
Qed.

(** a write that wraps around the end of the storage leaves the start
    of the storage untouched; its second part goes behind the storage, over
    the trailer, and the first four of these bytes become the tail index the
    new tail is computed from. *)
Theorem stream_write_wrap_overruns rb k src b0 b1 b2 b3 rest n rb' :
  stream_ok rb k -> Forall byte src -> Z.of_nat (length src) < 2 ^ 32 ->
  Z.of_nat (length src) <= 2 ^ k - 1 - used rb ->
  drop (Z.to_nat (2 ^ k - tail rb)) src = b0 :: b1 :: b2 :: b3 :: rest ->
  stream_write rb src (Z.of_nat (length src)) = (n, rb') ->
  n = Z.of_nat (length src) /\
  agree (rb_mem rb) (rb_mem rb') 0 (tail rb) /\
  read_bytes (rb_mem rb') (rh_size (rb_header rb) + 4) (length rest) = rest /\
  tail rb' = (b0 + 256 * b1 + 65536 * b2 + 16777216 * b3 + n) mod 2 ^ k.
Proof.
  intros H Hb Hlen Hfit Hd. pose proof (used_range _ _ H) as Hu.
  pose proof (pow_bounds k (so_k _ _ H)) as Hp.
  unfold stream_write. rewrite (write_space_used _ _ H), to_copy_min, Z.min_l by done.
  pose proof H as [Hk Hs Hm Hh Ht Hmem]. rewrite Hs, Hm.
  assert (Hl2 : Z.of_nat (length src) = 2 ^ k - tail rb + 4 + Z.of_nat (length rest)).
  { apply (f_equal length) in Hd. rewrite length_drop in Hd. simpl in Hd. lia. }
  set (c := Z.of_nat (length src)) in *.
  assert (Forall byte (b0 :: b1 :: b2 :: b3 :: rest)) as Hbd
    by (rewrite <- Hd; by apply Forall_drop).
  destruct (2 ^ k - 1 - used rb =? 0) eqn:E0; zb; [lia |].
  rewrite (wrapu_small 32 (_ + c)) by lia.
  destruct (2 ^ k <? tail rb + c) eqn:E1; zb; [| lia].
  rewrite !land_mask, (wrapu_small 32 (2 ^ k - _)) by lia.
  assert ((tail rb + c) mod 2 ^ k = 4 + Z.of_nat (length rest)) as ->.
  { rewrite <- (Z.mod_add _ (-1)), Z.mod_small; lia. }
  destruct (4 + Z.of_nat (length rest) =? 0) eqn:E2; zb; [lia |].
  set (m1 := write_bytes (rb_mem rb) (tail rb) _).
  assert (length (take (Z.to_nat (2 ^ k - tail rb)) src) = Z.to_nat (2 ^ k - tail rb)) as Hl1
    by (rewrite length_take; lia).
  assert (tail (set_mem rb m1) = tail rb) as Ht1.
  { apply tail_set_mem, write_bytes_agree. left. rewrite Hl1.
    change (tail rb + Z.of_nat (Z.to_nat (2 ^ k - tail rb)) <= trailer_from_header (rb_header rb)).
    rewrite (trailer_pow _ _ H). lia. }
  rewrite Ht1, Hd, take_ge by (simpl; lia).
  replace (tail rb + (2 ^ k - tail rb)) with (2 ^ k) by lia.
  set (m2 := write_bytes (rb_mem (set_mem rb m1)) (2 ^ k) (b0 :: b1 :: b2 :: b3 :: rest)).
  assert (tail (set_mem (set_mem rb m1) m2) = b0 + 256 * b1 + 65536 * b2 + 16777216 * b3) as Ht2.
  { unfold tail, load_tail. simpl. rewrite (trailer_pow _ _ H).
    by apply load32_write_bytes. }
  rewrite Ht2. set (w := b0 + 256 * b1 + 65536 * b2 + 16777216 * b3) in *.
  replace (w + (2 ^ k - tail rb) + (4 + Z.of_nat (length rest))) with (w + c) by lia.
  assert ((u32 (w + c)) mod 2 ^ k = (w + c) mod 2 ^ k) as ->.
  { apply Z.mod_mod_divide. exists (2 ^ (32 - k)). rewrite <- Z.pow_add_r by lia. f_equal. lia. }
  intros [= <- <-].
  assert (0 <= (w + c) mod 2 ^ k < 2 ^ k) as Hr by (apply Z.mod_pos_bound; lia).
  split; [done |]. split; [| split].
  - unfold set_tail, store_tail. simpl. rewrite (trailer_pow _ _ H).
    eapply agree_trans; [| apply store32_agree; lia].
    eapply agree_trans; apply write_bytes_agree; lia.
  - unfold set_tail, store_tail. simpl. rewrite (trailer_pow _ _ H).
    rewrite (read_bytes_agree m2) by (apply store32_agree; lia).
    inversion Hbd as [| ? ? _ Hb1]; inversion Hb1 as [| ? ? _ Hb2];
      inversion Hb2 as [| ? ? _ Hb3]; inversion Hb3 as [| ? ? _ Hb4]; subst.
    unfold m2. simpl. replace (2 ^ k + 1 + 1 + 1 + 1) with (2 ^ k + 4) by lia.
    by apply read_write_bytes.
  - apply tail_set_tail. lia.
Qed.

(** a read of wrapped content takes its second part from behind the
    storage instead of from the start of the storage. *)
Theorem stream_read_wrap_overruns rb k cnt bs rb' :
  stream_ok rb k -> 0 <= cnt <= used rb ->
  rh_size (rb_header rb) < rh_head (rb_header rb) + cnt ->
  stream_read rb cnt = (bs, rb') ->
  let n1 := rh_size (rb_header rb) - rh_head (rb_header rb) in
  bs = take (Z.to_nat n1) (content rb)
       ++ read_bytes (rb_mem rb) (rh_size (rb_header rb)) (Z.to_nat (cnt - n1)) /\
  content rb' = drop (Z.to_nat cnt) (content rb) /\ stream_ok rb' k.
Proof.
  intros H Hc Hw. pose proof (used_range _ _ H) as Hu. pose proof (pow_bounds k (so_k _ _ H)).
  unfold stream_read. rewrite (read_space_used _ _ H), to_copy_min, Z.min_l by lia.
  pose proof H as [Hk Hs Hm Hh Ht _]. rewrite Hs in *. rewrite Hm.
  destruct (used rb =? 0) eqn:E0; zb; [lia |].
  rewrite (wrapu_small 32 (_ + cnt)) by lia.
  destruct (2 ^ k <? rh_head (rb_header rb) + cnt) eqn:E1; zb; [| lia].
  rewrite !land_mask, (wrapu_small 32 (2 ^ k - _)) by lia.
  assert ((rh_head (rb_header rb) + cnt) mod 2 ^ k = rh_head (rb_header rb) + cnt - 2 ^ k) as ->.
  { rewrite <- (Z.mod_add _ (-1)), Z.mod_small; lia. }
  case_match; zb; [lia |].
  replace (rh_head (rb_header rb) + (2 ^ k - rh_head (rb_header rb)) + _)
    with (rh_head (rb_header rb) + cnt) by lia.
  rewrite wrapu_small by lia. intros [= <- <-].
  split; [| apply and_comm, consume; [done | lia]]. f_equal.
  - unfold content. rewrite ring_bytes_take, Hs, Z.min_l by lia.
    symmetry. apply ring_bytes_contig; lia.
  - f_equal; lia.
Qed.

(** Addresses of the storage a vector describes. *)
Definition vec_addrs (v : ringvec * ringvec) : list Z :=
  let seg x := match rv_base x with
               | Some b => map (fun i => b + Z.of_nat i) (seq 0 (Z.to_nat (rv_len x)))
               | None => []
               end in
  seg (fst v) ++ seg (snd v).

Definition ring_addrs (sz hd n : Z) : list Z :=
  map (fun i => (hd + Z.of_nat i) mod sz) (seq 0 (Z.to_nat n)).

(** The split of [n] addresses from [hd] into two segments. *)
Lemma ring_addrs_vec sz hd n old :
  0 <= hd < sz -> 0 <= n < sz ->
  vec_addrs (if sz <? hd + n then (RingVec (Some hd) (sz - hd), RingVec (Some 0) (hd + n - sz))
             else (RingVec (Some hd) n, RingVec old 0)) = ring_addrs sz hd n.
Proof.
  intros Hh Hn. unfold ring_addrs.
  assert (forall a l, 0 <= a -> a + Z.of_nat l <= sz ->
     map (fun i => a + Z.of_nat i) (seq 0 l) = map (fun i => (a + Z.of_nat i) mod sz) (seq 0 l))
    as Hs.
  { intros a l Ha Hl. apply map_ext_in. intros i Hi%in_seq. symmetry. apply Z.mod_small. lia. }
  case_match; zb; unfold vec_addrs; simpl.
  - replace (Z.to_nat n) with (Z.to_nat (sz - hd) + Z.to_nat (hd + n - sz))%nat by lia.
    rewrite seq_app, map_app, Hs by lia. f_equal. rewrite Nat.add_0_l.
    rewrite <- (Nat.add_0_r (Z.to_nat (sz - hd))), <- fmap_add_seq, map_map.
    apply map_ext_in. intros i Hi%in_seq.
    rewrite <- (Z.mod_add _ (-1)), Z.mod_small; lia.
  - rewrite Hs by lia. destruct old; simpl; by rewrite app_nil_r.
Qed.

(** the read vector addresses exactly the stored bytes, in order, and
    the write vector exactly the free bytes behind the tail (less one). *)
Theorem stream_vectors_exact rb k old :
  stream_ok rb k ->
  vec_addrs (stream_get_read_vector rb)
    = ring_addrs (rh_size (rb_header rb)) (rh_head (rb_header rb)) (used rb) /\
  vec_addrs (stream_get_write_vector rb old)
    = ring_addrs (rh_size (rb_header rb)) (tail rb) (rh_size (rb_header rb) - 1 - used rb).
Proof.
  intros H. pose proof (used_range _ _ H) as Hu. pose proof (pow_bounds k (so_k _ _ H)).
  pose proof (read_space_used _ _ H) as Hrs. pose proof (write_space_used _ _ H) as Hws.
  pose proof (used_cases _ _ H) as Hcs.
  pose proof H as [Hk Hs Hm Hh Ht _].
  split.
  - unfold stream_get_read_vector. unfold stream_read_space in Hrs.
    change (load_tail _ _) with (tail rb) in Hrs. rewrite Hrs, Hs, Hm.
    rewrite (wrapu_small 32 (_ + used rb)), (wrapu_small 32 (2 ^ k - _)) by lia.
    rewrite <- (ring_addrs_vec _ _ _ None) by lia.
    clear Hcs Hrs. case_match; zb; [| done]. rewrite land_mask by lia. do 3 f_equal.
    rewrite <- (Z.mod_add _ (-1)), Z.mod_small; lia.
  - unfold stream_get_write_vector. rewrite Hs, Hm in *.
    set (free := if rh_head _ <? _ then _ else _).
    assert (free = 2 ^ k - 1 - used rb) as ->.
    { rewrite <- Hws. unfold free, stream_write_space. rewrite Hs, Hm.
      change (load_tail _ _) with (tail rb).
      destruct (rh_head (rb_header rb) <? tail rb); [done |].
      destruct (tail rb <? rh_head (rb_header rb)) eqn:E; zb; [| done].
      by rewrite (wrapu_small 32 (rh_head (rb_header rb) - tail rb)) by lia. }
    rewrite (wrapu_small 32 (_ + _)), (wrapu_small 32 (2 ^ k - _)) by lia.
    rewrite <- (ring_addrs_vec _ _ _ old) by lia.
    clear Hcs. case_match; zb; [| done]. rewrite land_mask by lia. do 3 f_equal.
    rewrite <- (Z.mod_add _ (-1)), Z.mod_small; lia.
Qed.

(** ** Concrete rings *)

Definition stream64 : ringbuffer := new_ring RINGTYPE_STREAM 64 0.

(** Ten bytes written, eight of them read, then 56 written: the content
    wraps after 6 more. *)
Definition ramp (n : nat) : list Z := map Z.of_nat (seq 1 n).
Definition stream_mid : ringbuffer := snd (stream_write stream64 (ramp 40) 40).
Definition stream_late : ringbuffer := snd (stream_read stream_mid 30).

Lemma stream64_ok : stream_ok stream64 6.
Proof. split; try by vm_compute. apply mem_ok_store32, mem_ok_empty. Qed.

Lemma ramp_byte n : (n < 256)%nat -> Forall byte (ramp n).
Proof.
  intros. apply Forall_forall. intros x. unfold ramp. rewrite list_elem_of_In, in_map_iff.
  intros (i & <- & Hi%in_seq). unfold byte. lia.
Qed.

Lemma stream_write_mem_ok rb src n :
  mem_ok (rb_mem rb) -> mem_ok (rb_mem (snd (stream_write rb src n))).
Proof.
  intros H. unfold stream_write.
  repeat case_match; simpl; try done; unfold store_tail; by auto with hal.
Qed.

Lemma stream_mid_ok : stream_ok stream_mid 6.
Proof.
  split; try by vm_compute. apply stream_write_mem_ok, stream64_ok.
Qed.

Lemma stream_late_ok : stream_ok stream_late 6.
Proof.
  split; try by vm_compute. apply (so_mem _ _ stream_mid_ok).
Qed.

Lemma stream_space_exact_witness :
  stream_read_space (rb_header stream_late) (rb_mem stream_late) = 10 /\
  stream_read_space (rb_header stream_late) (rb_mem stream_late)
    + stream_write_space (rb_header stream_late) (rb_mem stream_late) = 63.
Proof. apply (stream_space_exact stream_late 6 stream_late_ok). Defined.

Lemma stream_peek_content_witness : stream_peek stream_late 4 = [31; 32; 33; 34].
Proof. rewrite (stream_peek_content stream_late 6 4 stream_late_ok); [done | lia]. Defined.

Lemma stream_read_contiguous_witness :
  content (snd (stream_read stream_late 9)) = [40] /\
  stream_ok (snd (stream_read stream_late 9)) 6.
Proof.
  apply (stream_read_contiguous stream_late 6 9 (fst (stream_read stream_late 9)));
    [apply stream_late_ok | lia | by vm_compute | by destruct (stream_read stream_late 9)].
Defined.

Lemma stream_write_contiguous_witness :
  content (snd (stream_write stream_late (ramp 3) 3)) = [31; 32; 33; 34; 35; 36; 37; 38; 39; 40; 1; 2; 3].
Proof.
  destruct (stream_write_contiguous stream_late 6 (ramp 3)
    (fst (stream_write stream_late (ramp 3) 3)) (snd (stream_write stream_late (ramp 3) 3)))
    as (Hn & Hc & _);
    [apply stream_late_ok | apply ramp_byte; lia | done | by vm_compute | done | exact Hc].
Defined.

(** 40 bytes at tail 40 of a 64-byte ring: bytes 25..28 become the tail. *)
Lemma stream_write_wrap_overruns_witness :
  tail (snd (stream_write stream_late (ramp 40) 40)) = (25 + 256 * 26 + 65536 * 27 + 16777216 * 28 + 40) mod 2 ^ 6
  /\ tail (snd (stream_write stream_late (ramp 40) 40)) <> (40 + 40) mod 2 ^ 6.
Proof.
  destruct (stream_write_wrap_overruns stream_late 6 (ramp 40) 25 26 27 28
    (map Z.of_nat (seq 29 12)) 40 (snd (stream_write stream_late (ramp 40) 40)))
    as (_ & _ & _ & Ht);
    [apply stream_late_ok | apply ramp_byte; lia | done | by vm_compute | by vm_compute
    | by vm_compute |].
  split; [exact Ht | rewrite Ht; by vm_compute].
Defined.

(** The write vector is filled by its user and advanced: the content wraps. *)
Definition stream_wrapped : ringbuffer :=
  let m := write_bytes (write_bytes (rb_mem stream_late) 40 (ramp 24)) 0 [101; 102] in
  stream_write_advance (set_mem stream_late m) 26.

Lemma stream_wrapped_ok : stream_ok stream_wrapped 6.
Proof.
  split; try by vm_compute.
  apply mem_ok_store32, mem_ok_write_bytes, mem_ok_write_bytes, stream_late_ok.
Qed.

Lemma stream_read_wrap_overruns_witness :
  fst (stream_read stream_wrapped 36) <> content stream_wrapped /\
  stream_peek stream_wrapped 36 = content stream_wrapped.
Proof.
  destruct (stream_read_wrap_overruns stream_wrapped 6 36 (fst (stream_read stream_wrapped 36))
    (snd (stream_read stream_wrapped 36))) as (Hb & _ & _);
    [apply stream_wrapped_ok | by vm_compute | by vm_compute | done |].
  split; [rewrite Hb; by vm_compute | by vm_compute].
Defined.

Lemma stream_vectors_exact_witness :
  vec_addrs (stream_get_read_vector stream_wrapped) = ring_addrs 64 30 36.
Proof. apply (stream_vectors_exact stream_wrapped 6 None stream_wrapped_ok). Defined.

End Stream.
