(* ===== verification/Multiframe.v ===== *)
(** * Multipart messages (runtime/include/runtime/multiframe.h)

    A message is a record of the underlying ring that holds frames back to
    back: a size word, a flags word and the data.  A [msgbuffer] is the
    state of one reader or one writer; the ring it works on is shared and
    threaded through the operations.  Pointers into the record are offsets
    of the ring memory; [None] is NULL. *)
From S2P Require Import Prelude Mem Ring.
Import Ring.

Module Multiframe.

(** ** Data *)
Definition sizeof_frameheader : Z := 8.

Record msgbuffer := MsgBuffer {
  mb_write : option Z;
  mb_write_size : Z;
  mb_write_off : Z;
  mb_read : option Z;
  mb_read_size : Z;
  mb_read_off : Z;
}.

Definition msgbuffer_init : msgbuffer := MsgBuffer None 0 0 None 0 0.

Definition set_write (mb : msgbuffer) (w : option Z) (sz off : Z) : msgbuffer :=
  MsgBuffer w sz off (mb_read mb) (mb_read_size mb) (mb_read_off mb).

Definition set_read (mb : msgbuffer) (p : option Z) (sz off : Z) : msgbuffer :=
  MsgBuffer (mb_write mb) (mb_write_size mb) (mb_write_off mb) p sz off.

(** ** Write side *)

(** Returns an error code, or the address of the frame data.  The frame
    header is addressed before a reallocation may move the record. *)
Definition frame_write_begin (mb : msgbuffer) (r : ringbuffer) (size flags : Z)
  : (Z + Z) * msgbuffer * ringbuffer :=
  let sz := u32 (size + sizeof_frameheader) in
  let start := match mb_write mb with
    | Some w => inr (w, mb)
    | None => match record_write_begin r sz with
              | inl code => inl code
              | inr w => inr (w, set_write mb (Some w) sz 0)
              end
    end in
  match start with
  | inl code => (inl code, mb, r)
  | inr (w, mb) =>
      let frame := w + mb_write_off mb in
      let fill (mb : msgbuffer) (r : ringbuffer) :=
        (inr (frame + sizeof_frameheader), mb,
         set_mem r (store32 (store32 (rb_mem r) frame size) (frame + 4) flags)) in
      if mb_write_size mb <? mb_write_off mb + sizeof_frameheader + size then
        match record_write_begin r (u32 (mb_write_off mb + sz)) with
        | inl code => (inl code, mb, r)
        | inr w2 =>
            fill (set_write mb (Some w2) (u32 (mb_write_off mb + sz)) (mb_write_off mb))
                 (if w =? w2 then r
                  else set_mem r (write_bytes (rb_mem r) w2
                                    (read_bytes (rb_mem r) w (Z.to_nat (mb_write_off mb)))))
        end
      else fill mb r
  end.

(** [(frameheader_t * ) mb->_write + mb->write_off]: the offset is scaled by
    the size of a frame header. *)
Definition frame_write_end (mb : msgbuffer) (r : ringbuffer) (size : Z)
  : Z * msgbuffer * ringbuffer :=
  match mb_write mb with
  | None => (EINVAL, mb, r)
  | Some w =>
      let frame := w + sizeof_frameheader * mb_write_off mb in
      let r' := set_mem r (store32 (rb_mem r) frame size) in
      (0, set_write mb (Some w) (mb_write_size mb)
            (u32 (mb_write_off mb + sizeof_frameheader + s32 (load32 (rb_mem r') frame))), r')
  end.

(** [data] are the bytes at the caller's pointer. *)
Definition frame_write (mb : msgbuffer) (r : ringbuffer) (data : list Z) (size flags : Z)
  : Z * msgbuffer * ringbuffer :=
  match frame_write_begin mb r size flags with
  | (inl code, mb, r) => (code, mb, r)
  | (inr ptr, mb, r) =>
      frame_write_end mb (set_mem r (write_bytes (rb_mem r) ptr (take (Z.to_nat size) data))) size
  end.

(** A NULL [_write] is passed on to [record_write_end]: undefined. *)
Definition msg_write_flush (mb : msgbuffer) (r : ringbuffer) : option (Z * msgbuffer * ringbuffer) :=
  match mb_write mb with
  | None => None
  | Some w => let '(code, r) := record_write_end r w (mb_write_off mb) in
              Some (code, set_write mb None (mb_write_size mb) (mb_write_off mb), r)
  end.

Definition msg_write_abort (mb : msgbuffer) : msgbuffer :=
  set_write mb None (mb_write_size mb) (mb_write_off mb).

(** ** Read side *)

(** Code, or data address, size and flags; the outer option is the endless
    recursion of [record_read]. *)
Definition frame_read (mb : msgbuffer) (r : ringbuffer)
  : option ((Z + Z * Z * Z) * msgbuffer) :=
  let start := match mb_read mb with
    | Some p => Some (inr (p, mb))
    | None => match record_read r with
              | None => None
              | Some (inl code) => Some (inl code)
              | Some (inr (p, sz)) => Some (inr (p, set_read mb (Some p) sz 0))
              end
    end in
  match start with
  | None => None
  | Some (inl code) => Some (inl code, mb)
  | Some (inr (p, mb)) =>
      if mb_read_off mb =? mb_read_size mb then Some (inl EAGAIN, mb)
      else
        let frame := p + mb_read_off mb in
        Some (inr (frame + sizeof_frameheader, u32 (s32 (load32 (rb_mem r) frame)),
                   load32 (rb_mem r) (frame + 4)), mb)
  end.

Definition frame_shift (mb : msgbuffer) (r : ringbuffer) : Z * msgbuffer :=
  match mb_read mb with
  | None => (EINVAL, mb)
  | Some p =>
      if mb_read_off mb =? mb_read_size mb then (EINVAL, mb)
      else
        let frame := p + mb_read_off mb in
        (0, set_read mb (Some p) (mb_read_size mb)
              (u32 (mb_read_off mb + sizeof_frameheader + s32 (load32 (rb_mem r) frame))))
  end.

Definition msg_read_flush (mb : msgbuffer) (r : ringbuffer) : option (Z * msgbuffer * ringbuffer) :=
  match mb_read mb with
  | None => Some (EINVAL, mb, r)
  | Some _ =>
      let mb := set_read mb None (mb_read_size mb) (mb_read_off mb) in
      match record_shift r with
      | None => None
      | Some (code, r) => Some (code, mb, r)
      end
  end.

Definition msg_read_abort (mb : msgbuffer) : Z * msgbuffer :=
  match mb_read mb with
  | None => (EINVAL, mb)
  | Some _ => (0, set_read mb None (mb_read_size mb) (mb_read_off mb))
  end.

(** ** Encoding of a message *)
Definition le32 (v : Z) : list Z :=
  [v mod 256; v / 256 mod 256; v / 65536 mod 256; v / 16777216 mod 256].

(** A frame is its flags and its data. *)
Definition enc_frame (f : Z * list Z) : list Z :=
  le32 (Z.of_nat (length (snd f))) ++ le32 (fst f) ++ snd f.

(** The frames [fs] are stored back to back from [o] to [e]. *)
Fixpoint frames_at (m : mem) (o : Z) (fs : list (Z * list Z)) (e : Z) : Prop :=
  match fs with
  | [] => o = e
  | (fl, d) :: fs' =>
      load32 m o = Z.of_nat (length d) /\ load32 m (o + 4) = fl /\
      read_bytes m (o + 8) (length d) = d /\
      frames_at m (o + 8 + Z.of_nat (length d)) fs' e
  end.

(** A reader that takes all frames of the message at hand. *)
Fixpoint read_frames (fuel : nat) (mb : msgbuffer) (r : ringbuffer)
  : option (list (Z * list Z) * Z * msgbuffer) :=
  match fuel with
  | O => None
  | S fuel =>
      match frame_read mb r with
      | None => None
      | Some (inl code, mb) => Some ([], code, mb)
      | Some (inr (ptr, sz, fl), mb) =>
          let d := read_bytes (rb_mem r) ptr (Z.to_nat sz) in
          let '(_, mb) := frame_shift mb r in
          match read_frames fuel mb r with
          | None => None
          | Some (fs, code, mb) => Some ((fl, d) :: fs, code, mb)
          end
      end
  end.

(** ** Lemmas *)
Lemma store8_byte m o v : store8 m o (v mod 256) = store8 m o v.
Proof. unfold store8. by rewrite Zmod_mod. Qed.

Lemma store32_write_bytes m o v : write_bytes m o (le32 v) = store32 m o v.
Proof.
  unfold le32, store32. simpl. rewrite !store8_byte.
  by replace (o + 1 + 1 + 1) with (o + 3) by lia; replace (o + 1 + 1) with (o + 2) by lia.
Qed.

Lemma write_bytes_lookup_ne m o bs a :
  (a < o \/ o + Z.of_nat (length bs) <= a) -> write_bytes m o bs !! a = m !! a.
Proof.
  revert m o. induction bs as [| b bs IH]; simpl; intros m o H; [done |].
  rewrite IH by lia. unfold store8. apply lookup_insert_ne. lia.
Qed.

Lemma write_bytes_lookup m o bs i b :
  bs !! i = Some b -> write_bytes m o bs !! (o + Z.of_nat i) = Some (b mod 256).
Proof.
  revert m o i. induction bs as [| c bs IH]; intros m o i Hi; simpl; [done |].
  destruct i as [| i]; simpl in Hi; simplify_eq.
  - rewrite Z.add_0_r, write_bytes_lookup_ne by lia. apply lookup_insert_eq.
  - replace (o + Z.of_nat (S i)) with (o + 1 + Z.of_nat i) by lia. auto.
Qed.

(** Writing bytes that are already there changes nothing. *)
Lemma write_bytes_id m o bs :
  (forall i b, bs !! i = Some b -> m !! (o + Z.of_nat i) = Some (b mod 256)) ->
  write_bytes m o bs = m.
Proof.
  revert o. induction bs as [| b bs IH]; intros o H; simpl; [done |].
  assert (store8 m o b = m) as ->.
  { apply insert_id. rewrite <- (Z.add_0_r o). apply (H 0%nat b). done. }
  apply IH. intros i c Hi. rewrite <- (H (S i) c Hi). f_equal. lia.
Qed.

Lemma le32_length v : length (le32 v) = 4%nat.
Proof. done. Qed.

Lemma enc_frame_length f : length (enc_frame f) = (8 + length (snd f))%nat.
Proof. unfold enc_frame. rewrite !length_app, !le32_length. lia. Qed.

Lemma le32_byte v : Forall byte (le32 v).
Proof. unfold le32. repeat constructor; apply Z.mod_pos_bound; lia. Qed.

Lemma enc_frame_byte f : Forall byte (snd f) -> Forall byte (enc_frame f).
Proof.
  intros. unfold enc_frame. repeat (apply Forall_app; split); try apply le32_byte. done.
Qed.

(** The stores of a frame write are the encoding of the frame. *)
Lemma frame_stores m o fl d :
  store32 (write_bytes (store32 (store32 m o (Z.of_nat (length d))) (o + 4) fl) (o + 8) d)
          o (Z.of_nat (length d))
  = write_bytes m o (enc_frame (fl, d)).
Proof.
  unfold enc_frame. simpl snd. simpl fst.
  rewrite !write_bytes_app, !le32_length, !store32_write_bytes.
  change (Z.of_nat 4) with 4. replace (o + 4 + 4) with (o + 8) by lia.
  rewrite <- store32_write_bytes. apply write_bytes_id.
  intros i b Hi. assert (i < 4)%nat by (by apply lookup_lt_Some in Hi).
  rewrite write_bytes_lookup_ne by lia.
  rewrite <- (store32_write_bytes _ (o + 4)), write_bytes_lookup_ne by lia.
  rewrite <- store32_write_bytes. by apply write_bytes_lookup.
Qed.

Lemma record_write_mem_ok r d n :
  mem_ok (rb_mem r) -> mem_ok (rb_mem (snd (record_write r d n))).
Proof.
  intros H. unfold record_write, record_write_end.
  repeat case_match; simpl; try done; unfold store_tail; by auto 10 with hal.
Qed.

(** ** Claims *)

(** a message of one frame, written by [frame_write] and sent by
    [msg_write_flush], is exactly the record that holds the encoded frame. *)
Theorem single_frame_message mb r d fl :
  mb_write mb = None -> 0 <= fl < 2 ^ 32 -> Z.of_nat (length d) + 8 < 2 ^ 31 ->
  0 < rh_size (rb_header r) ->
  let n := Z.of_nat (length d) in
  (exists code, record_write r (enc_frame (fl, d)) (n + 8) = (code, r) /\ code <> 0 /\
     frame_write mb r d n fl = (code, mb, r)) \/
  (exists r1 mb1 mb2 r2, frame_write mb r d n fl = (0, mb1, r1) /\
     msg_write_flush mb1 r1 = Some (0, mb2, r2) /\ mb_write mb2 = None /\
     record_write r (enc_frame (fl, d)) (n + 8) = (0, r2)).
Proof.
  intros Hw Hfl Hd Hsz n.
  assert (take (Z.to_nat (n + 8)) (enc_frame (fl, d)) = enc_frame (fl, d)) as Ht
    by (apply take_ge; rewrite enc_frame_length; simpl; lia).
  assert (take (Z.to_nat n) d = d) as Htd by (apply take_ge; lia).
  assert (forall w, store32 (write_bytes (store32 (store32 (rb_mem r) w n) (w + 4) fl) (w + 8) d) w n
            = write_bytes (rb_mem r) w (enc_frame (fl, d))) as Hst by (intros; apply frame_stores).
  remember (enc_frame (fl, d)) as enc eqn:Henc. clear Henc.
  unfold frame_write, frame_write_begin, record_write. rewrite Hw.
  change (n + sizeof_frameheader) with (n + 8). rewrite (wrapu_small 32 (n + 8)) by lia.
  destruct (record_write_begin r (n + 8)) as [code | w] eqn:Eb.
  - left. exists code. split; [done |]. split; [| done].
    unfold record_write_begin in Eb. intros ->.
    repeat case_match; simplify_eq; discriminate.
  - right. simpl. unfold sizeof_frameheader.
    replace (0 + 8 + n) with (n + 8) by lia.
    rewrite Z.ltb_irrefl, Htd, Ht. unfold frame_write_end. simpl.
    rewrite !Z.add_0_r, load32_store32, (wrapu_small 32 n), (wraps_small 32 n) by lia.
    rewrite Hst.
    eexists _, _, _, _. split; [done |]. unfold msg_write_flush. simpl.
    unfold sizeof_frameheader. rewrite (Z.add_comm _ n), wrapu_small by lia.
    split; [reflexivity |]. done.
Qed.

(** for every frame but the first of a message, [frame_write_end] stores
    the size eight times the write offset away from the record's start; the
    frame's own header keeps the size given to [frame_write_begin]. *)
Theorem frame_write_end_misplaced mb r w size :
  mb_write mb = Some w -> 8 <= mb_write_off mb -> 0 <= size < 2 ^ 31 ->
  exists mb' r', frame_write_end mb r size = (0, mb', r') /\
    load32 (rb_mem r') (w + mb_write_off mb) = load32 (rb_mem r) (w + mb_write_off mb) /\
    load32 (rb_mem r') (w + 8 * mb_write_off mb) = size /\
    mb_write_off mb' = u32 (mb_write_off mb + 8 + size).
Proof.
  intros Hw Hoff Hs. unfold frame_write_end. rewrite Hw. eexists _, _. split; [done |].
  simpl. split; [| split].
  - apply load32_store32_ne. unfold sizeof_frameheader. lia.
  - rewrite load32_store32. apply wrapu_small. lia.
  - rewrite load32_store32, (wrapu_small 32 size), wraps_small by lia. done.
Qed.

(** a reader takes exactly the frames stored in the record, in order,
    and is then told that the message is exhausted. *)
Theorem read_frames_complete mb r p sz fs fuel :
  mem_ok (rb_mem r) -> 0 <= sz < 2 ^ 31 ->
  mb_read mb = None -> record_read r = Some (inr (p, sz)) ->
  frames_at (rb_mem r) p fs (p + sz) -> (length fs < fuel)%nat ->
  exists mb', read_frames fuel mb r = Some (fs, EAGAIN, mb').
Proof.
  intros Hm Hsz Hr Hrec Hfs Hfuel.
  assert (forall fs off fuel mb, 0 <= off ->
    frames_at (rb_mem r) (p + off) fs (p + sz) -> (length fs < fuel)%nat ->
    (mb_read mb = Some p /\ mb_read_size mb = sz /\ mb_read_off mb = off) \/
    (mb_read mb = None /\ off = 0) ->
    exists mb', read_frames fuel mb r = Some (fs, EAGAIN, mb')) as Hgen.
  { clear fs Hfs fuel Hfuel mb Hr. intros fs.
    induction fs as [| [fl d] fs IH]; intros off fuel mb Hoff Hfs Hfuel Hmb;
      (destruct fuel as [| fuel]; [simpl in Hfuel; lia |]).
    - simpl in Hfs. assert (off = sz) as -> by lia. simpl. unfold frame_read.
      destruct Hmb as [(-> & Hz & Hf) | [-> ->]].
      + rewrite Hz, Hf, Z.eqb_refl. eauto.
      + rewrite Hrec. simpl. eauto.
    - destruct Hfs as (Hlen & Hflag & Hdat & Hrest).
      assert (off + 8 + Z.of_nat (length d) <= sz) as Hle.
      { enough (forall fs o e, frames_at (rb_mem r) o fs e -> o <= e) as Hmono
          by (apply Hmono in Hrest; lia).
        clear. intros fs. induction fs as [| [fl d] fs IH]; intros o e; simpl; [lia |].
        intros (_ & _ & _ & H). apply IH in H. lia. }
      set (mb1 := set_read mb (Some p) sz off).
      assert (frame_read mb r = Some (inr (p + off + 8, Z.of_nat (length d), fl), mb1)) as Hfr.
      { unfold frame_read. destruct Hmb as [(Hp & Hz & Hf) | [Hp ->]]; rewrite Hp.
        - rewrite Hz, Hf. destruct (off =? sz) eqn:E; zb; [lia |].
          rewrite Hlen, Hflag, wraps_small, wrapu_small by lia.
          do 3 f_equal. unfold mb1, set_read. destruct mb; simpl in *. by subst.
        - rewrite Hrec. simpl mb_read_off. simpl mb_read_size.
          destruct (0 =? sz) eqn:E; zb; [lia |].
          rewrite Hlen, Hflag, wraps_small, wrapu_small by lia. done. }
      assert (frame_shift mb1 r = (0, set_read mb (Some p) sz (off + 8 + Z.of_nat (length d)))) as Hsh.
      { unfold frame_shift, mb1. simpl. destruct (off =? sz) eqn:E; zb; [lia |].
        rewrite Hlen, wraps_small, wrapu_small by (unfold sizeof_frameheader; lia). done. }
      cbn [read_frames]. rewrite Hfr. cbv iota. rewrite Hsh.
      destruct (IH (off + 8 + Z.of_nat (length d)) fuel
                  (set_read mb (Some p) sz (off + 8 + Z.of_nat (length d)))) as [mb' ->].
      + lia.
      + by replace (p + (off + 8 + Z.of_nat (length d)))
          with (p + off + 8 + Z.of_nat (length d)) by lia.
      + simpl in Hfuel. lia.
      + left. done.
      + rewrite Nat2Z.id, Hdat. eauto. }
  apply (Hgen fs 0); [lia | by rewrite Z.add_0_r | done | right; done].
Qed.

(** ** Concrete messages *)
Definition ring128 : ringbuffer := new_ring 0 128 0.

Lemma single_frame_message_witness :
  exists r1 mb1 mb2 r2, frame_write msgbuffer_init ring128 [7; 8; 9] 3 5 = (0, mb1, r1) /\
    msg_write_flush mb1 r1 = Some (0, mb2, r2) /\
    record_write ring128 (enc_frame (5, [7; 8; 9])) 11 = (0, r2).
Proof.
  destruct (single_frame_message msgbuffer_init ring128 [7; 8; 9] 5)
    as [(code & H & Hc & _) | (r1 & mb1 & mb2 & r2 & H1 & H2 & _ & H3)];
    [done | lia | simpl; lia | by vm_compute | |].
  - exfalso. apply Hc. apply (f_equal fst) in H. vm_compute in H. by rewrite <- H.
  - exists r1, mb1, mb2, r2. split; [exact H1 | split; [exact H2 | exact H3]].
Defined.

(** The second frame is begun with 10 bytes and ended with 3. *)
Definition second_frame : msgbuffer * ringbuffer :=
  let '(_, mb, r) := frame_write msgbuffer_init ring128 [7; 8; 9] 3 5 in
  let '(_, mb, r) := frame_write_begin mb r 10 6 in (mb, r).

Lemma frame_write_end_misplaced_witness :
  exists mb' r', frame_write_end (fst second_frame) (snd second_frame) 3 = (0, mb', r') /\
    load32 (rb_mem r') (4 + 11) = 10.
Proof.
  destruct (frame_write_end_misplaced (fst second_frame) (snd second_frame) 4 3)
    as (mb' & r' & H & H1 & _); [by vm_compute | by vm_compute | lia |].
  exists mb', r'. split; [done |]. transitivity (load32 (rb_mem (snd second_frame)) (4 + 11)).
  - exact H1.
  - by vm_compute.
Defined.

Definition two_frames : ringbuffer :=
  snd (record_write ring128 (enc_frame (5, [7; 8; 9]) ++ enc_frame (6, [1; 2])) 21).

Lemma read_frames_complete_witness :
  exists mb', read_frames 3 msgbuffer_init two_frames
              = Some ([(5, [7; 8; 9]); (6, [1; 2])], EAGAIN, mb').
Proof.
  apply (read_frames_complete msgbuffer_init two_frames 4 21).
  - apply record_write_mem_ok, mem_ok_store32, mem_ok_empty.
  - lia.
  - done.
  - by vm_compute.
  - by vm_compute.
  - simpl. lia.
Defined.

End Multiframe.
