(* ===== verification/RtapiTask.v ===== *)
(** * RTAPI tasks (runtime/src/rtapi_task.c, rtapi_time.c)

    The task table of the real-time side, the priorities and the period of
    the base timer.  A slot of the table is taken when its magic number is
    set.  The hooks of the thread flavor are parameters. *)
From S2P Require Import Prelude.

Definition RTAPI_MAX_TASKS : Z := 64.
Definition PRIO_LOWEST : Z := 0.
Definition PRIO_HIGHEST : Z := 99.
Definition MIN_STACKSIZE : Z := 32768.
Definition ENOSYS : Z := 38.

(** ** Priorities *)
Definition rtapi_prio_highest : Z := PRIO_HIGHEST.
Definition rtapi_prio_lowest : Z := PRIO_LOWEST.

Definition rtapi_prio_next_higher (prio : Z) : Z :=
  let prio := s32 (prio + 1) in
  if rtapi_prio_highest <? prio then rtapi_prio_highest
  else if prio <? rtapi_prio_lowest then rtapi_prio_lowest
  else prio.

Definition rtapi_prio_next_lower (prio : Z) : Z :=
  let prio := s32 (prio - 1) in
  if rtapi_prio_highest <? prio then rtapi_prio_highest
  else if prio <? rtapi_prio_lowest then rtapi_prio_lowest
  else prio.

(** ** State *)
Inductive task_state : Type := EMPTY | PAUSED | PERIODIC | FREERUN | ENDED | USERLAND | DELETE_LOCKED.

Record task_data := TaskData {
  tk_uses_fp : Z;
  tk_stacksize : Z;
  tk_period : Z;
  tk_ratio : Z;
  tk_pll_correction : Z;
  tk_pll_correction_limit : Z;
  tk_state : task_state;
  tk_prio : Z;
  tk_owner : Z;
  tk_arg : Z;
  tk_cpu : Z;
  tk_flags : Z;
}.

Record rtapi_data := RtapiData {
  rd_period : Z;                     (* [period] of rtapi_time.c *)
  rd_tasks : gmap Z task_data;       (* the slots with [TASK_MAGIC] *)
  rd_task_count : Z;
  rd_rt_cpu : Z;
}.

Definition set_rd_tasks (m : gmap Z task_data) (d : rtapi_data) : rtapi_data :=
  RtapiData (rd_period d) m (rd_task_count d) (rd_rt_cpu d).
Definition set_rd_period (p : Z) (d : rtapi_data) : rtapi_data :=
  RtapiData p (rd_tasks d) (rd_task_count d) (rd_rt_cpu d).
Definition incr_task_count (d : rtapi_data) : rtapi_data :=
  RtapiData (rd_period d) (rd_tasks d) (s32 (rd_task_count d + 1)) (rd_rt_cpu d).

Record rtapi_task_args_t := TaskArgs {
  ta_arg : Z;
  ta_prio : Z;
  ta_owner : Z;
  ta_stacksize : Z;
  ta_uses_fp : Z;
  ta_cpu_id : Z;
  ta_flags : Z;
}.

(** Results of the hooks, and the resolution of the monotonic clock. *)
Class Flavor := {
  flavor_task_start_hook : Z -> Z;
  flavor_task_pause_hook : Z -> Z;
  flavor_no_clock_monotonic : bool;
  clock_res : Z;
}.

Section RtapiTask.
Context {FL : Flavor}.
Abbreviation RM := (M rtapi_data).

(** ** The base timer *)
Definition rtapi_clock_set_period (nsecs : Z) : RM Z :=
  d ← get;
  if nsecs =? 0 then mret (rd_period d)
  else if negb (rd_period d =? 0) then raise (- EINVAL)
  else if flavor_no_clock_monotonic then
    modify (set_rd_period (s32 nsecs)) ≫= fun _ => mret (s32 nsecs)
  else if clock_res =? 0 then crash
  else
    let p := s32 (nsecs ÷ clock_res * clock_res) in
    let p := if p <? 1 then s32 clock_res else p in
    modify (set_rd_period p) ≫= fun _ => mret p.

(** ** The task table *)

(** [while (task_id < RTAPI_MAX_TASKS && magic) task_id++] *)
Fixpoint find_slot (fuel : nat) (m : gmap Z task_data) (id : Z) : Z :=
  match fuel with
  | O => id
  | S fuel =>
      if (id <? RTAPI_MAX_TASKS) && bool_decide (is_Some (m !! id))
      then find_slot fuel m (id + 1) else id
  end.

Definition free_slot (m : gmap Z task_data) : Z := find_slot (Z.to_nat RTAPI_MAX_TASKS) m 1.

(** The result of the hook of the flavor is not looked at. *)
Definition rtapi_task_new (args : rtapi_task_args_t) : RM Z :=
  d ← get;
  let task_id := free_slot (rd_tasks d) in
  if task_id =? RTAPI_MAX_TASKS then raise (- ENOMEM)
  else if (ta_prio args <? rtapi_prio_lowest) || (rtapi_prio_highest <? ta_prio args)
  then raise (- EINVAL)
  else
    let stack := if ta_stacksize args <? MIN_STACKSIZE then MIN_STACKSIZE else ta_stacksize args in
    let cpu := if -1 <? ta_cpu_id args then ta_cpu_id args else rd_rt_cpu d in
    modify (set_rd_tasks (<[task_id := TaskData (ta_uses_fp args) stack 0 0 0 0 USERLAND
       (ta_prio args) (ta_owner args) (ta_arg args) cpu (ta_flags args)]> (rd_tasks d))) ≫= fun _ =>
    modify incr_task_count ≫= fun _ => mret task_id.

(** IS_TASK_ID_VALID and the test of the magic number. *)
Definition get_task (task_id : Z) : RM task_data :=
  d ← get;
  if (task_id <=? 0) || (RTAPI_MAX_TASKS <=? task_id) then raise (- EINVAL)
  else match rd_tasks d !! task_id with
       | None => raise (- EINVAL)
       | Some t => mret t
       end.

(** The period of the task is an [int]; without a base period the division
    is undefined. *)
Definition rtapi_task_start (task_id period_nsec : Z) : RM Z :=
  t ← get_task task_id;
  d ← get;
  let period_nsec := if period_nsec <? u64 (rd_period d) then u64 (rd_period d) else period_nsec in
  if rd_period d =? 0 then crash
  else
    modify (set_rd_tasks (<[task_id :=
      TaskData (tk_uses_fp t) (tk_stacksize t) (s32 period_nsec)
        (s32 (period_nsec / u64 (rd_period d))) 0 (s64 (period_nsec / 100)) (tk_state t)
        (tk_prio t) (tk_owner t) (tk_arg t) (tk_cpu t) (tk_flags t)]> (rd_tasks d))) ≫= fun _ =>
    let rc := flavor_task_start_hook task_id in
    if rc <? 0 then raise rc else mret rc.

Definition rtapi_task_pause (task_id : Z) : RM Z :=
  get_task task_id ≫= fun _ =>
  let rc := flavor_task_pause_hook task_id in if rc <? 0 then raise rc else mret rc.

Definition rtapi_task_delete (task_id : Z) : RM Z :=
  get_task task_id ≫= fun _ =>
  modify (fun d => set_rd_tasks (delete task_id (rd_tasks d)) d) ≫= fun _ => mret 0.
End RtapiTask.

(** ** Facts *)
Section Facts.
Implicit Types d : rtapi_data.

(** A lower priority, until the lowest is reached. *)
Lemma prio_next_lower_spec p :
  PRIO_LOWEST <= p <= PRIO_HIGHEST -> rtapi_prio_next_lower p = Z.max PRIO_LOWEST (p - 1).
Proof.
  unfold PRIO_LOWEST, PRIO_HIGHEST. intros Hp. unfold rtapi_prio_next_lower.
  rewrite wraps_small by (cbn; lia).
  unfold rtapi_prio_highest, rtapi_prio_lowest, PRIO_LOWEST, PRIO_HIGHEST.
  repeat case_match; zb; lia.
Qed.

Lemma find_slot_spec fuel m id :
  1 <= id <= RTAPI_MAX_TASKS -> RTAPI_MAX_TASKS <= id + Z.of_nat fuel ->
  let r := find_slot fuel m id in
  id <= r <= RTAPI_MAX_TASKS /\ (forall k, id <= k < r -> is_Some (m !! k)) /\
  (r < RTAPI_MAX_TASKS -> m !! r = None).
Proof.
  revert id. induction fuel as [| fuel IH]; intros id Hid Hf; simpl.
  - split; [lia |]. split; [intros; lia |]. intros. lia.
  - destruct (id <? RTAPI_MAX_TASKS) eqn:E; zb; simpl.
    + case_bool_decide as Hm.
      * destruct (IH (id + 1)) as (H1 & H2 & H3); [lia | lia |].
        split; [lia |]. split; [| done]. intros k Hk.
        destruct (decide (k = id)) as [-> |]; [done | apply H2; lia].
      * split; [lia |]. split; [intros; lia |]. intros _. by apply eq_None_not_Some.
    + split; [lia |]. split; intros; lia.
Qed.

Lemma free_slot_spec m :
  let r := free_slot m in
  1 <= r <= RTAPI_MAX_TASKS /\ (forall k, 1 <= k < r -> is_Some (m !! k)) /\
  (r < RTAPI_MAX_TASKS -> m !! r = None).
Proof. apply find_slot_spec; unfold RTAPI_MAX_TASKS; lia. Qed.

(** The table as the code can build it: valid slots and priorities. *)
Definition tasks_ok d : Prop :=
  forall id t, rd_tasks d !! id = Some t ->
    0 < id < RTAPI_MAX_TASKS /\ PRIO_LOWEST <= tk_prio t <= PRIO_HIGHEST.

(** A new task takes the first free slot of the table, with the
    priority that was asked for; a full table or a priority out of range is
    refused without any change; the other tasks are left alone and the table
    stays well-formed. *)
Theorem task_new_outcome args d r d' :
  tasks_ok d -> rtapi_task_new args d = (r, d') ->
  match r with
  | Ok id => 0 < id < RTAPI_MAX_TASKS /\ rd_tasks d !! id = None /\
      (forall k, 1 <= k < id -> is_Some (rd_tasks d !! k)) /\
      (exists t, rd_tasks d' = <[id := t]> (rd_tasks d) /\ tk_prio t = ta_prio args /\
         tk_arg t = ta_arg args /\ tk_owner t = ta_owner args) /\ tasks_ok d'
  | Err rc => d' = d /\
      ((rc = - ENOMEM /\ forall k, 1 <= k < RTAPI_MAX_TASKS -> is_Some (rd_tasks d !! k)) \/
       (rc = - EINVAL /\ ~ (PRIO_LOWEST <= ta_prio args <= PRIO_HIGHEST)))
  | Crash => False
  end.
Proof.
  intros Hok. unfold rtapi_task_new, mbind, M_bind, get.
  destruct (free_slot_spec (rd_tasks d)) as (Hr & Hall & Hnone).
  destruct (free_slot (rd_tasks d) =? RTAPI_MAX_TASKS) eqn:E; zb.
  - intros [= <- <-]. split; [done |]. left. split; [done |]. rewrite <- E. exact Hall.
  - destruct ((ta_prio args <? rtapi_prio_lowest) || _) eqn:Ep.
    + intros [= <- <-]. split; [done |]. right. split; [done |].
      apply orb_true_iff in Ep. unfold rtapi_prio_lowest, rtapi_prio_highest in *.
      destruct Ep; zb; lia.
    + apply orb_false_iff in Ep as [Ep1 Ep2]. unfold rtapi_prio_lowest, rtapi_prio_highest in *. zb.
      intros [= <- <-]. split; [lia |]. split; [apply Hnone; lia |]. split; [exact Hall |].
      split; [by eexists |]. intros k t Hk. simpl in Hk.
      destruct (decide (k = free_slot (rd_tasks d))) as [-> |].
      * rewrite lookup_insert_eq in Hk. injection Hk as <-. simpl. lia.
      * rewrite lookup_insert_ne in Hk by done. eauto.
Qed.

Lemma task_new_outcome_witness : exists t,
  rd_tasks (snd (rtapi_task_new (TaskArgs 64 98 1 0 0 (-1) 0) (RtapiData 1000 ∅ 0 0))) !! 1 = Some t
  /\ tk_prio t = 98 /\ tk_arg t = 64.
Proof.
  assert (tasks_ok (RtapiData 1000 ∅ 0 0)) as Hok
    by (intros id t Hid; simpl in Hid; by rewrite lookup_empty in Hid).
  pose proof (task_new_outcome (TaskArgs 64 98 1 0 0 (-1) 0) _ (Ok 1) _ Hok
    (surjective_pairing _)) as (_ & _ & _ & (t & E & Hp & Ha & _) & _).
  exists t. rewrite E, lookup_insert_eq. auto.
Defined.
End Facts.
