(* ===== verification/RtapiShmem.v ===== *)
(** * Shared memory segments (runtime/src/rtapi_shmem.c, runtime_memory/src/shmdrvapi.c)

    The segments of the operating system by name (instance and key) with
    their size, the mappings of this process, and the table of handles
    [shmem_array].  POSIX shared memory is modelled (the kernel driver
    shmdrv is not loaded); [mmap] is a parameter, and [shm_open] fails only
    when a segment is missing. *)
From S2P Require Import Prelude.

Definition RTAPI_MAX_SHMEMS : Z := 32.
Definition SHM_PAGE : Z := 4096.

Definition OS_KEY (key instance : Z) : Z :=
  s32 (Z.lor (Z.land key 0x00ffffff) (Z.land (Z.shiftl instance 24) 0xff000000)).

(** A used slot of [shmem_array] ([SHMEM_MAGIC] is set). *)
Record shmem_data := ShmemData {
  sm_key : Z;
  sm_count : Z;
  sm_instance : Z;
  sm_size : Z;
  sm_mem : Z;
}.

Record mapping := Mapping { mp_seg : Z * Z; mp_size : Z }.

Record shm_world := ShmWorld {
  sw_segs : gmap (Z * Z) Z;          (* size *)
  sw_maps : gmap Z mapping;          (* by address *)
  sw_table : gmap Z shmem_data;      (* by handle *)
}.

Definition set_segs (x : gmap (Z * Z) Z) (w : shm_world) : shm_world :=
  ShmWorld x (sw_maps w) (sw_table w).
Definition set_maps (x : gmap Z mapping) (w : shm_world) : shm_world :=
  ShmWorld (sw_segs w) x (sw_table w).
Definition set_table (x : gmap Z shmem_data) (w : shm_world) : shm_world :=
  ShmWorld (sw_segs w) (sw_maps w) x.

(** [mmap]: an address, or failure. *)
Class ShmOS := { mmap : gmap Z mapping -> mapping -> option Z }.

(** A new mapping overlaps no other one. *)
Class ShmOSSpec `{ShmOS} := { mmap_fresh : forall m x a, mmap m x = Some a -> 0 < a /\ m !! a = None }.

Definition page_align (x : Z) : Z := (x + SHM_PAGE - 1) / SHM_PAGE * SHM_PAGE.

(** Bytes of a mapping that can be accessed: whole pages, and only where the
    segment has data. *)
Definition accessible (w : shm_world) (a : Z) : Z :=
  match sw_maps w !! a with
  | Some x => Z.min (page_align (mp_size x)) (page_align (default 0 (sw_segs w !! mp_seg x)))
  | None => 0
  end.

Section RtapiShmem.
Context {OS : ShmOS}.
Abbreviation SM := (M shm_world).

(** Result: whether the segment was created, the size of the mapping, and
    its address. *)
Definition shm_common_new (key size instance : Z) (create : bool) : SM (bool * Z * Z) :=
  w ← get;
  let name := (instance, key) in
  r ← match sw_segs w !! name with
      | None =>
          if create then modify (set_segs (<[name := size]> (sw_segs w))) ≫= fun _ => mret (true, size)
          else raise (- ENOENT)
      | Some sz => mret (false, if size =? 0 then sz else size)
      end;
  w ← get;
  match mmap (sw_maps w) (Mapping name (snd r)) with
  | None => raise (- ENOMEM)
  | Some a => modify (set_maps (<[a := Mapping name (snd r)]> (sw_maps w))) ≫= fun _ =>
              mret (fst r, snd r, a)
  end.

(** The loop over the slots stops at the first free one. *)
Fixpoint find_shmem (fuel : nat) (t : gmap Z shmem_data) (key i : Z) : Z * option shmem_data :=
  match fuel with
  | O => (i, None)
  | S fuel =>
      if RTAPI_MAX_SHMEMS <=? i then (i, None)
      else match t !! i with
           | Some d => if sm_key d =? key then (i, Some d) else find_shmem fuel t key (i + 1)
           | None => (i, None)
           end
  end.

Definition rtapi_shmem_new_inst (userkey instance size : Z) : SM Z :=
  let key := OS_KEY userkey instance in
  w ← get;
  match find_shmem 32 (sw_table w) key 1 with
  | (i, Some d) =>
      modify (set_table (<[i := ShmemData (sm_key d) (s32 (sm_count d + 1)) (sm_instance d)
                                 (sm_size d) (sm_mem d)]> (sw_table w))) ≫= fun _ => mret i
  | (i, None) =>
      if i =? RTAPI_MAX_SHMEMS then raise (- ENOMEM)
      else
        r ← shm_common_new key (s32 size) instance (0 <? size);
        let '(is_new, actual_size, a) := r in
        w ← get;
        (* reading every page of a segment that was there *)
        if negb is_new && (accessible w a <? page_align size) then crash
        else
          modify (set_table (<[i := ShmemData key 1 instance actual_size a]> (sw_table w))) ≫= fun _ =>
          mret i
  end.

Definition rtapi_shmem_getptr_inst (handle : Z) : SM (Z * Z) :=
  if (handle <? 1) || (RTAPI_MAX_SHMEMS <=? handle) then raise (- EINVAL)
  else
    w ← get;
    match sw_table w !! handle with
    | None => raise (- ENOENT)
    | Some d => mret (sm_mem d, sm_size d)
    end.

(** [munmap] of a whole mapping succeeds. *)
Definition shm_common_detach (a : Z) : SM Z :=
  modify (fun w => set_maps (delete a (sw_maps w)) w) ≫= fun _ => mret 0.

Definition rtapi_shmem_delete_inst (handle : Z) : SM Z :=
  if (handle <? 1) || (RTAPI_MAX_SHMEMS <=? handle) then raise (- EINVAL)
  else
    w ← get;
    match sw_table w !! handle with
    | None => raise (- EINVAL)
    | Some d =>
        let count := s32 (sm_count d - 1) in
        if negb (count =? 0) then
          modify (set_table (<[handle := ShmemData (sm_key d) count (sm_instance d)
                                         (sm_size d) (sm_mem d)]> (sw_table w))) ≫= fun _ => mret 0
        else
          shm_common_detach (sm_mem d) ≫= fun retval =>
          modify (fun w => set_table (delete handle (sw_table w)) w) ≫= fun _ => mret retval
    end.

Definition rtapi_shmem_exists (w : shm_world) (userkey : Z) : bool :=
  bool_decide (is_Some (sw_segs w !!
    (Z.land (Z.shiftr (Z.land userkey 0xff000000) 24) 0xff, userkey))).

(** In terms of the instance of this process. *)
Variable rtapi_instance : Z.
Definition rtapi_shmem_new (userkey size : Z) : SM Z := rtapi_shmem_new_inst userkey rtapi_instance size.
Definition rtapi_shmem_getptr (handle : Z) : SM Z := r ← rtapi_shmem_getptr_inst handle; mret (fst r).
Definition rtapi_shmem_getsize (handle : Z) : SM Z := r ← rtapi_shmem_getptr_inst handle; mret (snd r).
Definition rtapi_shmem_delete (handle : Z) : SM Z := rtapi_shmem_delete_inst handle.
End RtapiShmem.
