(* ===== verification/HalData.v ===== *)
(** * HAL data structures (hal/hal.h, hal_priv.h, hal_object.h)

    The HAL shared memory segment is a record [hal_state]: the descriptors
    of the named objects by their offset ([hs_objs]), the object list in list
    order ([hs_halobjects]), the threads, the function entries, the cells the
    legacy pins point through, the two heaps and the counters.  A descriptor
    is its header and a body; a value address is a descriptor and a field.

    The allocators of the two heaps are an interface ([Allocator]) whose
    laws are [AllocatorSpec]; the platform ([Platform]) gives the sizes and
    configuration values; the code of the loaded components is called
    through [Callbacks]. *)
From S2P Require Import Prelude Mem Ring Multiframe RtapiTask RtapiShmem.

(** ** Constants *)
Definition HAL_OBJECT_INVALID : Z := 0.
Definition HAL_PIN : Z := 1.
Definition HAL_SIGNAL : Z := 2.
Definition HAL_PARAM : Z := 3.
Definition HAL_THREAD : Z := 4.
Definition HAL_FUNCT : Z := 5.
Definition HAL_COMPONENT : Z := 6.
Definition HAL_VTABLE : Z := 7.
Definition HAL_INST : Z := 8.
Definition HAL_RING : Z := 9.
Definition HAL_GROUP : Z := 10.
Definition HAL_MEMBER : Z := 11.
Definition HAL_PLUG : Z := 12.

Definition HAL_BIT : Z := 1.
Definition HAL_FLOAT : Z := 2.
Definition HAL_S32 : Z := 3.
Definition HAL_U32 : Z := 4.
Definition HAL_S64 : Z := 5.
Definition HAL_U64 : Z := 6.

Definition HAL_IN : Z := 16.
Definition HAL_OUT : Z := 32.
Definition HAL_IO : Z := 48.

Definition HAL_RO : Z := 64.
Definition HAL_RW : Z := 192.

Definition TYPE_RT : Z := 1.
Definition TYPE_USER : Z := 2.
Definition TYPE_REMOTE : Z := 3.
Definition TYPE_HALLIB : Z := 4.

Definition COMP_INITIALIZING : Z := 1.
Definition COMP_UNBOUND : Z := 2.
Definition COMP_BOUND : Z := 3.
Definition COMP_READY : Z := 4.

Definition HAL_LOCK_NONE : Z := 0.
Definition HAL_LOCK_LOAD : Z := 1.
Definition HAL_LOCK_CONFIG : Z := 2.
Definition HAL_LOCK_PARAMS : Z := 4.
Definition HAL_LOCK_RUN : Z := 8.

Definition FS_LEGACY_THREADFUNC : Z := 0.
Definition FS_XTHREADFUNC : Z := 1.
Definition FS_USERLAND : Z := 2.

Definition HAL_VER : Z := 13.
Definition HAL_NAME_LEN : Z := 41.
Definition HAL_MAX_NAME_LEN : Z := 127.
Definition MAX_OBJECT_NAME_LEN : Z := 127.
Definition MAX_ARGC : Z := 30.

(** ** Object header ([halhdr_t]) *)
Record halhdr := HalHdr {
  hh_id : Z;                        (* __s16 *)
  hh_owner_id : Z;                  (* __s16 *)
  hh_name : option (Z * string);    (* block of the global heap, and the string in it *)
  hh_refcnt : Z;                    (* __s32 : 7 *)
  hh_legacy : bool;
  hh_valid : bool;
  hh_rmb : bool;
  hh_wmb : bool;
}.

Definition hh_set_id (h : halhdr) (id : Z) : halhdr :=
  HalHdr (s16 id) (hh_owner_id h) (hh_name h) (hh_refcnt h) (hh_legacy h) (hh_valid h) (hh_rmb h) (hh_wmb h).
Definition hh_set_owner_id (h : halhdr) (owner : Z) : halhdr :=
  HalHdr (hh_id h) (s16 owner) (hh_name h) (hh_refcnt h) (hh_legacy h) (hh_valid h) (hh_rmb h) (hh_wmb h).
Definition hh_set_name (h : halhdr) (n : option (Z * string)) : halhdr :=
  HalHdr (hh_id h) (hh_owner_id h) n (hh_refcnt h) (hh_legacy h) (hh_valid h) (hh_rmb h) (hh_wmb h).
Definition hh_set_refcnt (h : halhdr) (n : Z) : halhdr :=
  HalHdr (hh_id h) (hh_owner_id h) (hh_name h) (wraps 7 n) (hh_legacy h) (hh_valid h) (hh_rmb h) (hh_wmb h).
Definition hh_set_legacy (h : halhdr) : halhdr :=
  HalHdr (hh_id h) (hh_owner_id h) (hh_name h) (hh_refcnt h) true (hh_valid h) (hh_rmb h) (hh_wmb h).
Definition hh_set_valid (h : halhdr) : halhdr :=
  HalHdr (hh_id h) (hh_owner_id h) (hh_name h) (hh_refcnt h) (hh_legacy h) true (hh_rmb h) (hh_wmb h).
Definition hh_set_invalid (h : halhdr) : halhdr :=
  HalHdr (hh_id h) (hh_owner_id h) (hh_name h) (hh_refcnt h) (hh_legacy h) false (hh_rmb h) (hh_wmb h).
Definition hh_set_rmb (h : halhdr) (b : bool) : halhdr :=
  HalHdr (hh_id h) (hh_owner_id h) (hh_name h) (hh_refcnt h) (hh_legacy h) (hh_valid h) b (hh_wmb h).
Definition hh_set_wmb (h : halhdr) (b : bool) : halhdr :=
  HalHdr (hh_id h) (hh_owner_id h) (hh_name h) (hh_refcnt h) (hh_legacy h) (hh_valid h) (hh_rmb h) b.

Definition hh_incr_refcnt (h : halhdr) : halhdr := hh_set_refcnt h (hh_refcnt h + 1).
Definition hh_decr_refcnt (h : halhdr) : halhdr := hh_set_refcnt h (hh_refcnt h - 1).

Definition hh_get_name (h : halhdr) : string :=
  match hh_name h with Some (_, s) => s | None => "*** NULL ***" end.

(** The validity flag is returned as it was; the name is kept. *)
Definition hh_clear_hdr (h : halhdr) : bool * halhdr :=
  (hh_valid h, hh_set_refcnt (hh_set_invalid (hh_set_owner_id (hh_set_id h 0) 0)) 0).

Definition hh_is_toplevel (type : Z) : bool :=
  negb ((type =? HAL_PIN) || (type =? HAL_PARAM) || (type =? HAL_FUNCT)
        || (type =? HAL_INST) || (type =? HAL_MEMBER) || (type =? HAL_PLUG)).

Definition hal_object_typestr (type : Z) : string :=
  if type =? HAL_PIN then "PIN" else if type =? HAL_SIGNAL then "SIGNAL"
  else if type =? HAL_PARAM then "PARAM" else if type =? HAL_THREAD then "THREAD"
  else if type =? HAL_FUNCT then "FUNCT" else if type =? HAL_COMPONENT then "COMPONENT"
  else if type =? HAL_VTABLE then "VTABLE" else if type =? HAL_INST then "INST"
  else if type =? HAL_RING then "RING" else if type =? HAL_GROUP then "GROUP"
  else if type =? HAL_MEMBER then "MEMBER" else if type =? HAL_PLUG then "PLUG"
  else "**invalid**".

(** ** Values

    [hal_data_u] is a union of 8 bytes: a 64-bit word.  The members of 1, 4
    and 8 bytes are its low bits. *)
Abbreviation hal_data_u := Z.

Definition put_low (w : Z) (u v : hal_data_u) : hal_data_u := u - u mod 2 ^ w + v mod 2 ^ w.
Definition get_low (w : Z) (u : hal_data_u) : Z := u mod 2 ^ w.

Definition set_bit_value (u : hal_data_u) (v : Z) := put_low 8 u v.
Definition set_s32_value (u : hal_data_u) (v : Z) := put_low 32 u v.
Definition set_u32_value (u : hal_data_u) (v : Z) := put_low 32 u v.
Definition set_s64_value (u : hal_data_u) (v : Z) := put_low 64 u v.
Definition set_u64_value (u : hal_data_u) (v : Z) := put_low 64 u v.
(** A float is its IEEE bit pattern. *)
Definition set_float_value (u : hal_data_u) (v : Z) := put_low 64 u v.
Definition get_bit_value (u : hal_data_u) : Z := get_low 8 u.
Definition get_s32_value (u : hal_data_u) : Z := s32 (get_low 32 u).
Definition get_u32_value (u : hal_data_u) : Z := get_low 32 u.
Definition get_s64_value (u : hal_data_u) : Z := s64 (get_low 64 u).
Definition get_u64_value (u : hal_data_u) : Z := get_low 64 u.
Definition get_float_value (u : hal_data_u) : Z := get_low 64 u.

Lemma get_put_low w u v : 0 <= w -> get_low w (put_low w u v) = v mod 2 ^ w.
Proof.
  intros Hw. unfold get_low, put_low.
  assert (u - u mod 2 ^ w = u / 2 ^ w * 2 ^ w) as E.
  { pose proof (Z.div_mod u (2 ^ w) ltac:(lia)). lia. }
  rewrite E, Z.add_comm, Z_mod_plus_full. apply Zmod_mod.
Qed.

(** Address of a value: a field of a descriptor, or memory of [hal_malloc]. *)
Inductive vaddr : Type :=
| ANull
| ADummy (pin : Z)      (* &pin->dummysig *)
| ASig (sig : Z)        (* &sig->value *)
| AParam (param : Z)    (* &param->value *)
| ARt (off : Z).

#[export] Instance vaddr_eq_dec : EqDecision vaddr.
Proof. solve_decision. Defined.

(** ** Descriptor bodies *)
Record hal_pin := HalPin {
  p_data_ptr_addr : option Z;   (* [None]: &hal_data->dead_beef *)
  p_data_ptr : vaddr;
  p_signal : Z;                 (* 0: none *)
  p_dummysig : hal_data_u;
  p_type : Z;
  p_dir : Z;
  p_flags : Z;
  p_eps_index : Z;
}.

Definition pin_set_data_ptr (p : hal_pin) (a : vaddr) : hal_pin :=
  HalPin (p_data_ptr_addr p) a (p_signal p) (p_dummysig p) (p_type p) (p_dir p) (p_flags p) (p_eps_index p).
Definition pin_set_signal (p : hal_pin) (sig : Z) : hal_pin :=
  HalPin (p_data_ptr_addr p) (p_data_ptr p) sig (p_dummysig p) (p_type p) (p_dir p) (p_flags p) (p_eps_index p).
Definition pin_set_dummysig (p : hal_pin) (u : hal_data_u) : hal_pin :=
  HalPin (p_data_ptr_addr p) (p_data_ptr p) (p_signal p) u (p_type p) (p_dir p) (p_flags p) (p_eps_index p).

Record hal_sig := HalSig {
  s_type : Z;
  s_value : hal_data_u;
  s_readers : Z;
  s_writers : Z;
  s_bidirs : Z;
}.

Definition sig_set_value (s : hal_sig) (u : hal_data_u) : hal_sig :=
  HalSig (s_type s) u (s_readers s) (s_writers s) (s_bidirs s).
Definition sig_set_counts (s : hal_sig) (r w b : Z) : hal_sig :=
  HalSig (s_type s) (s_value s) r w b.

Record hal_param := HalParam {
  pa_value : hal_data_u;
  pa_data_ptr : vaddr;
  pa_type : Z;
  pa_dir : Z;
}.

Record hal_funct := HalFunct {
  f_arg : Z;
  f_funct : Z;          (* the function pointer *)
  f_type : Z;
  f_runtime : Z;        (* pins; 0: none *)
  f_maxtime : Z;
  f_maxtime_increased : Z;
  f_uses_fp : Z;
  f_reentrant : Z;
  f_users : Z;
}.

Definition funct_set_users (f : hal_funct) (n : Z) : hal_funct :=
  HalFunct (f_arg f) (f_funct f) (f_type f) (f_runtime f) (f_maxtime f)
    (f_maxtime_increased f) (f_uses_fp f) (f_reentrant f) n.
Definition funct_set_pins (f : hal_funct) (rt mt inc : Z) : hal_funct :=
  HalFunct (f_arg f) (f_funct f) (f_type f) rt mt inc (f_uses_fp f) (f_reentrant f) (f_users f).

Record hal_thread := HalThread {
  t_uses_fp : Z;
  t_period : Z;
  t_priority : Z;
  t_task_id : Z;
  t_runtime : Z;
  t_maxtime : Z;
  t_curr_period : Z;
  t_funct_list : list Z;   (* addresses of function entries *)
  t_cpu_id : Z;
  t_flags : Z;
}.

Definition thread_set_funct_list (t : hal_thread) (l : list Z) : hal_thread :=
  HalThread (t_uses_fp t) (t_period t) (t_priority t) (t_task_id t) (t_runtime t)
    (t_maxtime t) (t_curr_period t) l (t_cpu_id t) (t_flags t).

(** [hal_funct_entry_t]; [fe_funct_ptr = 0] marks a free entry. *)
Record hal_funct_entry := HalFunctEntry {
  fe_rmb : Z;
  fe_wmb : Z;
  fe_type : Z;
  fe_arg : Z;
  fe_funct : Z;
  fe_funct_ptr : Z;
}.

Record hal_comp := HalComp {
  c_type : Z;
  c_state : Z;
  c_shmem_base : Z;
  c_last_update : Z;
  c_last_bound : Z;
  c_last_unbound : Z;
  c_pid : Z;
  c_ctor : option Z;
  c_dtor : option Z;
  c_insmod_args : Z;
  c_userarg1 : Z;
  c_userarg2 : Z;
}.

Definition comp_set_state (c : hal_comp) (st : Z) : hal_comp :=
  HalComp (c_type c) st (c_shmem_base c) (c_last_update c) (c_last_bound c)
    (c_last_unbound c) (c_pid c) (c_ctor c) (c_dtor c) (c_insmod_args c)
    (c_userarg1 c) (c_userarg2 c).

Definition is_instantiable (c : option hal_comp) : bool :=
  match c with
  | Some c => (c_type c =? TYPE_RT) && match c_ctor c with Some _ => true | None => false end
  | None => false
  end.

Record hal_inst := HalInst {
  i_inst_data_ptr : option Z;
  i_inst_size : Z;
  i_frozen_argv : option (Z * list (option (Z * string)));   (* block, and its pointers *)
}.

Record hal_vtable := HalVtable {
  v_context : Z;
  v_version : Z;
  v_vtable : Z;
}.

Record hal_group := HalGroup { g_userarg1 : Z; g_userarg2 : Z }.

Record hal_member := HalMember { m_sig_ptr : Z; m_userarg1 : Z; m_eps_index : Z }.

(** ** Rings and plugs (hal_ring.h)

    A ring header is in HAL memory or in a mapped segment. *)
Inductive raddr : Type :=
| RHal (off : Z)
| RMap (addr : Z).

(** What is at a ring header: memory of the HAL heap, or of a segment. *)
Inductive rkey : Type :=
| KHal (off : Z)
| KSeg (name : Z * Z).

#[export] Instance raddr_eq_dec : EqDecision raddr.
Proof. solve_decision. Defined.
#[export] Instance rkey_eq_dec : EqDecision rkey.
Proof. solve_decision. Defined.
#[export] Instance rkey_countable : Countable rkey.
Proof.
  refine (inj_countable' (fun k => match k with KHal o => inl o | KSeg n => inr n end)
    (fun x => match x with inl o => KHal o | inr n => KSeg n end) _).
  by intros [].
Defined.

Record hal_ring := HalRing {
  r_ring_id : Z;
  r_ring_shmkey : Z;
  r_total_size : Z;
  r_ring_offset : Z;
  r_flags : Z;
}.

(** [ringbuffer_t] of a process; a header of [None] is NULL. *)
Record ring_attachment := RingAttachment {
  ra_magic : Z;
  ra_header : option raddr;
  ra_scratchpad : option Z;
}.

Record hal_plug := HalPlug {
  pl_rb : ring_attachment;
  pl_mb : option Multiframe.msgbuffer;
  pl_flags : Z;
  pl_ring_id : Z;
  pl_role : Z;
}.

Record ring_store := RingStore {
  rst_ids : gset Z;                                  (* the bitmap [hal_data->rings] *)
  rst_content : gmap rkey (Ring.ringheader * mem);
  rst_shm : shm_world;
}.

Definition set_rst_ids (x : gset Z) (r : ring_store) : ring_store :=
  RingStore x (rst_content r) (rst_shm r).
Definition set_rst_content (x : gmap rkey (Ring.ringheader * mem)) (r : ring_store) : ring_store :=
  RingStore (rst_ids r) x (rst_shm r).
Definition set_rst_shm (x : shm_world) (r : ring_store) : ring_store :=
  RingStore (rst_ids r) (rst_content r) x.

Definition no_rings : ring_store := RingStore ∅ ∅ (ShmWorld ∅ ∅ ∅).

Inductive hal_body : Type :=
| BPin (p : hal_pin)
| BSig (s : hal_sig)
| BParam (p : hal_param)
| BThread (t : hal_thread)
| BFunct (f : hal_funct)
| BComp (c : hal_comp)
| BVtable (v : hal_vtable)
| BInst (i : hal_inst)
| BGroup (g : hal_group)
| BMember (m : hal_member)
| BRing (r : hal_ring)
| BPlug (p : hal_plug)
| BInvalid.    (* no known object type *)

Record hal_obj := HalObj { o_hdr : halhdr; o_body : hal_body }.

(** [hh_get_object_type]: the type the descriptor was created with. *)
Definition body_type (b : hal_body) : Z :=
  match b with
  | BPin _ => HAL_PIN | BSig _ => HAL_SIGNAL | BParam _ => HAL_PARAM
  | BThread _ => HAL_THREAD | BFunct _ => HAL_FUNCT | BComp _ => HAL_COMPONENT
  | BVtable _ => HAL_VTABLE | BInst _ => HAL_INST | BGroup _ => HAL_GROUP
  | BMember _ => HAL_MEMBER | BRing _ => HAL_RING | BPlug _ => HAL_PLUG
  | BInvalid => HAL_OBJECT_INVALID
  end.

Definition hh_get_object_type (o : hal_obj) : Z := body_type (o_body o).

(** A descriptor comes zeroed from the heap. *)
Definition zero_body (type : Z) : hal_body :=
  if type =? HAL_PIN then BPin (HalPin None ANull 0 0 0 0 0 0)
  else if type =? HAL_SIGNAL then BSig (HalSig 0 0 0 0 0)
  else if type =? HAL_PARAM then BParam (HalParam 0 ANull 0 0)
  else if type =? HAL_THREAD then BThread (HalThread 0 0 0 0 0 0 0 [] 0 0)
  else if type =? HAL_FUNCT then BFunct (HalFunct 0 0 0 0 0 0 0 0 0)
  else if type =? HAL_COMPONENT then BComp (HalComp 0 0 0 0 0 0 0 None None 0 0 0)
  else if type =? HAL_VTABLE then BVtable (HalVtable 0 0 0)
  else if type =? HAL_INST then BInst (HalInst None 0 None)
  else if type =? HAL_GROUP then BGroup (HalGroup 0 0)
  else if type =? HAL_MEMBER then BMember (HalMember 0 0 0)
  else if type =? HAL_RING then BRing (HalRing 0 0 0 0 0)
  else if type =? HAL_PLUG then BPlug (HalPlug (RingAttachment 0 None None) None 0 0 0)
  else BInvalid.

Definition zero_hdr : halhdr := HalHdr 0 0 None 0 false false false false.

Lemma zero_body_type type : 1 <= type <= 12 -> body_type (zero_body type) = type.
Proof.
  intros Ht. unfold zero_body. repeat case_match; zb; simpl; try congruence.
  unfold HAL_PIN, HAL_SIGNAL, HAL_PARAM, HAL_THREAD, HAL_FUNCT, HAL_COMPONENT, HAL_VTABLE,
    HAL_INST, HAL_GROUP, HAL_MEMBER, HAL_RING, HAL_PLUG in *. lia.
Qed.

Lemma body_pin b : body_type b = HAL_PIN -> exists p, b = BPin p.
Proof. destruct b; try discriminate; eauto. Qed.
Lemma body_sig b : body_type b = HAL_SIGNAL -> exists x, b = BSig x.
Proof. destruct b; try discriminate; eauto. Qed.
Lemma body_comp b : body_type b = HAL_COMPONENT -> exists x, b = BComp x.
Proof. destruct b; try discriminate; eauto. Qed.
Lemma body_inst b : body_type b = HAL_INST -> exists x, b = BInst x.
Proof. destruct b; try discriminate; eauto. Qed.
Lemma body_thread b : body_type b = HAL_THREAD -> exists x, b = BThread x.
Proof. destruct b; try discriminate; eauto. Qed.
Lemma body_funct b : body_type b = HAL_FUNCT -> exists x, b = BFunct x.
Proof. destruct b; try discriminate; eauto. Qed.
Lemma body_vtable b : body_type b = HAL_VTABLE -> exists x, b = BVtable x.
Proof. destruct b; try discriminate; eauto. Qed.

(** ** State ([hal_data_t], and the variables of hal_lib.c) *)
Record hal_state (H : Type) := HalState {
  hs_init : bool;
  hs_version : Z;
  hs_heap : H;
  hs_gheap : H;
  hs_objs : gmap Z hal_obj;
  hs_halobjects : list Z;
  hs_threads : list Z;
  hs_funct_entry_free : list Z;
  hs_fentries : gmap Z hal_funct_entry;
  hs_cells : gmap Z (Z * vaddr);
  hs_lock : Z;
  hs_threads_running : Z;
  hs_base_period : Z;
  hs_exact_base_period : Z;
  hs_shmem_bot : Z;
  hs_shmem_top : Z;
  hs_str_alloc : Z;
  hs_str_freed : Z;
  hs_rt_alignment_loss : Z;
  hs_hal_malloced : Z;
  hs_next_handle : Z;
  hs_halerrno : Z;
  hs_lib_module_id : Z;
  hs_rtapi : rtapi_data;
  hs_rings : ring_store;
}.
Arguments HalState {H}.
Arguments hs_init {H}.
Arguments hs_version {H}.
Arguments hs_heap {H}.
Arguments hs_gheap {H}.
Arguments hs_objs {H}.
Arguments hs_halobjects {H}.
Arguments hs_threads {H}.
Arguments hs_funct_entry_free {H}.
Arguments hs_fentries {H}.
Arguments hs_cells {H}.
Arguments hs_lock {H}.
Arguments hs_threads_running {H}.
Arguments hs_base_period {H}.
Arguments hs_exact_base_period {H}.
Arguments hs_shmem_bot {H}.
Arguments hs_shmem_top {H}.
Arguments hs_str_alloc {H}.
Arguments hs_str_freed {H}.
Arguments hs_rt_alignment_loss {H}.
Arguments hs_hal_malloced {H}.
Arguments hs_next_handle {H}.
Arguments hs_halerrno {H}.
Arguments hs_lib_module_id {H}.
Arguments hs_rtapi {H}.
Arguments hs_rings {H}.

(** Field updates. *)
Section Updates.
Context {H : Type}.
Implicit Types s : hal_state H.

Definition set_init (x : bool) s : hal_state H :=
  HalState x (hs_version s) (hs_heap s) (hs_gheap s) (hs_objs s) (hs_halobjects s)
    (hs_threads s) (hs_funct_entry_free s) (hs_fentries s) (hs_cells s) (hs_lock s)
    (hs_threads_running s) (hs_base_period s) (hs_exact_base_period s) (hs_shmem_bot
    s) (hs_shmem_top s) (hs_str_alloc s) (hs_str_freed s) (hs_rt_alignment_loss s)
    (hs_hal_malloced s) (hs_next_handle s) (hs_halerrno s) (hs_lib_module_id s)
    (hs_rtapi s) (hs_rings s).

Definition set_version (x : Z) s : hal_state H :=
  HalState (hs_init s) x (hs_heap s) (hs_gheap s) (hs_objs s) (hs_halobjects s)
    (hs_threads s) (hs_funct_entry_free s) (hs_fentries s) (hs_cells s) (hs_lock s)
    (hs_threads_running s) (hs_base_period s) (hs_exact_base_period s) (hs_shmem_bot
    s) (hs_shmem_top s) (hs_str_alloc s) (hs_str_freed s) (hs_rt_alignment_loss s)
    (hs_hal_malloced s) (hs_next_handle s) (hs_halerrno s) (hs_lib_module_id s)
    (hs_rtapi s) (hs_rings s).

Definition set_heap (x : H) s : hal_state H :=
  HalState (hs_init s) (hs_version s) x (hs_gheap s) (hs_objs s) (hs_halobjects s)
    (hs_threads s) (hs_funct_entry_free s) (hs_fentries s) (hs_cells s) (hs_lock s)
    (hs_threads_running s) (hs_base_period s) (hs_exact_base_period s) (hs_shmem_bot
    s) (hs_shmem_top s) (hs_str_alloc s) (hs_str_freed s) (hs_rt_alignment_loss s)
    (hs_hal_malloced s) (hs_next_handle s) (hs_halerrno s) (hs_lib_module_id s)
    (hs_rtapi s) (hs_rings s).

Definition set_gheap (x : H) s : hal_state H :=
  HalState (hs_init s) (hs_version s) (hs_heap s) x (hs_objs s) (hs_halobjects s)
    (hs_threads s) (hs_funct_entry_free s) (hs_fentries s) (hs_cells s) (hs_lock s)
    (hs_threads_running s) (hs_base_period s) (hs_exact_base_period s) (hs_shmem_bot
    s) (hs_shmem_top s) (hs_str_alloc s) (hs_str_freed s) (hs_rt_alignment_loss s)
    (hs_hal_malloced s) (hs_next_handle s) (hs_halerrno s) (hs_lib_module_id s)
    (hs_rtapi s) (hs_rings s).

Definition set_objs (x : gmap Z hal_obj) s : hal_state H :=
  HalState (hs_init s) (hs_version s) (hs_heap s) (hs_gheap s) x (hs_halobjects s)
    (hs_threads s) (hs_funct_entry_free s) (hs_fentries s) (hs_cells s) (hs_lock s)
    (hs_threads_running s) (hs_base_period s) (hs_exact_base_period s) (hs_shmem_bot
    s) (hs_shmem_top s) (hs_str_alloc s) (hs_str_freed s) (hs_rt_alignment_loss s)
    (hs_hal_malloced s) (hs_next_handle s) (hs_halerrno s) (hs_lib_module_id s)
    (hs_rtapi s) (hs_rings s).

Definition set_halobjects (x : list Z) s : hal_state H :=
  HalState (hs_init s) (hs_version s) (hs_heap s) (hs_gheap s) (hs_objs s) x
    (hs_threads s) (hs_funct_entry_free s) (hs_fentries s) (hs_cells s) (hs_lock s)
    (hs_threads_running s) (hs_base_period s) (hs_exact_base_period s) (hs_shmem_bot
    s) (hs_shmem_top s) (hs_str_alloc s) (hs_str_freed s) (hs_rt_alignment_loss s)
    (hs_hal_malloced s) (hs_next_handle s) (hs_halerrno s) (hs_lib_module_id s)
    (hs_rtapi s) (hs_rings s).

Definition set_threads (x : list Z) s : hal_state H :=
  HalState (hs_init s) (hs_version s) (hs_heap s) (hs_gheap s) (hs_objs s)
    (hs_halobjects s) x (hs_funct_entry_free s) (hs_fentries s) (hs_cells s) (hs_lock
    s) (hs_threads_running s) (hs_base_period s) (hs_exact_base_period s)
    (hs_shmem_bot s) (hs_shmem_top s) (hs_str_alloc s) (hs_str_freed s)
    (hs_rt_alignment_loss s) (hs_hal_malloced s) (hs_next_handle s) (hs_halerrno s)
    (hs_lib_module_id s) (hs_rtapi s) (hs_rings s).

Definition set_funct_entry_free (x : list Z) s : hal_state H :=
  HalState (hs_init s) (hs_version s) (hs_heap s) (hs_gheap s) (hs_objs s)
    (hs_halobjects s) (hs_threads s) x (hs_fentries s) (hs_cells s) (hs_lock s)
    (hs_threads_running s) (hs_base_period s) (hs_exact_base_period s) (hs_shmem_bot
    s) (hs_shmem_top s) (hs_str_alloc s) (hs_str_freed s) (hs_rt_alignment_loss s)
    (hs_hal_malloced s) (hs_next_handle s) (hs_halerrno s) (hs_lib_module_id s)
    (hs_rtapi s) (hs_rings s).

Definition set_fentries (x : gmap Z hal_funct_entry) s : hal_state H :=
  HalState (hs_init s) (hs_version s) (hs_heap s) (hs_gheap s) (hs_objs s)
    (hs_halobjects s) (hs_threads s) (hs_funct_entry_free s) x (hs_cells s) (hs_lock
    s) (hs_threads_running s) (hs_base_period s) (hs_exact_base_period s)
    (hs_shmem_bot s) (hs_shmem_top s) (hs_str_alloc s) (hs_str_freed s)
    (hs_rt_alignment_loss s) (hs_hal_malloced s) (hs_next_handle s) (hs_halerrno s)
    (hs_lib_module_id s) (hs_rtapi s) (hs_rings s).

Definition set_cells (x : gmap Z (Z * vaddr)) s : hal_state H :=
  HalState (hs_init s) (hs_version s) (hs_heap s) (hs_gheap s) (hs_objs s)
    (hs_halobjects s) (hs_threads s) (hs_funct_entry_free s) (hs_fentries s) x
    (hs_lock s) (hs_threads_running s) (hs_base_period s) (hs_exact_base_period s)
    (hs_shmem_bot s) (hs_shmem_top s) (hs_str_alloc s) (hs_str_freed s)
    (hs_rt_alignment_loss s) (hs_hal_malloced s) (hs_next_handle s) (hs_halerrno s)
    (hs_lib_module_id s) (hs_rtapi s) (hs_rings s).

Definition set_lock (x : Z) s : hal_state H :=
  HalState (hs_init s) (hs_version s) (hs_heap s) (hs_gheap s) (hs_objs s)
    (hs_halobjects s) (hs_threads s) (hs_funct_entry_free s) (hs_fentries s) (hs_cells
    s) x (hs_threads_running s) (hs_base_period s) (hs_exact_base_period s)
    (hs_shmem_bot s) (hs_shmem_top s) (hs_str_alloc s) (hs_str_freed s)
    (hs_rt_alignment_loss s) (hs_hal_malloced s) (hs_next_handle s) (hs_halerrno s)
    (hs_lib_module_id s) (hs_rtapi s) (hs_rings s).

Definition set_threads_running (x : Z) s : hal_state H :=
  HalState (hs_init s) (hs_version s) (hs_heap s) (hs_gheap s) (hs_objs s)
    (hs_halobjects s) (hs_threads s) (hs_funct_entry_free s) (hs_fentries s) (hs_cells
    s) (hs_lock s) x (hs_base_period s) (hs_exact_base_period s) (hs_shmem_bot s)
    (hs_shmem_top s) (hs_str_alloc s) (hs_str_freed s) (hs_rt_alignment_loss s)
    (hs_hal_malloced s) (hs_next_handle s) (hs_halerrno s) (hs_lib_module_id s)
    (hs_rtapi s) (hs_rings s).

Definition set_base_period (x : Z) s : hal_state H :=
  HalState (hs_init s) (hs_version s) (hs_heap s) (hs_gheap s) (hs_objs s)
    (hs_halobjects s) (hs_threads s) (hs_funct_entry_free s) (hs_fentries s) (hs_cells
    s) (hs_lock s) (hs_threads_running s) x (hs_exact_base_period s) (hs_shmem_bot s)
    (hs_shmem_top s) (hs_str_alloc s) (hs_str_freed s) (hs_rt_alignment_loss s)
    (hs_hal_malloced s) (hs_next_handle s) (hs_halerrno s) (hs_lib_module_id s)
    (hs_rtapi s) (hs_rings s).

Definition set_exact_base_period (x : Z) s : hal_state H :=
  HalState (hs_init s) (hs_version s) (hs_heap s) (hs_gheap s) (hs_objs s)
    (hs_halobjects s) (hs_threads s) (hs_funct_entry_free s) (hs_fentries s) (hs_cells
    s) (hs_lock s) (hs_threads_running s) (hs_base_period s) x (hs_shmem_bot s)
    (hs_shmem_top s) (hs_str_alloc s) (hs_str_freed s) (hs_rt_alignment_loss s)
    (hs_hal_malloced s) (hs_next_handle s) (hs_halerrno s) (hs_lib_module_id s)
    (hs_rtapi s) (hs_rings s).

Definition set_shmem_bot (x : Z) s : hal_state H :=
  HalState (hs_init s) (hs_version s) (hs_heap s) (hs_gheap s) (hs_objs s)
    (hs_halobjects s) (hs_threads s) (hs_funct_entry_free s) (hs_fentries s) (hs_cells
    s) (hs_lock s) (hs_threads_running s) (hs_base_period s) (hs_exact_base_period s)
    x (hs_shmem_top s) (hs_str_alloc s) (hs_str_freed s) (hs_rt_alignment_loss s)
    (hs_hal_malloced s) (hs_next_handle s) (hs_halerrno s) (hs_lib_module_id s)
    (hs_rtapi s) (hs_rings s).

Definition set_shmem_top (x : Z) s : hal_state H :=
  HalState (hs_init s) (hs_version s) (hs_heap s) (hs_gheap s) (hs_objs s)
    (hs_halobjects s) (hs_threads s) (hs_funct_entry_free s) (hs_fentries s) (hs_cells
    s) (hs_lock s) (hs_threads_running s) (hs_base_period s) (hs_exact_base_period s)
    (hs_shmem_bot s) x (hs_str_alloc s) (hs_str_freed s) (hs_rt_alignment_loss s)
    (hs_hal_malloced s) (hs_next_handle s) (hs_halerrno s) (hs_lib_module_id s)
    (hs_rtapi s) (hs_rings s).

Definition set_str_alloc (x : Z) s : hal_state H :=
  HalState (hs_init s) (hs_version s) (hs_heap s) (hs_gheap s) (hs_objs s)
    (hs_halobjects s) (hs_threads s) (hs_funct_entry_free s) (hs_fentries s) (hs_cells
    s) (hs_lock s) (hs_threads_running s) (hs_base_period s) (hs_exact_base_period s)
    (hs_shmem_bot s) (hs_shmem_top s) x (hs_str_freed s) (hs_rt_alignment_loss s)
    (hs_hal_malloced s) (hs_next_handle s) (hs_halerrno s) (hs_lib_module_id s)
    (hs_rtapi s) (hs_rings s).

Definition set_str_freed (x : Z) s : hal_state H :=
  HalState (hs_init s) (hs_version s) (hs_heap s) (hs_gheap s) (hs_objs s)
    (hs_halobjects s) (hs_threads s) (hs_funct_entry_free s) (hs_fentries s) (hs_cells
    s) (hs_lock s) (hs_threads_running s) (hs_base_period s) (hs_exact_base_period s)
    (hs_shmem_bot s) (hs_shmem_top s) (hs_str_alloc s) x (hs_rt_alignment_loss s)
    (hs_hal_malloced s) (hs_next_handle s) (hs_halerrno s) (hs_lib_module_id s)
    (hs_rtapi s) (hs_rings s).

Definition set_rt_alignment_loss (x : Z) s : hal_state H :=
  HalState (hs_init s) (hs_version s) (hs_heap s) (hs_gheap s) (hs_objs s)
    (hs_halobjects s) (hs_threads s) (hs_funct_entry_free s) (hs_fentries s) (hs_cells
    s) (hs_lock s) (hs_threads_running s) (hs_base_period s) (hs_exact_base_period s)
    (hs_shmem_bot s) (hs_shmem_top s) (hs_str_alloc s) (hs_str_freed s) x
    (hs_hal_malloced s) (hs_next_handle s) (hs_halerrno s) (hs_lib_module_id s)
    (hs_rtapi s) (hs_rings s).

Definition set_hal_malloced (x : Z) s : hal_state H :=
  HalState (hs_init s) (hs_version s) (hs_heap s) (hs_gheap s) (hs_objs s)
    (hs_halobjects s) (hs_threads s) (hs_funct_entry_free s) (hs_fentries s) (hs_cells
    s) (hs_lock s) (hs_threads_running s) (hs_base_period s) (hs_exact_base_period s)
    (hs_shmem_bot s) (hs_shmem_top s) (hs_str_alloc s) (hs_str_freed s)
    (hs_rt_alignment_loss s) x (hs_next_handle s) (hs_halerrno s) (hs_lib_module_id s)
    (hs_rtapi s) (hs_rings s).

Definition set_next_handle (x : Z) s : hal_state H :=
  HalState (hs_init s) (hs_version s) (hs_heap s) (hs_gheap s) (hs_objs s)
    (hs_halobjects s) (hs_threads s) (hs_funct_entry_free s) (hs_fentries s) (hs_cells
    s) (hs_lock s) (hs_threads_running s) (hs_base_period s) (hs_exact_base_period s)
    (hs_shmem_bot s) (hs_shmem_top s) (hs_str_alloc s) (hs_str_freed s)
    (hs_rt_alignment_loss s) (hs_hal_malloced s) x (hs_halerrno s) (hs_lib_module_id
    s) (hs_rtapi s) (hs_rings s).

Definition set_halerrno (x : Z) s : hal_state H :=
  HalState (hs_init s) (hs_version s) (hs_heap s) (hs_gheap s) (hs_objs s)
    (hs_halobjects s) (hs_threads s) (hs_funct_entry_free s) (hs_fentries s) (hs_cells
    s) (hs_lock s) (hs_threads_running s) (hs_base_period s) (hs_exact_base_period s)
    (hs_shmem_bot s) (hs_shmem_top s) (hs_str_alloc s) (hs_str_freed s)
    (hs_rt_alignment_loss s) (hs_hal_malloced s) (hs_next_handle s) x
    (hs_lib_module_id s) (hs_rtapi s) (hs_rings s).

Definition set_lib_module_id (x : Z) s : hal_state H :=
  HalState (hs_init s) (hs_version s) (hs_heap s) (hs_gheap s) (hs_objs s)
    (hs_halobjects s) (hs_threads s) (hs_funct_entry_free s) (hs_fentries s) (hs_cells
    s) (hs_lock s) (hs_threads_running s) (hs_base_period s) (hs_exact_base_period s)
    (hs_shmem_bot s) (hs_shmem_top s) (hs_str_alloc s) (hs_str_freed s)
    (hs_rt_alignment_loss s) (hs_hal_malloced s) (hs_next_handle s) (hs_halerrno s) x
    (hs_rtapi s) (hs_rings s).

Definition set_rtapi (x : rtapi_data) s : hal_state H :=
  HalState (hs_init s) (hs_version s) (hs_heap s) (hs_gheap s) (hs_objs s)
    (hs_halobjects s) (hs_threads s) (hs_funct_entry_free s) (hs_fentries s) (hs_cells
    s) (hs_lock s) (hs_threads_running s) (hs_base_period s) (hs_exact_base_period s)
    (hs_shmem_bot s) (hs_shmem_top s) (hs_str_alloc s) (hs_str_freed s)
    (hs_rt_alignment_loss s) (hs_hal_malloced s) (hs_next_handle s) (hs_halerrno s)
    (hs_lib_module_id s) x (hs_rings s).

Definition set_rings (x : ring_store) s : hal_state H :=
  HalState (hs_init s) (hs_version s) (hs_heap s) (hs_gheap s) (hs_objs s)
    (hs_halobjects s) (hs_threads s) (hs_funct_entry_free s) (hs_fentries s) (hs_cells
    s) (hs_lock s) (hs_threads_running s) (hs_base_period s) (hs_exact_base_period s)
    (hs_shmem_bot s) (hs_shmem_top s) (hs_str_alloc s) (hs_str_freed s)
    (hs_rt_alignment_loss s) (hs_hal_malloced s) (hs_next_handle s) (hs_halerrno s)
    (hs_lib_module_id s) (hs_rtapi s) x.
End Updates.

(** ** Interfaces *)

(** A heap (rtapi_heap.h): offsets of zeroed blocks, [None] for NULL;
    [Crash] where the code is undefined, [Err] for a negative result. *)
Class Allocator (H : Type) := {
  h_init : H;
  h_calloc : H -> Z -> result (option (Z * H));
  h_malloc_aligned : H -> Z -> Z -> result (option (Z * H));
  h_free : H -> Z -> result H;
  h_addmem : H -> Z -> Z -> result H;
}.

(** What the HAL relies on: a new block is none of the blocks in use, and the
    calls the HAL makes do not crash.  [h_room h bot top]: the heap may still
    be given the memory from [bot] to [top], in multiples of the cache line,
    from [bot] upwards.  [h_avail h n]: [n] bytes can be allocated; aligned
    allocation is only defined then. *)
Class AllocatorSpec (H : Type) `{Allocator H} := {
  h_wf : H -> Prop;
  h_live : H -> gset Z;
  h_room : H -> Z -> Z -> Prop;
  h_avail : H -> Z -> Prop;
  h_room_bounds : forall h b t, h_room h b t -> 0 <= b <= t /\ t < 2 ^ 31;
  h_room_shrink : forall h b t t', h_room h b t -> b <= t' <= t -> h_room h b t';
  h_calloc_ok : forall h n, h_wf h -> 0 <= n < 2 ^ 62 ->
    match h_calloc h n with
    | Ok (Some (p, h')) => 0 < p < 2 ^ 31 /\ (p ∉ h_live h) /\ h_live h' = {[p]} ∪ h_live h /\ h_wf h' /\
        (forall b t, h_room h b t -> h_room h' b t)
    | Ok None => True
    | _ => False
    end;
  h_malloc_aligned_ok : forall h n, h_wf h -> 0 <= n < 2 ^ 62 -> h_avail h (n + RTAPI_CACHELINE) ->
    match h_malloc_aligned h n RTAPI_CACHELINE with
    | Ok (Some (p, h')) => 0 < p < 2 ^ 31 /\ (p ∉ h_live h) /\ h_live h' = {[p]} ∪ h_live h /\ h_wf h' /\
        (forall b t, h_room h b t -> h_room h' b t)
    | Ok None => True
    | _ => False
    end;
  h_free_ok : forall h p, h_wf h -> p ∈ h_live h -> exists h', h_free h p = Ok h' /\
    h_live h' = h_live h ∖ {[p]} /\ h_wf h' /\ (forall b t, h_room h b t -> h_room h' b t);
  h_avail_ok : forall h n p h1 h2, h_wf h -> 0 <= n < 2 ^ 62 ->
    h_calloc h n = Ok (Some (p, h1)) -> h_free h1 p = Ok h2 -> h_avail h2 n;
  h_addmem_ok : forall h b t n, h_wf h -> h_room h b t ->
    0 < n -> (RTAPI_CACHELINE | n) -> b + n <= t ->
    match h_addmem h b n with
    | Ok h' => h_live h' = h_live h /\ h_wf h' /\ h_room h' (b + n) t
    | Err _ => True
    | Crash => False
    end;
}.

(** Configuration ([global_data]) and sizes; the alignment of descriptors is
    0 or the cache line, as rtapi_global.h says. *)
Class Platform := {
  sizeof_desc : Z -> Z;              (* by object type *)
  sizeof_funct_entry : Z;
  arena_offset : Z;                  (* SHMOFF(&hal_data->arena) *)
  hal_size : Z;
  hal_descriptor_alignment : Z;
  hal_shmem_base : Z;
  hal_thread_stack_size : Z;
  rtapi_instance : Z;
  sizeof_desc_ok : forall t, 0 <= sizeof_desc t < 2 ^ 30;
  hal_descriptor_alignment_ok : hal_descriptor_alignment = 0 \/ hal_descriptor_alignment = RTAPI_CACHELINE;
}.

(** Code of components: constructors, destructors, userland functions. *)
Class Callbacks (H : Type) := {
  run_ctor : Z -> list string -> M (hal_state H) Z;
  run_dtor : Z -> string -> option Z -> Z -> M (hal_state H) unit;
  run_usrfunct : Z -> list string -> M (hal_state H) Z;
}.

(** ** Primitives of the monad *)
Section Prims.
Context {H : Type}.
Abbreviation HM := (M (hal_state H)).

(** HALFAIL_RC and HALFAIL_NULL: set [_halerrno], return. *)
Definition halfail {A} (rc : Z) : HM A :=
  modify (set_halerrno (- rc)) ≫= fun _ => raise (- rc).

(** A failing call whose result the caller ignores. *)
Definition ignore {A} (m : HM A) : HM unit := fun s =>
  match m s with
  | (Crash, s') => (Crash, s')
  | (_, s') => (Ok tt, s')
  end.

(** A call whose NULL or negative result the caller tests. *)
Definition attempt {A} (m : HM A) : HM (option A) := fun s =>
  match m s with
  | (Crash, s') => (Crash, s')
  | (Ok a, s') => (Ok (Some a), s')
  | (Err _, s') => (Ok None, s')
  end.

(** The cleanup [h] when [m] fails; the failure is passed on. *)
Definition on_error {A} (m : HM A) (h : HM unit) : HM A := fun s =>
  match m s with
  | (Err e, s') => match h s' with (Crash, s2) => (Crash, s2) | (_, s2) => (Err e, s2) end
  | r => r
  end.

(** [hal_data->...]: undefined before the segment is mapped. *)
Definition hal_data : HM (hal_state H) := fun s =>
  if hs_init s then (Ok s, s) else (Crash, s).

Definition CHECK_HALDATA : HM unit := fun s =>
  if hs_init s then (Ok tt, s) else halfail EINVAL s.

Definition CHECK_LOCK (ll : Z) : HM unit :=
  s ← hal_data;
  if Z.land (hs_lock s) ll =? 0 then mret tt else halfail EPERM.

(** NULL strings fail without setting [_halerrno]. *)
Definition CHECK_STR (name : option string) : HM string :=
  match name with Some n => mret n | None => raise (- EINVAL) end.

Definition CHECK_STRLEN (name : option string) (len : Z) : HM string :=
  n ← CHECK_STR name;
  if len <? Z.of_nat (String.length n) then raise (- EINVAL) else mret n.

Definition PCHECK_STRLEN (name : option string) (len : Z) : HM string :=
  match name with
  | None => halfail EINVAL
  | Some n => if len <? Z.of_nat (String.length n) then halfail EINVAL else mret n
  end.

Definition CHECK_NULL {A} (p : option A) : HM A :=
  match p with Some a => mret a | None => halfail EINVAL end.

(** Descriptor accesses; a NULL or dangling offset, or a descriptor of
    another type, is undefined. *)
Definition get_obj (o : Z) : HM hal_obj := fun s =>
  match hs_objs s !! o with Some ob => (Ok ob, s) | None => (Crash, s) end.

Definition put_obj (o : Z) (ob : hal_obj) : HM unit := fun s =>
  (Ok tt, set_objs (<[o := ob]> (hs_objs s)) s).

Definition upd_hdr (o : Z) (f : halhdr -> halhdr) : HM unit :=
  ob ← get_obj o; put_obj o (HalObj (f (o_hdr ob)) (o_body ob)).

Definition set_body (o : Z) (b : hal_body) : HM unit :=
  ob ← get_obj o; put_obj o (HalObj (o_hdr ob) b).

Definition get_pin (o : Z) : HM hal_pin :=
  ob ← get_obj o; match o_body ob with BPin p => mret p | _ => crash end.
Definition get_sig (o : Z) : HM hal_sig :=
  ob ← get_obj o; match o_body ob with BSig x => mret x | _ => crash end.
Definition get_param (o : Z) : HM hal_param :=
  ob ← get_obj o; match o_body ob with BParam x => mret x | _ => crash end.
Definition get_thread (o : Z) : HM hal_thread :=
  ob ← get_obj o; match o_body ob with BThread x => mret x | _ => crash end.
Definition get_funct (o : Z) : HM hal_funct :=
  ob ← get_obj o; match o_body ob with BFunct x => mret x | _ => crash end.
Definition get_comp (o : Z) : HM hal_comp :=
  ob ← get_obj o; match o_body ob with BComp x => mret x | _ => crash end.
Definition get_inst (o : Z) : HM hal_inst :=
  ob ← get_obj o; match o_body ob with BInst x => mret x | _ => crash end.
Definition get_vtable (o : Z) : HM hal_vtable :=
  ob ← get_obj o; match o_body ob with BVtable x => mret x | _ => crash end.
Definition get_group (o : Z) : HM hal_group :=
  ob ← get_obj o; match o_body ob with BGroup x => mret x | _ => crash end.
Definition get_ring (o : Z) : HM hal_ring :=
  ob ← get_obj o; match o_body ob with BRing x => mret x | _ => crash end.
Definition get_plug (o : Z) : HM hal_plug :=
  ob ← get_obj o; match o_body ob with BPlug x => mret x | _ => crash end.
Definition get_member (o : Z) : HM hal_member :=
  ob ← get_obj o; match o_body ob with BMember x => mret x | _ => crash end.

(** Calls into the runtime. *)
Definition runtime {A} (m : M rtapi_data A) : HM A := fun s =>
  let '(r, d) := m (hs_rtapi s) in (r, set_rtapi d s).

Definition shmem {A} (m : M shm_world A) : HM A := fun s =>
  let '(r, w) := m (rst_shm (hs_rings s)) in (r, set_rings (set_rst_shm w (hs_rings s)) s).

(** A handle: [rtapi_next_handle] increments a counter. *)
Definition rtapi_next_handle : HM Z :=
  s ← get; let n := s32 (hs_next_handle s + 1) in
  modify (set_next_handle n) ≫= fun _ => mret n.
End Prims.

(** ** printf-style names

    A name that is passed on as a format: ["%%"] prints a percent sign, any
    other conversion has no argument to print ([None], undefined). *)
Definition percent : Ascii.ascii := Ascii.ascii_of_nat 37.

Fixpoint fmt_noargs (s : string) : option string :=
  match s with
  | EmptyString => Some EmptyString
  | String c s' =>
      if Ascii.eqb c percent then
        match s' with
        | String c' s'' => if Ascii.eqb c' percent then String c <$> fmt_noargs s'' else None
        | EmptyString => None
        end
      else String c <$> fmt_noargs s'
  end.

(** [vsnprintf(buf, size, ...)]: the length of the whole string, and the
    part of it that fits. *)
Definition vsnprintf (size : Z) (s : string) : Z * string :=
  (Z.of_nat (String.length s), String.substring 0 (Z.to_nat (size - 1)) s).

(** fmt_ap of hal_misc.c; the test lets a string through that is one
    character too long for the buffer. *)
Definition fmt_ap {H} (size : Z) (s : string) : M (hal_state H) string :=
  let '(sz, buf) := vsnprintf size s in
  if size <? sz then halfail E2BIG else mret buf.
