(* ===== verification/RingUniform.v ===== *)
(** * Rings of records of one size

    A ring that stores records of one size wastes less than one record at its
    end, so that it is known when a record is admitted. *)
From S2P Require Import Prelude Mem Ring.
Import Ring.

Lemma lin_uniform m o q e a : lin m o q e -> Forall (fun d => rec_size d = a) q -> e = o + Z.of_nat (length q) * a.
Proof.
  intros Hl Hq. revert o Hl. induction Hq as [| d q Hd Hq IH]; intros o Hl; cbn [lin] in Hl; [cbn; lia |].
  destruct Hl as (_ & _ & _ & Hl). rewrite (IH _ Hl), Hd. cbn [length]. lia.
Qed.

(** All records take [a] bytes, and less than [a] bytes are wasted. *)
Definition uniform (a : Z) (r : ringbuffer) (q : list (list Z)) : Prop :=
  rep r q /\ Forall (fun d => rec_size d = a) q /\
  (tail r < rh_head (rb_header r) -> rh_size (rb_header r) < rh_head (rb_header r) - tail r + (Z.of_nat (length q) + 1) * a).

(** The part of the ring that is used. *)
Lemma uniform_used a r q : uniform a r q ->
  if tail r <? rh_head (rb_header r) then rh_head (rb_header r) - tail r <= rh_size (rb_header r) - Z.of_nat (length q) * a
  else tail r - rh_head (rb_header r) = Z.of_nat (length q) * a.
Proof.
  intros (Hr & Hq & _). destruct (rep_q _ _ Hr) as [[Hle Hl] | (Hlt & q1 & q2 & e & -> & H1 & H2 & He)].
  - rewrite (proj2 (Z.ltb_ge _ _)) by done. rewrite (lin_uniform _ _ _ _ a Hl Hq). lia.
  - rewrite (proj2 (Z.ltb_lt _ _)) by done. apply Forall_app in Hq as [Hq1 Hq2].
    pose proof (lin_uniform _ _ _ _ a H1 Hq1). pose proof (lin_uniform _ _ _ _ a H2 Hq2). rewrite length_app.
    assert (e <= rh_size (rb_header r)) by (destruct He; lia). lia.
Qed.

Lemma uniform_empty a r : rep r [] -> uniform a r [].
Proof. intros Hr. split; [done |]. split; [constructor |]. rewrite (proj2 (rep_empty r [] Hr) eq_refl). lia. Qed.

(** Two records more than are stored leave room for one. *)
Lemma uniform_admits a r q d : uniform a r q -> rec_size d = a -> 0 < a -> Z.of_nat (length d) + 12 < 2 ^ 31 ->
  (Z.of_nat (length q) + 2) * a < rh_size (rb_header r) -> exists ptr, record_write_begin r (Z.of_nat (length d)) = inr ptr.
Proof.
  intros Hu Hd Ha Hn Hroom. pose proof Hu as (Hr & Hq & Ht). pose proof (uniform_used a r q Hu) as Hused.
  pose proof (write_begin_spec r q d Hr Hn) as Hw. cbv zeta in Hw. rewrite Hd in Hw. pose proof (rep_head _ _ Hr). pose proof (rep_tail _ _ Hr).
  destruct (record_write_begin r _) as [code | ptr]; [| by eexists]. exfalso.
  destruct (Z.ltb_spec (tail r) (rh_head (rb_header r))); [specialize (Ht ltac:(lia)) |]; destruct Hw as [[-> Hw] | (-> & Hw1 & Hw)]; nia.
Qed.

(** What a write does to the indices. *)
Lemma record_write_indices r q d ptr : rep r q -> Z.of_nat (length d) + 12 < 2 ^ 31 ->
  record_write_begin r (Z.of_nat (length d)) = inr ptr -> let r' := snd (record_write r d (Z.of_nat (length d))) in
  rh_head (rb_header r') = rh_head (rb_header r) /\ rh_size (rb_header r') = rh_size (rb_header r) /\
  tail r' = ((if ptr =? 4 then 0 else tail r) + rec_size d) mod rh_size (rb_header r).
Proof.
  intros H Hn Hp. pose proof (write_begin_spec r q d H Hn) as Hw. cbv zeta in Hw. unfold record_write. rewrite Hp in *.
  rewrite Nat2Z.id, firstn_all. pose proof H as [Hs Hs8 Hh Hh8 Ht Ht8 Hm Hr]. pose proof (cache_align_ge _ Hs) as Htr.
  destruct (rec_size_spec d ltac:(lia)) as [Ha Ha8].
  assert (tail (set_mem r (write_bytes (rb_mem r) ptr d)) = tail r) as Ht0.
  { apply (tail_set_mem r). apply write_bytes_agree. left. destruct Hw as [(-> & ?) | (-> & ?)]; lia. }
  destruct (write_end_effect (set_mem r (write_bytes (rb_mem r) ptr d)) ptr (Z.of_nat (length d)) (rec_size d)) as (m' & -> & _ & Htl & _);
    rewrite ?Ht0; [done | done | done | done | by apply mem_ok_write_bytes | lia | | lia | |].
  { unfold rec_size, sizeof_rrecsize. by rewrite (wrapu_small 32 (_ + 4)) by lia. }
  { destruct Hw as [(-> & ?) | (-> & ?)]; case_match; zb; simpl; lia. }
  rewrite Ht0 in Htl. split; [done |]. split; [done |]. exact Htl.
Qed.

Lemma uniform_write a r q d : uniform a r q -> rec_size d = a -> 0 < a -> Forall byte d -> Z.of_nat (length d) + 12 < 2 ^ 31 ->
  (Z.of_nat (length q) + 2) * a < rh_size (rb_header r) ->
  exists r', record_write r d (Z.of_nat (length d)) = (0, r') /\ uniform a r' (q ++ [d]) /\ rh_size (rb_header r') = rh_size (rb_header r).
Proof.
  intros Hu Hd Ha Hb Hn Hroom. destruct (uniform_admits a r q d Hu Hd Ha Hn Hroom) as [ptr Hp]. pose proof Hu as (Hr & Hq & Ht).
  pose proof (uniform_used a r q Hu) as Hused.
  destruct (record_write_indices r q d ptr Hr Hn Hp) as (Hh & Hs & Htl). pose proof (record_write_rep r q d Hr Hb Hn) as Hrep.
  pose proof (write_begin_spec r q d Hr Hn) as Hw. cbv zeta in Hw. rewrite Hp, Hd in Hw.
  assert (record_write r d (Z.of_nat (length d)) = (0, snd (record_write r d (Z.of_nat (length d))))) as E.
  { unfold record_write. rewrite Hp. unfold record_write_end. done. }
  rewrite E in Hrep |- *. eexists. split; [reflexivity |].
  destruct Hrep as [[_ Hr'] | [[? | ?] _]]; [| done | done]. split; [| done]. split; [done |]. split; [apply Forall_app; split; [done | by constructor] |].
  rewrite Hh, Hs, Htl, Hd, length_app. cbn [length]. pose proof (rep_head _ _ Hr). pose proof (rep_tail _ _ Hr).
  destruct Hw as [(-> & H1 & H2 & H3) | (-> & H1 & H2 & H3)].
  - assert ((if tail r + 4 =? 4 then 0 else tail r) = tail r) as -> by (case_match; zb; lia).
    destruct (decide (tail r + a = rh_size (rb_header r))) as [Ew | Ew].
    + rewrite Ew, Z.mod_same by lia. destruct (Z.ltb_spec (tail r) (rh_head (rb_header r))); [lia |]. nia.
    + rewrite Z.mod_small by lia. destruct (Z.ltb_spec (tail r) (rh_head (rb_header r))); [specialize (Ht ltac:(lia)); nia | nia].
  - cbn [Z.eqb Pos.eqb]. rewrite Z.add_0_l, Z.mod_small by lia. rewrite (proj2 (Z.ltb_ge _ _)) in Hused by lia. nia.
Qed.

(** A wrap mark at the head means that the first record lies below the tail. *)
Lemma mark_at_head r d q : rep r (d :: q) -> load32 (rb_mem r) (rh_head (rb_header r)) = 2 ^ 32 - 1 -> rec_size d <= tail r.
Proof.
  intros [Hs _ Hh _ Ht _ _ [[Hle Hl] | (Hlt & q1 & q2 & e & E & H1 & H2 & He)]] Hm.
  - destruct Hl as (Hd & _ & Hn & _). lia.
  - destruct q1 as [| d1 q1]; cbn in E, H1; simplify_eq.
    + cbn in H2. destruct H2 as (_ & _ & _ & Hl). pose proof (lin_le _ _ _ _ Hl). lia.
    + destruct H1 as (Hd & _ & Hn & _). lia.
Qed.

Lemma uniform_shift a r d q : uniform a r (d :: q) -> 0 < a ->
  exists r', record_shift r = Some (0, r') /\ uniform a r' q /\ rh_size (rb_header r') = rh_size (rb_header r) /\ rb_mem r' = rb_mem r.
Proof.
  intros Hu Ha. pose proof Hu as (Hr & Hq & Ht). pose proof (uniform_used a r _ Hu) as Hused. apply Forall_cons in Hq as [Hd Hq']. subst a.
  destruct (record_shift_rep r d q Hr) as (r' & Hsh & Hr' & Hs' & _ & Hm'). exists r'. split; [done |]. split; [| by split].
  split; [done |]. split; [done |].
  pose proof (rep_head _ _ Hr) as Hh. pose proof (rep_tail _ _ Hr) as Htl.
  destruct (ring_shift_at r d q Hr) as (o & Ho & Hos & Hoff & Hhd & _). cbv zeta in *.
  unfold record_shift in Hsh. rewrite Hoff, (proj2 (Z.ltb_ge _ _)) in Hsh by lia.
  assert (rh_head (rb_header r') = (o + rec_size d) mod rh_size (rb_header r) /\ tail r' = tail r) as [-> ->].
  { rewrite (wrapu_small 32) in Hsh by (pose proof (rep_size _ _ Hr); lia). injection Hsh as <-. done. }
  rewrite Hs'. cbn [length] in *. destruct Ho as [-> | [-> Hmark]].
  - destruct (Z.ltb_spec (tail r) (rh_head (rb_header r))).
    + specialize (Ht ltac:(lia)). destruct (Z.lt_ge_cases (rh_head (rb_header r) + rec_size d) (rh_size (rb_header r))).
      * rewrite Z.mod_small by lia. nia.
      * intros Hlt. assert (rh_head (rb_header r) + rec_size d = rh_size (rb_header r)) as E; [| rewrite E, Z.mod_same in Hlt by lia; lia]. lia.
    + rewrite Z.mod_small by nia. nia.
  - pose proof (mark_at_head r d q Hr Hmark). rewrite Z.add_0_l, Z.mod_small by lia. lia.
Qed.
