(* ===== verification/Delayline.v ===== *)
(** * Delay lines (modules/managed/components/delayline/src/delayline.c)

    A funct samples the input pins into a record ring, with the time at which
    the sample is due; a second funct takes the samples that are due from the
    ring and sets the output pins.  Samples are put into the memory of the
    ring directly, between [record_write_begin] and [record_write_end].
    [None] is the endless loop of the ring functions. *)
From S2P Require Import Prelude Mem Double Ring HalData.
From Stdlib Require Import Ascii.
Import Ring.

Module Delayline.

Record hal_delayline_t := Delay {
  enable : bool;                 (* pins *)
  abort : bool;
  pins_in : list hal_data_u;
  pins_out : list hal_data_u;
  pin_delay : Z;                 (* u32 *)
  write_fail : Z;
  read_fail : Z;
  too_old : Z;
  pintype : list Z;
  output_ts : Z;                 (* u64 *)
  input_ts : Z;
  max_delay : Z;                 (* unsigned *)
  delay : Z;
  sample_size : Z;
  last_abort : bool;
}.

(** The state of an instance: its data and its ring. *)
Definition line : Type := hal_delayline_t * ringbuffer.

(** The switch over the type of a pin: [src] is copied to [dst]. *)
Definition copy_value (type : Z) (dst src : hal_data_u) : hal_data_u :=
  if type =? HAL_BIT then set_bit_value dst (get_bit_value src)
  else if type =? HAL_FLOAT then set_float_value dst (get_float_value src)
  else if type =? HAL_S32 then set_s32_value dst (get_s32_value src)
  else if type =? HAL_U32 then set_u32_value dst (get_u32_value src)
  else if type =? HAL_S64 then set_s64_value dst (get_s64_value src)
  else if type =? HAL_U64 then set_u64_value dst (get_u64_value src)
  else dst.

(** The loop over the pins. *)
Fixpoint copy_values (types : list Z) (dst src : list hal_data_u) : list hal_data_u :=
  match types, dst, src with
  | t :: types, d :: dst, s :: src => copy_value t d s :: copy_values types dst src
  | _, _, _ => dst
  end.

(** ** Samples in memory: a timestamp and values of 8 bytes each *)
Definition word_bytes (v : Z) : list Z := map (fun i => v / 2 ^ (8 * Z.of_nat i) mod 256) (seq 0 8).
Definition bytes_word (l : list Z) : Z := foldr (fun b acc => b + 256 * acc) 0 l.
Definition load64 (m : mem) (o : Z) : Z := bytes_word (read_bytes m o 8).
Definition store64 (m : mem) (o v : Z) : mem := write_bytes m o (word_bytes v).

Fixpoint load_values (m : mem) (o : Z) (n : nat) : list hal_data_u :=
  match n with O => [] | S n => load64 m o :: load_values m (o + 8) n end.

Fixpoint store_values (types : list Z) (m : mem) (o : Z) (src : list hal_data_u) : mem :=
  match types, src with
  | t :: types, s :: src => store_values types (store64 m o (copy_value t (load64 m o) s)) (o + 8) src
  | _, _ => m
  end.

(** [sizeof(sample_t)] is that of the timestamp. *)
Definition sizeof_sample (n : nat) : Z := 8 + Z.of_nat n * 8.

(** ** The two functs *)

(** The delay has been made longer: samples are due later. *)
Definition longer (hd : hal_delayline_t) : hal_delayline_t :=
  if u32 (input_ts hd - output_ts hd) <? pin_delay hd then
    let d := if max_delay hd <? pin_delay hd then max_delay hd else pin_delay hd in
    {| hd with delay := d; input_ts := u64 (output_ts hd + d) |}
  else hd.

Definition count_write_fail (hd : hal_delayline_t) : hal_delayline_t := {| hd with write_fail := u32 (write_fail hd + 1) |}.

Definition write_sample_to_ring (x : line) : line :=
  let '(hd, rb) := x in
  let hd := longer hd in
  let '(hd, rb) :=
    if negb (enable hd) then ({| hd with pins_out := copy_values (pintype hd) (pins_out hd) (pins_in hd) |}, rb)
    else
      match record_write_begin rb (sample_size hd) with
      | inl _ => (count_write_fail hd, rb)
      | inr s =>
          let m := store64 (rb_mem rb) s (input_ts hd) in
          let m := store_values (pintype hd) m (s + 8) (pins_in hd) in
          let '(r, rb) := record_write_end (set_mem rb m) s (sample_size hd) in
          (if r =? 0 then hd else count_write_fail hd, rb)
      end in
  ({| hd with input_ts := u64 (input_ts hd + 1) |}, rb).

Definition apply (m : mem) (s : Z) (hd : hal_delayline_t) : hal_delayline_t :=
  {| hd with pins_out := copy_values (pintype hd) (pins_out hd) (load_values m (s + 8) (length (pintype hd))) |}.

(** The delay has been made shorter. *)
Definition shorter (hd : hal_delayline_t) : hal_delayline_t :=
  if pin_delay hd <? u32 (input_ts hd - output_ts hd) then
    {| hd with delay := pin_delay hd; input_ts := u64 (input_ts hd - pin_delay hd) |}
  else hd.

(** The loop over the samples that are due. *)
Fixpoint read_due (fuel : nat) (x : line) : option line :=
  match fuel with
  | O => None
  | S fuel =>
      let '(hd, rb) := x in
      match record_read rb with
      | None => None
      | Some (inl _) => Some (hd, rb)
      | Some (inr (s, _)) =>
          let ts := load64 (rb_mem rb) s in
          if output_ts hd <? ts then Some (hd, rb)
          else
            let hd := if ts =? output_ts hd then apply (rb_mem rb) s hd else {| hd with too_old := u32 (too_old hd + 1) |} in
            '(_, rb) ← record_shift rb;
            read_due fuel (hd, rb)
      end
  end.

Definition read_sample_from_ring (x : line) : option line :=
  let '(hd, rb) := x in
  rb ← (if abort hd && xorb (abort hd) (last_abort hd) then snd <$> record_flush_reader (S (Z.to_nat (rh_size (rb_header rb)))) rb 0 else Some rb);
  let hd := shorter hd in
  '(hd, rb) ← read_due (S (Z.to_nat (rh_size (rb_header rb)))) (hd, rb);
  Some ({| hd with output_ts := u64 (output_ts hd + 1); last_abort := abort hd |}, rb).

(** ** Setup *)

(** The type of a pin by its character; the length of the specification. *)
Definition pin_type (c : Ascii.ascii) : option Z :=
  if Ascii.eqb c "b"%char || Ascii.eqb c "B"%char then Some HAL_BIT
  else if Ascii.eqb c "f"%char || Ascii.eqb c "F"%char then Some HAL_FLOAT
  else if Ascii.eqb c "s"%char then Some HAL_S32
  else if Ascii.eqb c "u"%char then Some HAL_U32
  else if Ascii.eqb c "S"%char then Some HAL_S64
  else if Ascii.eqb c "U"%char then Some HAL_U64
  else None.

Fixpoint return_instance_samples (s : string) : Z :=
  match s with
  | EmptyString => 0
  | String c s =>
      match pin_type c with
      | None => -1
      | Some _ => let n := return_instance_samples s in if n <? 0 then n else n + 1
      end
  end.

(** The size of the ring: the room of [max_delay] samples and a fifth more,
    computed in floating point. *)
Definition RB_HEADROOM : double := float_of_bits 0x3ff3333333333333.     (* 1.2 *)
Definition rbsize (sample_size max_delay : Z) : option Z :=
  dbl_to_sint 65 (dmul (dbl_of_Z (u64 (record_space sample_size * max_delay))) RB_HEADROOM).

End Delayline.
