(* ===== verification/DelaylineTheorems.v ===== *)
(** * Theorems about delay lines

    Samples come out of the ring as they went in; with a constant delay of
    [d] periods the outputs are the inputs of [d] periods before. *)
From S2P Require Import Prelude Mem Double Ring RingUniform HalData Delayline.
Import Ring Delayline.

#[local] Arguments word_bytes : simpl never.

(** ** Words in memory *)
Lemma bytes_word_from v n k : 0 <= v -> bytes_word (map (fun i => v / 2 ^ (8 * Z.of_nat i) mod 256) (seq k n)) = (v / 2 ^ (8 * Z.of_nat k)) mod 2 ^ (8 * Z.of_nat n).
Proof.
  intros Hv. revert k. induction n as [| n IH]; intros k; cbn [seq map bytes_word foldr]; [by rewrite Z.mod_1_r |].
  fold (bytes_word (map (fun i => v / 2 ^ (8 * Z.of_nat i) mod 256) (seq (S k) n))). rewrite IH.
  replace (8 * Z.of_nat (S k)) with (8 * Z.of_nat k + 8) by lia. rewrite Z.pow_add_r, <- Z.div_div by lia.
  replace (8 * Z.of_nat (S n)) with (8 + 8 * Z.of_nat n) by lia. rewrite (Z.pow_add_r 2 8) by lia. change (2 ^ 8) with 256.
  rewrite Z.rem_mul_r; [done | lia |]. apply Z.pow_pos_nonneg; lia.
Qed.

Lemma bytes_word_bytes v : 0 <= v < 2 ^ 64 -> bytes_word (word_bytes v) = v.
Proof.
  intros Hv. unfold word_bytes. rewrite bytes_word_from by lia. rewrite Z.mul_0_r, Z.pow_0_r, Z.div_1_r. by apply Z.mod_small.
Qed.

Lemma word_bytes_length v : length (word_bytes v) = 8%nat.
Proof. done. Qed.

Lemma word_bytes_ok v : Forall byte (word_bytes v).
Proof. unfold word_bytes. apply Forall_forall. intros b [i [-> _]]%list_elem_of_fmap. apply Z.mod_pos_bound. lia. Qed.

Lemma bytes_word_range l : Forall byte l -> 0 <= bytes_word l < 256 ^ Z.of_nat (length l).
Proof.
  induction 1 as [| b l Hb Hl IH]; cbn [bytes_word foldr length]; [done |]. fold (bytes_word l).
  rewrite Nat2Z.inj_succ, Z.pow_succ_r by lia. unfold byte in Hb. lia.
Qed.

Lemma load64_range m o : mem_ok m -> 0 <= load64 m o < 2 ^ 64.
Proof.
  intros Hm. unfold load64. pose proof (bytes_word_range (read_bytes m o 8)) as H. rewrite read_bytes_length in H. apply H.
  clear H. generalize 8%nat as n. intros n. revert o. induction n as [| n IH]; intros o; cbn; constructor; auto.
Qed.

(** ** Values *)
Lemma put_low_range w u v : 0 <= w <= 64 -> 0 <= u < 2 ^ 64 -> 0 <= put_low w u v < 2 ^ 64.
Proof.
  intros Hw Hu. unfold put_low. assert (0 < 2 ^ w) by (apply Z.pow_pos_nonneg; lia).
  pose proof (Z.mod_pos_bound u (2 ^ w) ltac:(lia)). pose proof (Z.mod_pos_bound v (2 ^ w) ltac:(lia)).
  pose proof (Z.mod_le u (2 ^ w) ltac:(lia) ltac:(lia)).
  assert (2 ^ 64 = 2 ^ w * 2 ^ (64 - w)) as E by (rewrite <- Z.pow_add_r by lia; f_equal; lia).
  pose proof (Z.div_mod u (2 ^ w) ltac:(lia)). assert (u / 2 ^ w < 2 ^ (64 - w)) by (apply Z.div_lt_upper_bound; lia). nia.
Qed.

Lemma put_low_congr w u v v' : v mod 2 ^ w = v' mod 2 ^ w -> put_low w u v = put_low w u v'.
Proof. intros E. unfold put_low. by rewrite E. Qed.

Lemma put_low_put_low w u v v' : 0 <= w -> put_low w (put_low w u v) v' = put_low w u v'.
Proof.
  intros Hw. pose proof (get_put_low w u v Hw) as H. unfold get_low in H. unfold put_low at 1. rewrite H. unfold put_low. lia.
Qed.

Ltac by_type := unfold copy_value; repeat match goal with |- context [if ?c then _ else _] => destruct c end;
  unfold set_bit_value, set_float_value, set_s32_value, set_u32_value, set_s64_value, set_u64_value,
    get_bit_value, get_float_value, get_s32_value, get_u32_value, get_s64_value, get_u64_value.

Lemma copy_value_range t u v : 0 <= u < 2 ^ 64 -> 0 <= copy_value t u v < 2 ^ 64.
Proof. intros Hu. by_type; try (apply put_low_range; [lia | done]); done. Qed.

(** A copy of a copy is a copy; the last copy wins. *)
Lemma copy_copy t d o v : copy_value t d (copy_value t o v) = copy_value t d v.
Proof. by_type; try done; apply put_low_congr; rewrite get_put_low by lia; rewrite ?wraps_mod, ?Zmod_mod, ?wraps_mod by lia; done. Qed.

Lemma copy_over t d v v' : copy_value t (copy_value t d v) v' = copy_value t d v'.
Proof. by_type; try done; by rewrite put_low_put_low. Qed.

Lemma copy_values_over types d v v' : length v = length types -> length v' = length types ->
  copy_values types (copy_values types d v) v' = copy_values types d v'.
Proof.
  revert d v v'. induction types as [| t types IH]; intros [| x d] [| y v] [| z v'] Hl Hl'; cbn in *; try done.
  rewrite copy_over, IH by lia. done.
Qed.

(** ** Samples *)
Definition word (v : Z) : Prop := 0 <= v < 2 ^ 64.
Definition encode (ts : Z) (ws : list Z) : list Z := word_bytes ts ++ concat (map word_bytes ws).

Lemma sample_bytes_length ts ws : Z.of_nat (length (encode ts ws)) = sizeof_sample (length ws).
Proof.
  unfold encode, sizeof_sample. rewrite length_app, word_bytes_length. induction ws as [| w ws IH]; cbn [map concat length]; [done |].
  rewrite length_app, word_bytes_length. lia.
Qed.

Lemma encode_ok ts ws : Forall byte (encode ts ws).
Proof. unfold encode. apply Forall_app. split; [apply word_bytes_ok |]. induction ws as [| w ws IH]; cbn [map concat]; [constructor |]. apply Forall_app. split; [apply word_bytes_ok | done]. Qed.

Lemma read_word m o v rest : word v -> read_bytes m o (8 + length rest) = word_bytes v ++ rest ->
  load64 m o = v /\ read_bytes m (o + 8) (length rest) = rest.
Proof.
  intros Hv H. rewrite read_bytes_app in H. apply app_inj_1 in H as [H1 H2]; [| by rewrite read_bytes_length].
  split; [| exact H2]. unfold load64. rewrite H1. by apply bytes_word_bytes.
Qed.

(** A sample is read as it was written. *)
Lemma read_sample m o ts ws : word ts -> Forall word ws -> read_bytes m o (length (encode ts ws)) = encode ts ws ->
  load64 m o = ts /\ load_values m (o + 8) (length ws) = ws.
Proof.
  intros Ht Hws H. unfold encode in H. rewrite length_app, word_bytes_length in H. apply read_word in H as [-> H]; [| done]. split; [done |].
  generalize dependent (o + 8). clear o Ht. induction Hws as [| w ws Hw Hws IH]; intros o H; cbn [length load_values]; [done |].
  cbn [map concat] in H. rewrite length_app, word_bytes_length in H. apply read_word in H as [-> H]; [| done]. f_equal. by apply IH.
Qed.

(** What is put into memory shows the same values, whatever was there. *)
Lemma store_values_bytes types src m o : mem_ok m -> length src = length types ->
  exists ws, store_values types m o src = write_bytes m o (concat (map word_bytes ws)) /\ length ws = length types /\ Forall word ws /\
    forall dst, copy_values types dst ws = copy_values types dst src.
Proof.
  revert src m o. induction types as [| t types IH]; intros [| s src] m o Hm Hl; try done; cbn [store_values].
  { exists []. done. }
  pose proof (load64_range m o Hm) as Hw.
  assert (mem_ok (store64 m o (copy_value t (load64 m o) s))) as Hm' by (by apply mem_ok_write_bytes).
  destruct (IH src _ (o + 8) Hm' ltac:(cbn in Hl; lia)) as (ws & E & Hn & Hf & Hc).
  exists (copy_value t (load64 m o) s :: ws). split_and!.
  - rewrite E. cbn [map concat]. by rewrite write_bytes_app.
  - cbn. lia.
  - constructor; [by apply copy_value_range | done].
  - intros [| d dst]; cbn; [done |]. by rewrite copy_copy, Hc.
Qed.

Lemma deposit_bytes types src m o ts : mem_ok m -> length src = length types ->
  exists ws, store_values types (store64 m o ts) (o + 8) src = write_bytes m o (encode ts ws) /\ length ws = length types /\ Forall word ws /\
    forall dst, copy_values types dst ws = copy_values types dst src.
Proof.
  intros Hm Hl. destruct (store_values_bytes types src (store64 m o ts) (o + 8)) as (ws & E & Hr); [by apply mem_ok_write_bytes | done |].
  exists ws. split; [| done]. unfold encode. by rewrite write_bytes_app.
Qed.

(** ** The ring of a line *)

(** The bytes of a record hold the sample [x] that is due at [ts]. *)
Definition holds (types : list Z) (bytes : list Z) (ts : Z) (x : list Z) : Prop :=
  exists ws, bytes = encode ts ws /\ word ts /\ length ws = length types /\ Forall word ws /\ forall dst, copy_values types dst ws = copy_values types dst x.
Fixpoint queued (types : list Z) (ts : Z) (q : list (list Z)) (p : list (list Z)) : Prop :=
  match q, p with
  | [], [] => True
  | b :: q, x :: p => holds types b ts x /\ queued types (ts + 1) q p
  | _, _ => False
  end.

Lemma queued_length types ts q p : queued types ts q p -> length q = length p.
Proof. revert ts p. induction q as [| b q IH]; intros ts [| x p]; cbn; try done. intros [_ H]. f_equal. by eapply IH. Qed.

Lemma queued_snoc types ts q p b x : queued types ts q p -> holds types b (ts + Z.of_nat (length p)) x -> queued types ts (q ++ [b]) (p ++ [x]).
Proof.
  revert ts p. induction q as [| b0 q IH]; intros ts [| x0 p]; cbn [queued app length]; try done.
  - intros _ H. rewrite Z.add_0_r in H. done.
  - intros [H1 H2] H. split; [done |]. apply IH; [done |]. by replace (ts + 1 + Z.of_nat (length p)) with (ts + Z.of_nat (S (length p))) by lia.
Qed.

(** The room of one record. *)
Definition room (types : list Z) : Z := record_space (sizeof_sample (length types)).

Lemma size_room types b : Z.of_nat (length types) <= 2 ^ 20 -> Z.of_nat (length b) = sizeof_sample (length types) -> rec_size b = room types.
Proof.
  intros Hn E. unfold rec_size, room, record_space, sizeof_rrecsize. rewrite E, wrapu_small; [done |]. unfold sizeof_sample. lia.
Qed.

(** The samples [p] are waiting in a line with a delay of [d] periods. *)
Record waiting (d : nat) (p : list (list Z)) (hd : hal_delayline_t) (rb : ringbuffer) : Prop := {
  wt_ring : exists q, uniform (room (pintype hd)) rb q /\ queued (pintype hd) (output_ts hd + Z.of_nat d - Z.of_nat (length p)) q p;
  wt_len : (length p <= d)%nat;
  wt_delay : Z.of_nat d = Z.min (pin_delay hd) (max_delay hd);
  wt_in : input_ts hd = output_ts hd \/ (max_delay hd < pin_delay hd /\ input_ts hd = output_ts hd + max_delay hd);
  wt_enable : enable hd = true;
  wt_abort : abort hd = false;
  wt_size : sample_size hd = sizeof_sample (length (pintype hd));
  wt_pin : 0 <= pin_delay hd < 2 ^ 32;
  wt_max : 0 <= max_delay hd < 2 ^ 31;
  wt_types : Z.of_nat (length (pintype hd)) <= 2 ^ 20;
  wt_room : (Z.of_nat d + 2) * room (pintype hd) < rh_size (rb_header rb);
  wt_now : 0 <= output_ts hd;
}.

Lemma room_pos types : Z.of_nat (length types) <= 2 ^ 20 -> 0 < room types.
Proof.
  intros Hn. unfold room, record_space, sizeof_rrecsize. rewrite wrapu_small by (unfold sizeof_sample; lia).
  destruct (size_aligned_spec (sizeof_sample (length types) + 4)) as [? _]; unfold sizeof_sample in *; lia.
Qed.

(** The sampling side: whatever the delay was, the sample is due [d] periods
    from now. *)
Lemma longer_due d p hd rb x : waiting d p hd rb -> output_ts hd + 2 ^ 32 < 2 ^ 64 ->
  exists dl, longer {| hd with pins_in := x |} = {| hd with pins_in := x; delay := dl; input_ts := output_ts hd + Z.of_nat d |}.
Proof.
  intros [_ _ Hd Hin _ _ _ Hp Hm _ _ Hnow] Ht. unfold longer. cbn [input_ts output_ts pin_delay max_delay].
  assert (0 <= input_ts hd - output_ts hd < 2 ^ 32) by lia. rewrite wrapu_small by done.
  destruct (Z.ltb_spec (input_ts hd - output_ts hd) (pin_delay hd)).
  - exists (Z.of_nat d). cbn. assert ((if max_delay hd <? pin_delay hd then max_delay hd else pin_delay hd) = Z.of_nat d) as -> by (case_match; zb; lia).
    rewrite wrapu_small by lia. done.
  - exists (delay hd). replace (output_ts hd + Z.of_nat d) with (input_ts hd) by lia. done.
Qed.

Lemma write_sample d p hd rb x : waiting d p hd rb -> output_ts hd + 2 ^ 32 < 2 ^ 64 -> length x = length (pintype hd) ->
  exists dl rb' q, write_sample_to_ring ({| hd with pins_in := x |}, rb) =
      ({| hd with pins_in := x; delay := dl; input_ts := output_ts hd + Z.of_nat d + 1 |}, rb') /\
    rh_size (rb_header rb') = rh_size (rb_header rb) /\ uniform (room (pintype hd)) rb' q /\
    queued (pintype hd) (output_ts hd + Z.of_nat d - Z.of_nat (length p)) q (p ++ [x]).
Proof.
  intros Hw Ht Hx. destruct (longer_due d p hd rb x Hw Ht) as [dl Hl]. pose proof Hw as [(q & Hu & Hq) Hlen Hd Hin He Ha Hsz Hp Hm Hty Hroom Hnow].
  exists dl. unfold write_sample_to_ring. rewrite Hl. cbn [enable sample_size pintype pins_in input_ts]. rewrite He, Hsz. cbn [negb].
  pose proof (room_pos _ Hty) as Hpos.
  assert ((Z.of_nat (length q) + 2) * room (pintype hd) < rh_size (rb_header rb)) as Hr2 by (rewrite (queued_length _ _ _ _ Hq); nia).
  assert (sizeof_sample (length (pintype hd)) + 12 < 2 ^ 31) as Hsmall by (unfold sizeof_sample; lia).
  pose (b0 := replicate (8 + length (pintype hd) * 8) 0).
  assert (Z.of_nat (length b0) = sizeof_sample (length (pintype hd))) as Hb0 by (unfold b0, sizeof_sample; rewrite length_replicate; lia).
  destruct (uniform_admits _ _ _ b0 Hu (size_room _ _ Hty Hb0) Hpos ltac:(by rewrite Hb0) Hr2) as [ptr Hptr]. rewrite Hb0 in Hptr. rewrite Hptr.
  destruct (deposit_bytes (pintype hd) x (rb_mem rb) ptr (output_ts hd + Z.of_nat d)) as (ws & Hdep & Hwl & Hww & Hcp); [apply (proj1 Hu) | done |].
  rewrite Hdep.
  assert (Z.of_nat (length (encode (output_ts hd + Z.of_nat d) ws)) = sizeof_sample (length (pintype hd))) as Hbl by (by rewrite sample_bytes_length, Hwl).
  destruct (uniform_write _ _ _ (encode (output_ts hd + Z.of_nat d) ws) Hu (size_room _ _ Hty Hbl) Hpos (encode_ok _ _) ltac:(by rewrite Hbl) Hr2) as (rb' & Hwr & Hu' & Hs').
  unfold record_write in Hwr. rewrite Hbl, Hptr in Hwr. rewrite <- Hbl in Hwr at 1. rewrite Nat2Z.id, firstn_all in Hwr. rewrite Hwr.
  cbn [Z.eqb]. exists rb', (q ++ [encode (output_ts hd + Z.of_nat d) ws]). cbn. rewrite wrapu_small by lia. split; [reflexivity |]. split_and!; [done | done |].
  apply queued_snoc; [done |]. replace (output_ts hd + Z.of_nat d - Z.of_nat (length p) + Z.of_nat (length p)) with (output_ts hd + Z.of_nat d) by lia.
  exists ws. split_and!; try done; unfold word; lia.
Qed.

(** ** The output side *)
Lemma record_read_front r b q : rep r (b :: q) -> exists o, record_read r = Some (inr (o, Z.of_nat (length b))) /\ read_bytes (rb_mem r) o (length b) = b.
Proof. intros Hr. destruct (ring_read_at_front r b q 0 Hr) as (o & Hread & Hb). by exists (o + 4). Qed.

(** No sample is due. *)
Lemma read_due_none a fuel hd rb q p ts : uniform a rb q -> queued (pintype hd) ts q p -> output_ts hd < ts -> read_due (S fuel) (hd, rb) = Some (hd, rb).
Proof.
  intros (Hr & _) Hq Hts. cbn [read_due]. destruct q as [| b q]; destruct p as [| x p]; try done.
  { by rewrite record_read_empty. }
  destruct Hq as [(ws & -> & Hw & _ & Hww & _) _]. destruct (record_read_front _ _ _ Hr) as (o & -> & Hb).
  destruct (read_sample _ _ _ _ Hw Hww Hb) as [-> _]. by rewrite (proj2 (Z.ltb_lt _ _)).
Qed.

(** The first sample is due. *)
Lemma read_due_first fuel hd rb q x p : Z.of_nat (length (pintype hd)) <= 2 ^ 20 -> uniform (room (pintype hd)) rb q -> queued (pintype hd) (output_ts hd) q (x :: p) ->
  exists rb' q', read_due (S (S fuel)) (hd, rb) = Some ({| hd with pins_out := copy_values (pintype hd) (pins_out hd) x |}, rb') /\
    uniform (room (pintype hd)) rb' q' /\ queued (pintype hd) (output_ts hd + 1) q' p /\ rh_size (rb_header rb') = rh_size (rb_header rb).
Proof.
  intros Hty Hu Hq. destruct q as [| b q]; [done |]. destruct Hq as [(ws & -> & Hw & Hwl & Hww & Hcp) Hq].
  destruct (record_read_front _ _ _ (proj1 Hu)) as (o & Hread & Hb). destruct (read_sample _ _ _ _ Hw Hww Hb) as [Hts Hv].
  destruct (uniform_shift _ _ _ _ Hu (room_pos _ Hty)) as (rb' & Hsh & Hu' & Hs' & _). exists rb', q. split; [| done].
  remember (S fuel) as f eqn:Ef. cbn [read_due]. rewrite Hread, Hts, Z.ltb_irrefl, Z.eqb_refl, Hsh. cbn [mbind option_bind]. subst f.
  unfold apply. rewrite Hwl in Hv. rewrite Hv, Hcp.
  apply (read_due_none (room (pintype hd)) fuel {| hd with pins_out := copy_values (pintype hd) (pins_out hd) x |} rb' q p (output_ts hd + 1) Hu' Hq). cbn. lia.
Qed.

(** One period: the input is sampled, then the output is set. *)
Definition period (x : list hal_data_u) (l : line) : option line :=
  read_sample_from_ring (write_sample_to_ring ({| (fst l) with pins_in := x |}, snd l)).
Fixpoint periods (xs : list (list hal_data_u)) (l : line) : option line :=
  match xs with [] => Some l | x :: xs => l ← period x l; periods xs l end.

(** What a period does to the waiting samples and to the outputs. *)
Definition shift_in (d : nat) (x : list hal_data_u) (p : list (list hal_data_u)) : list (list hal_data_u) := if decide (length p = d) then tl (p ++ [x]) else p ++ [x].
Definition shown (d : nat) (x : list hal_data_u) (p : list (list hal_data_u)) (types : list Z) (out : list hal_data_u) : list hal_data_u :=
  if decide (length p = d) then copy_values types out (List.hd [] (p ++ [x])) else out.

Lemma shorter_now d p hd rb x dl : waiting d p hd rb -> output_ts hd + 2 ^ 32 < 2 ^ 64 ->
  exists dl', shorter {| hd with pins_in := x; delay := dl; input_ts := output_ts hd + Z.of_nat d + 1 |} =
    {| hd with pins_in := x; delay := dl'; input_ts := output_ts hd + 1 + (if max_delay hd <? pin_delay hd then max_delay hd else 0) |}.
Proof.
  intros [_ _ Hd Hin _ _ _ Hp Hm _ _ Hnow] Ht. unfold shorter. cbn [input_ts output_ts pin_delay max_delay].
  replace (output_ts hd + Z.of_nat d + 1 - output_ts hd) with (Z.of_nat d + 1) by lia. rewrite wrapu_small by lia.
  destruct (Z.ltb_spec (pin_delay hd) (Z.of_nat d + 1)).
  - exists (pin_delay hd). rewrite (proj2 (Z.ltb_ge _ _)) by lia. cbn. rewrite wrapu_small by lia. do 2 f_equal. lia.
  - exists dl. rewrite (proj2 (Z.ltb_lt _ _)) by lia. by replace (output_ts hd + 1 + max_delay hd) with (output_ts hd + Z.of_nat d + 1) by lia.
Qed.

Lemma line_period_step d p hd rb x : waiting d p hd rb -> output_ts hd + 2 ^ 32 < 2 ^ 64 -> length x = length (pintype hd) ->
  exists hd' rb', period x (hd, rb) = Some (hd', rb') /\ waiting d (shift_in d x p) hd' rb' /\
    pins_out hd' = shown d x p (pintype hd) (pins_out hd) /\ pintype hd' = pintype hd /\ output_ts hd' = output_ts hd + 1 /\
    write_fail hd' = write_fail hd /\ too_old hd' = too_old hd.
Proof.
  intros Hw Ht Hx. unfold period. cbn [fst snd]. destruct (write_sample d p hd rb x Hw Ht Hx) as (dl & rb1 & q & -> & Hs1 & Hu & Hq).
  destruct (shorter_now d p hd rb x dl Hw Ht) as [dl' Hsh]. pose proof Hw as [_ Hlen Hd Hin He Ha Hsz Hp Hm Hty Hroom Hnow].
  unfold read_sample_from_ring. cbn [abort last_abort]. replace (abort hd && xorb (abort hd) (last_abort hd)) with false by (by rewrite Ha). cbn [mbind option_bind]. rewrite Hsh.
  pose proof (rep_size _ _ (proj1 Hu)) as Hsize. destruct (Z.to_nat (rh_size (rb_header rb1))) as [| fuel] eqn:Ef; [lia |].
  unfold shift_in, shown. destruct (decide (length p = d)) as [E | E].
  - destruct (p ++ [x]) as [| y p'] eqn:Ep; [by destruct p |]. 
    assert (length p' = d) as Hl' by (apply (f_equal length) in Ep; rewrite length_app in Ep; cbn in Ep; lia).
    pose (hd1 := {| hd with pins_in := x; delay := dl'; input_ts := output_ts hd + 1 + (if max_delay hd <? pin_delay hd then max_delay hd else 0) |}).
    destruct (read_due_first fuel hd1 rb1 q y p') as (rb2 & q2 & Hread & Hu2 & Hq2 & Hs2); [done | done | |].
    { cbn. by replace (output_ts hd) with (output_ts hd + Z.of_nat d - Z.of_nat (length p)) by lia. }
    unfold hd1 in Hread. rewrite Hread. cbn [mbind option_bind]. eexists _, rb2. split; [reflexivity |]. cbn in Hu2, Hq2.
    cbn [pins_out pintype output_ts write_fail too_old tl List.hd]. rewrite (wrapu_small 64 (output_ts hd + 1)) by lia. split_and!; try done.
    split; cbn; try done; try lia.
    + exists q2. split; [done |]. by replace (output_ts hd + 1 + Z.of_nat d - Z.of_nat (length p')) with (output_ts hd + 1) by lia.
    + case_match; zb; lia.

  - pose (hd1 := {| hd with pins_in := x; delay := dl'; input_ts := output_ts hd + 1 + (if max_delay hd <? pin_delay hd then max_delay hd else 0) |}).
    pose proof (read_due_none _ (S fuel) hd1 rb1 q (p ++ [x]) (output_ts hd + Z.of_nat d - Z.of_nat (length p)) Hu Hq ltac:(cbn; lia)) as Hread.
    unfold hd1 in Hread. rewrite Hread. cbn [mbind option_bind].
    eexists _, rb1. split; [reflexivity |]. cbn [pins_out pintype output_ts write_fail too_old]. rewrite (wrapu_small 64 (output_ts hd + 1)) by lia. split_and!; try done.
    split; cbn; try done; try lia.
    + exists q. split; [done |]. rewrite length_app. cbn [length].
      by replace (output_ts hd + 1 + Z.of_nat d - Z.of_nat (length p + 1)) with (output_ts hd + Z.of_nat d - Z.of_nat (length p)) by lia.
    + rewrite length_app. cbn. lia.
    + case_match; zb; lia.

Qed.

(** The outputs after the inputs [all] have been sampled, [k] of them since
    the outputs were [out]. *)
Definition delayed (d : nat) (types : list Z) (out : list hal_data_u) (all : list (list hal_data_u)) : list hal_data_u :=
  if (d <? length all)%nat then copy_values types out (nth (length all - 1 - d) all []) else out.

Lemma periods_run d xs p hd rb : waiting d p hd rb -> output_ts hd + Z.of_nat (length xs) + 2 ^ 32 < 2 ^ 64 ->
  Forall (fun x => length x = length (pintype hd)) p -> Forall (fun x => length x = length (pintype hd)) xs ->
  exists hd' rb', periods xs (hd, rb) = Some (hd', rb') /\
    pins_out hd' = (match xs with [] => pins_out hd | _ => delayed d (pintype hd) (pins_out hd) (p ++ xs) end) /\
    write_fail hd' = write_fail hd /\ too_old hd' = too_old hd.
Proof.
  revert p hd rb. induction xs as [| x xs IH]; intros p hd rb Hw Ht Hp Hxs; cbn [periods]; [by exists hd, rb |].
  apply Forall_cons in Hxs as [Hx Hxs]. cbn [length] in Ht. pose proof (wt_len _ _ _ _ Hw) as Hlen.
  destruct (line_period_step d p hd rb x Hw ltac:(lia) Hx) as (hd1 & rb1 & -> & Hw1 & Ho1 & Hty & Hts & Hwf & Hto). cbn [mbind option_bind].
  assert (Forall (fun x => length x = length (pintype hd)) (p ++ [x])) as Hpx by (apply Forall_app; split; [done | by constructor]).
  assert (Forall (fun x => length x = length (pintype hd1)) (shift_in d x p)) as Hp1.
  { rewrite Hty. unfold shift_in. destruct (decide _); [| done]. destruct (p ++ [x]); [constructor | by apply Forall_cons in Hpx as [_ ?]]. }
  destruct (IH (shift_in d x p) hd1 rb1 Hw1 ltac:(lia) Hp1 ltac:(by rewrite Hty)) as (hd' & rb' & -> & Ho & Hf1 & Hf2).
  exists hd', rb'. split; [done |]. split; [| by rewrite Hf1, Hf2, Hwf, Hto]. rewrite Ho, Ho1, Hty. clear IH Ho Ho1. unfold shown, shift_in, delayed.
  destruct (decide (length p = d)) as [E | E].
  - destruct (p ++ [x]) as [| y p'] eqn:Ep; [by destruct p |]. apply Forall_cons in Hpx as [Hy Hp']. cbn [List.hd tl].
    assert (p ++ x :: xs = y :: p' ++ xs) as -> by (change (x :: xs) with ([x] ++ xs); rewrite app_assoc, Ep; done).
    assert (length p' = d) as Hl by (apply (f_equal length) in Ep; rewrite length_app in Ep; cbn in Ep; lia). cbn [length]. rewrite length_app, Hl.
    rewrite (proj2 (Nat.ltb_lt d (S (d + length xs)))) by lia.
    destruct xs as [| x2 xs]; cbn [length].
    + by replace (S (d + 0) - 1 - d)%nat with 0%nat by lia.
    + rewrite (proj2 (Nat.ltb_lt d (d + S (length xs)))) by lia.
      replace (S (d + S (length xs)) - 1 - d)%nat with (S (d + S (length xs) - 1 - d)) by lia. cbn [nth].
      apply copy_values_over; [done |]. assert (Forall (fun x => length x = length (pintype hd)) (p' ++ x2 :: xs)) as Hall by (by apply Forall_app).
      rewrite Forall_forall in Hall. apply Hall, list_elem_of_In, nth_In. rewrite length_app. cbn. lia.
  - rewrite !length_app. cbn [length]. rewrite <- app_assoc. cbn [app].
    replace (length p + 1 + length xs)%nat with (length p + S (length xs))%nat by lia.
    destruct xs as [| x2 xs]; [| done]. rewrite (proj2 (Nat.ltb_ge _ _)) by (cbn [length]; lia). done.
Qed.

(** A line as it has been set up, with its delay pin set to [D] periods. *)
Definition set_up (hd : hal_delayline_t) (rb : ringbuffer) : Prop :=
  rep rb [] /\ input_ts hd = 0 /\ output_ts hd = 0 /\ enable hd = true /\ abort hd = false /\ (length (pintype hd) <= 9)%nat /\
  sample_size hd = sizeof_sample (length (pintype hd)) /\ 0 <= pin_delay hd < 2 ^ 32 /\ 0 <= max_delay hd < 2 ^ 31.

(** C19: Delay lines delay.  The line samples its inputs and sets its outputs in
    every period, through a record ring that has room for two samples more
    than the delay.  After every sequence of inputs, for each type of pin, the
    outputs show the inputs of [d] periods before, where [d] is the value of
    the delay pin, at most the maximum; for the first [d] periods they are
    unchanged.  No sample is lost or too old, and no loop is endless. *)
Theorem delay_line_delays d hd rb xs : set_up hd rb -> Z.of_nat d = Z.min (pin_delay hd) (max_delay hd) ->
  (Z.of_nat d + 2) * room (pintype hd) < rh_size (rb_header rb) ->
  Forall (fun x => length x = length (pintype hd)) xs -> Z.of_nat (length xs) < 2 ^ 63 ->
  exists hd' rb', periods xs (hd, rb) = Some (hd', rb') /\ pins_out hd' = delayed d (pintype hd) (pins_out hd) xs /\
    write_fail hd' = write_fail hd /\ too_old hd' = too_old hd.
Proof.
  intros (Hr & Hi & Ho & He & Ha & Hty & Hsz & Hp & Hm) Hd Hroom Hxs Hn.
  assert (waiting d [] hd rb) as Hw.
  { split; try done; try lia; [| cbn; lia]. exists []. split; [by apply uniform_empty | done]. }
  destruct (periods_run d xs [] hd rb Hw ltac:(lia) ltac:(constructor) Hxs) as (hd' & rb' & Hrun & Hout & Hf). exists hd', rb'.
  split; [done |]. split; [| done]. rewrite Hout. destruct xs; [| done]. unfold delayed. cbn [length]. by rewrite (proj2 (Nat.ltb_ge d 0)) by lia.
Qed.

(** The ring that is created for a line of 1000 periods and one pin is large
    enough. *)
Example default_ring_large_enough : rbsize (sizeof_sample 1) 1000 = Some 28800 /\ (1000 + 2) * room [HAL_FLOAT] < ring_storage_alloc RINGTYPE_RECORD 28800.
Proof. split; vm_compute; reflexivity. Qed.

(** ** Witness and examples *)
Definition new_line (types : list Z) (max D size : Z) : line :=
  (Delay true false (map (fun _ => 0) types) (map (fun _ => 0) types) D 0 0 0 types 0 0 max 0 (sizeof_sample (length types)) false,
   new_ring RINGTYPE_RECORD size 0).

Lemma delay_line_delays_witness : exists hd' rb', periods [[5; 1]; [6; 0]; [7; 1]; [8; 0]; [9; 0]] (new_line [HAL_FLOAT; HAL_BIT] 3 3 200) = Some (hd', rb') /\
  pins_out hd' = [6; 0] /\ write_fail hd' = 0 /\ too_old hd' = 0.
Proof.
  apply (delay_line_delays 3 (fst (new_line [HAL_FLOAT; HAL_BIT] 3 3 200)) (snd (new_line [HAL_FLOAT; HAL_BIT] 3 3 200)) [[5; 1]; [6; 0]; [7; 1]; [8; 0]; [9; 0]]).
  - split; [apply rep_new_ring; [vm_compute; discriminate | lia] | cbn; unfold sizeof_sample; cbn; split_and!; done || lia].
  - reflexivity.
  - vm_compute. reflexivity.
  - repeat constructor.
  - cbn. lia.
Defined.

(** The headroom of a fifth is not enough for a short line: with a maximum of
    two periods the third sample of a delay of two does not fit. *)
Example short_line_loses : rbsize (sizeof_sample 1) 2 = Some 57 /\
  (write_fail ∘ fst) <$> periods [[5]; [6]; [7]] (new_line [HAL_FLOAT] 2 2 57) = Some 1.
Proof. split; vm_compute; reflexivity. Qed.

(** The functs in the other order: every sample is too old. *)
Fixpoint periods_output_first (xs : list (list hal_data_u)) (l : line) : option line :=
  match xs with
  | [] => Some l
  | x :: xs => l ← read_sample_from_ring l; periods_output_first xs (write_sample_to_ring ({| (fst l) with pins_in := x |}, snd l))
  end.
Example output_first_loses : (fun l => (pins_out (fst l), too_old (fst l))) <$> periods_output_first [[5]; [6]; [7]; [8]] (new_line [HAL_FLOAT] 1000 1 300) = Some ([0], 3).
Proof. vm_compute. reflexivity. Qed.
