(* ===== verification/Scope.v ===== *)
(** * The oscilloscope (modules/managed/components/scope_rt/src/scope_rt.c,
      the capture functions of modules/unmanaged/components/halscope/src/scope.c)

    A realtime funct samples up to 16 channels into a circular buffer in
    shared memory, waits for a trigger and goes on until the record is full;
    the user-space program copies the record to its display buffer.  [None]
    is an access outside of the buffers. *)
From S2P Require Import Prelude Double HalData.

Module Scope.

Inductive scope_state_t := IDLE | INIT | PRE_TRIG | TRIG_WAIT | POST_TRIG | DONE | RESET.
#[export] Instance scope_state_eq : EqDecision scope_state_t. Proof. solve_decision. Defined.

(** What the realtime part keeps of a channel. *)
Record channel := Channel { data_addr : Z; data_type : Z; data_len : Z }.

(** The control structures of the realtime part and of shared memory.  A
    [scope_data_t] is a union of 8 bytes. *)
Record scope := MkScope {
  buffer : list hal_data_u;
  mult_cntr : Z;
  auto_timer : Z;
  rt_channels : list channel;
  compare_result : Z;            (* static in [check_trigger] *)
  buf_len : Z;
  watchdog : Z;
  mult : Z;
  rec_len : Z;
  sample_len : Z;
  pre_trig : Z;
  trig_chan : Z;
  trig_level : hal_data_u;
  trig_edge : bool;
  force_trig : bool;
  auto_trig : bool;
  start : Z;
  curr : Z;
  samples : Z;
  state : scope_state_t;
  shm_channels : list channel;
}.

(** The memory of HAL: the 8 bytes at an offset. *)
Definition memory : Type := Z -> hal_data_u.

(** ** Sampling *)

(** Does the channel take a place in the buffer? *)
Definition sampled (c : channel) : bool := (data_len c =? 1) || (data_len c =? 4) || (data_len c =? 8).

Definition store (i : Z) (v : hal_data_u) (l : list hal_data_u) : option (list hal_data_u) :=
  if (0 <=? i) && (i <? Z.of_nat (length l)) then Some (<[Z.to_nat i := v]> l) else None.

(** The bytes of a channel; the rest of the union keeps its value. *)
Fixpoint capture_channels (hal : memory) (chs : list channel) (dest : Z) (buf : list hal_data_u) : option (list hal_data_u) :=
  match chs with
  | [] => Some buf
  | c :: chs =>
      if sampled c then
        old ← buf !! Z.to_nat dest;
        buf ← store dest (put_low (8 * data_len c) old (hal (data_addr c))) buf;
        capture_channels hal chs (dest + 1) buf
      else capture_channels hal chs dest buf
  end.

(** The place of the next sample; at the end there must be room for one. *)
Definition advance (s : scope) (i : Z) : Z :=
  let i := s32 (i + sample_len s) in
  if buf_len s <? s32 (i + sample_len s) then 0 else i.

Definition capture_sample (hal : memory) (s : scope) : option scope :=
  buf ← capture_channels hal (rt_channels s) (curr s) (buffer s);
  Some {| s with buffer := buf; curr := advance s (curr s) |}.

(** ** Trigger *)

(** [value > level] of two doubles, on their bits as integers. *)
Definition SIGN : Z := 2 ^ 63.
Definition float_above (tmp1 tmp2 : Z) : bool :=
  if negb (Z.land tmp1 SIGN =? 0) then
    if negb (Z.land tmp2 SIGN =? 0) then Z.lxor tmp1 SIGN <? Z.lxor tmp2 SIGN else false
  else
    if negb (Z.land tmp2 SIGN =? 0) then true else tmp2 <? tmp1.

Definition compare_level (type : Z) (value level : hal_data_u) : Z :=
  if type =? HAL_BIT then get_low 8 value
  else if type =? HAL_FLOAT then Z.b2z (float_above (get_low 64 value) (get_low 64 level))
  else if type =? HAL_S32 then Z.b2z (get_s32_value level <? get_s32_value value)
  else if type =? HAL_U32 then Z.b2z (get_u32_value level <? get_u32_value value)
  else if type =? HAL_S64 then Z.b2z (get_s64_value level <? get_s64_value value)
  else if type =? HAL_U64 then Z.b2z (get_u64_value level <? get_u64_value value)
  else 0.

Definition edge (rising : bool) (previous result : Z) : bool :=
  if rising then negb (result =? 0) && (previous =? 0) else (result =? 0) && negb (previous =? 0).

Definition check_trigger (hal : memory) (s : scope) : option (bool * scope) :=
  if force_trig s then Some (true, s)
  else
    let t := if auto_trig s then s32 (auto_timer s + 1) else 0 in
    let s := {| s with auto_timer := t |} in
    if auto_trig s && (rec_len s <=? t) then Some (true, s)
    else if trig_chan s =? 0 then Some (false, s)
    else
      c ← (if 1 <=? trig_chan s then rt_channels s !! Z.to_nat (trig_chan s - 1) else None);
      let previous := compare_result s in
      let result := compare_level (data_type c) (hal (data_addr c)) (trig_level s) in
      Some (edge (trig_edge s) previous result, {| s with compare_result := result |}).

(** ** The state machine *)
Definition clear_pointers (s : scope) : scope := {| s with curr := 0; start := 0; samples := 0; force_trig := false |}.

Definition run_state_machine (hal : memory) (s : scope) : option scope :=
  match state s with
  | IDLE => Some s
  | INIT => let s := clear_pointers s in Some {| s with auto_timer := 0; rt_channels := shm_channels s; state := PRE_TRIG |}
  | PRE_TRIG =>
      s ← capture_sample hal s;
      let s := {| s with samples := s32 (samples s + 1) |} in
      if pre_trig s <=? samples s then '(_, s) ← check_trigger hal {| s with state := TRIG_WAIT |}; Some s
      else Some s
  | TRIG_WAIT =>
      s ← capture_sample hal s;
      let s := {| s with samples := s32 (samples s + 1) |} in
      '(fired, s) ← check_trigger hal s;
      if fired : bool then Some {| s with state := POST_TRIG |}
      else Some {| s with samples := s32 (samples s - 1); start := advance s (start s) |}
  | POST_TRIG =>
      s ← capture_sample hal s;
      let s := {| s with samples := s32 (samples s + 1) |} in
      Some (if rec_len s <=? samples s then {| s with state := DONE |} else s)
  | DONE => Some s
  | RESET => Some {| s with state := IDLE |}
  end.

Definition sample (hal : memory) (s : scope) : option scope :=
  let s := {| s with watchdog := 0 |} in
  let s := match state s with RESET => let s := clear_pointers s in {| s with state := IDLE |} | _ => s end in
  let s := {| s with mult_cntr := s32 (mult_cntr s + 1) |} in
  if mult_cntr s <? mult s then Some s
  else run_state_machine hal {| s with mult_cntr := 0 |}.

(** The memory is cleared except for the length of the buffer and the divider. *)
Definition init_shm_control_struct (shm_size sizeof_control sizeof_data : Z) : scope :=
  let skip := Z.land (sizeof_control + 3) (Z.lnot 3) in
  let n := s32 ((shm_size - skip) / sizeof_data) in
  let none := replicate 16 (Channel 0 0 0) in
  MkScope (replicate (Z.to_nat n) 0) 0 0 none 0 n 0 1 0 0 0 0 0 false false false 0 0 0 IDLE none.

(** ** User space *)

(** What the user has chosen for a channel: a pin, signal or parameter with
    its offset in shared memory, one that has been deleted since, or none. *)
Inductive data_source := AtOffset (off : Z) | Deleted | NoSource.
Record scope_chan_t := Chan { source : data_source; chan_type : Z; chan_len : Z; chan_enabled : bool }.

(** The settings of the channels for the realtime part.  A deleted source
    ends the loop. *)
Fixpoint set_channels (us : list scope_chan_t) (chs : list channel) : list scope_chan_t * list channel :=
  match us, chs with
  | u :: us, c :: chs =>
      let enabled (len : Z) := if chan_enabled u then len else 0 in
      match source u with
      | Deleted => ({| u with source := NoSource; chan_len := 0 |} :: us, c :: chs)
      | AtOffset o => let r := set_channels us chs in (u :: fst r, Channel o (chan_type u) (enabled (chan_len u)) :: snd r)
      | NoSource => let r := set_channels us chs in ({| u with chan_len := 0 |} :: fst r, Channel (data_addr c) (chan_type u) (enabled 0) :: snd r)
      end
  | _, _ => (us, chs)
  end.

(** [position] is the place of the trigger in the record, from 0 to 1; the
    conversion of the product to an integer may be undefined. *)
Definition start_capture (us : list scope_chan_t) (position : double) (s : scope) : option (list scope_chan_t * scope) :=
  if negb (bool_decide (state s = IDLE)) then Some (us, s)
  else
    let r := set_channels us (shm_channels s) in
    pre ← dbl_to_sint 32 (dmul (dbl_of_Z (s32 (rec_len s - 2))) position);
    Some (fst r, {| s with shm_channels := snd r; pre_trig := pre; state := INIT |}).

Definition set_rec_len (setting : Z) (enabled : list bool) (s : scope) : Z * scope :=
  if negb ((setting =? 1) || (setting =? 2) || (setting =? 4) || (setting =? 8) || (setting =? 16)) then (-1, s)
  else if setting <? Z.of_nat (length (List.filter (fun b : bool => b) enabled)) then (-1, s)
  else (0, {| s with sample_len := setting; rec_len := Z.quot (buf_len s) setting |}).

(** [n] samples from [src], one behind the other. *)
Fixpoint copy_samples (n : nat) (s : scope) (src : Z) : option (list hal_data_u) :=
  match n with
  | O => Some []
  | S n =>
      one ← (if (0 <=? src) && (src + sample_len s <=? Z.of_nat (length (buffer s)))
             then Some (take (Z.to_nat (sample_len s)) (drop (Z.to_nat src) (buffer s))) else None);
      let src := src + sample_len s in
      rest ← copy_samples n s (if rec_len s * sample_len s <=? src then 0 else src);
      Some (one ++ rest)
  end.

(** The display buffer holds [buf_len] values, 0 behind the samples. *)
Definition capture_copy_data (s : scope) : option (list hal_data_u) :=
  l ← copy_samples (Z.to_nat (samples s)) s (start s);
  if Z.of_nat (length l) <=? buf_len s then Some (l ++ replicate (Z.to_nat (buf_len s) - length l) 0) else None.

(** The positions of the channels within a sample; -1 if not acquired. *)
Fixpoint data_offsets (offs : Z) (chs : list channel) : list Z :=
  match chs with
  | [] => []
  | c :: chs => if 0 <? data_len c then offs :: data_offsets (offs + 1) chs else -1 :: data_offsets offs chs
  end.

End Scope.
