(* ===== verification/ScopeTheorems.v ===== *)
(** * Theorems about the oscilloscope

    The record that is displayed are consecutive samples around the trigger;
    the comparison of doubles on their bits is the comparison of doubles. *)
From S2P Require Import Prelude Double HalData Scope.
Import Scope.

(** ** One sample in the buffer *)

(** The places that a sample takes. *)
Definition width (chs : list channel) : Z := Z.of_nat (length (List.filter sampled chs)).

(** At [dest] are the values that the channels had in [hal]. *)
Fixpoint shows (chs : list channel) (buf : list hal_data_u) (dest : Z) (hal : memory) : Prop :=
  match chs with
  | [] => True
  | c :: chs =>
      if sampled c then
        (exists w, buf !! Z.to_nat dest = Some w /\ get_low (8 * data_len c) w = get_low (8 * data_len c) (hal (data_addr c))) /\
        shows chs buf (dest + 1) hal
      else shows chs buf dest hal
  end.

Lemma width_cons c chs : width (c :: chs) = (if sampled c then 1 else 0) + width chs.
Proof. unfold width. cbn [List.filter]. destruct (sampled c); cbn [length]; lia. Qed.

Lemma width_nonneg chs : 0 <= width chs.
Proof. unfold width. lia. Qed.

Lemma sampled_len c : sampled c = true -> 0 <= 8 * data_len c.
Proof. unfold sampled. intros H. repeat (apply orb_true_iff in H as [H | H]); zb; lia. Qed.

(** [shows] depends on the places of the sample only. *)
Lemma shows_agree chs buf buf' dest dest' hal : 0 <= dest -> 0 <= dest' -> 
  (forall i, 0 <= i < width chs -> buf' !! Z.to_nat (dest' + i) = buf !! Z.to_nat (dest + i)) -> shows chs buf dest hal -> shows chs buf' dest' hal.
Proof.
  revert dest dest'. induction chs as [| c chs IH]; intros dest dest' Hd Hd' Ha; cbn [shows]; [done |]. rewrite width_cons in Ha. pose proof (width_nonneg chs).
  destruct (sampled c); [| by apply IH; auto]. intros [(w & Hw & He) Hs]. split.
  - exists w. split; [| done]. specialize (Ha 0 ltac:(lia)). rewrite !Z.add_0_r in Ha. by rewrite Ha.
  - revert Hs. apply IH; [lia | lia |]. intros i Hi. rewrite <- !Z.add_assoc. apply Ha. lia.
Qed.

Lemma capture_channels_spec hal chs dest buf : 0 <= dest -> dest + width chs <= Z.of_nat (length buf) ->
  exists buf', capture_channels hal chs dest buf = Some buf' /\ length buf' = length buf /\ shows chs buf' dest hal /\
    forall i, 0 <= i -> i < dest \/ dest + width chs <= i -> buf' !! Z.to_nat i = buf !! Z.to_nat i.
Proof.
  revert dest buf. induction chs as [| c chs IH]; intros dest buf Hd Hl; cbn [capture_channels shows]; [by exists buf |].
  rewrite width_cons in *. pose proof (width_nonneg chs). destruct (sampled c) eqn:Es.
  - destruct (lookup_lt_is_Some_2 buf (Z.to_nat dest)) as [old Ho]; [lia |]. rewrite Ho. cbn [mbind option_bind].
    unfold store. rewrite (proj2 (Z.leb_le 0 dest)), (proj2 (Z.ltb_lt dest _)) by lia. cbn [andb mbind option_bind].
    destruct (IH (dest + 1) (<[Z.to_nat dest := put_low (8 * data_len c) old (hal (data_addr c))]> buf)) as (buf' & Hc & Hl' & Hs & Hout);
      [lia | rewrite length_insert; lia |].
    exists buf'. split; [exact Hc |]. rewrite length_insert in Hl'. split; [done |]. split.
    + split; [| done]. exists (put_low (8 * data_len c) old (hal (data_addr c))). rewrite Hout by lia. rewrite list_lookup_insert_eq by lia.
      split; [done |]. rewrite get_put_low by (by apply sampled_len). done.
    + intros i Hi Hor. rewrite Hout by lia. apply list_lookup_insert_ne. lia.
  - rewrite Z.add_0_l in *. by apply IH.
Qed.

(** ** The circular buffer

    The buffer has [slots] places for samples.  [holds]: the memories [recs]
    are in the slots from slot [a] on. *)
Definition slots (s : scope) : Z := buf_len s / sample_len s.

Record settings_ok (s : scope) : Prop := {
  ok_len : Z.of_nat (length (buffer s)) = buf_len s;
  ok_max : 0 <= buf_len s < 2 ^ 30;
  ok_sample : 0 < sample_len s <= 16;
  ok_width : width (rt_channels s) <= sample_len s;
  ok_rec : rec_len s = slots s;
}.

Definition holds (s : scope) (recs : list memory) : Prop :=
  exists a, 0 <= a < slots s /\ start s = a * sample_len s /\ curr s = ((a + Z.of_nat (length recs)) mod slots s) * sample_len s /\
    samples s = Z.of_nat (length recs) /\
    forall i h, recs !! i = Some h -> shows (rt_channels s) (buffer s) (((a + Z.of_nat i) mod slots s) * sample_len s) h.

Lemma slots_bound s : settings_ok s -> 0 < slots s -> slots s * sample_len s <= buf_len s < (slots s + 1) * sample_len s.
Proof. intros [] Hs. unfold slots in *. pose proof (Z.div_mod (buf_len s) (sample_len s) ltac:(lia)). pose proof (Z.mod_pos_bound (buf_len s) (sample_len s) ltac:(lia)). lia. Qed.

Lemma advance_slot s p : settings_ok s -> 0 <= p < slots s -> advance s (p * sample_len s) = ((p + 1) mod slots s) * sample_len s.
Proof.
  intros Hok Hp. pose proof (slots_bound s Hok ltac:(lia)) as Hb. destruct Hok. unfold advance.
  replace (p * sample_len s + sample_len s) with ((p + 1) * sample_len s) by lia.
  assert ((p + 1) * sample_len s <= buf_len s) by nia. rewrite (wraps_small 32 ((p + 1) * _)) by nia. rewrite wraps_small by nia.
  destruct (Z.eq_dec (p + 1) (slots s)) as [E | E].
  - rewrite E, Z.mod_same by lia. rewrite (proj2 (Z.ltb_lt _ _)) by nia. lia.
  - rewrite Z.mod_small by lia. rewrite (proj2 (Z.ltb_ge _ _)) by nia. done.
Qed.

(** Two different slots do not overlap. *)
Lemma slot_index_ne K a i j : 0 < K -> 0 <= i < j -> j < K -> (a + i) mod K <> (a + j) mod K.
Proof.
  intros HK Hi Hj E. assert ((j - i) mod K = 0) as E0.
  { replace (j - i) with ((a + j) - (a + i)) by lia. rewrite Zminus_mod, E, Z.sub_diag. by apply Z.mod_0_l; lia. }
  rewrite Z.mod_small in E0 by lia. lia.
Qed.

Lemma capture_holds hal s recs : settings_ok s -> holds s recs -> Z.of_nat (length recs) < slots s ->
  exists buf, capture_sample hal s = Some {| s with buffer := buf; curr := ((curr s / sample_len s + 1) mod slots s) * sample_len s |} /\ length buf = length (buffer s) /\
    forall s', s' = {| s with buffer := buf; curr := ((curr s / sample_len s + 1) mod slots s) * sample_len s; samples := s32 (samples s + 1) |} -> holds s' (recs ++ [hal]).
Proof.
  intros Hok (a & Ha & Hst & Hcu & Hsa & Hsh) Hroom. pose proof (slots_bound s Hok ltac:(lia)) as Hb. pose proof Hok as [Hl Hmax Hsl Hw Hrec].
  pose proof (Z.mod_pos_bound (a + Z.of_nat (length recs)) (slots s) ltac:(lia)) as Hp.
  destruct (capture_channels_spec hal (rt_channels s) (curr s) (buffer s)) as (buf & Hc & Hlb & Hs & Hout); [nia | nia |].
  exists buf. unfold capture_sample. rewrite Hc. cbn [mbind option_bind]. split; [| split; [done |]].
  - rewrite Hcu at 1. cbn. rewrite advance_slot by done. rewrite Hcu, Z.div_mul by lia. done.
  - intros s' ->. assert (forall b c z, slots {| s with buffer := b; curr := c; samples := z |} = slots s) as Esl by done.
    exists a. rewrite !Esl. cbn [start curr samples sample_len buffer rt_channels]. rewrite Hcu, Z.div_mul by lia. rewrite length_app. cbn [length].
    split; [done |]. split; [done |]. split; [| split].
    + f_equal. rewrite Z.add_mod_idemp_l by lia. f_equal. lia.
    + rewrite Hsa. rewrite wraps_small by nia. lia.
    + intros i h Hi. apply lookup_app_Some in Hi as [Hi | [Hge Hi]].
      * pose proof (lookup_lt_Some _ _ _ Hi) as Hlt. specialize (Hsh i h Hi).
        pose proof (slot_index_ne (slots s) a (Z.of_nat i) (Z.of_nat (length recs)) ltac:(lia) ltac:(lia) ltac:(lia)) as Hne.
        pose proof (Z.mod_pos_bound (a + Z.of_nat i) (slots s) ltac:(lia)).
        revert Hsh. apply shows_agree; [nia | nia |]. intros k Hk. apply Hout; [nia |]. rewrite Hcu. nia.
      * apply list_lookup_singleton_Some in Hi as [Hi <-]. assert (i = length recs) as -> by lia. rewrite <- Hcu. done.
Qed.

(** The oldest sample is dropped. *)
Lemma drop_holds s h recs : settings_ok s -> holds s (h :: recs) -> Z.of_nat (length recs) < slots s ->
  forall s', s' = {| s with samples := s32 (samples s - 1); start := advance s (start s) |} -> holds s' recs.
Proof.
  intros Hok (a & Ha & Hst & Hcu & Hsa & Hsh) Hroom s' ->. pose proof (slots_bound s Hok ltac:(lia)) as Hb. pose proof Hok as [Hl Hmax Hsl Hw Hrec].
  cbn [length] in *. exists ((a + 1) mod slots s). cbn [start curr samples sample_len buffer rt_channels].
  assert (forall x y, slots {| s with samples := x; start := y |} = slots s) as -> by done.
  split; [by apply Z.mod_pos_bound; lia |]. split; [by rewrite Hst, advance_slot |]. split; [| split].
  - rewrite Hcu. f_equal. rewrite Z.add_mod_idemp_l by lia. f_equal. lia.
  - rewrite Hsa, wraps_small by nia. lia.
  - intros i k Hi. specialize (Hsh (S i) k Hi). rewrite Z.add_mod_idemp_l by lia. by replace (a + 1 + Z.of_nat i) with (a + Z.of_nat (S i)) by lia.
Qed.

(** ** Runs of the state machine *)

(** The comparison of the trigger channel with its level. *)
Definition level_of (s : scope) (h : memory) : Z :=
  if trig_chan s =? 0 then 0
  else match rt_channels s !! Z.to_nat (trig_chan s - 1) with Some c => compare_level (data_type c) (h (data_addr c)) (trig_level s) | None => 0 end.

(** The settings of a capture, which the state machine does not change. *)
Definition same (s0 s : scope) : Prop :=
  length (buffer s) = length (buffer s0) /\ buf_len s = buf_len s0 /\ rec_len s = rec_len s0 /\ sample_len s = sample_len s0 /\ pre_trig s = pre_trig s0 /\
  trig_chan s = trig_chan s0 /\ trig_level s = trig_level s0 /\ trig_edge s = trig_edge s0 /\ auto_trig s = auto_trig s0 /\ force_trig s = force_trig s0 /\
  rt_channels s = rt_channels s0.

Lemma same_settings s0 s : same s0 s -> settings_ok s0 -> settings_ok s /\ slots s = slots s0 /\ forall h, level_of s h = level_of s0 h.
Proof.
  intros (E1 & E2 & E3 & E4 & E5 & E6 & E7 & E8 & E9 & E10 & E11) [O1 O2 O3 O4 O5]. assert (slots s = slots s0) as Es by (unfold slots; congruence).
  split; [| split; [done | intros h; unfold level_of; by rewrite E6, E7, E11]].
  split; [by rewrite E1, E2 | by rewrite E2 | by rewrite E4 | by rewrite E4, E11 | by rewrite Es, E3].
Qed.

(** A settled trigger: nothing is forced and the channel exists. *)
Record trigger_ok (s : scope) : Prop := {
  tr_force : force_trig s = false;
  tr_chan : 0 <= trig_chan s <= Z.of_nat (length (rt_channels s));
  tr_rec : 0 <= rec_len s < 2 ^ 30;
}.

Lemma edge_none r : edge r 0 0 = false.
Proof. by destruct r. Qed.

Lemma check_trigger_spec h s : trigger_ok s -> 0 <= auto_timer s < 2 ^ 30 ->
  exists s', check_trigger h s = Some ((auto_trig s && (rec_len s <=? auto_timer s + 1)) || edge (trig_edge s) (if trig_chan s =? 0 then 0 else compare_result s) (level_of s h), s') /\
    (auto_trig s && (rec_len s <=? auto_timer s + 1) = false -> trig_chan s <> 0 -> compare_result s' = level_of s h) /\
    exists r, s' = {| s with auto_timer := if auto_trig s then auto_timer s + 1 else 0; compare_result := r |}.
Proof.
  intros [Hf Hc Hr] Ht. unfold check_trigger. rewrite Hf. cbn [auto_trig rec_len trig_chan rt_channels compare_result trig_level trig_edge].
  rewrite wraps_small by lia. destruct (auto_trig s && (rec_len s <=? (if auto_trig s then auto_timer s + 1 else 0))) eqn:Er.
  - assert (auto_trig s && (rec_len s <=? auto_timer s + 1) = true) as -> by (destruct (auto_trig s); [exact Er | done]). cbn [orb].
    eexists. split; [reflexivity |]. split; [done |]. exists (compare_result s). f_equal; by rewrite Hf.
  - assert (auto_trig s && (rec_len s <=? auto_timer s + 1) = false) as -> by (destruct (auto_trig s); [exact Er | done]). cbn [orb].
    unfold level_of. destruct (trig_chan s =? 0) eqn:E0; zb.
    + eexists. split; [by rewrite edge_none |]. split; [done |]. exists (compare_result s). f_equal; by rewrite Hf.
    + rewrite (proj2 (Z.leb_le 1 (trig_chan s))) by lia.
      destruct (lookup_lt_is_Some_2 (rt_channels s) (Z.to_nat (trig_chan s - 1))) as [c Hch]; [lia |]. rewrite Hch. cbn [mbind option_bind].
      eexists. split; [reflexivity |]. split; [done |]. eexists. f_equal; by rewrite Hf.
Qed.

Section Run.
(** The capture that has been started; [h n] is the memory of the [n]-th tick. *)
Context (s0 : scope) (h : nat -> memory) (P t : nat).
Context (Hset : settings_ok s0) (Htrig : trigger_ok s0).
Context (HP : Z.of_nat P = Z.max 1 (pre_trig s0)) (Hrec : Z.of_nat P + 2 <= rec_len s0).

(** The trigger condition at a tick. *)
Definition fires (i : nat) : bool :=
  (auto_trig s0 && (Z.of_nat P + rec_len s0 - 2 <=? Z.of_nat i)) || edge (trig_edge s0) (level_of s0 (h (i - 1))) (level_of s0 (h i)).

Context (Hbefore : forall i, (P <= i < t)%nat -> fires i = false) (Hat : fires t = true) (Ht : (P <= t)%nat).

Fixpoint ticks (n : nat) (s : scope) : option scope :=
  match n with O => Some s | S n => s ← ticks n s; run_state_machine (h n) s end.

Definition window (from len : nat) : list memory := map h (seq from len).

(** The state after [n] ticks. *)
Definition phase (n : nat) (s : scope) : Prop :=
  same s0 s /\
  if (n <? P)%nat then state s = PRE_TRIG /\ auto_timer s = 0 /\ holds s (window 0 n)
  else if (n <=? t)%nat then state s = TRIG_WAIT /\ auto_timer s = (if auto_trig s0 then Z.of_nat n - Z.of_nat P + 1 else 0) /\
    (trig_chan s0 <> 0 -> compare_result s = level_of s0 (h (n - 1))) /\ holds s (window (n - P) P)
  else if Z.of_nat n <? Z.of_nat t - Z.of_nat P + rec_len s0 then state s = POST_TRIG /\ holds s (window (t - P) (n - (t - P)))
  else state s = DONE /\ holds s (window (t - P) (Z.to_nat (rec_len s0))).

Lemma window_length from len : length (window from len) = len.
Proof. unfold window. by rewrite length_map, length_seq. Qed.

Lemma window_snoc from len : window from len ++ [h (from + len)%nat] = window from (S len).
Proof. unfold window. by rewrite seq_S, map_app. Qed.

Lemma window_cons from len : window from (S len) = h from :: window (S from) len.
Proof. done. Qed.

(** Sampling in a state of the capture. *)
Lemma sample_step (n : nat) s (from len : nat) : same s0 s -> (from + len)%nat = n -> holds s (window from len) -> Z.of_nat len < rec_len s0 ->
  exists s', capture_sample (h n) s = Some s' /\ same s0 {| s' with samples := s32 (samples s' + 1) |} /\
    holds {| s' with samples := s32 (samples s' + 1) |} (window from (S len)) /\ samples s' = Z.of_nat len /\
    state s' = state s /\ auto_timer s' = auto_timer s /\ compare_result s' = compare_result s.
Proof.
  intros Hsame Hn Hh Hlen. destruct (same_settings s0 s Hsame Hset) as (Hok & Hsl & _).
  assert (Z.of_nat (length (window from len)) < slots s) as Hroom by (rewrite window_length, Hsl; destruct Hset; lia).
  destruct (capture_holds (h n) s (window from len) Hok Hh Hroom) as (buf & Hc & Hl & Hnext). exists {| s with buffer := buf; curr := ((curr s / sample_len s + 1) mod slots s) * sample_len s |}.
  split; [done |]. split; [| split; [| split; [| done]]].
  - destruct Hsame as (E1 & ?). split; [cbn; congruence | done].
  - rewrite <- window_snoc, Hn. by apply Hnext.
  - destruct Hh as (a & _ & _ & _ & Hsa & _). cbn. by rewrite Hsa, window_length.
Qed.

Lemma trigger_same s : same s0 s -> trigger_ok s.
Proof. intros (E1 & E2 & E3 & E4 & E5 & E6 & E7 & E8 & E9 & E10 & E11). destruct Htrig. split; [by rewrite E10 | by rewrite E6, E11 | by rewrite E3]. Qed.

(** The settings and the record do not depend on the timer and the level. *)
Lemma same_timer s a r st : same s0 s -> same s0 {| s with auto_timer := a; compare_result := r; state := st |}.
Proof. done. Qed.

Lemma holds_timer s recs a r st : holds s recs -> holds {| s with auto_timer := a; compare_result := r; state := st |} recs.
Proof. done. Qed.

(** With auto trigger the wait is bounded. *)
Lemma fire_bound n : auto_trig s0 = true -> (P <= n <= t)%nat -> Z.of_nat n <= Z.of_nat P + rec_len s0 - 2.
Proof.
  intros Ea Hn. destruct (Z.le_gt_cases (Z.of_nat n) (Z.of_nat P + rec_len s0 - 2)) as [| Hgt]; [done |].
  set (m := Z.to_nat (Z.of_nat P + rec_len s0 - 2)). assert (fires m = false) as Hf by (apply Hbefore; lia).
  unfold fires in Hf. rewrite Ea, (proj2 (Z.leb_le _ (Z.of_nat m))) in Hf by lia. done.
Qed.

(** Until the trigger is armed. *)
Lemma phase_pre n s : phase n s -> (n < P)%nat -> exists s', run_state_machine (h n) s = Some s' /\ phase (S n) s'.
Proof.
  unfold phase. intros [Hsame Hp] Hn. rewrite (proj2 (Nat.ltb_lt n P)) in Hp by lia. destruct Hp as (Est & Eat & Hh).
  destruct (sample_step n s 0 n Hsame eq_refl Hh ltac:(lia)) as (s1 & Hc & Hs1 & Hh1 & Esa & Est1 & Eat1 & Ecr1).
  unfold run_state_machine. rewrite Est, Hc. cbn [mbind option_bind]. rewrite Esa. cbn [pre_trig samples]. rewrite Esa in Hs1, Hh1.
  assert (pre_trig s1 = pre_trig s0) as Epre by apply Hs1. rewrite wraps_small in * by (destruct Hset, Htrig; lia).
  destruct (pre_trig s1 <=? Z.of_nat n + 1) eqn:Epn; zb; rewrite Epre in Epn.
  - assert (S n = P) as EP by lia.
    destruct (check_trigger_spec (h n) {| s1 with samples := Z.of_nat n + 1; state := TRIG_WAIT |}) as (s2 & Hck & Hcr & r & E2);
      [by apply trigger_same | cbn; lia |].
    match goal with |- context [check_trigger (h n) ?x] => change x with {| s1 with samples := Z.of_nat n + 1; state := TRIG_WAIT |} end.
    rewrite Hck. cbn [mbind option_bind]. exists s2. split; [done |].
    assert (auto_trig s1 && (rec_len s1 <=? auto_timer s1 + 1) = false) as Hno.
    { apply andb_false_iff. right. apply Z.leb_gt. assert (rec_len s1 = rec_len s0) as -> by apply Hs1. lia. }
    assert (auto_trig s1 = auto_trig s0) as Eau by apply Hs1. assert (trig_chan s1 = trig_chan s0) as Etc by apply Hs1.
    assert (forall k, level_of {| s1 with samples := Z.of_nat n + 1; state := TRIG_WAIT |} k = level_of s0 k) as El by (apply (same_settings s0 _ Hs1 Hset)).
    rewrite El in Hcr. specialize (Hcr Hno). cbn [trig_chan] in Hcr. rewrite Etc in Hcr.
    split; [rewrite E2; exact Hs1 |]. rewrite (proj2 (Nat.ltb_ge (S n) P)), (proj2 (Nat.leb_le (S n) t)) by lia.
    split; [by rewrite E2 |]. split; [rewrite E2; cbn; rewrite Eau, Eat1, Eat; destruct (auto_trig s0); lia |].
    split; [by replace (S n - 1)%nat with n by lia |]. rewrite E2. replace (S n - P)%nat with 0%nat by lia. rewrite <- EP. exact Hh1.
  - eexists. split; [reflexivity |]. split; [exact Hs1 |]. rewrite (proj2 (Nat.ltb_lt (S n) P)) by lia.
    split; [cbn; congruence |]. split; [cbn; congruence | exact Hh1].
Qed.

(** Until the trigger fires. *)
Lemma phase_wait n s : phase n s -> (P <= n <= t)%nat -> exists s', run_state_machine (h n) s = Some s' /\ phase (S n) s'.
Proof.
  unfold phase. intros [Hsame Hp] Hn. rewrite (proj2 (Nat.ltb_ge n P)), (proj2 (Nat.leb_le n t)) in Hp by lia. destruct Hp as (Est & Eat & Ecr & Hh).
  destruct (sample_step n s (n - P) P Hsame ltac:(lia) Hh ltac:(lia)) as (s1 & Hc & Hs1 & Hh1 & Esa & Est1 & Eat1 & Ecr1).
  unfold run_state_machine. rewrite Est, Hc. cbn [mbind option_bind]. set (s2 := {| s1 with samples := s32 (samples s1 + 1) |}) in *.
  pose proof (fire_bound n) as Hfb.
  destruct (check_trigger_spec (h n) s2 (trigger_same _ Hs1)) as (s3 & Hck & Hcr & r & E3).
  { cbn. rewrite Eat1, Eat. destruct Htrig. destruct (auto_trig s0); [specialize (Hfb eq_refl ltac:(lia)); lia | lia]. }
  rewrite Hck. cbn [mbind option_bind].
  destruct (same_settings s0 s2 Hs1 Hset) as (Hok2 & Hsl2 & Hlev2).
  assert ((auto_trig s2 && (rec_len s2 <=? auto_timer s2 + 1)) || edge (trig_edge s2) (if trig_chan s2 =? 0 then 0 else compare_result s2) (level_of s2 (h n)) = fires n) as Efire.
  { destruct Hs1 as (_ & _ & Er & _ & _ & Etc & _ & Ee & Ea & _). unfold fires. rewrite Er, Etc, Ee, Ea, Hlev2. cbn [auto_timer compare_result s2]. rewrite Eat1, Eat, Ecr1. f_equal.
    - destruct (auto_trig s0); [| done]. cbn. apply Bool.eq_iff_eq_true. rewrite !Z.leb_le. lia.
    - destruct (trig_chan s0 =? 0) eqn:E0; zb; [by unfold level_of; rewrite E0 | by rewrite Ecr]. }
  rewrite Efire in *. assert (same s0 s3) as Hs3 by by rewrite E3. assert (holds s3 (window (n - P) (S P))) as Hh3 by by rewrite E3.
  destruct (Nat.eq_dec n t) as [-> | Hne].
  - rewrite Hat. eexists. split; [reflexivity |]. split; [exact Hs3 |].
    rewrite (proj2 (Nat.ltb_ge (S t) P)), (proj2 (Nat.leb_gt (S t) t)), (proj2 (Z.ltb_lt _ _)) by lia.
    split; [done |]. by replace (S t - (t - P))%nat with (S P) by lia.
  - assert (fires n = false) as Hnf by (apply Hbefore; lia). rewrite Hnf. eexists. split; [reflexivity |]. split; [exact Hs3 |].
    rewrite (proj2 (Nat.ltb_ge (S n) P)), (proj2 (Nat.leb_le (S n) t)) by lia.
    split; [rewrite E3; cbn; congruence |]. split; [| split].
    + rewrite E3. cbn. assert (auto_trig s1 = auto_trig s0) as Ea by apply Hs1. rewrite Ea, Eat1, Eat. destruct (auto_trig s0); lia.
    + intros Htc. replace (S n - 1)%nat with n by lia. rewrite <- Hlev2. apply Hcr; [| by destruct Hs1 as (_ & _ & _ & _ & _ & -> & _)].
      rewrite Hnf in Efire. by apply orb_false_iff in Efire as [-> _].
    + destruct (same_settings s0 s3 Hs3 Hset) as (Hok3 & Hsl3 & _). replace (S n - P)%nat with (S (n - P)) by lia.
      apply (drop_holds s3 (h (n - P)) _ Hok3); [exact Hh3 | rewrite window_length, Hsl3; destruct Hset; lia | done].
Qed.

(** Until the record is full. *)
Lemma phase_post n s : phase n s -> (t < n)%nat -> exists s', run_state_machine (h n) s = Some s' /\ phase (S n) s'.
Proof.
  unfold phase. intros [Hsame Hp] Hn. rewrite (proj2 (Nat.ltb_ge n P)), (proj2 (Nat.leb_gt n t)) in Hp by lia.
  rewrite (proj2 (Nat.ltb_ge (S n) P)), (proj2 (Nat.leb_gt (S n) t)) by lia.
  destruct (Z.of_nat n <? Z.of_nat t - Z.of_nat P + rec_len s0) eqn:En; zb; destruct Hp as (Est & Hh).
  - destruct (sample_step n s (t - P) (n - (t - P)) Hsame ltac:(lia) Hh ltac:(lia)) as (s1 & Hc & Hs1 & Hh1 & Esa & Est1 & Eat1 & Ecr1).
    unfold run_state_machine. rewrite Est, Hc. cbn [mbind option_bind rec_len samples]. rewrite Esa in *.
    rewrite wraps_small in * by (destruct Hset, Htrig; lia). assert (rec_len s1 = rec_len s0) as Er by apply Hs1.
    replace (S n - (t - P))%nat with (S (n - (t - P))) by lia. eexists. split; [reflexivity |].
    destruct (rec_len s1 <=? Z.of_nat (n - (t - P)) + 1) eqn:Ed; zb; rewrite Er in Ed.
    + split; [exact Hs1 |]. rewrite (proj2 (Z.ltb_ge _ _)) by lia. split; [done |]. by replace (Z.to_nat (rec_len s0)) with (S (n - (t - P))) by lia.
    + split; [exact Hs1 |]. rewrite (proj2 (Z.ltb_lt _ _)) by lia. split; [cbn; congruence | exact Hh1].
  - rewrite (proj2 (Z.ltb_ge _ _)) by lia. exists s. unfold run_state_machine. by rewrite Est.
Qed.

Lemma ticks_phase n s : phase 0 s -> exists s', ticks n s = Some s' /\ phase n s'.
Proof.
  intros H0. induction n as [| n (s1 & E1 & H1)]; [by exists s |]. cbn [ticks]. rewrite E1. cbn [mbind option_bind].
  destruct (Nat.lt_ge_cases n P); [by apply phase_pre |]. destruct (Nat.le_gt_cases n t); [by apply phase_wait | by apply phase_post].
Qed.

End Run.

(** ** The display buffer *)

Lemma copy_samples_spec n s a : settings_ok s -> 0 <= a < slots s ->
  exists l, copy_samples n s (a * sample_len s) = Some l /\ Z.of_nat (length l) = Z.of_nat n * sample_len s /\
    forall i j, 0 <= i < Z.of_nat n -> 0 <= j < sample_len s ->
      l !! Z.to_nat (i * sample_len s + j) = buffer s !! Z.to_nat (((a + i) mod slots s) * sample_len s + j).
Proof.
  intros Hok. pose proof Hok as [Hl Hmax Hsl Hw Hrec]. revert a. induction n as [| n IH]; intros a Ha; cbn [copy_samples]; [exists []; split; [done | split; [done | lia]] |].
  pose proof (slots_bound s Hok ltac:(lia)) as Hb. rewrite (proj2 (Z.leb_le 0 _)), (proj2 (Z.leb_le (a * sample_len s + sample_len s) _)) by nia. cbn [andb mbind option_bind].
  assert ((if rec_len s * sample_len s <=? a * sample_len s + sample_len s then 0 else a * sample_len s + sample_len s) = ((a + 1) mod slots s) * sample_len s) as ->.
  { rewrite Hrec. destruct (Z.eq_dec (a + 1) (slots s)) as [E | E].
    - rewrite E, Z.mod_same by lia. by rewrite (proj2 (Z.leb_le _ _)) by nia.
    - rewrite (Z.mod_small (a + 1)) by lia. rewrite (proj2 (Z.leb_gt _ _)) by nia. lia. }
  destruct (IH ((a + 1) mod slots s)) as (l & Hc & Hll & Hi); [apply Z.mod_pos_bound; lia |]. rewrite Hc. cbn [mbind option_bind].
  set (one := take (Z.to_nat (sample_len s)) (drop (Z.to_nat (a * sample_len s)) (buffer s))).
  assert (length one = Z.to_nat (sample_len s)) as Hone by (unfold one; rewrite length_take, length_drop; nia).
  exists (one ++ l). split; [done |]. split; [rewrite length_app; lia |]. intros i j Hi' Hj. destruct (Z.eq_dec i 0) as [-> | Hne].
  - rewrite lookup_app_l by lia. unfold one. rewrite lookup_take_lt, lookup_drop by lia. rewrite Z.add_0_r, Z.mod_small by lia. f_equal. nia.
  - rewrite lookup_app_r by nia. rewrite Hone. replace (Z.to_nat (i * sample_len s + j) - Z.to_nat (sample_len s))%nat with (Z.to_nat ((i - 1) * sample_len s + j)) by nia.
    rewrite Hi by lia. rewrite Z.add_mod_idemp_l by lia. by replace (a + 1 + (i - 1)) with (a + i) by lia.
Qed.

(** The record of a full buffer is displayed sample by sample. *)
Lemma display_spec s recs : settings_ok s -> holds s recs -> Z.of_nat (length recs) = slots s ->
  exists l, capture_copy_data s = Some l /\ Z.of_nat (length l) = buf_len s /\
    forall i h, recs !! i = Some h -> shows (rt_channels s) l (Z.of_nat i * sample_len s) h.
Proof.
  intros Hok (a & Ha & Hst & Hcu & Hsa & Hsh) Hfull. pose proof (slots_bound s Hok ltac:(lia)) as Hb. pose proof Hok as [Hl Hmax Hsl Hw Hrec].
  destruct (copy_samples_spec (Z.to_nat (samples s)) s a Hok Ha) as (l & Hc & Hll & Hi). unfold capture_copy_data. rewrite Hst, Hc. cbn [mbind option_bind].
  rewrite (proj2 (Z.leb_le _ _)) by nia. eexists. split; [reflexivity |]. split; [rewrite length_app, length_replicate; nia |].
  intros i h Hh. specialize (Hsh i h Hh). apply lookup_lt_Some in Hh. revert Hsh.
  pose proof (Z.mod_pos_bound (a + Z.of_nat i) (slots s) ltac:(lia)).
  apply shows_agree; [nia | nia |]. intros j Hj. rewrite lookup_app_l by nia. apply Hi; lia.
Qed.

(** ** The comparison of doubles on their bits *)

(** The value without the sign bit: a mantissa [M] and an exponent [K]. *)
Definition mag (s : bool) (r : Z) : double :=
  if r / 2 ^ 52 =? 2047 then if r mod 2 ^ 52 =? 0 then S754_infinity s else S754_nan
  else match (if r / 2 ^ 52 =? 0 then r mod 2 ^ 52 else r mod 2 ^ 52 + 2 ^ 52) with
       | Zpos m => S754_finite s m (Z.max (r / 2 ^ 52) 1 - 1075)
       | _ => S754_zero s
       end.

Lemma mag_form r : 0 <= r <= 2047 * 2 ^ 52 ->
  (r = 2047 * 2 ^ 52 /\ forall s, mag s r = S754_infinity s) \/ (r = 0 /\ forall s, mag s r = S754_zero s) \/
  exists m K, (forall s, mag s r = S754_finite s m (K - 1074)) /\ r = Zpos m + K * 2 ^ 52 /\ 0 <= K < 2046 /\ Zpos m < 2 ^ 53 /\ (0 < K -> 2 ^ 52 <= Zpos m).
Proof.
  intros Hr. unfold mag. pose proof (Z.div_mod r (2 ^ 52) ltac:(lia)) as Hd. pose proof (Z.mod_pos_bound r (2 ^ 52) ltac:(lia)) as Hm.
  assert (0 <= r / 2 ^ 52 <= 2047) as He by (split; [apply Z.div_pos; lia | apply Z.div_le_upper_bound; lia]).
  set (e := r / 2 ^ 52) in *. set (m := r mod 2 ^ 52) in *.
  destruct (e =? 2047) eqn:E1; zb.
  - left. assert (m = 0) as -> by lia. split; [lia | done].
  - right. destruct (e =? 0) eqn:E0; zb.
    + destruct m as [| p | p] eqn:Em; [left; split; [lia | done] | right; exists p, 0 | lia]. rewrite E0. split; [intros s; f_equal; lia |]. lia.
    + right. destruct (m + 2 ^ 52) as [| p | p] eqn:Em; [lia | | lia]. exists p, (e - 1). split; [intros s; f_equal; lia |]. lia.
Qed.

Lemma float_of_bits_mag s r : 0 <= r < 2 ^ 63 -> float_of_bits (Z.b2z s * 2 ^ 63 + r) = mag s r.
Proof.
  intros Hr. unfold float_of_bits, mag.
  assert ((Z.b2z s * 2 ^ 63 + r) / 2 ^ 63 = Z.b2z s) as -> by (rewrite Z.add_comm, Z.div_add, Z.div_small; lia).
  assert (negb (Z.b2z s mod 2 =? 0) = s) as -> by by destruct s.
  assert ((Z.b2z s * 2 ^ 63 + r) / 2 ^ 52 mod 2 ^ 11 = r / 2 ^ 52) as ->.
  { replace (Z.b2z s * 2 ^ 63 + r) with (r + (Z.b2z s * 2 ^ 11) * 2 ^ 52) by lia. rewrite Z.div_add, Z.mod_add by lia.
    apply Z.mod_small. split; [apply Z.div_pos; lia | apply Z.div_lt_upper_bound; lia]. }
  assert ((Z.b2z s * 2 ^ 63 + r) mod 2 ^ 52 = r mod 2 ^ 52) as ->; [| done].
  replace (Z.b2z s * 2 ^ 63 + r) with (r + (Z.b2z s * 2 ^ 11) * 2 ^ 52) by lia. apply Z.mod_add. lia.
Qed.

(** The order of finite magnitudes is the order of their exponents, then of
    their mantissas. *)
Lemma mag_order m1 K1 m2 K2 : 0 <= K1 -> 0 <= K2 -> Zpos m1 < 2 ^ 53 -> Zpos m2 < 2 ^ 53 -> (0 < K1 -> 2 ^ 52 <= Zpos m1) -> (0 < K2 -> 2 ^ 52 <= Zpos m2) ->
  (Zpos m1 + K1 * 2 ^ 52 ?= Zpos m2 + K2 * 2 ^ 52) = match K1 - 1074 ?= K2 - 1074 with Eq => (m1 ?= m2)%positive | c => c end.
Proof.
  intros. destruct (Z.compare_spec (K1 - 1074) (K2 - 1074)).
  - assert (K1 = K2) as -> by lia. change (m1 ?= m2)%positive with (Zpos m1 ?= Zpos m2). destruct (Z.compare_spec (Zpos m1) (Zpos m2)); [apply Z.compare_eq_iff | apply Z.compare_lt_iff | apply Z.compare_gt_iff]; lia.
  - apply Z.compare_lt_iff. lia.
  - apply Z.compare_gt_iff. lia.
Qed.

Lemma mag_lt x y : 0 <= x <= 2047 * 2 ^ 52 -> 0 <= y <= 2047 * 2 ^ 52 -> 
  dlt (mag false x) (mag false y) = (x <? y) /\ dlt (mag true y) (mag true x) = (x <? y) /\
  dlt (mag false x) (mag true y) = false /\ dlt (mag true x) (mag false y) = negb ((x =? 0) && (y =? 0)).
Proof.
  intros Hx Hy. destruct (mag_form x Hx) as [[-> Ex] | [[-> Ex] | (m1 & K1 & Ex & -> & ? & ? & ?)]], (mag_form y Hy) as [[-> Ey] | [[-> Ey] | (m2 & K2 & Ey & -> & ? & ? & ?)]];
    rewrite ?Ex, ?Ey; unfold dlt, SFltb, SFcompare.
  all: try (repeat split; try done; symmetry; first [apply Z.ltb_lt; lia | apply Z.ltb_ge; lia | apply negb_true_iff, andb_false_iff; rewrite !Z.eqb_neq; lia]).
  unfold Z.ltb. rewrite mag_order by lia. repeat split.
  - change (Pos.compare_cont Eq m2 m1) with (m2 ?= m1)%positive. rewrite (Z.compare_antisym (K1 - 1074)), (Pos.compare_antisym m1 m2).
    by destruct (K1 - 1074 ?= K2 - 1074), (m1 ?= m2)%positive.
  - symmetry. apply negb_true_iff, andb_false_iff. rewrite !Z.eqb_neq. lia.
Qed.

(** A bit pattern is a sign and a magnitude. *)
Lemma sign_bit s r : 0 <= r < 2 ^ 63 -> negb (Z.land (Z.b2z s * 2 ^ 63 + r) SIGN =? 0) = s /\ Z.lxor (2 ^ 63 + r) SIGN = r.
Proof.
  intros Hr. assert (Z.land r SIGN = 0) as Hl.
  { unfold SIGN. apply Z.bits_inj'. intros i Hi. rewrite Z.land_spec, Z.pow2_bits_eqb, Z.bits_0 by lia. destruct (Z.eqb_spec 63 i) as [<- |]; [| by rewrite andb_false_r].
    rewrite andb_true_r. apply Z.testbit_false; [lia |]. by rewrite Z.div_small by lia. }
  assert (2 ^ 63 + r = Z.lxor SIGN r) as E by (unfold SIGN in *; rewrite Z.add_nocarry_lxor; [done | by rewrite Z.land_comm]).
  split.
  - destruct s; cbn [Z.b2z]; rewrite ?Z.mul_1_l, ?Z.mul_0_l, ?Z.add_0_l; [| by rewrite Hl]. rewrite E.
    apply negb_true_iff, Z.eqb_neq. intros H0. apply (f_equal (fun z => Z.testbit z 63)) in H0. rewrite Z.land_spec, Z.lxor_spec, Z.bits_0 in H0.
    assert (Z.testbit SIGN 63 = true) as Et by done. rewrite Et in H0. assert (Z.testbit r 63 = false) as Er by (apply Z.testbit_false; [lia |]; by rewrite Z.div_small by lia). by rewrite Er in H0.
  - rewrite E, (Z.lxor_comm SIGN), Z.lxor_assoc, Z.lxor_nilpotent. apply Z.lxor_0_r.
Qed.

(** ** A capture from its start to the display *)

(** The settings that user space has made, [P] samples before the trigger. *)
Record start_ok (s : scope) (P : nat) : Prop := {
  st_init : state s = INIT;
  st_len : Z.of_nat (length (buffer s)) = buf_len s;
  st_max : 0 <= buf_len s < 2 ^ 30;
  st_sample : 0 < sample_len s <= 16;
  st_width : width (shm_channels s) <= sample_len s;
  st_rec : rec_len s = buf_len s / sample_len s;
  st_chan : 0 <= trig_chan s <= Z.of_nat (length (shm_channels s));
  st_pre : Z.of_nat P = Z.max 1 (pre_trig s);
  st_room : Z.of_nat P + 2 <= rec_len s;
}.

(** The program makes such settings: a record length and then a capture from
    IDLE, when no source has been deleted and the trigger is within the
    record. *)
Lemma width_set us chs : (forall u, u ∈ us -> source u <> Deleted) -> length us = length chs ->
  width (snd (set_channels us chs)) <= Z.of_nat (length (List.filter (fun b : bool => b) (map chan_enabled us))).
Proof.
  revert chs. induction us as [| u us IH]; intros [| c chs] Hd Hl; try discriminate Hl; [done |].
  specialize (IH chs (fun u' H => Hd u' (list_elem_of_further _ _ _ H)) (eq_add_S _ _ Hl)). pose proof (Hd u (list_elem_of_here _ _)).
  cbn [set_channels map List.filter].
  destruct (source u); [| done |]; cbn [snd]; rewrite width_cons; unfold sampled; cbn [data_len]; destruct (chan_enabled u); cbn [length Z.eqb orb]; try (case_match; lia); lia.
Qed.

Lemma start_capture_ok s setting us position s1 us' s2 P : state s = IDLE -> Z.of_nat (length (buffer s)) = buf_len s -> 0 <= buf_len s < 2 ^ 30 ->
  length us = length (shm_channels s) -> (forall u, u ∈ us -> source u <> Deleted) ->
  set_rec_len setting (map chan_enabled us) s = (0, s1) -> start_capture us position s1 = Some (us', s2) ->
  0 <= trig_chan s <= Z.of_nat (length us) -> Z.of_nat P = Z.max 1 (pre_trig s2) -> Z.of_nat P + 2 <= rec_len s2 -> start_ok s2 P.
Proof.
  intros Hst Hl Hm Hlen Hd Hset Hcap Htc HP Hroom. unfold set_rec_len in Hset.
  destruct (negb _) eqn:E1; [discriminate Hset |]. destruct (setting <? _) eqn:E2; [discriminate Hset |]. injection Hset as <-. zb.
  unfold start_capture in Hcap. cbn [state] in Hcap. rewrite Hst in Hcap. cbn in Hcap. apply bind_Some in Hcap as (pre & _ & Hcap). injection Hcap as _ <-.
  apply negb_false_iff in E1. assert (0 < setting <= 16) as Hs by (repeat (apply orb_true_iff in E1 as [E1 | E1]); zb; lia).
  pose proof (width_set us (shm_channels s) Hd Hlen). split; try done; cbn [shm_channels sample_len trig_chan buf_len rec_len].
  - lia.
  - apply Z.quot_div_nonneg; lia.
  - assert (length (snd (set_channels us (shm_channels s))) = length (shm_channels s)) as ->; [| lia].
    clear -Hd. generalize (shm_channels s). induction us as [| u us IH]; intros [| c chs]; try done. cbn [set_channels]. destruct (source u); cbn [snd length]; try done; f_equal; apply IH; intros u' Hu; apply Hd; by right.
Qed.

Lemma start_phase s P m h t : start_ok s P -> 
  exists s0, run_state_machine m s = Some s0 /\ settings_ok s0 /\ trigger_ok s0 /\ pre_trig s0 = pre_trig s /\ rec_len s0 = rec_len s /\
    rt_channels s0 = shm_channels s /\ sample_len s0 = sample_len s /\ auto_trig s0 = auto_trig s /\ phase s0 h P t 0 s0.
Proof.
  intros [Hi Hl Hm Hs Hw Hr Hc HP Hroom]. unfold run_state_machine. rewrite Hi. eexists. split; [reflexivity |].
  pose proof (Z.div_le_upper_bound (buf_len s) (sample_len s) (2 ^ 30 - 1) ltac:(lia) ltac:(nia)).
  split; [by split |]. split; [split; [done | exact Hc | cbn; lia] |]. do 5 (split; [done |]).
  split; [done |]. rewrite (proj2 (Nat.ltb_lt 0 P)) by lia. split; [done |]. split; [done |].
  exists 0. unfold slots. cbn. rewrite <- Hr. split; [lia |]. split; [done |]. split; [by rewrite Z.mod_0_l by lia |]. done.
Qed.

(** The record of a capture whose trigger fires at [t]. *)
Lemma record_core s s0 P m (h : nat -> memory) t : start_ok s P -> run_state_machine m s = Some s0 ->
  (P <= t)%nat -> fires s0 h P t = true -> (forall i, (P <= i < t)%nat -> fires s0 h P i = false) ->
  (forall k, exists s1, ticks h k s0 = Some s1 /\ phase s0 h P t k s1) /\
  forall s1, phase s0 h P t (t - P + Z.to_nat (rec_len s)) s1 -> state s1 = DONE /\
    exists l, capture_copy_data s1 = Some l /\
    forall i, (i < Z.to_nat (rec_len s))%nat -> shows (shm_channels s) l (Z.of_nat i * sample_len s) (h (t - P + i)%nat).
Proof.
  intros Hst Hrun Ht Hat Hbefore. destruct (start_phase s P m h t Hst) as (s0' & Hr & Hset & Htr & Epre & Erec & Ech & Esl & _ & Hph).
  assert (s0' = s0) as -> by congruence. destruct Hst as [_ _ _ _ _ _ _ HP Hroom]. rewrite <- Epre in HP. rewrite <- Erec in Hroom.
  split; [exact (fun k => ticks_phase s0 h P t Hset Htr HP Hroom Hbefore Hat Ht k s0 Hph) |].
  intros s1 [Hsame Hph1]. rewrite (proj2 (Nat.ltb_ge _ P)), (proj2 (Nat.leb_gt _ t)), (proj2 (Z.ltb_ge _ _)) in Hph1 by lia. destruct Hph1 as (Ed & Hh).
  split; [done |]. destruct (same_settings s0 s1 Hsame Hset) as (Hok1 & Hsl1 & _). rewrite Erec in Hh.
  destruct (display_spec s1 _ Hok1 Hh) as (l & Hc & _ & Hl); [rewrite window_length, Hsl1; destruct Hset; lia |].
  exists l. split; [done |]. intros i Hi. rewrite <- Ech, <- Esl.
  destruct Hsame as (_ & _ & _ & Es & _ & _ & _ & _ & _ & _ & Er). rewrite <- Es, <- Er. apply Hl. unfold window.
  by rewrite list_lookup_fmap, lookup_seq_lt.
Qed.

(** C20: A capture records what is around the trigger.  [P] is the number of
    samples before the trigger, and [t] is the first tick from [P] on at
    which the trigger fires: the selected channel crosses the level in the
    selected direction, or with auto trigger the time is over.  Until the
    record is full the state is not DONE; then it is, and the program reads a
    display buffer in which sample [i] shows the memory of tick
    [t - P + i], for every [i] of the record. *)
Theorem scope_record s s0 P m (h : nat -> memory) t : start_ok s P -> run_state_machine m s = Some s0 ->
  (P <= t)%nat -> fires s0 h P t = true -> (forall i, (P <= i < t)%nat -> fires s0 h P i = false) ->
  let n := (t - P + Z.to_nat (rec_len s))%nat in
  (forall k, (k < n)%nat -> exists s1, ticks h k s0 = Some s1 /\ state s1 <> DONE) /\
  exists s1 l, ticks h n s0 = Some s1 /\ state s1 = DONE /\ capture_copy_data s1 = Some l /\
    forall i, (i < Z.to_nat (rec_len s))%nat -> shows (shm_channels s) l (Z.of_nat i * sample_len s) (h (t - P + i)%nat).
Proof.
  intros Hst Hrun Ht Hat Hbefore n. destruct (record_core s s0 P m h t Hst Hrun Ht Hat Hbefore) as [Hrun' Hend]. split.
  - intros k Hk. destruct (Hrun' k) as (s1 & E1 & _ & Hph1). exists s1. split; [done |].
    destruct (start_phase s P m h t Hst) as (s0' & Hr & _ & _ & _ & Erec & _). assert (s0' = s0) as -> by congruence.
    destruct (k <? P)%nat; [destruct Hph1 as (-> & _); done |]. destruct (k <=? t)%nat eqn:Ekt; [destruct Hph1 as (-> & _); done |].
    apply Nat.leb_gt in Ekt. rewrite (proj2 (Z.ltb_lt _ _)) in Hph1 by (destruct Hst; lia). destruct Hph1 as (-> & _). done.
  - destruct (Hrun' n) as (s1 & E1 & Hph1). destruct (Hend s1 Hph1) as (Ed & l & Hl). by exists s1, l.
Qed.

(** The first tick at which the trigger fires. *)
Lemma first_true (f : nat -> bool) P m : (P <= m)%nat -> f m = true -> exists t, (P <= t <= m)%nat /\ f t = true /\ forall i, (P <= i < t)%nat -> f i = false.
Proof.
  induction m as [m IH] using lt_wf_ind. intros HP Hm. destruct (existsb f (seq P (m - P))) eqn:Ee.
  - apply existsb_exists in Ee as (i & Hi & Hf). apply in_seq in Hi. destruct (IH i ltac:(lia) ltac:(lia) Hf) as (t & Ht & Hft & Hb). exists t. split; [lia | done].
  - exists m. split; [lia |]. split; [done |]. intros i Hi. destruct (f i) eqn:E; [| done].
    rewrite <- Ee. symmetry. apply existsb_exists. exists i. split; [apply in_seq; lia | done].
Qed.

(** With auto trigger every capture ends, whatever the signals do: after
    fewer than two records of samples the state is DONE, and the display
    buffer shows consecutive samples. *)
Theorem scope_auto s s0 P m (h : nat -> memory) : start_ok s P -> run_state_machine m s = Some s0 -> auto_trig s = true ->
  exists n s1 l from, (n <= 2 * Z.to_nat (rec_len s) - 2)%nat /\ ticks h n s0 = Some s1 /\ state s1 = DONE /\ capture_copy_data s1 = Some l /\
    (from + Z.to_nat (rec_len s))%nat = n /\
    forall i, (i < Z.to_nat (rec_len s))%nat -> shows (shm_channels s) l (Z.of_nat i * sample_len s) (h (from + i)%nat).
Proof.
  intros Hst Hrun Ha. destruct (start_phase s P m h 0 Hst) as (s0' & Hr & _ & _ & _ & Erec & _ & _ & Eauto & _). assert (s0' = s0) as -> by congruence.
  pose proof Hst as [_ _ _ _ _ _ _ HP Hroom].
  destruct (first_true (fires s0 h P) P (P + Z.to_nat (rec_len s) - 2)) as (t & Ht & Hat & Hb); [lia | |].
  { unfold fires. rewrite Eauto, Ha, Erec. rewrite (proj2 (Z.leb_le _ _)) by lia. done. }
  destruct (record_core s s0 P m h t Hst Hrun ltac:(lia) Hat Hb) as [Hrun' Hend]. destruct (Hrun' (t - P + Z.to_nat (rec_len s))%nat) as (s1 & E1 & Hph1).
  destruct (Hend s1 Hph1) as (Ed & l & Hc & Hl). exists (t - P + Z.to_nat (rec_len s))%nat, s1, l, (t - P)%nat. split; [lia |]. done.
Qed.

(** The comparison of two doubles on their bits, which the trigger uses
    so that the kernel needs no floating point, is the comparison of the
    doubles, for all values but NaN, except that 0.0 is above -0.0. *)
Theorem float_above_spec s1 r1 s2 r2 : 0 <= r1 <= 2047 * 2 ^ 52 -> 0 <= r2 <= 2047 * 2 ^ 52 ->
  let b1 := Z.b2z s1 * 2 ^ 63 + r1 in let b2 := Z.b2z s2 * 2 ^ 63 + r2 in
  float_above b1 b2 = dlt (float_of_bits b2) (float_of_bits b1) || (negb s1 && s2 && (r1 =? 0) && (r2 =? 0)).
Proof.
  intros H1 H2 b1 b2. subst b1 b2. rewrite !float_of_bits_mag by lia. unfold float_above.
  destruct (sign_bit s1 r1) as [-> E1]; [lia |]. destruct (sign_bit s2 r2) as [-> E2]; [lia |].
  destruct (mag_lt r1 r2 H1 H2) as (L1 & L2 & L3 & L4). destruct (mag_lt r2 r1 H2 H1) as (M1 & M2 & M3 & M4).
  destruct s1, s2; cbn [Z.b2z negb andb orb]; rewrite ?Z.mul_1_l, ?Z.mul_0_l, ?Z.add_0_l, ?orb_false_r.
  - by rewrite E1, E2, L2.
  - by rewrite M3.
  - rewrite M4. by destruct (r2 =? 0), (r1 =? 0).
  - by rewrite M1.
Qed.

(** ** Concrete runs *)

(** A channel of 4 bytes with pre-trigger and a rising edge. *)
Definition example : scope :=
  MkScope (replicate 10 0) 0 0 [] 1 10 0 1 5 2 2 1 (put_low 32 0 3) true false false 0 0 0 INIT [Channel 0 HAL_U32 4; Channel 8 HAL_BIT 1].
Definition ramp (n : nat) : memory := fun a => if a =? 0 then Z.of_nat n else 1.

Theorem scope_record_witness : exists s0 s1 l, run_state_machine (ramp 0) example = Some s0 /\ ticks ramp 7 s0 = Some s1 /\ state s1 = DONE /\ capture_copy_data s1 = Some l /\
  l = [2; 1; 3; 1; 4; 1; 5; 1; 6; 1].
Proof.
  destruct (run_state_machine (ramp 0) example) as [s0 |] eqn:E0; [| discriminate E0].
  assert (start_ok example 2) as Hok by (split; [reflexivity | reflexivity | | | | reflexivity | | reflexivity |]; unfold width; cbn; lia).
  assert (fires s0 ramp 2 4 = true) as H4 by (vm_compute in E0; injection E0 as <-; reflexivity).
  assert (forall i, (2 <= i < 4)%nat -> fires s0 ramp 2 i = false) as Hb.
  { intros i Hi. assert (i = 2%nat \/ i = 3%nat) as [-> | ->] by lia; vm_compute in E0; injection E0 as <-; reflexivity. }
  destruct (scope_record example s0 2 (ramp 0) ramp 4 Hok E0 ltac:(lia) H4 Hb) as [_ (s1 & l & E1 & Ed & Ec & _)].
  exists s0, s1, l. split; [reflexivity |]. split; [exact E1 |]. split; [exact Ed |]. split; [exact Ec |].
  vm_compute in E0. injection E0 as <-. vm_compute in E1. injection E1 as <-. vm_compute in Ec. by injection Ec as <-.
Defined.

Theorem scope_auto_witness : exists s0 n s1, run_state_machine (ramp 0) {| example with auto_trig := true |} = Some s0 /\ (n <= 8)%nat /\ ticks (fun _ => ramp 0) n s0 = Some s1 /\ state s1 = DONE.
Proof.
  destruct (run_state_machine (ramp 0) {| example with auto_trig := true |}) as [s0 |] eqn:E0; [| discriminate E0].
  destruct (scope_auto {| example with auto_trig := true |} s0 2 (ramp 0) (fun _ => ramp 0)) as (n & s1 & l & from & Hn & E1 & Ed & _).
  - split; [reflexivity | reflexivity | | | | reflexivity | | reflexivity |]; unfold width; cbn; lia.
  - exact E0.
  - reflexivity.
  - exists s0, n, s1. split; [reflexivity |]. split; [exact Hn |]. done.
Defined.

(** -1.5 is below 2.0 and above -2.0. *)
Theorem float_above_spec_witness : float_above 0xbff8000000000000 0xc000000000000000 = true /\ dlt (float_of_bits 0xc000000000000000) (float_of_bits 0xbff8000000000000) = true.
Proof.
  pose proof (float_above_spec true 0x3ff8000000000000 true 0x4000000000000000 ltac:(lia) ltac:(lia)) as H. split; [etransitivity; [exact H | reflexivity] | reflexivity].
Defined.

(** A deleted source ends the loop over the channels: the channels behind it
    keep the addresses of the previous capture. *)
Example stale_sources : snd (set_channels [Chan Deleted HAL_FLOAT 8 true; Chan (AtOffset 8) HAL_U32 4 true] [Channel 100 HAL_FLOAT 8; Channel 200 HAL_FLOAT 8]) =
  [Channel 100 HAL_FLOAT 8; Channel 200 HAL_FLOAT 8].
Proof. reflexivity. Qed.
