(* ===== verification/Samstr.v ===== *)
(** * Sampler and streamer (modules/managed/components/sampler and streamer,
      modules/unmanaged/components/sampler_usr and halstreamer)

    The sampler puts the values of its pins into a circular buffer in shared
    memory, from which a program reads them; the streamer takes the values of
    its pins from such a buffer, which a program fills.  The realtime funct
    of the sampler is one definition, as it preempts the program; the other
    sides are sequences of single loads and stores.  [None] is an access
    outside of the buffer. *)
From S2P Require Import Prelude HalData.

Module Samstr.

Definition MAX_PINS : Z := 20.
Definition MAX_SHMEM : Z := 128000.

(** A [shmem_data_t] is a union of 8 bytes. *)
Record fifo_t := MkFifo {
  f_in : Z;
  f_out : Z;
  f_depth : Z;
  f_num_pins : Z;
  f_type : list Z;
  f_data : list hal_data_u;
  last_sample : Z;
}.

(** ** Configuration *)

(** The types of the pins and their number, 0 if the string is wrong. *)
Definition type_of (c : Z) : option Z :=
  if (c =? 102) || (c =? 70) then Some HAL_FLOAT
  else if (c =? 98) || (c =? 66) then Some HAL_BIT
  else if (c =? 117) || (c =? 85) then Some HAL_U32
  else if (c =? 115) || (c =? 83) then Some HAL_S32
  else None.

Fixpoint parse_loop (cfg : list Z) (types : list Z) : Z * list Z :=
  match cfg with
  | [] => (Z.of_nat (length types), types)
  | c :: cfg =>
      if Z.of_nat (length types) <? MAX_PINS then
        match type_of c with Some t => parse_loop cfg (types ++ [t]) | None => (0, types) end
      else (0, types)
  end.

Definition parse_types (cfg : list Z) : Z * list Z := parse_loop cfg [].

(** The configurations up to the first one without a string or a depth;
    [extra] is the place for the sample number. *)
Fixpoint check_config (extra sizeof_data : Z) (cfg : list (option (list Z))) (depth : list Z) : Z + list fifo_t :=
  match cfg, depth with
  | Some c :: cfg, d :: depth =>
      if d <=? 0 then inr []
      else
        let '(n, types) := parse_types c in
        if n =? 0 then inl (- EINVAL)
        else if MAX_SHMEM / (sizeof_data * (n + extra)) <? d then inl (- ENOMEM)
        else match check_config extra sizeof_data cfg depth with
             | inr fifos => inr (MkFifo 0 0 d n types (replicate (Z.to_nat (d * (n + extra))) 0) (u64 (- extra)) :: fifos)
             | e => e
             end
  | _, _ => inr []
  end.

Definition configure (extra sizeof_data : Z) (cfg : list (option (list Z))) (depth : list Z) : Z + list fifo_t :=
  match check_config extra sizeof_data cfg depth with inr [] => inl (- EINVAL) | r => r end.

(** ** The buffer *)

Definition next (depth i : Z) : Z := let n := s32 (i + 1) in if depth <=? n then 0 else n.

Definition store (i : Z) (v : hal_data_u) (l : list hal_data_u) : option (list hal_data_u) :=
  if (0 <=? i) && (i <? Z.of_nat (length l)) then Some (<[Z.to_nat i := v]> l) else None.
Definition load (i : Z) (l : list hal_data_u) : option hal_data_u :=
  if 0 <=? i then l !! Z.to_nat i else None.

(** A value of a pin in the field of the union that belongs to its type. *)
Definition put_field (type : Z) (cell v : hal_data_u) : hal_data_u :=
  if type =? HAL_FLOAT then set_float_value cell (get_float_value v)
  else if type =? HAL_BIT then set_bit_value cell (if get_bit_value v =? 0 then 0 else 1)
  else if type =? HAL_U32 then set_u32_value cell (get_u32_value v)
  else if type =? HAL_S32 then set_s32_value cell (get_s32_value v)
  else cell.

(** The value that a field stands for. *)
Definition field (type : Z) (cell : hal_data_u) : Z :=
  if type =? HAL_FLOAT then get_float_value cell
  else if type =? HAL_BIT then if get_bit_value cell =? 0 then 0 else 1
  else if type =? HAL_U32 then get_u32_value cell
  else if type =? HAL_S32 then get_s32_value cell
  else 0.

(** ** The realtime part of the sampler *)
Record sampler_t := MkSampler {
  s_fifo : fifo_t;
  s_curr_depth : Z;
  full : bool;
  s_enable : bool;
  overruns : Z;
  sample_num : Z;
  s_pins : list hal_data_u;
}.

Fixpoint copy_pins (types : list Z) (pins : list hal_data_u) (i : Z) (data : list hal_data_u) : option (list hal_data_u) :=
  match types, pins with
  | t :: types, v :: pins =>
      old ← load i data;
      data ← store i (put_field t old v) data;
      copy_pins types pins (i + 1) data
  | _, _ => Some data
  end.

Definition sample (s : sampler_t) : option sampler_t :=
  if negb (s_enable s) then Some s
  else
    let f := s_fifo s in
    let tmpin := f_in f in
    let newin := next (f_depth f) tmpin in
    let overrun := newin =? f_out f in
    let tmpout := if overrun then next (f_depth f) (f_out f) else f_out f in
    let dptr := tmpin * (f_num_pins f + 1) in
    data ← copy_pins (f_type f) (s_pins s) dptr (f_data f);
    old ← load (dptr + f_num_pins f) data;
    data ← store (dptr + f_num_pins f) (set_u32_value old (sample_num s)) data;
    Some {| s with
      s_fifo := {| f with f_in := newin; f_out := tmpout; f_data := data |};
      s_curr_depth := (if newin <? tmpout then newin + f_depth f else newin) - tmpout;
      full := overrun;
      overruns := if overrun then s32 (overruns s + 1) else overruns s;
      sample_num := s32 (sample_num s + 1) |}.

(** ** The program that reads the samples *)

(** Where the program is in its loop: [in] has been loaded, [out] is to be
    loaded, the record is being read, the record is complete and still there. *)
Inductive reader := Waiting | Looked (i : Z) | Start | Reading (tmpout : Z) (buf : list hal_data_u) | Storing (tmpout : Z) (buf : list hal_data_u).

(** What is printed of a sample: [overrun] if samples are missing before it,
    its number, its values. *)
Record printed := Printed { missed : bool; number : Z; values : list Z }.

Definition print_sample (f : fifo_t) (buf : list hal_data_u) : option (printed * fifo_t) :=
  c ← load (f_num_pins f) buf;
  let this_sample := get_u32_value c in
  Some (Printed (negb (this_sample =? u64 (last_sample f + 1))) this_sample (zip_with field (f_type f) buf), {| f with last_sample := this_sample |}).

(** One load or store. *)
Definition read_step (f : fifo_t) (r : reader) : option (reader * fifo_t * option printed) :=
  match r with
  | Waiting => Some (Looked (f_in f), f, None)
  | Looked i => Some (if i =? f_out f then Waiting else Start, f, None)
  | Start => Some (Reading (f_out f) [], f, None)
  | Reading tmpout buf =>
      if Z.of_nat (length buf) <? f_num_pins f + 1 then
        v ← load (tmpout * (f_num_pins f + 1) + Z.of_nat (length buf)) (f_data f);
        Some (Reading tmpout (buf ++ [v]), f, None)
      else Some (if f_out f =? tmpout then Storing tmpout buf else Waiting, f, None)
  | Storing tmpout buf =>
      '(p, f) ← print_sample {| f with f_out := next (f_depth f) tmpout |} buf;
      Some (Waiting, f, Some p)
  end.

(** ** The realtime part of the streamer *)
Record streamer_t := MkStreamer {
  t_fifo : fifo_t;
  t_curr_depth : Z;
  empty : bool;
  t_enable : bool;
  underruns : Z;
  t_pins : list hal_data_u;
}.

(** Where the funct is: [in] has been loaded, the pins are being set. *)
Inductive updater := Idle | GotIn (tmpin : Z) | Copying (tmpout n : Z).

Definition update_step (s : streamer_t) (u : updater) : option (updater * streamer_t) :=
  let f := t_fifo s in
  match u with
  | Idle => Some (if t_enable s then GotIn (f_in f) else Idle, s)
  | GotIn tmpin =>
      let tmpout := f_out f in
      if tmpout =? tmpin then Some (Idle, {| s with underruns := s32 (underruns s + 1); empty := true; t_curr_depth := 0 |})
      else
        let tmpin := if tmpin <? tmpout then tmpin + f_depth f else tmpin in
        Some (Copying tmpout 0, {| s with empty := false; t_curr_depth := tmpin - tmpout |})
  | Copying tmpout n =>
      if n <? f_num_pins f then
        cell ← load (tmpout * f_num_pins f + n) (f_data f);
        t ← load n (f_type f);
        old ← load n (t_pins s);
        pins ← store n (put_field t old cell) (t_pins s);
        Some (Copying tmpout (n + 1), {| s with t_pins := pins |})
      else Some (Idle, {| s with t_fifo := {| f with f_out := next (f_depth f) tmpout |} |})
  end.

(** A call of the funct that nothing interrupts. *)
Fixpoint run_update (fuel : nat) (s : streamer_t) (u : updater) : option streamer_t :=
  match fuel with
  | O => None
  | S fuel => '(u, s) ← update_step s u; match u with Idle => Some s | _ => run_update fuel s u end
  end.
Definition update (s : streamer_t) : option streamer_t := run_update (Z.to_nat (f_num_pins (t_fifo s)) + 3) s Idle.

(** ** The program that fills the buffer *)

(** A line of its input: the fields up to the first wrong one. *)
Record line_t := Line { fields : list hal_data_u; good : bool }.

(** Where the program is: it has a line, it waits for room, it writes the
    fields. *)
Inductive writer := NeedLine | GotLine (l : line_t) | Room (l : line_t) (tmpin : Z) | Filling (l : line_t) (tmpin n : Z).

Definition write_step (f : fifo_t) (w : writer) : option (writer * fifo_t) :=
  match w with
  | NeedLine => Some (NeedLine, f)
  | GotLine l => Some (Room l (f_in f), f)
  | Room l tmpin => Some (if next (f_depth f) tmpin =? f_out f then Room l tmpin else Filling l tmpin 0, f)
  | Filling l tmpin n =>
      if n <? Z.of_nat (length (fields l)) then
        v ← load n (fields l);
        t ← load n (f_type f);
        old ← load (tmpin * f_num_pins f + n) (f_data f);
        data ← store (tmpin * f_num_pins f + n) (put_field t old v) (f_data f);
        Some (Filling l tmpin (n + 1), {| f with f_data := data |})
      else Some (NeedLine, if good l then {| f with f_in := next (f_depth f) tmpin |} else f)
  end.

End Samstr.
