(* ===== verification/SamstrTheorems.v ===== *)
(** * Theorems about the sampler and the streamer

    Whatever the interleaving of the two sides, what the program prints are
    samples that have been taken, whole and in their order, and the streamer
    sets the pins to the lines of its input, each whole and none left out. *)
From S2P Require Import Prelude HalData Samstr.
Import Samstr.

(** ** Fields *)

Lemma field_put_field t old v : field t (put_field t old v) = field t v.
Proof.
  unfold field, put_field. repeat case_match; try done; unfold get_float_value, set_float_value, get_bit_value, set_bit_value, get_u32_value, set_u32_value, get_s32_value, set_s32_value in *;
    rewrite ?get_put_low in * by lia; unfold get_low in *; rewrite ?Z.mod_mod in * by lia; zb; try done.
  f_equal. rewrite wraps_mod by lia. by rewrite Z.mod_mod by lia.
Qed.

Lemma load_Some i l : 0 <= i < Z.of_nat (length l) -> exists v, load i l = Some v /\ l !! Z.to_nat i = Some v.
Proof.
  intros Hi. unfold load. rewrite (proj2 (Z.leb_le 0 i)) by lia. destruct (lookup_lt_is_Some_2 l (Z.to_nat i)) as [v Hv]; [lia |]. by exists v.
Qed.

Lemma store_Some i v l : 0 <= i < Z.of_nat (length l) -> store i v l = Some (<[Z.to_nat i := v]> l).
Proof. intros Hi. unfold store. by rewrite (proj2 (Z.leb_le 0 i)), (proj2 (Z.ltb_lt i _)) by lia. Qed.

(** A configured buffer. *)
Record fifo_ok (f : fifo_t) (extra : Z) : Prop := {
  ok_depth : 1 <= f_depth f < 2 ^ 20;
  ok_pins : f_num_pins f = Z.of_nat (length (f_type f));
  ok_few : f_num_pins f <= MAX_PINS;
  ok_data : Z.of_nat (length (f_data f)) = f_depth f * (f_num_pins f + extra);
}.

Lemma parse_loop_spec cfg types n types' : parse_loop cfg types = (n, types') -> Z.of_nat (length types) <= MAX_PINS -> n <> 0 -> n = Z.of_nat (length types') /\ n <= MAX_PINS.
Proof.
  revert types. induction cfg as [| c cfg IH]; intros types H Hl Hn; cbn [parse_loop] in H; [by simplify_eq |].
  destruct (Z.of_nat (length types) <? MAX_PINS) eqn:E; zb; [| by simplify_eq]. destruct (type_of c); [| by simplify_eq].
  apply (IH _ H); [| done]. rewrite length_app. cbn [length]. lia.
Qed.

Lemma configure_ok extra cfg depth fifos f : 0 <= extra <= 1 -> configure extra 8 cfg depth = inr fifos -> In f fifos ->
  fifo_ok f extra /\ f_in f = 0 /\ f_out f = 0 /\ last_sample f = u64 (- extra).
Proof.
  intros He H Hf. assert (check_config extra 8 cfg depth = inr fifos) as Hc. { unfold configure in H. by destruct (check_config extra 8 cfg depth) as [| []]. } clear H.
  revert depth fifos Hc Hf. induction cfg as [| [c |] cfg IH]; intros [| d depth] fifos Hc Hf; cbn [check_config] in Hc; try (injection Hc as <-; destruct Hf).
  destruct (d <=? 0) eqn:Ed; [injection Hc as <-; destruct Hf |]. destruct (parse_types c) as [n types] eqn:Ep.
  destruct (n =? 0) eqn:En; [discriminate Hc |]. destruct (_ <? d) eqn:Em; [discriminate Hc |]. zb.
  destruct (check_config extra 8 cfg depth) as [| fs] eqn:Er; [discriminate Hc |]. injection Hc as <-. destruct Hf as [<- | Hf]; [| by apply (IH depth fs)].
  destruct (parse_loop_spec _ _ _ _ Ep) as [Hn Hm]; [cbn; unfold MAX_PINS; lia | done |]. split; [| done].
  assert (MAX_SHMEM / (8 * (n + extra)) <= MAX_SHMEM) by (apply Z.div_le_upper_bound; unfold MAX_SHMEM in *; lia).
  split; cbn; [unfold MAX_SHMEM in *; lia | done | done | rewrite length_replicate; lia].
Qed.

(** Positions in the buffer *)
Lemma next_mod d k : 1 <= d < 2 ^ 20 -> next d (k mod d) = (k + 1) mod d.
Proof.
  intros Hd. unfold next. pose proof (Z.mod_pos_bound k d ltac:(lia)). rewrite wraps_small by lia.
  destruct (d <=? k mod d + 1) eqn:E; zb.
  - assert (k mod d + 1 = d) as Ek by lia. by rewrite <- Zplus_mod_idemp_l, Ek, Z.mod_same by lia.
  - by rewrite <- Zplus_mod_idemp_l, (Z.mod_small (k mod d + 1)) by lia.
Qed.

Lemma mod_eq_close d a b : 1 <= d -> a mod d = b mod d -> 0 <= b - a < d -> a = b.
Proof.
  intros Hd E Hab. assert ((b - a) mod d = 0) as E0 by (by rewrite Zminus_mod, E, Z.sub_diag, Z.mod_0_l by lia).
  rewrite Z.mod_small in E0 by lia. lia.
Qed.

(** ** One sample *)

(** The record at a position, and what it stands for. *)
Definition slot (w : Z) (data : list hal_data_u) (j : Z) : list hal_data_u := take (Z.to_nat w) (drop (Z.to_nat (j * w)) data).
Definition record_of (types : list Z) (cells : list hal_data_u) : Z * list Z := (get_u32_value (cells !!! length types), zip_with field types cells).

Lemma slot_lookup w data j k : 0 <= j -> 0 <= k < w -> slot w data j !! Z.to_nat k = data !! Z.to_nat (j * w + k).
Proof. intros Hj Hk. unfold slot. rewrite lookup_take_lt, lookup_drop by lia. f_equal. nia. Qed.

Lemma slot_length w data j d : 0 <= w -> 0 <= j < d -> Z.of_nat (length data) = d * w -> length (slot w data j) = Z.to_nat w.
Proof. intros Hw Hj Hl. unfold slot. rewrite length_take, length_drop. nia. Qed.

Lemma slot_agree w data data' j : 0 <= w -> 0 <= j -> (forall k, 0 <= k < w -> data' !! Z.to_nat (j * w + k) = data !! Z.to_nat (j * w + k)) -> slot w data' j = slot w data j.
Proof.
  intros Hw Hj Ha. apply list_eq. intros i. destruct (Z.lt_ge_cases (Z.of_nat i) w) as [Hi | Hi].
  - rewrite <- (Nat2Z.id i), !slot_lookup by lia. apply Ha. lia.
  - rewrite !lookup_ge_None_2; [done | |]; unfold slot; rewrite length_take; lia.
Qed.

Lemma copy_pins_spec types pins i data : length types = length pins -> 0 <= i -> i + Z.of_nat (length types) <= Z.of_nat (length data) ->
  exists data', copy_pins types pins i data = Some data' /\ length data' = length data /\
    (forall k, 0 <= k -> k < i \/ i + Z.of_nat (length types) <= k -> data' !! Z.to_nat k = data !! Z.to_nat k) /\
    forall k t v, types !! k = Some t -> pins !! k = Some v -> exists c, data' !! Z.to_nat (i + Z.of_nat k) = Some c /\ field t c = field t v.
Proof.
  revert pins i data. induction types as [| t types IH]; intros [| v pins] i data Hlen Hi Hl; try discriminate Hlen; cbn [copy_pins]; [by exists data |].
  cbn [length] in *. destruct (load_Some i data) as (old & -> & Hold); [lia |]. cbn [mbind option_bind]. rewrite store_Some by lia. cbn [mbind option_bind].
  destruct (IH pins (i + 1) (<[Z.to_nat i := put_field t old v]> data)) as (data' & -> & Hl' & Hout & Hin); [lia | lia | rewrite length_insert; lia |].
  rewrite length_insert in Hl'. exists data'. split; [done |]. split; [done |]. split.
  - intros k Hk Hor. rewrite Hout by lia. apply list_lookup_insert_ne. lia.
  - intros [| k] t' v' Ht Hv; cbn in Ht, Hv.
    + simplify_eq. exists (put_field t' old v'). rewrite Hout by lia. rewrite Z.add_0_r, list_lookup_insert_eq by lia. by rewrite field_put_field.
    + destruct (Hin k t' v' Ht Hv) as (c & Hc & Hf). exists c. by replace (i + Z.of_nat (S k)) with (i + 1 + Z.of_nat k) by lia.
Qed.

Lemma sample_spec s : let f := s_fifo s in fifo_ok f 1 -> 0 <= f_in f < f_depth f -> length (s_pins s) = length (f_type f) -> s_enable s = true ->
  exists data, length data = length (f_data f) /\
    (forall j, 0 <= j < f_depth f -> j <> f_in f -> slot (f_num_pins f + 1) data j = slot (f_num_pins f + 1) (f_data f) j) /\
    record_of (f_type f) (slot (f_num_pins f + 1) data (f_in f)) = (get_u32_value (sample_num s), zip_with field (f_type f) (s_pins s)) /\
    exists s', sample s = Some s' /\ full s' = (next (f_depth f) (f_in f) =? f_out f) /\ overruns s' = (if next (f_depth f) (f_in f) =? f_out f then s32 (overruns s + 1) else overruns s) /\ sample_num s' = s32 (sample_num s + 1) /\
      s_fifo s' = {| f with f_in := next (f_depth f) (f_in f); f_out := if next (f_depth f) (f_in f) =? f_out f then next (f_depth f) (f_out f) else f_out f; f_data := data |}.
Proof.
  intros f [Hd Hp _ Hl] Hin Hpins Hen. assert (f_in f * (f_num_pins f + 1) + f_num_pins f < Z.of_nat (length (f_data f))) as Hroom by nia.
  destruct (copy_pins_spec (f_type f) (s_pins s) (f_in f * (f_num_pins f + 1)) (f_data f)) as (data & Hc & Hl' & Hout & Hval); [done | nia | lia |].
  destruct (load_Some (f_in f * (f_num_pins f + 1) + f_num_pins f) data) as (old & Ho & Ho'); [nia |].
  exists (<[Z.to_nat (f_in f * (f_num_pins f + 1) + f_num_pins f) := set_u32_value old (sample_num s)]> data). rewrite length_insert. split; [done |]. split; [| split].
  - intros j Hj Hne. apply slot_agree; [lia | lia |]. intros k Hk.
    rewrite list_lookup_insert_ne by nia. apply Hout; [nia |]. rewrite <- Hp. nia.
  - unfold record_of. f_equal.
    + rewrite (list_lookup_total_correct _ _ (set_u32_value old (sample_num s))).
      * unfold get_u32_value, set_u32_value. by rewrite get_put_low by lia.
      * rewrite <- (Nat2Z.id (length (f_type f))), slot_lookup, <- Hp by lia. apply list_lookup_insert_eq. nia.
    + apply list_eq. intros i. rewrite !lookup_zip_with. destruct (f_type f !! i) as [t |] eqn:Et; cbn [mbind option_bind]; [| done].
      pose proof (lookup_lt_Some _ _ _ Et) as Hi. destruct (lookup_lt_is_Some_2 (s_pins s) i) as [v Hv]; [lia |]. rewrite Hv. cbn.
      destruct (Hval i t v Et Hv) as (c & Hcell & Hf). rewrite <- (Nat2Z.id i), slot_lookup by lia.
      rewrite list_lookup_insert_ne by nia. rewrite Hcell. cbn. by rewrite Hf.
  - unfold sample. fold f. rewrite Hen. cbn [negb]. rewrite Hc. cbn [mbind option_bind]. rewrite Ho. cbn [mbind option_bind]. rewrite store_Some by nia. cbn [mbind option_bind].
    eexists. split; [reflexivity |]. split; [done |]. done.
Qed.

(** ** The sampler and the program that reads it

    A run keeps what has been sampled and what has been printed.  [since]
    counts the samples since the program has last loaded [out]; [slow] says
    that the buffer went all the way round while one record was read; [lost]
    that the buffer was full at some sample. *)
Record run := Run {
  smp : sampler_t;
  rd : reader;
  taken : list (Z * list Z);
  printout : list printed;
  since : Z;
  slow : bool;
  lost : bool;
}.

Inductive event := Tick (enabled : bool) (pins : list hal_data_u) | User.

Definition is_reading (r : reader) : bool := match r with Reading _ _ | Storing _ _ => true | _ => false end.

Definition run_event (e : event) (r : run) : option run :=
  match e with
  | Tick false pins => s ← sample {| (smp r) with s_enable := false; s_pins := pins |}; Some {| r with smp := s |}
  | Tick true pins =>
      s ← sample {| (smp r) with s_enable := true; s_pins := pins |};
      Some {| r with smp := s; taken := taken r ++ [(get_u32_value (sample_num (smp r)), zip_with field (f_type (s_fifo (smp r))) pins)];
        since := since r + 1; slow := slow r || (is_reading (rd r) && (f_depth (s_fifo (smp r)) <=? since r + 1)); lost := lost r || full s |}
  | User =>
      '(d, f, p) ← read_step (s_fifo (smp r)) (rd r);
      Some {| r with smp := {| (smp r) with s_fifo := f |}; rd := d; printout := printout r ++ option_list p; since := match rd r with Start => 0 | _ => since r end |}
  end.

Fixpoint run_events (es : list event) (r : run) : option run :=
  match es with [] => Some r | e :: es => r ← run_event e r; run_events es r end.

Definition start (f : fifo_t) : run := Run (MkSampler f 0 false true 0 0 (replicate (length (f_type f)) 0)) Waiting [] [] 0 false false.

(** The numbers and values that have been printed. *)
Definition shown (r : run) : list (Z * list Z) := map (fun p => (number p, values p)) (printout r).

Section Sampler.
Context (d n : Z) (types : list Z).

(** What holds whatever the timing: the buffer is well-formed and the program
    reads within it. *)
Record safe (r : run) : Prop := {
  sf_fifo : fifo_ok (s_fifo (smp r)) 1;
  sf_depth : f_depth (s_fifo (smp r)) = d;
  sf_num : f_num_pins (s_fifo (smp r)) = n;
  sf_type : f_type (s_fifo (smp r)) = types;
  sf_in : 0 <= f_in (s_fifo (smp r)) < d;
  sf_out : 0 <= f_out (s_fifo (smp r)) < d;
  sf_rd : match rd r with
          | Reading t buf => 0 <= t < d /\ Z.of_nat (length buf) <= n + 1
          | Storing t buf => 0 <= t < d /\ Z.of_nat (length buf) = n + 1
          | _ => True
          end;
}.

(** Of the first [m] samples that have been taken, some have been printed,
    all of them if none was lost. *)
Definition got (r : run) (m : Z) : Prop :=
  shown r `sublist_of` take (Z.to_nat m) (taken r) /\ (lost r = false -> shown r = take (Z.to_nat m) (taken r)).

Definition slot_of (r : run) (j : Z) : list hal_data_u := slot (n + 1) (f_data (s_fifo (smp r))) j.

(** [N] samples have been taken and [O] of them are no longer in the buffer. *)
Record exact (r : run) (O : Z) : Prop := {
  ex_in : f_in (s_fifo (smp r)) = Z.of_nat (length (taken r)) mod d;
  ex_out : f_out (s_fifo (smp r)) = O mod d;
  ex_range : 0 <= O <= Z.of_nat (length (taken r)) /\ Z.of_nat (length (taken r)) - O <= d - 1;
  ex_slots : forall k x, taken r !! k = Some x -> Z.of_nat (length (taken r)) - d <= Z.of_nat k -> record_of types (slot_of r (Z.of_nat k mod d)) = x;
  ex_rd : match rd r with
          | Waiting => got r O
          | Looked i => got r O /\ 0 <= i < d /\ (O < Z.of_nat (length (taken r)) \/ i = O mod d)
          | Start => got r O /\ O < Z.of_nat (length (taken r))
          | Reading t buf => exists O0, t = O0 mod d /\ 0 <= O0 <= O /\ O0 < Z.of_nat (length (taken r)) /\ O - O0 <= since r < d /\ got r O0 /\
              (O0 < O -> Z.of_nat (length (taken r)) - O = d - 1 /\ lost r = true) /\ (O0 = O -> buf = take (length buf) (slot_of r t))
          | Storing t buf => exists O0, t = O0 mod d /\ 0 <= O0 <= O /\ O0 < Z.of_nat (length (taken r)) /\ O - O0 <= since r < d /\ got r O0 /\
              (O0 < O -> Z.of_nat (length (taken r)) - O = d - 1 /\ lost r = true) /\ taken r !! Z.to_nat O0 = Some (record_of types buf)
          end;
}.

Definition inv (r : run) : Prop := safe r /\ (slow r = false -> exists O, exact r O).

Lemma got_mono r m m' : 0 <= m <= m' -> shown r `sublist_of` take (Z.to_nat m) (taken r) -> shown r `sublist_of` take (Z.to_nat m') (taken r).
Proof. intros Hm Hs. etransitivity; [exact Hs |]. replace (Z.to_nat m) with (Z.to_nat m `min` Z.to_nat m')%nat by lia. rewrite <- take_take. apply sublist_take. Qed.

(** A sample in a safe state. *)
Lemma tick_safe r pins : safe r -> length pins = length types ->
  exists r' data, run_event (Tick true pins) r = Some r' /\ safe r' /\ rd r' = rd r /\ printout r' = printout r /\ since r' = since r + 1 /\
    taken r' = taken r ++ [(get_u32_value (sample_num (smp r)), zip_with field types pins)] /\
    slow r' = slow r || (is_reading (rd r) && (d <=? since r + 1)) /\
    lost r' = lost r || (next d (f_in (s_fifo (smp r))) =? f_out (s_fifo (smp r))) /\
    f_in (s_fifo (smp r')) = next d (f_in (s_fifo (smp r))) /\
    f_out (s_fifo (smp r')) = (if next d (f_in (s_fifo (smp r))) =? f_out (s_fifo (smp r)) then next d (f_out (s_fifo (smp r))) else f_out (s_fifo (smp r))) /\
    f_data (s_fifo (smp r')) = data /\
    (forall j, 0 <= j < d -> j <> f_in (s_fifo (smp r)) -> slot (n + 1) data j = slot_of r j) /\
    record_of types (slot (n + 1) data (f_in (s_fifo (smp r)))) = (get_u32_value (sample_num (smp r)), zip_with field types pins).
Proof.
  intros [Hf Ed En Et Hin Hout Hrd] Hlen.
  destruct (sample_spec {| (smp r) with s_enable := true; s_pins := pins |}) as (data & Hl & Hsame & Hrec & s' & Hs & Hfull & _ & _ & Hfifo);
    [exact Hf | cbn; lia | cbn; congruence | done |].
  cbn [s_fifo s_pins sample_num] in *. rewrite Ed, En, Et in *. cbn [run_event]. rewrite Hs. cbn [mbind option_bind].
  assert (forall k, 0 <= k < d -> 0 <= next d k < d) as Hnext.
  { intros k Hk. destruct Hf. rewrite <- (Z.mod_small k d), next_mod by lia. apply Z.mod_pos_bound. lia. }
  eexists _, data. split; [reflexivity |]. cbn [smp rd taken printout since slow lost]. rewrite Hfifo. cbn [f_in f_out f_data].
  split; [| do 3 (split; [done |]); split; [by rewrite Et |]; split; [by rewrite Ed |]; split; [by rewrite Hfull |]; do 3 (split; [done |]); by split].
  split; cbn [smp rd]; rewrite ?Hfifo; cbn [f_in f_out f_data f_depth f_num_pins f_type]; try done; [| by apply Hnext | case_match; [by apply Hnext | done]].
  destruct Hf as [O1 O2 O3 O4]. rewrite Ed in O1, O4. rewrite En in O2, O3, O4. rewrite Et in O2. split; cbn; [lia | lia | lia | by rewrite Hl].
Qed.

Lemma got_tick r r' x m : 0 <= m <= Z.of_nat (length (taken r)) -> printout r' = printout r -> taken r' = taken r ++ [x] -> (lost r' = false -> lost r = false) ->
  got r m -> got r' m.
Proof.
  intros Hm Ep Et Hl [Hs He]. unfold got, shown in *. rewrite Ep, Et. rewrite take_app_le by lia. split; [done |]. intros H. apply He. by apply Hl.
Qed.

Lemma tick_exact r pins O : 1 <= d < 2 ^ 20 -> safe r -> exact r O -> length pins = length types ->
  forall r', run_event (Tick true pins) r = Some r' -> slow r' = false -> exists O', exact r' O'.
Proof.
  intros Hd Hsafe [Ein Eout Hr Hsl Hrd] Hlen r' Hrun Hslow. set (N := Z.of_nat (length (taken r))) in *.
  destruct (tick_safe r pins Hsafe Hlen) as (r'' & data & Hrun' & Hsafe' & Erd & Epr & Esi & Eta & Esl & Elo & Ein' & Eout' & Eda & Hsame & Hrec).
  assert (r'' = r') as -> by congruence. clear Hrun'. rewrite Ein, next_mod in Ein' by lia. rewrite Ein, Eout, !next_mod in Eout' by lia. rewrite Ein, Eout, next_mod in Elo by lia. rewrite Ein in Hsame, Hrec.
  set (full := (N + 1) mod d =? O mod d) in *.
  assert (full = (N - O =? d - 1)) as Hfull.
  { unfold full. apply Bool.eq_iff_eq_true. rewrite !Z.eqb_eq. split; [| intros E; replace (N + 1) with (O + 1 * d) by lia; apply Z.mod_add; lia].
    intros E. destruct (Z.eq_dec (N + 1 - O) d); [lia |]. pose proof (mod_eq_close d O (N + 1) ltac:(lia) (eq_sym E) ltac:(lia)). lia. }
  assert (Z.of_nat (length (taken r')) = N + 1) as EN by (rewrite Eta, length_app; cbn [length]; lia).
  assert (lost r' = false -> lost r = false) as Hlost by (rewrite Elo; destruct (lost r); done).
  assert (forall m, 0 <= m <= N -> got r m -> got r' m) as Hgot by (intros m Hm; by apply (got_tick _ _ _ m Hm Epr Eta Hlost)).
  assert (forall m, got r m -> 0 <= m <= O -> lost r' = false -> full = false) as Hnf by (intros m _ _ H; rewrite Elo in H; by apply orb_false_iff in H as [_ ->]).
  assert (forall k, 0 <= k < N -> N - d < k -> slot_of r' (k mod d) = slot_of r (k mod d)) as Hkeep.
  { intros k Hk Hkd. unfold slot_of. rewrite Eda. apply Hsame; [apply Z.mod_pos_bound; lia |]. intros E. pose proof (mod_eq_close d k N ltac:(lia) E ltac:(lia)). lia. }
  exists (if full then O + 1 else O). split.
  - by rewrite EN.
  - rewrite Eout'. by destruct full.
  - rewrite EN. destruct full; zb; lia.
  - rewrite EN. intros k x Hk Hkd. rewrite Eta in Hk. apply lookup_app_Some in Hk as [Hk | [Hk Hx]].
    + pose proof (lookup_lt_Some _ _ _ Hk). rewrite Hkeep by lia. apply (Hsl k x Hk). lia.
    + apply list_lookup_singleton_Some in Hx as [Hx <-]. assert (Z.of_nat k = N) as -> by lia. unfold slot_of. by rewrite Eda.
  - assert (got r O -> got r' (if full then O + 1 else O)) as HgotO.
    { intros Hg. specialize (Hgot O ltac:(lia) Hg). destruct full; [| done]. destruct Hgot as [Hs _].
      split; [apply (got_mono r' O); [lia | done] | rewrite Elo, orb_true_r; done]. }
    assert (forall O0, 0 <= O0 <= O -> (O0 < O -> N - O = d - 1 /\ lost r = true) -> O0 < (if full then O + 1 else O) -> N + 1 - (if full then O + 1 else O) = d - 1 /\ lost r' = true) as Hbehind.
    { intros O0 H0 Hb Hlt. rewrite Elo. destruct full; zb; [split; [lia | apply orb_true_r] |]. destruct (Hb Hlt). lia. }
    rewrite Erd, EN. rewrite Esl in Hslow. apply orb_false_iff in Hslow as [_ Hslow]. destruct (rd r) as [| i | | t buf | t buf]; cbn [is_reading andb] in Hslow.
    + auto.
    + destruct Hrd as (Hg & Hi & Hor). split; [auto |]. split; [done |]. destruct (Z.eq_dec d 1) as [Ed1 | Ed1]; [right; rewrite Ed1, Z.mod_1_r; lia | left; destruct full; zb; lia].
    + destruct Hrd as (Hg & Hi). split; [auto |]. destruct full; zb; lia.
    + destruct Hrd as (O0 & Et & H0 & HN & Hsi & Hg & Hb & Hbuf). exists O0. rewrite Esi. zb. split; [done |]. split; [destruct full; lia |]. split; [lia |].
      split; [destruct full; lia |]. split; [apply Hgot; [lia | done] |]. split; [by apply Hbehind |].
      intros E. assert (full = false) as Hnofull by (destruct full; [lia | done]). rewrite Hnofull in *. rewrite Et, Hkeep by lia. rewrite <- Et. auto.
    + destruct Hrd as (O0 & Et & H0 & HN & Hsi & Hg & Hb & Hbuf). exists O0. rewrite Esi. zb. split; [done |]. split; [destruct full; lia |]. split; [lia |].
      split; [destruct full; lia |]. split; [apply Hgot; [lia | done] |]. split; [by apply Hbehind |].
      rewrite Eta. by apply lookup_app_l_Some.
Qed.

(** A load or store of the program. *)
Lemma user_safe r : safe r -> exists r', run_event User r = Some r' /\ safe r' /\ taken r' = taken r /\ slow r' = slow r /\ lost r' = lost r.
Proof.
  intros [Hf Ed En Et Hin Hout Hrd]. pose proof Hf as [O1 O2 O3 O4]. rewrite Ed in O1. rewrite Ed, En in O4. rewrite En in O3.
  assert (0 <= n) as Hn by lia. cbn [run_event]. unfold read_step. destruct (rd r) as [| i | | t buf | t buf] eqn:Erd.
  - eexists. split; [reflexivity |]. split; [by split | done].
  - eexists. split; [reflexivity |]. split; [split; cbn; try done; by destruct (_ =? _) | done].
  - eexists. split; [reflexivity |]. split; [split; cbn; try done; lia | done].
  - rewrite En. destruct (Z.of_nat (length buf) <? n + 1) eqn:E; zb.
    + destruct (load_Some (t * (n + 1) + Z.of_nat (length buf)) (f_data (s_fifo (smp r)))) as (v & -> & _); [nia |]. cbn [mbind option_bind].
      eexists. split; [reflexivity |]. split; [split; cbn; try done; rewrite length_app; cbn; lia | done].
    + eexists. split; [reflexivity |]. split; [split; cbn; try done; destruct (_ =? _); [split; lia | done] | done].
  - unfold print_sample. cbn [f_num_pins f_type]. rewrite En. destruct (load_Some n buf) as (c & -> & _); [lia |]. cbn [mbind option_bind].
    eexists. split; [reflexivity |]. split; [| done]. split; cbn; try done.
    + split; cbn; lia.
    + destruct (Z.eq_dec d 1) as [Ed1 |]; rewrite Ed.
      * unfold next. rewrite Ed1. rewrite wraps_small by lia. by replace (1 <=? t + 1) with true by lia.
      * rewrite <- (Z.mod_small t d), next_mod by lia. apply Z.mod_pos_bound. lia.
Qed.

Lemma user_exact r O : 1 <= d < 2 ^ 20 -> safe r -> exact r O -> forall r', run_event User r = Some r' -> exists O', exact r' O'.
Proof.
  intros Hd [Hf Ed En Et Hin Hout Hsrd] [Ein Eout Hr Hsl Hrd] r' Hrun. cbn [run_event] in Hrun. unfold read_step in Hrun.
  set (N := Z.of_nat (length (taken r))) in *. destruct (rd r) as [| i | | t buf | t buf] eqn:Erd.
  - injection Hrun as <-. exists O. split; try done. cbn. fold N. unfold got, shown. cbn. rewrite app_nil_r. split; [exact Hrd |].
    rewrite Ein. split; [apply Z.mod_pos_bound; lia |]. destruct (Z.eq_dec O N) as [E | E]; [right; by rewrite E | left; lia].
  - injection Hrun as <-. exists O. split; try done. cbn. fold N. destruct Hrd as (Hg & Hi & Hor). rewrite Eout.
    destruct (i =? O mod d) eqn:E; zb; unfold got, shown; cbn; rewrite app_nil_r; [exact Hg |]. split; [exact Hg | destruct Hor; [done | by destruct E]].
  - injection Hrun as <-. exists O. split; try done. cbn. fold N. destruct Hrd as (Hg & HN). exists O. unfold got, shown. cbn. rewrite app_nil_r.
    split; [by rewrite Eout |]. split; [lia |]. split; [done |]. split; [lia |]. split; [exact Hg |]. split; [lia | done].
  - destruct Hrd as (O0 & Et' & H0 & HN & Hsi & Hg & Hb & Hbuf). rewrite En in Hrun. destruct (Z.of_nat (length buf) <? n + 1) eqn:E; zb.
    + destruct (load _ _) as [v |] eqn:Ev; [| discriminate Hrun]. cbn in Hrun. injection Hrun as <-. exists O. split; try done. cbn. fold N. unfold got, shown. cbn. rewrite app_nil_r.
      exists O0. do 6 (split; [done |]). intros E0. specialize (Hbuf E0). rewrite length_app. cbn [length]. rewrite Nat.add_1_r.
      match goal with |- _ = take _ ?l => change l with (slot_of r t) end.
      assert (slot_of r t !! length buf = Some v) as Hv.
      { rewrite <- (Nat2Z.id (length buf)). unfold slot_of. rewrite slot_lookup by lia. unfold load in Ev. by case_match. }
      erewrite take_S_r by exact Hv. by rewrite <- Hbuf.
    + injection Hrun as <-. destruct (f_out (s_fifo (smp r)) =? t) eqn:Eo; zb.
      * assert (O0 = O) as E0 by (apply (mod_eq_close d); [lia | congruence | lia]). subst O0. exists O. split; try done. cbn. fold N. unfold got, shown. cbn. rewrite app_nil_r.
        exists O. do 6 (split; [done |]). destruct (lookup_lt_is_Some_2 (taken r) (Z.to_nat O)) as [x Hx]; [lia |]. rewrite Hx. f_equal.
        rewrite <- (Hsl (Z.to_nat O) x Hx) by lia. rewrite Z2Nat.id, <- Et' by lia. rewrite (Hbuf eq_refl). f_equal.
        symmetry. apply take_ge. unfold slot_of. pose proof (ok_data _ _ Hf) as Hl. rewrite Ed, En in Hl. rewrite (slot_length _ _ _ d) by lia. lia.
      * exists O. split; try done. cbn. fold N. unfold got, shown. cbn. rewrite app_nil_r. destruct Hg as [Hs He]. split; [by apply (got_mono r O0); [lia |] |].
        intros Hl. destruct (Z.eq_dec O0 O) as [<- |]; [by apply He |]. destruct (Hb ltac:(lia)) as [_ Hl']. congruence.
  - destruct Hrd as (O0 & Et' & H0 & HN & Hsi & Hg & Hb & Hbuf). destruct Hsrd as [_ Hlen]. unfold print_sample in Hrun. cbn [f_num_pins f_type f_depth] in Hrun. rewrite En, Ed, Et in Hrun.
    destruct (load n buf) as [c |] eqn:Ec; [| discriminate Hrun]. cbn in Hrun. injection Hrun as <-.
    assert (buf !!! length types = c) as Hc.
    { apply list_lookup_total_correct. unfold load in Ec. case_match; [| done]. pose proof (ok_pins _ _ Hf) as Hp. rewrite En, Et in Hp. by rewrite <- (Nat2Z.id (length types)), <- Hp. }
    match goal with |- exists O', exact ?x O' => set (r' := x) end.
    assert (shown r' = shown r ++ [record_of types buf]) as Hshown by (unfold shown, record_of; cbn; by rewrite map_app, Hc).
    assert (taken r !! Z.to_nat O0 = Some (record_of types buf)) as Hx by exact Hbuf.
    assert (got r' (O0 + 1)) as Hg'.
    { destruct Hg as [Hs He]. unfold got. rewrite Hshown. cbn [taken lost r']. rewrite Z.add_1_r, Z2Nat.inj_succ by lia. erewrite take_S_r by exact Hx.
      split; [by apply sublist_app | intros Hl; by rewrite (He Hl)]. }
    assert (forall O', f_out (s_fifo (smp r')) = O' mod d -> 0 <= O' <= N -> N - O' <= d - 1 -> O0 + 1 <= O' -> (lost r = false -> O' = O0 + 1) -> exact r' O') as Hdone.
    { intros O' HO Hb1 Hb2 Hge Hl. split; try done. cbn [rd r']. destruct Hg' as [Hs He].
      split; [by apply (got_mono r' (O0 + 1)); [lia |] | intros Hl'; rewrite (Hl Hl'); by apply He]. }
    assert (f_out (s_fifo (smp r')) = (O0 + 1) mod d) as Hout' by (cbn; rewrite Et'; by apply next_mod).
    destruct (Z.eq_dec O0 O) as [E0 | Hne]; [exists (O0 + 1); apply Hdone; try done; lia |].
    destruct (Hb ltac:(lia)) as [Hfull Hlost]. destruct (Z.eq_dec (O0 + 1) O) as [E1 | Hne1]; [exists O; apply Hdone; try congruence; lia |].
    exists (O0 + 1 + d). apply Hdone; [| lia | lia | lia | congruence]. rewrite Hout'. replace (O0 + 1 + d) with (O0 + 1 + 1 * d) by lia. by rewrite Z.mod_add by lia.
Qed.

End Sampler.

(** Every interleaving of samples with the loads and stores of the program. *)
Lemma run_inv d n types es r : 1 <= d < 2 ^ 20 -> inv d n types r -> Forall (fun e => match e with Tick _ pins => length pins = length types | User => True end) es ->
  exists r', run_events es r = Some r' /\ inv d n types r'.
Proof.
  intros Hd. revert r. induction es as [| e es IH]; intros r [Hs He] Hok; cbn [run_events]; [by exists r |]. apply Forall_cons in Hok as [Hp Hok].
  assert (exists r1, run_event e r = Some r1 /\ inv d n types r1) as (r1 & -> & H1); [| by apply IH].
  destruct e as [[] pins |].
  - destruct (tick_safe d n types r pins Hs Hp) as (r1 & data & Hrun & Hs1 & _ & _ & _ & _ & Esl & _). exists r1. split; [done |]. split; [done |].
    intros Hsl. pose proof Hsl as Hsl'. rewrite Esl in Hsl'. apply orb_false_iff in Hsl' as [Hsl' _]. destruct (He Hsl') as [O HO].
    by apply (tick_exact d n types r pins O Hd Hs HO Hp).
  - eexists. split; [reflexivity |]. cbn. split; [by destruct Hs; split | intros Hsl; destruct (He Hsl) as [O []]; exists O; by split].
  - destruct (user_safe d n types r Hs) as (r1 & Hrun & Hs1 & _ & Esl & _). exists r1. split; [done |]. split; [done |].
    intros Hsl. rewrite Esl in Hsl. destruct (He Hsl) as [O HO]. by apply (user_exact d n types r O Hd Hs HO).
Qed.

(** C21: The sampler and the program that reads from it, for every interleaving
    of samples with the single loads and stores of the program, from a
    configuration that the module accepts.  No access is outside of the
    buffer.  Unless the buffer goes all the way round while one record is
    read, what is printed are samples that were taken, each whole, with its
    number, and in their order; and if the buffer was never full, none is
    left out. *)
Theorem sampler_whole cfg depth fifos f es : configure 1 8 cfg depth = inr fifos -> In f fifos ->
  Forall (fun e => match e with Tick _ pins => length pins = length (f_type f) | User => True end) es ->
  exists r, run_events es (start f) = Some r /\
    (slow r = false -> shown r `sublist_of` taken r) /\
    (slow r = false -> lost r = false -> shown r `prefix_of` taken r).
Proof.
  intros Hc Hf Hes. destruct (configure_ok 1 cfg depth fifos f ltac:(lia) Hc Hf) as (Hok & Ein & Eout & _).
  destruct (run_inv (f_depth f) (f_num_pins f) (f_type f) es (start f)) as (r & Hr & _ & He); [by destruct Hok | | done |].
  - split.
    + split; try done; cbn; rewrite ?Ein, ?Eout; destruct Hok; lia.
    + intros _. exists 0. destruct Hok. split; cbn; rewrite ?Ein, ?Eout, ?Z.mod_0_l by lia; try done. lia.
  - exists r. split; [done |]. split.
    + intros Hsl. destruct (He Hsl) as [O HO]. destruct HO as [_ _ Hr2 _ Hrd].
      assert (forall m, got r m -> shown r `sublist_of` taken r) as Hg by (intros m [Hs _]; etransitivity; [exact Hs | apply sublist_take]).
      destruct (rd r); [by eapply Hg | destruct Hrd as [H _]; by eapply Hg | destruct Hrd as [H _]; by eapply Hg | |];
        destruct Hrd as (O0 & _ & _ & _ & _ & H & _); by eapply Hg.
    + intros Hsl Hl. destruct (He Hsl) as [O HO]. destruct HO as [_ _ Hr2 _ Hrd].
      assert (forall m, got r m -> shown r `prefix_of` taken r) as Hg by (intros m [_ Hp]; rewrite (Hp Hl); apply prefix_take).
      destruct (rd r); [by eapply Hg | destruct Hrd as [H _]; by eapply Hg | destruct Hrd as [H _]; by eapply Hg | |];
        destruct Hrd as (O0 & _ & _ & _ & _ & H & _); by eapply Hg.
Qed.

(** Two samples between the last comparison of the program and its store of
    [out]: the store sets [out] back to a place that is [in] by now, and a
    full buffer is taken for an empty one.  Of four samples one is printed. *)
Definition example_fifo : fifo_t := MkFifo 0 0 3 1 [HAL_U32] (replicate 6 0) (u64 (-1)).
Definition ticks (l : list Z) : list event := map (fun v => Tick true [v]) l.
Example full_buffer_lost : exists r, run_events (ticks [7; 8] ++ replicate 6 User ++ ticks [9; 10] ++ [User]) (start example_fifo) = Some r /\
  f_in (s_fifo (smp r)) = f_out (s_fifo (smp r)) /\ length (taken r) = 4%nat /\ shown r = [(0, [7])] /\ overruns (smp r) = 2.
Proof.
  destruct (run_events _ _) as [r |] eqn:E; [| vm_compute in E; discriminate E]. exists r. split; [done |]. vm_compute in E. injection E as <-. done.
Qed.

(** While one record is read the buffer goes all the way round, so that [out]
    has the same value again: the program prints a record that was never
    taken, of an old and a new value. *)
Definition wide_fifo : fifo_t := MkFifo 0 0 3 2 [HAL_U32; HAL_U32] (replicate 9 0) (u64 (-1)).
Definition wide_ticks (l : list Z) : list event := map (fun v => Tick true [v; v]) l.
Example torn_record : exists r, run_events (wide_ticks [1; 2] ++ replicate 4 User ++ wide_ticks [3; 4; 5] ++ replicate 4 User) (start wide_fifo) = Some r /\
  shown r = [(3, [1; 4])] /\ slow r = true /\ ~ In (3, [1; 4]) (taken r).
Proof.
  destruct (run_events _ _) as [r |] eqn:E; [| vm_compute in E; discriminate E]. exists r. split; [done |]. vm_compute in E. injection E as <-. cbn. intuition congruence.
Qed.

Theorem sampler_whole_witness : exists r, run_events (ticks [7; 8] ++ replicate 14 User ++ ticks [9] ++ replicate 7 User) (start example_fifo) = Some r /\
  shown r = [(0, [7]); (1, [8]); (2, [9])] /\ shown r `prefix_of` taken r.
Proof.
  destruct (sampler_whole [Some [117]] [3] [example_fifo] example_fifo (ticks [7; 8] ++ replicate 14 User ++ ticks [9] ++ replicate 7 User)) as (r & Hr & _ & Hp).
  - reflexivity.
  - left. reflexivity.
  - repeat constructor.
  - exists r. split; [exact Hr |]. vm_compute in Hr. injection Hr as <-. split; [reflexivity |]. apply Hp; reflexivity.
Defined.

(** ** The streamer and the program that fills its buffer

    Both sides are sequences of loads and stores.  [pushed] are the lines
    that the program has put into the buffer, [set_pins] what the pins have
    been set to. *)
Record flow := Flow {
  str : streamer_t;
  up : updater;
  wr : writer;
  pushed : list (list Z);
  set_pins : list (list Z);
}.

Inductive flow_event := Realtime (enabled : bool) | Program | Input (l : line_t).

Definition values_of (f : fifo_t) (cells : list hal_data_u) : list Z := zip_with field (f_type f) cells.

Definition flow_step (e : flow_event) (w : flow) : option flow :=
  match e with
  | Realtime en =>
      let f := t_fifo (str w) in
      let finished := match up w with Copying _ n => f_num_pins f <=? n | _ => false end in
      '(u, s) ← update_step {| (str w) with t_enable := en |} (up w);
      Some {| w with str := s; up := u; set_pins := if finished : bool then set_pins w ++ [values_of f (t_pins (str w))] else set_pins w |}
  | Program =>
      let f := t_fifo (str w) in
      let complete := match wr w with Filling l _ n => if Z.of_nat (length (fields l)) <=? n then if good l then [values_of f (fields l)] else [] else [] | _ => [] end in
      '(p, f) ← write_step f (wr w);
      Some {| w with str := {| (str w) with t_fifo := f |}; wr := p; pushed := pushed w ++ complete |}
  | Input l => Some (match wr w with NeedLine => {| w with wr := GotLine l |} | _ => w end)
  end.

Fixpoint flow_run (es : list flow_event) (w : flow) : option flow :=
  match es with [] => Some w | e :: es => w ← flow_step e w; flow_run es w end.

Definition flow_start (f : fifo_t) : flow := Flow (MkStreamer f 0 true true 0 (replicate (length (f_type f)) 0)) Idle NeedLine [] [].

Section Streamer.
Context (d n : Z) (types : list Z).

(** A good line has a field for every pin; a bad one is cut short. *)
Definition line_ok (l : line_t) : Prop := if good l then Z.of_nat (length (fields l)) = n else Z.of_nat (length (fields l)) <= n.

(** [O] lines have been taken from the buffer. *)
Record flowing (w : flow) (O : Z) : Prop := {
  fl_fifo : fifo_ok (t_fifo (str w)) 0;
  fl_depth : f_depth (t_fifo (str w)) = d;
  fl_num : f_num_pins (t_fifo (str w)) = n;
  fl_type : f_type (t_fifo (str w)) = types;
  fl_in : f_in (t_fifo (str w)) = Z.of_nat (length (pushed w)) mod d;
  fl_out : f_out (t_fifo (str w)) = O mod d;
  fl_range : 0 <= O <= Z.of_nat (length (pushed w)) /\ Z.of_nat (length (pushed w)) - O <= d - 1;
  fl_pins : length (t_pins (str w)) = length types;
  fl_set : set_pins w = take (Z.to_nat O) (pushed w);
  fl_slots : forall k x, pushed w !! k = Some x -> O <= Z.of_nat k -> zip_with field types (slot n (f_data (t_fifo (str w))) (Z.of_nat k mod d)) = x;
  fl_wr : match wr w with
          | NeedLine => True
          | GotLine l => line_ok l
          | Room l tmpin => line_ok l /\ tmpin = Z.of_nat (length (pushed w)) mod d
          | Filling l tmpin k => line_ok l /\ tmpin = Z.of_nat (length (pushed w)) mod d /\ Z.of_nat (length (pushed w)) - O < d - 1 /\
              0 <= k <= Z.of_nat (length (fields l)) /\
              forall i t v, Z.of_nat i < k -> types !! i = Some t -> fields l !! i = Some v ->
                exists c, f_data (t_fifo (str w)) !! Z.to_nat (tmpin * n + Z.of_nat i) = Some c /\ field t c = field t v
          end;
  fl_up : match up w with
          | Idle => True
          | GotIn i => exists M, i = M mod d /\ O <= M <= Z.of_nat (length (pushed w))
          | Copying t k => t = O mod d /\ O < Z.of_nat (length (pushed w)) /\ 0 <= k <= n /\
              forall i ty c, Z.of_nat i < k -> types !! i = Some ty -> f_data (t_fifo (str w)) !! Z.to_nat (t * n + Z.of_nat i) = Some c ->
                exists p, t_pins (str w) !! i = Some p /\ field ty p = field ty c
          end;
}.

(** A step of the program. *)
Lemma program_step w O : 1 <= d < 2 ^ 20 -> flowing w O -> exists w', flow_step Program w = Some w' /\ flowing w' O.
Proof.
  intros Hd [Hf Ed En Et Hin Hout Hr Hpins Hset Hsl Hwr Hup]. pose proof Hf as [O1 O2 O3 O4]. rewrite Ed, En in O4. rewrite En, Et in O2. rewrite En in O3.
  set (N := Z.of_nat (length (pushed w))) in *. cbn [flow_step]. unfold write_step. destruct (wr w) as [| l | l tmpin | l tmpin k] eqn:Ew.
  - eexists. split; [reflexivity |]. split; cbn; try done; rewrite ?app_nil_r; try done.
  - eexists. split; [reflexivity |]. split; cbn; try done; rewrite ?app_nil_r; try done.
  - eexists. split; [reflexivity |]. destruct Hwr as [Hl ->]. rewrite Ed, next_mod, Hout by lia.
    split; cbn; rewrite ?app_nil_r; fold N; try done. destruct ((N + 1) mod d =? O mod d) eqn:E; zb; [done |]. do 2 (split; [done |]). split; [| split; [lia |]; intros; lia].
    destruct (Z.eq_dec (N - O) (d - 1)); [| lia]. destruct E. replace (N + 1) with (O + 1 * d) by lia. apply Z.mod_add. lia.
  - destruct Hwr as (Hl & -> & Hroom & Hk & Hdone). pose proof (Z.mod_pos_bound N d ltac:(lia)).
    assert (Z.of_nat (length (fields l)) <= n) as Hln by (unfold line_ok in Hl; destruct (good l); lia).
    destruct (k <? Z.of_nat (length (fields l))) eqn:E; zb.
    + destruct (load_Some k (fields l)) as (v & -> & Hv); [lia |]. cbn [mbind option_bind].
      destruct (load_Some k (f_type (t_fifo (str w)))) as (t & -> & Ht); [rewrite Et; lia |]. cbn [mbind option_bind]. rewrite En.
      destruct (load_Some (N mod d * n + k) (f_data (t_fifo (str w)))) as (old & -> & Hold); [nia |]. cbn [mbind option_bind].
      rewrite store_Some by nia. cbn [mbind option_bind]. rewrite (proj2 (Z.leb_gt _ _)) by lia.
      eexists. split; [reflexivity |]. rewrite app_nil_r. assert (forall j, O <= j < N -> forall i, 0 <= i < n -> Z.to_nat (N mod d * n + k) <> Z.to_nat (j mod d * n + i)) as Hother.
      { intros j Hj i Hi Ei. pose proof (Z.mod_pos_bound j d ltac:(lia)). assert (j mod d = N mod d) as Ej by nia. pose proof (mod_eq_close d j N ltac:(lia) Ej ltac:(lia)). lia. }
      split; cbn; try done.
      * destruct Hf as [P1 P2 P3 P4]. rewrite En in P2, P3, P4. split; [exact P1 | exact P2 | exact P3 | cbn; by rewrite length_insert].
      * intros j x Hx Hge. pose proof (lookup_lt_Some _ _ _ Hx). rewrite <- (Hsl j x Hx Hge). f_equal. apply slot_agree; [lia | apply Z.mod_pos_bound; lia |].
        intros i Hi. apply list_lookup_insert_ne. apply Hother; lia.
      * do 3 (split; [done |]). split; [lia |]. intros i t' v' Hi Ht' Hv'. destruct (Z.eq_dec (Z.of_nat i) k) as [Ei | Ei].
        -- rewrite Ei. exists (put_field t old v). rewrite list_lookup_insert_eq by nia. split; [done |]. rewrite Et in Ht. rewrite <- Ei, Nat2Z.id in Ht, Hv. simplify_eq. apply field_put_field.
        -- destruct (Hdone i t' v' ltac:(lia) Ht' Hv') as (c & Hc & Hfc). exists c. split; [| done]. rewrite list_lookup_insert_ne by nia. done.
      * destruct (up w) as [| i | t' kk]; try done. destruct Hup as (Et' & HO & Hkk & Hcp). do 3 (split; [done |]). intros i ty c Hi Hty Hc. apply (Hcp i ty c Hi Hty).
        rewrite list_lookup_insert_ne in Hc; [done |]. rewrite Et'. apply Hother; lia.
    + assert (k = Z.of_nat (length (fields l))) as -> by lia. rewrite (proj2 (Z.leb_le _ _)) by lia.
      eexists. split; [reflexivity |]. unfold line_ok in Hl. destruct (good l); [| rewrite app_nil_r; by split].
      assert (Z.of_nat (length (pushed w ++ [values_of (t_fifo (str w)) (fields l)])) = N + 1) as EN by (rewrite length_app; cbn; lia).
      split; cbn [str up wr pushed set_pins t_fifo t_pins f_in f_out f_depth f_num_pins f_type f_data]; rewrite ?EN; try done.
      * destruct Hf. by split.
      * rewrite Ed. by apply next_mod.
      * lia.
      * rewrite take_app_le by lia. done.
      * intros j x Hx Hge. apply lookup_app_Some in Hx as [Hx | [Hj Hx]]; [by apply Hsl |]. apply list_lookup_singleton_Some in Hx as [Hj' <-].
        assert (Z.of_nat j = N) as -> by lia. unfold values_of. rewrite Et. apply list_eq. intros i. rewrite !lookup_zip_with. destruct (types !! i) as [t |] eqn:Eti; [| done]. cbn.
        pose proof (lookup_lt_Some _ _ _ Eti). destruct (lookup_lt_is_Some_2 (fields l) i) as [v Hv]; [lia |]. rewrite Hv. cbn.
        destruct (Hdone i t v ltac:(lia) Eti Hv) as (c & Hc & Hfc). rewrite <- (Nat2Z.id i), slot_lookup, Hc by lia. cbn. by rewrite Hfc.
      * destruct (up w) as [| i | t' kk]; try done; [destruct Hup as (M & -> & HM); exists M; split; [done | lia] |]. destruct Hup as (Et' & HO & Hkk & Hcp). split; [done |]. split; [lia | done].
Qed.

(** A step of the realtime funct. *)
Lemma realtime_step w O en : 1 <= d < 2 ^ 20 -> flowing w O -> exists w' O', flow_step (Realtime en) w = Some w' /\ flowing w' O'.
Proof.
  intros Hd [Hf Ed En Et Hin Hout Hr Hpins Hset Hsl Hwr Hup]. pose proof Hf as [O1 O2 O3 O4]. rewrite Ed, En in O4. rewrite En, Et in O2. rewrite En in O3.
  set (N := Z.of_nat (length (pushed w))) in *. cbn [flow_step]. unfold update_step. cbn [t_fifo t_enable]. destruct (up w) as [| i | t k] eqn:Eu.
  - eexists _, O. split; [reflexivity |]. split; cbn; try done. destruct en; [| done]. exists N. split; [done | lia].
  - destruct Hup as (M & -> & HM). rewrite Hout. destruct (O mod d =? M mod d) eqn:E; zb; eexists _, O; (split; [reflexivity |]); split; cbn; try done.
    fold N. split; [done |]. destruct (Z.eq_dec O M) as [-> | Hne]; [done |]. split; [lia |]. split; [lia | intros; lia].
  - destruct Hup as (-> & HO & Hk & Hcp). pose proof (Z.mod_pos_bound O d ltac:(lia)). rewrite En. destruct (k <? n) eqn:E; zb.
    + destruct (load_Some (O mod d * n + k) (f_data (t_fifo (str w)))) as (c & -> & Hc); [nia |]. cbn [mbind option_bind].
      destruct (load_Some k (f_type (t_fifo (str w)))) as (ty & -> & Hty); [rewrite Et; lia |]. cbn [mbind option_bind t_pins].
      destruct (load_Some k (t_pins (str w))) as (old & -> & Hold); [lia |]. cbn [mbind option_bind].
      rewrite store_Some by lia. cbn [mbind option_bind]. rewrite (proj2 (Z.leb_gt n k)) by lia. eexists _, O. split; [reflexivity |].
      split; cbn; try done; [by rewrite length_insert |]. fold N. split; [done |]. split; [done |]. split; [lia |]. intros i ty' c' Hi Hty' Hc'.
      destruct (Z.eq_dec (Z.of_nat i) k) as [Ei | Ei].
      * rewrite <- Ei in *. rewrite Et, Nat2Z.id in Hty. rewrite Nat2Z.id. simplify_eq. exists (put_field ty old c). rewrite list_lookup_insert_eq by lia. split; [done | apply field_put_field].
      * destruct (Hcp i ty' c' ltac:(lia) Hty' Hc') as (p & Hp & Hfp). exists p. split; [| done]. rewrite list_lookup_insert_ne by lia. done.
    + assert (k = n) as -> by lia. rewrite (proj2 (Z.leb_le n n)) by lia. eexists _, (O + 1). split; [reflexivity |].
      destruct (lookup_lt_is_Some_2 (pushed w) (Z.to_nat O)) as [x Hx]; [lia |].
      split; cbn; fold N; try done.
      * destruct Hf as [P1 P2 P3 P4]. rewrite En in P2, P3, P4. by split.
      * rewrite Ed. by apply next_mod.
      * lia.
      * rewrite Z.add_1_r, Z2Nat.inj_succ by lia. erewrite take_S_r by exact Hx. f_equal; [done |]. f_equal.
        rewrite <- (Hsl (Z.to_nat O) x Hx) by lia. rewrite Z2Nat.id by lia. unfold values_of. rewrite Et. apply list_eq. intros i. rewrite !lookup_zip_with. destruct (types !! i) as [ty |] eqn:Eti; [| done]. cbn.
        pose proof (lookup_lt_Some _ _ _ Eti). destruct (lookup_lt_is_Some_2 (f_data (t_fifo (str w))) (Z.to_nat (O mod d * n + Z.of_nat i))) as [c Hc]; [nia |].
        destruct (Hcp i ty c ltac:(lia) Eti Hc) as (p & -> & Hfp). rewrite <- (Nat2Z.id i), slot_lookup, Hc by lia. cbn. by rewrite Hfp.
      * intros j y Hy Hge. apply (Hsl j y Hy). lia.
      * destruct (wr w) as [| l | l tmpin | l tmpin kk]; try done. destruct Hwr as (? & ? & ? & ?). do 2 (split; [done |]). split; [lia | done].
Qed.

End Streamer.

Lemma flow_inv d n types es w O : 1 <= d < 2 ^ 20 -> flowing d n types w O -> Forall (fun e => match e with Input l => line_ok n l | _ => True end) es ->
  exists w' O', flow_run es w = Some w' /\ flowing d n types w' O'.
Proof.
  intros Hd. revert w O. induction es as [| e es IH]; intros w O Hw Hes; cbn [flow_run]; [by exists w, O |]. apply Forall_cons in Hes as [He Hes].
  assert (exists w1 O1, flow_step e w = Some w1 /\ flowing d n types w1 O1) as (w1 & O1 & -> & H1); [| by apply (IH w1 O1)].
  destruct e as [en | | l].
  - by apply (realtime_step d n types w O).
  - destruct (program_step d n types w O Hd Hw) as (w1 & Hs & H1). by exists w1, O.
  - cbn [flow_step]. eexists _, O. split; [reflexivity |]. destruct (wr w) eqn:Ew; try done. destruct Hw. by split.
Qed.

(** C22: The streamer and the program that fills its buffer, for every
    interleaving of their single loads and stores, from a configuration that
    the module accepts.  No access is outside of the buffer.  The pins are
    set to the lines of the input in their order, each whole and none left
    out or twice; at most [depth - 1] lines wait. *)
Theorem streamer_in_order cfg depth fifos f es : configure 0 8 cfg depth = inr fifos -> In f fifos ->
  Forall (fun e => match e with Input l => line_ok (f_num_pins f) l | _ => True end) es ->
  exists w queue, flow_run es (flow_start f) = Some w /\ pushed w = set_pins w ++ queue /\ Z.of_nat (length queue) <= f_depth f - 1.
Proof.
  intros Hc Hf Hes. destruct (configure_ok 0 cfg depth fifos f ltac:(lia) Hc Hf) as (Hok & Ein & Eout & _).
  destruct (flow_inv (f_depth f) (f_num_pins f) (f_type f) es (flow_start f) 0) as (w & O & Hr & Hw); [by destruct Hok | | done |].
  - pose proof Hok as [O1 _ _ _]. split; cbn; rewrite ?Ein, ?Eout, ?Z.mod_0_l by lia; try done; [lia | by rewrite length_replicate].
  - exists w, (drop (Z.to_nat O) (pushed w)). split; [done |]. destruct Hw as [_ _ _ _ _ _ Hr2 _ -> _ _ _]. rewrite take_drop, length_drop. split; [done | lia].
Qed.

(** ** A call of the funct that nothing interrupts *)

Lemma update_step_flow d n types w O : 1 <= d < 2 ^ 20 -> flowing d n types w O ->
  exists u s w' O', update_step (str w) (up w) = Some (u, s) /\ flowing d n types w' O' /\ str w' = s /\ up w' = u /\ pushed w' = pushed w /\
    set_pins w' = if match up w with Copying _ k => n <=? k | _ => false end then set_pins w ++ [values_of (t_fifo (str w)) (t_pins (str w))] else set_pins w.
Proof.
  intros Hd Hw. destruct (realtime_step d n types w O (t_enable (str w)) Hd Hw) as (w' & O' & Hs & Hw').
  cbn [flow_step] in Hs. replace {| (str w) with t_enable := t_enable (str w) |} with (str w) in Hs by by destruct (str w).
  rewrite (fl_num _ _ _ _ _ Hw) in Hs. destruct (update_step (str w) (up w)) as [[u s] |] eqn:E; [| discriminate Hs]. cbn in Hs. injection Hs as <-.
  exists u, s. eexists _, O'. split; [done |]. split; [exact Hw' |]. done.
Qed.

Lemma copying_runs d n types fuel w O t k : 1 <= d < 2 ^ 20 -> flowing d n types w O -> up w = Copying t k -> n - k + 1 <= Z.of_nat fuel ->
  exists s, run_update fuel (str w) (up w) = Some s /\ f_out (t_fifo s) = (O + 1) mod d /\ pushed w !! Z.to_nat O = Some (zip_with field types (t_pins s)) /\
    empty s = empty (str w) /\ t_curr_depth s = t_curr_depth (str w) /\ underruns s = underruns (str w).
Proof.
  intros Hd. revert w k. induction fuel as [| fuel IH]; intros w k Hw Eu Hfuel; pose proof Hw as [[_ _ _ _] Ed En Et _ Hout [HO _] _ Hset _ _ Hup]; rewrite Eu in Hup; destruct Hup as (-> & HON & Hk & _); [lia |].
  destruct (update_step_flow d n types w O Hd Hw) as (u & s & w' & O' & E & Hw' & Es & Eu' & Ep & Ese). pose proof Hw' as [_ _ _ _ _ _ [HO' _] _ Hset' _ _ _].
  cbn [run_update]. rewrite E. cbn [mbind option_bind]. rewrite Eu in *. rewrite Ep, Ese, Hset in Hset'. rewrite Ep in HO'. cbn [update_step] in E. rewrite En in E.
  destruct (k <? n) eqn:Ekn; zb.
  - rewrite (proj2 (Z.leb_gt n k)) in Hset' by lia. apply (f_equal length) in Hset'. rewrite !length_take in Hset'. assert (O' = O) as -> by lia.
    repeat (apply bind_Some in E as (? & _ & E)). injection E as Eu1 Es1.
    destruct (IH w' (k + 1) Hw' (eq_trans Eu' (eq_sym Eu1)) ltac:(lia)) as (s1 & Hr1 & ? & ? & ? & ? & ?). exists s1. rewrite Es, Eu' in *. rewrite <- Eu1 in *.
    split; [done |]. split; [done |]. split; [by rewrite <- Ep |]. rewrite <- Es1 in *. done.
  - rewrite (proj2 (Z.leb_le n k)) in Hset' by lia. injection E as Eu1 Es1. rewrite <- Eu1. exists s. split; [done |].
    rewrite <- Es1. cbn. rewrite Ed. split; [by apply next_mod |]. split; [| done].
    pose proof (f_equal length Hset') as Hlen. rewrite length_app, !length_take in Hlen. cbn [length] in Hlen. assert (O' = O + 1) as -> by lia.
    rewrite Z.add_1_r, Z2Nat.inj_succ in Hset' by lia. destruct (lookup_lt_is_Some_2 (pushed w) (Z.to_nat O)) as [x Hx]; [lia |]. rewrite Hx.
    erewrite take_S_r in Hset' by exact Hx. apply app_inv_head in Hset'. injection Hset' as <-. unfold values_of. by rewrite Et.
Qed.

(** The funct takes the oldest line, or reports that there is none. *)
Theorem update_outcome d n types w O : 1 <= d < 2 ^ 20 -> flowing d n types w O -> up w = Idle -> t_enable (str w) = true ->
  exists s, update (str w) = Some s /\
  if O =? Z.of_nat (length (pushed w)) then s = {| (str w) with underruns := s32 (underruns (str w) + 1); empty := true; t_curr_depth := 0 |}
  else empty s = false /\ t_curr_depth s = Z.of_nat (length (pushed w)) - O /\ underruns s = underruns (str w) /\ f_out (t_fifo s) = (O + 1) mod d /\
    pushed w !! Z.to_nat O = Some (zip_with field types (t_pins s)).
Proof.
  intros Hd Hw Eu Hen. pose proof Hw as [[_ Hnp _ _] Ed En Et Hin Hout [HO HON] _ _ _ _ _]. set (N := Z.of_nat (length (pushed w))) in *.
  assert (0 <= n) as Hn by lia.
  destruct (update_step_flow d n types w O Hd Hw) as (u1 & s1 & w1 & O1 & E1 & Hw1 & Es1 & Eu1 & Ep1 & _). rewrite Eu in E1. cbn [update_step] in E1. rewrite Hen in E1. injection E1 as <- <-.
  unfold update. rewrite En. replace (Z.to_nat n + 3)%nat with (S (S (Z.to_nat n + 1))) by lia. cbn [run_update update_step]. assert (forall a b : updater, (if t_enable (str w) then a else b) = a) as -> by by rewrite Hen. cbn [mbind option_bind update_step]. rewrite Hin, Hout.
  destruct (O mod d =? N mod d) eqn:E; zb.
  - assert (O = N) as -> by (apply (mod_eq_close d); [lia | done | lia]). rewrite Z.eqb_refl. cbn [mbind option_bind]. eexists. split; reflexivity.
  - rewrite (proj2 (Z.eqb_neq O N)) by congruence. cbn [mbind option_bind].
    assert (flowing d n types {| w with up := GotIn (f_in (t_fifo (str w))) |} O) as Hg.
    { destruct Hw. split; try done. cbn. exists N. split; [exact Hin | lia]. }
    destruct (update_step_flow d n types _ O Hd Hg) as (u2 & s2 & w2 & O2 & E2 & Hw2 & Es2 & Eu2 & Ep2 & Ese2). cbn [str up update_step pushed set_pins] in *.
    rewrite Hin, Hout, (proj2 (Z.eqb_neq (O mod d) (N mod d))) in E2 by done. injection E2 as <- <-.
    pose proof Hw2 as [_ _ _ _ _ Hout2 Hr2 _ Hset2 _ _ _]. rewrite Ese2, Ep2, (fl_set _ _ _ _ _ Hw) in Hset2. rewrite Ep2 in Hr2. apply (f_equal length) in Hset2. rewrite !length_take in Hset2.
    fold N in Hr2. assert (O2 = O) as -> by lia.
    destruct (copying_runs d n types (Z.to_nat n + 1) w2 O (O mod d) 0 Hd Hw2 Eu2 ltac:(lia)) as (s & Hr & Hf & Hp & Hem & Hcd & Hun). rewrite Es2, Eu2 in *. rewrite Ep2 in Hp. cbn [empty t_curr_depth underruns] in *.
    exists s. split; [exact Hr |]. split; [done |]. split; [| done]. rewrite Hcd, Ed.
    pose proof (Z.div_mod O d ltac:(lia)). pose proof (Z.div_mod N d ltac:(lia)). pose proof (Z.mod_pos_bound O d ltac:(lia)). pose proof (Z.mod_pos_bound N d ltac:(lia)).
    destruct (N mod d <? O mod d) eqn:Elt; zb; [assert (N / d - O / d = 1) by nia | assert (N / d - O / d = 0) by nia]; nia.
Qed.

(** ** Concrete runs of the streamer *)
Definition example_stream : fifo_t := MkFifo 0 0 3 1 [HAL_U32] (replicate 3 0) 0.
Definition fill (v : Z) : list flow_event := [Input (Line [v] true)] ++ replicate 4 Program.
Definition bad_line : list flow_event := [Input (Line [99] false)] ++ replicate 4 Program.

Theorem streamer_in_order_witness : exists w queue, flow_run (fill 7 ++ bad_line ++ fill 8 ++ replicate 4 (Realtime true)) (flow_start example_stream) = Some w /\
  pushed w = set_pins w ++ queue /\ set_pins w = [[7]] /\ queue = [[8]].
Proof.
  destruct (streamer_in_order [Some [117]] [3] [example_stream] example_stream (fill 7 ++ bad_line ++ fill 8 ++ replicate 4 (Realtime true))) as (w & queue & Hr & Hq & _).
  - reflexivity.
  - left. reflexivity.
  - repeat constructor. discriminate.
  - exists w, queue. split; [exact Hr |]. split; [exact Hq |]. vm_compute in Hr. injection Hr as <-. split; [reflexivity |]. cbn in Hq. by injection Hq as <-.
Defined.

(** With a depth of 1 no sample is ever readable: every one is an overrun. *)
Example depth_one r : run_events (ticks [1; 2; 3]) (start (MkFifo 0 0 1 1 [HAL_U32] [0; 0] (u64 (-1)))) = Some r -> f_in (s_fifo (smp r)) = f_out (s_fifo (smp r)) /\ overruns (smp r) = 3.
Proof. intros H. vm_compute in H. by injection H as <-. Qed.
