(* ===== verification/MatrixKb.v ===== *)
(** * Matrix keyboards (modules/managed/components/matrix_kb/src/matrix_kb.c)

    The keys are at the crossings of rows and columns.  The funct selects one
    row after the other and reads the columns, or it receives the codes of a
    card that scans the keyboard itself. *)
From S2P Require Import Prelude.

Module MatrixKb.

Record kb_inst_t := MkInst {
  key : list Z;              (* hal.key: row by row *)
  rows : list Z;             (* hal.rows *)
  cols : list Z;             (* hal.cols *)
  keycode : Z;               (* hal.keycode *)
  rollover : Z;              (* param *)
  invert : Z;                (* param *)
  ncols : Z;
  nrows : Z;
  now : list Z;
  then_ : list Z;
  keydown_bits : Z;          (* keydown *)
  keyup_bits : Z;            (* keyup *)
  rowshift : Z;
  row : Z;
  num_keys : Z;
  scan : bool;
}.

(** ** Events *)

(** The row and the column of the code on the pin, if there is such a key. *)
Definition key_of (inst : kb_inst_t) : option (Z * Z) :=
  let keycode := s32 (Z.land (keycode inst) (u32 (Z.lnot (Z.lor (keydown_bits inst) (keyup_bits inst))))) in
  let r := Z.shiftr keycode (rowshift inst) in
  let c := s32 (Z.land (u32 keycode) (u32 (Z.lnot (u32 (Z.shiftl 0xFFFFFFFF (rowshift inst)))))) in
  if (r <? 0) || (c <? 0) || (nrows inst <=? u32 r) || (ncols inst <=? u32 c) then None else Some (r, c).

Definition set_key (r c v : Z) (inst : kb_inst_t) : kb_inst_t :=
  {| inst with key := <[Z.to_nat (r * ncols inst + c) := v]> (key inst) |}.

Definition keyup (inst : kb_inst_t) : kb_inst_t :=
  match key_of inst with
  | None => inst
  | Some (r, c) =>
      let inst := if 0 <? num_keys inst then {| inst with num_keys := num_keys inst - 1 |} else inst in
      set_key r c 0 inst
  end.

Definition keydown (inst : kb_inst_t) : kb_inst_t :=
  match key_of inst with
  | None => inst
  | Some (r, c) =>
      if rollover inst <=? u32 (num_keys inst) then inst
      else set_key r c 1 {| inst with num_keys := s32 (num_keys inst + 1) |}
  end.

(** ** The funct *)

(** The columns of the selected row as bits. *)
Fixpoint read_cols (cols : list Z) (invert c : Z) : Z :=
  match cols with
  | [] => 0
  | v :: cols => Z.shiftl (Z.b2z (negb (v =? invert))) c + read_cols cols invert (c + 1)
  end.

(** A code for the row that is scanned. *)
Definition set_code (bits c : Z) (inst : kb_inst_t) : kb_inst_t :=
  {| inst with keycode := u32 (bits + Z.shiftl (row inst) (rowshift inst) + c) |}.

(** What has changed at a column between [old] and [new]. *)
Definition column (old new c : Z) (inst : kb_inst_t) : kb_inst_t :=
  if Z.testbit old c && negb (Z.testbit new c) then keyup (set_code (keyup_bits inst) c inst)
  else if negb (Z.testbit old c) && Z.testbit new c then keydown (set_code (keydown_bits inst) c inst)
  else inst.

Fixpoint columns (n : nat) (old new c : Z) (inst : kb_inst_t) : kb_inst_t :=
  match n with
  | O => inst
  | S n => columns n old new (c + 1) (column old new c inst)
  end.

(** One row: a change counts when two scans agree. *)
Definition scan_row (inst : kb_inst_t) : option kb_inst_t :=
  let s := u32 (read_cols (take (Z.to_nat (ncols inst)) (cols inst)) (invert inst) 0) in
  now_r ← now inst !! Z.to_nat (row inst);
  then_r ← then_ inst !! Z.to_nat (row inst);
  let inst := if (s =? now_r) && negb (s =? then_r) then columns (Z.to_nat (ncols inst)) then_r s 0 inst else inst in
  let inst := {| inst with then_ := <[Z.to_nat (row inst) := now_r]> (then_ inst); now := <[Z.to_nat (row inst) := s]> (now inst);
    rows := <[Z.to_nat (row inst) := invert inst]> (rows inst) |} in
  let inst := {| inst with row := if nrows inst <=? s32 (row inst + 1) then 0 else s32 (row inst + 1) |} in
  Some {| inst with rows := <[Z.to_nat (row inst) := if invert inst =? 0 then 1 else 0]> (rows inst) |}.

Definition loop (inst : kb_inst_t) : option kb_inst_t :=
  if scan inst then scan_row inst
  else if keycode inst =? 0x40 then Some inst
  else if Z.land (keycode inst) (keydown_bits inst) =? keydown_bits inst then Some (keydown inst)
  else if Z.land (keycode inst) (keydown_bits inst) =? keyup_bits inst then Some (keyup inst)
  else Some inst.

(** ** Configuration *)

(** A size like 4x8s. *)
Fixpoint parse (config : list Z) (rows a : Z) (scan : bool) : Z * Z * bool :=
  match config with
  | [] => (rows, a, scan)
  | ch :: config =>
      let n := Z.lor ch 0x20 in
      if n =? 120 then parse config (u32 a) 0 scan
      else if (48 <=? n) && (n <=? 57) then parse config rows (s32 (a * 10 + (n - 48))) scan
      else if n =? 115 then parse config rows a true
      else parse config rows a scan
  end.

Fixpoint find_rowshift (fuel : nat) (ncols shift : Z) : option Z :=
  match fuel with
  | O => None
  | S fuel => if Z.shiftl 1 shift <? ncols then find_rowshift fuel ncols (shift + 1) else Some shift
  end.

Fixpoint find_bits (fuel : nat) (codes down up : Z) : option (Z * Z) :=
  match fuel with
  | O => None
  | S fuel => if down <? codes then find_bits fuel codes (Z.shiftl down 1) (Z.shiftl up 1) else Some (down, up)
  end.

(** -1 for a size that is refused; [None] if the loops do not end. *)
Definition configure (config : list Z) : option (Z + kb_inst_t) :=
  let '(nrows, a, scan) := parse config 0 0 false in
  let ncols := u32 a in
  if (ncols =? 0) || (nrows =? 0) then Some (inl (-1))
  else if 32 <? ncols then Some (inl (-1))
  else
    shift ← find_rowshift 6 ncols 1;
    '(down, up) ← find_bits 24 (u32 (Z.shiftl nrows shift)) 0xC0 0x80;
    Some (inr (MkInst (replicate (Z.to_nat (u32 (nrows * ncols))) 0) (replicate (Z.to_nat nrows) 0) (replicate (Z.to_nat ncols) 0) 0 2 1 ncols nrows
      (replicate (Z.to_nat nrows) 0) (replicate (Z.to_nat nrows) 0) down up shift 0 0 scan)).

End MatrixKb.

(** * Theorems

    The code of a key names the key; the pins of the keys follow a keyboard
    whose keys are held for two scans. *)
Import MatrixKb.

(** ** Codes *)

(** The place of a key is below the two bits that tell its event. *)
Record codes_ok (inst : kb_inst_t) (m : Z) : Prop := {
  co_m : 6 <= m <= 29;
  co_down : keydown_bits inst = 3 * 2 ^ m;
  co_up : keyup_bits inst = 2 * 2 ^ m;
  co_shift : 1 <= rowshift inst <= 5;
  co_cols : 0 < ncols inst <= 2 ^ rowshift inst;
  co_rows : 0 < nrows inst;
  co_fit : nrows inst * 2 ^ rowshift inst <= 2 ^ m;
}.

Lemma high_low_bits b m p i : 0 <= m -> 0 <= p < 2 ^ m -> 0 <= i -> Z.testbit (b * 2 ^ m + p) i = if i <? m then Z.testbit p i else Z.testbit b (i - m).
Proof.
  intros Hm Hp Hi. destruct (i <? m) eqn:E; zb.
  - rewrite <- (Z.mod_pow2_bits_low _ m i) by lia. rewrite Z.add_comm, Z_mod_plus_full, Z.mod_small by lia. done.
  - replace i with ((i - m) + m) at 1 by lia. rewrite <- Z.div_pow2_bits by lia. by rewrite Z.div_add_l, Z.div_small, Z.add_0_r by lia.
Qed.

Lemma strip_code b m p : 6 <= m <= 29 -> 2 <= b <= 3 -> 0 <= p < 2 ^ m -> Z.land (b * 2 ^ m + p) (u32 (Z.lnot (3 * 2 ^ m))) = p.
Proof.
  intros Hm Hb Hp. apply Z.bits_inj'. intros i Hi. rewrite Z.land_spec, high_low_bits by lia. unfold wrapu.
  destruct (Z.lt_ge_cases i 32) as [Hl | Hl].
  - rewrite Z.mod_pow2_bits_low, Z.lnot_spec by lia. rewrite <- (Z.add_0_r (3 * 2 ^ m)), high_low_bits by lia.
    destruct (i <? m) eqn:E; zb; [by rewrite Z.testbit_0_l, andb_true_r |].
    assert (Z.testbit p i = false) as -> by (rewrite <- (Z.mod_small p (2 ^ m)) by lia; apply Z.mod_pow2_bits_high; lia).
    destruct (Z.eq_dec (i - m) 0) as [-> |]; [by rewrite andb_false_r |]. destruct (Z.eq_dec (i - m) 1) as [-> |]; [by rewrite andb_false_r |].
    assert (Z.testbit b (i - m) = false) as ->; [| done]. rewrite <- (Z.mod_small b (2 ^ 2)) by lia. apply Z.mod_pow2_bits_high. lia.
  - rewrite (Z.mod_pow2_bits_high _ 32) by lia. rewrite andb_false_r. symmetry. rewrite <- (Z.mod_small p (2 ^ m)) by lia. apply Z.mod_pow2_bits_high. lia.
Qed.

Lemma column_mask s : 1 <= s <= 5 -> u32 (Z.lnot (u32 (Z.shiftl 0xFFFFFFFF s))) = Z.ones s.
Proof. intros Hs. assert (s = 1 \/ s = 2 \/ s = 3 \/ s = 4 \/ s = 5) as H by lia. by destruct H as [-> | [-> | [-> | [-> | ->]]]]. Qed.

(** The code of an event on a key is understood as that key. *)
Lemma code_key inst m bits r c : codes_ok inst m -> bits = keydown_bits inst \/ bits = keyup_bits inst -> 0 <= r < nrows inst -> 0 <= c < ncols inst ->
  key_of {| inst with keycode := u32 (bits + Z.shiftl r (rowshift inst) + c) |} = Some (r, c).
Proof.
  intros [Hm Hdown Hup Hs Hc Hr Hfit] Hbits Hrr Hcc. unfold key_of. cbn [keycode keydown_bits keyup_bits rowshift nrows ncols].
  rewrite Z.shiftl_mul_pow2 by lia. set (p := r * 2 ^ rowshift inst + c). assert (0 <= p < 2 ^ m) as Hp by (subst p; nia).
  assert (2 ^ m <= 2 ^ 29) by (apply Z.pow_le_mono_r; lia).
  assert (exists b, 2 <= b <= 3 /\ bits + r * 2 ^ rowshift inst + c = b * 2 ^ m + p) as (b & Hb & ->).
  { destruct Hbits as [-> | ->]; [exists 3 | exists 2]; subst p; lia. }
  rewrite (wrapu_small 32 (b * _ + p)) by nia. rewrite Hdown, Hup.
  assert (Z.lor (3 * 2 ^ m) (2 * 2 ^ m) = 3 * 2 ^ m) as -> by (rewrite <- !Z.shiftl_mul_pow2, <- Z.shiftl_lor by lia; done).
  rewrite strip_code by lia. rewrite wraps_small by lia. rewrite (wrapu_small 32 p) by lia. rewrite column_mask, Z.land_ones by lia.
  rewrite Z.shiftr_div_pow2 by lia. assert (p / 2 ^ rowshift inst = r) as -> by (subst p; rewrite Z.div_add_l, Z.div_small; lia).
  assert (p mod 2 ^ rowshift inst = c) as -> by (subst p; rewrite Z.add_comm, Z_mod_plus_full, Z.mod_small; lia).
  assert (nrows inst <= 2 ^ 29) by nia. assert (2 ^ rowshift inst <= 2 ^ 5) by (apply Z.pow_le_mono_r; lia).
  rewrite wraps_small by lia. rewrite !wrapu_small by lia.
  by rewrite (proj2 (Z.ltb_ge r 0)), (proj2 (Z.ltb_ge c 0)), (proj2 (Z.leb_gt (nrows inst) r)), (proj2 (Z.leb_gt (ncols inst) c)) by lia.
Qed.

(** ** The pins of the keys *)

Definition matrix : Type := Z -> Z -> bool.

Definition keys_are (inst : kb_inst_t) (K : matrix) : Prop :=
  Z.of_nat (length (key inst)) = nrows inst * ncols inst /\
  forall r c, 0 <= r < nrows inst -> 0 <= c < ncols inst -> key inst !! Z.to_nat (r * ncols inst + c) = Some (Z.b2z (K r c)).

Definition total (l : list Z) : Z := foldr Z.add 0 l.

Lemma pressed_insert l i v w : l !! i = Some v -> total (<[i := w]> l) = total l - v + w.
Proof.
  unfold total. revert i. induction l as [| x l IH]; intros [| i] H; cbn in H |- *; try discriminate H; [injection H as ->; lia |]. specialize (IH i H). etransitivity; [exact (f_equal (Z.add x) IH) | cbn; lia].
Qed.

Lemma pressed_bounds l : Forall (fun v => v = 0 \/ v = 1) l -> 0 <= total l <= Z.of_nat (length l).
Proof. unfold total. induction 1 as [| v l Hv Hl IH]; cbn; [lia |]. destruct Hv; lia. Qed.

(** The counter of pressed keys. *)
Record counted (inst : kb_inst_t) : Prop := {
  ct_bits : Forall (fun v => v = 0 \/ v = 1) (key inst);
  ct_num : num_keys inst = total (key inst);
  ct_limit : rollover inst < 2 ^ 31;
}.

(** The keys of a matrix as a list, and their number. *)
Definition grid (nr nc : Z) (K : matrix) : list Z := map (fun i => Z.b2z (K (i / nc) (i mod nc))) (seqZ 0 (nr * nc)).
Definition count (nr nc : Z) (K : matrix) : Z := total (grid nr nc K).

Lemma key_grid inst K : 0 < nrows inst -> 0 < ncols inst -> keys_are inst K -> key inst = grid (nrows inst) (ncols inst) K.
Proof.
  intros Hr Hc [Hl Hk]. apply list_eq_same_length with (n := length (key inst)); [unfold grid; rewrite length_map, length_seqZ; lia | done |].
  intros i x y Hi Hx Hy. unfold grid in Hy. rewrite list_lookup_fmap, lookup_seqZ_lt in Hy by lia. injection Hy as <-.
  pose proof (Z.div_mod (Z.of_nat i) (ncols inst) ltac:(lia)) as Hdm. pose proof (Z.mod_pos_bound (Z.of_nat i) (ncols inst) Hc).
  assert (0 <= Z.of_nat i / ncols inst < nrows inst) as Hd by (split; [apply Z.div_pos; lia | apply Z.div_lt_upper_bound; lia]).
  specialize (Hk _ _ Hd (Z.mod_pos_bound (Z.of_nat i) (ncols inst) Hc)). replace (Z.to_nat (Z.of_nat i / ncols inst * ncols inst + Z.of_nat i mod ncols inst)) with i in Hk by lia.
  rewrite Hx in Hk. by injection Hk as ->.
Qed.

Definition below (nr nc : Z) (K U : matrix) : Prop := forall r c, 0 <= r < nr -> 0 <= c < nc -> K r c = true -> U r c = true.

Lemma sum_le (f g : Z -> Z) l : (forall i, i ∈ l -> f i <= g i) -> total (map f l) <= total (map g l).
Proof. intros H. unfold total. induction l as [| i l IH]; cbn; [done |]. pose proof (H i ltac:(by apply list_elem_of_here)). specialize (IH ltac:(intros j Hj; apply H; by apply list_elem_of_further)). lia. Qed.

Lemma sum_lt (f g : Z -> Z) l i : (forall i, i ∈ l -> f i <= g i) -> i ∈ l -> f i < g i -> total (map f l) < total (map g l).
Proof.
  intros H Hi Hl. induction l as [| j l IH]; [by apply not_elem_of_nil in Hi |].
  pose proof (H j ltac:(by apply list_elem_of_here)). pose proof (sum_le f g l ltac:(intros k Hk; apply H; by apply list_elem_of_further)). unfold total in *. cbn.
  apply elem_of_cons in Hi as [-> | Hi]; [lia |]. specialize (IH ltac:(intros k Hk; apply H; by apply list_elem_of_further) Hi). lia.
Qed.

Lemma grid_index nr nc i : 0 < nc -> i ∈ seqZ 0 (nr * nc) -> 0 <= i / nc < nr /\ 0 <= i mod nc < nc.
Proof.
  intros Hc Hi%elem_of_seqZ. split; [| by apply Z.mod_pos_bound]. split; [apply Z.div_pos; lia | apply Z.div_lt_upper_bound; lia].
Qed.

Lemma below_bits nr nc K U : 0 < nc -> below nr nc K U -> forall i, i ∈ seqZ 0 (nr * nc) -> Z.b2z (K (i / nc) (i mod nc)) <= Z.b2z (U (i / nc) (i mod nc)).
Proof.
  intros Hc Hb i Hi. destruct (grid_index nr nc i Hc Hi) as [H1 H2]. specialize (Hb _ _ H1 H2).
  destruct (K (i / nc) (i mod nc)), (U (i / nc) (i mod nc)); cbn; lia || by specialize (Hb eq_refl).
Qed.

Lemma count_le nr nc K U : 0 < nc -> below nr nc K U -> count nr nc K <= count nr nc U.
Proof. intros Hc Hb. apply sum_le. by apply below_bits. Qed.

Lemma count_lt nr nc K U r c : below nr nc K U -> 0 <= r < nr -> 0 <= c < nc -> K r c = false -> U r c = true -> count nr nc K < count nr nc U.
Proof.
  intros Hb Hr Hc HK HU. assert ((r * nc + c) / nc = r) as Ed by (rewrite Z.div_add_l, Z.div_small; lia).
  assert ((r * nc + c) mod nc = c) as Em by (rewrite Z.add_comm, Z_mod_plus_full, Z.mod_small; lia).
  apply (sum_lt _ _ _ (r * nc + c)); [apply below_bits; [lia | done] | apply elem_of_seqZ; nia |]. rewrite Ed, Em, HK, HU. done.
Qed.

(** What an event may change. *)
Definition same_rest (inst inst' : kb_inst_t) : Prop :=
  inst' = {| inst with key := key inst'; keycode := keycode inst'; num_keys := num_keys inst' |}.

Lemma same_rest_trans a b c : same_rest a b -> same_rest b c -> same_rest a c.
Proof. unfold same_rest. intros -> ->. done. Qed.

Lemma same_rest_codes a b m : same_rest a b -> codes_ok a m -> codes_ok b m.
Proof. unfold same_rest. intros -> []. by split. Qed.

Lemma index_inj n r c r' c' : 0 <= c < n -> 0 <= c' < n -> 0 <= r -> 0 <= r' -> Z.to_nat (r * n + c) = Z.to_nat (r' * n + c') -> r = r' /\ c = c'.
Proof. intros. assert (r * n + c = r' * n + c') by nia. assert (r = r') by nia. subst. lia. Qed.

Definition set (K : matrix) (r c : Z) (v : bool) : matrix := fun r' c' => if (r' =? r) && (c' =? c) then v else K r' c'.

(** Setting the pin of a key. *)
Lemma insert_key inst K r c v : keys_are inst K -> 0 <= r < nrows inst -> 0 <= c < ncols inst ->
  forall inst', key inst' = <[Z.to_nat (r * ncols inst + c) := Z.b2z v]> (key inst) -> nrows inst' = nrows inst -> ncols inst' = ncols inst -> keys_are inst' (set K r c v).
Proof.
  intros [Hl Hk] Hr Hc inst' Ek En Ec. split; [by rewrite Ek, length_insert, En, Ec |]. rewrite En, Ec, Ek. intros r' c' Hr' Hc'. unfold set.
  destruct ((r' =? r) && (c' =? c)) eqn:E.
  - apply andb_true_iff in E as [E1 E2]. zb. subst. apply list_lookup_insert_eq. nia.
  - rewrite list_lookup_insert_ne; [by apply Hk |]. intros Ei. destruct (index_inj (ncols inst) r c r' c') as [-> ->]; lia.
Qed.

Lemma event_key inst m K c (v : bool) : codes_ok inst m -> counted inst -> keys_are inst K -> 0 <= row inst < nrows inst -> 0 <= c < ncols inst -> K (row inst) c = negb v ->
  (v = true -> count (nrows inst) (ncols inst) K < rollover inst) ->
  let inst' := if v then keydown (set_code (keydown_bits inst) c inst) else keyup (set_code (keyup_bits inst) c inst) in
  same_rest inst inst' /\ counted inst' /\ keys_are inst' (set K (row inst) c v).
Proof.
  intros Hco Hct Hk Hr Hc Hv Hroom. pose proof Hct as [Hb Hn Hlim]. pose proof Hk as [Hl Hkk].
  assert (total (key inst) = count (nrows inst) (ncols inst) K) as Hcount by (unfold count; rewrite <- key_grid; [done | lia | lia | done]).
  specialize (Hkk (row inst) c Hr Hc). rewrite Hv in Hkk. pose proof (lookup_lt_Some _ _ _ Hkk) as Hlt.
  assert (forall w, (w = 0 \/ w = 1) -> Forall (fun x => x = 0 \/ x = 1) (<[Z.to_nat (row inst * ncols inst + c) := w]> (key inst))) as Hins by (intros w Hw; by apply Forall_insert).
  pose proof (pressed_insert _ _ _ (Z.b2z v) Hkk) as Ht. assert (Z.b2z v = 0 \/ Z.b2z v = 1) as Hv01 by (destruct v; auto). pose proof (pressed_bounds _ (Hins _ Hv01)) as Hbd. rewrite length_insert in Hbd.
  pose proof (pressed_bounds _ Hb) as Hb0.
  destruct v; cbn [negb Z.b2z] in *; unfold keydown, keyup, set_code, set_key.
  - specialize (Hroom eq_refl). rewrite (code_key inst m _ (row inst) c Hco) by auto. cbn [rollover num_keys]. rewrite wrapu_small by lia. rewrite (proj2 (Z.leb_gt _ _)) by lia.
    split; [done |]. split; [split; cbn [key num_keys rollover ncols]; [by apply Hins; auto | rewrite wraps_small; lia | done] |].
    apply (insert_key inst K _ c true Hk Hr Hc); done.
  - rewrite (code_key inst m _ (row inst) c Hco) by auto. cbn [num_keys]. rewrite (proj2 (Z.ltb_lt 0 _)) by lia.
    split; [done |]. split; [split; cbn [key num_keys rollover ncols]; [by apply Hins; auto | lia | done] |].
    apply (insert_key inst K _ c false Hk Hr Hc); done.
Qed.

Lemma keys_are_ext inst K K' : (forall r c, K r c = K' r c) -> keys_are inst K -> keys_are inst K'.
Proof. intros He [Hl Hk]. split; [done |]. intros r c Hr Hc. rewrite <- He. by apply Hk. Qed.

(** A column: the pin has the new value if it had the old one. *)
Lemma column_key inst m K old new c : codes_ok inst m -> counted inst -> keys_are inst K -> 0 <= row inst < nrows inst -> 0 <= c < ncols inst -> K (row inst) c = Z.testbit old c ->
  (K (row inst) c = false -> Z.testbit new c = true -> count (nrows inst) (ncols inst) K < rollover inst) ->
  let inst' := column old new c inst in same_rest inst inst' /\ counted inst' /\ keys_are inst' (set K (row inst) c (Z.testbit new c)).
Proof.
  intros Hco Hct Hk Hr Hc Hv Hroom. unfold column. rewrite Hv in Hroom. destruct (Z.testbit old c) eqn:Eo, (Z.testbit new c) eqn:En; cbn [andb negb].
  - split; [by destruct inst |]. split; [done |]. apply (keys_are_ext _ K); [| done]. intros r' c'. unfold set. destruct ((r' =? row inst) && (c' =? c)) eqn:E; [| done].
    apply andb_true_iff in E as [E1 E2]. zb. by subst.
  - by apply (event_key inst m K c false).
  - apply (event_key inst m K c true); try done. by intros _; apply Hroom.
  - split; [by destruct inst |]. split; [done |]. apply (keys_are_ext _ K); [| done]. intros r' c'. unfold set. destruct ((r' =? row inst) && (c' =? c)) eqn:E; [| done].
    apply andb_true_iff in E as [E1 E2]. zb. by subst.
Qed.

Definition set_row (K : matrix) (r c n : Z) (new : Z) : matrix := fun r' c' => if (r' =? r) && (c <=? c') && (c' <? c + n) then Z.testbit new c' else K r' c'.

Lemma columns_keys n inst m K old new c : codes_ok inst m -> counted inst -> keys_are inst K -> 0 <= row inst < nrows inst -> 0 <= c -> c + Z.of_nat n <= ncols inst ->
  (forall c', c <= c' < c + Z.of_nat n -> K (row inst) c' = Z.testbit old c') ->
  (exists U, below (nrows inst) (ncols inst) K U /\ (forall c', c <= c' < c + Z.of_nat n -> Z.testbit new c' = true -> U (row inst) c' = true) /\
    count (nrows inst) (ncols inst) U <= rollover inst) ->
  let inst' := columns n old new c inst in same_rest inst inst' /\ counted inst' /\ keys_are inst' (set_row K (row inst) c (Z.of_nat n) new).
Proof.
  revert inst K c. induction n as [| n IH]; intros inst K c Hco Hct Hk Hr Hc Hn Hold (U & HKU & HnU & HU); cbn [columns].
  - split; [by destruct inst |]. split; [done |]. apply (keys_are_ext _ K); [| done]. intros r' c'. unfold set_row.
    destruct (c <=? c') eqn:E1, (c' <? c + Z.of_nat 0) eqn:E2; zb; rewrite ?andb_false_r, ?andb_true_r; try done. lia.
  - destruct (column_key inst m K old new c) as (H1 & H2 & H3); try done; [lia | apply Hold; lia | |].
    { intros Hf Ht. eapply Z.lt_le_trans; [| exact HU]. apply (count_lt _ _ K U (row inst) c); try done; [lia | apply HnU; [lia | done]]. }
    pose proof (same_rest_codes _ _ m H1 Hco) as Hco1. assert (row (column old new c inst) = row inst /\ nrows (column old new c inst) = nrows inst /\ ncols (column old new c inst) = ncols inst /\ rollover (column old new c inst) = rollover inst) as (Er & Enr & Enc & Erl) by by rewrite H1.
    destruct (IH (column old new c inst) _ (c + 1) Hco1 H2 H3) as (H4 & H5 & H6); [by rewrite Er, Enr | lia | rewrite Enc; lia | | |].
    { intros c' Hc'. rewrite Er. unfold set. rewrite Z.eqb_refl, (proj2 (Z.eqb_neq c' c)) by lia. apply Hold. lia. }
    { exists U. rewrite Er, Enr, Enc, Erl. split; [| split; [intros c' Hc'; apply HnU; lia | done]]. intros r' c' Hr' Hc'. unfold set.
      destruct ((r' =? row inst) && (c' =? c)) eqn:E; [| by apply HKU]. apply andb_true_iff in E as [E1 E2]. zb. subst. apply HnU. lia. }
    split; [by eapply same_rest_trans |]. split; [done |]. revert H6. apply keys_are_ext. rewrite Er. intros r' c'. unfold set_row, set.
    destruct (r' =? row inst); cbn [andb]; [| done].
    destruct (c' =? c) eqn:E1, (c + 1 <=? c') eqn:E2, (c' <? c + 1 + Z.of_nat n) eqn:E3, (c <=? c') eqn:E4, (c' <? c + Z.of_nat (S n)) eqn:E5; zb; cbn [andb]; try done; try lia. by subst.
Qed.

(** ** One row of a keyboard *)

Fixpoint number_of (l : list bool) : Z := match l with [] => 0 | b :: l => Z.b2z b + 2 * number_of l end.

Lemma number_bit l i : 0 <= i -> Z.testbit (number_of l) i = match l !! Z.to_nat i with Some b => b | None => false end.
Proof.
  revert i. induction l as [| b l IH]; intros i Hi; cbn [number_of]; [by rewrite Z.testbit_0_l |]. rewrite Z.add_comm.
  destruct (Z.eq_dec i 0) as [-> | Hne]; [apply Z.testbit_0_r |].
  replace i with (Z.succ (i - 1)) by lia. rewrite Z.testbit_succ_r by lia. rewrite IH by lia.
  by replace (Z.to_nat (Z.succ (i - 1))) with (S (Z.to_nat (i - 1))) by lia.
Qed.

Lemma number_range l : 0 <= number_of l < 2 ^ Z.of_nat (length l).
Proof. induction l as [| b l IH]; cbn [number_of length]; [lia |]. rewrite Nat2Z.inj_succ, Z.pow_succ_r by lia. destruct b; cbn [Z.b2z]; lia. Qed.

Lemma read_cols_number l inv c : 0 <= c -> read_cols l inv c = number_of (map (fun v => negb (v =? inv)) l) * 2 ^ c.
Proof.
  revert c. induction l as [| v l IH]; intros c Hc; cbn [read_cols map number_of]; [done |]. rewrite IH by lia. rewrite Z.shiftl_mul_pow2, Z.pow_add_r by lia. lia.
Qed.

(** The pressed keys of a row as a number. *)
Definition row_bits (n : Z) (M : matrix) (r : Z) : Z := number_of (map (M r) (seqZ 0 n)).

Lemma row_bits_bit n M r c : 0 <= c < n -> Z.testbit (row_bits n M r) c = M r c.
Proof.
  intros Hc. unfold row_bits. rewrite number_bit by lia. rewrite list_lookup_fmap. rewrite lookup_seqZ_lt by lia. cbn. f_equal. lia.
Qed.

Definition opposite (inv : Z) : Z := if inv =? 0 then 1 else 0.

(** The wires: a column is active when a pressed key connects it with an
    active row. *)
Definition wired (M : matrix) (inst : kb_inst_t) : kb_inst_t :=
  {| inst with cols := map (fun c => if existsb (fun r => negb (nth (Z.to_nat r) (rows inst) (invert inst) =? invert inst) && M r c) (seqZ 0 (nrows inst))
      then opposite (invert inst) else invert inst) (seqZ 0 (ncols inst)) |}.

(** The state of an instance that scans: what the pins of the keys and the
    last two scans of every row are; one row is active. *)
Record scanning (inst : kb_inst_t) (m : Z) (K : matrix) (Nw Th : Z -> Z) : Prop := {
  sc_codes : codes_ok inst m;
  sc_counted : counted inst;
  sc_keys : keys_are inst K;
  sc_scan : scan inst = true;
  sc_invert : invert inst = 0 \/ invert inst = 1;
  sc_row : 0 <= row inst < nrows inst;
  sc_rows : length (rows inst) = Z.to_nat (nrows inst) /\
    forall r, 0 <= r < nrows inst -> rows inst !! Z.to_nat r = Some (if r =? row inst then opposite (invert inst) else invert inst);
  sc_now : length (now inst) = Z.to_nat (nrows inst) /\ forall r, 0 <= r < nrows inst -> now inst !! Z.to_nat r = Some (Nw r);
  sc_then : length (then_ inst) = Z.to_nat (nrows inst) /\ forall r, 0 <= r < nrows inst -> then_ inst !! Z.to_nat r = Some (Th r);
}.

Lemma wired_read inst m K Nw Th M : scanning inst m K Nw Th ->
  u32 (read_cols (take (Z.to_nat (ncols inst)) (cols (wired M inst))) (invert inst) 0) = row_bits (ncols inst) M (row inst).
Proof.
  intros [[Hm _ _ Hs Hc _ _] _ _ _ Hinv Hrow [Hrl Hrows] _ _]. rewrite read_cols_number by lia. rewrite Z.mul_1_r. cbn [wired cols].
  rewrite take_ge by (rewrite length_map, length_seqZ; lia). rewrite map_map.
  assert (forall c, negb ((if existsb (fun r => negb (nth (Z.to_nat r) (rows inst) (invert inst) =? invert inst) && M r c) (seqZ 0 (nrows inst)) then opposite (invert inst) else invert inst) =? invert inst) = M (row inst) c) as Hcol.
  { intros c. assert (existsb (fun r => negb (nth (Z.to_nat r) (rows inst) (invert inst) =? invert inst) && M r c) (seqZ 0 (nrows inst)) = M (row inst) c) as ->.
    - apply Bool.eq_iff_eq_true. rewrite existsb_exists. setoid_rewrite <- list_elem_of_In. setoid_rewrite elem_of_seqZ. setoid_rewrite andb_true_iff. split.
      + intros (r & Hr & Ha & HM). rewrite (nth_lookup_Some _ _ _ _ (Hrows r ltac:(lia))) in Ha. destruct (r =? row inst) eqn:E; zb; [by subst |]. by rewrite Z.eqb_refl in Ha.
      + intros HM. exists (row inst). split; [lia |]. split; [| done]. rewrite (nth_lookup_Some _ _ _ _ (Hrows (row inst) Hrow)), Z.eqb_refl. by destruct Hinv as [-> | ->].
    - destruct (M (row inst) c); [by destruct Hinv as [-> | ->] | by rewrite Z.eqb_refl]. }
  rewrite (map_ext _ _ Hcol). apply wrapu_small. pose proof (number_range (map (M (row inst)) (seqZ 0 (ncols inst)))) as Hb. rewrite length_map, length_seqZ, Z2Nat.id in Hb by lia.
  split; [apply Hb |]. eapply Z.lt_le_trans; [apply Hb |]. apply Z.pow_le_mono_r; [lia |]. assert (2 ^ rowshift inst <= 2 ^ 5) by (apply Z.pow_le_mono_r; lia). lia.
Qed.

Lemma keys_are_in inst K K' : (forall r c, 0 <= r < nrows inst -> 0 <= c < ncols inst -> K r c = K' r c) -> keys_are inst K -> keys_are inst K'.
Proof. intros He [Hl Hk]. split; [done |]. intros r c Hr Hc. rewrite <- He by done. by apply Hk. Qed.

(** One period: the active row is read and the next one becomes active. *)
Lemma kb_period_step inst m K Nw Th M : scanning inst m K Nw Th ->
  (forall c, 0 <= c < ncols inst -> K (row inst) c = Z.testbit (Th (row inst)) c) ->
  (exists U, below (nrows inst) (ncols inst) K U /\ below (nrows inst) (ncols inst) M U /\ count (nrows inst) (ncols inst) U <= rollover inst) ->
  let v := row_bits (ncols inst) M (row inst) in
  exists inst', loop (wired M inst) = Some inst' /\ 
    scanning inst' m (if (v =? Nw (row inst)) && negb (v =? Th (row inst)) then set_row K (row inst) 0 (ncols inst) v else K)
      (fun r => if r =? row inst then v else Nw r) (fun r => if r =? row inst then Nw r else Th r) /\
    row inst' = (if nrows inst <=? row inst + 1 then 0 else row inst + 1) /\ nrows inst' = nrows inst /\ ncols inst' = ncols inst /\ rollover inst' = rollover inst.
Proof.
  intros Hsc Hold (U & HKU & HMU & HU) v. pose proof (wired_read _ _ _ _ _ M Hsc) as Hread. pose proof Hsc as [Hco Hct Hk Hscan Hinv Hrow [Hrl Hrows] [Hnl Hnow] [Htl Hthen]].
  pose proof Hco as [Hm _ _ Hs Hc Hr Hfit]. assert (2 ^ m <= 2 ^ 29) by (apply Z.pow_le_mono_r; lia). assert (nrows inst <= 2 ^ 29) by nia.
  unfold loop. cbn [wired scan]. rewrite Hscan. unfold scan_row.
  change (ncols (wired M inst)) with (ncols inst). change (invert (wired M inst)) with (invert inst). rewrite Hread. fold v.
  cbn [wired now then_ row]. rewrite (Hnow (row inst) Hrow), (Hthen (row inst) Hrow). cbn [mbind option_bind].
  set (w := if (v =? Nw (row inst)) && negb (v =? Th (row inst)) then columns (Z.to_nat (ncols inst)) (Th (row inst)) v 0 (wired M inst) else wired M inst).
  assert (same_rest (wired M inst) w /\ counted w /\ keys_are w (if (v =? Nw (row inst)) && negb (v =? Th (row inst)) then set_row K (row inst) 0 (ncols inst) v else K)) as (Hsame & Hctw & Hkw).
  { assert (codes_ok (wired M inst) m) as Hcow by by destruct Hco. assert (counted (wired M inst)) as Hctw by by destruct Hct.
    subst w. destruct ((v =? Nw (row inst)) && negb (v =? Th (row inst))); [| by split; [| split]].
    destruct (columns_keys (Z.to_nat (ncols inst)) (wired M inst) m K (Th (row inst)) v 0 Hcow Hctw Hk Hrow) as (H1 & H2 & H3); [done | cbn; lia | | |].
    - intros c' Hc'. apply Hold. lia.
    - exists U. split; [done |]. split; [| done]. intros c' Hc' Hb. cbn [wired row]. rewrite Z2Nat.id in Hc' by lia. apply HMU; [done | lia |]. subst v. rewrite row_bits_bit in Hb by lia. done.
    - rewrite Z2Nat.id in H3 by lia. done. }
  fold w. unfold same_rest in Hsame.
  assert (row w = row inst /\ nrows w = nrows inst /\ ncols w = ncols inst /\ rows w = rows inst /\ now w = now inst /\ then_ w = then_ inst /\ invert w = invert inst /\
    scan w = scan inst /\ keydown_bits w = keydown_bits inst /\ keyup_bits w = keyup_bits inst /\ rowshift w = rowshift inst /\ rollover w = rollover inst) as (E1 & E2 & E3 & E4 & E5 & E6 & E7 & E8 & E9 & E10 & E11 & E12)
    by (rewrite Hsame; done).
  clearbody w. clear Hsame. rewrite E1, E2, E4, E5, E6, E7. rewrite wraps_small by lia. remember (if nrows inst <=? row inst + 1 then 0 else row inst + 1) as next eqn:Enext.
  assert (0 <= next < nrows inst) as Hnext by (rewrite Enext; destruct (nrows inst <=? row inst + 1) eqn:E; zb; lia).
  eexists. split; [reflexivity |]. split; [| done].
  split; cbn; rewrite ?E1, ?E2, ?E3, <- ?Enext; try done.
  - destruct Hco. split; cbn; by rewrite ?E1, ?E2, ?E3, ?E9, ?E10, ?E11.
  - by destruct Hctw.
  - destruct Hkw as [Hkl Hkk]. rewrite E2, E3 in Hkl, Hkk. by split.
  - congruence.
  - split; [by rewrite !length_insert |]. intros r Hr'. unfold opposite. destruct (r =? next) eqn:E; zb; [rewrite E; apply list_lookup_insert_eq; rewrite length_insert; lia |].
    rewrite list_lookup_insert_ne by lia. destruct (Z.eq_dec r (row inst)) as [-> | Hne]; [apply list_lookup_insert_eq; lia |].
    rewrite list_lookup_insert_ne by lia. rewrite Hrows by done. by rewrite (proj2 (Z.eqb_neq r (row inst))) by done.
  - split; [by rewrite length_insert |]. intros r Hr'. destruct (r =? row inst) eqn:E; zb; [subst; apply list_lookup_insert_eq; lia | rewrite list_lookup_insert_ne by lia; by apply Hnow].
  - split; [by rewrite length_insert |]. intros r Hr'. destruct (r =? row inst) eqn:E; zb; [subst; apply list_lookup_insert_eq; lia | rewrite list_lookup_insert_ne by lia; by apply Hthen].
Qed.

Lemma scanning_ext inst m K K' Nw Nw' Th Th' : scanning inst m K Nw Th -> (forall r c, 0 <= r < nrows inst -> 0 <= c < ncols inst -> K r c = K' r c) ->
  (forall r, 0 <= r < nrows inst -> Nw r = Nw' r) -> (forall r, 0 <= r < nrows inst -> Th r = Th' r) -> scanning inst m K' Nw' Th'.
Proof.
  intros [] HK HN HT. split; try done; [by eapply keys_are_in | |].
  - destruct sc_now0 as [? H]. split; [done |]. intros r Hr. rewrite <- HN by done. by apply H.
  - destruct sc_then0 as [? H]. split; [done |]. intros r Hr. rewrite <- HT by done. by apply H.
Qed.

(** ** Rounds over all rows *)

Fixpoint periods (n : nat) (M : matrix) (inst : kb_inst_t) : option kb_inst_t :=
  match n with O => Some inst | S n => inst ← loop (wired M inst); periods n M inst end.

Definition mix {A : Type} (q : Z) (f g : Z -> A) : Z -> A := fun r => if r <? q then f r else g r.

Section Rounds.
Context (m nr nc rl : Z) (K M U : matrix) (HKU : below nr nc K U) (HMU : below nr nc M U) (HU : count nr nc U <= rl).

Definition sized (inst : kb_inst_t) : Prop := nrows inst = nr /\ ncols inst = nc /\ rollover inst = rl.

(** The first round sees the new matrix once. *)
Lemma round_one n q inst : Z.of_nat n = nr - q -> 0 <= q <= nr -> row inst = (if q =? nr then 0 else q) -> sized inst ->
  scanning inst m K (mix q (row_bits nc M) (row_bits nc K)) (row_bits nc K) ->
  exists inst', periods n M inst = Some inst' /\ scanning inst' m K (row_bits nc M) (row_bits nc K) /\ row inst' = 0 /\ sized inst'.
Proof.
  revert q inst. induction n as [| n IH]; intros q inst Hn Hq Hrow (En & Ec & El) Hsc; cbn [periods].
  - assert (q = nr) as -> by lia. rewrite Z.eqb_refl in Hrow. exists inst. split; [done |]. split; [| done].
    eapply scanning_ext; [exact Hsc | done | | done]. intros r Hr. unfold mix. by rewrite (proj2 (Z.ltb_lt r nr)) by lia.
  - rewrite (proj2 (Z.eqb_neq q nr)) in Hrow by lia.
    destruct (kb_period_step inst m _ _ _ M Hsc) as (inst1 & -> & Hsc1 & Hrow1 & En1 & Ec1 & El1); [intros c Hc; rewrite row_bits_bit by lia; done | exists U; by rewrite En, Ec, El |].
    cbn [mbind option_bind]. rewrite Hrow, Ec in Hsc1. rewrite Hrow, En in Hrow1.
    apply (IH (q + 1) inst1); [lia | lia | | repeat split; congruence |].
    + rewrite Hrow1. destruct (nr <=? q + 1) eqn:E1, (q + 1 =? nr) eqn:E2; zb; lia.
    + eapply scanning_ext; [exact Hsc1 | | |].
      * intros r c Hr Hc. unfold mix. rewrite (proj2 (Z.ltb_ge q q)) by lia. by destruct (row_bits nc M q =? row_bits nc K q).
      * intros r Hr. unfold mix. destruct (r =? q) eqn:E1, (r <? q) eqn:E2, (r <? q + 1) eqn:E3; zb; try lia; congruence.
      * intros r Hr. unfold mix. destruct (r =? q) eqn:E1; zb; [| done]. rewrite E1. by rewrite (proj2 (Z.ltb_ge q q)) by lia.
Qed.

(** The second round sets the pins. *)
Lemma round_two n q inst : Z.of_nat n = nr - q -> 0 <= q <= nr -> row inst = (if q =? nr then 0 else q) -> sized inst ->
  scanning inst m (mix q M K) (row_bits nc M) (mix q (row_bits nc M) (row_bits nc K)) ->
  exists inst', periods n M inst = Some inst' /\ scanning inst' m M (row_bits nc M) (row_bits nc M) /\ row inst' = 0 /\ sized inst'.
Proof.
  revert q inst. induction n as [| n IH]; intros q inst Hn Hq Hrow (En & Ec & El) Hsc; cbn [periods].
  - assert (q = nr) as -> by lia. rewrite Z.eqb_refl in Hrow. exists inst. split; [done |]. split; [| done].
    eapply scanning_ext; [exact Hsc | | done |]; [intros r c Hr Hc | intros r Hr]; unfold mix; by rewrite (proj2 (Z.ltb_lt r nr)) by lia.
  - rewrite (proj2 (Z.eqb_neq q nr)) in Hrow by lia.
    destruct (kb_period_step inst m _ _ _ M Hsc) as (inst1 & -> & Hsc1 & Hrow1 & En1 & Ec1 & El1).
    { intros c Hc. rewrite Hrow. unfold mix. rewrite (proj2 (Z.ltb_ge q q)) by lia. by rewrite row_bits_bit by lia. }
    { exists U. rewrite En, Ec, El. split; [| done]. intros r c Hr Hc. unfold mix. destruct (r <? q); [by apply HMU | by apply HKU]. }
    cbn [mbind option_bind]. rewrite Hrow, Ec in Hsc1. rewrite Hrow, En in Hrow1.
    apply (IH (q + 1) inst1); [lia | lia | | repeat split; congruence |].
    + rewrite Hrow1. destruct (nr <=? q + 1) eqn:E1, (q + 1 =? nr) eqn:E2; zb; lia.
    + eapply scanning_ext; [exact Hsc1 | | |].
      * intros r c Hr Hc. rewrite Z.eqb_refl. cbn [andb]. unfold mix. rewrite (proj2 (Z.ltb_ge q q)) by lia.
        destruct (row_bits nc M q =? row_bits nc K q) eqn:Eb; cbn [negb]; zb.
        -- destruct (r <? q) eqn:E2, (r <? q + 1) eqn:E3; zb; try lia; try done. assert (r = q) as -> by lia.
           rewrite <- (row_bits_bit nc K), <- (row_bits_bit nc M) by lia. by rewrite Eb.
        -- unfold set_row. destruct (r =? q) eqn:E1, (r <? q) eqn:E2, (r <? q + 1) eqn:E3; zb; try lia; cbn [andb]; try done.
           rewrite (proj2 (Z.leb_le 0 c)), (proj2 (Z.ltb_lt c (0 + nc))) by lia. cbn [andb]. rewrite row_bits_bit by lia. by rewrite E1.
      * intros r Hr. cbv beta. destruct (r =? q) eqn:E1; zb; [by rewrite E1 | done].
      * intros r Hr. unfold mix. destruct (r =? q) eqn:E1, (r <? q) eqn:E2, (r <? q + 1) eqn:E3; zb; try lia; congruence.
Qed.
End Rounds.

Lemma periods_app a b M inst : periods (a + b) M inst = periods a M inst ≫= periods b M.
Proof. revert inst. induction a as [| a IH]; intros inst; cbn; [done |]. destruct (loop (wired M inst)); cbn; [apply IH | done]. Qed.

(** A settled instance: the pins and the last two scans agree. *)
Definition settled (inst : kb_inst_t) (m nr nc rl : Z) (K : matrix) : Prop :=
  scanning inst m K (row_bits nc K) (row_bits nc K) /\ row inst = 0 /\ sized nr nc rl inst.

Definition union (K M : matrix) : matrix := fun r c => K r c || M r c.

Lemma below_union nr nc K M : below nr nc K (union K M) /\ below nr nc M (union K M).
Proof. split; intros r c _ _ H; unfold union; rewrite H; [done | apply orb_true_r]. Qed.

Lemma two_rounds inst m nr nc rl K M : settled inst m nr nc rl K -> 0 < nr -> count nr nc (union K M) <= rl ->
  exists inst', periods (2 * Z.to_nat nr) M inst = Some inst' /\ settled inst' m nr nc rl M.
Proof.
  intros (Hsc & Hrow & Hs) Hnr HU. destruct (below_union nr nc K M) as [HKU HMU]. replace (2 * Z.to_nat nr)%nat with (Z.to_nat nr + Z.to_nat nr)%nat by lia. rewrite periods_app.
  destruct (round_one m nr nc rl K M (union K M) HKU HMU HU (Z.to_nat nr) 0 inst) as (i1 & -> & H1 & Hr1 & Hs1); [lia | lia | by rewrite (proj2 (Z.eqb_neq 0 nr)) by lia | done | |].
  { eapply scanning_ext; [exact Hsc | done | | done]. intros r Hr. unfold mix. by rewrite (proj2 (Z.ltb_ge r 0)) by lia. }
  cbn [mbind option_bind]. destruct (round_two m nr nc rl K M (union K M) HKU HMU HU (Z.to_nat nr) 0 i1) as (i2 & -> & H2 & Hr2 & Hs2); [lia | lia | by rewrite (proj2 (Z.eqb_neq 0 nr)) by lia | done | |].
  { eapply scanning_ext; [exact H1 | | done |]; [intros r c Hr Hc | intros r Hr]; unfold mix; by rewrite (proj2 (Z.ltb_ge r 0)) by lia. }
  by exists i2.
Qed.

Lemma more_rounds j inst m nr nc rl K : settled inst m nr nc rl K -> 0 < nr -> count nr nc K <= rl ->
  exists inst', periods (j * Z.to_nat nr) K inst = Some inst' /\ settled inst' m nr nc rl K.
Proof.
  intros Hs Hnr HU. assert (below nr nc K K) as HKK by by intros r c. revert inst Hs. induction j as [| j IH]; intros inst (Hsc & Hrow & Hs); [by exists inst |].
  replace (S j * Z.to_nat nr)%nat with (Z.to_nat nr + j * Z.to_nat nr)%nat by lia. rewrite periods_app.
  destruct (round_one m nr nc rl K K K HKK HKK HU (Z.to_nat nr) 0 inst) as (i1 & -> & H1 & Hr1 & Hs1); [lia | lia | by rewrite (proj2 (Z.eqb_neq 0 nr)) by lia | done | |].
  { eapply scanning_ext; [exact Hsc | done | | done]. intros r Hr. unfold mix. by rewrite (proj2 (Z.ltb_ge r 0)) by lia. }
  cbn [mbind option_bind]. apply IH. by split.
Qed.

(** ** From the configuration on *)

Lemma find_rowshift_spec fuel ncols shift s : find_rowshift fuel ncols shift = Some s -> 1 <= shift <= 5 -> 0 < ncols <= 32 -> 1 <= s <= 5 /\ ncols <= 2 ^ s.
Proof.
  revert shift. induction fuel as [| fuel IH]; intros shift H Hs Hn; cbn [find_rowshift] in H; [discriminate H |].
  destruct (Z.shiftl 1 shift <? ncols) eqn:E; zb; [| injection H as <-; rewrite Z.shiftl_1_l in E; lia].
  rewrite Z.shiftl_1_l in E. apply IH in H; try done. assert (shift <> 5) by (intros ->; lia). lia.
Qed.

Lemma find_bits_spec fuel codes j down up : find_bits fuel codes (3 * 2 ^ (6 + j)) (2 * 2 ^ (6 + j)) = Some (down, up) -> 0 <= j ->
  exists k, j <= k < j + Z.of_nat fuel /\ down = 3 * 2 ^ (6 + k) /\ up = 2 * 2 ^ (6 + k).
Proof.
  revert j. induction fuel as [| fuel IH]; intros j H Hj; cbn [find_bits] in H; [discriminate H |].
  destruct (_ <? codes); [| injection H as <- <-; exists j; lia].
  rewrite !Z.shiftl_mul_pow2 in H by lia.
  destruct (IH (j + 1)) as (k & Hk & Hd); [| lia | exists k; split; [lia | done]].
  replace (6 + (j + 1)) with (6 + j + 1) by lia. rewrite Z.pow_add_r by lia. rewrite <- H. f_equal; lia.
Qed.

Definition no_keys : matrix := fun _ _ => false.

(** The start: with no key pressed, one round makes one row active. *)
Record starting (inst : kb_inst_t) (m q : Z) : Prop := {
  st_codes : codes_ok inst m;
  st_counted : counted inst;
  st_keys : keys_are inst no_keys;
  st_scan : scan inst = true;
  st_invert : invert inst = 1;
  st_row : row inst = if q =? nrows inst then 0 else q;
  st_rows : length (rows inst) = Z.to_nat (nrows inst) /\
    forall r, 0 <= r < nrows inst -> rows inst !! Z.to_nat r = Some (if (q <=? r) || (r =? row inst) then 0 else 1);
  st_now : length (now inst) = Z.to_nat (nrows inst) /\ forall r, 0 <= r < nrows inst -> now inst !! Z.to_nat r = Some 0;
  st_then : length (then_ inst) = Z.to_nat (nrows inst) /\ forall r, 0 <= r < nrows inst -> then_ inst !! Z.to_nat r = Some 0;
}.

Lemma no_keys_read inst : invert inst = 1 -> read_cols (take (Z.to_nat (ncols inst)) (cols (wired no_keys inst))) 1 0 = 0.
Proof.
  intros Hi. cbn [wired cols]. rewrite Hi. rewrite (map_ext _ (fun _ : Z => 1)).
  - assert (forall (l : list Z) n c, read_cols (take n (map (fun _ => 1) l)) 1 c = 0) as H; [| apply H].
    induction l as [| x l IH]; intros [| n] c; cbn; try done. by rewrite IH, Z.shiftl_0_l.
  - intros c. assert (existsb (fun r => negb (nth (Z.to_nat r) (rows inst) 1 =? 1) && no_keys r c) (seqZ 0 (nrows inst)) = false) as ->; [| done].
    apply not_true_iff_false. intros (r & _ & H)%existsb_exists. by rewrite andb_false_r in H.
Qed.

Lemma start_step inst m q : starting inst m q -> 0 <= q < nrows inst ->
  exists inst', loop (wired no_keys inst) = Some inst' /\ starting inst' m (q + 1) /\ sized (nrows inst) (ncols inst) (rollover inst) inst'.
Proof.
  intros [Hco Hct Hk Hscan Hinv Hrow [Hrl Hrows] [Hnl Hnow] [Htl Hthen]] Hq. rewrite (proj2 (Z.eqb_neq q _)) in Hrow by lia.
  pose proof Hco as [Hm _ _ Hs Hc Hr Hfit]. assert (2 ^ m <= 2 ^ 29) by (apply Z.pow_le_mono_r; lia). assert (nrows inst <= 2 ^ 29) by nia.
  unfold loop. cbn [wired scan]. rewrite Hscan. unfold scan_row.
  change (ncols (wired no_keys inst)) with (ncols inst). change (invert (wired no_keys inst)) with (invert inst). rewrite Hinv, no_keys_read by done.
  cbn [wired now then_ row]. rewrite Hrow, (Hnow q Hq), (Hthen q Hq). cbn [mbind option_bind]. change (u32 0) with 0. rewrite Z.eqb_refl. cbn [negb andb].
  eexists. split; [reflexivity |]. split; [| done]. cbn [wired nrows rows now then_ row invert key cols keycode rollover ncols keydown_bits keyup_bits rowshift num_keys scan]. rewrite ?Hrow, !(wraps_small 32 (q + 1)), ?Hinv by lia.
  remember (if nrows inst <=? q + 1 then 0 else q + 1) as next eqn:Enext.
  assert (next = if q + 1 =? nrows inst then 0 else q + 1) as En
    by (rewrite Enext; destruct (nrows inst <=? q + 1) eqn:E1, (q + 1 =? nrows inst) eqn:E2; zb; done || lia).
  assert (0 <= next < nrows inst) as Hnext by (rewrite En; destruct (q + 1 =? nrows inst) eqn:E2; zb; lia).
  split; cbn [nrows ncols rows now then_ row invert scan]; try done.
  - by destruct Hco.
  - by destruct Hct.
  - split; [by rewrite !length_insert |]. intros r Hr'. destruct (r =? next) eqn:E; zb; [rewrite E, orb_true_r; apply list_lookup_insert_eq; rewrite length_insert; lia |].
    rewrite list_lookup_insert_ne by lia. rewrite orb_false_r. destruct (Z.eq_dec r q) as [-> | Hne].
    + rewrite list_lookup_insert_eq by lia. by rewrite (proj2 (Z.leb_gt (q + 1) q)) by lia.
    + rewrite list_lookup_insert_ne, Hrows, Hrow by lia. rewrite (proj2 (Z.eqb_neq r q)), orb_false_r by done. destruct (q <=? r) eqn:E1, (q + 1 <=? r) eqn:E2; zb; try done; lia.
  - split; [by rewrite length_insert |]. intros r Hr'. destruct (Z.eq_dec r q) as [-> | Hne]; [apply list_lookup_insert_eq; lia | rewrite list_lookup_insert_ne by lia; by apply Hnow].
  - split; [by rewrite length_insert |]. intros r Hr'. destruct (Z.eq_dec r q) as [-> | Hne]; [apply list_lookup_insert_eq; lia | rewrite list_lookup_insert_ne by lia; by apply Hthen].
Qed.

Lemma start_round n inst m q : Z.of_nat n = nrows inst - q -> 0 <= q <= nrows inst -> starting inst m q ->
  exists inst', periods n no_keys inst = Some inst' /\ starting inst' m (nrows inst) /\ sized (nrows inst) (ncols inst) (rollover inst) inst'.
Proof.
  revert inst q. induction n as [| n IH]; intros inst q Hn Hq Hs; cbn [periods]; [assert (q = nrows inst) as -> by lia; by exists inst |].
  destruct (start_step inst m q Hs) as (i1 & -> & H1 & En & Ec & El); [lia |]. cbn [mbind option_bind].
  destruct (IH i1 (q + 1)) as (i2 & E2 & H2 & Hs2); [lia | lia | done |]. rewrite En, Ec, El in *. by exists i2.
Qed.

Lemma started_settled inst m nr nc rl : starting inst m nr -> sized nr nc rl inst -> settled inst m nr nc rl no_keys.
Proof.
  intros [Hco Hct Hk Hscan Hinv Hrow [Hrl Hrows] [Hnl Hnow] [Htl Hthen]] (En & Ec & El). rewrite En in *. rewrite Z.eqb_refl in Hrow.
  assert (forall r, row_bits nc no_keys r = 0) as Hz.
  { intros r. unfold row_bits, no_keys. induction (seqZ 0 nc) as [| x l IH]; cbn; [done |]. by rewrite IH. }
  destruct Hco. split; [| done]. split; rewrite ?En; try done; [lia | lia | | |].
  - split; [done |]. intros r Hr. rewrite Hrows, Hrow, Hinv by done. unfold opposite. by rewrite (proj2 (Z.leb_gt nr r)) by lia.
  - split; [done |]. intros r Hr. rewrite Hz. by apply Hnow.
  - split; [done |]. intros r Hr. rewrite Hz. by apply Hthen.
Qed.

(** What the user presses: a number of periods and the keys that are down. *)
Fixpoint hold (l : list (nat * matrix)) (inst : kb_inst_t) : option kb_inst_t :=
  match l with [] => Some inst | (n, M) :: l => inst ← periods n M inst; hold l inst end.

(** The codes leave room for all keys. *)
Definition codes_fit (inst : kb_inst_t) : Prop := 2 * (nrows inst * 2 ^ rowshift inst) <= keyup_bits inst.

Lemma parse_rows config rows a sc : 0 <= rows -> 0 <= fst (fst (parse config rows a sc)).
Proof.
  revert rows a sc. induction config as [| ch config IH]; intros rows a sc Hr; cbn [parse]; [done |].
  repeat case_match; apply IH; try done. apply wrapu_range. lia.
Qed.

Lemma configured_codes inst config : configure config = Some (inr inst) -> codes_fit inst -> exists m, codes_ok inst m /\ 0 <= nrows inst * ncols inst <= 2 ^ 29 /\
  inst = MkInst (replicate (Z.to_nat (nrows inst * ncols inst)) 0) (replicate (Z.to_nat (nrows inst)) 0) (replicate (Z.to_nat (ncols inst)) 0) 0 2 1 (ncols inst) (nrows inst)
      (replicate (Z.to_nat (nrows inst)) 0) (replicate (Z.to_nat (nrows inst)) 0) (keydown_bits inst) (keyup_bits inst) (rowshift inst) 0 0 (scan inst).
Proof.
  unfold configure. destruct (parse config 0 0 false) as [[nr a] sc] eqn:Ep. intros H Hfit.
  destruct ((u32 a =? 0) || (nr =? 0)) eqn:E0; [by simplify_eq |]. destruct (32 <? u32 a) eqn:E32; [by simplify_eq |]. apply orb_false_iff in E0 as [Ea En]. zb.
  apply bind_Some in H as (s & Hs & H). apply bind_Some in H as ([down up] & Hb & H). injection H as <-.
  pose proof (wrapu_range 32 a ltac:(lia)). destruct (find_rowshift_spec _ _ _ _ Hs) as [Hs1 Hs2]; [lia | lia |].
  change 0xC0 with (3 * 2 ^ (6 + 0)) in Hb. change 0x80 with (2 * 2 ^ (6 + 0)) in Hb. destruct (find_bits_spec _ _ _ _ _ Hb) as (k & Hk & -> & ->); [lia |].
  unfold codes_fit in Hfit. cbn in Hfit. pose proof (parse_rows config 0 0 false ltac:(lia)) as Hnr. rewrite Ep in Hnr. cbn in Hnr.
  assert (2 ^ (6 + k) <= 2 ^ 29) by (apply Z.pow_le_mono_r; lia). assert (nr * u32 a <= 2 ^ 29) by nia. assert (0 <= nr * u32 a) by nia.
  exists (6 + k). cbn [nrows ncols keydown_bits keyup_bits rowshift scan]. rewrite (wrapu_small 32 (nr * u32 a)) by lia. split; [split; cbn; lia |]. done.
Qed.

Lemma configured inst config R : configure config = Some (inr inst) -> scan inst = true -> codes_fit inst -> R < 2 ^ 31 ->
  exists m, codes_ok inst m /\ starting {| inst with rollover := R |} m 0.
Proof.
  intros Hconf Hscan Hfit HR. destruct (configured_codes inst config Hconf Hfit) as (m & Hco & Hsize & E). exists m. split; [done |]. pose proof Hco as [_ _ _ _ Hc Hr _].
  pose proof (f_equal key E) as F1. pose proof (f_equal rows E) as F2. pose proof (f_equal now E) as F3. pose proof (f_equal then_ E) as F4.
  pose proof (f_equal invert E) as F5. pose proof (f_equal row E) as F6. pose proof (f_equal num_keys E) as F7. cbn in F1, F2, F3, F4, F5, F6, F7. clear E.
  split; cbn; rewrite ?F1, ?F2, ?F3, ?F4, ?F5, ?F6, ?F7, ?length_replicate; try done.
  - by destruct Hco.
  - split; cbn; rewrite ?length_replicate; [apply Forall_replicate; by left | | lia].
    generalize (Z.to_nat (nrows inst * ncols inst)). intros n. unfold total. by induction n.
  - split; cbn; [rewrite length_replicate; lia |]. intros r c Hr' Hc'. apply lookup_replicate_2. nia.
  - by destruct (nrows inst).
  - split; [done |]. intros r Hr'. rewrite (proj2 (Z.leb_le 0 r)) by lia. apply lookup_replicate_2. lia.
  - split; [done |]. intros r Hr'. apply lookup_replicate_2. lia.
  - split; [done |]. intros r Hr'. apply lookup_replicate_2. lia.
Qed.

Lemma last_shift {A : Type} (l : list A) a b : List.last (a :: l) b = List.last l a.
Proof. revert a b. induction l as [| x l IH]; intros a b; [done |]. transitivity (List.last (x :: l) b); [done |]. by rewrite !IH. Qed.

(** Combinations of keys that follow each other: those of two consecutive
    combinations together are at most [R] keys. *)
Fixpoint few (nr nc R : Z) (K : matrix) (l : list matrix) : Prop :=
  match l with [] => True | M :: l => count nr nc (union K M) <= R /\ few nr nc R M l end.

(** C26: The pins of the keys follow the keyboard, up to the limit of keys
    that are pressed at a time.  From a configuration that the module accepts
    and whose codes leave room for all keys, with any limit: after one round
    over the rows without a pressed key, if every combination of keys is held
    for at least two rounds, and the keys of a combination and of the one
    before it are together at most as many as the limit, the pins are the keys
    that are down. *)
Theorem keys_follow config inst R l : configure config = Some (inr inst) -> scan inst = true -> codes_fit inst -> R < 2 ^ 31 ->
  few (nrows inst) (ncols inst) R no_keys (map snd l) ->
  exists inst', hold ((Z.to_nat (nrows inst), no_keys) :: map (fun jM => (((2 + fst jM) * Z.to_nat (nrows inst))%nat, snd jM)) l) {| inst with rollover := R |} = Some inst' /\
    keys_are inst' (List.last (map snd l) no_keys).
Proof.
  intros Hconf Hscan Hfit HR Hfew. destruct (configured inst config R Hconf Hscan Hfit HR) as (m & Hco & Hst). pose proof (co_rows _ _ Hco) as Hnr. pose proof (co_cols _ _ Hco) as Hnc.
  cbn [hold]. destruct (start_round (Z.to_nat (nrows inst)) {| inst with rollover := R |} m 0 ltac:(cbn; destruct Hco; cbn in *; lia) ltac:(cbn; destruct Hco; cbn in *; lia) Hst) as (i1 & -> & H1 & Hs1). cbn [mbind option_bind nrows ncols rollover] in *.
  apply (started_settled i1 m _ (ncols inst) R) in H1; [| exact Hs1]. revert i1 H1 Hs1 Hfew. generalize no_keys. induction l as [| [j M] l IH]; intros K i1 H1 Hs1 Hfew; cbn [map hold].
  - exists i1. split; [done |]. destruct H1 as (Hsc & _). by destruct Hsc.
  - cbn [fst snd map few] in *. destruct Hfew as [HU Hfew]. assert (count (nrows inst) (ncols inst) M <= R) as HM by (etransitivity; [apply count_le; [lia | apply (below_union _ _ K M)] | exact HU]).
    replace ((2 + j) * Z.to_nat (nrows inst))%nat with (2 * Z.to_nat (nrows inst) + j * Z.to_nat (nrows inst))%nat by lia. rewrite periods_app.
    destruct (two_rounds i1 m _ _ _ K M H1 Hnr HU) as (i2 & -> & H2). cbn [mbind option_bind].
    destruct (more_rounds j i2 m _ _ _ M H2 Hnr HM) as (i3 & -> & H3). cbn [mbind option_bind].
    destruct (IH M i3 H3) as (i4 & Hr & Hk); [by destruct H3 as (_ & _ & ?) | done |]. exists i4. split; [exact Hr |].
    by rewrite last_shift.
Qed.

(** The code that a card sends for a key is understood as that key, for a
    key that goes down and for one that goes up. *)
Theorem card_codes config inst r c : configure config = Some (inr inst) -> codes_fit inst -> 0 <= r < nrows inst -> 0 <= c < ncols inst ->
  forall bits, bits = keydown_bits inst \/ bits = keyup_bits inst -> key_of {| inst with keycode := u32 (bits + Z.shiftl r (rowshift inst) + c) |} = Some (r, c).
Proof.
  intros Hconf Hfit Hr Hc bits Hbits. destruct (configured_codes inst config Hconf Hfit) as (m & Hco & _). by apply (code_key inst m).
Qed.

(** ** Concrete keyboards *)
Definition size (s : list Z) : option kb_inst_t := match configure s with Some (inr inst) => Some inst | _ => None end.

(** 2x2s *)
Definition small : list Z := [50; 120; 50; 115].
Definition press (l : list (Z * Z)) : matrix := fun r c => existsb (fun k => (fst k =? r) && (snd k =? c)) l.

(** With the limit that the module has unless it is changed. *)
Theorem keys_follow_witness : exists inst inst', configure small = Some (inr inst) /\ rollover inst = 2 /\
  hold [(2%nat, no_keys); (4%nat, press [(0, 1); (1, 0)]); (6%nat, press [(1, 0)])] {| inst with rollover := 2 |} = Some inst' /\ key inst' = [0; 0; 1; 0] /\ keys_are inst' (press [(1, 0)]).
Proof.
  destruct (configure small) as [[| inst] |] eqn:E; [vm_compute in E; discriminate E | | vm_compute in E; discriminate E].
  assert (scan inst = true /\ codes_fit inst /\ nrows inst = 2 /\ ncols inst = 2 /\ rollover inst = 2) as (Hs & Hf & Hr & Hc & Hro) by (vm_compute in E; injection E as <-; split; [reflexivity |]; split; [discriminate |]; done).
  destruct (keys_follow small inst 2 [(0%nat, press [(0, 1); (1, 0)]); (1%nat, press [(1, 0)])] E Hs Hf) as (inst' & Hrun & Hk); [lia | rewrite Hr, Hc; vm_compute; split; [discriminate | split; [discriminate | exact I]] |].
  assert (Z.to_nat (nrows inst) = 2%nat) as Hn by by rewrite Hr. exists inst, inst'. rewrite Hn in Hrun. split; [reflexivity |]. split; [exact Hro |]. split; [exact Hrun |]. split; [| exact Hk].
  vm_compute in E. injection E as <-. vm_compute in Hrun. by injection Hrun as <-.
Defined.

(** A third key is never reported with that limit, however long it is held. *)
Example third_key : exists inst inst', configure small = Some (inr inst) /\
  hold [(2%nat, no_keys); (4%nat, press [(0, 1); (1, 0)]); (40%nat, press [(0, 1); (1, 0); (1, 1)])] inst = Some inst' /\ key inst' = [0; 1; 1; 0].
Proof.
  destruct (configure small) as [[| inst] |] eqn:E; [vm_compute in E; discriminate E | | vm_compute in E; discriminate E].
  destruct (hold [(2%nat, no_keys); (4%nat, press [(0, 1); (1, 0)]); (40%nat, press [(0, 1); (1, 0); (1, 1)])] inst) as [inst' |] eqn:Eh; [| vm_compute in E; injection E as <-; vm_compute in Eh; discriminate Eh].
  exists inst, inst'. split; [done |]. split; [done |]. vm_compute in E. injection E as <-. vm_compute in Eh. by injection Eh as <-.
Qed.

Definition two_keys : list (nat * matrix) := [(4%nat, no_keys); (2%nat, press [(0, 0)]); (20%nat, press [(0, 0); (0, 1)])].
Definition bounce : list (nat * matrix) :=
  [(4%nat, no_keys); (4%nat, press [(0, 0)]); (2%nat, no_keys); (4%nat, press [(0, 0)]); (8%nat, press [(0, 0); (1, 1)])].

(** Two keys of a row that go down one scan apart: the first is never
    reported, however long both are held. *)
Example lost_key : exists inst inst', configure small = Some (inr inst) /\
  hold two_keys inst = Some inst' /\ key inst' = [0; 1; 0; 0].
Proof.
  destruct (configure small) as [[| inst] |] eqn:E; [vm_compute in E; discriminate E | | vm_compute in E; discriminate E].
  destruct (hold two_keys inst) as [inst' |] eqn:Eh; [| vm_compute in E; injection E as <-; vm_compute in Eh; discriminate Eh].
  exists inst, inst'. split; [done |]. split; [done |]. vm_compute in E. injection E as <-. vm_compute in Eh. by injection Eh as <-.
Qed.

(** A contact that opens for one scan is counted as another pressed key: with
    the limit of two, a second key is then ignored. *)
Example bounce_counts : exists inst inst', configure small = Some (inr inst) /\
  hold bounce inst = Some inst' /\
  num_keys inst' = 2 /\ key inst' = [1; 0; 0; 0].
Proof.
  destruct (configure small) as [[| inst] |] eqn:E; [vm_compute in E; discriminate E | | vm_compute in E; discriminate E].
  destruct (hold bounce inst) as [inst' |] eqn:Eh; [| vm_compute in E; injection E as <-; vm_compute in Eh; discriminate Eh].
  exists inst, inst'. split; [done |]. split; [done |]. vm_compute in E. injection E as <-. vm_compute in Eh. by injection Eh as <-.
Qed.

(** 16x8: the codes do not fit.  A key of row 8 that goes down is never
    reported, and one that goes up releases the key in row 0. *)
Example aliased_rows : exists inst, configure [49; 54; 120; 56] = Some (inr inst) /\
  key_of {| inst with keycode := keydown_bits inst + Z.shiftl 8 (rowshift inst) |} = None /\
  key_of {| inst with keycode := keyup_bits inst + Z.shiftl 8 (rowshift inst) |} = Some (0, 0).
Proof.
  destruct (configure [49; 54; 120; 56]) as [[| inst] |] eqn:E; [vm_compute in E; discriminate E | | vm_compute in E; discriminate E].
  exists inst. split; [done |]. vm_compute in E. by injection E as <-.
Qed.
