(* ===== verification/HeapAllocator.v ===== *)
(** * The heap as the allocator of HAL

    The heap of rtapi_heap.c behind the interface [Allocator] of HalData, and
    the proof that it keeps the laws [AllocatorSpec] on which the invariants
    of HAL rest.  Offsets of HAL count from the start of the segment, those
    of the heap from its descriptor at [heap_off].  [ah_top] and [ah_blocks]
    are ghosts: the end of the memory the heap was given, and the block that
    each pointer in use lies in. *)
From S2P Require Import Prelude Mem Heap HeapFacts HeapFree HeapTheorems HeapAligned RtapiTask HalData.
Import Heap.

(** Where a heap descriptor lies: its offset in the segment, and its address. *)
Class HeapPlace := { heap_off : Z; heap_addr : Z }.
Class HeapPlaceSpec `{HeapPlace} := {
  heap_off_ok : 0 <= heap_off < 2 ^ 30 /\ (8 | heap_off);
  heap_addr_ok : 0 <= heap_addr /\ (8 | heap_addr);
}.

Record heap_state := HeapState { ah_heap : rtapi_heap; ah_top : Z; ah_blocks : gmap Z Z }.

Section Allocator.
Context {HP : HeapPlace}.

(** A crash of the heap is one of the caller.  When there is no memory the
    heap is as it was. *)
Definition heap_calloc (h : heap_state) (n : Z) : result (option (Z * heap_state)) :=
  match rtapi_calloc 1 n (ah_heap h) with
  | (Ok (Some p), h') => Ok (Some (heap_off + p, HeapState h' (ah_top h) (<[heap_off + p := p - 8]> (ah_blocks h))))
  | (Ok None, _) => Ok None
  | (Err e, _) => Err e
  | (Crash, _) => Crash
  end.

(** Without memory the code writes a tag below address 0; HAL makes sure that
    there is memory ([aligned_guard]). *)
Definition heap_malloc_aligned (h : heap_state) (n align : Z) : result (option (Z * heap_state)) :=
  match rtapi_malloc_aligned heap_addr n align (ah_heap h) with
  | (Ok (Some p), h') =>
      Ok (Some (heap_off + p, HeapState h' (ah_top h) (<[heap_off + p := hsize (hp_mem h') (p - 8) - 8]> (ah_blocks h))))
  | (Ok None, _) => Ok None
  | (Err e, _) => Err e
  | (Crash, _) => Crash
  end.

Definition heap_free (h : heap_state) (p : Z) : result heap_state :=
  match rtapi_free (p - heap_off) (ah_heap h) with
  | (Ok _, h') => Ok (HeapState h' (ah_top h) (delete p (ah_blocks h)))
  | (Err e, _) => Err e
  | (Crash, _) => Crash
  end.

Definition heap_addmem (h : heap_state) (off n : Z) : result heap_state :=
  match rtapi_heap_addmem (off - heap_off) n (ah_heap h) with
  | (Ok _, h') => Ok (HeapState h' (off - heap_off + n) (ah_blocks h))
  | (Err e, _) => Err e
  | (Crash, _) => Crash
  end.

#[export] Instance rtapi_allocator : Allocator heap_state := {
  h_init := HeapState (rtapi_heap_init ∅) sizeof_heap ∅;
  h_calloc := heap_calloc;
  h_malloc_aligned := heap_malloc_aligned;
  h_free := heap_free;
  h_addmem := heap_addmem;
}.
End Allocator.

(** ** Blocks inside the memory of the heap *)
Definition inside (top : Z) (b : Z * Z) : Prop := (8 | b.1) /\ b.1 + 8 * b.2 <= top.

Lemma merge_up_inside top bp u F :
  inside top (bp, u) -> Forall (inside top) F -> Forall (inside top) (merge_up bp u F).
Proof.
  intros Hb HF. destruct HF as [| [b s] F [H1 H2] HF]; simpl; [by apply Forall_singleton |].
  destruct (Z.eqb_spec (bp + 8 * u) b) as [<- |]; constructor; try done; [| by constructor].
  split; [apply Hb | simpl in *; lia].
Qed.

Lemma release_inside top bp u F :
  inside top (bp, u) -> Forall (inside top) F -> Forall (inside top) (release bp u F).
Proof.
  intros Hb HF. induction HF as [| [b s] F [H1 H2] HF IH]; [by apply Forall_singleton |].
  cbn [release]. destruct (b <? bp); [| apply merge_up_inside; [done | by constructor]].
  destruct (Z.eqb_spec (b + 8 * s) bp) as [<- |]; [| by constructor].
  pose proof (merge_up_inside top _ _ _ Hb HF) as Hm. rewrite merge_up_eq in *.
  apply Forall_cons in Hm as [[_ Hw] Hm]. constructor; [| done]. split; [done | simpl in *; lia].
Qed.

Lemma taken_inside top Fa b s n Fb :
  Forall (inside top) (Fa ++ (b, s) :: Fb) -> 1 <= n <= s ->
  Forall (inside top) (taken Fa b s n Fb) /\ inside top (b + 8 * (s - n), n).
Proof.
  rewrite Forall_app, Forall_cons. intros (HFa & [H1 H2] & HFb) Hn. simpl in *. split.
  - unfold taken. apply Forall_app. split; [done |]. apply Forall_app. split; [| done].
    destruct (s =? n); repeat constructor; simpl; [done | lia].
  - split; simpl; [| lia]. apply Z.divide_add_r; [done | by exists (s - n); lia].
Qed.

(** ** The invariant *)

(** [p] is the payload of the block at [a], or an aligned region inside it. *)
Definition ptr_of (m : mem) (p a u : Z) : Prop := p = a + 8 \/ aligned_block m p (a + 8) u.

Lemma ptr_range m p a u : 1 <= u -> ptr_of m p a u -> a + 8 <= p <= a + 8 * u.
Proof. intros Hu [-> | [? _ _]]; lia. Qed.

Lemma ptr_kept m m' p a u : agree m m' (a + 8) (a + 8 * u) -> ptr_of m p a u -> ptr_of m' p a u.
Proof.
  intros Hag [-> | [Hin Hat Hb]]; [by left | right].
  assert (tag m' (p - 8) = tag m (p - 8)) as Ht.
  { apply load32_agree. eapply agree_sub; [exact Hag | lia | lia]. }
  split; [done | by rewrite (hattr_tag _ _ _ Ht) | by rewrite (hsize_tag _ _ _ Ht)].
Qed.

Section Laws.
Context {HP : HeapPlace} {HPS : HeapPlaceSpec}.

Record heap_inv (h : heap_state) (F : list (Z * Z)) (A : gmap Z Z) : Prop := HeapInv {
  hi_rep : rep (ah_heap h) F A;
  hi_free : Forall (inside (ah_top h)) F;
  hi_used : forall a u, A !! a = Some u -> inside (ah_top h) (a, u);
  hi_top : sizeof_heap <= ah_top h <= 2 ^ 24;
  hi_arena : 0 <= hp_arena_size (ah_heap h) <= ah_top h;
  hi_blocks : forall p a, ah_blocks h !! p = Some a ->
    exists u, A !! a = Some u /\ ptr_of (hp_mem (ah_heap h)) (p - heap_off) a u;
  hi_inj : forall p q a, ah_blocks h !! p = Some a -> ah_blocks h !! q = Some a -> p = q;
}.

Definition heap_wf (h : heap_state) : Prop := exists F A, heap_inv h F A.
Definition heap_live (h : heap_state) : gset Z := dom (ah_blocks h).
Definition heap_room (h : heap_state) (bot top : Z) : Prop :=
  ah_top h <= bot - heap_off /\ (8 | bot) /\ 0 <= bot <= top /\ top - heap_off <= 2 ^ 24.

(** A pointer into a block that was not in use is a new one. *)
Lemma inv_fresh h F A m p q v :
  heap_inv h F A -> A !! q = None -> 1 <= v -> ptr_of m p q v ->
  (forall a u, A !! a = Some u -> disjoint_blocks q v a u) -> heap_off + p ∉ heap_live h.
Proof.
  unfold heap_live. intros Hi Hq Hv Hp Hd [a Ha]%elem_of_dom. destruct (hi_blocks _ _ _ Hi _ _ Ha) as (u & HA & Hpu).
  pose proof (ptr_range _ _ _ _ Hv Hp). pose proof (ub_units _ _ _ (r_used _ _ _ (hi_rep _ _ _ Hi) _ _ HA)) as Hu.
  pose proof (ptr_range _ _ _ _ Hu Hpu). specialize (Hd _ _ HA). unfold disjoint_blocks in Hd. lia.
Qed.

(** A new block and a pointer to it. *)
Lemma inv_add h F A h' F' q v p :
  heap_inv h F A -> rep h' F' (<[q := v]> A) -> A !! q = None -> Forall (inside (ah_top h)) F' ->
  inside (ah_top h) (q, v) -> contents_kept (ah_heap h) h' A -> hp_arena_size h' = hp_arena_size (ah_heap h) ->
  ptr_of (hp_mem h') p q v ->
  let h2 := HeapState h' (ah_top h) (<[heap_off + p := q]> (ah_blocks h)) in
  heap_inv h2 F' (<[q := v]> A) /\ (heap_off + p ∉ heap_live h) /\ 0 < heap_off + p < 2 ^ 31.
Proof.
  intros Hi Hr Hq HF [Hq8 Hqt] Hk Har Hp h2.
  pose proof (r_used _ _ _ Hr q v ltac:(apply lookup_insert_eq)) as [_ _ Hv [Hlow _]].
  assert (forall a u, A !! a = Some u -> a <> q /\ disjoint_blocks q v a u) as Hd.
  { intros a u Ha. assert (a <> q) by congruence. split; [done |].
    apply (r_disjoint _ _ _ Hr); [apply lookup_insert_eq | by rewrite lookup_insert_ne | done]. }
  assert (heap_off + p ∉ heap_live h) as Hfresh.
  { eapply inv_fresh; [exact Hi | exact Hq | exact Hv | exact Hp |]. intros a u Ha. by apply Hd. }
  split; [| split; [done |]].
  - split; simpl; try done; try apply Hi.
    + intros a u [[<- <-] | [_ Ha]]%lookup_insert_Some; [done | by apply (hi_used _ _ _ Hi)].
    + rewrite Har. apply Hi.
    + intros x a [[<- <-] | [_ Ha]]%lookup_insert_Some.
      * exists v. split; [apply lookup_insert_eq |]. by replace (heap_off + p - heap_off) with p by lia.
      * destruct (hi_blocks _ _ _ Hi _ _ Ha) as (u & HA & Hpu). destruct (Hd _ _ HA) as [Hne _].
        exists u. split; [by rewrite lookup_insert_ne |]. eapply ptr_kept; [by apply Hk | done].
    + intros x y a Hx Hy. apply lookup_insert_Some in Hx as [[<- <-] | [_ Hx]], Hy as [[<- Hy'] | [_ Hy]]; try done.
      * destruct (hi_blocks _ _ _ Hi _ _ Hy) as (u & HA & _). congruence.
      * destruct (hi_blocks _ _ _ Hi _ _ Hx) as (u & HA & _). congruence.
      * by apply (hi_inj _ _ _ Hi _ _ _ Hx).
  - pose proof (ptr_range _ _ _ _ Hv Hp). pose proof (hi_top _ _ _ Hi). destruct heap_off_ok as [? _].
    unfold sizeof_heap in *. simpl in Hqt. lia.
Qed.

Lemma inv_blocks_aligned h F A : heap_inv h F A -> blocks_aligned F.
Proof. intros Hi b s Hb. pose proof (hi_free _ _ _ Hi) as HF. rewrite Forall_forall in HF. by apply (HF _ Hb). Qed.

(** Blocks cut from a free block of the heap. *)
Lemma inv_taken h Fa b s n Fb A :
  heap_inv h (Fa ++ (b, s) :: Fb) A -> 1 <= n <= s ->
  Forall (inside (ah_top h)) (taken Fa b s n Fb) /\ inside (ah_top h) (b + 8 * (s - n), n).
Proof. intros Hi Hn. apply taken_inside; [apply Hi | done]. Qed.

Lemma malloc_units_pos n : 0 <= n -> 1 <= malloc_units n.
Proof. intros Hn. unfold malloc_units. pose proof (Z.div_pos (n + 7) 8). lia. Qed.

Lemma calloc_inv h F A n : heap_inv h F A -> 0 <= n < 2 ^ 62 ->
  match heap_calloc h n with
  | Ok (Some (p, h')) => exists F' q, heap_inv h' F' (<[q := malloc_units n]> A) /\ ah_blocks h' = <[p := q]> (ah_blocks h) /\
      (p ∉ heap_live h) /\ 0 < p < 2 ^ 31 /\ ah_top h' = ah_top h
  | Ok None => True
  | _ => False
  end.
Proof.
  intros Hi Hn. unfold heap_calloc, rtapi_calloc. rewrite Z.mul_1_l, wrapu_small by lia.
  unfold mbind, M_bind.
  destruct (malloc_run _ F A n (hi_rep _ _ _ Hi) ltac:(lia)) as [(q & h1 & Hm & Hd) | [_ Hm]]; rewrite Hm; [| done].
  unfold modify, mret, M_ret. cbv beta iota.
  pose proof (malloced_kept _ _ _ _ _ _ (hi_rep _ _ _ Hi) Hd) as Hk.
  destruct Hd as [(Fa & b & s & Fb & -> & Hs & Hq & Hrep) Hfresh _ Har _].
  pose proof (malloc_units_pos n ltac:(lia)) as Hn1. pose proof (malloc_units_bytes n) as Hnb.
  destruct (inv_taken _ _ _ _ _ _ _ Hi (conj Hn1 Hs)) as [HF' Hin]. rewrite <- Hq in Hin.
  assert (Z.of_nat (length (replicate (Z.to_nat n) 0)) <= 8 * (malloc_units n - 1)) as Hlen
    by (rewrite length_replicate; lia).
  set (h2 := set_mem (write_bytes (hp_mem h1) (q + 8) (replicate (Z.to_nat n) 0)) h1).
  replace (q + 8 - 8) with q by lia.
  destruct (inv_add h _ A h2 (taken Fa b s (malloc_units n) Fb) q (malloc_units n) (q + 8) Hi) as (Hi2 & Hnl & Hp); try done.
  - by eapply rep_write; [done | apply lookup_insert_eq |].
  - eapply kept_trans; [exact Hk |]. eapply write_kept; [exact Hrep | apply lookup_insert_eq | done |].
    intros a u Ha. split; [rewrite lookup_insert_ne; [done |] |]; congruence.
  - by left.
  - by eexists _, q.
Qed.

(** What the interface asks of a new block. *)
Definition new_block (h : heap_state) (p : Z) (h' : heap_state) : Prop :=
  0 < p < 2 ^ 31 /\ (p ∉ heap_live h) /\ heap_live h' = {[p]} ∪ heap_live h /\ heap_wf h' /\
  (forall b t, heap_room h b t -> heap_room h' b t).

Lemma new_block_intro h p h' q : 0 < p < 2 ^ 31 -> p ∉ heap_live h -> ah_blocks h' = <[p := q]> (ah_blocks h) ->
  heap_wf h' -> ah_top h' = ah_top h -> new_block h p h'.
Proof.
  intros Hp Hn Hb Hw Ht. split; [done |]. split; [done |]. split; [unfold heap_live; rewrite Hb; apply dom_insert_L |].
  split; [done |]. intros b t. unfold heap_room. by rewrite Ht.
Qed.

Lemma calloc_step h n : heap_wf h -> 0 <= n < 2 ^ 62 ->
  match heap_calloc h n with Ok (Some (p, h')) => new_block h p h' | Ok None => True | _ => False end.
Proof.
  intros (F & A & Hi) Hn. pose proof (calloc_inv h F A n Hi Hn) as Hc.
  destruct (heap_calloc h n) as [[[p h'] |] | |]; try done. destruct Hc as (F' & q & Hi' & Hb & Hnl & Hp & Ht).
  apply (new_block_intro h p h' q); try done. by eexists _, _.
Qed.

(** The heap has a free block for [n] bytes. *)
Definition heap_avail (h : heap_state) (n : Z) : Prop :=
  exists F A b s, heap_inv h F A /\ (b, s) ∈ F /\ malloc_units n <= s.

Lemma malloc_aligned_step h n : heap_wf h -> 0 <= n < 2 ^ 62 -> heap_avail h (n + 64) ->
  match heap_malloc_aligned h n 64 with Ok (Some (p, h')) => new_block h p h' | Ok None => True | _ => False end.
Proof.
  intros _ Hn (F & A & b0 & s0 & Hi & Hin0 & Hs0). unfold heap_malloc_aligned. change 64 with (2 ^ 6) in *.
  destruct (rtapi_malloc_aligned _ _ _ _) as [r h1] eqn:Hrun.
  pose proof (malloc_aligned_run 6 heap_addr _ F A n r h1 (hi_rep _ _ _ Hi) (inv_blocks_aligned _ _ _ Hi)
    ltac:(lia) heap_addr_ok ltac:(lia) ltac:(lia) Hrun) as Ho.
  destruct r as [[q' |] | |]; try done; [| destruct Ho as [_ Ho]; specialize (Ho b0 s0 Hin0); lia].
  destruct Ho as (Fa & b & s & Fb & u & t & q & -> & Hu & Ht & Hq & Hrep & Hfresh & Hdiv & Hlen & Hab & Hkept & Har).
  destruct (inv_taken _ _ _ _ _ _ _ Hi Hu) as [HF' [Hq8 Hqt]]. rewrite <- Hq in *. simpl in Hq8, Hqt.
  pose proof (hi_top _ _ _ Hi) as Htop.
  pose proof (r_used _ _ _ Hrep q (u - t) ltac:(apply lookup_insert_eq)) as [_ _ _ [Hlow _]].
  assert (hsize (hp_mem h1) (q' - 8) - 8 = q) as ->.
  { pose proof (al_inside _ _ _ _ Hab). rewrite (al_base _ _ _ _ Hab), Z.mod_small; unfold sizeof_heap in *; lia. }
  destruct (inv_add h _ A h1 (aligned_list Fa b s u t Fb) q (u - t) q' Hi Hrep) as (Hi2 & Hnl & Hp); try done.
  - unfold aligned_list. destruct (t =? 0); [done |]. apply release_inside; [| done].
    rewrite <- Hq. split; simpl; [| lia]. apply Z.divide_add_r; [done | by exists (u - t); lia].
  - split; simpl; [done | lia].
  - by right.
  - apply (new_block_intro h (heap_off + q') _ q); try done. by eexists _, _.
Qed.

Lemma free_inv h F A p a u : heap_inv h F A -> ah_blocks h !! p = Some a -> A !! a = Some u ->
  exists h', heap_free h p = Ok h' /\ heap_inv h' (release a u F) (delete a A) /\
  ah_blocks h' = delete p (ah_blocks h) /\ ah_top h' = ah_top h.
Proof.
  intros Hi Ha HA. destruct (hi_blocks _ _ _ Hi _ _ Ha) as (u' & HA' & Hp). rewrite HA in HA'. injection HA' as <-.
  assert (0 <= a + 8 /\ a + 8 * u <= 2 ^ 24) as Hrange.
  { pose proof (r_used _ _ _ (hi_rep _ _ _ Hi) _ _ HA) as [_ _ Hu [Hlow _]].
    pose proof (hi_used _ _ _ Hi _ _ HA) as [_ Hin]. pose proof (hi_top _ _ _ Hi). unfold sizeof_heap in *. simpl in Hin. lia. }
  assert (exists h1, rtapi_free (p - heap_off) (ah_heap h) = (Ok tt, h1) /\ rep h1 (release a u F) (delete a A) /\
    contents_kept (ah_heap h) h1 (delete a A) /\ hp_arena_size h1 = hp_arena_size (ah_heap h)) as (h1 & Hrun & Hrep & Hk & Har).
  { assert (rtapi_free (p - heap_off) (ah_heap h) = rtapi_free (a + 8) (ah_heap h)) as ->.
    { destruct Hp as [-> | Hab]; [done |]. replace (a + 8) with (a + 8 - 8 + 8) by lia.
      pose proof (al_inside _ _ _ _ Hab). eapply free_aligned_eq; [apply Hi | by replace (a + 8 - 8) with a by lia | done | lia]. }
    destruct (free_run_kept _ F A a u (hi_rep _ _ _ Hi) HA) as (h1 & Hf & Hrep & Hk).
    destruct (free_run _ F A a u (hi_rep _ _ _ Hi) HA) as (h2 & Hf2 & _ & _ & Har & _).
    rewrite Hf in Hf2. injection Hf2 as <-. by exists h1. }
  unfold heap_free. rewrite Hrun. eexists. split; [reflexivity |]. split; [| done]. split; simpl; try apply Hi.
  - exact Hrep.
  - apply release_inside; [by apply (hi_used _ _ _ Hi) | apply Hi].
  - intros b v [_ Hb]%lookup_delete_Some. by apply (hi_used _ _ _ Hi).
  - rewrite Har. apply Hi.
  - intros q b [Hne Hq]%lookup_delete_Some. destruct (hi_blocks _ _ _ Hi _ _ Hq) as (v & Hb & Hpv).
    assert (b <> a) as Hba by (intros ->; apply Hne; by eapply (hi_inj _ _ _ Hi)).
    exists v. split; [by rewrite lookup_delete_ne |]. eapply ptr_kept; [| done]. apply Hk. by rewrite lookup_delete_ne.
  - intros x y b [_ Hx]%lookup_delete_Some [_ Hy]%lookup_delete_Some. by apply (hi_inj _ _ _ Hi _ _ b).
Qed.

Lemma free_step h p : heap_wf h -> p ∈ heap_live h -> exists h', heap_free h p = Ok h' /\
  heap_live h' = heap_live h ∖ {[p]} /\ heap_wf h' /\ (forall b t, heap_room h b t -> heap_room h' b t).
Proof.
  unfold heap_live. intros (F & A & Hi) [a Ha]%elem_of_dom. destruct (hi_blocks _ _ _ Hi _ _ Ha) as (u & HA & _).
  destruct (free_inv h F A p a u Hi Ha HA) as (h' & Hf & Hi' & Hb & Ht). exists h'.
  split; [done |]. split; [rewrite Hb; apply dom_delete_L |]. split; [by eexists _, _ |]. intros b t. unfold heap_room. by rewrite Ht.
Qed.

(** Released units stay together. *)
Lemma release_contains bp u F : (forall b s, (b, s) ∈ F -> 1 <= s) -> exists b s, (b, s) ∈ release bp u F /\ u <= s.
Proof.
  assert (forall G, (forall b s, (b, s) ∈ G -> 1 <= s) -> u <= up_size bp u G) as Hup.
  { intros [| [b s] G] HG; simpl; [lia |]. specialize (HG b s ltac:(left)). case_match; lia. }
  induction F as [| [b s] F IH]; intros HF; [exists bp, u; split; [left | lia] |].
  assert (forall c t, (c, t) ∈ F -> 1 <= t) as HF' by (intros; eapply HF; by right).
  cbn [release]. destruct (b <? bp).
  - destruct (b + 8 * s =? bp).
    + rewrite merge_up_eq. eexists b, _. split; [left |]. specialize (HF b s ltac:(left)). specialize (Hup F HF'). lia.
    + destruct (IH HF') as (c & t & Hc & Ht). exists c, t. split; [by right | done].
  - rewrite merge_up_eq. eexists bp, _. split; [left | by apply Hup].
Qed.

(** Why aligned allocation finds its memory in HAL (shmalloc_desc_aligned): a
    block of the size and the alignment together was just freed. *)
Lemma aligned_guard h n p h1 h2 : heap_wf h -> 0 <= n < 2 ^ 62 ->
  heap_calloc h n = Ok (Some (p, h1)) -> heap_free h1 p = Ok h2 -> heap_avail h2 n.
Proof.
  intros (F & A & Hi) Hn Hc Hf. pose proof (calloc_inv h F A n Hi Hn) as Ho. rewrite Hc in Ho.
  destruct Ho as (F1 & a & Hi1 & Hbl & _).
  destruct (free_inv h1 F1 _ p a (malloc_units n) Hi1) as (h2' & Hf' & Hi2 & _).
  { rewrite Hbl. apply lookup_insert_eq. } { apply lookup_insert_eq. }
  rewrite Hf in Hf'. injection Hf' as <-.
  destruct (release_contains a (malloc_units n) F1) as (b & s & Hin & Hs).
  { intros b s Hin. by apply (spaced_lower _ _ _ _ (r_spaced _ _ _ (hi_rep _ _ _ Hi1))) in Hin as [_ ?]. }
  by exists (release a (malloc_units n) F1), (delete a (<[a := malloc_units n]> A)), b, s.
Qed.

Lemma addmem_step h b t n : heap_wf h -> heap_room h b t -> 0 < n -> (RTAPI_CACHELINE | n) -> b + n <= t ->
  exists h', heap_addmem h b n = Ok h' /\ heap_live h' = heap_live h /\ heap_wf h' /\ heap_room h' (b + n) t.
Proof.
  intros (F & A & Hi) (Htop & Hb8 & Hbt & Ht) Hn Hdiv Hnt. unfold heap_addmem.
  destruct heap_off_ok as [Hoff Hoff8]. pose proof (hi_top _ _ _ Hi) as Ht0. pose proof (hi_arena _ _ _ Hi) as Har.
  assert (8 | n) as [c Hc] by (eapply Z.divide_trans; [| exact Hdiv]; by exists 8).
  assert (n / 8 = c) as Hnc by (rewrite Hc; by apply Z.div_mul).
  pose proof (r_arena _ _ _ (hi_rep _ _ _ Hi)) as Hunits.
  assert (forall x s, inside (ah_top h) (x, s) -> x + 8 * s <= b - heap_off) as Hbelow by (intros x s [_ ?]; simpl in *; lia).
  pose proof (hi_free _ _ _ Hi) as HF. rewrite Forall_forall in HF.
  destruct (addmem_run (ah_heap h) F A (b - heap_off) n) as (h1 & Hrun & Hrep & Har1 & Hk); try (unfold sizeof_heap in *; lia).
  - apply Hi.
  - intros x s Hx. left. by apply Hbelow, HF.
  - intros x u Hx. left. by apply Hbelow, (hi_used _ _ _ Hi).
  - rewrite Hrun. eexists. split; [reflexivity |]. rewrite Hnc in Hrep.
    assert (forall x, inside (ah_top h) x -> inside (b - heap_off + n) x) as Hmono by (intros x [? ?]; split; [done | lia]).
    split; [done |]. split.
    + exists (release (b - heap_off) c F), A. split; simpl; try done.
      * apply release_inside; [split; simpl; [by apply Z.divide_sub_r | lia] |].
        apply Forall_forall. intros x Hx. by apply Hmono, HF.
      * intros x u Hx. by apply Hmono, (hi_used _ _ _ Hi).
      * lia.
      * lia.
      * intros p a Hp. destruct (hi_blocks _ _ _ Hi _ _ Hp) as (u & HA & Hpu). exists u. split; [done |].
        eapply ptr_kept; [| done]. eapply agree_sub; [by apply (Hk a u) | lia | lia].
      * apply Hi.
    + split; simpl; [lia |]. split; [| lia]. apply Z.divide_add_r; [done | by exists c].
Qed.

(** The laws hold. *)
#[export] Instance rtapi_allocator_spec : AllocatorSpec heap_state.
Proof.
  refine {| h_wf := heap_wf; h_live := heap_live; h_room := heap_room; h_avail := heap_avail |}.
  - intros h b t (_ & _ & Hbt & Ht). destruct heap_off_ok. lia.
  - intros h b t t' (H1 & H2 & Hbt & Ht) Ht'. repeat (split; [first [assumption | lia] |]). lia.
  - exact calloc_step.
  - exact malloc_aligned_step.
  - exact free_step.
  - exact aligned_guard.
  - intros h b t n Hw Hr Hn Hd Ht. destruct (addmem_step h b t n Hw Hr Hn Hd Ht) as (h' & Ha & Hl & Hw' & Hr').
    change (h_addmem h b n) with (heap_addmem h b n). by rewrite Ha.
Defined.
End Laws.
