(* ===== verification/HalMemory.v ===== *)
(** * HAL memory (hal/src/hal_memory.c)

    Descriptors come from the HAL heap, which grows upwards from
    [shmem_bot]; real-time memory is taken downwards from [shmem_top] and is
    never freed; strings live in the global heap and are counted. *)
From S2P Require Import Prelude HalData.

Section HalMemory.
Context {H : Type} {HA : Allocator H} {PF : Platform}.
Abbreviation HM := (M (hal_state H)).

(** [RTAPI_ALIGN] on a [size_t]. *)
Definition RTAPI_ALIGN_size (x boundary : Z) : Z :=
  u64 (x + Z.land (u64 (- x)) (boundary - 1)).

Definition HAL_HEAP_MINFREE : Z := 1024.
Definition HAL_HEAP_INITIAL : Z := 2.

Definition hal_freemem (s : hal_state H) : Z := u64 (hs_shmem_top s - hs_shmem_bot s).

(** [tmp_top] is a [long int], [shmem_top] an [int]. *)
Definition shmalloc_rt (size : Z) : HM Z :=
  s ← hal_data;
  let tmp_top := s64 (hs_shmem_top s - size) in
  let tmp_top :=
    if 8 <=? size then Z.land tmp_top (-8)
    else if 4 <=? size then Z.land tmp_top (-4)
    else if size =? 2 then Z.land tmp_top (-2)
    else tmp_top in
  if tmp_top <? hs_shmem_bot s then halfail ENOMEM
  else
    let waste := u64 (hs_shmem_top s - tmp_top - size) in
    modify (fun s => set_shmem_top (s32 tmp_top)
      (set_rt_alignment_loss (u64 (hs_rt_alignment_loss s + waste)) s)) ≫= fun _ =>
    mret tmp_top.

Definition halg_malloc (size : Z) : HM (option Z) :=
  s ← get;
  if negb (hs_init s) then halfail EINVAL
  else
    r ← attempt (shmalloc_rt size);
    modify (fun s => set_hal_malloced (u64 (hs_hal_malloced s + size)) s) ≫= fun _ =>
    mret r.

Definition shmfree_desc (p : Z) : HM unit := fun s =>
  if hs_init s then
    match h_free (hs_heap s) p with
    | Ok h' => (Ok tt, set_heap h' s)
    | _ => (Crash, s)
    end
  else (Ok tt, s).

Definition hal_heap_addmem (click : Z) : HM unit :=
  s ← hal_data;
  let actual := RTAPI_ALIGN_size click RTAPI_CACHELINE in
  if hal_freemem s <? HAL_HEAP_MINFREE then mret tt
  else match h_addmem (hs_heap s) (hs_shmem_bot s) actual with
       | Err _ => halfail ENOMEM
       | Ok h' => modify (fun s => set_shmem_bot (s32 (hs_shmem_bot s + actual)) (set_heap h' s))
       | Crash => crash
       end.

(** [rtapi_calloc(&hal_data->heap, 1, size)] *)
Definition heap_calloc (size : Z) : HM (option Z) := fun s =>
  match h_calloc (hs_heap s) size with
  | Ok (Some (p, h')) => (Ok (Some p), set_heap h' s)
  | Ok None => (Ok None, s)
  | _ => (Crash, s)
  end.

Definition shmalloc_desc (size : Z) : HM Z :=
  s ← hal_data;
  r ← heap_calloc size;
  match r with
  | Some p => mret p
  | None =>
      ignore (hal_heap_addmem (hal_freemem s / 2)) ≫= fun _ =>
      r ← heap_calloc size;
      match r with
      | Some p => mret p
      | None => halfail ENOMEM
      end
  end.

(** The block of [shmalloc_desc] is freed at once: it only makes sure that
    the heap is large enough. *)
Definition shmalloc_desc_aligned (size alignment : Z) : HM Z :=
  dummy ← shmalloc_desc (size + alignment);
  shmfree_desc dummy ≫= fun _ =>
  s ← get;
  match h_malloc_aligned (hs_heap s) size alignment with
  | Ok None => halfail ENOMEM
  | Ok (Some (p, h')) => put (set_heap h' s) ≫= fun _ => mret p
  | _ => crash
  end.

(** ** Strings on the global heap *)
Definition gheap_calloc (size : Z) : HM (option Z) := fun s =>
  match h_calloc (hs_gheap s) size with
  | Ok (Some (p, h')) => (Ok (Some p), set_gheap h' s)
  | Ok None => (Ok None, s)
  | _ => (Crash, s)
  end.

Definition gheap_free (p : Z) : HM unit := fun s =>
  match h_free (hs_gheap s) p with
  | Ok h' => (Ok tt, set_gheap h' s)
  | _ => (Crash, s)
  end.

Definition count_str_alloc (n : Z) : HM unit :=
  modify (fun s => set_str_alloc (u64 (hs_str_alloc s + n)) s).
Definition count_str_freed (n : Z) : HM unit :=
  modify (fun s => set_str_freed (u64 (hs_str_freed s + n)) s).

Definition strlen (s : string) : Z := Z.of_nat (String.length s).

Definition halg_strdup (str : option string) : HM (Z * string) :=
  str ← PCHECK_STRLEN str HAL_MAX_NAME_LEN;
  r ← gheap_calloc (strlen str + 1);
  match r with
  | None => halfail ENOMEM
  | Some p =>
      hal_data ≫= fun _ =>
      count_str_alloc (strlen str + 1) ≫= fun _ => mret (p, str)
  end.

(** Frees the string a [char **] points to; the caller's pointer becomes NULL. *)
Definition halg_free_str (str : Z * string) : HM unit :=
  hal_data ≫= fun _ =>
  count_str_freed (strlen (snd str) + 1) ≫= fun _ => gheap_free (fst str).

Definition halg_free_single_str (str : option (Z * string)) : HM unit :=
  str ← CHECK_NULL str; halg_free_str str.

(** The loop of [halg_dupargv] over [0 .. argc - 2]. *)
Fixpoint dup_strings (l : list (option string)) : HM (list (option (Z * string))) :=
  match l with
  | [] => mret []
  | x :: l' =>
      r ← attempt (halg_strdup x);
      match r with
      | None => halfail ENOMEM
      | Some d => l'' ← dup_strings l'; mret (Some d :: l'')
      end
  end.

Definition sizeof_pointer : Z := 8.

(** Returns the block and the [argc + 1] pointers in it. *)
Definition halg_dupargv (argc : Z) (argv : option (list (option string)))
  : HM (option (Z * list (option (Z * string)))) :=
  if MAX_ARGC <? argc then halfail EINVAL
  else match argv with
  | None => mret None
  | Some argv =>
      r ← gheap_calloc (sizeof_pointer * (argc + 1));
      match r with
      | None => halfail ENOMEM
      | Some block =>
          dups ← dup_strings (take (Z.to_nat (argc - 1)) argv);
          mret (Some (block, dups ++ replicate (Z.to_nat (argc + 1) - length dups) None))
      end
  end.

(** Stops at the first NULL pointer. *)
Fixpoint free_strings (l : list (option (Z * string))) : HM unit :=
  match l with
  | [] | None :: _ => mret tt
  | Some str :: l' => halg_free_str str ≫= fun _ => free_strings l'
  end.

Definition halg_free_argv (argv : option (Z * list (option (Z * string)))) : HM unit :=
  match argv with
  | None => mret tt
  | Some (block, strs) => free_strings strs ≫= fun _ => gheap_free block
  end.
End HalMemory.
