(* ===== verification/HalList.v ===== *)
(** * Doubly linked lists in shared memory (hal/include/hal/hal_list.h)

    A list element holds the offsets of its neighbours.  The memory maps the
    offset of every element to its two links; an access to an offset without
    an element is undefined behaviour.  Every process maps the segment at an
    address of its own, so that SHMPTR and SHMOFF are the identity on offsets.
    The loops of hal_funct.c, hal_object.c and hal_thread.c over such lists
    are here as well, on the links. *)
From S2P Require Import Prelude.

Module HalList.

Record hal_list_t := HalElem { next : Z; prev : Z }.

Abbreviation links := (gmap Z hal_list_t).
Abbreviation LM := (M links).

Definition load (e : Z) : LM hal_list_t := fun m =>
  match m !! e with Some x => (Ok x, m) | None => (Crash, m) end.
Definition store_next (e n : Z) : LM unit :=
  x ← load e; modify (insert e (HalElem n (prev x))).
Definition store_prev (e p : Z) : LM unit :=
  x ← load e; modify (insert e (HalElem (next x) p)).

(** ** The operations *)
Definition dlist_next (entry : Z) : LM Z := x ← load entry; mret (next x).
Definition dlist_prev (entry : Z) : LM Z := x ← load entry; mret (prev x).
Definition dlist_empty (head : Z) : LM bool := n ← dlist_next head; mret (n =? head).

Definition dlist_init_entry (entry : Z) : LM unit :=
  store_next entry entry ≫= fun _ => store_prev entry entry.

Definition dlist_add_after (entry prev_n : Z) : LM unit :=
  p ← load prev_n;
  let next_n := next p in
  store_next entry next_n ≫= fun _ =>
  store_prev entry prev_n ≫= fun _ =>
  store_next prev_n entry ≫= fun _ =>
  store_prev next_n entry.

Definition dlist_add_before (entry next_n : Z) : LM unit :=
  n ← load next_n;
  let prev_n := prev n in
  store_next entry next_n ≫= fun _ =>
  store_prev entry prev_n ≫= fun _ =>
  store_next prev_n entry ≫= fun _ =>
  store_prev next_n entry.

Definition dlist_remove_entry (entry : Z) : LM Z :=
  x ← load entry;
  let prev_n := prev x in
  let next_n := next x in
  x ← load entry;
  store_next prev_n (next x) ≫= fun _ =>
  x ← load entry;
  store_prev next_n (prev x) ≫= fun _ =>
  store_next entry entry ≫= fun _ =>
  store_prev entry entry ≫= fun _ =>
  mret next_n.

(** [dlist_for_each_safe(pos, n, head)]: [n] is read before the body runs. *)
Fixpoint for_each_safe {A} (fuel : nat) (head : Z) (body : Z -> A -> LM A) (pos n : Z) (a : A) : LM A :=
  match fuel with
  | O => crash
  | S fuel =>
      if pos =? head then mret a
      else
        a ← body pos a;
        n' ← dlist_next n;
        for_each_safe fuel head body n n' a
  end.

Definition dlist_for_each_safe {A} (fuel : nat) (head : Z) (body : Z -> A -> LM A) (a : A) : LM A :=
  pos ← dlist_next head;
  n ← dlist_next pos;
  for_each_safe fuel head body pos n a.

(** ** The list of function entries of a thread (hal_funct.c) *)

(** [while (++n < position)] and [while (--n > position)] from the root. *)
Fixpoint forward (fuel : nat) (root position n cur : Z) : LM (option Z) :=
  match fuel with
  | O => crash
  | S fuel =>
      let n := n + 1 in
      if n <? position then
        cur ← dlist_next cur;
        if cur =? root then mret None else forward fuel root position n cur
      else mret (Some cur)
  end.

Fixpoint backward (fuel : nat) (root position n cur : Z) : LM (option Z) :=
  match fuel with
  | O => crash
  | S fuel =>
      let n := n - 1 in
      if position <? n then
        cur ← dlist_prev cur;
        if cur =? root then mret None else backward fuel root position n cur
      else mret (Some cur)
  end.

Definition find_position (fuel : nat) (root position : Z) : LM (option Z) :=
  if 0 <? position then forward fuel root position 0 root
  else
    r ← backward fuel root position 0 root;
    match r with
    | None => mret None
    | Some cur => cur ← dlist_prev cur; mret (Some cur)
    end.

(** [alloc_funct_entry_struct]; [fresh] is what [shmalloc_rt] returns. *)
Definition take_free (freelist fresh : Z) : LM Z :=
  l ← dlist_next freelist;
  if l =? freelist then dlist_init_entry fresh ≫= fun _ => mret fresh
  else dlist_remove_entry l ≫= fun _ => mret l.

(** [hal_add_funct_to_thread] from the insertion point on. *)
Definition add_entry (fuel : nat) (root freelist fresh position : Z) : LM (option Z) :=
  r ← find_position fuel root position;
  match r with
  | None => mret None
  | Some cur =>
      e ← take_free freelist fresh;
      dlist_add_after e cur ≫= fun _ => mret (Some e)
  end.

(** The loop of [thread_cb]: entries of the funct go to the free list. *)
Fixpoint remove_entries (fuel : nat) (root freelist : Z) (mine : Z -> bool) (cur : Z) : LM unit :=
  match fuel with
  | O => crash
  | S fuel =>
      if cur =? root then mret tt
      else if mine cur then
        n ← dlist_remove_entry cur;
        dlist_add_after cur freelist ≫= fun _ => remove_entries fuel root freelist mine n
      else n ← dlist_next cur; remove_entries fuel root freelist mine n
  end.

Definition drop_funct (fuel : nat) (root freelist : Z) (mine : Z -> bool) : LM unit :=
  cur ← dlist_next root; remove_entries fuel root freelist mine cur.

(** ** The list of objects: the loop of [hal_sweep] (hal_object.c) *)
Definition sweep_body (valid : Z -> bool) (hh : Z) (count : Z) : LM Z :=
  if valid hh then mret count
  else dlist_remove_entry hh ≫= fun _ => mret (count + 1).

Definition sweep (fuel : nat) (head : Z) (valid : Z -> bool) : LM Z :=
  dlist_for_each_safe fuel head (sweep_body valid) 0.

End HalList.
