(* ===== verification/HalObject.v ===== *)
(** * HAL objects (hal/src/hal_object.c, hal_object.h, hal_object_selectors.c)

    Creation, iteration, lookup and garbage collection of the named objects.
    [halg_foreach] is a fold over the object list as it was when the loop
    started: callbacks invalidate descriptors but only [hal_sweep] and
    [halg_add_object] change the list.  The [user_*] fields of
    [foreach_args_t] are the accumulator of the callback. *)
From S2P Require Import Prelude HalData HalMemory.

(** ** Iteration *)

(** The selecting fields of [foreach_args_t]; 0 and [None] match anything. *)
Record foreach_sel := Sel {
  fs_type : Z;
  fs_id : Z;
  fs_owner_id : Z;
  fs_owning_comp : Z;
  fs_name : option string;
}.

Definition sel_type (t : Z) : foreach_sel := Sel t 0 0 0 None.
Definition sel_type_name (t : Z) (n : string) : foreach_sel := Sel t 0 0 0 (Some n).
Definition sel_type_id (t id : Z) : foreach_sel := Sel t id 0 0 None.
Definition sel_type_owner (t owner : Z) : foreach_sel := Sel t 0 owner 0 None.

Definition match_field (sel v : Z) : bool := (sel =? 0) || (sel =? v).

(** Conditions 1 to 3 of [halg_foreach_from], and the validity test. *)
Definition match_hdr (sel : foreach_sel) (ob : hal_obj) : bool :=
  hh_valid (o_hdr ob) && match_field (fs_type sel) (hh_get_object_type ob)
  && match_field (fs_id sel) (hh_id (o_hdr ob))
  && match_field (fs_owner_id sel) (hh_owner_id (o_hdr ob)).

(** Condition 5. *)
Definition match_name (sel : foreach_sel) (ob : hal_obj) : bool :=
  match fs_name sel with
  | Some n => String.eqb (hh_get_name (o_hdr ob)) n
  | None => true
  end.

Section Foreach.
Context {H : Type}.
Abbreviation HM := (M (hal_state H)).

(** [find_owning_comp] is a parameter of the loop: the lookups it makes are
    loops themselves, with no [owning_comp] to match. *)
Variable find_owning_comp : Z -> HM (option Z).

Definition match_owning_comp (sel : foreach_sel) (ob : hal_obj) : HM bool :=
  if fs_owning_comp sel =? 0 then mret true
  else
    oc ← find_owning_comp (hh_owner_id (o_hdr ob));
    match oc with
    | None => mret false
    | Some c => cob ← get_obj c; mret (hh_id (o_hdr cob) =? fs_owning_comp sel)
    end.

(** Result: the number of visited objects, or the negative value of the
    callback that stopped the loop. *)
Fixpoint foreach_list {A : Type} (sel : foreach_sel) (cb : Z -> A -> HM (Z * A))
    (l : list Z) (nvisited : Z) (a : A) : HM (Z * A) :=
  match l with
  | [] => mret (nvisited, a)
  | o :: l' =>
      ob ← get_obj o;
      if negb (match_hdr sel ob) then foreach_list sel cb l' nvisited a
      else
        b ← match_owning_comp sel ob;
        if negb (b && match_name sel ob) then foreach_list sel cb l' nvisited a
        else
          ra ← cb o a;
          if fst ra <? 0 then mret ra
          else if 0 <? fst ra then mret (nvisited + 1, snd ra)
          else foreach_list sel cb l' (nvisited + 1) (snd ra)
  end.
End Foreach.

(** ** Selectors that only look *)
Section Selectors.
Context {H : Type}.
Abbreviation HM := (M (hal_state H)).

Definition yield_match (o : Z) (_ : option Z) : HM (Z * option Z) := mret (1, Some o).

Definition yield_name (o : Z) (_ : option string) : HM (Z * option string) :=
  ob ← get_obj o; mret (1, Some (hh_get_name (o_hdr ob))).

Definition yield_count {A} (o : Z) (a : A) : HM (Z * A) := mret (0, a).

Definition yield_versioned_vtable_object (version : Z) (o : Z) (r : option Z) : HM (Z * option Z) :=
  v ← get_vtable o; mret (if v_version v =? version then (1, Some o) else (0, r)).

(** [user_arg1] is the owner, [user_arg2] the count. *)
Definition count_subordinate_objects (owner : Z) (o : Z) (n : Z) : HM (Z * Z) :=
  ob ← get_obj o; mret (0, if hh_owner_id (o_hdr ob) =? owner then s32 (n + 1) else n).
End Selectors.

(** ** Lookup *)
Section Lookup.
Context {H : Type}.
Abbreviation HM := (M (hal_state H)).

(** Iteration without an [owning_comp] condition. *)
Definition halg_foreach0 {A : Type} (sel : foreach_sel) (cb : Z -> A -> HM (Z * A)) (a : A)
  : HM (Z * A) :=
  s ← hal_data; foreach_list (fun _ => mret None) sel cb (hs_halobjects s) 0 a.

Definition halg_find_object_by_name (type : Z) (name : string) : HM (option Z) :=
  ra ← halg_foreach0 (sel_type_name type name) yield_match None;
  mret (if fst ra =? 0 then None else snd ra).

Definition halg_find_object_by_id (type id : Z) : HM (option Z) :=
  ra ← halg_foreach0 (sel_type_id type id) yield_match None;
  mret (if fst ra =? 1 then snd ra else None).

Definition halpr_find_thread_by_name := halg_find_object_by_name HAL_THREAD.
Definition halpr_find_comp_by_name := halg_find_object_by_name HAL_COMPONENT.
Definition halpr_find_sig_by_name := halg_find_object_by_name HAL_SIGNAL.
Definition halpr_find_funct_by_name := halg_find_object_by_name HAL_FUNCT.
Definition halpr_find_inst_by_name := halg_find_object_by_name HAL_INST.
Definition halpr_find_param_by_name := halg_find_object_by_name HAL_PARAM.
Definition halpr_find_pin_by_name := halg_find_object_by_name HAL_PIN.
Definition halpr_find_group_by_name := halg_find_object_by_name HAL_GROUP.
Definition halpr_find_comp_by_id := halg_find_object_by_id HAL_COMPONENT.
Definition halpr_find_inst_by_id := halg_find_object_by_id HAL_INST.
Definition halpr_find_vtable_by_id := halg_find_object_by_id HAL_VTABLE.

(** An instance whose component does not exist ends in an assertion that
    dereferences the NULL component. *)
Definition halpr_find_owning_comp (owner_id : Z) : HM (option Z) :=
  inst ← halpr_find_inst_by_id owner_id;
  match inst with
  | None => halpr_find_comp_by_id owner_id
  | Some i =>
      iob ← get_obj i;
      comp ← halpr_find_comp_by_id (hh_owner_id (o_hdr iob));
      match comp with None => crash | Some c => mret (Some c) end
  end.

Definition halg_foreach {A : Type} (sel : foreach_sel) (cb : Z -> A -> HM (Z * A)) (a : A)
  : HM (Z * A) :=
  s ← hal_data; foreach_list halpr_find_owning_comp sel cb (hs_halobjects s) 0 a.

(** The list behind the cursor; [None] is the list head. *)
Fixpoint list_after (o : Z) (l : list Z) : option (list Z) :=
  match l with
  | [] => None
  | x :: l' => if x =? o then Some l' else list_after o l'
  end.

(** The cursor is recorded before the callback runs. *)
Definition with_cursor {A : Type} (cb : Z -> A -> HM (Z * A)) (o : Z) (ac : A * option Z)
  : HM (Z * (A * option Z)) :=
  ra ← cb o (fst ac); mret (fst ra, (snd ra, Some o)).

(** A cursor that is not in the list any more is a dangling pointer. *)
Definition halg_yield {A : Type} (sel : foreach_sel) (cursor : option Z)
    (cb : Z -> A -> HM (Z * A)) (a : A) : HM (Z * (A * option Z)) :=
  s ← hal_data;
  match match cursor with
        | None => Some (hs_halobjects s)
        | Some c => list_after c (hs_halobjects s)
        end with
  | None => crash
  | Some l => foreach_list halpr_find_owning_comp sel (with_cursor cb) l 0 (a, cursor)
  end.

(** [user_arg1] is a comp or instance id, [user_arg2] the count. *)
Definition yield_count_owned_by_comp (id : Z) (o : Z) (n : Z) : HM (Z * Z) :=
  ob ← get_obj o;
  owner ← halpr_find_owning_comp id;
  match owner with
  | None => mret (0, n)
  | Some c => cob ← get_obj c;
      mret (0, if hh_id (o_hdr cob) =? hh_owner_id (o_hdr ob) then s32 (n + 1) else n)
  end.
End Lookup.

(** ** Creation, insertion, deletion *)
Section Objects.
Context {H : Type} {HA : Allocator H} {PF : Platform}.
Abbreviation HM := (M (hal_state H)).

(** The length test lets a name through that is one character too long for
    the buffer. *)
Definition hh_set_namefv (o : Z) (str : string) : HM unit :=
  let '(sz, buf) := vsnprintf MAX_OBJECT_NAME_LEN str in
  if MAX_OBJECT_NAME_LEN <? sz then halfail ENOMEM
  else
    r ← gheap_calloc (sz + 1);
    match r with
    | None => halfail ENOMEM
    | Some p => upd_hdr o (fun h => hh_set_name h (Some (p, buf))) ≫= fun _ =>
                count_str_alloc (sz + 1)
    end.

Definition hh_init_hdrfv (o type owner_id : Z) (str : string) : HM unit :=
  id ← rtapi_next_handle;
  put_obj o (HalObj (hh_set_valid (hh_set_owner_id (hh_set_id zero_hdr id) owner_id))
                    (zero_body type)) ≫= fun _ =>
  hh_set_namefv o str.

Definition sizeof_malloc_hdr : Z := 8.

(** Signals and pins are padded so that they are cache lines apart. *)
Definition desc_allocsize (type : Z) : Z :=
  let size := sizeof_desc type in
  if (type =? HAL_SIGNAL) || (type =? HAL_PIN)
  then RTAPI_ALIGN_size (size + sizeof_malloc_hdr) RTAPI_CACHELINE - sizeof_malloc_hdr
  else size.

(** [None] for the formatted name is undefined behaviour of printf. *)
Definition halg_create_objectfv (type owner_id : Z) (str : option string) : HM Z :=
  new ← (if hal_descriptor_alignment =? 0 then shmalloc_desc (desc_allocsize type)
         else shmalloc_desc_aligned (sizeof_desc type) hal_descriptor_alignment);
  put_obj new (HalObj zero_hdr (zero_body type)) ≫= fun _ =>
  match str with
  | None => crash
  | Some str =>
      on_error (hh_init_hdrfv new type owner_id str)
        (modify (fun s => set_objs (delete new (hs_objs s)) s) ≫= fun _ => shmfree_desc new)
      ≫= fun _ => mret new
  end.

(** Called with the name as the format. *)
Definition halg_create_objectf (type owner_id : Z) (name : string) : HM Z :=
  halg_create_objectfv type owner_id (fmt_noargs name).

(** [find_previous]: [user_ptr1] is the new object, [user_ptr2] the
    insertion point ([None]: the list head). *)
Definition find_previous (new o : Z) (point : option Z) : HM (Z * option Z) :=
  nob ← get_obj new;
  ob ← get_obj o;
  mret (if String.ltb (hh_get_name (o_hdr nob)) (hh_get_name (o_hdr ob))
        then (1, Some o) else (0, point)).

(** [dlist_add_before]: before [o], or before the head, which is at the end. *)
Fixpoint insert_before (new : Z) (point : option Z) (l : list Z) : list Z :=
  match l with
  | [] => [new]
  | x :: l' => if decide (point = Some x) then new :: x :: l'
               else x :: insert_before new point l'
  end.

Definition halg_add_object (new : Z) : HM unit :=
  ob ← get_obj new;
  ra ← halg_foreach (sel_type (hh_get_object_type ob)) (find_previous new) None;
  modify (fun s => set_halobjects (insert_before new (snd ra) (hs_halobjects s)) s).

Definition halg_free_object (o : Z) : HM unit :=
  ob ← get_obj o;
  if hh_refcnt (o_hdr ob) =? 0
  then upd_hdr o (fun h => snd (hh_clear_hdr h))
  else halfail EBUSY.

(** One step of the loop of [hal_sweep]. *)
Definition sweep_one (o : Z) (count : Z) : HM Z :=
  ob ← get_obj o;
  if hh_valid (o_hdr ob) then mret count
  else
    match hh_name (o_hdr ob) with
    | Some (p, str) => count_str_freed (strlen str + 1) ≫= fun _ => gheap_free p
    | None => mret tt
    end ≫= fun _ =>
    modify (fun s => set_halobjects (List.filter (fun x => negb (x =? o)) (hs_halobjects s))
                       (set_objs (delete o (hs_objs s)) s)) ≫= fun _ =>
    shmfree_desc o ≫= fun _ =>
    mret (count + 1).

Fixpoint sweep_list (l : list Z) (count : Z) : HM Z :=
  match l with
  | [] => mret count
  | o :: l' => n ← sweep_one o count; sweep_list l' n
  end.

Definition hal_sweep : HM Z :=
  s ← hal_data; sweep_list (hs_halobjects s) 0.
End Objects.
