(* ===== verification/HalObjectFacts.v ===== *)
(** * Facts about HAL objects

    Well-formed HAL states, the weakest preconditions of the lookups, of
    creation, insertion and deletion, and the ordering of the object list:
    the objects of one type are sorted by name. *)
From S2P Require Import Prelude HalData HalMemory HalObject.

(** ** Weakest preconditions of the primitives *)
Section PrimWp.
Context {H : Type}.
Implicit Types s : hal_state H.

Lemma wp_halfail {A} rc (Q : A -> hal_state H -> Prop) (E : Z -> hal_state H -> Prop) s :
  E (- rc) (set_halerrno (- rc) s) -> wp (halfail rc) Q E s.
Proof. done. Qed.

Lemma wp_get_obj o (Q : hal_obj -> hal_state H -> Prop) E s ob :
  hs_objs s !! o = Some ob -> Q ob s -> wp (get_obj o) Q E s.
Proof. intros Ho HQ. unfold wp, get_obj. by rewrite Ho. Qed.

Lemma wp_put_obj o ob (Q : unit -> hal_state H -> Prop) E s :
  Q tt (set_objs (<[o := ob]> (hs_objs s)) s) -> wp (put_obj o ob) Q E s.
Proof. done. Qed.

Lemma wp_hal_data (Q : hal_state H -> hal_state H -> Prop) E s :
  hs_init s = true -> Q s s -> wp hal_data Q E s.
Proof. intros Hi HQ. unfold wp, hal_data. by rewrite Hi. Qed.

Lemma wp_check_haldata (Q : unit -> hal_state H -> Prop) E s :
  hs_init s = true -> Q tt s -> wp CHECK_HALDATA Q E s.
Proof. intros Hi HQ. unfold wp, CHECK_HALDATA. by rewrite Hi. Qed.

Lemma wp_check_lock ll (Q : unit -> hal_state H -> Prop) (E : Z -> hal_state H -> Prop) s :
  hs_init s = true ->
  (Z.land (hs_lock s) ll = 0 -> Q tt s) ->
  (Z.land (hs_lock s) ll <> 0 -> E (- EPERM) (set_halerrno (- EPERM) s)) ->
  wp (CHECK_LOCK ll) Q E s.
Proof.
  intros Hi HQ HE. unfold CHECK_LOCK. apply wp_bind, wp_hal_data; [done |].
  destruct (Z.land (hs_lock s) ll =? 0) eqn:El; zb; [apply wp_ret | apply wp_halfail]; auto.
Qed.

Lemma wp_check_strlen name len (Q : string -> hal_state H -> Prop) (E : Z -> hal_state H -> Prop) s :
  (forall n, name = Some n -> Z.of_nat (String.length n) <= len -> Q n s) ->
  ((forall n, name = Some n -> len < Z.of_nat (String.length n)) -> E (- EINVAL) s) ->
  wp (CHECK_STRLEN name len) Q E s.
Proof.
  intros HQ HE. unfold CHECK_STRLEN. apply wp_bind. destruct name as [n |].
  - apply wp_ret. case_match; zb; [apply wp_raise, HE; congruence || (intros ? [= <-]; done) |].
    apply wp_ret. by apply HQ.
  - apply wp_raise, HE. discriminate.
Qed.

Lemma wp_upd_hdr o f (Q : unit -> hal_state H -> Prop) E s ob :
  hs_objs s !! o = Some ob ->
  Q tt (set_objs (<[o := HalObj (f (o_hdr ob)) (o_body ob)]> (hs_objs s)) s) ->
  wp (upd_hdr o f) Q E s.
Proof. intros Ho HQ. apply wp_bind. eapply wp_get_obj; [done |]. by apply wp_put_obj. Qed.

Lemma wp_set_body o b (Q : unit -> hal_state H -> Prop) E s ob :
  hs_objs s !! o = Some ob ->
  Q tt (set_objs (<[o := HalObj (o_hdr ob) b]> (hs_objs s)) s) ->
  wp (set_body o b) Q E s.
Proof. intros Ho HQ. apply wp_bind. eapply wp_get_obj; [done |]. by apply wp_put_obj. Qed.

Lemma wp_get_pin o (Q : hal_pin -> hal_state H -> Prop) E s h p :
  hs_objs s !! o = Some (HalObj h (BPin p)) -> Q p s -> wp (get_pin o) Q E s.
Proof. intros Ho HQ. apply wp_bind. eapply wp_get_obj; [done |]. by apply wp_ret. Qed.

Lemma wp_get_sig o (Q : hal_sig -> hal_state H -> Prop) E s h x :
  hs_objs s !! o = Some (HalObj h (BSig x)) -> Q x s -> wp (get_sig o) Q E s.
Proof. intros Ho HQ. apply wp_bind. eapply wp_get_obj; [done |]. by apply wp_ret. Qed.

Lemma wp_get_comp o (Q : hal_comp -> hal_state H -> Prop) E s h x :
  hs_objs s !! o = Some (HalObj h (BComp x)) -> Q x s -> wp (get_comp o) Q E s.
Proof. intros Ho HQ. apply wp_bind. eapply wp_get_obj; [done |]. by apply wp_ret. Qed.

Lemma wp_ignore {A} (m : M (hal_state H) A) (Q : unit -> hal_state H -> Prop) E s :
  wp m (fun _ s' => Q tt s') (fun _ s' => Q tt s') s -> wp (ignore m) Q E s.
Proof. unfold wp, ignore. destruct (m s) as [[] ?]; done. Qed.

Lemma wp_attempt {A} (m : M (hal_state H) A) (Q : option A -> hal_state H -> Prop) E s :
  wp m (fun a s' => Q (Some a) s') (fun _ s' => Q None s') s -> wp (attempt m) Q E s.
Proof. unfold wp, attempt. destruct (m s) as [[] ?]; done. Qed.
End PrimWp.

(** ** Lookups *)
Section LookupFacts.
Context {H : Type}.
Implicit Types s : hal_state H.

(** The test of the loop, for a selection without [owning_comp]. *)
Definition sel_ok (sel : foreach_sel) (ob : hal_obj) : bool :=
  match_hdr sel ob && match_name sel ob.

Definition obj_test (f : hal_obj -> bool) s (o : Z) : bool :=
  match hs_objs s !! o with Some ob => f ob | None => false end.

(** The first object of the list that passes the test. *)
Definition find_obj (f : hal_obj -> bool) s : option Z :=
  List.find (obj_test f s) (hs_halobjects s).

Definition listed s : Prop := forall o, o ∈ hs_halobjects s -> is_Some (hs_objs s !! o).

Lemma find_obj_some f s o :
  find_obj f s = Some o ->
  o ∈ hs_halobjects s /\ exists ob, hs_objs s !! o = Some ob /\ f ob = true.
Proof.
  intros Hf. apply find_some in Hf as [Hin Ht]. split; [by apply list_elem_of_In |].
  unfold obj_test in Ht. destruct (hs_objs s !! o); [eauto | done].
Qed.

Lemma find_obj_none f s o ob :
  find_obj f s = None -> o ∈ hs_halobjects s -> hs_objs s !! o = Some ob -> f ob = false.
Proof.
  intros Hf Ho Hob. apply (find_none _ _ Hf) in Ho || apply list_elem_of_In in Ho.
  eapply find_none in Hf; [| exact Ho]. unfold obj_test in Hf. by rewrite Hob in Hf.
Qed.

Lemma find_obj_exists f s o ob :
  o ∈ hs_halobjects s -> hs_objs s !! o = Some ob -> f ob = true -> is_Some (find_obj f s).
Proof.
  intros Ho Hob Hf. destruct (find_obj f s) eqn:E; [eauto |].
  rewrite (find_obj_none _ _ _ _ E Ho Hob) in Hf. done.
Qed.

Lemma foreach_yield_match oc sel l n s :
  fs_owning_comp sel = 0 -> (forall o, o ∈ l -> is_Some (hs_objs s !! o)) ->
  foreach_list oc sel yield_match l n None s
  = (Ok (match List.find (obj_test (sel_ok sel) s) l with
         | Some o => (n + 1, Some o) | None => (n, None) end), s).
Proof.
  intros Hoc. revert n. induction l as [| o l IH]; intros n Hl; [done |].
  destruct (Hl o) as [ob Hob]; [by left |].
  cbn [foreach_list List.find]. unfold mbind at 1, M_bind at 1, get_obj, obj_test at 1.
  rewrite Hob. unfold sel_ok at 1. unfold match_owning_comp. rewrite Hoc, Z.eqb_refl.
  assert (forall o', o' ∈ l -> is_Some (hs_objs s !! o')) as Hl' by (intros; apply Hl; by right).
  destruct (match_hdr sel ob); [| by apply IH]. cbn.
  destruct (match_name sel ob); [done | by apply IH].
Qed.

Lemma find_by_name_run t n s :
  hs_init s = true -> listed s ->
  halg_find_object_by_name t n s = (Ok (find_obj (sel_ok (sel_type_name t n)) s), s).
Proof.
  intros Hi Hl. unfold halg_find_object_by_name, halg_foreach0, mbind, M_bind, hal_data.
  rewrite Hi, foreach_yield_match by done.
  unfold find_obj. by destruct (List.find _ _).
Qed.

Lemma find_by_id_run t id s :
  hs_init s = true -> listed s ->
  halg_find_object_by_id t id s = (Ok (find_obj (sel_ok (sel_type_id t id)) s), s).
Proof.
  intros Hi Hl. unfold halg_find_object_by_id, halg_foreach0, mbind, M_bind, hal_data.
  rewrite Hi, foreach_yield_match by done.
  unfold find_obj. by destruct (List.find _ _).
Qed.

Lemma wp_find_by_name t n (Q : option Z -> hal_state H -> Prop) E s :
  hs_init s = true -> listed s ->
  Q (find_obj (sel_ok (sel_type_name t n)) s) s ->
  wp (halg_find_object_by_name t n) Q E s.
Proof. intros Hi Hl HQ. unfold wp. by rewrite find_by_name_run. Qed.

Lemma wp_find_by_id t id (Q : option Z -> hal_state H -> Prop) E s :
  hs_init s = true -> listed s ->
  Q (find_obj (sel_ok (sel_type_id t id)) s) s ->
  wp (halg_find_object_by_id t id) Q E s.
Proof. intros Hi Hl HQ. unfold wp. by rewrite find_by_id_run. Qed.

Lemma sel_ok_type_name t n ob :
  t <> 0 ->
  sel_ok (sel_type_name t n) ob = true <->
  hh_valid (o_hdr ob) = true /\ hh_get_object_type ob = t /\ hh_get_name (o_hdr ob) = n.
Proof.
  intros Ht. unfold sel_ok, match_hdr, match_name, match_field. simpl.
  rewrite !andb_true_iff, orb_true_iff, !Z.eqb_eq, String.eqb_eq. intuition congruence.
Qed.

Lemma sel_ok_type t ob :
  t <> 0 ->
  sel_ok (sel_type t) ob = true <-> hh_valid (o_hdr ob) = true /\ hh_get_object_type ob = t.
Proof.
  intros Ht. unfold sel_ok, match_hdr, match_name, match_field. simpl.
  rewrite !andb_true_iff, orb_true_iff, !Z.eqb_eq. intuition congruence.
Qed.

Lemma sel_ok_type_owner t id ob :
  t <> 0 -> id <> 0 ->
  sel_ok (sel_type_owner t id) ob = true <->
  hh_valid (o_hdr ob) = true /\ hh_get_object_type ob = t /\ hh_owner_id (o_hdr ob) = id.
Proof.
  intros Ht Hid. unfold sel_ok, match_hdr, match_name, match_field. simpl.
  rewrite !andb_true_iff, !orb_true_iff, !Z.eqb_eq. intuition congruence.
Qed.

Lemma sel_ok_type_id t id ob :
  t <> 0 -> id <> 0 ->
  sel_ok (sel_type_id t id) ob = true <->
  hh_valid (o_hdr ob) = true /\ hh_get_object_type ob = t /\ hh_id (o_hdr ob) = id.
Proof.
  intros Ht Hid. unfold sel_ok, match_hdr, match_name, match_field. simpl.
  rewrite !andb_true_iff, !orb_true_iff, !Z.eqb_eq. intuition congruence.
Qed.

(** The component [halpr_find_owning_comp] finds; the outer [None] is the
    assertion failure. *)
Definition owning_comp s (owner : Z) : option (option Z) :=
  match find_obj (sel_ok (sel_type_id HAL_INST owner)) s with
  | None => Some (find_obj (sel_ok (sel_type_id HAL_COMPONENT owner)) s)
  | Some i =>
      match hs_objs s !! i with
      | None => None
      | Some iob =>
          match find_obj (sel_ok (sel_type_id HAL_COMPONENT (hh_owner_id (o_hdr iob)))) s with
          | None => None
          | Some c => Some (Some c)
          end
      end
  end.

Lemma find_owning_comp_run owner s :
  hs_init s = true -> listed s ->
  halpr_find_owning_comp owner s
  = (match owning_comp s owner with Some r => Ok r | None => Crash end, s).
Proof.
  intros Hi Hl. unfold halpr_find_owning_comp, halpr_find_inst_by_id, halpr_find_comp_by_id.
  unfold owning_comp, mbind, M_bind. rewrite find_by_id_run by done.
  destruct (find_obj (sel_ok (sel_type_id HAL_INST owner)) s) as [i |] eqn:Ei.
  - apply find_obj_some in Ei as [_ [iob [Hiob _]]]. unfold get_obj. rewrite Hiob.
    rewrite find_by_id_run by done. by destruct (find_obj _ s).
  - by rewrite find_by_id_run.
Qed.

Lemma wp_find_owning_comp owner (Q : option Z -> hal_state H -> Prop) E s r :
  hs_init s = true -> listed s -> owning_comp s owner = Some r -> Q r s ->
  wp (halpr_find_owning_comp owner) Q E s.
Proof. intros Hi Hl Ho HQ. unfold wp. by rewrite find_owning_comp_run, Ho. Qed.

(** ** Loops whose callbacks always continue *)
Lemma wp_foreach_all {A} oc sel (cb : Z -> A -> M (hal_state H) (Z * A))
    (I : list Z -> A -> hal_state H -> Prop) (E : Z -> hal_state H -> Prop) :
  fs_owning_comp sel = 0 ->
  (forall o l a s, I (o :: l) a s -> exists ob, hs_objs s !! o = Some ob /\
     if sel_ok sel ob then wp (cb o a) (fun ra s' => fst ra = 0 /\ I l (snd ra) s') E s
     else I l a s) ->
  forall l n a s, I l a s ->
  wp (foreach_list oc sel cb l n a) (fun ra s' => I [] (snd ra) s') E s.
Proof.
  intros Hoc Hstep l. induction l as [| o l IH]; intros n a s HI; [done |].
  destruct (Hstep _ _ _ _ HI) as (ob & Hob & Hcb).
  cbn [foreach_list]. apply wp_bind. eapply wp_get_obj; [done |].
  unfold sel_ok in Hcb. unfold match_owning_comp. rewrite Hoc, Z.eqb_refl.
  destruct (match_hdr sel ob); [| by apply IH]. cbn [negb].
  apply wp_bind, wp_ret. simpl. simpl in Hcb.
  destruct (match_name sel ob); [| by apply IH]. cbn [negb].
  apply wp_bind. eapply wp_mono; [exact Hcb | | done].
  intros [r a'] s' [Hr HI']. simpl in *. subst r. by apply IH.
Qed.
End LookupFacts.

(** ** Well-formed states *)
Section WellFormed.
Context {H : Type} {HA : Allocator H} {HS : AllocatorSpec H} {PF : Platform}.
Implicit Types s : hal_state H.

(** The HAL heap is well-formed and ends below the memory that is left. *)
Definition heap_ok s : Prop := h_wf (hs_heap s) /\ h_room (hs_heap s) (hs_shmem_bot s) (hs_shmem_top s).

(** Descriptors and names are blocks in use, each with one owner; the list
    holds each object once. *)
Record wf s : Prop := Wf {
  wf_init : hs_init s = true;
  wf_heap : heap_ok s;
  wf_gheap : h_wf (hs_gheap s);
  wf_objs : forall o, is_Some (hs_objs s !! o) -> 0 < o < 2 ^ 31 /\ (o ∈ h_live (hs_heap s));
  wf_nodup : NoDup (hs_halobjects s);
  wf_list : listed s;
  wf_names : forall o ob p str, hs_objs s !! o = Some ob -> hh_name (o_hdr ob) = Some (p, str) ->
    p ∈ h_live (hs_gheap s);
  wf_names_inj : forall o1 o2 ob1 ob2 p str1 str2,
    hs_objs s !! o1 = Some ob1 -> hs_objs s !! o2 = Some ob2 ->
    hh_name (o_hdr ob1) = Some (p, str1) -> hh_name (o_hdr ob2) = Some (p, str2) -> o1 = o2;
}.

(** Everything but the heaps and the counters. *)
Definition world s :=
  (hs_init s, hs_objs s, hs_halobjects s, hs_cells s, hs_lock s, hs_threads s,
   hs_funct_entry_free s, hs_fentries s, hs_lib_module_id s).

Lemma wf_world s s' :
  wf s -> world s' = world s -> heap_ok s' -> h_wf (hs_gheap s') ->
  (forall o, is_Some (hs_objs s !! o) -> o ∈ h_live (hs_heap s') ) ->
  (forall p, p ∈ h_live (hs_gheap s) -> p ∈ h_live (hs_gheap s')) -> wf s'.
Proof.
  intros [] [= Hw1 Hw2 Hw3 Hw4 Hw5 Hw6 Hw7 Hw8] Hh Hg Hlive Hglive.
  split; rewrite ?Hw1, ?Hw2, ?Hw3; auto.
  - intros o Ho. split; [apply wf_objs0, Ho | auto].
  - unfold listed. rewrite Hw2, Hw3. done.
  - intros. eauto.
Qed.

Lemma world_eqs s s' : world s' = world s ->
  hs_init s' = hs_init s /\ hs_objs s' = hs_objs s /\ hs_halobjects s' = hs_halobjects s /\
  hs_cells s' = hs_cells s /\ hs_lock s' = hs_lock s /\ hs_threads s' = hs_threads s /\
  hs_funct_entry_free s' = hs_funct_entry_free s /\ hs_fentries s' = hs_fentries s /\
  hs_lib_module_id s' = hs_lib_module_id s.
Proof. intros [=]. repeat split; congruence. Qed.

(** Changing a descriptor but not its name. *)
Lemma wf_insert s o ob ob' :
  wf s -> hs_objs s !! o = Some ob -> hh_name (o_hdr ob') = hh_name (o_hdr ob) ->
  wf (set_objs (<[o := ob']> (hs_objs s)) s).
Proof.
  intros [] Ho Hn.
  assert (forall o1 ob1 r, <[o := ob']> (hs_objs s) !! o1 = Some ob1 ->
    hh_name (o_hdr ob1) = r -> exists ob2, hs_objs s !! o1 = Some ob2 /\ hh_name (o_hdr ob2) = r)
    as Hback.
  { intros o1 ob1 r Ho1 Hr. destruct (decide (o1 = o)) as [-> |].
    - rewrite lookup_insert_eq in Ho1. simplify_eq. eexists. split; [done | congruence].
    - rewrite lookup_insert_ne in Ho1 by done. eauto. }
  split; simpl; auto.
  - intros o1 Ho1. apply wf_objs0. destruct (decide (o1 = o)) as [-> |]; [eauto |].
    by rewrite lookup_insert_ne in Ho1.
  - intros o1 Ho1. simpl in *. destruct (decide (o1 = o)) as [-> |].
    + rewrite lookup_insert_eq. eauto.
    + rewrite lookup_insert_ne by done. by apply wf_list0.
  - intros o1 ob1 p str Ho1 Hp. destruct (Hback _ _ _ Ho1 Hp) as (ob2 & ? & ?). eauto.
  - intros o1 o2 ob1 ob2 p str1 str2 Ho1 Ho2 Hp1 Hp2.
    destruct (Hback _ _ _ Ho1 Hp1) as (ob1' & ? & ?).
    destruct (Hback _ _ _ Ho2 Hp2) as (ob2' & ? & ?). eauto.
Qed.

(** ** Allocation of descriptors *)

(** A new block of the HAL heap, all else unchanged. *)
Definition alloc_post s (p : Z) s' : Prop :=
  world s' = world s /\ heap_ok s' /\ hs_gheap s' = hs_gheap s /\
  0 < p < 2 ^ 31 /\ (p ∉ h_live (hs_heap s)) /\ h_live (hs_heap s') = {[p]} ∪ h_live (hs_heap s).

Definition heap_same s s' : Prop :=
  world s' = world s /\ heap_ok s' /\ hs_gheap s' = hs_gheap s /\
  h_live (hs_heap s') = h_live (hs_heap s).

(** The block was allocated last. *)
Definition came_from (n p : Z) s' : Prop := exists h0, h_wf h0 /\ h_calloc h0 n = Ok (Some (p, hs_heap s')).

Lemma wp_heap_calloc n s (Q : option Z -> hal_state H -> Prop) E :
  heap_ok s -> 0 <= n < 2 ^ 62 ->
  (forall p s', alloc_post s p s' -> came_from n p s' -> Q (Some p) s') -> Q None s -> wp (heap_calloc n) Q E s.
Proof.
  intros [Hwf Hroom] Hn HQ HN. unfold wp, heap_calloc. pose proof (h_calloc_ok _ _ Hwf Hn) as Hok.
  destruct (h_calloc (hs_heap s) n) as [[[p h'] |] | |] eqn:Ec; try done.
  destruct Hok as (? & ? & ? & ? & Hr). apply HQ; [| by exists (hs_heap s)].
  repeat (split; try done). by apply Hr.
Qed.

(** Rounding up to cache lines. *)
Lemma align_cacheline x : 0 <= x < 2 ^ 62 ->
  let n := RTAPI_ALIGN_size x RTAPI_CACHELINE in (RTAPI_CACHELINE | n) /\ x <= n < x + 64.
Proof.
  intros Hx. cbv zeta. unfold RTAPI_ALIGN_size, RTAPI_CACHELINE.
  change (64 - 1) with (Z.ones 6). rewrite Z.land_ones by lia. change (2 ^ 6) with 64. set (r := u64 (- x) mod 64).
  pose proof (Z.mod_pos_bound (u64 (- x)) 64 ltac:(lia)) as Hr. fold r in Hr. rewrite wrapu_small by lia.
  assert ((x + r) mod 64 = 0) as Hmod.
  { unfold r, wrapu. rewrite Z.mod_mod_divide by (by exists (2 ^ 58)).
    rewrite Z.add_mod_idemp_r by lia. by replace (x + - x) with 0 by lia. }
  split; [by apply Z.mod_divide | lia].
Qed.

(** Half of the free memory, rounded up, is not more than all of it. *)
Lemma half_free bot top : 0 <= bot <= top -> top < 2 ^ 31 -> HAL_HEAP_MINFREE <= u64 (top - bot) ->
  let n := RTAPI_ALIGN_size (u64 (top - bot) / 2) RTAPI_CACHELINE in
  0 < n /\ (RTAPI_CACHELINE | n) /\ bot + n <= top.
Proof.
  intros Hb Ht. rewrite wrapu_small by lia. unfold HAL_HEAP_MINFREE. intros Hm. cbv zeta.
  pose proof (Z.div_mod (top - bot) 2 ltac:(lia)). pose proof (Z.mod_pos_bound (top - bot) 2 ltac:(lia)).
  destruct (align_cacheline ((top - bot) / 2) ltac:(lia)) as [Hn Hx]. split; [lia |]. split; [exact Hn | lia].
Qed.

Lemma wp_heap_addmem s (Q : unit -> hal_state H -> Prop) (E : Z -> hal_state H -> Prop) :
  hs_init s = true -> heap_ok s ->
  (forall s', heap_same s s' -> Q tt s') ->
  (forall e s', heap_same s s' -> E e s') -> wp (hal_heap_addmem (hal_freemem s / 2)) Q E s.
Proof.
  intros Hi [Hwf Hroom] HQ HE. unfold hal_heap_addmem. apply wp_bind, wp_hal_data; [done |].
  destruct (hal_freemem s <? HAL_HEAP_MINFREE) eqn:Em; [by apply wp_ret, HQ |]. zb.
  destruct (h_room_bounds _ _ _ Hroom) as [Hb Ht].
  destruct (half_free (hs_shmem_bot s) (hs_shmem_top s) Hb Ht Em) as (Hn0 & Hn & Hnt).
  unfold hal_freemem. set (n := RTAPI_ALIGN_size _ _) in *.
  pose proof (h_addmem_ok _ _ _ _ Hwf Hroom Hn0 Hn Hnt) as Hok.
  destruct (h_addmem _ _ _) as [h' | e |]; [| | done].
  - apply wp_modify. destruct Hok as (Hl & Hwf' & Hroom'). apply HQ.
    split; [done |]. split; [| done]. split; [done |]. simpl. by rewrite (wraps_small 32) by lia.
  - apply wp_halfail. by apply HE.
Qed.

Lemma wp_shmalloc_desc n s (Q : Z -> hal_state H -> Prop) (E : Z -> hal_state H -> Prop) :
  hs_init s = true -> heap_ok s -> 0 <= n < 2 ^ 62 ->
  (forall p s', alloc_post s p s' -> came_from n p s' -> Q p s') ->
  (forall e s', heap_same s s' -> E e s') -> wp (shmalloc_desc n) Q E s.
Proof.
  intros Hi Hwf Hn HQ HE. unfold shmalloc_desc. apply wp_bind, wp_hal_data; [done |].
  apply wp_bind, wp_heap_calloc; [done | done | |].
  { intros p s' Hp Hc. by apply wp_ret, HQ. }
  assert (forall s1, heap_same s s1 ->
    wp (r ← heap_calloc n; match r with Some p => mret p | None => halfail ENOMEM end) Q E s1)
    as Hretry.
  { intros s1 (Hw & Hwf1 & Hg & Hl). apply wp_bind, wp_heap_calloc; [done | done | |].
    - intros p s2 (Hw2 & Hwf2 & Hg2 & Hp & Hnl & Hl2) Hc. apply wp_ret, HQ; [| done].
      unfold alloc_post. rewrite <- Hl. split_and!; try done; first [congruence | lia].
    - apply wp_halfail, HE. by split_and!. }
  apply wp_bind, wp_ignore, wp_heap_addmem; auto.
Qed.

Lemma wp_shmfree_desc p s (Q : unit -> hal_state H -> Prop) E :
  hs_init s = true -> heap_ok s -> p ∈ h_live (hs_heap s) ->
  (forall hp, h_free (hs_heap s) p = Ok hp -> heap_ok (set_heap hp s) -> h_live hp = h_live (hs_heap s) ∖ {[p]} -> Q tt (set_heap hp s)) ->
  wp (shmfree_desc p) Q E s.
Proof.
  intros Hi [Hwf Hroom] Hp HQ. unfold wp, shmfree_desc. rewrite Hi.
  destruct (h_free_ok _ _ Hwf Hp) as (h' & Hf & ? & ? & Hr). rewrite Hf. apply HQ; [done | | done]. split; [done |]. by apply Hr.
Qed.

Lemma wp_gheap_free p s (Q : unit -> hal_state H -> Prop) E :
  h_wf (hs_gheap s) -> p ∈ h_live (hs_gheap s) ->
  (forall g, h_wf g -> h_live g = h_live (hs_gheap s) ∖ {[p]} -> Q tt (set_gheap g s)) -> wp (gheap_free p) Q E s.
Proof.
  intros Hwf Hp HQ. unfold wp, gheap_free. destruct (h_free_ok _ _ Hwf Hp) as (h' & Hf & ? & ? & _). rewrite Hf. by apply HQ.
Qed.

(** The sizes of descriptors. *)
Lemma desc_allocsize_ok type : 0 <= desc_allocsize type < 2 ^ 62.
Proof.
  pose proof (sizeof_desc_ok type) as Hs. unfold desc_allocsize, sizeof_malloc_hdr.
  assert (0 <= sizeof_desc type + 8 < 2 ^ 62) as Hx by lia. pose proof (proj2 (align_cacheline _ Hx)) as Ha. case_match; lia.
Qed.

Lemma wp_alloc_desc type s (Q : Z -> hal_state H -> Prop) (E : Z -> hal_state H -> Prop) :
  hs_init s = true -> heap_ok s ->
  (forall p s', alloc_post s p s' -> Q p s') ->
  (forall e s', heap_same s s' -> E e s') ->
  wp (if hal_descriptor_alignment =? 0 then shmalloc_desc (desc_allocsize type)
      else shmalloc_desc_aligned (sizeof_desc type) hal_descriptor_alignment) Q E s.
Proof.
  intros Hi Hwf HQ HE. pose proof (desc_allocsize_ok type) as Hsz. pose proof (sizeof_desc_ok type) as Hdesc.
  destruct hal_descriptor_alignment_ok as [-> | ->]; cbn [Z.eqb RTAPI_CACHELINE]; [by apply wp_shmalloc_desc; eauto |].
  change (RTAPI_CACHELINE =? 0) with false. cbv iota.
  unfold shmalloc_desc_aligned. apply wp_bind, wp_shmalloc_desc; [done | done | unfold RTAPI_CACHELINE; lia | | done].
  intros d s1 (Hw1 & Hwf1 & Hg1 & Hp1 & Hn1 & Hl1) (h0 & Hwf0 & Hcalloc).
  assert (hs_init s1 = true) as Hi1 by (apply world_eqs in Hw1; intuition congruence).
  apply wp_bind, wp_shmfree_desc; [done | done | set_solver |].
  intros hp Hfree Hwf2 Hl2. apply wp_bind, wp_get. set (s2 := set_heap hp s1) in *.
  assert (world s2 = world s1 /\ hs_gheap s2 = hs_gheap s1) as [Hw2 Hg2] by done.
  assert (h_live (hs_heap s2) = h_live (hs_heap s)) as Hl by (simpl; rewrite Hl2, Hl1; set_solver).
  assert (h_avail (hs_heap s2) (sizeof_desc type + RTAPI_CACHELINE)) as Hav
    by (eapply h_avail_ok; [exact Hwf0 | unfold RTAPI_CACHELINE; lia | exact Hcalloc | exact Hfree]).
  assert (0 <= sizeof_desc type < 2 ^ 62) as Hn by lia.
  pose proof (h_malloc_aligned_ok _ (sizeof_desc type) (proj1 Hwf2) Hn Hav) as Hok.
  destruct (h_malloc_aligned _ _ _) as [[[p h'] |] | |] eqn:Em; try done.
  - destruct Hok as (? & ? & ? & ? & Hr).
    apply wp_bind, wp_ret. apply HQ. unfold alloc_post. rewrite <- Hl. split_and!; try done; try lia.
    split; [done |]. apply Hr, Hwf2.
  - apply wp_halfail, HE. by split_and!.
Qed.

(** The header of a new object. *)
Definition new_hdr (id owner_id p : Z) (str : string) : halhdr :=
  HalHdr (s16 id) (s16 owner_id) (Some (p, snd (vsnprintf MAX_OBJECT_NAME_LEN str)))
    0 false true false false.

Definition created s type owner_id str new s' : Prop :=
  exists id p s1, world s1 = world s /\
    hs_objs s !! new = None /\ (new ∉ hs_halobjects s) /\ wf s' /\
    s' = set_objs (<[new := HalObj (new_hdr id owner_id p str) (zero_body type)]> (hs_objs s)) s1.

Lemma wf_fresh s o : wf s -> (o ∉ h_live (hs_heap s)) ->
  hs_objs s !! o = None /\ (o ∉ hs_halobjects s).
Proof.
  intros Hw Ho.
  assert (hs_objs s !! o = None) as Hn.
  { destruct (hs_objs s !! o) eqn:E; [| done]. exfalso. apply Ho. apply (wf_objs _ Hw). eauto. }
  split; [done |]. intros Hin. destruct (wf_list _ Hw _ Hin). congruence.
Qed.

(** Setting a name: one new block of the global heap, or nothing. *)
Lemma wp_set_namefv o str s ob (Q : unit -> hal_state H -> Prop) (E : Z -> hal_state H -> Prop) :
  hs_objs s !! o = Some ob -> h_wf (hs_gheap s) ->
  (forall p g' n, (p ∉ h_live (hs_gheap s)) -> h_live g' = {[p]} ∪ h_live (hs_gheap s) -> h_wf g' ->
     Q tt (set_str_alloc n (set_objs
       (<[o := HalObj (hh_set_name (o_hdr ob) (Some (p, snd (vsnprintf MAX_OBJECT_NAME_LEN str))))
                      (o_body ob)]> (hs_objs s)) (set_gheap g' s)))) ->
  (forall e, E e (set_halerrno e s)) ->
  wp (hh_set_namefv o str) Q E s.
Proof.
  intros Ho Hwf HQ HE. unfold hh_set_namefv.
  assert (0 <= fst (vsnprintf MAX_OBJECT_NAME_LEN str)) as Hsz by (cbn; lia).
  destruct (vsnprintf MAX_OBJECT_NAME_LEN str) as [sz buf]. cbn [fst snd] in *.
  destruct (MAX_OBJECT_NAME_LEN <? sz) eqn:Elen; [by apply wp_halfail |]. zb. unfold MAX_OBJECT_NAME_LEN in Elen.
  assert (0 <= sz + 1 < 2 ^ 62) as Hn by lia.
  apply wp_bind. unfold wp at 1, gheap_calloc. pose proof (h_calloc_ok _ (sz + 1) Hwf Hn) as Hok.
  destruct (h_calloc (hs_gheap s) (sz + 1)) as [[[p g'] |] | |] eqn:Eg; try done; [| by apply wp_halfail].
  destruct Hok as (_ & Hpn & Hgl & Hgwf & _).
  apply wp_bind. eapply wp_upd_hdr; [exact Ho |]. apply wp_modify. by apply HQ.
Qed.

(** Undoing the creation of [new]. *)
Lemma wp_undo_create s s1 new m (Q : unit -> hal_state H -> Prop) E :
  wf s -> alloc_post s new s1 ->
  (forall s', world s' = world s -> wf s' -> Q tt s') ->
  delete new m = hs_objs s ->
  forall n, wp (modify (fun s => set_objs (delete new (hs_objs s)) s) ≫= fun _ => shmfree_desc new)
    Q E (set_halerrno n (set_objs m s1)).
Proof.
  intros Hw (Hw1 & Hwf1 & Hg1 & Hp1 & Hn1 & Hl1) HQ Hm n.
  destruct (world_eqs _ _ Hw1) as (Ei & Eo & El & Ec & Ek & Et & Ef & Efe & Elib).
  apply wp_bind, wp_modify. apply wp_shmfree_desc; simpl.
  - rewrite Ei. apply Hw.
  - done.
  - rewrite Hl1. set_solver.
  - intros hp _ Hwf' Hl'.
    assert (world (set_heap hp (set_objs (delete new m) (set_halerrno n (set_objs m s1))))
            = world s) as Hws by (unfold world in *; simpl; congruence).
    apply HQ; [exact Hws |].
    eapply wf_world; [exact Hw | exact Hws | done | simpl; rewrite Hg1; apply Hw | |].
    + intros o Ho. simpl. rewrite Hl'. simpl. rewrite Hl1.
      pose proof (wf_objs _ Hw o Ho). set_solver.
    + simpl. by rewrite Hg1.
Qed.

Lemma wf_created s s1 new ob p g' str n :
  wf s -> alloc_post s new s1 -> (p ∉ h_live (hs_gheap s)) ->
  h_live g' = {[p]} ∪ h_live (hs_gheap s) -> h_wf g' -> hh_name (o_hdr ob) = Some (p, str) ->
  wf (set_str_alloc n (set_objs (<[new := ob]> (hs_objs s)) (set_gheap g' s1))).
Proof.
  intros Hw (Hw1 & Hwf1 & Hg1 & Hp1 & Hn1 & Hl1) Hpn Hgl Hgwf Hname.
  destruct (wf_fresh _ _ Hw Hn1) as [Hno Hnl].
  destruct (world_eqs _ _ Hw1) as (Ei & Eo & El & Ec & Ek & Et & Ef & Efe & Elib).
  assert (forall o ob', <[new := ob]> (hs_objs s) !! o = Some ob' ->
    (o = new /\ ob' = ob) \/ (o <> new /\ hs_objs s !! o = Some ob')) as Hinv.
  { intros o ob' Ho. destruct (decide (o = new)) as [-> |].
    - rewrite lookup_insert_eq in Ho. left. by simplify_eq.
    - rewrite lookup_insert_ne in Ho by done. by right. }
  assert (forall o ob' q str', hs_objs s !! o = Some ob' -> hh_name (o_hdr ob') = Some (q, str') ->
    q <> p) as Hne.
  { intros o ob' q str' Ho Hq ->. apply Hpn. by eapply (wf_names _ Hw). }
  split; simpl; rewrite ?Ei, ?El; try apply Hw; try done.
  - intros o [ob' Ho]. apply Hinv in Ho as [[-> ->] | [Hne' Ho]].
    + split; [lia | set_solver].
    + pose proof (wf_objs _ Hw o ltac:(eauto)). set_solver.
  - intros o Ho. simpl in *. rewrite El in Ho.
    rewrite lookup_insert_ne by (intros ->; done). by apply Hw.
  - intros o ob' q str' Ho Hq. apply Hinv in Ho as [[-> ->] | [Hne' Ho]].
    + simplify_eq. set_solver.
    + pose proof (wf_names _ Hw _ _ _ _ Ho Hq). set_solver.
  - intros o1 o2 ob1 ob2 q str1 str2 Ho1 Ho2 Hq1 Hq2.
    apply Hinv in Ho1 as [[-> ->] | [Hn3 Ho1]], Ho2 as [[-> ->] | [Hn2 Ho2]]; [done | | |].
    + simplify_eq. exfalso. by eapply Hne.
    + simplify_eq. exfalso. by eapply Hne.
    + by eapply (wf_names_inj _ Hw).
Qed.

Lemma wp_on_error {A} (m : M (hal_state H) A) h Q (E : Z -> hal_state H -> Prop) s :
  wp m Q (fun e s' => wp h (fun _ => E e) (fun _ => E e) s') s -> wp (on_error m h) Q E s.
Proof.
  unfold wp at 1 3, on_error. destruct (m s) as [[] s']; try done.
  unfold wp. destruct (h s') as [[] ?]; done.
Qed.

Lemma wp_create_object type owner_id name str s
    (Q : Z -> hal_state H -> Prop) (E : Z -> hal_state H -> Prop) :
  wf s -> fmt_noargs name = Some str ->
  (forall new s', created s type owner_id str new s' -> Q new s') ->
  (forall e s', world s' = world s -> wf s' -> E e s') ->
  wp (halg_create_objectf type owner_id name) Q E s.
Proof.
  intros Hw Hf HQ HE. unfold halg_create_objectf, halg_create_objectfv. rewrite Hf.
  apply wp_bind, wp_alloc_desc; [apply Hw | apply Hw | |].
  2:{ intros e s' (Hw' & Hwf' & Hg & Hl). apply HE; [done |].
      eapply wf_world; [exact Hw | done | done | rewrite Hg; apply Hw | |].
      - rewrite Hl. apply (wf_objs _ Hw).
      - by rewrite Hg. }
  intros new s1 Ha. pose proof Ha as (Hw1 & Hwf1 & Hg1 & Hp1 & Hn1 & Hl1).
  destruct (wf_fresh _ _ Hw Hn1) as [Hno Hnl].
  destruct (world_eqs _ _ Hw1) as (Ei & Eo & El & Ec & Ek & Et & Ef & Efe & Elib).
  apply wp_bind, wp_put_obj, wp_bind, wp_on_error.
  unfold hh_init_hdrfv. apply wp_bind. unfold rtapi_next_handle at 1.
  apply wp_bind, wp_get, wp_bind, wp_modify, wp_ret, wp_bind, wp_put_obj.
  set (id := s32 _). eapply wp_set_namefv; simpl.
  - apply lookup_insert_eq.
  - rewrite Hg1. apply Hw.
  - intros p g' n Hpn Hgl Hgwf. rewrite Hg1 in Hpn, Hgl. apply wp_ret, HQ.
    rewrite !insert_insert_eq, Eo.
    eexists id, p, (set_str_alloc n (set_gheap g' (set_next_handle id s1))).
    split; [unfold world in *; simpl; congruence |]. split; [done |]. split; [done |].
    split; [| reflexivity].
    apply (wf_created s (set_next_handle id s1) new _ p g'
             (snd (vsnprintf MAX_OBJECT_NAME_LEN str)) n Hw); done.
  - intros e. rewrite !insert_insert_eq.
    assert (alloc_post s new (set_next_handle id s1)) as Ha'
      by (unfold alloc_post; split_and!; try done; lia).
    apply (wp_undo_create s _ new (<[new := _]> (hs_objs s1)) _ _ Hw Ha').
    + intros s' Hs' Hwf'. by apply HE.
    + rewrite delete_insert_eq, Eo. by apply delete_id.
Qed.
End WellFormed.

(** ** The object list is sorted by name within each type *)
Section Order.
Context {H : Type} {HA : Allocator H} {HS : AllocatorSpec H} {PF : Platform}.
Implicit Types s : hal_state H.

(** The name of a valid object of type [t]. *)
Definition typed_name (m : gmap Z hal_obj) (t : Z) (o : Z) : option string :=
  match m !! o with
  | Some ob => if hh_valid (o_hdr ob) && (hh_get_object_type ob =? t)
               then Some (hh_get_name (o_hdr ob)) else None
  | None => None
  end.

(** The names of the valid objects of type [t], in list order. *)
Definition type_names s (t : Z) : list string :=
  omap (typed_name (hs_objs s) t) (hs_halobjects s).

Definition sorted s : Prop := forall t, StronglySorted str_le (type_names s t).

Definition greater (m : gmap Z hal_obj) (t : Z) (n : string) (o : Z) : bool :=
  match typed_name m t o with Some n' => String.ltb n n' | None => false end.

Lemma omap_insert_before m t new n l :
  new ∉ l -> typed_name m t new = Some n ->
  omap (typed_name m t) (insert_before new (List.find (greater m t n) l) l)
  = insert_name n (omap (typed_name m t) l).
Proof.
  intros Hnew Hn. induction l as [| x l IH]; simpl; [by rewrite Hn |].
  apply not_elem_of_cons in Hnew as [Hx Hl].
  destruct (greater m t n x) eqn:Eg.
  - rewrite decide_True by done. simpl. rewrite Hn.
    unfold greater in Eg. destruct (typed_name m t x); [| done]. simpl. by rewrite Eg.
  - rewrite decide_False.
    + simpl. unfold greater in Eg. destruct (typed_name m t x); simpl; [rewrite Eg; f_equal |];
        by apply IH.
    + intros Hf. apply find_some in Hf as [_ Hf]. congruence.
Qed.

Lemma omap_insert_other m t new p l :
  typed_name m t new = None ->
  omap (typed_name m t) (insert_before new p l) = omap (typed_name m t) l.
Proof.
  intros Hn. induction l as [| x l IH]; simpl; [by rewrite Hn |].
  case_decide; simpl; [by rewrite Hn |]. destruct (typed_name m t x); [f_equal |]; apply IH.
Qed.

Lemma insert_before_perm new p l : insert_before new p l ≡ₚ new :: l.
Proof.
  induction l as [| x l IH]; simpl; [done |]. case_decide; [done |].
  rewrite IH. apply Permutation_swap.
Qed.

Lemma find_previous_run new o p nob ob s :
  hs_objs s !! new = Some nob -> hs_objs s !! o = Some ob ->
  find_previous new o p s
  = (Ok (if String.ltb (hh_get_name (o_hdr nob)) (hh_get_name (o_hdr ob))
         then (1, Some o) else (0, p)), s).
Proof.
  intros Hn Ho. unfold find_previous, mbind, M_bind, get_obj. by rewrite Hn, Ho.
Qed.

Lemma foreach_find_previous oc t new nob l n s :
  hs_objs s !! new = Some nob -> t <> 0 ->
  (forall o, o ∈ l -> is_Some (hs_objs s !! o)) ->
  exists k, foreach_list oc (sel_type t) (find_previous new) l n None s
  = (Ok (k, List.find (greater (hs_objs s) t (hh_get_name (o_hdr nob))) l), s).
Proof.
  intros Hnew Ht. revert n. induction l as [| o l IH]; intros n Hl; [by eexists |].
  destruct (Hl o) as [ob Hob]; [by left |].
  assert (forall o', o' ∈ l -> is_Some (hs_objs s !! o')) as Hl' by (intros; apply Hl; by right).
  cbn [foreach_list List.find]. unfold mbind at 1, M_bind at 1, get_obj.
  rewrite Hob. unfold greater at 1, typed_name at 1. rewrite Hob.
  assert (match_hdr (sel_type t) ob = hh_valid (o_hdr ob) && (hh_get_object_type ob =? t)) as ->.
  { unfold match_hdr, match_field. simpl. rewrite !andb_true_r.
    destruct (t =? 0) eqn:E; zb; [done |]. by rewrite (Z.eqb_sym t). }
  destruct (hh_valid (o_hdr ob) && (hh_get_object_type ob =? t)); [| by apply IH].
  cbn. unfold mbind, M_bind, mret, M_ret. cbn [negb andb]. rewrite (find_previous_run _ _ _ _ _ _ Hnew Hob).
  destruct (String.ltb _ _); [by eexists | by apply IH].
Qed.

(** [halg_add_object] puts the new object, which is not in the list yet,
    before the first object of its type with a larger name. *)
Lemma wp_add_object new nob s (Q : unit -> hal_state H -> Prop) E :
  wf s -> hs_objs s !! new = Some nob -> (new ∉ hs_halobjects s) ->
  hh_get_object_type nob <> 0 ->
  (let p := List.find (greater (hs_objs s) (hh_get_object_type nob) (hh_get_name (o_hdr nob)))
              (hs_halobjects s) in
   Q tt (set_halobjects (insert_before new p (hs_halobjects s)) s)) ->
  wp (halg_add_object new) Q E s.
Proof.
  intros Hw Hnew Hnl Ht HQ. unfold halg_add_object. apply wp_bind. eapply wp_get_obj; [done |].
  apply wp_bind. unfold halg_foreach. apply wp_bind, wp_hal_data; [apply Hw |].
  destruct (foreach_find_previous halpr_find_owning_comp (hh_get_object_type nob) new nob
    (hs_halobjects s) 0 s Hnew Ht (wf_list _ Hw)) as [k Hk].
  eapply run_wp; [exact Hk |]. by apply wp_modify.
Qed.

Lemma wf_add_object new p s :
  wf s -> is_Some (hs_objs s !! new) -> (new ∉ hs_halobjects s) ->
  wf (set_halobjects (insert_before new p (hs_halobjects s)) s).
Proof.
  intros [] Hnew Hnl. split; simpl; auto.
  - rewrite insert_before_perm. by constructor.
  - intros o Ho. simpl in *. rewrite insert_before_perm in Ho.
    apply elem_of_cons in Ho as [-> | Ho]; auto.
Qed.

Lemma type_names_add new nob s t :
  hs_objs s !! new = Some nob -> (new ∉ hs_halobjects s) -> hh_valid (o_hdr nob) = true ->
  let n := hh_get_name (o_hdr nob) in
  let p := List.find (greater (hs_objs s) (hh_get_object_type nob) n) (hs_halobjects s) in
  type_names (set_halobjects (insert_before new p (hs_halobjects s)) s) t
  = if hh_get_object_type nob =? t then insert_name n (type_names s t) else type_names s t.
Proof.
  intros Hnew Hnl Hv n p. unfold type_names. simpl.
  assert (typed_name (hs_objs s) t new = if hh_get_object_type nob =? t then Some n else None) as Hn.
  { unfold typed_name. by rewrite Hnew, Hv. }
  destruct (hh_get_object_type nob =? t) eqn:Et; zb.
  - subst t. by apply omap_insert_before.
  - by apply omap_insert_other.
Qed.

Lemma sorted_add new nob s :
  hs_objs s !! new = Some nob -> (new ∉ hs_halobjects s) -> hh_valid (o_hdr nob) = true ->
  sorted s ->
  sorted (set_halobjects (insert_before new
    (List.find (greater (hs_objs s) (hh_get_object_type nob) (hh_get_name (o_hdr nob)))
       (hs_halobjects s)) (hs_halobjects s)) s).
Proof.
  intros Hnew Hnl Hv Hs t. rewrite (type_names_add new nob) by done.
  case_match; [| apply Hs]. apply insert_name_sorted, Hs.
Qed.

(** Names do not change when validity, type and name of the objects do not. *)
Lemma type_names_insert s o ob ob' t :
  hs_objs s !! o = Some ob -> hh_valid (o_hdr ob') = hh_valid (o_hdr ob) ->
  hh_get_object_type ob' = hh_get_object_type ob ->
  hh_get_name (o_hdr ob') = hh_get_name (o_hdr ob) ->
  type_names (set_objs (<[o := ob']> (hs_objs s)) s) t = type_names s t.
Proof.
  intros Ho Hv Ht Hn. unfold type_names. simpl. apply list_omap_ext.
  apply Forall_Forall2_diag, Forall_true. intros x.
  unfold typed_name. destruct (decide (x = o)) as [-> |].
  - by rewrite lookup_insert_eq, Ho, Hv, Ht, Hn.
  - by rewrite lookup_insert_ne.
Qed.

(** An object that is not listed does not matter. *)
Lemma type_names_unlisted s o m t :
  (o ∉ hs_halobjects s) -> (forall x, x <> o -> m !! x = hs_objs s !! x) ->
  omap (typed_name m t) (hs_halobjects s) = type_names s t.
Proof.
  intros Ho Hm. unfold type_names. apply list_omap_ext. apply Forall_Forall2_diag.
  apply Forall_forall. intros x Hx. unfold typed_name. rewrite Hm; [done |]. by intros ->.
Qed.

(** Deleting objects leaves a subsequence. *)
Lemma StronglySorted_sublist {A} (R : A -> A -> Prop) l k :
  l `sublist_of` k -> StronglySorted R k -> StronglySorted R l.
Proof.
  induction 1 as [| x l k Hs IH | x l k Hs IH]; intros Hk; [done | |].
  - inversion Hk; subst. constructor; [auto |].
    rewrite Forall_forall in *. intros y Hy. eauto using elem_of_sublist.
  - inversion Hk; subst. auto.
Qed.

Lemma elem_type_names s t n :
  n ∈ type_names s t <-> exists o ob, o ∈ hs_halobjects s /\ hs_objs s !! o = Some ob /\
    hh_valid (o_hdr ob) = true /\ hh_get_object_type ob = t /\ hh_get_name (o_hdr ob) = n.
Proof.
  unfold type_names. rewrite list_elem_of_omap. unfold typed_name. split.
  - intros (o & Ho & Hn). destruct (hs_objs s !! o) as [ob |] eqn:Eo; [| done].
    destruct (hh_valid (o_hdr ob)) eqn:Ev; [| done].
    destruct (hh_get_object_type ob =? t) eqn:Et; [| done]. zb. simplify_eq/=.
    by exists o, ob.
  - intros (o & ob & Ho & Eo & Ev & <- & <-). exists o. split; [done |].
    by rewrite Eo, Ev, Z.eqb_refl.
Qed.

(** A lookup by name fails exactly when there is no such name. *)
Lemma find_name_none s t n :
  t <> 0 -> listed s ->
  find_obj (sel_ok (sel_type_name t n)) s = None <-> n ∉ type_names s t.
Proof.
  intros Ht Hl. split.
  - intros Hf (o & ob & Ho & Eo & Ev & Et & En)%elem_type_names.
    pose proof (find_obj_none _ _ _ _ Hf Ho Eo) as Hfalse.
    assert (sel_ok (sel_type_name t n) ob = true) by (by apply sel_ok_type_name). congruence.
  - intros Hn. destruct (find_obj _ s) as [o |] eqn:Ef; [| done]. exfalso. apply Hn.
    apply find_obj_some in Ef as (Ho & ob & Eo & Hok).
    apply sel_ok_type_name in Hok as (Ev & Et & En); [| done].
    apply elem_type_names. by exists o, ob.
Qed.
End Order.
