(* ===== verification/HalPin.v ===== *)
(** * HAL pins (hal/src/hal_pin.c, hal_accessor.c, hal_accessor.h)

    A pin always has a value: its own dummy signal, or the value of the
    signal it is linked to.  Legacy pins are also reached through a pointer
    cell of the component ([hs_cells]), kept in step with [p_data_ptr]. *)
From S2P Require Import Prelude HalData HalMemory HalObject.

(** ** Types and directions (hal_accessor.c) *)
Definition hal_valid_type (type : Z) : bool :=
  (type =? HAL_BIT) || (type =? HAL_FLOAT) || (type =? HAL_S32)
  || (type =? HAL_U32) || (type =? HAL_S64) || (type =? HAL_U64).

Definition hal_valid_dir (dir : Z) : bool :=
  (dir =? HAL_IN) || (dir =? HAL_OUT) || (dir =? HAL_IO).

Definition hals_type (type : Z) : string :=
  if type =? HAL_BIT then "bit" else if type =? HAL_FLOAT then "float"
  else if type =? HAL_S32 then "s32" else if type =? HAL_U32 then "u32"
  else if type =? HAL_S64 then "s64" else if type =? HAL_U64 then "u64"
  else "*invalid*".

Definition hals_pindir (dir : Z) : string :=
  if dir =? HAL_IN then "in" else if dir =? HAL_OUT then "out"
  else if dir =? HAL_IO then "i/o" else "*invalid*".

(** ** Inline accessors (hal_priv.h) *)
Definition pin_is_linked (o : Z) (p : hal_pin) : bool :=
  negb (bool_decide (p_data_ptr p = ADummy o)).

(** Compares the offsets: [SHMOFF(sig)] is the address of the descriptor. *)
Definition pin_linked_to (p : hal_pin) (sig : Z) : bool := p_signal p =? sig.

Definition signal_of (p : hal_pin) : option Z :=
  if p_signal p =? 0 then None else Some (p_signal p).

Definition set_signal (p : hal_pin) (sig : Z) : hal_pin := pin_set_signal p sig.

Definition pin_set_unlinked (o : Z) (p : hal_pin) : hal_pin :=
  pin_set_data_ptr (pin_set_signal p 0) (ADummy o).

(** Where a pin's value is. *)
Definition pin_value (o : Z) (p : hal_pin) : vaddr :=
  match signal_of p with Some s => ASig s | None => ADummy o end.

(** The typed copies of hal_priv.h, by type; [None]: no such case. *)
Definition copy_value (type : Z) (dst src : hal_data_u) : option hal_data_u :=
  if type =? HAL_BIT then Some (set_bit_value dst (get_bit_value src))
  else if type =? HAL_S32 then Some (set_s32_value dst (get_s32_value src))
  else if type =? HAL_U32 then Some (set_u32_value dst (get_u32_value src))
  else if type =? HAL_FLOAT then Some (set_float_value dst (get_float_value src))
  else None.

Section HalPin.
Context {H : Type} {HA : Allocator H} {PF : Platform}.
Abbreviation HM := (M (hal_state H)).

(** The word at a value address. *)
Definition load_value (a : vaddr) : HM hal_data_u :=
  match a with
  | ADummy o => p ← get_pin o; mret (p_dummysig p)
  | ASig o => s ← get_sig o; mret (s_value s)
  | AParam o => p ← get_param o; mret (pa_value p)
  | _ => crash
  end.

Definition store_value (a : vaddr) (f : hal_data_u -> hal_data_u) : HM unit :=
  match a with
  | ADummy o => p ← get_pin o; set_body o (BPin (pin_set_dummysig p (f (p_dummysig p))))
  | ASig o => s ← get_sig o; set_body o (BSig (sig_set_value s (f (s_value s))))
  | AParam o => p ← get_param o;
      set_body o (BParam (HalParam (f (pa_value p)) (pa_data_ptr p) (pa_type p) (pa_dir p)))
  | _ => crash
  end.

(** ** Typed accessors of v2 pins and signals (hal_accessor.h)

    [TYPE##_pin_ptr] is the offset of the descriptor. *)
Definition set_pin_with (f : hal_data_u -> Z -> hal_data_u) (o v : Z) : HM Z :=
  p ← get_pin o; store_value (p_data_ptr p) (fun u => f u v) ≫= fun _ => mret v.
Definition get_pin_with (f : hal_data_u -> Z) (o : Z) : HM Z :=
  p ← get_pin o; u ← load_value (p_data_ptr p); mret (f u).

Definition set_bit_pin := set_pin_with set_bit_value.
Definition set_s32_pin := set_pin_with set_s32_value.
Definition set_u32_pin := set_pin_with set_u32_value.
Definition set_s64_pin := set_pin_with set_s64_value.
Definition set_u64_pin := set_pin_with set_u64_value.
Definition set_float_pin := set_pin_with set_float_value.
Definition get_bit_pin := get_pin_with get_bit_value.
Definition get_s32_pin := get_pin_with get_s32_value.
Definition get_u32_pin := get_pin_with get_u32_value.
Definition get_s64_pin := get_pin_with get_s64_value.
Definition get_u64_pin := get_pin_with get_u64_value.
Definition get_float_pin := get_pin_with get_float_value.

(** [__atomic_add_fetch] *)
Definition incr_s32_pin (o v : Z) : HM Z :=
  p ← get_pin o; u ← load_value (p_data_ptr p);
  let n := s32 (get_s32_value u + v) in
  store_value (p_data_ptr p) (fun u => set_s32_value u n) ≫= fun _ => mret n.
Definition incr_u32_pin (o v : Z) : HM Z :=
  p ← get_pin o; u ← load_value (p_data_ptr p);
  let n := u32 (get_u32_value u + v) in
  store_value (p_data_ptr p) (fun u => set_u32_value u n) ≫= fun _ => mret n.

Definition set_sig_with (f : hal_data_u -> Z -> hal_data_u) (o v : Z) : HM Z :=
  store_value (ASig o) (fun u => f u v) ≫= fun _ => mret v.
Definition get_sig_with (f : hal_data_u -> Z) (o : Z) : HM Z :=
  u ← load_value (ASig o); mret (f u).

Definition bit_pin_null (o : Z) : bool := o =? 0.

(** ** Pins (hal_pin.c) *)
Definition zero_hal_data_u (type : Z) (u : hal_data_u) : HM hal_data_u :=
  if type =? HAL_BIT then mret (set_bit_value u 0)
  else if type =? HAL_FLOAT then mret (set_float_value u 0)
  else if type =? HAL_S32 then mret (set_s32_value u 0)
  else if type =? HAL_U32 then mret (set_u32_value u 0)
  else if type =? HAL_S64 then mret (set_s64_value u 0)
  else if type =? HAL_U64 then mret (set_u64_value u 0)
  else halfail EINVAL.

(** The pointer lies strictly inside the segment. *)
Definition SHMCHK (off : Z) : bool := (0 <? off) && (off <? hal_size).

(** [data_ptr_addr] is the offset of the pointer cell of a legacy pin,
    [None] for NULL; [str] the formatted name. *)
Definition halg_pin_newfv (type dir : Z) (data_ptr_addr : option Z) (owner_id : Z)
    (defval : hal_data_u) (str : option string) : HM Z :=
  CHECK_HALDATA ≫= fun _ =>
  CHECK_LOCK HAL_LOCK_LOAD ≫= fun _ =>
  str ← CHECK_NULL str;
  name ← fmt_ap (HAL_MAX_NAME_LEN + 1) str;
  if negb (hal_valid_type type) then halfail EINVAL
  else if negb (hal_valid_dir dir) then halfail EINVAL
  else
    dup ← halpr_find_pin_by_name name;
    match dup with
    | Some _ => halfail EEXIST
    | None =>
        comp ← halpr_find_owning_comp owner_id;
        match comp with
        | None => halfail EINVAL
        | Some c =>
            if match data_ptr_addr with Some a => negb (SHMCHK a) | None => false end
            then halfail EINVAL
            else
              new ← halg_create_objectf HAL_PIN owner_id name;
              set_body new (BPin (HalPin data_ptr_addr (ADummy new) 0 defval type dir 0 0))
              ≫= fun _ =>
              match data_ptr_addr with
              | Some a =>
                  cb ← get_comp c;
                  upd_hdr new hh_set_legacy ≫= fun _ =>
                  modify (fun s => set_cells (<[a := (c_shmem_base cb, ADummy new)]> (hs_cells s)) s)
              | None => mret tt
              end ≫= fun _ =>
              halg_add_object new ≫= fun _ =>
              mret new
        end
    end.

(** The wrappers return 0 or [_halerrno]. *)
Definition rc_of_ptr {A} (m : HM A) : HM Z :=
  r ← attempt m;
  match r with
  | Some _ => mret 0
  | None => s ← get; mret (hs_halerrno s)
  end.

Definition hal_pin_newf (type dir : Z) (data_ptr_addr : option Z) (owner_id : Z)
    (str : option string) : HM Z :=
  rc_of_ptr (halg_pin_newfv type dir data_ptr_addr owner_id 0 str).

Definition hal_pin_bit_newf (dir : Z) := hal_pin_newf HAL_BIT dir.
Definition hal_pin_float_newf (dir : Z) := hal_pin_newf HAL_FLOAT dir.
Definition hal_pin_u32_newf (dir : Z) := hal_pin_newf HAL_U32 dir.
Definition hal_pin_s32_newf (dir : Z) := hal_pin_newf HAL_S32 dir.
Definition hal_pin_u64_newf (dir : Z) := hal_pin_newf HAL_U64 dir.
Definition hal_pin_s64_newf (dir : Z) := hal_pin_newf HAL_S64 dir.

Definition halg_pin_newf (type dir : Z) (data_ptr_addr : option Z) (owner_id : Z)
    (str : option string) : HM Z :=
  halg_pin_newfv type dir data_ptr_addr owner_id 0 str.

(** v2 pins: an offset, 0 on failure ([hal_off_safe]). *)
Definition halxd_pin_newf (type dir owner_id : Z) (defval : hal_data_u) (str : option string)
  : HM Z :=
  r ← attempt (halg_pin_newfv type dir None owner_id defval str);
  mret (match r with Some p => p | None => 0 end).
Definition halx_pin_newf (type dir owner_id : Z) (str : option string) : HM Z :=
  halxd_pin_newf type dir owner_id 0 str.

Definition halx_pin_bit_newf := halx_pin_newf HAL_BIT.
Definition halx_pin_float_newf := halx_pin_newf HAL_FLOAT.
Definition halx_pin_u32_newf := halx_pin_newf HAL_U32.
Definition halx_pin_s32_newf := halx_pin_newf HAL_S32.
Definition halx_pin_u64_newf := halx_pin_newf HAL_U64.
Definition halx_pin_s64_newf := halx_pin_newf HAL_S64.
Definition halxd_pin_bit_newf (dir owner_id : Z) (def : Z) :=
  halxd_pin_newf HAL_BIT dir owner_id (set_bit_value 0 def).
Definition halxd_pin_float_newf (dir owner_id : Z) (def : Z) :=
  halxd_pin_newf HAL_FLOAT dir owner_id (set_float_value 0 def).
Definition halxd_pin_u32_newf (dir owner_id : Z) (def : Z) :=
  halxd_pin_newf HAL_U32 dir owner_id (set_u32_value 0 def).
Definition halxd_pin_s32_newf (dir owner_id : Z) (def : Z) :=
  halxd_pin_newf HAL_S32 dir owner_id (set_s32_value 0 def).
Definition halxd_pin_u64_newf (dir owner_id : Z) (def : Z) :=
  halxd_pin_newf HAL_U64 dir owner_id (set_u64_value 0 def).
Definition halxd_pin_s64_newf (dir owner_id : Z) (def : Z) :=
  halxd_pin_newf HAL_S64 dir owner_id (set_s64_value 0 def).

(** The pin's contribution to the counters of a signal. *)
Definition dir_readers (dir : Z) : Z := if Z.land dir HAL_IN =? 0 then 0 else 1.
Definition dir_writers (dir : Z) : Z := if dir =? HAL_OUT then 1 else 0.
Definition dir_bidirs (dir : Z) : Z := if dir =? HAL_IO then 1 else 0.

Definition sig_count (d : Z) (dir : Z) (s : hal_sig) : hal_sig :=
  sig_set_counts s (s32 (s_readers s + d * dir_readers dir))
    (s32 (s_writers s + d * dir_writers dir)) (s32 (s_bidirs s + d * dir_bidirs dir)).

(** Points the cell of a legacy pin at [a], as its component sees it. *)
Definition set_legacy_cell (o : Z) (a : vaddr) : HM unit :=
  ob ← get_obj o;
  p ← get_pin o;
  if hh_legacy (o_hdr ob) then
    comp ← halpr_find_owning_comp (hh_owner_id (o_hdr ob));
    match comp, p_data_ptr_addr p with
    | Some c, Some cell =>
        cb ← get_comp c;
        modify (fun s => set_cells (<[cell := (c_shmem_base cb, a)]> (hs_cells s)) s)
    | _, _ => crash
    end
  else mret tt.

Definition unlink_pin (o : Z) : HM unit :=
  p ← get_pin o;
  if pin_is_linked o p then
    set_legacy_cell o (ADummy o) ≫= fun _ =>
    s ← match signal_of p with Some sig => get_sig sig | None => crash end;
    let dummy := match copy_value (p_type p) (p_dummysig p) (s_value s) with
                 | Some u => u
                 | None => p_dummysig p   (* error message only *)
                 end in
    set_body (p_signal p) (BSig (sig_count (-1) (p_dir p) s)) ≫= fun _ =>
    set_body o (BPin (pin_set_unlinked o (pin_set_dummysig p dummy)))
  else mret tt.

Definition free_pin_struct (o : Z) : HM unit :=
  if o =? 0 then mret tt
  else unlink_pin o ≫= fun _ => ignore (halg_free_object o).
End HalPin.
