(* ===== verification/HalSignal.v ===== *)
(** * HAL signals and links (hal/src/hal_signal.c, parts of hal_object.c) *)
From S2P Require Import Prelude HalData HalMemory HalObject HalPin.

Section HalSignal.
Context {H : Type} {HA : Allocator H} {PF : Platform}.
Abbreviation HM := (M (hal_state H)).

Definition halg_signal_new (name : option string) (type : Z) : HM Z :=
  CHECK_HALDATA ≫= fun _ =>
  CHECK_LOCK HAL_LOCK_CONFIG ≫= fun _ =>
  name ← CHECK_STRLEN name HAL_NAME_LEN;
  dup ← halpr_find_sig_by_name name;
  match dup with
  | Some _ => halfail EINVAL
  | None =>
      new ← halg_create_objectf HAL_SIGNAL 0 name;
      s ← get_sig new;
      match (if type =? HAL_BIT then Some (set_bit_value (s_value s) 0)
             else if type =? HAL_S32 then Some (set_s32_value (s_value s) 0)
             else if type =? HAL_U32 then Some (set_u32_value (s_value s) 0)
             else if type =? HAL_FLOAT then Some (set_float_value (s_value s) 0)
             else None) with
      | None => ignore (halg_free_object new) ≫= fun _ => halfail EINVAL
      | Some v =>
          set_body new (BSig (HalSig type v 0 0 0)) ≫= fun _ =>
          halg_add_object new ≫= fun _ => mret 0
      end
  end.

(** ** Pins of a signal *)

(** [user_ptr1] is the signal, [user_ptr2] the callback. *)
Definition pin_by_signal_callback {A} (sig : Z) (cb : option (Z -> Z -> A -> HM (Z * A)))
    (o : Z) (a : A) : HM (Z * A) :=
  p ← get_pin o;
  if pin_linked_to p sig then
    match cb with Some cb => cb o sig a | None => mret (0, a) end
  else mret (0, a).

Definition halg_foreach_pin_by_signal {A} (sig : Z) (cb : option (Z -> Z -> A -> HM (Z * A)))
    (a : A) : HM (Z * A) :=
  halg_foreach (sel_type HAL_PIN) (pin_by_signal_callback sig cb) a.

(** The write barrier is set to the value of the read barrier. *)
Definition propagate_barriers_cb (o sig : Z) (_ : unit) : HM (Z * unit) :=
  sob ← get_obj sig;
  p ← get_pin o;
  let rmb := hh_rmb (o_hdr sob) in
  let wmb := hh_wmb (o_hdr sob) in
  (if p_dir p =? HAL_IN then
     if rmb then upd_hdr o (fun h => hh_set_rmb h rmb) else mret tt
   else if p_dir p =? HAL_OUT then
     if wmb then upd_hdr o (fun h => hh_set_wmb h rmb) else mret tt
   else if p_dir p =? HAL_IO then
     (if rmb then upd_hdr o (fun h => hh_set_rmb h rmb) else mret tt) ≫= fun _ =>
     (if wmb then upd_hdr o (fun h => hh_set_wmb h rmb) else mret tt)
   else mret tt) ≫= fun _ =>
  mret (0, tt).

Definition halg_signal_propagate_barriers (sig : Z) : HM Z :=
  CHECK_HALDATA ≫= fun _ =>
  halg_foreach (sel_type HAL_PIN) (pin_by_signal_callback sig (Some propagate_barriers_cb)) tt
  ≫= fun _ => mret 0.

(** hal_object.c; -1 leaves a barrier as it is. *)
Definition halg_object_setbarriers (o : option Z) (read_barrier write_barrier : Z) : HM Z :=
  CHECK_HALDATA ≫= fun _ =>
  o ← CHECK_NULL o;
  ob ← get_obj o;
  if negb (hh_valid (o_hdr ob)) then halfail EINVAL
  else if ((hh_get_object_type ob =? HAL_PIN) || (hh_get_object_type ob =? HAL_PARAM))
          && hh_legacy (o_hdr ob) then halfail EINVAL
  else
    (if -1 <? read_barrier
     then upd_hdr o (fun h => hh_set_rmb h (negb (read_barrier =? 0))) else mret tt) ≫= fun _ =>
    (if -1 <? write_barrier
     then upd_hdr o (fun h => hh_set_wmb h (negb (write_barrier =? 0))) else mret tt) ≫= fun _ =>
    (if hh_get_object_type ob =? HAL_SIGNAL
     then ignore (halg_signal_propagate_barriers o) else mret tt) ≫= fun _ =>
    mret 0.

Definition halg_signal_setbarriers (name : option string) (read_barrier write_barrier : Z) : HM Z :=
  CHECK_HALDATA ≫= fun _ =>
  CHECK_LOCK HAL_LOCK_CONFIG ≫= fun _ =>
  name ← CHECK_STRLEN name HAL_MAX_NAME_LEN;
  sig ← halpr_find_sig_by_name name;
  match sig with
  | None => halfail ENOENT
  | Some sig =>
      ignore (halg_object_setbarriers (Some sig) read_barrier write_barrier) ≫= fun _ =>
      ignore (halg_signal_propagate_barriers sig) ≫= fun _ => mret 0
  end.

(** ** Linking *)

(** The signal takes the pin's value: [pin_value] is the dummy, as the pin
    refers to no signal yet. *)
Definition inherit_value (sig o : Z) (p : hal_pin) : HM unit :=
  hdu ← load_value (pin_value o p);
  s ← get_sig sig;
  match copy_value (p_type p) (s_value s) hdu with
  | Some u => set_body sig (BSig (sig_set_value s u))
  | None => halfail EINVAL
  end.

Definition halg_link (pin_name sig_name : option string) : HM Z :=
  CHECK_HALDATA ≫= fun _ =>
  CHECK_LOCK HAL_LOCK_CONFIG ≫= fun _ =>
  pin_name ← CHECK_STRLEN pin_name HAL_NAME_LEN;
  sig_name ← CHECK_STRLEN sig_name HAL_NAME_LEN;
  pin ← halpr_find_pin_by_name pin_name;
  match pin with
  | None => halfail EINVAL
  | Some o =>
  sig ← halpr_find_sig_by_name sig_name;
  match sig with
  | None => halfail EINVAL
  | Some sig =>
  p ← get_pin o;
  s ← get_sig sig;
  if pin_linked_to p sig then mret 0
  else if pin_is_linked o p then halfail EINVAL
  else if negb (p_type p =? s_type s) then halfail EINVAL
  else if (p_dir p =? HAL_OUT) && ((0 <? s_writers s) || (0 <? s_bidirs s)) then halfail EINVAL
  else if (p_dir p =? HAL_IO) && (0 <? s_writers s) then halfail EINVAL
  else
    set_legacy_cell o (ASig sig) ≫= fun _ =>
    set_body o (BPin (pin_set_data_ptr p (ASig sig))) ≫= fun _ =>
    (if (p_dir p =? HAL_OUT) || (s32 (s_readers s + s_writers s + s_bidirs s) =? 0)
     then inherit_value sig o p else mret tt) ≫= fun _ =>
    s ← get_sig sig;
    set_body sig (BSig (sig_count 1 (p_dir p) s)) ≫= fun _ =>
    set_body o (BPin (set_signal (pin_set_data_ptr p (ASig sig)) sig)) ≫= fun _ =>
    ignore (halg_signal_propagate_barriers sig) ≫= fun _ => mret 0
  end
  end.

Definition halg_unlink (pin_name : option string) : HM Z :=
  CHECK_HALDATA ≫= fun _ =>
  CHECK_LOCK HAL_LOCK_CONFIG ≫= fun _ =>
  pin_name ← CHECK_STRLEN pin_name HAL_NAME_LEN;
  pin ← halpr_find_pin_by_name pin_name;
  match pin with
  | None => halfail EINVAL
  | Some o => unlink_pin o ≫= fun _ => mret 0
  end.

(** ** Deletion *)
Definition unlink_pin_callback (o sig : Z) (_ : unit) : HM (Z * unit) :=
  unlink_pin o ≫= fun _ => mret (0, tt).

(** The pins are unlinked even when the signal is still referenced. *)
Definition free_sig_struct (sig : Z) : HM unit :=
  halg_foreach_pin_by_signal sig (Some unlink_pin_callback) tt ≫= fun _ =>
  halg_free_object sig.

Definition halg_signal_delete (name : option string) : HM Z :=
  CHECK_HALDATA ≫= fun _ =>
  CHECK_LOCK HAL_LOCK_CONFIG ≫= fun _ =>
  name ← CHECK_STRLEN name HAL_NAME_LEN;
  sig ← halpr_find_sig_by_name name;
  match sig with
  | None => halfail ENOENT
  | Some sig => free_sig_struct sig ≫= fun _ => mret 0
  end.

(** ** Values by name (hal_lib.c): -1 when there is no such object *)
Definition hal_get_pin_value_by_name (name : string) : HM (option (bool * Z * vaddr)) :=
  pin ← halpr_find_pin_by_name name;
  match pin with
  | None => mret None
  | Some o => p ← get_pin o; mret (Some (pin_is_linked o p, p_type p, pin_value o p))
  end.

Definition hal_get_signal_value_by_name (name : string) : HM (option (bool * Z * vaddr)) :=
  sig ← halpr_find_sig_by_name name;
  match sig with
  | None => mret None
  | Some o => s ← get_sig o; mret (Some (negb (s_writers s =? 0), s_type s, ASig o))
  end.

Definition hal_get_param_value_by_name (name : string) : HM (option (Z * vaddr)) :=
  par ← halpr_find_param_by_name name;
  match par with
  | None => mret None
  | Some o => p ← get_param o; mret (Some (pa_type p, pa_data_ptr p))
  end.

(** ** Locking (hal_lib.c) *)
Definition hal_set_lock (lock_type : Z) : HM Z :=
  CHECK_HALDATA ≫= fun _ => modify (set_lock (u8 lock_type)) ≫= fun _ => mret 0.

(** The error code -EINVAL is truncated to the [unsigned char] result. *)
Definition hal_get_lock : HM Z := fun s =>
  if hs_init s then (Ok (hs_lock s), s) else (Ok (u8 (- EINVAL)), set_halerrno (- EINVAL) s).
End HalSignal.
