(* ===== verification/HalLinks.v ===== *)
(** * The link invariant of pins and signals

    [link_inv] holds in every state the pin and signal operations reach: a
    pin is unlinked and points to its dummy value, or it is linked to a
    valid listed signal of its type and points to that signal's value; the
    counters of a signal are the numbers of its linked pins by direction;
    at most one writer, and no bidirectional pin next to a writer. *)
From S2P Require Import Prelude HalData HalMemory HalObject HalObjectFacts HalPin HalSignal.

(** ** Counting pins *)
Definition contrib (f : Z -> Z) (m : gmap Z hal_obj) (sig o : Z) : Z :=
  match m !! o with
  | Some (HalObj _ (BPin p)) => if p_signal p =? sig then f (p_dir p) else 0
  | _ => 0
  end.

(** The sum of [f dir] over the pins of the list linked to [sig]. *)
Definition total (f : Z -> Z) (m : gmap Z hal_obj) (sig : Z) (l : list Z) : Z :=
  foldr Z.add 0 (map (contrib f m sig) l).

Lemma total_ext f m m' sig l :
  (forall o, o ∈ l -> contrib f m' sig o = contrib f m sig o) -> total f m' sig l = total f m sig l.
Proof.
  intros Hc. unfold total. f_equal. apply map_ext_in. intros o Ho. apply Hc. by apply list_elem_of_In.
Qed.

Lemma total_insert f m sig l o ob :
  NoDup l -> o ∈ l ->
  total f (<[o := ob]> m) sig l
  = total f m sig l - contrib f m sig o + contrib f (<[o := ob]> m) sig o.
Proof.
  intros Hn Ho. induction l as [| x l IH]; [by apply not_elem_of_nil in Ho |].
  apply NoDup_cons in Hn as [Hx Hn]. unfold total in *. simpl.
  destruct (decide (x = o)) as [-> |].
  - assert (foldr Z.add 0 (map (contrib f (<[o := ob]> m) sig) l)
            = foldr Z.add 0 (map (contrib f m sig) l)) as ->.
    { apply total_ext. intros y Hy. unfold contrib. rewrite lookup_insert_ne; [done |].
      intros ->. done. }
    lia.
  - apply elem_of_cons in Ho as [-> | Ho]; [done |]. rewrite IH by done.
    assert (contrib f (<[o := ob]> m) sig x = contrib f m sig x) as ->.
    { unfold contrib. by rewrite lookup_insert_ne. }
    lia.
Qed.

Lemma total_bounds f m sig l :
  (forall d, 0 <= f d <= 1) -> 0 <= total f m sig l <= Z.of_nat (length l).
Proof.
  intros Hf. induction l as [| x l IH]; unfold total in *; simpl; [lia |].
  assert (0 <= contrib f m sig x <= 1).
  { unfold contrib. repeat case_match; try lia. apply Hf. }
  lia.
Qed.

Lemma total_ge f m sig l o :
  (forall d, 0 <= f d <= 1) -> o ∈ l -> contrib f m sig o <= total f m sig l.
Proof.
  intros Hf Ho. induction l as [| x l IH]; [by apply not_elem_of_nil in Ho |].
  pose proof (total_bounds f m sig l Hf) as Hb. unfold total in *. simpl.
  assert (0 <= contrib f m sig x <= 1).
  { unfold contrib. repeat case_match; try lia. apply Hf. }
  apply elem_of_cons in Ho as [-> | Ho]; [lia | apply IH in Ho; lia].
Qed.

Lemma dir_bounds d : 0 <= dir_readers d <= 1 /\ 0 <= dir_writers d <= 1 /\ 0 <= dir_bidirs d <= 1.
Proof. unfold dir_readers, dir_writers, dir_bidirs. repeat case_match; lia. Qed.

(** The addresses of descriptors are positive [int]s: the list is short. *)
Lemma length_offsets (l : list Z) n :
  NoDup l -> (forall o, o ∈ l -> 0 < o < n) -> Z.of_nat (length l) < n \/ l = [].
Proof.
  intros Hn Hl. destruct l as [| x l0] eqn:El; [by right | left]. rewrite <- El in *.
  assert (x ∈ l) as Hx by (subst; left).
  pose proof (Hl x Hx).
  assert (map Z.to_nat l ⊆+ seq 1 (Z.to_nat n - 1)) as Hs.
  { apply NoDup_submseteq.
    - apply NoDup_fmap_2_strong; [| done]. intros a b Ha%Hl Hb%Hl. lia.
    - intros a Ha. apply list_elem_of_fmap in Ha as (b & -> & Hb%Hl). apply elem_of_seq. lia. }
  apply submseteq_length in Hs. rewrite length_map, length_seq in Hs. lia.
Qed.

(** ** Lookups are stable *)
Section Stable.
Context {H : Type}.
Implicit Types s : hal_state H.

Lemma find_obj_insert f s o ob ob' :
  hs_objs s !! o = Some ob -> f ob' = f ob ->
  find_obj f (set_objs (<[o := ob']> (hs_objs s)) s) = find_obj f s.
Proof.
  intros Ho Hf. unfold find_obj. simpl. induction (hs_halobjects s) as [| x l IH]; simpl; [done |].
  rewrite IH. f_equal. unfold obj_test. simpl. destruct (decide (x = o)) as [-> |].
  - by rewrite lookup_insert_eq, Ho, Hf.
  - by rewrite lookup_insert_ne.
Qed.

(** Headers that no lookup tells apart. *)
Definition same_key (ob ob' : hal_obj) : Prop :=
  hh_id (o_hdr ob') = hh_id (o_hdr ob) /\ hh_owner_id (o_hdr ob') = hh_owner_id (o_hdr ob) /\
  hh_name (o_hdr ob') = hh_name (o_hdr ob) /\ hh_valid (o_hdr ob') = hh_valid (o_hdr ob) /\
  hh_get_object_type ob' = hh_get_object_type ob.

Lemma same_key_sel ob ob' sel : same_key ob ob' -> sel_ok sel ob' = sel_ok sel ob.
Proof.
  intros (Hi & Ho & Hn & Hv & Ht). unfold sel_ok, match_hdr, match_name, hh_get_name.
  by rewrite Hi, Ho, Hn, Hv, Ht.
Qed.

Lemma owning_comp_insert s o ob ob' id :
  hs_objs s !! o = Some ob -> same_key ob ob' ->
  owning_comp (set_objs (<[o := ob']> (hs_objs s)) s) id = owning_comp s id.
Proof.
  intros Ho Hk. unfold owning_comp.
  rewrite !(find_obj_insert _ s o ob ob') by (done || by apply same_key_sel).
  destruct (find_obj _ s) as [i |]; [| done]. simpl.
  destruct (decide (i = o)) as [-> |].
  - rewrite lookup_insert_eq, Ho. pose proof Hk as (_ & -> & _).
    by rewrite (find_obj_insert _ s o ob ob') by (done || by apply same_key_sel).
  - rewrite lookup_insert_ne by done. destruct (hs_objs s !! i); [| done].
    by rewrite (find_obj_insert _ s o ob ob') by (done || by apply same_key_sel).
Qed.

(** Some listed instance or component answers to the owner id. *)
Definition resolves s (id : Z) : Prop :=
  exists o ob, o ∈ hs_halobjects s /\ hs_objs s !! o = Some ob /\
    (sel_ok (sel_type_id HAL_INST id) ob = true \/ sel_ok (sel_type_id HAL_COMPONENT id) ob = true).

(** Every valid instance has its component. *)
Definition insts_ok s : Prop :=
  forall o h i, o ∈ hs_halobjects s -> hs_objs s !! o = Some (HalObj h (BInst i)) ->
    hh_valid h = true ->
    exists c cob, c ∈ hs_halobjects s /\ hs_objs s !! c = Some cob /\
      sel_ok (sel_type_id HAL_COMPONENT (hh_owner_id h)) cob = true.

Lemma sel_id_type t id ob :
  t <> 0 -> sel_ok (sel_type_id t id) ob = true ->
  hh_valid (o_hdr ob) = true /\ hh_get_object_type ob = t.
Proof.
  intros Ht. unfold sel_ok, match_hdr, match_field. simpl.
  rewrite !andb_true_iff, orb_true_iff, !Z.eqb_eq. intuition congruence.
Qed.

(** The owner lookup never fails its assertion, and finds what resolves. *)
Lemma owning_comp_total s id :
  insts_ok s -> exists r, owning_comp s id = Some r /\
    (forall c, r = Some c -> exists h cb, hs_objs s !! c = Some (HalObj h (BComp cb))) /\
    (resolves s id <-> is_Some r).
Proof.
  intros Hi. unfold owning_comp.
  assert (forall id c, find_obj (sel_ok (sel_type_id HAL_COMPONENT id)) s = Some c ->
    exists h cb, hs_objs s !! c = Some (HalObj h (BComp cb))) as Hc.
  { intros id' c (_ & [h b] & Hob & Hs)%find_obj_some. apply sel_id_type in Hs as [_ Ht]; [| done].
    apply body_comp in Ht as [cb Hb]. simpl in Hb. subst b. eauto. }
  destruct (find_obj (sel_ok (sel_type_id HAL_INST id)) s) as [i |] eqn:Ei.
  - pose proof Ei as (Hin & [h b] & Hob & Hs)%find_obj_some.
    pose proof Hs as [Hv Ht]%sel_id_type; [| done].
    apply body_inst in Ht as [ib Hb]. simpl in Hb. subst b.
    destruct (Hi _ _ _ Hin Hob Hv) as (c & cob & Hcl & Hcob & Hcs). rewrite Hob. simpl.
    destruct (find_obj_exists (sel_ok (sel_type_id HAL_COMPONENT (hh_owner_id h))) s _ _ Hcl Hcob Hcs)
      as [c' Hc']. rewrite Hc'. exists (Some c'). split; [done |]. split; [intros ? [= <-]; eauto |].
    split; [by eauto |]. intros _. exists i, (HalObj h (BInst ib)). auto.
  - exists (find_obj (sel_ok (sel_type_id HAL_COMPONENT id)) s). split; [done |].
    split; [eauto |]. split.
    + intros (o & ob & Ho & Hob & [Hs | Hs]).
      * pose proof (find_obj_none _ _ _ _ Ei Ho Hob). congruence.
      * by eapply find_obj_exists.
    + intros [c Hf]. apply find_obj_some in Hf as (Hin & ob & Hob & Hs). exists c, ob. auto.
Qed.

Lemma resolves_insert s o ob ob' id :
  hs_objs s !! o = Some ob -> same_key ob ob' ->
  resolves s id -> resolves (set_objs (<[o := ob']> (hs_objs s)) s) id.
Proof.
  intros Ho Hk (x & xob & Hx & Hxob & Hs). unfold resolves. simpl.
  destruct (decide (x = o)) as [-> |].
  - exists o, ob'. rewrite lookup_insert_eq. rewrite Ho in Hxob. simplify_eq.
    split; [done |]. split; [done |]. by rewrite !(same_key_sel xob ob').
  - exists x, xob. by rewrite lookup_insert_ne.
Qed.

Lemma insts_ok_insert s o ob ob' :
  hs_objs s !! o = Some ob -> same_key ob ob' ->
  (forall h i, ob' = HalObj h (BInst i) -> exists h' i', ob = HalObj h' (BInst i')) ->
  insts_ok s -> insts_ok (set_objs (<[o := ob']> (hs_objs s)) s).
Proof.
  intros Ho Hk Hb Hi x h i Hx Hxob Hv. simpl in *.
  assert (exists h0 i0, hs_objs s !! x = Some (HalObj h0 (BInst i0)) /\ hh_valid h0 = true /\
    hh_owner_id h0 = hh_owner_id h) as (h0 & i0 & Hx0 & Hv0 & Hown).
  { destruct (decide (x = o)) as [-> |].
    - rewrite lookup_insert_eq in Hxob. simplify_eq.
      destruct (Hb _ _ eq_refl) as (h0 & i0 & ->). destruct Hk as (_ & Hown & _ & Hval & _).
      simpl in *. exists h0, i0. split; [done |]. split; congruence.
    - rewrite lookup_insert_ne in Hxob by done. by exists h, i. }
  destruct (Hi _ _ _ Hx Hx0 Hv0) as (c & cob & Hc & Hcob & Hs). rewrite Hown in Hs.
  destruct (decide (c = o)) as [-> |].
  - exists o, ob'. rewrite lookup_insert_eq. rewrite Ho in Hcob. simplify_eq.
    split; [done |]. split; [done |]. by rewrite (same_key_sel cob ob').
  - exists c, cob. by rewrite lookup_insert_ne.
Qed.
End Stable.

(** ** The invariant *)
Section LinkInv.
Context {H : Type} {HA : Allocator H} {HS : AllocatorSpec H} {PF : Platform}.
Implicit Types s : hal_state H.

Definition pin_unlinked (o : Z) (p : hal_pin) : Prop := p_signal p = 0 /\ p_data_ptr p = ADummy o.

Definition pin_linked s (o : Z) (h : halhdr) (p : hal_pin) (sig : Z) : Prop :=
  p_signal p = sig /\ p_data_ptr p = ASig sig /\ hh_valid h = true /\ (o ∈ hs_halobjects s) /\
  (sig ∈ hs_halobjects s) /\
  exists hs sg, hs_objs s !! sig = Some (HalObj hs (BSig sg)) /\ hh_valid hs = true /\
    s_type sg = p_type p.

Record pin_ok s (o : Z) (h : halhdr) (p : hal_pin) : Prop := PinOk {
  pk_dir : hal_valid_dir (p_dir p) = true;
  pk_legacy : hh_legacy h = true -> is_Some (p_data_ptr_addr p);
  pk_owner : hh_valid h = true -> hh_legacy h = true -> resolves s (hh_owner_id h);
  pk_link : pin_unlinked o p \/ exists sig, pin_linked s o h p sig;
}.

Definition value_type (t : Z) : Prop := t = HAL_BIT \/ t = HAL_S32 \/ t = HAL_U32 \/ t = HAL_FLOAT.

Record sig_ok s (o : Z) (sg : hal_sig) : Prop := SigOk {
  sk_type : value_type (s_type sg);
  sk_readers : s_readers sg = total dir_readers (hs_objs s) o (hs_halobjects s);
  sk_writers : s_writers sg = total dir_writers (hs_objs s) o (hs_halobjects s);
  sk_bidirs : s_bidirs sg = total dir_bidirs (hs_objs s) o (hs_halobjects s);
  sk_one_writer : s_writers sg <= 1;
  sk_exclusive : 0 < s_writers sg -> s_bidirs sg = 0;
}.

Record link_inv s : Prop := LinkInv {
  li_wf : wf s;
  li_sorted : sorted s;
  li_pin_names : NoDup (type_names s HAL_PIN);
  li_sig_names : NoDup (type_names s HAL_SIGNAL);
  li_insts : insts_ok s;
  li_pins : forall o h p, hs_objs s !! o = Some (HalObj h (BPin p)) -> pin_ok s o h p;
  li_sigs : forall o h sg, o ∈ hs_halobjects s -> hs_objs s !! o = Some (HalObj h (BSig sg)) ->
    sig_ok s o sg;
}.

Lemma list_bound s : link_inv s -> Z.of_nat (length (hs_halobjects s)) < 2 ^ 31.
Proof.
  intros Hl. destruct (length_offsets (hs_halobjects s) (2 ^ 31)) as [| ->]; [apply Hl | | done | done].
  intros o Ho. apply (wf_objs _ (li_wf _ Hl)). by apply (wf_list _ (li_wf _ Hl)).
Qed.

(** The error number and the pointer cells are not part of it. *)
Lemma link_inv_errno s n : link_inv s -> link_inv (set_halerrno n s).
Proof.
  intros [Hw Hs Hp Hq Hins Hpins Hsigs]. split; try done.
  - destruct Hw. by split.
  - intros o h p Ho. destruct (Hpins o h p Ho). by split.
  - intros o h sg Hin Ho. destruct (Hsigs o h sg Hin Ho). by split.
Qed.

Lemma link_inv_cells s c : link_inv s -> link_inv (set_cells c s).
Proof.
  intros [Hw Hs Hp Hq Hins Hpins Hsigs]. split; try done.
  - destruct Hw. by split.
  - intros o h p Ho. destruct (Hpins o h p Ho). by split.
  - intros o h sg Hin Ho. destruct (Hsigs o h sg Hin Ho). by split.
Qed.

(** Updating a descriptor that stays the same for lookups and links. *)
Lemma link_inv_hdr s o h h' b :
  link_inv s -> hs_objs s !! o = Some (HalObj h b) ->
  same_key (HalObj h b) (HalObj h' b) -> hh_legacy h' = hh_legacy h ->
  link_inv (set_objs (<[o := HalObj h' b]> (hs_objs s)) s).
Proof.
  intros [Hw Hs Hp Hq Hins Hpins Hsigs] Ho Hk Hleg.
  pose proof Hk as (_ & Hown & Hname & Hval & Ht). simpl in Hown, Hname, Hval.
  assert (forall t, type_names (set_objs (<[o := HalObj h' b]> (hs_objs s)) s) t = type_names s t)
    as Hn.
  { intros t. eapply type_names_insert; [exact Ho | done | done |]. unfold hh_get_name. simpl.
    by rewrite Hname. }
  assert (forall f sig l, total f (<[o := HalObj h' b]> (hs_objs s)) sig l
                          = total f (hs_objs s) sig l) as Htot.
  { intros f sig l. apply total_ext. intros x _. unfold contrib.
    destruct (decide (x = o)) as [-> |]; [by rewrite lookup_insert_eq, Ho | by rewrite lookup_insert_ne]. }
  assert (forall x hx bx, <[o := HalObj h' b]> (hs_objs s) !! x = Some (HalObj hx bx) ->
    exists hx0, hs_objs s !! x = Some (HalObj hx0 bx) /\ hh_valid hx = hh_valid hx0 /\
      hh_legacy hx = hh_legacy hx0 /\ hh_owner_id hx = hh_owner_id hx0) as Hback.
  { intros x hx bx Hx. destruct (decide (x = o)) as [-> |].
    - rewrite lookup_insert_eq in Hx. simplify_eq. by exists h.
    - rewrite lookup_insert_ne in Hx by done. by exists hx. }
  assert (forall x hx bx, hs_objs s !! x = Some (HalObj hx bx) ->
    exists hx0, <[o := HalObj h' b]> (hs_objs s) !! x = Some (HalObj hx0 bx) /\
      hh_valid hx0 = hh_valid hx) as Hfwd.
  { intros x hx bx Hx. destruct (decide (x = o)) as [-> |].
    - rewrite lookup_insert_eq. rewrite Hx in Ho. simplify_eq. by exists h'.
    - rewrite lookup_insert_ne by done. by exists hx. }
  split.
  - by eapply wf_insert.
  - intros t. rewrite Hn. apply Hs.
  - by rewrite Hn.
  - by rewrite Hn.
  - eapply insts_ok_insert; [exact Ho | done | | done]. intros ? ? [= -> ->]. eauto.
  - intros x hx p Hx. simpl in Hx. destruct (Hback _ _ _ Hx) as (hx0 & Hx0 & Hv & Hl & Hown').
    destruct (Hpins _ _ _ Hx0) as [Hd Hlg Hoo Hlink]. split; [done | by rewrite Hl | |].
    + rewrite Hv, Hl, Hown'. intros Hv' Hl'.
      eapply resolves_insert; [exact Ho | done | auto].
    + destruct Hlink as [| (sig & Hs1 & Hs2 & Hs3 & Hs4 & Hs5 & hs & sg & Hs6 & Hs7 & Hs8)];
        [by left | right].
      exists sig. destruct (Hfwd _ _ _ Hs6) as (hs' & ? & ?).
      repeat split; try done; [congruence |]. exists hs', sg. split; [done |]. split; congruence.
  - intros x hx sg Hin Hx. simpl in Hx. destruct (Hback _ _ _ Hx) as (hx0 & Hx0 & _).
    destruct (Hsigs _ _ _ Hin Hx0). split; simpl; rewrite ?Htot; done.
Qed.

(** Moving one pin on or off a signal: the pin changes its link, the signal
    its counters (and value). *)
Definition on_sig (p : hal_pin) (sig d : Z) : Z := if p_signal p =? sig then d else 0.

Lemma link_inv_relink s o h p p' sig hs sg sg' :
  link_inv s ->
  hs_objs s !! o = Some (HalObj h (BPin p)) -> (o ∈ hs_halobjects s) -> hh_valid h = true ->
  hs_objs s !! sig = Some (HalObj hs (BSig sg)) -> (sig ∈ hs_halobjects s) -> hh_valid hs = true ->
  p_dir p' = p_dir p -> p_type p' = p_type p -> p_data_ptr_addr p' = p_data_ptr_addr p ->
  (p_signal p = 0 \/ p_signal p = sig) ->
  pin_unlinked o p' \/ (p_signal p' = sig /\ p_data_ptr p' = ASig sig /\ s_type sg = p_type p) ->
  s_type sg' = s_type sg ->
  s_readers sg' = s_readers sg - on_sig p sig (dir_readers (p_dir p)) + on_sig p' sig (dir_readers (p_dir p)) ->
  s_writers sg' = s_writers sg - on_sig p sig (dir_writers (p_dir p)) + on_sig p' sig (dir_writers (p_dir p)) ->
  s_bidirs sg' = s_bidirs sg - on_sig p sig (dir_bidirs (p_dir p)) + on_sig p' sig (dir_bidirs (p_dir p)) ->
  s_writers sg' <= 1 -> (0 < s_writers sg' -> s_bidirs sg' = 0) ->
  link_inv (set_objs (<[o := HalObj h (BPin p')]> (<[sig := HalObj hs (BSig sg')]> (hs_objs s))) s).
Proof.
  intros [Hw Hs Hp Hq Hins Hpins Hsigs] Ho Hol Hov Hsig Hsl Hsv Hdir Hty Haddr Hps Hp' Hsty Hr Hwr Hbi Hone Hex.
  assert (o <> sig) as Hne by (intros ->; congruence).
  assert (0 < sig) as Hpos by (apply (wf_objs _ Hw); eauto).
  set (s1 := set_objs (<[sig := HalObj hs (BSig sg')]> (hs_objs s)) s).
  assert (hs_objs s1 !! o = Some (HalObj h (BPin p))) as Ho1 by (simpl; by rewrite lookup_insert_ne).
  change (set_objs _ s) with (set_objs (<[o := HalObj h (BPin p')]> (hs_objs s1)) s1).
  assert (same_key (HalObj hs (BSig sg)) (HalObj hs (BSig sg'))) as Hk1 by done.
  assert (same_key (HalObj h (BPin p)) (HalObj h (BPin p'))) as Hk2 by done.
  assert (forall t, type_names (set_objs (<[o := HalObj h (BPin p')]> (hs_objs s1)) s1) t
                    = type_names s t) as Hn.
  { intros t. transitivity (type_names s1 t).
    - by apply (type_names_insert s1 o (HalObj h (BPin p))).
    - by apply (type_names_insert s sig (HalObj hs (BSig sg))). }
  assert (forall f x, (x = sig -> total f (<[o := HalObj h (BPin p')]> (hs_objs s1)) x (hs_halobjects s)
      = total f (hs_objs s) x (hs_halobjects s) - on_sig p sig (f (p_dir p)) + on_sig p' sig (f (p_dir p)))
    /\ (x <> sig -> 0 < x -> total f (<[o := HalObj h (BPin p')]> (hs_objs s1)) x (hs_halobjects s)
      = total f (hs_objs s) x (hs_halobjects s))) as Htot.
  { intros f x.
    assert (total f (hs_objs s1) x (hs_halobjects s) = total f (hs_objs s) x (hs_halobjects s)) as E1.
    { apply total_ext. intros y _. unfold contrib. simpl. destruct (decide (y = sig)) as [-> |].
      - by rewrite lookup_insert_eq, Hsig.
      - by rewrite lookup_insert_ne. }
    rewrite (total_insert _ _ _ _ o) by (done || apply Hw). rewrite E1.
    assert (contrib f (hs_objs s1) x o = on_sig p x (f (p_dir p))) as ->
      by (unfold contrib; by rewrite Ho1).
    assert (contrib f (<[o := HalObj h (BPin p')]> (hs_objs s1)) x o = on_sig p' x (f (p_dir p)))
      as -> by (unfold contrib; by rewrite lookup_insert_eq, Hdir).
    unfold on_sig. split.
    - intros ->. lia.
    - intros Hx Hx0.
      assert ((p_signal p =? x) = false) as -> by (apply Z.eqb_neq; lia).
      assert ((p_signal p' =? x) = false) as -> by (apply Z.eqb_neq; destruct Hp' as [[] | []]; lia).
      lia. }
  assert (forall x hx px, <[o := HalObj h (BPin p')]> (hs_objs s1) !! x = Some (HalObj hx (BPin px)) ->
    (x = o /\ hx = h /\ px = p') \/ (x <> o /\ hs_objs s !! x = Some (HalObj hx (BPin px)))) as Hpinv.
  { intros x hx px Hx. destruct (decide (x = o)) as [-> |].
    - rewrite lookup_insert_eq in Hx. simplify_eq. by left.
    - rewrite lookup_insert_ne in Hx by done. simpl in Hx. right. split; [done |].
      destruct (decide (x = sig)) as [-> |]; [by rewrite lookup_insert_eq in Hx |].
      by rewrite lookup_insert_ne in Hx. }
  assert (forall x hx sx, hs_objs s !! x = Some (HalObj hx (BSig sx)) -> exists sx',
    <[o := HalObj h (BPin p')]> (hs_objs s1) !! x = Some (HalObj hx (BSig sx')) /\
    s_type sx' = s_type sx) as Hsinv.
  { intros x hx sx Hx. rewrite lookup_insert_ne by (intros ->; congruence). simpl.
    destruct (decide (x = sig)) as [-> |].
    - rewrite lookup_insert_eq. rewrite Hx in Hsig. simplify_eq. eauto.
    - rewrite lookup_insert_ne by done. eauto. }
  assert (wf s1) as Hw1 by (by eapply wf_insert).
  split.
  - by eapply wf_insert.
  - intros t. rewrite Hn. apply Hs.
  - by rewrite Hn.
  - by rewrite Hn.
  - eapply insts_ok_insert; [exact Ho1 | done | done |].
    eapply insts_ok_insert; [exact Hsig | done | done | done].
  - intros x hx px Hx. simpl in Hx. destruct (Hpinv _ _ _ Hx) as [(-> & -> & ->) | [Hxo Hx0]].
    + destruct (Hpins _ _ _ Ho) as [Hd Hlg Hoo _]. split.
      * by rewrite Hdir.
      * by rewrite Haddr.
      * intros Hv Hl. eapply resolves_insert; [exact Ho1 | done |].
        eapply resolves_insert; [exact Hsig | done | auto].
      * destruct Hp' as [| (? & ? & ?)]; [by left | right]. exists sig.
        repeat split; try done. destruct (Hsinv _ _ _ Hsig) as (sx' & Hsx' & Ht').
        exists hs, sx'. split; [done |]. split; [done |]. congruence.
    + destruct (Hpins _ _ _ Hx0) as [Hd Hlg Hoo Hlink]. split; [done | done | |].
      * intros Hv Hl. eapply resolves_insert; [exact Ho1 | done |].
        eapply resolves_insert; [exact Hsig | done | auto].
      * destruct Hlink as [| (sig2 & Hs1 & Hs2 & Hs3 & Hs4 & Hs5 & hs2 & sg2 & Hs6 & Hs7 & Hs8)];
          [by left | right].
        exists sig2. repeat split; try done.
        destruct (Hsinv _ _ _ Hs6) as (sx' & Hsx' & Ht'). exists hs2, sx'.
        split; [done |]. split; [done |]. congruence.
  - intros x hx sx Hin Hx. simpl in Hin, Hx.
    assert (x <> o) as Hxo by (intros ->; by rewrite lookup_insert_eq in Hx).
    rewrite lookup_insert_ne in Hx by done. simpl in Hx.
    destruct (decide (x = sig)) as [-> |].
    + rewrite lookup_insert_eq in Hx. simplify_eq.
      destruct (Hsigs _ _ _ Hin Hsig) as [Ht Er Ew Eb _ _].
      split; simpl; rewrite ?(proj1 (Htot _ _) eq_refl); try congruence; try done; lia.
    + rewrite lookup_insert_ne in Hx by done.
      destruct (Hsigs _ _ _ Hin Hx) as [Ht Er Ew Eb E1 E2].
      assert (0 < x) by (apply (wf_objs _ Hw); eauto).
      split; simpl; rewrite ?(proj2 (Htot _ _)) by done; done.
Qed.

(** ** Unlinking *)

(** The pointer cell of a legacy pin after it was pointed at [a]. *)
Definition cell_post s (h : halhdr) (p : hal_pin) (a : vaddr) (C : gmap Z (Z * vaddr)) : Prop :=
  if hh_legacy h then exists cell base, p_data_ptr_addr p = Some cell /\
                      C = <[cell := (base, a)]> (hs_cells s)
  else C = hs_cells s.

Lemma set_cells_id s : set_cells (hs_cells s) s = s.
Proof. by destruct s. Qed.

Lemma wp_set_legacy_cell o a s h p (Q : unit -> hal_state H -> Prop) E :
  wf s -> insts_ok s -> hs_objs s !! o = Some (HalObj h (BPin p)) ->
  (hh_legacy h = true -> resolves s (hh_owner_id h) /\ is_Some (p_data_ptr_addr p)) ->
  (forall C, cell_post s h p a C -> Q tt (set_cells C s)) ->
  wp (set_legacy_cell o a) Q E s.
Proof.
  intros Hw Hi Ho Hleg HQ. unfold set_legacy_cell. apply wp_bind. eapply wp_get_obj; [done |].
  apply wp_bind. eapply wp_get_pin; [done |]. unfold cell_post in HQ. simpl.
  destruct (hh_legacy h).
  - destruct (Hleg eq_refl) as [Hres [cell Hcell]].
    destruct (owning_comp_total s (hh_owner_id h) Hi) as (r & Hc & Hcb & Hr).
    apply Hr in Hres as [c ->]. destruct (Hcb c eq_refl) as (hc & cb & Hob).
    apply wp_bind. eapply wp_find_owning_comp; [apply Hw | apply Hw | exact Hc |].
    rewrite Hcell. apply wp_bind. eapply wp_get_comp; [exact Hob |]. apply wp_modify.
    apply HQ. by exists cell, (c_shmem_base cb).
  - apply wp_ret. rewrite <- (set_cells_id s). by apply HQ.
Qed.

Lemma copy_value_some t u v : value_type t -> is_Some (copy_value t u v).
Proof. intros [-> | [-> | [-> | ->]]]; unfold copy_value; simpl; eauto. Qed.

(** The counters stay in the range of an [int]. *)
Lemma sig_count_unlink s o h p sig sg :
  link_inv s -> (o ∈ hs_halobjects s) -> hs_objs s !! o = Some (HalObj h (BPin p)) ->
  p_signal p = sig -> sig_ok s sig sg ->
  let sg' := sig_count (-1) (p_dir p) sg in
  s_readers sg' = s_readers sg - dir_readers (p_dir p) /\
  s_writers sg' = s_writers sg - dir_writers (p_dir p) /\
  s_bidirs sg' = s_bidirs sg - dir_bidirs (p_dir p).
Proof.
  intros Hl Ho Hob Hsig [_ Er Ew Eb _ _] sg'. pose proof (list_bound _ Hl) as Hb.
  assert (forall f, (forall d, 0 <= f d <= 1) ->
    f (p_dir p) <= total f (hs_objs s) sig (hs_halobjects s) < 2 ^ 31) as Ht.
  { intros f Hf. pose proof (total_bounds f (hs_objs s) sig (hs_halobjects s) Hf).
    pose proof (total_ge f (hs_objs s) sig _ o Hf Ho) as Hge.
    unfold contrib at 1 in Hge. rewrite Hob, Hsig, Z.eqb_refl in Hge. lia. }
  pose proof (Ht dir_readers ltac:(apply dir_bounds)).
  pose proof (Ht dir_writers ltac:(apply dir_bounds)).
  pose proof (Ht dir_bidirs ltac:(apply dir_bounds)).
  pose proof (dir_bounds (p_dir p)).
  unfold sg', sig_count, sig_set_counts. cbn [s_readers s_writers s_bidirs].
  rewrite !wraps_small by (change (32 - 1) with 31; lia). lia.
Qed.

(** The state after a linked pin was unlinked. *)
Definition unlinked_state s (o : Z) h p hs sg (u : hal_data_u) (C : gmap Z (Z * vaddr)) : hal_state H :=
  set_objs (<[o := HalObj h (BPin (pin_set_unlinked o (pin_set_dummysig p u)))]>
           (<[p_signal p := HalObj hs (BSig (sig_count (-1) (p_dir p) sg))]> (hs_objs s)))
    (set_cells C s).

Lemma wp_unlink_pin o s h p (Q : unit -> hal_state H -> Prop) E :
  link_inv s -> hs_objs s !! o = Some (HalObj h (BPin p)) ->
  (pin_unlinked o p -> Q tt s) ->
  (forall hs sg u C, pin_linked s o h p (p_signal p) ->
     hs_objs s !! p_signal p = Some (HalObj hs (BSig sg)) ->
     copy_value (p_type p) (p_dummysig p) (s_value sg) = Some u ->
     cell_post s h p (ADummy o) C -> link_inv (unlinked_state s o h p hs sg u C) ->
     Q tt (unlinked_state s o h p hs sg u C)) ->
  wp (unlink_pin o) Q E s.
Proof.
  intros Hl Ho HU HQ. destruct (li_pins _ Hl _ _ _ Ho) as [Hd Hleg Hown Hlink].
  unfold unlink_pin. apply wp_bind. eapply wp_get_pin; [done |].
  destruct Hlink as [Hu | (sig & Hln)].
  - unfold pin_is_linked. destruct Hu as [Hu1 Hu2]. rewrite bool_decide_true by done.
    apply wp_ret. by apply HU.
  - pose proof Hln as (Es & Edp & Hv & Hol & Hsl & hs & sg & Hsig & Hsv & Hty). subst sig.
    unfold pin_is_linked. rewrite bool_decide_false by (rewrite Edp; discriminate). simpl.
    apply wp_bind. eapply wp_set_legacy_cell; [apply Hl | apply Hl | done | auto |]. intros C HC.
    assert (0 < p_signal p) by (apply (wf_objs _ (li_wf _ Hl)); eauto).
    unfold signal_of. destruct (p_signal p =? 0) eqn:E0; zb; [lia |].
    apply wp_bind. eapply wp_get_sig; [exact Hsig |].
    pose proof (li_sigs _ Hl _ _ _ Hsl Hsig) as Hsok.
    destruct (copy_value_some (p_type p) (p_dummysig p) (s_value sg)) as [u Hu].
    { rewrite <- Hty. apply Hsok. }
    rewrite Hu. apply wp_bind. eapply wp_set_body; [exact Hsig |].
    eapply wp_set_body.
    { simpl. rewrite lookup_insert_ne by (intros E1; rewrite E1 in Hsig; congruence). exact Ho. }
    apply (HQ hs sg u C); try done.
    destruct (sig_count_unlink s o h p (p_signal p) sg Hl Hol Ho eq_refl Hsok) as (Er & Ew & Eb).
    pose proof (dir_bounds (p_dir p)).
    assert (forall d, on_sig p (p_signal p) d = d) as On1
      by (intros d; unfold on_sig; by rewrite Z.eqb_refl).
    assert (forall d, on_sig (pin_set_unlinked o (pin_set_dummysig p u)) (p_signal p) d = 0) as On2.
    { intros d. unfold on_sig. change (p_signal (pin_set_unlinked _ _)) with 0.
      destruct (0 =? p_signal p) eqn:E1; zb; [lia | done]. }
    apply (link_inv_relink (set_cells C s) o h p
             (pin_set_unlinked o (pin_set_dummysig p u)) (p_signal p) hs sg); try done.
    + by apply link_inv_cells.
    + by right.
    + by left.
    + rewrite Er, On1, On2. lia.
    + rewrite Ew, On1, On2. lia.
    + rewrite Eb, On1, On2. lia.
    + destruct Hsok. lia.
    + destruct Hsok as [_ Er0 Ew0 Eb0 Hx1 Hx2]. rewrite Ew, Eb. intros Hpos.
      assert (s_bidirs sg = 0) as Hz by (apply Hx2; lia).
      pose proof (total_ge dir_bidirs (hs_objs s) (p_signal p) _ o ltac:(apply dir_bounds) Hol) as Hge.
      unfold contrib at 1 in Hge. rewrite Ho, Z.eqb_refl in Hge. lia.
Qed.

(** ** Linking *)
Lemma total_lt f m sig l o :
  (forall d, 0 <= f d <= 1) -> o ∈ l -> contrib f m sig o = 0 ->
  total f m sig l < Z.of_nat (length l).
Proof.
  intros Hf Ho Hc. induction l as [| x l IH]; [by apply not_elem_of_nil in Ho |].
  pose proof (total_bounds f m sig l Hf) as Hb. unfold total in *. simpl.
  assert (0 <= contrib f m sig x <= 1).
  { unfold contrib. repeat case_match; try lia. apply Hf. }
  apply elem_of_cons in Ho as [-> | Ho]; [lia | apply IH in Ho; lia].
Qed.

Lemma sig_count_link s o h p sig sg :
  link_inv s -> (o ∈ hs_halobjects s) -> hs_objs s !! o = Some (HalObj h (BPin p)) ->
  p_signal p <> sig -> sig_ok s sig sg ->
  let sg' := sig_count 1 (p_dir p) sg in
  s_readers sg' = s_readers sg + dir_readers (p_dir p) /\
  s_writers sg' = s_writers sg + dir_writers (p_dir p) /\
  s_bidirs sg' = s_bidirs sg + dir_bidirs (p_dir p).
Proof.
  intros Hl Ho Hob Hsig [_ Er Ew Eb _ _] sg'. pose proof (list_bound _ Hl) as Hb.
  assert (forall f, (forall d, 0 <= f d <= 1) ->
    0 <= total f (hs_objs s) sig (hs_halobjects s) < 2 ^ 31 - 1) as Ht.
  { intros f Hf. pose proof (total_bounds f (hs_objs s) sig (hs_halobjects s) Hf).
    assert (contrib f (hs_objs s) sig o = 0) as Hc.
    { unfold contrib. rewrite Hob. by apply Z.eqb_neq in Hsig as ->. }
    pose proof (total_lt f (hs_objs s) sig _ o Hf Ho Hc). lia. }
  pose proof (Ht dir_readers ltac:(apply dir_bounds)).
  pose proof (Ht dir_writers ltac:(apply dir_bounds)).
  pose proof (Ht dir_bidirs ltac:(apply dir_bounds)).
  pose proof (dir_bounds (p_dir p)).
  unfold sg', sig_count, sig_set_counts. cbn [s_readers s_writers s_bidirs].
  rewrite !wraps_small by (change (32 - 1) with 31; lia). lia.
Qed.

(** ** Barriers: only the barrier flags of pins change *)
Definition barrier_rel (ob ob' : hal_obj) : Prop :=
  o_body ob' = o_body ob /\ same_key ob ob' /\
  hh_legacy (o_hdr ob') = hh_legacy (o_hdr ob) /\ hh_refcnt (o_hdr ob') = hh_refcnt (o_hdr ob).

Definition barriers_changed s s' : Prop :=
  exists m, s' = set_objs m s /\ forall x, option_Forall2 barrier_rel (hs_objs s !! x) (m !! x).

Lemma barriers_refl s : barriers_changed s s.
Proof.
  exists (hs_objs s). split; [by destruct s |]. intros x.
  destruct (hs_objs s !! x); constructor. by repeat split.
Qed.

Lemma barriers_lookup s s' x h b :
  barriers_changed s s' -> hs_objs s !! x = Some (HalObj h b) ->
  exists h', hs_objs s' !! x = Some (HalObj h' b) /\ same_key (HalObj h b) (HalObj h' b) /\
    hh_legacy h' = hh_legacy h.
Proof.
  intros (m & -> & Hm) Hx. simpl. specialize (Hm x). rewrite Hx in Hm.
  inversion Hm as [ob1 [h' b'] Hr E1 E2 |]; subst. destruct Hr as (Hb & Hk & Hleg & _).
  simpl in *. subst b'. eauto.
Qed.

Lemma barriers_hdr s s' o h b f :
  barriers_changed s s' -> hs_objs s' !! o = Some (HalObj h b) ->
  (forall h, hh_id (f h) = hh_id h /\ hh_owner_id (f h) = hh_owner_id h /\ hh_name (f h) = hh_name h /\
     hh_valid (f h) = hh_valid h /\ hh_legacy (f h) = hh_legacy h /\ hh_refcnt (f h) = hh_refcnt h) ->
  barriers_changed s (set_objs (<[o := HalObj (f h) b]> (hs_objs s')) s').
Proof.
  intros (m & -> & Hm) Ho Hf. simpl in *. exists (<[o := HalObj (f h) b]> m). split; [done |].
  intros x. specialize (Hm x). destruct (decide (x = o)) as [-> |].
  - rewrite lookup_insert_eq. rewrite Ho in Hm. inversion Hm as [ob1 ? Hr E1 E2 |]; subst.
    constructor. destruct Hr as (Hb & (Hi & Hown & Hn & Hv & Ht) & Hleg & Hrc). simpl in *.
    destruct (Hf h) as (? & ? & ? & ? & ? & ?). unfold barrier_rel, same_key. simpl.
    repeat split; first [congruence | by rewrite <- Ht].
  - by rewrite lookup_insert_ne.
Qed.

Lemma wp_upd_barrier s0 s o h b f (Q : unit -> hal_state H -> Prop) E :
  barriers_changed s0 s -> link_inv s -> hs_objs s !! o = Some (HalObj h b) ->
  (forall h, hh_id (f h) = hh_id h /\ hh_owner_id (f h) = hh_owner_id h /\ hh_name (f h) = hh_name h /\
     hh_valid (f h) = hh_valid h /\ hh_legacy (f h) = hh_legacy h /\ hh_refcnt (f h) = hh_refcnt h) ->
  (forall s', barriers_changed s0 s' -> link_inv s' ->
     (exists h', hs_objs s' !! o = Some (HalObj h' b)) -> Q tt s') ->
  wp (upd_hdr o f) Q E s.
Proof.
  intros Hb Hl Ho Hf HQ. eapply wp_upd_hdr; [exact Ho |]. simpl.
  destruct (Hf h) as (? & ? & ? & ? & ? & ?).
  apply HQ.
  - by apply barriers_hdr.
  - by apply link_inv_hdr with (h := h).
  - exists (f h). simpl. apply lookup_insert_eq.
Qed.

Lemma wp_propagate_cb s0 s o sig h p hs b (E : Z -> hal_state H -> Prop) :
  barriers_changed s0 s -> link_inv s -> hs_objs s !! o = Some (HalObj h (BPin p)) ->
  hs_objs s !! sig = Some (HalObj hs b) ->
  wp (propagate_barriers_cb o sig tt)
     (fun ra s' => fst ra = 0 /\ barriers_changed s0 s' /\ link_inv s') E s.
Proof.
  intros Hb Hl Ho Hsig. unfold propagate_barriers_cb.
  apply wp_bind. eapply wp_get_obj; [exact Hsig |]. apply wp_bind. eapply wp_get_pin; [exact Ho |].
  simpl. apply wp_bind.
  assert (forall s1 (b0 b1 : bool) f Q E', barriers_changed s0 s1 -> link_inv s1 ->
    (exists h1, hs_objs s1 !! o = Some (HalObj h1 (BPin p))) -> (f = hh_set_rmb \/ f = hh_set_wmb) ->
    (forall s', barriers_changed s0 s' -> link_inv s' ->
       (exists h', hs_objs s' !! o = Some (HalObj h' (BPin p))) -> Q tt s') ->
    wp (if b0 then upd_hdr o (fun h => f h b1) else mret tt) Q E' s1) as Hstep.
  { intros s1 b0 b1 f Q E' Hb1 Hl1 (h1 & Ho1) Hf HQ. destruct b0; [| apply wp_ret; eauto].
    eapply wp_upd_barrier; [done | done | exact Ho1 | | exact HQ].
    intros h'. by destruct Hf as [-> | ->]. }
  assert (forall s', barriers_changed s0 s' -> link_inv s' ->
    wp (mret (0, tt)) (fun (ra : Z * unit) s' => fst ra = 0 /\ barriers_changed s0 s' /\ link_inv s')
      E s') as Hdone by (intros; by apply wp_ret).
  destruct (p_dir p =? HAL_IN); [by apply Hstep; eauto |].
  destruct (p_dir p =? HAL_OUT); [by apply Hstep; eauto |].
  destruct (p_dir p =? HAL_IO); [| by apply wp_ret; auto].
  apply wp_bind, Hstep; eauto.
Qed.

Lemma wp_propagate sig s hs b (Q : Z -> hal_state H -> Prop) E :
  link_inv s -> hs_objs s !! sig = Some (HalObj hs b) ->
  (forall s', barriers_changed s s' -> link_inv s' -> Q 0 s') ->
  wp (halg_signal_propagate_barriers sig) Q E s.
Proof.
  intros Hl Hsig HQ. unfold halg_signal_propagate_barriers.
  apply wp_bind, wp_check_haldata; [apply Hl |]. apply wp_bind. unfold halg_foreach.
  apply wp_bind, wp_hal_data; [apply Hl |].
  eapply wp_mono.
  - eapply (wp_foreach_all _ _ _ (fun l (_ : unit) s' => barriers_changed s s' /\ link_inv s' /\
      forall x, x ∈ l -> x ∈ hs_halobjects s)); [done | | split; [apply barriers_refl | done]].
    intros o l [] s' (Hb & Hl' & Hsub).
    assert (o ∈ hs_halobjects s) as Ho by (apply Hsub; left).
    destruct (wf_list _ (li_wf _ Hl) _ Ho) as [[h bd] Hob].
    destruct (barriers_lookup _ _ _ _ _ Hb Hob) as (h' & Ho' & _).
    exists (HalObj h' bd). split; [done |]. case_match eqn:Hsel.
    + apply sel_ok_type in Hsel as [_ Ht]; [| done].
      apply body_pin in Ht as [p Hp]. simpl in Hp. subst bd.
      unfold pin_by_signal_callback. apply wp_bind. eapply wp_get_pin; [exact Ho' |].
      assert (forall x, x ∈ l -> x ∈ hs_halobjects s) by (intros; apply Hsub; by right).
      case_match; [| apply wp_ret; done].
      destruct (barriers_lookup _ _ _ _ _ Hb Hsig) as (hs' & Hsig' & _).
      eapply wp_mono; [eapply wp_propagate_cb; [exact Hb | done | exact Ho' | exact Hsig'] | | done].
      intros [r []] s2. simpl. tauto.
    + split; [done |]. split; [done |]. intros x Hx. apply Hsub. by right.
  - simpl. intros [n []] s' (Hb & Hl' & _). by apply wp_ret, HQ.
  - done.
Qed.
End LinkInv.
