(* ===== verification/HalLinkOps.v ===== *)
(** * Linking, creating and deleting pins and signals: the operations
    preserve the link invariant and never crash *)
From S2P Require Import Prelude HalData HalMemory HalObject HalObjectFacts HalPin HalSignal HalLinks.

Section LinkOps.
Context {H : Type} {HA : Allocator H} {HS : AllocatorSpec H} {PF : Platform}.
Implicit Types s : hal_state H.

(** ** [halg_link] *)

(** The conditions under which the two can be linked. *)
Definition linkable (o : Z) (p : hal_pin) (sg : hal_sig) : bool :=
  negb (pin_is_linked o p) && (p_type p =? s_type sg)
  && negb ((p_dir p =? HAL_OUT) && ((0 <? s_writers sg) || (0 <? s_bidirs sg)))
  && negb ((p_dir p =? HAL_IO) && (0 <? s_writers sg)).

(** The first pin, or an output pin, gives the signal its value. *)
Definition inherits (p : hal_pin) (sg : hal_sig) : bool :=
  (p_dir p =? HAL_OUT) || (s32 (s_readers sg + s_writers sg + s_bidirs sg) =? 0).

Definition linked_sig (p : hal_pin) (sg : hal_sig) : hal_sig :=
  sig_count 1 (p_dir p)
    (if inherits p sg then
       match copy_value (p_type p) (s_value sg) (p_dummysig p) with
       | Some u => sig_set_value sg u | None => sg end
     else sg).

Definition linked_pin (sig : Z) (p : hal_pin) : hal_pin := set_signal (pin_set_data_ptr p (ASig sig)) sig.

Definition linked_state s o h p sig hs sg (C : gmap Z (Z * vaddr)) : hal_state H :=
  set_objs (<[o := HalObj h (BPin (linked_pin sig p))]>
           (<[sig := HalObj hs (BSig (linked_sig p sg))]> (hs_objs s))) (set_cells C s).

Lemma unlinked_iff s o h p : pin_ok s o h p -> pin_is_linked o p = false <-> pin_unlinked o p.
Proof.
  intros [_ _ _ Hlink]. unfold pin_is_linked. split.
  - rewrite negb_false_iff, bool_decide_eq_true. intros Hd.
    destruct Hlink as [| (sig & _ & Hd' & _)]; [done | congruence].
  - intros [_ Hd]. by rewrite bool_decide_true.
Qed.

Lemma linked_sig_fields p sg :
  s_type (linked_sig p sg) = s_type sg /\
  s_readers (linked_sig p sg) = s_readers (sig_count 1 (p_dir p) sg) /\
  s_writers (linked_sig p sg) = s_writers (sig_count 1 (p_dir p) sg) /\
  s_bidirs (linked_sig p sg) = s_bidirs (sig_count 1 (p_dir p) sg).
Proof. unfold linked_sig. repeat case_match; done. Qed.

Lemma link_inv_linked s o h p sig hs sg C :
  link_inv s -> hs_objs s !! o = Some (HalObj h (BPin p)) -> (o ∈ hs_halobjects s) ->
  hh_valid h = true -> hs_objs s !! sig = Some (HalObj hs (BSig sg)) ->
  (sig ∈ hs_halobjects s) -> hh_valid hs = true -> linkable o p sg = true ->
  link_inv (linked_state s o h p sig hs sg C).
Proof.
  intros Hl Ho Hol Hv Hsig Hsl Hsv Hlk.
  pose proof (li_pins _ Hl _ _ _ Ho) as Hpok. pose proof (li_sigs _ Hl _ _ _ Hsl Hsig) as Hsok.
  unfold linkable in Hlk. rewrite !andb_true_iff, !negb_true_iff in Hlk.
  destruct Hlk as [[[Hu Ht] Hout] Hio]. zb.
  apply (unlinked_iff _ _ _ _ Hpok) in Hu as [Hu1 Hu2].
  assert (0 < sig) as Hpos by (apply (wf_objs _ (li_wf _ Hl)); eauto).
  assert (p_signal p <> sig) as Hne by lia.
  destruct (linked_sig_fields p sg) as (Lt & Lr & Lw & Lb).
  destruct (sig_count_link s o h p sig sg Hl Hol Ho Hne Hsok) as (Er & Ew & Eb).
  assert (forall d, on_sig p sig d = 0) as On1
    by (intros d; unfold on_sig; by apply Z.eqb_neq in Hne as ->).
  assert (forall d, on_sig (linked_pin sig p) sig d = d) as On2.
  { intros d. unfold on_sig. change (p_signal (linked_pin sig p)) with sig. by rewrite Z.eqb_refl. }
  apply (link_inv_relink (set_cells C s) o h p (linked_pin sig p) sig hs sg); try done.
  - by apply link_inv_cells.
  - by left.
  - right. split; [done |]. split; [done |]. congruence.
  - rewrite Lr, Er, On1, On2. lia.
  - rewrite Lw, Ew, On1, On2. lia.
  - rewrite Lb, Eb, On1, On2. lia.
  - rewrite Lw, Ew. destruct Hsok as [_ _ _ _ H1 _]. unfold dir_writers.
    destruct (p_dir p =? HAL_OUT) eqn:E1; [| lia]. simpl in Hout.
    apply orb_false_iff in Hout as [Hout _]. zb. lia.
  - rewrite Lw, Ew, Lb, Eb. destruct Hsok as [_ _ Kw Kb H1 H2]. unfold dir_writers, dir_bidirs.
    pose proof (total_bounds dir_bidirs (hs_objs s) sig (hs_halobjects s) ltac:(apply dir_bounds)).
    destruct (p_dir p =? HAL_OUT) eqn:E1, (p_dir p =? HAL_IO) eqn:E2; simpl in Hout, Hio; zb.
    + unfold HAL_OUT, HAL_IO in *. lia.
    + apply orb_false_iff in Hout as [_ Hout]. zb. lia.
    + lia.
    + intros Hw. assert (s_bidirs sg = 0) by (apply H2; lia). lia.
Qed.

(** From the guards on: the pin and the signal were found. *)
Lemma wp_link pn sn s o h p sig hs sg (Q : Z -> hal_state H -> Prop) (E : Z -> hal_state H -> Prop) :
  link_inv s -> Z.land (hs_lock s) HAL_LOCK_CONFIG = 0 ->
  Z.of_nat (String.length pn) <= HAL_NAME_LEN -> Z.of_nat (String.length sn) <= HAL_NAME_LEN ->
  find_obj (sel_ok (sel_type_name HAL_PIN pn)) s = Some o ->
  hs_objs s !! o = Some (HalObj h (BPin p)) ->
  find_obj (sel_ok (sel_type_name HAL_SIGNAL sn)) s = Some sig ->
  hs_objs s !! sig = Some (HalObj hs (BSig sg)) ->
  (p_signal p = sig -> Q 0 s) ->
  (p_signal p <> sig -> linkable o p sg = false -> E (- EINVAL) (set_halerrno (- EINVAL) s)) ->
  (p_signal p <> sig -> linkable o p sg = true -> forall C s',
     cell_post s h p (ASig sig) C -> barriers_changed (linked_state s o h p sig hs sg C) s' ->
     link_inv s' -> Q 0 s') ->
  wp (halg_link (Some pn) (Some sn)) Q E s.
Proof.
  intros Hl Hlock Hpn Hsn Hfo Ho Hfs Hsig HQ1 HE HQ2. unfold halg_link.
  apply wp_bind, wp_check_haldata; [apply Hl |].
  apply wp_bind, wp_check_lock; [apply Hl | intros _ | done].
  apply wp_bind, wp_check_strlen; [| intros Hx; specialize (Hx pn eq_refl); lia].
  intros n [= <-] _.
  apply wp_bind, wp_check_strlen; [| intros Hx; specialize (Hx sn eq_refl); lia].
  intros n [= <-] _.
  apply wp_bind, wp_find_by_name; [apply Hl | apply Hl |]. rewrite Hfo.
  apply wp_bind, wp_find_by_name; [apply Hl | apply Hl |]. rewrite Hfs.
  apply wp_bind. eapply wp_get_pin; [exact Ho |]. apply wp_bind. eapply wp_get_sig; [exact Hsig |].
  unfold pin_linked_to. destruct (p_signal p =? sig) eqn:E1; zb; [by apply wp_ret, HQ1 |].
  pose proof Hfo as (Hol & ob & Hob & Hsel)%find_obj_some. rewrite Ho in Hob. injection Hob as <-.
  apply sel_ok_type_name in Hsel as (Hv & _ & _); [| done].
  pose proof Hfs as (Hsl & sob & Hsob & Hsel)%find_obj_some. rewrite Hsig in Hsob.
  injection Hsob as <-. apply sel_ok_type_name in Hsel as (Hsv & _ & _); [| done].
  simpl in Hv, Hsv.
  assert (linkable o p sg = false -> wp (halfail EINVAL) Q E s) as Hfail
    by (intros; by apply wp_halfail, HE).
  unfold linkable in Hfail, HQ2.
  destruct (pin_is_linked o p) eqn:Elk; [by apply Hfail |].
  destruct (p_type p =? s_type sg) eqn:Ety; [| by apply Hfail].
  destruct ((p_dir p =? HAL_OUT) && _) eqn:Eout; [by apply Hfail |].
  destruct ((p_dir p =? HAL_IO) && _) eqn:Eio; [by apply Hfail |]. cbn [negb].
  clear Hfail. specialize (HQ2 E1 eq_refl).
  assert (linkable o p sg = true) as Hlk by (unfold linkable; by rewrite Elk, Ety, Eout, Eio).
  pose proof (li_pins _ Hl _ _ _ Ho) as Hpok. pose proof (li_sigs _ Hl _ _ _ Hsl Hsig) as Hsok.
  assert (o <> sig) as Hne by (intros ->; congruence).
  apply wp_bind. eapply wp_set_legacy_cell; [apply Hl | apply Hl | exact Ho | |].
  { intros Hleg. split; [apply Hpok | apply Hpok]; done. }
  intros C HC. apply wp_bind. eapply wp_set_body; [exact Ho |]. simpl o_hdr.
  set (s1 := set_objs _ (set_cells C s)).
  assert (hs_objs s1 !! sig = Some (HalObj hs (BSig sg))) as Hsig1
    by (simpl; by rewrite lookup_insert_ne).
  assert (hs_objs s1 !! o = Some (HalObj h (BPin (pin_set_data_ptr p (ASig sig))))) as Ho1
    by (simpl; by rewrite lookup_insert_eq).
  (* the value *)
  set (sg1 := if inherits p sg then
       match copy_value (p_type p) (s_value sg) (p_dummysig p) with
       | Some u => sig_set_value sg u | None => sg end else sg).
  apply wp_bind. apply (wp_mono _ (fun _ s2 => s2 = set_objs (<[sig := HalObj hs (BSig sg1)]> (hs_objs s1)) s1)
    _ (fun _ _ => False)); [| | done].
  { unfold sg1, inherits. case_match eqn:Einh.
    - unfold inherit_value. apply (unlinked_iff _ _ _ _ Hpok) in Elk as [Hu _].
      unfold pin_value, signal_of. rewrite Hu. simpl load_value.
      apply wp_bind, wp_bind. eapply wp_get_pin; [exact Ho1 |]. apply wp_ret.
      apply wp_bind. eapply wp_get_sig; [exact Hsig1 |].
      destruct (copy_value_some (p_type p) (s_value sg) (p_dummysig p)) as [u Hu2].
      { zb. rewrite Ety. apply Hsok. }
      simpl p_dummysig. rewrite Hu2. eapply wp_set_body; [exact Hsig1 |]. done.
    - apply wp_ret. rewrite (insert_id (hs_objs s1) sig) by exact Hsig1. done. }
  intros [] s2 ->.
  assert (forall b, hs_objs (set_objs (<[sig := b]> (hs_objs s1)) s1) !! sig = Some b) as Hs2
    by (intros; simpl; by rewrite lookup_insert_eq).
  apply wp_bind. eapply wp_get_sig; [apply Hs2 |].
  apply wp_bind. eapply wp_set_body; [apply Hs2 |]. simpl o_hdr.
  apply wp_bind. eapply wp_set_body.
  { simpl. rewrite !lookup_insert_ne by done. by rewrite lookup_insert_eq. }
  assert (set_objs (<[o := HalObj h (BPin (linked_pin sig p))]>
      (<[sig := HalObj hs (BSig (sig_count 1 (p_dir p) sg1))]>
      (<[sig := HalObj hs (BSig sg1)]> (hs_objs s1)))) (set_cells C s)
    = linked_state s o h p sig hs sg C) as Hst.
  { unfold linked_state, s1. simpl. f_equal. apply map_eq. intros x.
    destruct (decide (x = o)) as [-> |]; [by rewrite !lookup_insert_eq |].
    rewrite !(lookup_insert_ne _ o) by done.
    destruct (decide (x = sig)) as [-> |]; [by rewrite !lookup_insert_eq |].
    by rewrite !lookup_insert_ne by done. }
  match goal with |- wp _ _ _ ?st => change st with (set_objs (<[o := HalObj h (BPin (linked_pin sig p))]>
      (<[sig := HalObj hs (BSig (sig_count 1 (p_dir p) sg1))]>
      (<[sig := HalObj hs (BSig sg1)]> (hs_objs s1)))) (set_cells C s)) end.
  rewrite Hst.
  apply wp_bind, wp_ignore. eapply wp_propagate.
  - by apply link_inv_linked.
  - unfold linked_state. simpl. rewrite lookup_insert_ne, lookup_insert_eq by done. done.
  - intros s' Hb Hl'. apply wp_ret. eapply HQ2; [exact HC | exact Hb | exact Hl'].
Qed.

(** ** New objects *)
Lemma total_perm f m sig l l' : l ≡ₚ l' -> total f m sig l = total f m sig l'.
Proof.
  intros Hp. unfold total. induction Hp; simpl; lia.
Qed.

Lemma total_zero f m sig l :
  (forall o, o ∈ l -> contrib f m sig o = 0) -> total f m sig l = 0.
Proof.
  intros Hc. induction l as [| x l IH]; [done |]. unfold total in *. simpl.
  rewrite Hc by left. rewrite IH; [done |]. intros o Ho. apply Hc. by right.
Qed.

(** What a new object must satisfy. *)
Definition new_ok s (new : Z) (ob : hal_obj) : Prop :=
  match o_body ob with
  | BPin p => pin_unlinked new p /\ hal_valid_dir (p_dir p) = true /\
      (hh_legacy (o_hdr ob) = true ->
         is_Some (p_data_ptr_addr p) /\ resolves s (hh_owner_id (o_hdr ob)))
  | BSig sg => value_type (s_type sg) /\ s_readers sg = 0 /\ s_writers sg = 0 /\ s_bidirs sg = 0
  | BInst _ => exists c cob, c ∈ hs_halobjects s /\ hs_objs s !! c = Some cob /\
      sel_ok (sel_type_id HAL_COMPONENT (hh_owner_id (o_hdr ob))) cob = true
  | _ => True
  end.

Definition added s1 new ob : hal_state H :=
  set_halobjects (insert_before new
    (List.find (greater (hs_objs s1) (hh_get_object_type ob) (hh_get_name (o_hdr ob)))
       (hs_halobjects s1)) (hs_halobjects s1)) s1.

Lemma link_inv_add s s1 new ob :
  link_inv s -> hs_objs s !! new = None -> (new ∉ hs_halobjects s) -> 0 < new ->
  wf s1 -> hs_objs s1 = <[new := ob]> (hs_objs s) -> hs_halobjects s1 = hs_halobjects s ->
  hh_valid (o_hdr ob) = true ->
  (hh_get_object_type ob = HAL_PIN \/ hh_get_object_type ob = HAL_SIGNAL ->
     hh_get_name (o_hdr ob) ∉ type_names s (hh_get_object_type ob)) ->
  new_ok s new ob -> link_inv (added s1 new ob).
Proof.
  intros [Hw Hs Hp Hq Hins Hpins Hsigs] Hno Hnl Hpos Hw1 Eo El Hv Huniq Hok.
  assert (hs_objs s1 !! new = Some ob) as Hnew by (rewrite Eo; apply lookup_insert_eq).
  assert (new ∉ hs_halobjects s1) as Hnl1 by (by rewrite El).
  assert (forall t, type_names s1 t = type_names s t) as Hn1.
  { intros t. unfold type_names. rewrite El. apply (type_names_unlisted s new); [done |].
    intros x Hx. by rewrite Eo, lookup_insert_ne. }
  assert (forall t, type_names (added s1 new ob) t
    = if hh_get_object_type ob =? t then insert_name (hh_get_name (o_hdr ob)) (type_names s t)
      else type_names s t) as Hn.
  { intros t. unfold added. rewrite (type_names_add new ob) by done. by rewrite Hn1. }
  assert (forall x, x ∈ hs_halobjects (added s1 new ob) <-> x = new \/ x ∈ hs_halobjects s) as Hin.
  { intros x. unfold added. simpl. rewrite insert_before_perm, El. apply elem_of_cons. }
  assert (forall x xob, hs_objs s !! x = Some xob -> hs_objs s1 !! x = Some xob) as Hold.
  { intros x xob Hx. rewrite Eo, lookup_insert_ne; [done |]. intros ->. congruence. }
  assert (forall x xob, hs_objs s1 !! x = Some xob ->
    (x = new /\ xob = ob) \/ (x <> new /\ hs_objs s !! x = Some xob)) as Hback.
  { intros x xob Hx. rewrite Eo in Hx. destruct (decide (x = new)) as [-> |].
    - rewrite lookup_insert_eq in Hx. left. by simplify_eq.
    - rewrite lookup_insert_ne in Hx by done. by right. }
  assert (forall id, resolves s id -> resolves (added s1 new ob) id) as Hres.
  { intros id (x & xob & Hx & Hxob & Hsel). exists x, xob. rewrite Hin. auto. }
  assert (forall f sig, 0 < sig -> total f (hs_objs s1) sig (hs_halobjects (added s1 new ob))
    = total f (hs_objs s) sig (hs_halobjects s)) as Htot.
  { intros f sig Hsig. unfold added. simpl.
    rewrite (total_perm _ _ _ _ _ (insert_before_perm _ _ _)), El. unfold total at 1. simpl.
    assert (contrib f (hs_objs s1) sig new = 0) as ->.
    { unfold contrib. rewrite Hnew. destruct ob as [h b]. unfold new_ok in Hok. simpl in Hok.
      destruct b; try done. destruct Hok as [[-> _] _].
      destruct (0 =? sig) eqn:E0; zb; [lia | done]. }
    rewrite Z.add_0_l. apply total_ext. intros x Hx. unfold contrib.
    by rewrite Eo, lookup_insert_ne by (intros ->; done). }
  assert (wf (added s1 new ob)) as Hw2 by (apply wf_add_object; eauto).
  split.
  - done.
  - intros t. rewrite Hn. case_match; [apply insert_name_sorted |]; apply Hs.
  - rewrite Hn. case_match eqn:Et; [| done]. zb. rewrite insert_name_perm. constructor; [| done].
    rewrite <- Et. auto.
  - rewrite Hn. case_match eqn:Et; [| done]. zb. rewrite insert_name_perm. constructor; [| done].
    rewrite <- Et. auto.
  - intros x h i [-> | Hx]%Hin Hxob Hxv.
    + simpl in Hxob. rewrite Hnew in Hxob. simplify_eq. destruct Hok as (c & cob & Hc & Hcob & Hsel).
      exists c, cob. rewrite Hin. auto.
    + apply Hback in Hxob as [[-> _] | [_ Hxob]]; [done |].
      destruct (Hins _ _ _ Hx Hxob Hxv) as (c & cob & Hc & Hcob & Hsel).
      exists c, cob. rewrite Hin. auto.
  - intros x h px [[-> <-] | [Hxn Hx]]%Hback.
    + destruct Hok as (Hu & Hd & Hleg). split; [done | | | by left].
      * intros Hl. by apply Hleg.
      * intros _ Hl. apply Hres. by apply Hleg.
    + destruct (Hpins _ _ _ Hx) as [Hd Hleg Hown Hlink]. split; [done | done | auto |].
      destruct Hlink as [| (sig & Hs1 & Hs2 & Hs3 & Hs4 & Hs5 & hs & sg & Hs6 & Hs7 & Hs8)];
        [by left | right].
      exists sig. unfold pin_linked. rewrite !Hin. repeat split; auto. exists hs, sg. auto.
  - intros x h sx Hx [[-> <-] | [Hxn Hxob]]%Hback.
    + destruct Hok as (Ht & Hr & Hwr & Hb).
      assert (forall f, total f (hs_objs s) new (hs_halobjects s) = 0) as Hz.
      { intros f. apply total_zero. intros y Hy. unfold contrib.
        destruct (hs_objs s !! y) as [[hy by_] |] eqn:Ey; [| done]. destruct by_; try done.
        destruct (p_signal p =? new) eqn:E1; [| done]. zb.
        destruct (Hpins _ _ _ Ey) as [_ _ _ [[Hu _] | (sig & Hs1 & _ & _ & _ & Hs5 & _)]]; [lia |].
        subst sig. by rewrite E1 in Hs5. }
      split; simpl; rewrite ?Htot, ?Hz by done; try done; lia.
    + apply Hin in Hx as [-> | Hx]; [done |].
      destruct (Hsigs _ _ _ Hx Hxob) as [Ht Hr Hwr Hb H1 H2].
      assert (0 < x) by (apply (wf_objs _ Hw); eauto).
      split; simpl; rewrite ?Htot by done; done.
Qed.

(** Names that are stored as they are. *)
Definition plain (name : string) : Prop :=
  fmt_noargs name = Some name /\ Z.of_nat (String.length name) <= 126.

Lemma substring_all name n :
  (String.length name <= n)%nat -> String.substring 0 n name = name.
Proof.
  revert n. induction name as [| c name IH]; intros [| n] Hn; simpl in *; try done; try lia.
  f_equal. apply IH. lia.
Qed.

Lemma plain_stored name :
  plain name -> snd (vsnprintf MAX_OBJECT_NAME_LEN name) = name.
Proof. intros [_ Hl]. unfold vsnprintf, MAX_OBJECT_NAME_LEN. simpl snd. apply substring_all. lia. Qed.

(** Creation of a plain-named object, up to its insertion. *)
Lemma link_inv_world s s' : link_inv s -> world s' = world s -> wf s' -> link_inv s'.
Proof.
  intros [Hw Hs Hp Hq Hins Hpins Hsigs] Hwd Hw'.
  destruct (world_eqs _ _ Hwd) as (Ei & Eo & El & _).
  assert (forall t, type_names s' t = type_names s t) as Hn
    by (intros; unfold type_names; by rewrite Eo, El).
  assert (forall id, resolves s id -> resolves s' id) as Hres
    by (intros id; unfold resolves; by rewrite Eo, El).
  split; rewrite ?Hn; try done.
  - intros t. rewrite Hn. apply Hs.
  - unfold insts_ok. rewrite Eo, El. exact Hins.
  - intros o h p. rewrite Eo. intros Ho. destruct (Hpins _ _ _ Ho) as [? ? ? Hlink]. split; auto.
    unfold pin_linked. by rewrite Eo, El.
  - intros o h sg. rewrite Eo, El. intros Hin Ho. destruct (Hsigs _ _ _ Hin Ho).
    split; rewrite ?Eo, ?El; done.
Qed.

(** ** [halg_pin_newfv] *)
Lemma omap_NoDup_inj {A B} (f : A -> option B) l x y n :
  NoDup (omap f l) -> x ∈ l -> y ∈ l -> f x = Some n -> f y = Some n -> x = y.
Proof.
  induction l as [| a l IH]; simpl; intros Hn Hx Hy Fx Fy; [by apply not_elem_of_nil in Hx |].
  apply elem_of_cons in Hx as [-> | Hx], Hy as [-> | Hy]; [done | | |].
  - rewrite Fx in Hn. apply NoDup_cons in Hn as [Hn _]. exfalso. apply Hn.
    apply list_elem_of_omap. eauto.
  - rewrite Fy in Hn. apply NoDup_cons in Hn as [Hn _]. exfalso. apply Hn.
    apply list_elem_of_omap. eauto.
  - destruct (f a); [apply NoDup_cons in Hn as [_ Hn] |]; auto.
Qed.

(** With unique names the lookup finds the object of that name. *)
Lemma find_by_name_unique s t o ob :
  t <> 0 -> NoDup (type_names s t) -> o ∈ hs_halobjects s -> hs_objs s !! o = Some ob ->
  hh_valid (o_hdr ob) = true -> hh_get_object_type ob = t ->
  find_obj (sel_ok (sel_type_name t (hh_get_name (o_hdr ob)))) s = Some o.
Proof.
  intros Ht Hn Ho Hob Hv Hty.
  assert (sel_ok (sel_type_name t (hh_get_name (o_hdr ob))) ob = true) as Hs
    by (by apply sel_ok_type_name).
  destruct (find_obj_exists _ _ _ _ Ho Hob Hs) as [o' Ho']. rewrite Ho'.
  apply find_obj_some in Ho' as (Hin & ob' & Hob' & Hs').
  apply sel_ok_type_name in Hs' as (Hv' & Ht' & Hn'); [| done]. f_equal.
  apply (omap_NoDup_inj (typed_name (hs_objs s) t) (hs_halobjects s) _ _ (hh_get_name (o_hdr ob)));
    try done; unfold typed_name.
  - by rewrite Hob', Hv', Ht', Z.eqb_refl, Hn'.
  - by rewrite Hob, Hv, Hty, Z.eqb_refl.
Qed.

Definition new_pin_body (type dir : Z) (cell : option Z) (defval : hal_data_u) (new : Z) : hal_pin :=
  HalPin cell (ADummy new) 0 defval type dir 0 0.

(** The effect of a successful creation. *)
Record pin_created s type dir cell owner defval name (new : Z) s' : Prop := PinCreated {
  pc_fresh : hs_objs s !! new = None;
  pc_listed : hs_halobjects s' ≡ₚ new :: hs_halobjects s;
  pc_obj : exists h, hs_objs s' = <[new := HalObj h (BPin (new_pin_body type dir cell defval new))]> (hs_objs s)
    /\ hh_valid h = true /\ hh_get_name h = name /\ hh_owner_id h = s16 owner /\ hh_refcnt h = 0 /\
    hh_legacy h = bool_decide (is_Some cell);
  pc_cells : match cell with
             | None => hs_cells s' = hs_cells s
             | Some a => exists base, hs_cells s' = <[a := (base, ADummy new)]> (hs_cells s)
             end;
  pc_found : find_obj (sel_ok (sel_type_name HAL_PIN name)) s' = Some new;
}.

Lemma wp_fmt_ap_plain name size s (Q : string -> hal_state H -> Prop) E :
  plain name -> 127 <= size -> Q name s -> wp (fmt_ap size name) Q E s.
Proof.
  intros [_ Hl] Hsz HQ. unfold fmt_ap, vsnprintf.
  destruct (size <? Z.of_nat (String.length name)) eqn:E1; zb; [lia |].
  apply wp_ret. rewrite substring_all by lia. done.
Qed.

Lemma wp_pin_new type dir cell owner defval name s (Q : Z -> hal_state H -> Prop)
    (E : Z -> hal_state H -> Prop) :
  link_inv s -> plain name -> (is_Some cell -> s16 owner = owner) ->
  (forall new s', link_inv s' -> hal_valid_type type = true -> hal_valid_dir dir = true ->
     (name ∉ type_names s HAL_PIN) -> resolves s owner ->
     pin_created s type dir cell owner defval name new s' -> Q new s') ->
  (forall e s', link_inv s' -> hs_objs s' = hs_objs s -> hs_halobjects s' = hs_halobjects s ->
     E e s') ->
  wp (halg_pin_newfv type dir cell owner defval (Some name)) Q E s.
Proof.
  intros Hl Hplain Hown HQ HE. unfold halg_pin_newfv.
  assert (forall rc, E (- rc) (set_halerrno (- rc) s)) as Hfail
    by (intros; apply HE; [by apply link_inv_errno | done | done]).
  apply wp_bind, wp_check_haldata; [apply Hl |].
  apply wp_bind, wp_check_lock; [apply Hl | intros _ | auto].
  apply wp_bind, wp_ret, wp_bind, wp_fmt_ap_plain; [done | unfold HAL_MAX_NAME_LEN; lia |].
  destruct (hal_valid_type type) eqn:Ety; [| apply wp_halfail; auto].
  destruct (hal_valid_dir dir) eqn:Edir; [| apply wp_halfail; auto]. cbn [negb].
  apply wp_bind, wp_find_by_name; [apply Hl | apply Hl |].
  destruct (find_obj _ s) as [dup |] eqn:Edup; [apply wp_halfail; auto |].
  apply (find_name_none s HAL_PIN name) in Edup; [| done | apply Hl].
  destruct (owning_comp_total s owner (li_insts _ Hl)) as (r & Hr & Hcb & Hres).
  apply wp_bind. eapply wp_find_owning_comp; [apply Hl | apply Hl | exact Hr |].
  destruct r as [c |]; [| apply wp_halfail; auto].
  assert (resolves s owner) as Hresolves by (apply Hres; eauto).
  destruct (Hcb c eq_refl) as (hc & cb & Hc).
  destruct (match cell with Some a => negb (SHMCHK a) | None => false end);
    [apply wp_halfail; auto |].
  apply wp_bind. destruct Hplain as [Hfmt Hlen]. eapply wp_create_object; [apply Hl | exact Hfmt | |].
  2:{ intros e s1 Hw Hwf. destruct (world_eqs _ _ Hw) as (_ & ? & ? & _).
      apply HE; [by eapply link_inv_world | done | done]. }
  intros new s1 (id & np & s0 & Hw0 & Hno & Hnl & Hwf1 & ->).
  destruct (world_eqs _ _ Hw0) as (Ei & Eo & El & Ec & _).
  assert (forall ob1, hs_objs (set_objs (<[new := ob1]> (hs_objs s)) s0) !! new = Some ob1) as Hnew
    by (intros; apply lookup_insert_eq).
  apply wp_bind. eapply wp_set_body; [apply Hnew |]. simpl o_hdr.
  set (bp := new_pin_body type dir cell defval new).
  set (hd := new_hdr id owner np name).
  assert (forall leg C, wf (set_objs (<[new := HalObj (if leg : bool then hh_set_legacy hd else hd) (BPin bp)]>
            (hs_objs s)) (set_cells C s0))) as Hwf2.
  { intros leg C. eapply (wf_insert _ new _ (HalObj (if leg then hh_set_legacy hd else hd) (BPin bp)))
      in Hwf1; [| apply Hnew | by destruct leg].
    simpl in Hwf1. rewrite insert_insert_eq in Hwf1. destruct Hwf1. by split. }
  (* both cases end in [halg_add_object] *)
  assert (forall (leg : bool) C, leg = (bool_decide (is_Some cell)) ->
    match cell with None => C = hs_cells s | Some a => exists base, C = <[a := (base, ADummy new)]> (hs_cells s) end ->
    wp (halg_add_object new ≫= fun _ => mret new) Q E
       (set_objs (<[new := HalObj (if leg then hh_set_legacy hd else hd) (BPin bp)]> (hs_objs s))
          (set_cells C s0))) as Hend.
  { intros leg C Hlg HC. set (s2 := set_objs _ _).
    set (ob := HalObj (if leg then hh_set_legacy hd else hd) (BPin bp)).
    assert (hh_get_name (o_hdr ob) = name) as Hname.
    { unfold ob, hd, hh_get_name. destruct leg; simpl; apply plain_stored; by split. }
    assert (link_inv (added s2 new ob)) as Hl2.
    { apply (link_inv_add s s2 new ob); try done.
      - destruct (decide (0 < new)); [done |].
        pose proof (wf_objs _ (Hwf2 leg C) new) as Hx. simpl in Hx. rewrite lookup_insert_eq in Hx.
        destruct Hx; [eauto |]. lia.
      - apply Hwf2.
      - by destruct leg.
      - intros _. by rewrite Hname.
      - split; [done |]. split; [done |]. intros Hl'. simpl in Hl'.
        assert (leg = true) as -> by (by destruct leg). destruct cell; [| done].
        split; [simpl; eauto |]. simpl. rewrite Hown by eauto. done. }
    apply wp_bind. eapply (wp_add_object new ob); [apply Hwf2 | apply lookup_insert_eq | | done |].
    { simpl. by rewrite El. }
    apply wp_ret. apply HQ; try done. split.
    - done.
    - simpl. rewrite insert_before_perm, El. done.
    - exists (o_hdr ob). split; [done |]. split; [by destruct leg |]. split; [done |].
      split; [by destruct leg |]. split; [by destruct leg |]. subst leg. by destruct cell.
    - simpl. destruct cell; done.
    - change (find_obj (sel_ok (sel_type_name HAL_PIN name)) (added s2 new ob) = Some new).
      rewrite <- Hname. apply find_by_name_unique; try done.
      + apply Hl2.
      + unfold added. simpl. rewrite insert_before_perm. left.
      + simpl. apply lookup_insert_eq.
      + by destruct leg. }
  apply wp_bind. destruct cell as [a |].
  - apply wp_bind. eapply wp_get_comp.
    { simpl. rewrite insert_insert_eq, lookup_insert_ne by congruence. exact Hc. }
    apply wp_bind. eapply wp_upd_hdr; [apply lookup_insert_eq |]. apply wp_modify.
    simpl. rewrite !insert_insert_eq, Ec.
    assert (true = bool_decide (is_Some (Some a))) as Hleg by (symmetry; apply bool_decide_eq_true; eauto).
    specialize (Hend true (<[a := (c_shmem_base cb, ADummy new)]> (hs_cells s)) Hleg).
    unfold bp, new_pin_body, set_objs, set_cells in Hend. apply Hend. eauto.
  - apply wp_ret. simpl. rewrite insert_insert_eq.
    specialize (Hend false (hs_cells s) eq_refl eq_refl). rewrite <- Ec, set_cells_id in Hend.
    exact Hend.
Qed.
End LinkOps.
