(* ===== verification/HalLinkSteps.v ===== *)
(** * Signals, deletion and garbage collection

    The remaining operations on pins and signals preserve the link
    invariant; what each of them does to the descriptors. *)
From S2P Require Import Prelude HalData HalMemory HalObject HalObjectFacts HalPin HalSignal HalLinks HalLinkOps.

Section LinkSteps.
Context {H : Type} {HA : Allocator H} {HS : AllocatorSpec H} {PF : Platform}.
Implicit Types s : hal_state H.

(** ** Descriptors that are not listed *)
Lemma link_inv_unlisted s s1 new ob :
  link_inv s -> hs_objs s !! new = None -> (new ∉ hs_halobjects s) ->
  wf s1 -> hs_objs s1 = <[new := ob]> (hs_objs s) -> hs_halobjects s1 = hs_halobjects s ->
  hh_get_object_type ob <> HAL_PIN -> link_inv s1.
Proof.
  intros [Hw Hs Hp Hq Hins Hpins Hsigs] Hno Hnl Hw1 Eo El Hty.
  assert (forall x, x ∈ hs_halobjects s -> hs_objs s1 !! x = hs_objs s !! x) as Hsame.
  { intros x Hx. rewrite Eo, lookup_insert_ne; [done |]. by intros ->. }
  assert (forall x xob, hs_objs s !! x = Some xob -> hs_objs s1 !! x = Some xob) as Hold.
  { intros x xob Hx. rewrite Eo, lookup_insert_ne; [done |]. intros ->. congruence. }
  assert (forall t, type_names s1 t = type_names s t) as Hn1.
  { intros t. unfold type_names. rewrite El. apply (type_names_unlisted s new); [done |].
    intros x Hx. by rewrite Eo, lookup_insert_ne. }
  assert (forall id, resolves s id -> resolves s1 id) as Hres.
  { intros id (x & xob & Hx & Hxob & Hsel). exists x, xob. rewrite El. auto. }
  split; rewrite ?Hn1; try done.
  - intros t. rewrite Hn1. apply Hs.
  - intros x h i Hx Hxob Hv. rewrite El in Hx. rewrite Hsame in Hxob by done.
    destruct (Hins _ _ _ Hx Hxob Hv) as (c & cob & Hc & Hcob & Hsel). exists c, cob. rewrite El. auto.
  - intros x h p Hx. assert (hs_objs s !! x = Some (HalObj h (BPin p))) as Hx0.
    { rewrite Eo in Hx. destruct (decide (x = new)) as [-> |].
      - rewrite lookup_insert_eq in Hx. by simplify_eq.
      - by rewrite lookup_insert_ne in Hx. }
    destruct (Hpins _ _ _ Hx0) as [Hd Hleg Hown Hlink]. split; [done | done | auto |].
    destruct Hlink as [| (sig & Hs1 & Hs2 & Hs3 & Hs4 & Hs5 & hs & sg & Hs6 & Hs7 & Hs8)];
      [by left | right]. exists sig. unfold pin_linked. rewrite El. repeat split; eauto 10.
  - intros x h sx Hx Hxob. rewrite El in Hx. rewrite Hsame in Hxob by done.
    assert (forall f, total f (hs_objs s1) x (hs_halobjects s) = total f (hs_objs s) x (hs_halobjects s))
      as Ht by (intros f; apply total_ext; intros y Hy; unfold contrib; by rewrite Hsame).
    destruct (Hsigs _ _ _ Hx Hxob) as [? ? ? ? ? ?]. split; rewrite ?El, ?Ht; done.
Qed.

(** ** [halg_signal_new] *)
Definition legal_signal_type (t : Z) : bool :=
  (t =? HAL_BIT) || (t =? HAL_S32) || (t =? HAL_U32) || (t =? HAL_FLOAT).

Record signal_created s type name (new : Z) s' : Prop := SignalCreated {
  sc_fresh : hs_objs s !! new = None;
  sc_listed : hs_halobjects s' ≡ₚ new :: hs_halobjects s;
  sc_obj : exists h, hs_objs s' = <[new := HalObj h (BSig (HalSig type 0 0 0 0))]> (hs_objs s)
    /\ hh_valid h = true /\ hh_get_name h = name /\ hh_owner_id h = 0 /\ hh_refcnt h = 0;
  sc_cells : hs_cells s' = hs_cells s;
  sc_found : find_obj (sel_ok (sel_type_name HAL_SIGNAL name)) s' = Some new;
}.

(** An illegal type leaves an invalid descriptor that is not in the list. *)
Definition signal_leaked s s' : Prop :=
  hs_halobjects s' = hs_halobjects s /\
  exists new h b, hs_objs s !! new = None /\ hh_valid h = false /\
    hs_objs s' = <[new := HalObj h b]> (hs_objs s).

Lemma wp_signal_new name type s (Q : Z -> hal_state H -> Prop) (E : Z -> hal_state H -> Prop) :
  link_inv s -> plain name ->
  (forall new s', link_inv s' -> legal_signal_type type = true ->
     (name ∉ type_names s HAL_SIGNAL) -> signal_created s type name new s' -> Q 0 s') ->
  (forall e s', link_inv s' ->
     (hs_objs s' = hs_objs s /\ hs_halobjects s' = hs_halobjects s) \/
     (legal_signal_type type = false /\ signal_leaked s s') -> E e s') ->
  wp (halg_signal_new (Some name) type) Q E s.
Proof.
  intros Hl Hplain HQ HE. unfold halg_signal_new.
  assert (forall rc, E (- rc) (set_halerrno (- rc) s)) as Hfail
    by (intros; apply HE; [by apply link_inv_errno | by left]).
  apply wp_bind, wp_check_haldata; [apply Hl |].
  apply wp_bind, wp_check_lock; [apply Hl | intros _ | auto].
  apply wp_bind, wp_check_strlen; [| intros _; apply HE; [done | by left]].
  intros n [= <-] _. apply wp_bind, wp_find_by_name; [apply Hl | apply Hl |].
  destruct (find_obj _ s) as [dup |] eqn:Edup; [apply wp_halfail; auto |].
  apply (find_name_none s HAL_SIGNAL name) in Edup; [| done | apply Hl].
  pose proof Hplain as [Hfmt Hlen].
  apply wp_bind. eapply wp_create_object; [apply Hl | exact Hfmt | |].
  2:{ intros e s1 Hw Hwf. destruct (world_eqs _ _ Hw) as (_ & ? & ? & _).
      apply HE; [by eapply link_inv_world | by left]. }
  intros new s1 (id & np & s0 & Hw0 & Hno & Hnl & Hwf1 & ->).
  destruct (world_eqs _ _ Hw0) as (Ei & Eo & El & Ec & _).
  set (hd := new_hdr id 0 np name) in *.
  assert (forall ob1, hs_objs (set_objs (<[new := ob1]> (hs_objs s)) s0) !! new = Some ob1) as Hnew
    by (intros; apply lookup_insert_eq).
  apply wp_bind. eapply wp_get_sig; [apply Hnew |]. cbn [s_value].
  assert (forall h b, hh_name h = hh_name hd -> wf (set_objs (<[new := HalObj h b]> (hs_objs s)) s0))
    as Hwf2.
  { intros h b Hn. eapply (wf_insert _ new _ (HalObj h b)) in Hwf1; [| apply Hnew | exact Hn].
    simpl in Hwf1. by rewrite insert_insert_eq in Hwf1. }
  assert (0 < new) as Hpos.
  { apply (wf_objs _ (Hwf2 hd BInvalid eq_refl)). simpl. rewrite lookup_insert_eq. eauto. }
  set (sel := if type =? HAL_BIT then _ else _).
  assert (sel = if legal_signal_type type then Some 0 else None) as ->.
  { unfold sel, legal_signal_type. destruct (type =? HAL_BIT), (type =? HAL_S32),
      (type =? HAL_U32), (type =? HAL_FLOAT); done. }
  destruct (legal_signal_type type) eqn:Ety.
  - apply wp_bind. eapply wp_set_body; [apply Hnew |]. simpl. rewrite insert_insert_eq.
    set (ob := HalObj hd (BSig (HalSig type 0 0 0 0))).
    assert (hh_get_name (o_hdr ob) = name) as Hname by (by apply plain_stored).
    set (s2 := set_objs (<[new := ob]> (hs_objs s)) s0).
    assert (link_inv (added s2 new ob)) as Hl2.
    { apply (link_inv_add s s2 new ob); try done.
      - by apply Hwf2.
      - intros _. by rewrite Hname.
      - split; [| done]. unfold legal_signal_type in Ety. unfold value_type.
        rewrite !orb_true_iff in Ety. cbn [s_type]. intuition zb; auto. }
    apply wp_bind. eapply (wp_add_object new ob).
    + by apply (Hwf2 hd).
    + apply lookup_insert_eq.
    + simpl. by rewrite El.
    + done.
    + apply wp_ret. apply (HQ new); try done. split.
      * done.
      * simpl. rewrite insert_before_perm, El. done.
      * exists hd. done.
      * done.
      * change (find_obj (sel_ok (sel_type_name HAL_SIGNAL name)) (added s2 new ob) = Some new).
        rewrite <- Hname. apply find_by_name_unique; try done.
        -- apply Hl2.
        -- unfold added. simpl. rewrite insert_before_perm. left.
        -- simpl. apply lookup_insert_eq.
  - apply wp_bind, wp_ignore. unfold halg_free_object. apply wp_bind.
    eapply wp_get_obj; [apply Hnew |]. simpl. eapply wp_upd_hdr; [apply Hnew |]. simpl.
    rewrite insert_insert_eq. apply wp_halfail. apply HE.
    + apply link_inv_errno.
      eapply (link_inv_unlisted s _ new); [done | done | done | | done | done | done].
      by apply Hwf2.
    + right. split; [done |]. split; [done |]. simpl. eexists new, _, _. repeat split; done.
Qed.

(** ** [halg_unlink] *)
Lemma wp_unlink pn s (Q : Z -> hal_state H -> Prop) (E : Z -> hal_state H -> Prop) :
  link_inv s -> Z.land (hs_lock s) HAL_LOCK_CONFIG = 0 ->
  Z.of_nat (String.length pn) <= HAL_NAME_LEN ->
  (find_obj (sel_ok (sel_type_name HAL_PIN pn)) s = None ->
     E (- EINVAL) (set_halerrno (- EINVAL) s)) ->
  (forall o h p, find_obj (sel_ok (sel_type_name HAL_PIN pn)) s = Some o ->
     hs_objs s !! o = Some (HalObj h (BPin p)) -> pin_unlinked o p -> Q 0 s) ->
  (forall o h p hs sg u C, find_obj (sel_ok (sel_type_name HAL_PIN pn)) s = Some o ->
     hs_objs s !! o = Some (HalObj h (BPin p)) -> pin_linked s o h p (p_signal p) ->
     hs_objs s !! p_signal p = Some (HalObj hs (BSig sg)) ->
     copy_value (p_type p) (p_dummysig p) (s_value sg) = Some u ->
     cell_post s h p (ADummy o) C -> link_inv (unlinked_state s o h p hs sg u C) ->
     Q 0 (unlinked_state s o h p hs sg u C)) ->
  wp (halg_unlink (Some pn)) Q E s.
Proof.
  intros Hl Hlock Hpn HE HQ1 HQ2. unfold halg_unlink.
  apply wp_bind, wp_check_haldata; [apply Hl |].
  apply wp_bind, wp_check_lock; [apply Hl | intros _ | done].
  apply wp_bind, wp_check_strlen; [| intros Hx; specialize (Hx pn eq_refl); lia].
  intros n [= <-] _. apply wp_bind, wp_find_by_name; [apply Hl | apply Hl |].
  destruct (find_obj _ s) as [o |] eqn:Ef; [| apply wp_halfail; auto].
  pose proof Ef as (_ & [h b] & Hob & Hsel)%find_obj_some.
  apply sel_ok_type_name in Hsel as (_ & Ht & _); [| done].
  apply body_pin in Ht as [p Hp]. simpl in Hp. subst b.
  apply wp_bind. eapply wp_unlink_pin; [done | exact Hob | |].
  - intros Hu. apply wp_ret. eauto.
  - intros hs sg u C ? ? ? ? ?. apply wp_ret. eauto.
Qed.

(** ** [halg_signal_delete] *)

(** A pin taken off the signal, with the value [v] of the signal. *)
Definition sever (sig : Z) (v : hal_data_u) (o : Z) (ob : hal_obj) : hal_obj :=
  match ob with
  | HalObj h (BPin p) =>
      if p_signal p =? sig then
        HalObj h (BPin (pin_set_unlinked o (pin_set_dummysig p
          (default (p_dummysig p) (copy_value (p_type p) (p_dummysig p) v)))))
      else ob
  | _ => ob
  end.

#[local] Arguments sever : simpl never.

Lemma sever_other sig v o h b :
  (forall p, b = BPin p -> p_signal p <> sig) -> sever sig v o (HalObj h b) = HalObj h b.
Proof.
  intros Hb. destruct b; try done. unfold sever. specialize (Hb p eq_refl).
  by apply Z.eqb_neq in Hb as ->.
Qed.

(** The pins of [done_] have been visited. *)
Record severing s (sig : Z) hs sg (l : list Z) s' : Prop := Severing {
  sv_inv : link_inv s';
  sv_list : hs_halobjects s' = hs_halobjects s;
  sv_nodup : NoDup l;
  sv_sub : forall x, x ∈ l -> x ∈ hs_halobjects s;
  sv_sig : exists sg', hs_objs s' !! sig = Some (HalObj hs (BSig sg')) /\
             s_value sg' = s_value sg /\ s_type sg' = s_type sg;
  sv_todo : forall x, x <> sig -> x ∈ l -> hs_objs s' !! x = hs_objs s !! x;
  sv_done : forall x, x <> sig -> x ∉ l ->
              hs_objs s' !! x = sever sig (s_value sg) x <$> hs_objs s !! x;
}.

Lemma severing_step s sig hs sg o l s' (E : Z -> hal_state H -> Prop) :
  severing s sig hs sg (o :: l) s' -> exists ob, hs_objs s' !! o = Some ob /\
    if sel_ok (sel_type HAL_PIN) ob
    then wp (pin_by_signal_callback sig (Some unlink_pin_callback) o tt)
           (fun ra s'' => fst ra = 0 /\ severing s sig hs sg l s'') E s'
    else severing s sig hs sg l s'.
Proof.
  intros Hsv. pose proof Hsv as [Hl Ell Hnd Hsub (sg' & Hsig & Hval & Hty) Htodo Hdone].
  apply NoDup_cons in Hnd as [Hol Hnd].
  assert (o ∈ hs_halobjects s') as Ho by (rewrite Ell; apply Hsub; left).
  destruct (wf_list _ (li_wf _ Hl) _ Ho) as [[h b] Hob]. exists (HalObj h b). split; [done |].
  (* an object that stays as it is *)
  assert ((forall p, b = BPin p -> p_signal p <> sig) -> severing s sig hs sg l s') as Hskip.
  { intros Hb. split; try done.
    - intros x Hx. apply Hsub. by right.
    - eauto.
    - intros x Hx Hxl. apply Htodo; [done | by right].
    - intros x Hx Hxl. destruct (decide (x = o)) as [-> |].
      + rewrite <- Htodo by (done || left). rewrite Hob. simpl. by rewrite sever_other.
      + apply Hdone; [done |]. by rewrite not_elem_of_cons. }
  case_match eqn:Hsel.
  2:{ apply Hskip. intros p ->. simpl.
      destruct (li_pins _ Hl _ _ _ Hob) as [_ _ _ [[Hu _] | (sg1 & _ & _ & Hv & _)]].
      - assert (0 < sig) by (apply (wf_objs _ (li_wf _ Hl)); eauto). lia.
      - assert (sel_ok (sel_type HAL_PIN) (HalObj h (BPin p)) = true)
          by (by apply sel_ok_type). congruence. }
  apply sel_ok_type in Hsel as [_ Ht]; [| done]. apply body_pin in Ht as [p Hp]. simpl in Hp. subst b.
  unfold pin_by_signal_callback. apply wp_bind. eapply wp_get_pin; [exact Hob |].
  unfold pin_linked_to. destruct (p_signal p =? sig) eqn:E1; zb.
  2:{ apply wp_ret. split; [done |]. apply Hskip. intros ? [= <-]. done. }
  unfold unlink_pin_callback. apply wp_bind. eapply wp_unlink_pin; [done | exact Hob | |].
  { intros [Hu _]. assert (0 < sig) by (apply (wf_objs _ (li_wf _ Hl)); eauto). lia. }
  intros hs1 sg1 u C Hlnk Hsig1 Hu HC Hl2. apply wp_ret. split; [done |].
  rewrite E1 in Hsig1. rewrite Hsig in Hsig1. injection Hsig1 as <- <-.
  assert (o <> sig) as Hne by (intros ->; congruence).
  split; try done.
  - intros x Hx. apply Hsub. by right.
  - unfold unlinked_state. simpl. rewrite lookup_insert_ne, E1, lookup_insert_eq by done.
    eexists. split; [reflexivity |]. done.
  - intros x Hx Hxl. unfold unlinked_state. simpl.
    rewrite !lookup_insert_ne by (congruence || by intros ->). apply Htodo; [done | by right].
  - intros x Hx Hxl. unfold unlinked_state. simpl. destruct (decide (x = o)) as [-> |].
    + rewrite lookup_insert_eq. rewrite <- Htodo by (done || left). rewrite Hob. simpl.
      unfold sever. rewrite E1, Z.eqb_refl. by rewrite <- Hval, Hu.
    + rewrite !lookup_insert_ne by congruence. apply Hdone; [done |]. by rewrite not_elem_of_cons.
Qed.

(** The state in which no pin is left on the signal, and the signal has
    become [hs']. *)
Definition severed s sig hs' sg s' : Prop :=
  hs_halobjects s' = hs_halobjects s /\
  (exists sg', hs_objs s' !! sig = Some (HalObj hs' (BSig sg')) /\ s_value sg' = s_value sg) /\
  (forall x, x <> sig -> hs_objs s' !! x = sever sig (s_value sg) x <$> hs_objs s !! x).

(** Invalidating a descriptor nothing refers to. *)
Lemma link_inv_invalidate s o h h' b :
  link_inv s -> hs_objs s !! o = Some (HalObj h b) ->
  hh_valid h' = false -> hh_name h' = hh_name h -> hh_legacy h' = hh_legacy h ->
  match b with
  | BPin p => pin_unlinked o p
  | BSig _ => forall x hx p, hs_objs s !! x = Some (HalObj hx (BPin p)) -> p_signal p <> o
  | BComp _ | BInst _ => False
  | _ => True
  end ->
  link_inv (set_objs (<[o := HalObj h' b]> (hs_objs s)) s).
Proof.
  intros [Hw Hs Hp Hq Hins Hpins Hsigs] Ho Hv Hname Hleg Hb.
  set (s' := set_objs _ s).
  assert (forall t, type_names s' t `sublist_of` type_names s t) as Hsub.
  { intros t. unfold type_names. simpl. generalize (hs_halobjects s) as L.
    induction L as [| x l IH]; simpl; [done |].
    destruct (decide (x = o)) as [-> |].
    - assert (typed_name (<[o := HalObj h' b]> (hs_objs s)) t o = None) as ->
        by (unfold typed_name; rewrite lookup_insert_eq; simpl; by rewrite Hv).
      destruct (typed_name (hs_objs s) t o); [by apply sublist_cons | exact IH].
    - assert (typed_name (<[o := HalObj h' b]> (hs_objs s)) t x = typed_name (hs_objs s) t x) as ->
        by (unfold typed_name; by rewrite lookup_insert_ne).
      destruct (typed_name (hs_objs s) t x); [by apply sublist_skip | exact IH]. }
  assert (forall x xob, hs_objs s' !! x = Some xob ->
    (x = o /\ xob = HalObj h' b) \/ (x <> o /\ hs_objs s !! x = Some xob)) as Hback.
  { intros x xob Hx. simpl in Hx. destruct (decide (x = o)) as [-> |].
    - rewrite lookup_insert_eq in Hx. left. by simplify_eq.
    - rewrite lookup_insert_ne in Hx by done. by right. }
  assert (forall x xob t id, hs_objs s !! x = Some xob -> t = HAL_INST \/ t = HAL_COMPONENT ->
    sel_ok (sel_type_id t id) xob = true -> hs_objs s' !! x = Some xob) as Hkeep.
  { intros x xob t id Hx Ht Hsel. simpl. rewrite lookup_insert_ne; [done |]. intros ->.
    rewrite Ho in Hx. injection Hx as <-. apply sel_id_type in Hsel as [_ Hty]; [| by destruct Ht as [-> | ->]].
    unfold hh_get_object_type in Hty. simpl in Hty. destruct Ht as [-> | ->], b; done. }
  assert (forall id, resolves s id -> resolves s' id) as Hres.
  { intros id (x & xob & Hx & Hxob & Hsel). exists x, xob. split; [done |]. split; [| done].
    destruct Hsel as [Hsel | Hsel]; (eapply Hkeep; [exact Hxob | | exact Hsel]); auto. }
  assert (forall f sig, total f (hs_objs s') sig (hs_halobjects s) = total f (hs_objs s) sig (hs_halobjects s))
    as Htot.
  { intros f sig. apply total_ext. intros x _. unfold contrib. simpl.
    destruct (decide (x = o)) as [-> |]; [by rewrite lookup_insert_eq, Ho | by rewrite lookup_insert_ne]. }
  split.
  - by eapply wf_insert.
  - intros t. eapply StronglySorted_sublist; [apply Hsub | apply Hs].
  - eapply sublist_NoDup; [exact Hp | apply Hsub].
  - eapply sublist_NoDup; [exact Hq | apply Hsub].
  - intros x hx i Hx Hxob Hxv. apply Hback in Hxob as [[-> [= -> <-]] | [Hxo Hxob]]; [congruence |].
    destruct (Hins _ _ _ Hx Hxob Hxv) as (c & cob & Hc & Hcob & Hsel).
    exists c, cob. split; [done |]. split; [| done].
    eapply Hkeep; [exact Hcob | | exact Hsel]. auto.
  - intros x hx p [[-> [= -> <-]] | [Hxo Hxob]]%Hback.
    + destruct (Hpins _ _ _ Ho) as [Hd Hlg _ _]. split; [done | by rewrite Hleg | congruence | by left].
    + destruct (Hpins _ _ _ Hxob) as [Hd Hlg Hown Hlink]. split; [done | done | auto |].
      destruct Hlink as [| (sig & Hs1 & Hs2 & Hs3 & Hs4 & Hs5 & hs & sg & Hs6 & Hs7 & Hs8)];
        [by left | right]. exists sig. repeat split; try done. exists hs, sg.
      split; [| done]. simpl. rewrite lookup_insert_ne; [done |]. intros ->.
      rewrite Ho in Hs6. injection Hs6 as -> ->. by eapply Hb.
  - intros x hx sx Hx [[-> [= -> <-]] | [Hxo Hxob]]%Hback.
    + destruct (Hsigs _ _ _ Hx Ho). split; simpl; rewrite ?Htot; done.
    + destruct (Hsigs _ _ _ Hx Hxob). split; simpl; rewrite ?Htot; done.
Qed.

Lemma sever_no_pin sig v x ob h p :
  0 < sig -> sever sig v x ob = HalObj h (BPin p) -> p_signal p <> sig.
Proof.
  intros Hpos. destruct ob as [h' b]; destruct b as [q | | | | | | | | | | | |]; unfold sever; try discriminate.
  destruct (p_signal q =? sig) eqn:E; zb; intros [= <- <-]; [simpl; lia | done].
Qed.

Lemma wp_free_sig sig hs sg s (Q : unit -> hal_state H -> Prop) (E : Z -> hal_state H -> Prop) :
  link_inv s -> (sig ∈ hs_halobjects s) -> hs_objs s !! sig = Some (HalObj hs (BSig sg)) ->
  (forall s', hh_refcnt hs = 0 -> link_inv s' -> severed s sig (snd (hh_clear_hdr hs)) sg s' -> Q tt s') ->
  (forall s', hh_refcnt hs <> 0 -> link_inv s' -> severed s sig hs sg s' -> E (- EBUSY) s') ->
  wp (free_sig_struct sig) Q E s.
Proof.
  intros Hl Hsl Hsig HQ HE. unfold free_sig_struct, halg_foreach_pin_by_signal, halg_foreach.
  assert (0 < sig) as Hpos by (apply (wf_objs _ (li_wf _ Hl)); eauto).
  apply wp_bind, wp_bind, wp_hal_data; [apply Hl |].
  eapply wp_mono.
  - eapply (wp_foreach_all _ _ _ (fun l (_ : unit) s' => severing s sig hs sg l s')); [done | |].
    { intros o l [] s' Hsv. by apply severing_step. }
    split; try done; [apply Hl | eauto |].
    intros x Hx Hxl. destruct (hs_objs s !! x) as [[h b] |] eqn:Ex; [| done]. simpl.
    rewrite sever_other; [done |]. intros p -> Hps.
    destruct (li_pins _ Hl _ _ _ Ex) as [_ _ _ [[Hu _] | (sg1 & _ & _ & _ & Hxl' & _)]]; [lia | done].
  - simpl. intros [n []] s' [Hl' Ell _ _ (sg' & Hsig' & Hval & _) _ Hdone]. simpl in *.
    assert (forall x, x <> sig -> hs_objs s' !! x = sever sig (s_value sg) x <$> hs_objs s !! x) as Hall
      by (intros x Hx; apply Hdone; [done | apply not_elem_of_nil]).
    unfold halg_free_object. apply wp_bind. eapply wp_get_obj; [exact Hsig' |]. simpl.
    destruct (hh_refcnt hs =? 0) eqn:Erc; zb.
    + eapply wp_upd_hdr; [exact Hsig' |]. simpl. apply HQ; [done | |].
      * eapply link_inv_invalidate; [done | exact Hsig' | done | done | done |].
        intros x hx p Hx. destruct (decide (x = sig)) as [-> |]; [congruence |].
        rewrite Hall in Hx by done. destruct (hs_objs s !! x) as [ob |]; [| done].
        injection Hx as Hx. by eapply sever_no_pin.
      * split; [done |]. split.
        -- exists sg'. simpl. by rewrite lookup_insert_eq.
        -- intros x Hx. simpl. rewrite lookup_insert_ne by done. by apply Hall.
    + apply wp_halfail, HE; [done | by apply link_inv_errno |].
      split; [done |]. split; [by exists sg' | done].
  - done.
Qed.

Lemma wp_signal_delete name s (Q : Z -> hal_state H -> Prop) (E : Z -> hal_state H -> Prop) :
  link_inv s ->
  (forall sig hs sg s', find_obj (sel_ok (sel_type_name HAL_SIGNAL name)) s = Some sig ->
     hs_objs s !! sig = Some (HalObj hs (BSig sg)) -> hh_refcnt hs = 0 ->
     link_inv s' -> severed s sig (snd (hh_clear_hdr hs)) sg s' -> Q 0 s') ->
  (forall e s', link_inv s' ->
     (e = - EBUSY -> exists sig hs sg, find_obj (sel_ok (sel_type_name HAL_SIGNAL name)) s = Some sig /\
        hs_objs s !! sig = Some (HalObj hs (BSig sg)) /\ hh_refcnt hs <> 0 /\ severed s sig hs sg s') ->
     (e <> - EBUSY -> hs_objs s' = hs_objs s /\ hs_halobjects s' = hs_halobjects s) -> E e s') ->
  wp (halg_signal_delete (Some name)) Q E s.
Proof.
  intros Hl HQ HE. unfold halg_signal_delete.
  assert (forall rc, - rc <> - EBUSY -> E (- rc) (set_halerrno (- rc) s)) as Hfail
    by (intros; apply HE; [by apply link_inv_errno | done | done]).
  apply wp_bind, wp_check_haldata; [apply Hl |].
  apply wp_bind, wp_check_lock; [apply Hl | intros _ | intros _; by apply Hfail].
  apply wp_bind, wp_check_strlen; [| intros _; by apply HE].
  intros n [= <-] _. apply wp_bind, wp_find_by_name; [apply Hl | apply Hl |].
  destruct (find_obj _ s) as [sig |] eqn:Ef; [| apply wp_halfail; by apply Hfail].
  pose proof Ef as (Hin & [hs b] & Hob & Hsel)%find_obj_some.
  apply sel_ok_type_name in Hsel as (_ & Ht & _); [| done].
  apply body_sig in Ht as [sg Hp]. simpl in Hp. subst b.
  apply wp_bind. eapply wp_free_sig; [done | done | exact Hob | |].
  - intros s' Hr Hl' Hs. apply wp_ret. eauto.
  - intros s' Hr Hl' Hs. apply HE; [done | | done]. intros _. eauto 10.
Qed.
End LinkSteps.
