(* ===== verification/HalSweep.v ===== *)
(** * Barriers and garbage collection

    What propagating the barriers of a signal does to its pins, and what
    [hal_sweep] does to the object list; both preserve the link invariant. *)
From S2P Require Import Prelude HalData HalMemory HalObject HalObjectFacts HalPin HalSignal HalLinks HalLinkOps HalLinkSteps.

Section Barriers.
Context {H : Type} {HA : Allocator H} {HS : AllocatorSpec H} {PF : Platform}.
Implicit Types s : hal_state H.

(** The header of a pin of direction [dir] under a signal with header [hs]. *)
Definition pin_barriers (hs : halhdr) (dir : Z) (h : halhdr) : halhdr :=
  let r h := if hh_rmb hs then hh_set_rmb h (hh_rmb hs) else h in
  let w h := if hh_wmb hs then hh_set_wmb h (hh_rmb hs) else h in
  if dir =? HAL_IN then r h else if dir =? HAL_OUT then w h
  else if dir =? HAL_IO then w (r h) else h.

Definition propagated (sig : Z) (hs : halhdr) (ob : hal_obj) : hal_obj :=
  match ob with
  | HalObj h (BPin p) =>
      if p_signal p =? sig then HalObj (pin_barriers hs (p_dir p) h) (BPin p) else ob
  | _ => ob
  end.
#[local] Arguments propagated : simpl never.

Lemma propagated_other sig hs h b :
  (forall p, b = BPin p -> p_signal p <> sig) -> propagated sig hs (HalObj h b) = HalObj h b.
Proof.
  intros Hb. destruct b; try done. unfold propagated. specialize (Hb p eq_refl).
  by apply Z.eqb_neq in Hb as ->.
Qed.

Lemma propagate_cb_run s o sig h p hs b :
  hs_objs s !! o = Some (HalObj h (BPin p)) -> hs_objs s !! sig = Some (HalObj hs b) ->
  propagate_barriers_cb o sig tt s
  = (Ok (0, tt), set_objs (<[o := HalObj (pin_barriers hs (p_dir p) h) (BPin p)]> (hs_objs s)) s).
Proof.
  intros Ho Hsig.
  assert (set_objs (<[o := HalObj h (BPin p)]> (hs_objs s)) s = s) as Hid
    by (rewrite insert_id by done; by destruct s).
  unfold propagate_barriers_cb, pin_barriers, upd_hdr, put_obj, get_pin, get_obj, mbind, M_bind.
  rewrite Hsig, Ho. simpl. destruct (p_dir p =? HAL_IN), (p_dir p =? HAL_OUT), (p_dir p =? HAL_IO),
    (hh_rmb hs), (hh_wmb hs); simpl; rewrite ?Ho, ?Hid; simpl;
    rewrite ?lookup_insert_eq; simpl; by rewrite ?insert_insert_eq.
Qed.

Record propagating s sig hs b (l : list Z) s' : Prop := Propagating {
  pp_inv : link_inv s';
  pp_state : s' = set_objs (hs_objs s') s;
  pp_nodup : NoDup l;
  pp_sub : forall x, x ∈ l -> x ∈ hs_halobjects s;
  pp_sig : hs_objs s' !! sig = Some (HalObj hs b);
  pp_todo : forall x, x ∈ l -> hs_objs s' !! x = hs_objs s !! x;
  pp_done : forall x, x ∉ l -> hs_objs s' !! x = propagated sig hs <$> hs_objs s !! x;
}.

Lemma propagating_step s sig hs b o l s' (E : Z -> hal_state H -> Prop) :
  body_type b <> HAL_PIN ->
  propagating s sig hs b (o :: l) s' -> exists ob, hs_objs s' !! o = Some ob /\
    if sel_ok (sel_type HAL_PIN) ob
    then wp (pin_by_signal_callback sig (Some propagate_barriers_cb) o tt)
           (fun ra s'' => fst ra = 0 /\ propagating s sig hs b l s'') E s'
    else propagating s sig hs b l s'.
Proof.
  intros Hnp [Hl Est Hnd Hsub Hsig Htodo Hdone]. apply NoDup_cons in Hnd as [Hol Hnd].
  assert (o ∈ hs_halobjects s') as Ho by (rewrite Est; apply Hsub; left).
  assert (0 < sig) as Hpos by (apply (wf_objs _ (li_wf _ Hl)); eauto).
  destruct (wf_list _ (li_wf _ Hl) _ Ho) as [[h bo] Hob]. exists (HalObj h bo). split; [done |].
  assert ((forall p, bo = BPin p -> p_signal p <> sig) -> propagating s sig hs b l s') as Hskip.
  { intros Hb. split; try done.
    - intros x Hx. apply Hsub. by right.
    - intros x Hx. apply Htodo. by right.
    - intros x Hx. destruct (decide (x = o)) as [-> |]; [| apply Hdone; by rewrite not_elem_of_cons].
      rewrite <- Htodo by left. rewrite Hob. simpl. by rewrite propagated_other. }
  case_match eqn:Hsel.
  2:{ apply Hskip. intros p ->.
      destruct (li_pins _ Hl _ _ _ Hob) as [_ _ _ [[Hu _] | (sg1 & _ & _ & Hv & _)]]; [lia |].
      assert (sel_ok (sel_type HAL_PIN) (HalObj h (BPin p)) = true)
        by (by apply sel_ok_type). congruence. }
  apply sel_ok_type in Hsel as [_ Ht]; [| done]. apply body_pin in Ht as [p Hp]. simpl in Hp. subst bo.
  unfold pin_by_signal_callback. apply wp_bind. eapply wp_get_pin; [exact Hob |].
  unfold pin_linked_to. destruct (p_signal p =? sig) eqn:E1.
  2:{ apply wp_ret. split; [done |]. apply Hskip. zb. intros ? [= <-]. done. }
  eapply run_wp; [by eapply propagate_cb_run |]. split; [done |].
  assert (o <> sig) as Hne by (intros ->; rewrite Hob in Hsig; injection Hsig as _ <-; done).
  split; simpl; try done.
  - eapply link_inv_hdr; [done | exact Hob | | ];
      unfold pin_barriers; repeat case_match; done.
  - rewrite Est. done.
  - intros x Hx. apply Hsub. by right.
  - by rewrite lookup_insert_ne.
  - intros x Hx. rewrite lookup_insert_ne by (by intros ->). apply Htodo. by right.
  - intros x Hx. destruct (decide (x = o)) as [-> |].
    + rewrite lookup_insert_eq, <- Htodo by left. rewrite Hob. simpl. unfold propagated. by rewrite E1.
    + rewrite lookup_insert_ne by done. apply Hdone. by rewrite not_elem_of_cons.
Qed.

Lemma wp_propagate_exact sig s hs b (Q : Z -> hal_state H -> Prop) E :
  link_inv s -> hs_objs s !! sig = Some (HalObj hs b) -> body_type b <> HAL_PIN ->
  (link_inv (set_objs (propagated sig hs <$> hs_objs s) s) ->
   Q 0 (set_objs (propagated sig hs <$> hs_objs s) s)) ->
  wp (halg_signal_propagate_barriers sig) Q E s.
Proof.
  intros Hl Hsig Hnp HQ. unfold halg_signal_propagate_barriers.
  assert (0 < sig) as Hpos by (apply (wf_objs _ (li_wf _ Hl)); eauto).
  apply wp_bind, wp_check_haldata; [apply Hl |]. apply wp_bind. unfold halg_foreach.
  apply wp_bind, wp_hal_data; [apply Hl |]. eapply wp_mono.
  - eapply (wp_foreach_all _ _ _ (fun l (_ : unit) s' => propagating s sig hs b l s')); [done | |].
    { intros o l [] s' Hpp. by apply propagating_step. }
    split; try done; [by destruct s | apply Hl |].
    intros x Hx. destruct (hs_objs s !! x) as [[h bo] |] eqn:Ex; [| done]. simpl.
    rewrite propagated_other; [done |]. intros p -> Hps.
    destruct (li_pins _ Hl _ _ _ Ex) as [_ _ _ [[Hu _] | (sg1 & _ & _ & _ & Hxl' & _)]]; [lia | done].
  - simpl. intros [n []] s' [Hl' Est _ _ _ _ Hdone].
    assert (hs_objs s' = propagated sig hs <$> hs_objs s) as Em.
    { apply map_eq. intros x. rewrite lookup_fmap. apply Hdone, not_elem_of_nil. }
    rewrite Em in Est. subst s'. by apply wp_ret, HQ.
  - done.
Qed.

(** Setting the barriers of a descriptor; a signal passes them on. *)
Definition set_barriers (r w : Z) (h : halhdr) : halhdr :=
  let h := if -1 <? r then hh_set_rmb h (negb (r =? 0)) else h in
  if -1 <? w then hh_set_wmb h (negb (w =? 0)) else h.

Lemma propagated_idem sig hs ob : propagated sig hs (propagated sig hs ob) = propagated sig hs ob.
Proof.
  destruct ob as [h b]. destruct b; try done. unfold propagated.
  destruct (p_signal p =? sig) eqn:E; [rewrite E | by rewrite E]. f_equal.
  unfold pin_barriers. repeat case_match; done.
Qed.

(** The effect on signal [sig] with header [hs]. *)
Definition barriers_state s sig hs sg (r w : Z) : hal_state H :=
  let hs' := set_barriers r w hs in
  set_objs (propagated sig hs' <$> <[sig := HalObj hs' (BSig sg)]> (hs_objs s)) s.

Lemma wp_object_setbarriers sig s hs sg r w (Q : Z -> hal_state H -> Prop) E :
  link_inv s -> hs_objs s !! sig = Some (HalObj hs (BSig sg)) -> hh_valid hs = true ->
  (link_inv (barriers_state s sig hs sg r w) -> Q 0 (barriers_state s sig hs sg r w)) ->
  wp (halg_object_setbarriers (Some sig) r w) Q E s.
Proof.
  intros Hl Hsig Hv HQ. unfold halg_object_setbarriers.
  apply wp_bind, wp_check_haldata; [apply Hl |]. apply wp_bind, wp_ret.
  apply wp_bind. eapply wp_get_obj; [exact Hsig |]. simpl. rewrite Hv. simpl.
  set (h1 := if -1 <? r then hh_set_rmb hs (negb (r =? 0)) else hs).
  apply wp_bind, (wp_mono _ (fun _ s' =>
      s' = set_objs (<[sig := HalObj h1 (BSig sg)]> (hs_objs s)) s) _ (fun _ _ => False)); [| | done].
  { unfold h1. destruct (-1 <? r); [eapply wp_upd_hdr; [exact Hsig | done] |].
    apply wp_ret. rewrite insert_id by done. by destruct s. }
  intros [] s1 ->. set (s1 := set_objs _ s).
  assert (hs_objs s1 !! sig = Some (HalObj h1 (BSig sg))) as Hsig1 by apply lookup_insert_eq.
  assert (link_inv s1) as Hl1 by (eapply link_inv_hdr; [done | exact Hsig | |]; unfold h1; case_match; done).
  apply wp_bind, (wp_mono _ (fun _ s' =>
      s' = set_objs (<[sig := HalObj (set_barriers r w hs) (BSig sg)]> (hs_objs s)) s) _ (fun _ _ => False));
    [| | done].
  { unfold set_barriers. fold h1. destruct (-1 <? w); [| by apply wp_ret].
    eapply wp_upd_hdr; [exact Hsig1 |]. simpl. by rewrite insert_insert_eq. }
  intros [] s2 ->. set (s2 := set_objs _ s).
  assert (hs_objs s2 !! sig = Some (HalObj (set_barriers r w hs) (BSig sg))) as Hsig2
    by apply lookup_insert_eq.
  assert (link_inv s2) as Hl2.
  { eapply link_inv_hdr; [done | exact Hsig | |]; unfold set_barriers; repeat case_match; done. }
  apply wp_bind, wp_ignore. eapply wp_propagate_exact; [done | exact Hsig2 | done |].
  intros Hl3. apply wp_ret. exact (HQ Hl3).
Qed.

(** Setting the barriers propagates them; a second time changes nothing. *)
Lemma wp_set_then_propagate sig s hs sg r w (Q : Z -> hal_state H -> Prop) E :
  link_inv s -> hs_objs s !! sig = Some (HalObj hs (BSig sg)) -> hh_valid hs = true ->
  (link_inv (barriers_state s sig hs sg r w) -> Q 0 (barriers_state s sig hs sg r w)) ->
  wp (ignore (halg_object_setbarriers (Some sig) r w) ≫= fun _ =>
      ignore (halg_signal_propagate_barriers sig) ≫= fun _ => mret 0) Q E s.
Proof.
  intros Hl Hob Hv HQ.
  apply wp_bind, wp_ignore. eapply wp_object_setbarriers; [done | exact Hob | done |].
  intros Hl1. apply wp_bind, wp_ignore.
  assert (hs_objs (barriers_state s sig hs sg r w) !! sig
          = Some (HalObj (set_barriers r w hs) (BSig sg))) as Hsig1.
  { unfold barriers_state. simpl. by rewrite lookup_fmap, lookup_insert_eq. }
  eapply wp_propagate_exact; [done | exact Hsig1 | done |].
  intros Hl2. apply wp_ret.
  assert (set_objs (propagated sig (set_barriers r w hs) <$> hs_objs (barriers_state s sig hs sg r w))
     (barriers_state s sig hs sg r w) = barriers_state s sig hs sg r w) as E1.
  { unfold barriers_state. simpl. unfold set_objs. simpl. f_equal. rewrite <- map_fmap_compose.
    apply map_fmap_ext. intros x ob _. apply propagated_idem. }
  rewrite E1. eauto.
Qed.

Lemma wp_signal_setbarriers name r w s (Q : Z -> hal_state H -> Prop) (E : Z -> hal_state H -> Prop) :
  link_inv s ->
  (forall sig hs sg, find_obj (sel_ok (sel_type_name HAL_SIGNAL name)) s = Some sig ->
     hs_objs s !! sig = Some (HalObj hs (BSig sg)) ->
     link_inv (barriers_state s sig hs sg r w) -> Q 0 (barriers_state s sig hs sg r w)) ->
  (forall e s', link_inv s' -> hs_objs s' = hs_objs s -> hs_halobjects s' = hs_halobjects s -> E e s') ->
  wp (halg_signal_setbarriers (Some name) r w) Q E s.
Proof.
  intros Hl HQ HE. unfold halg_signal_setbarriers.
  assert (forall rc, E (- rc) (set_halerrno (- rc) s)) as Hfail
    by (intros; apply HE; [by apply link_inv_errno | done | done]).
  apply wp_bind, wp_check_haldata; [apply Hl |].
  apply wp_bind, wp_check_lock; [apply Hl | intros _ | intros _; by apply Hfail].
  apply wp_bind, wp_check_strlen; [| intros _; by apply HE].
  intros n [= <-] _. apply wp_bind, wp_find_by_name; [apply Hl | apply Hl |].
  destruct (find_obj _ s) as [sig |] eqn:Ef; [| apply wp_halfail; by apply Hfail].
  pose proof Ef as (Hin & [hs b] & Hob & Hsel)%find_obj_some.
  apply sel_ok_type_name in Hsel as (Hv & Ht & _); [| done].
  apply body_sig in Ht as [sg Hp]. simpl in Hp, Hv. subst b.
  eapply wp_set_then_propagate; eauto.
Qed.
End Barriers.

(** ** [hal_sweep] *)
Section Sweep.
Context {H : Type} {HA : Allocator H} {HS : AllocatorSpec H} {PF : Platform}.
Implicit Types s : hal_state H.

Definition valid_obj s (o : Z) : bool :=
  match hs_objs s !! o with Some ob => hh_valid (o_hdr ob) | None => false end.

Definition others (o : Z) (l : list Z) : list Z := List.filter (fun x => negb (x =? o)) l.

Lemma elem_others o x l : x ∈ others o l <-> x ∈ l /\ x <> o.
Proof.
  rewrite !list_elem_of_In. unfold others. rewrite filter_In, negb_true_iff, Z.eqb_neq. done.
Qed.

Lemma others_perm o l : NoDup l -> o ∈ l -> l ≡ₚ o :: others o l.
Proof.
  induction l as [| x l IH]; intros Hn Ho; [by apply not_elem_of_nil in Ho |].
  apply NoDup_cons in Hn as [Hx Hn]. simpl. destruct (decide (x = o)) as [-> |].
  - rewrite Z.eqb_refl. simpl. f_equiv. unfold others.
    rewrite forallb_filter_id; [done |].
    apply forallb_forall. intros y Hy%list_elem_of_In. apply negb_true_iff, Z.eqb_neq. by intros ->.
  - assert ((x =? o) = false) as -> by (by apply Z.eqb_neq). simpl.
    apply elem_of_cons in Ho as [-> | Ho]; [done |]. rewrite Permutation_swap. f_equiv. auto.
Qed.

Lemma filter_andb {A} (f g : A -> bool) l :
  List.filter f (List.filter g l) = List.filter (fun x => g x && f x) l.
Proof.
  induction l as [| x l IH]; simpl; [done |]. destruct (g x); simpl; [| done].
  by rewrite IH.
Qed.

Lemma NoDup_others o l : NoDup l -> NoDup (others o l).
Proof. rewrite !NoDup_ListNoDup. apply List.NoDup_filter. Qed.

(** The state without the invalid descriptor [o]. *)
Definition removed s o s' : Prop :=
  hs_objs s' = delete o (hs_objs s) /\ hs_halobjects s' = others o (hs_halobjects s) /\
  hs_cells s' = hs_cells s /\ hs_lock s' = hs_lock s.

Lemma type_names_others (m : gmap Z hal_obj) o t l :
  typed_name m t o = None ->
  omap (typed_name (delete o m) t) (others o l) = omap (typed_name m t) l.
Proof.
  intros Ho. induction l as [| x l IH]; simpl; [done |]. destruct (decide (x = o)) as [-> |].
  - rewrite Z.eqb_refl, Ho. apply IH.
  - assert ((x =? o) = false) as -> by (by apply Z.eqb_neq). simpl.
    assert (typed_name (delete o m) t x = typed_name m t x) as ->
      by (unfold typed_name; by rewrite lookup_delete_ne).
    destruct (typed_name m t x); [f_equal |]; apply IH.
Qed.

Lemma link_inv_removed s o h b s' :
  link_inv s -> (o ∈ hs_halobjects s) -> hs_objs s !! o = Some (HalObj h b) -> hh_valid h = false ->
  removed s o s' -> wf s' -> link_inv s'.
Proof.
  intros [Hw Hs Hp Hq Hins Hpins Hsigs] Hin Ho Hv (Eo & El & _) Hw'.
  assert (forall t, type_names s' t = type_names s t) as Hn.
  { intros t. unfold type_names. rewrite Eo, El. apply type_names_others.
    unfold typed_name. rewrite Ho. simpl. by rewrite Hv. }
  assert (forall x xob, hs_objs s' !! x = Some xob -> x <> o /\ hs_objs s !! x = Some xob) as Hback.
  { intros x xob Hx. rewrite Eo in Hx. by apply lookup_delete_Some in Hx as [? ?]. }
  assert (forall x xob, hs_objs s !! x = Some xob -> hh_valid (o_hdr xob) = true ->
    hs_objs s' !! x = Some xob /\ (x ∈ hs_halobjects s -> x ∈ hs_halobjects s')) as Hkeep.
  { intros x xob Hx Hxv. assert (x <> o) as Hne by (intros ->; rewrite Ho in Hx; injection Hx as <-; simpl in Hxv; congruence).
    rewrite Eo, El, lookup_delete_ne by done. split; [done |]. intros. by apply elem_others. }
  assert (forall x, x ∈ hs_halobjects s' -> x ∈ hs_halobjects s) as Hsub
    by (intros x; rewrite El; by intros [? _]%elem_others).
  assert (forall id, resolves s id -> resolves s' id) as Hres.
  { intros id (x & xob & Hx & Hxob & Hsel). exists x, xob.
    assert (hh_valid (o_hdr xob) = true) as Hxv
      by (by destruct Hsel as [[? _]%sel_id_type | [? _]%sel_id_type]).
    destruct (Hkeep _ _ Hxob Hxv). auto. }
  assert (forall f sig, 0 < sig -> total f (hs_objs s') sig (hs_halobjects s')
    = total f (hs_objs s) sig (hs_halobjects s)) as Htot.
  { intros f sig Hpos.
    rewrite (total_perm f (hs_objs s) sig _ _ (others_perm o _ (wf_nodup _ Hw) Hin)), El.
    unfold total at 2. simpl. assert (contrib f (hs_objs s) sig o = 0) as ->.
    { unfold contrib. rewrite Ho. destruct b; try done.
      destruct (p_signal p =? sig) eqn:E; zb; [| done].
      destruct (Hpins _ _ _ Ho) as [_ _ _ [[Hu _] | (sg & _ & _ & Hv' & _)]]; [lia | congruence]. }
    rewrite Z.add_0_l. apply total_ext. intros x [_ Hx]%elem_others. unfold contrib.
    by rewrite Eo, lookup_delete_ne. }
  split; rewrite ?Hn; try done.
  - intros t. rewrite Hn. apply Hs.
  - intros x hx i Hx [_ Hxob]%Hback Hxv.
    destruct (Hins _ _ _ (Hsub _ Hx) Hxob Hxv) as (c & cob & Hc & Hcob & Hsel).
    pose proof Hsel as [Hcv _]%sel_id_type; [| done].
    destruct (Hkeep _ _ Hcob Hcv). exists c, cob. auto.
  - intros x hx p [Hxo Hx]%Hback. destruct (Hpins _ _ _ Hx) as [Hd Hlg Hown Hlink].
    split; [done | done | auto |].
    destruct Hlink as [| (sig & Hs1 & Hs2 & Hs3 & Hs4 & Hs5 & hs & sg & Hs6 & Hs7 & Hs8)];
      [by left | right]. exists sig.
    destruct (Hkeep _ _ Hx Hs3), (Hkeep _ _ Hs6 Hs7). repeat split; eauto 10.
  - intros x hx sx Hx [Hxo Hxob]%Hback.
    destruct (Hsigs _ _ _ (Hsub _ Hx) Hxob) as [? ? ? ? ? ?].
    assert (0 < x) by (apply (wf_objs _ Hw); eauto). split; rewrite ?Htot by done; done.
Qed.

(** Freeing the descriptor and its name. *)
Lemma wf_removed s o h b hp g :
  wf s -> hs_objs s !! o = Some (HalObj h b) ->
  heap_ok (set_heap hp s) -> h_live hp = h_live (hs_heap s) ∖ {[o]} -> h_wf g ->
  (forall q, q ∈ h_live (hs_gheap s) -> (forall str, hh_name h <> Some (q, str)) -> q ∈ h_live g) ->
  wf (set_heap hp (set_halobjects (others o (hs_halobjects s))
        (set_objs (delete o (hs_objs s)) (set_gheap g s)))).
Proof.
  intros Hw Ho Hhp Hlp Hg Hlg. split; simpl; try done.
  - apply Hw.
  - intros x [xob Hx]. apply lookup_delete_Some in Hx as [Hxo Hx].
    destruct (wf_objs _ Hw x ltac:(eauto)). rewrite Hlp. set_solver.
  - apply NoDup_others, Hw.
  - intros x Hx. simpl in Hx. apply elem_others in Hx as [Hx Hxo]. simpl.
    rewrite lookup_delete_ne by done. by apply (wf_list _ Hw).
  - intros x xob q str Hx Hq. apply lookup_delete_Some in Hx as [Hxo Hx].
    apply Hlg; [by eapply (wf_names _ Hw) |]. intros str' Hq'. apply Hxo.
    by eapply (wf_names_inj _ Hw _ _ _ _ _ _ _ Ho Hx).
  - intros x y xob yob q str1 str2 Hx Hy. apply lookup_delete_Some in Hx as [_ Hx], Hy as [_ Hy].
    by apply (wf_names_inj _ Hw).
Qed.

Lemma wp_sweep_one o n s (Q : Z -> hal_state H -> Prop) E :
  link_inv s -> (o ∈ hs_halobjects s) ->
  (valid_obj s o = true -> Q n s) ->
  (forall s', valid_obj s o = false -> link_inv s' -> removed s o s' -> Q (n + 1) s') ->
  wp (sweep_one o n) Q E s.
Proof.
  intros Hl Hin HQ1 HQ2. pose proof (li_wf _ Hl) as Hw. unfold sweep_one.
  destruct (wf_list _ Hw _ Hin) as [[h b] Ho]. unfold valid_obj in *. rewrite Ho in *. simpl in *.
  apply wp_bind. eapply wp_get_obj; [exact Ho |]. simpl.
  destruct (hh_valid h) eqn:Hv; [by apply wp_ret, HQ1 |].
  set (Post := fun (_ : unit) s1 => exists g k, s1 = set_str_freed k (set_gheap g s) /\ h_wf g /\
    forall q, q ∈ h_live (hs_gheap s) -> (forall str, hh_name h <> Some (q, str)) -> q ∈ h_live g).
  apply wp_bind, (wp_mono _ Post _ (fun _ _ => False)); [| | done].
  { destruct (hh_name h) as [[p str] |] eqn:En.
    - apply wp_bind, wp_modify.
      assert (p ∈ h_live (hs_gheap s)) as Hp by (eapply (wf_names _ Hw); [exact Ho | exact En]).
      apply wp_gheap_free; [apply Hw | exact Hp |]. intros g Hgwf Hlive.
      exists g, (u64 (hs_str_freed s + (strlen str + 1))).
      split; [done |]. split; [done |]. intros q Hq Hne. rewrite Hlive.
      assert (q <> p) by (intros ->; by eapply Hne). set_solver.
    - apply wp_ret. exists (hs_gheap s), (hs_str_freed s). split; [by destruct s |].
      split; [apply Hw | done]. }
  intros [] s1 (g & k & -> & Hg & Hlg). apply wp_bind, wp_modify, wp_bind. simpl.
  destruct (wf_objs _ Hw o ltac:(eauto)) as [_ Hlive].
  destruct (wf_heap _ Hw) as [Hhw Hroom]. destruct (h_free_ok _ _ Hhw Hlive) as (h2 & Hf2 & Hl2 & Hwf2 & Hr2).
  unfold wp at 1, shmfree_desc. simpl. rewrite (wf_init _ Hw), Hf2. apply wp_ret, HQ2; [done | | done].
  eapply (link_inv_removed s o h b); try done.
  assert (wf (set_heap h2 (set_halobjects (others o (hs_halobjects s))
        (set_objs (delete o (hs_objs s)) (set_gheap g s))))) as [] by (eapply wf_removed; try done; split; [done | by apply Hr2]).
  by split.
Qed.

(** What is left when the objects of [l] have been looked at. *)
Definition kept s (l : list Z) (x : Z) : bool := negb (bool_decide (x ∈ l)) || valid_obj s x.

#[local] Arguments kept : simpl never.

Record swept s (l : list Z) s' : Prop := Swept {
  sw_inv : link_inv s';
  sw_list : hs_halobjects s' = List.filter (kept s l) (hs_halobjects s);
  sw_objs : forall x, hs_objs s' !! x = if kept s l x then hs_objs s !! x else None;
}.

Lemma kept_nil s x : kept s [] x = true.
Proof. unfold kept. by rewrite bool_decide_false by apply not_elem_of_nil. Qed.

Lemma wp_sweep_list l : forall n s (Q : Z -> hal_state H -> Prop) E,
  link_inv s -> NoDup l -> (forall x, x ∈ l -> x ∈ hs_halobjects s) ->
  (forall s', swept s l s' ->
     Q (n + Z.of_nat (length (List.filter (fun x => negb (valid_obj s x)) l))) s') ->
  wp (sweep_list l n) Q E s.
Proof.
  induction l as [| o l IH]; intros n s Q E Hl Hnd Hsub HQ.
  - apply wp_ret. specialize (HQ s). rewrite Z.add_0_r in HQ. apply HQ. split; [done | |].
    + rewrite forallb_filter_id; [done |]. apply forallb_forall. intros x _. apply kept_nil.
    + intros x. by rewrite kept_nil.
  - apply NoDup_cons in Hnd as [Hol Hnd]. simpl. apply wp_bind.
    assert (forall x, x ∈ l -> x <> o) as Hne by (by intros x Hx ->).
    apply wp_sweep_one; [done | apply Hsub; left | |].
    + intros Hv. apply IH; try done; [intros; apply Hsub; by right |].
      intros s' [Hl' El Eo]. specialize (HQ s'). simpl in HQ. rewrite Hv in HQ. apply HQ.
      assert (forall x, kept s (o :: l) x = kept s l x) as Hk.
      { intros x. unfold kept. destruct (decide (x = o)) as [-> |]; [by rewrite Hv, !orb_true_r |].
        f_equal. f_equal. apply bool_decide_ext. rewrite elem_of_cons. intuition congruence. }
      split; [done | | intros x; by rewrite Hk].
      rewrite El. apply filter_ext. intros x. by rewrite Hk.
    + intros s1 Hv Hl1 (Eo & El & _).
      assert (forall x, x <> o -> valid_obj s1 x = valid_obj s x) as Hvs
        by (intros x Hx; unfold valid_obj; by rewrite Eo, lookup_delete_ne).
      assert (forall x, kept s (o :: l) x = negb (x =? o) && kept s1 l x) as Hk.
      { intros x. unfold kept. destruct (x =? o) eqn:Ex; zb; simpl.
        - subst. rewrite Hv, bool_decide_true by left. done.
        - rewrite Hvs by done. f_equal. f_equal. apply bool_decide_ext. rewrite elem_of_cons.
          intuition congruence. }
      apply IH; try done.
      { intros x Hx. rewrite El. apply elem_others. split; [apply Hsub; by right | auto]. }
      intros s' [Hl' El' Eo'].
      assert (List.filter (fun x => negb (valid_obj s1 x)) l
              = List.filter (fun x => negb (valid_obj s x)) l) as ->.
      { apply filter_ext_in. intros x Hx%list_elem_of_In. by rewrite Hvs by auto. }
      specialize (HQ s'). simpl in HQ. rewrite Hv in HQ. simpl in HQ.
      cbn [length] in HQ. rewrite Nat2Z.inj_succ, <- Z.add_1_l, Z.add_assoc in HQ.
      apply HQ. split; [done | |].
      * rewrite El', El. unfold others. rewrite filter_andb. apply filter_ext. intros x.
        by rewrite Hk.
      * intros x. rewrite Eo', Hk, Eo. destruct (x =? o) eqn:Ex; zb; simpl.
        -- subst. rewrite lookup_delete_eq. by case_match.
        -- by rewrite lookup_delete_ne.
Qed.

(** Garbage collection removes exactly the invalid listed objects. *)
Lemma wp_sweep s (Q : Z -> hal_state H -> Prop) E :
  link_inv s ->
  (forall s', swept s (hs_halobjects s) s' ->
     Q (Z.of_nat (length (List.filter (fun x => negb (valid_obj s x)) (hs_halobjects s)))) s') ->
  wp hal_sweep Q E s.
Proof.
  intros Hl HQ. unfold hal_sweep. apply wp_bind, wp_hal_data; [apply Hl |].
  apply wp_sweep_list; [done | apply Hl | done |]. exact HQ.
Qed.
End Sweep.
