(* ===== verification/HalBoot.v ===== *)
(** * A concrete HAL

    An allocator that satisfies [AllocatorSpec] (blocks are handed out
    upwards and never reused), a platform, and the state of a HAL segment
    that holds one component: the inputs of the witnesses. *)
From S2P Require Import Prelude RtapiTask HalData HalMemory HalObject HalObjectFacts HalPin HalSignal HalLinks HalLinkOps.

(** The next free offset, and the blocks in use. *)
Record bump := Bump { b_next : Z; b_live : gset Z }.

Definition bump_alloc (h : bump) (n : Z) : result (option (Z * bump)) :=
  if (0 <? b_next h) && (b_next h <? 2 ^ 30) && (0 <=? n) && (n <? 2 ^ 20)
  then Ok (Some (b_next h, Bump (b_next h + n + 8) ({[b_next h]} ∪ b_live h)))
  else Ok None.

#[export] Instance bump_allocator : Allocator bump := {
  h_init := Bump 64 ∅;
  h_calloc := bump_alloc;
  h_malloc_aligned h n _ := bump_alloc h n;
  h_free h p := Ok (Bump (b_next h) (b_live h ∖ {[p]}));
  h_addmem h _ _ := Ok h;
}.

Definition bump_wf (h : bump) : Prop := forall p, p ∈ b_live h -> p < b_next h.

Lemma bump_alloc_ok h n :
  bump_wf h ->
  match bump_alloc h n with
  | Ok (Some (p, h')) => 0 < p < 2 ^ 31 /\ (p ∉ b_live h) /\ b_live h' = {[p]} ∪ b_live h /\ bump_wf h' /\
      (forall b t, 0 <= b <= t /\ t < 2 ^ 31 -> 0 <= b <= t /\ t < 2 ^ 31)
  | Ok None => True
  | _ => False
  end.
Proof.
  unfold bump_alloc. intros Hw. destruct (_ && _) eqn:Eg; [| done].
  rewrite !andb_true_iff in Eg. destruct Eg as [[[E1 E2] E3] E4]. zb.
  split; [lia |]. split; [intros Hp%Hw; lia |]. split; [done |]. split; [| done].
  intros q Hq. simpl in *. apply elem_of_union in Hq as [->%elem_of_singleton | Hq%Hw]; lia.
Qed.

#[export] Instance bump_spec : AllocatorSpec bump.
Proof.
  refine {| h_wf := bump_wf; h_live := b_live; h_room _ b t := 0 <= b <= t /\ t < 2 ^ 31; h_avail _ _ := True |}.
  - done.
  - intros h b t t' Hr Ht. lia.
  - intros h n Hw _. by apply bump_alloc_ok.
  - intros h n Hw _ _. by apply bump_alloc_ok.
  - intros h p Hw Hp. eexists. split; [reflexivity |]. split; [done |]. split; [| done]. intros q Hq. apply Hw. simpl in Hq. set_solver.
  - done.
  - intros h b t n Hw Hr Hn _ Ht. split; [done |]. split; [done |]. lia.
Defined.

#[export] Instance platform0 : Platform := {
  sizeof_desc _ := 200;
  sizeof_funct_entry := 64;
  arena_offset := 1024;
  hal_size := 262144;
  hal_descriptor_alignment := 0;
  hal_shmem_base := 0;
  hal_thread_stack_size := 32768;
  rtapi_instance := 0;
  sizeof_desc_ok _ := ltac:(lia);
  hal_descriptor_alignment_ok := or_introl eq_refl;
}.

#[export] Instance callbacks0 : Callbacks bump := {
  run_ctor _ _ := mret 0;
  run_dtor _ _ _ _ := mret tt;
  run_usrfunct _ _ := mret 0;
}.

(** A segment with the component "comp", id 1, whose descriptor is at 64. *)
Definition comp_hdr : halhdr := HalHdr 1 0 (Some (64, "comp")) 0 false true false false.

Definition boot : hal_state bump :=
  HalState true HAL_VER (Bump 512 {[64]}) (Bump 512 {[64]})
    {[64 := HalObj comp_hdr (BComp (HalComp TYPE_RT COMP_INITIALIZING 0 0 0 0 0 None None 0 0 0))]}
    [64] [] [] ∅ ∅ HAL_LOCK_NONE 0 0 0 1024 262144 0 0 0 0 1 0 0
    (RtapiData 0 ∅ 0 0) no_rings.

Lemma boot_lookup o ob : hs_objs boot !! o = Some ob ->
  o = 64 /\ ob = HalObj comp_hdr (BComp (HalComp TYPE_RT COMP_INITIALIZING 0 0 0 0 0 None None 0 0 0)).
Proof. intros Ho. simpl in Ho. apply lookup_singleton_Some in Ho as [<- <-]. done. Qed.

Lemma boot_wf : wf boot.
Proof.
  assert (forall p, p ∈ ({[64]} : gset Z) -> p < 512) as Hb by (intros p ->%elem_of_singleton; lia).
  split; try done.
  - intros o [ob [-> _]%boot_lookup]. split; [lia |]. simpl. set_solver.
  - simpl. apply NoDup_singleton.
  - intros o Ho. simpl in Ho. apply list_elem_of_singleton in Ho as ->. by eexists.
  - intros o ob p str [-> ->]%boot_lookup [= <- <-]. simpl. set_solver.
  - intros o1 o2 ob1 ob2 p str1 str2 [-> _]%boot_lookup [-> _]%boot_lookup. done.
Qed.

Lemma boot_inv : link_inv boot.
Proof.
  split.
  - apply boot_wf.
  - intros t. change (type_names boot t) with (omap (typed_name (hs_objs boot) t) [64]). simpl.
    destruct (typed_name _ t 64); repeat constructor.
  - vm_compute. constructor.
  - vm_compute. constructor.
  - intros o h i _ [_ [=]]%boot_lookup.
  - intros o h p [_ [=]]%boot_lookup.
  - intros o h sg _ [_ [=]]%boot_lookup.
Qed.
