(* ===== verification/HalFunct.v ===== *)
(** * HAL functs (hal/src/hal_funct.c)

    A funct is exported by a component and put on threads through function
    entries.  The entries of a thread are a doubly linked list, here the list
    of their addresses; a cursor into it is an index, 0 being the list head.
    Freed entries are kept on [funct_entry_free]. *)
From S2P Require Import Prelude HalData HalMemory HalObject HalPin.

(** ** Positions in a circular list of [len] entries *)
Definition cursor_next (len i : Z) : Z := if i =? len then 0 else i + 1.
Definition cursor_prev (len i : Z) : Z := if i =? 0 then len else i - 1.

(** [while (++n < position)]; [None]: the end of the list was reached. *)
Fixpoint walk_forward (fuel : nat) (len position n i : Z) : option Z :=
  match fuel with
  | O => None
  | S fuel =>
      let n := n + 1 in
      if n <? position then
        let i := cursor_next len i in
        if i =? 0 then None else walk_forward fuel len position n i
      else Some i
  end.

(** [while (--n > position)] *)
Fixpoint walk_backward (fuel : nat) (len position n i : Z) : option Z :=
  match fuel with
  | O => None
  | S fuel =>
      let n := n - 1 in
      if position <? n then
        let i := cursor_prev len i in
        if i =? 0 then None else walk_backward fuel len position n i
      else Some i
  end.

(** The entry after which a new one is inserted.  Each step moves to another
    entry or fails, so that [len + 2] steps are enough. *)
Definition insertion_point (len position : Z) : option Z :=
  let fuel := Z.to_nat (len + 2) in
  if 0 <? position then walk_forward fuel len position 0 0
  else cursor_prev len <$> walk_backward fuel len position 0 0.

(** [dlist_add_after] at cursor [i]. *)
Definition insert_after {A} (i : Z) (x : A) (l : list A) : list A :=
  take (Z.to_nat i) l ++ x :: drop (Z.to_nat i) l.

(** ** Exporting *)
Record hal_export_xfunct_args := XfunctArgs {
  xf_type : Z;
  xf_funct : Z;
  xf_arg : Z;
  xf_uses_fp : Z;
  xf_reentrant : Z;
  xf_owner_id : Z;
}.

Section HalFunct.
Context {H : Type} {HA : Allocator H} {PF : Platform} {CB : Callbacks H}.
Abbreviation HM := (M (hal_state H)).

Definition set_funct (o : Z) (f : hal_funct) : HM unit := set_body o (BFunct f).

(** [str] is the formatted name. *)
Definition halg_export_xfunctfv (xf : hal_export_xfunct_args) (str : string) : HM Z :=
  CHECK_HALDATA ≫= fun _ =>
  CHECK_LOCK HAL_LOCK_LOAD ≫= fun _ =>
  let '(sz, name) := vsnprintf (HAL_NAME_LEN + 1) str in
  if HAL_NAME_LEN <? sz then halfail ENOMEM
  else
    dup ← halpr_find_funct_by_name name;
    match dup with
    | Some _ => halfail EINVAL
    | None =>
    comp ← halpr_find_owning_comp (xf_owner_id xf);
    match comp with
    | None => halfail EINVAL
    | Some c =>
    cb ← get_comp c;
    if c_type cb =? TYPE_USER then halfail EINVAL
    else
    inst ← halpr_find_inst_by_id (xf_owner_id xf);
    if match inst with None => COMP_INITIALIZING <? c_state cb | Some _ => false end
    then halfail EINVAL
    else
    nf ← halg_create_objectf HAL_FUNCT (xf_owner_id xf) name;
    set_funct nf (HalFunct (xf_arg xf) (xf_funct xf) (xf_type xf) 0 0 0
                    (xf_uses_fp xf) (xf_reentrant xf) 0) ≫= fun _ =>
    halg_add_object nf ≫= fun _ =>
    (if (xf_type xf =? FS_LEGACY_THREADFUNC) || (xf_type xf =? FS_XTHREADFUNC) then
       rt ← halx_pin_s32_newf HAL_OUT (xf_owner_id xf) (Some (name ++ ".time")%string);
       f ← get_funct nf;
       set_funct nf (funct_set_pins f rt (f_maxtime f) (f_maxtime_increased f)) ≫= fun _ =>
       mt ← halx_pin_s32_newf HAL_IO (xf_owner_id xf) (Some (name ++ ".tmax")%string);
       f ← get_funct nf;
       set_funct nf (funct_set_pins f (f_runtime f) mt (f_maxtime_increased f)) ≫= fun _ =>
       inc ← halx_pin_bit_newf HAL_OUT (xf_owner_id xf) (Some (name ++ ".tmax-inc")%string);
       f ← get_funct nf;
       set_funct nf (funct_set_pins f (f_runtime f) (f_maxtime f) inc)
     else mret tt) ≫= fun _ =>
    mret 0
    end
    end.

Definition hal_export_xfunctf := halg_export_xfunctfv.
Definition halg_export_xfunctf := halg_export_xfunctfv.

Definition hal_export_functf (funct arg uses_fp reentrant owner_id : Z) (str : string) : HM Z :=
  halg_export_xfunctfv (XfunctArgs FS_LEGACY_THREADFUNC funct arg uses_fp reentrant owner_id) str.

Definition hal_export_funct (name : string) (funct arg uses_fp reentrant owner_id : Z) : HM Z :=
  hal_export_functf funct arg uses_fp reentrant owner_id name.

(** ** Userland functs; the result is the function's. *)
Definition hal_call_usrfunct (name : option string) (argc : Z) (argv : option (list (option string)))
  : HM Z :=
  CHECK_HALDATA ≫= fun _ =>
  name ← CHECK_STR name;
  if negb (argc =? 0) && match argv with None => true | Some _ => false end then halfail EINVAL
  else
    funct ← halpr_find_funct_by_name name;
    match funct with
    | None => halfail ENOENT
    | Some o =>
        f ← get_funct o;
        if negb (f_type f =? FS_USERLAND) then halfail ENOENT
        else
          let args := take (Z.to_nat argc) (default [] argv) in
          match mapM id args with
          | None => halfail EINVAL
          | Some args => run_usrfunct (f_funct f) args
          end
    end.

(** ** Function entries *)
Definition get_fentry (e : Z) : HM hal_funct_entry := fun s =>
  match hs_fentries s !! e with Some fe => (Ok fe, s) | None => (Crash, s) end.
Definition put_fentry (e : Z) (fe : hal_funct_entry) : HM unit :=
  modify (fun s => set_fentries (<[e := fe]> (hs_fentries s)) s).

Definition fe_clear (fe : hal_funct_entry) : hal_funct_entry :=
  HalFunctEntry (fe_rmb fe) (fe_wmb fe) (fe_type fe) 0 0 0.

(** When memory runs out, [dlist_init_entry] writes through NULL. *)
Definition alloc_funct_entry_struct : HM Z :=
  s ← hal_data;
  match hs_funct_entry_free s with
  | e :: rest =>
      modify (set_funct_entry_free rest) ≫= fun _ =>
      fe ← get_fentry e;
      put_fentry e (fe_clear fe) ≫= fun _ => mret e
  | [] =>
      r ← attempt (shmalloc_rt sizeof_funct_entry);
      match r with
      | None => crash
      | Some e => put_fentry e (HalFunctEntry 0 0 0 0 0 0) ≫= fun _ => mret e
      end
  end.

Definition free_funct_entry_struct (e : Z) : HM unit :=
  fe ← get_fentry e;
  (if 0 <? fe_funct_ptr fe then
     f ← get_funct (fe_funct_ptr fe);
     set_funct (fe_funct_ptr fe) (funct_set_users f (s32 (f_users f - 1)))
   else mret tt) ≫= fun _ =>
  put_fentry e (fe_clear fe) ≫= fun _ =>
  modify (fun s => set_funct_entry_free (e :: hs_funct_entry_free s) s).

(** The name, or the name with ".funct" appended, truncated to the buffer. *)
Definition find_funct (funct_name : string) : HM (option Z) :=
  funct ← halpr_find_funct_by_name funct_name;
  match funct with
  | Some f => mret (Some f)
  | None => halpr_find_funct_by_name (snd (vsnprintf HAL_NAME_LEN (funct_name ++ ".funct")))
  end.

Definition set_thread (o : Z) (t : hal_thread) : HM unit := set_body o (BThread t).

Definition hal_add_funct_to_thread (funct_name thread_name : option string)
    (position read_barrier write_barrier : Z) : HM Z :=
  CHECK_HALDATA ≫= fun _ =>
  CHECK_LOCK HAL_LOCK_CONFIG ≫= fun _ =>
  funct_name ← CHECK_STR funct_name;
  thread_name ← CHECK_STR thread_name;
  if position =? 0 then halfail EINVAL
  else
  funct ← find_funct funct_name;
  match funct with
  | None => halfail EINVAL
  | Some fo =>
  f ← get_funct fo;
  if negb ((f_type f =? FS_LEGACY_THREADFUNC) || (f_type f =? FS_XTHREADFUNC)) then halfail EINVAL
  else if (0 <? f_users f) && (f_reentrant f =? 0) then halfail EINVAL
  else
  thread ← halpr_find_thread_by_name thread_name;
  match thread with
  | None => halfail EINVAL
  | Some to =>
  t ← get_thread to;
  if negb (f_uses_fp f =? 0) && (t_uses_fp t =? 0) then halfail EINVAL
  else
  match insertion_point (Z.of_nat (length (t_funct_list t))) position with
  | None => halfail EINVAL
  | Some i =>
      e ← alloc_funct_entry_struct;
      put_fentry e (HalFunctEntry (u8 read_barrier) (u8 write_barrier) (u8 (f_type f))
                      (f_arg f) (f_funct f) fo) ≫= fun _ =>
      t ← get_thread to;
      set_thread to (thread_set_funct_list t (insert_after i e (t_funct_list t))) ≫= fun _ =>
      f ← get_funct fo;
      set_funct fo (funct_set_users f (s32 (f_users f + 1))) ≫= fun _ => mret 0
  end
  end
  end.

(** The first entry of the list that calls the funct. *)
Fixpoint find_entry (fo : Z) (l : list Z) : HM (option Z) :=
  match l with
  | [] => mret None
  | e :: l' => fe ← get_fentry e; if fe_funct_ptr fe =? fo then mret (Some e) else find_entry fo l'
  end.

(** [dlist_remove_entry] *)
Definition unlist (e : Z) (l : list Z) : list Z := List.filter (fun x => negb (x =? e)) l.

Definition remove_entry (to e : Z) : HM unit :=
  t ← get_thread to; set_thread to (thread_set_funct_list t (unlist e (t_funct_list t))).

Definition hal_del_funct_from_thread (funct_name thread_name : option string) : HM Z :=
  CHECK_HALDATA ≫= fun _ =>
  CHECK_LOCK HAL_LOCK_CONFIG ≫= fun _ =>
  funct_name ← CHECK_STR funct_name;
  thread_name ← CHECK_STR thread_name;
  funct ← find_funct funct_name;
  match funct with
  | None => halfail EINVAL
  | Some fo =>
  f ← get_funct fo;
  if f_users f =? 0 then halfail EINVAL
  else
  thread ← halpr_find_thread_by_name thread_name;
  match thread with
  | None => halfail EINVAL
  | Some to =>
  t ← get_thread to;
  e ← find_entry fo (t_funct_list t);
  match e with
  | None => halfail EINVAL
  | Some e => remove_entry to e ≫= fun _ => free_funct_entry_struct e ≫= fun _ => mret 0
  end
  end
  end.

(** ** Deletion *)

(** The loop of [thread_cb] over the entries of thread [to]. *)
Fixpoint thread_cb_loop (to fo : Z) (l : list Z) : HM unit :=
  match l with
  | [] => mret tt
  | e :: l' =>
      fe ← get_fentry e;
      (if fe_funct_ptr fe =? fo
       then remove_entry to e ≫= fun _ => free_funct_entry_struct e
       else mret tt) ≫= fun _ =>
      thread_cb_loop to fo l'
  end.

Definition thread_cb (fo to : Z) (_ : unit) : HM (Z * unit) :=
  t ← get_thread to; thread_cb_loop to fo (t_funct_list t) ≫= fun _ => mret (0, tt).

Definition free_funct_struct (fo : Z) : HM unit :=
  f ← get_funct fo;
  (if 0 <? f_users f
   then halg_foreach (sel_type HAL_THREAD) (thread_cb fo) tt ≫= fun _ => mret tt
   else mret tt) ≫= fun _ =>
  ignore (halg_free_object fo).
End HalFunct.
