(* ===== verification/HalThread.v ===== *)
(** * HAL threads (hal/src/hal_thread.c)

    A thread is a periodic task of the runtime that calls the functs of its
    list in order.  [hs_threads] is the list [hal_data->threads], whose first
    element limits the period and gives the priority of a new thread.  The
    jitter statistics (floating point) are not modelled. *)
From S2P Require Import Prelude RtapiTask HalData HalMemory HalObject HalPin HalFunct.

Definition TF_NOWAIT : Z := 2.

Record hal_threadargs := ThreadArgs {
  th_name : option string;
  th_period_nsec : Z;
  th_uses_fp : Z;
  th_cpu_id : Z;
  th_flags : Z;
}.

(** The functs of the loaded components, as a thread calls them. *)
Class ThreadFuncts (H : Type) := {
  run_legacy : Z -> Z -> Z -> M (hal_state H) unit;   (* funct, arg, period *)
  run_xthread : Z -> Z -> M (hal_state H) unit;       (* funct, arg *)
}.

Section HalThread.
Context {H : Type} {HA : Allocator H} {PF : Platform} {FL : Flavor} {TH : ThreadFuncts H}.
Abbreviation HM := (M (hal_state H)).

(** ** One cycle of a thread ([thread_task]) *)

(** The local variables that live across cycles; [tl_reads] counts the
    readings of the clock, [tl_end_time] is uninitialized at first. *)
Record task_locals := TaskLocals {
  tl_last_start : Z;
  tl_end_time : option Z;
  tl_reads : nat;
}.

Definition task_locals_init : task_locals := TaskLocals 0 None 0.

(** [rtapi_get_time]: the successive readings. *)
Variable now : nat -> Z.

(** The link of entry [e] in the list of its thread; [None] is the root.
    An entry that was taken off the list has lost its links. *)
Definition next_entry (to e : Z) : HM (option Z) :=
  t ← get_thread to;
  match list_after e (t_funct_list t) with
  | None => crash
  | Some l => mret (head l)
  end.

(** One entry: the call, and its execution time from [start]. *)
Definition call_entry (period e start : Z) (reads : nat) : HM Z :=
  fe ← get_fentry e;
  (if fe_type fe =? FS_LEGACY_THREADFUNC then run_legacy (fe_funct fe) (fe_arg fe) period
   else if fe_type fe =? FS_XTHREADFUNC then run_xthread (fe_funct fe) (fe_arg fe)
   else mret tt) ≫= fun _ =>
  let end_time := now reads in
  let delta := s32 (end_time - start) in
  f ← get_funct (fe_funct_ptr fe);
  set_s32_pin (f_runtime f) delta ≫= fun _ =>
  tmax ← get_s32_pin (f_maxtime f);
  (if tmax <? delta then set_s32_pin (f_maxtime f) delta ≫= fun _ => mret tt else mret tt) ≫= fun _ =>
  mret end_time.

(** The loop over the list: [while (funct_entry != funct_root)]. *)
Fixpoint run_functs (fuel : nat) (to period : Z) (cur : option Z) (start : Z)
    (end_time : option Z) (reads : nat) : HM (option Z * nat) :=
  match cur with
  | None => mret (end_time, reads)
  | Some e =>
      match fuel with
      | O => crash
      | S fuel =>
          end_time ← call_entry period e start reads;
          nxt ← next_entry to e;
          run_functs fuel to period nxt end_time (Some end_time) (S reads)
      end
  end.

(** The body of [while (1)] up to [rtapi_wait]. *)
Definition thread_cycle (fuel : nat) (to : Z) (l : task_locals) : HM task_locals :=
  t ← get_thread to;
  s ← hal_data;
  if 0 <? hs_threads_running s then
    let start := now (tl_reads l) in
    set_s32_pin (t_curr_period t) (s32 (start - tl_last_start l)) ≫= fun _ =>
    er ← run_functs fuel to (t_period t) (head (t_funct_list t)) start (tl_end_time l) (S (tl_reads l));
    match fst er with
    | None => crash                       (* [end_time] is read uninitialized *)
    | Some end_time =>
        let rt := s32 (end_time - start) in
        set_s32_pin (t_runtime t) rt ≫= fun _ =>
        tmax ← get_s32_pin (t_maxtime t);
        (if tmax <? rt then set_s32_pin (t_maxtime t) rt ≫= fun _ => mret tt else mret tt) ≫= fun _ =>
        mret (TaskLocals start (Some end_time) (snd er))
    end
  else
    let '(act, reads) := if 0 <? tl_last_start l
      then (s32 (now (tl_reads l) - tl_last_start l), S (tl_reads l))
      else (s32 (t_period t), tl_reads l) in
    set_s32_pin (t_curr_period t) act ≫= fun _ =>
    mret (TaskLocals (now reads) (tl_end_time l) (S reads)).

(** ** Creation *)

(** The period and priority the first or the existing threads allow: the
    base period, the period and the priority of the previous thread. *)
Definition first_thread (period_nsec : Z) : HM (Z * Z) :=
  curr ← attempt (runtime (rtapi_clock_set_period 0));
  curr ← match curr with
         | Some c =>
             if c =? 0 then
               r ← attempt (runtime (rtapi_clock_set_period (s64 period_nsec)));
               match r with
               | Some c => if c <? 0 then halfail EINVAL else mret c
               | None => halfail EINVAL
               end
             else mret c
         | None => crash
         end;
  if u64 (period_nsec + period_nsec / 100) <? u64 curr then halfail EINVAL
  else
    modify (fun s => set_base_period
      (if hs_exact_base_period s =? 0 then curr else s64 period_nsec) s) ≫= fun _ =>
    mret (0, rtapi_prio_highest).

Definition thread_pin (dir : Z) (name : string) : HM Z :=
  s ← get;
  r ← attempt (halg_pin_newf HAL_S32 dir None (hs_lib_module_id s) (Some name));
  mret (default 0 r).

(** Errors after the descriptor was created leave it behind, unlisted. *)
Definition hal_create_xthread (args : option hal_threadargs) : HM Z :=
  args ← CHECK_NULL args;
  name ← CHECK_STRLEN (th_name args) HAL_NAME_LEN;
  CHECK_HALDATA ≫= fun _ =>
  CHECK_LOCK HAL_LOCK_CONFIG ≫= fun _ =>
  let period_nsec := th_period_nsec args in
  if period_nsec =? 0 then halfail EINVAL
  else
  dup ← halg_find_object_by_name HAL_THREAD name;
  match dup with
  | Some _ => halfail EINVAL
  | None =>
  new ← halg_create_objectf HAL_THREAD 0 name;
  set_thread new (HalThread (th_uses_fp args) 0 0 0 0 0 0 [] (th_cpu_id args) (th_flags args)) ≫= fun _ =>
  s ← get;
  prev ← match hs_threads s with
         | [] => first_thread period_nsec
         | t :: _ => tptr ← get_thread t; mret (t_period tptr, t_priority tptr)
         end;
  s ← get;
  let base := hs_base_period s in
  if period_nsec <? u64 base then halfail EINVAL
  else if base =? 0 then crash
  else
  let n := s32 (u64 (period_nsec + u64 (base ÷ 2)) / u64 base) in
  let period := s64 (base * n) in
  set_thread new (HalThread (th_uses_fp args) period 0 0 0 0 0 [] (th_cpu_id args) (th_flags args))
  ≫= fun _ =>
  if period <? fst prev then halfail EINVAL
  else
  let prio := rtapi_prio_next_lower (snd prev) in
  set_thread new (HalThread (th_uses_fp args) period prio 0 0 0 0 [] (th_cpu_id args) (th_flags args))
  ≫= fun _ =>
  r ← attempt (runtime (rtapi_task_new (TaskArgs new prio (hs_lib_module_id s)
         hal_thread_stack_size (th_uses_fp args) (th_cpu_id args) (th_flags args))));
  match r with
  | None => halfail EINVAL
  | Some task_id =>
  rt ← thread_pin HAL_OUT (name ++ ".time")%string;
  mt ← thread_pin HAL_IO (name ++ ".tmax")%string;
  cp ← thread_pin HAL_OUT (name ++ ".curr-period")%string;
  set_thread new (HalThread (th_uses_fp args) period prio task_id rt mt cp []
    (th_cpu_id args) (th_flags args)) ≫= fun _ =>
  set_s32_pin cp (s32 period) ≫= fun _ =>
  r ← attempt (runtime (rtapi_task_start task_id (u64 period)));
  match r with
  | None => halfail EINVAL
  | Some _ =>
      modify (fun s => set_threads (hs_threads s ++ [new]) s) ≫= fun _ =>
      halg_add_object new ≫= fun _ => mret 0
  end
  end
  end.

Definition hal_create_thread (name : option string) (period_nsec uses_fp : Z) : HM Z :=
  hal_create_xthread (Some (ThreadArgs name period_nsec uses_fp (-1) 0)).

(** ** Starting and stopping *)
Definition hal_start_threads : HM Z :=
  CHECK_HALDATA ≫= fun _ =>
  CHECK_LOCK HAL_LOCK_RUN ≫= fun _ => modify (set_threads_running 1) ≫= fun _ => mret 0.

Definition hal_stop_threads : HM Z :=
  CHECK_HALDATA ≫= fun _ =>
  CHECK_LOCK HAL_LOCK_RUN ≫= fun _ => modify (set_threads_running 0) ≫= fun _ => mret 0.

(** ** Deletion *)
Fixpoint free_entries (to : Z) (l : list Z) : HM unit :=
  match l with
  | [] => mret tt
  | e :: l' => remove_entry to e ≫= fun _ => free_funct_entry_struct e ≫= fun _ => free_entries to l'
  end.

Definition free_thread_struct (to : Z) : HM unit :=
  modify (set_threads_running 0) ≫= fun _ =>
  t ← get_thread to;
  ignore (runtime (rtapi_task_pause (t_task_id t))) ≫= fun _ =>
  ignore (runtime (rtapi_task_delete (t_task_id t))) ≫= fun _ =>
  free_entries to (t_funct_list t) ≫= fun _ =>
  modify (fun s => set_threads (unlist to (hs_threads s)) s) ≫= fun _ =>
  ignore (halg_free_object to).

(** [hal_ptr(0)] is the segment itself, not a pin. *)
Definition free_thread_pin (o : Z) : HM unit := if o =? 0 then crash else free_pin_struct o.

Definition delete_thread_cb (to : Z) (_ : unit) : HM (Z * unit) :=
  t ← get_thread to;
  free_thread_pin (t_runtime t) ≫= fun _ =>
  free_thread_pin (t_maxtime t) ≫= fun _ =>
  free_thread_pin (t_curr_period t) ≫= fun _ =>
  free_thread_struct to ≫= fun _ => mret (0, tt).

(** All threads, or the one of that name. *)
Definition halg_exit_thread (name : option string) : HM Z :=
  CHECK_HALDATA ≫= fun _ =>
  CHECK_LOCK HAL_LOCK_RUN ≫= fun _ =>
  modify (set_threads_running 0) ≫= fun _ =>
  ra ← halg_foreach (Sel HAL_THREAD 0 0 0 name) delete_thread_cb tt;
  match name with
  | Some _ => if fst ra =? 0 then halfail EINVAL else mret 0
  | None => mret 0
  end.

Definition hal_thread_delete (name : option string) : HM Z :=
  name ← CHECK_STR name; halg_exit_thread (Some name).

Definition hal_exit_threads : HM Z := halg_exit_thread None.
End HalThread.
