(* ===== verification/HalRing.v ===== *)
(** * HAL rings and plugs (hal/src/hal_ring.c)

    A ring object names a ring header in HAL memory or in a shared memory
    segment of its own, whose key is made from the ring id.  Attaching counts
    in the header; a plug is an object that holds one attachment.  Functions
    that return a pointer fail with [_halerrno]. *)
From stdpp Require Import pretty.
From S2P Require Import Prelude Mem Ring Multiframe RtapiShmem HalData HalMemory HalObject.

Definition ALLOC_HALMEM : Z := 16.
Definition HAL_MAX_RINGS : Z := 255.
Definition RTAPI_RING_SHM_KEY : Z := 0x00415000.
Definition RINGTYPE_ANY : Z := 3.
Definition PLUG_READER : Z := 1.
Definition PLUG_WRITER : Z := 2.

Definition zero_ringheader : Ring.ringheader := Ring.RingHeader 0 0 0 0 0 0 0 0 0 0 0 0 0 0 0.

Definition rh_set_refcount (h : Ring.ringheader) (n : Z) : Ring.ringheader :=
  Ring.RingHeader (Ring.rh_type h) (Ring.rh_use_rmutex h) (Ring.rh_use_wmutex h) (s32 n)
    (Ring.rh_reader h) (Ring.rh_writer h) (Ring.rh_reader_instance h) (Ring.rh_writer_instance h)
    (Ring.rh_rmutex h) (Ring.rh_wmutex h) (Ring.rh_trailer_size h) (Ring.rh_size_mask h)
    (Ring.rh_size h) (Ring.rh_generation h) (Ring.rh_head h).

Definition rh_set_users (h : Ring.ringheader) (reader writer : Z) : Ring.ringheader :=
  Ring.RingHeader (Ring.rh_type h) (Ring.rh_use_rmutex h) (Ring.rh_use_wmutex h) (Ring.rh_refcount h)
    reader writer (Ring.rh_reader_instance h) (Ring.rh_writer_instance h)
    (Ring.rh_rmutex h) (Ring.rh_wmutex h) (Ring.rh_trailer_size h) (Ring.rh_size_mask h)
    (Ring.rh_size h) (Ring.rh_generation h) (Ring.rh_head h).

Section HalRing.
Context {H : Type} {HA : Allocator H} {PF : Platform} {OS : ShmOS}.
Abbreviation HM := (M (hal_state H)).

(** A call whose negative result the caller uses. *)
Definition attempt_rc {A} (m : HM A) : HM (A + Z) := fun s =>
  match m s with
  | (Crash, s') => (Crash, s')
  | (Ok a, s') => (Ok (inl a), s')
  | (Err e, s') => (Ok (inr e), s')
  end.

(** HALFAIL: sets [_halerrno] and goes on. *)
Definition set_errno (rc : Z) : HM unit := modify (set_halerrno (- rc)).

(** ** Access to a ring header: at least [bytes] behind it *)
Definition content_of (s : hal_state H) (k : rkey) : Ring.ringheader * mem :=
  default (zero_ringheader, ∅) (rst_content (hs_rings s) !! k).

Definition ring_key (s : hal_state H) (a : raddr) (bytes : Z) : option rkey :=
  match a with
  | RHal off => Some (KHal off)
  | RMap addr =>
      if accessible (rst_shm (hs_rings s)) addr <? bytes then None
      else KSeg ∘ mp_seg <$> sw_maps (rst_shm (hs_rings s)) !! addr
  end.

Definition get_ringheader (a : raddr) (bytes : Z) : HM (Ring.ringheader * mem) := fun s =>
  match ring_key s a bytes with
  | Some k => (Ok (content_of s k), s)
  | None => (Crash, s)
  end.

Definition put_ringheader (a : raddr) (bytes : Z) (c : Ring.ringheader * mem) : HM unit := fun s =>
  match ring_key s a bytes with
  | Some k => (Ok tt, set_rings (set_rst_content (<[k := c]> (rst_content (hs_rings s))) (hs_rings s)) s)
  | None => (Crash, s)
  end.

Definition upd_ringheader (a : raddr) (f : Ring.ringheader -> Ring.ringheader) : HM unit :=
  c ← get_ringheader a Ring.sizeof_ringheader;
  put_ringheader a Ring.sizeof_ringheader (f (fst c), snd c).

(** ** Ring ids: a bitmap *)
Fixpoint free_id (fuel : nat) (ids : gset Z) (i : Z) : Z :=
  match fuel with
  | O => i
  | S fuel => if bool_decide (i ∈ ids) then free_id fuel ids (i + 1) else i
  end.

Definition next_ring_id : HM Z :=
  s ← hal_data;
  let i := free_id (Z.to_nat HAL_MAX_RINGS) (rst_ids (hs_rings s)) 0 in
  if i =? HAL_MAX_RINGS then halfail EINVAL
  else
    modify (fun s => set_rings (set_rst_ids ({[i]} ∪ rst_ids (hs_rings s)) (hs_rings s)) s) ≫= fun _ =>
    mret i.

Definition free_ring_id (id : Z) : HM Z :=
  s ← hal_data;
  if (id <? 0) || (HAL_MAX_RINGS <? id) then halfail EINVAL
  else if negb (bool_decide (id ∈ rst_ids (hs_rings s))) then halfail EINVAL
  else
    modify (fun s => set_rings (set_rst_ids (rst_ids (hs_rings s) ∖ {[id]}) (hs_rings s)) s) ≫= fun _ =>
    mret 0.

(** ** Creation *)

(** The label FAIL of [halg_ring_newfv]: [rptr] is whatever the pointer is. *)
Definition ring_new_fail {A} (ring_id : Z) (rptr : option Z) : HM A :=
  ignore (free_ring_id ring_id) ≫= fun _ =>
  match rptr with
  | Some o => ignore (halg_free_object o)
  | None => mret tt
  end ≫= fun _ =>
  s ← get; raise (hs_halerrno s).

Definition ring_name (mode ring_id : Z) (fmt : option string) : HM string :=
  match fmt with
  | Some name => fmt_ap (HAL_MAX_NAME_LEN + 1) name
  | None =>
      let t := Z.land mode Ring.RINGTYPE_MASK in
      if t =? Ring.RINGTYPE_RECORD then fmt_ap (HAL_MAX_NAME_LEN + 1) ("record-" +:+ pretty ring_id)
      else if t =? Ring.RINGTYPE_MULTIPART then fmt_ap (HAL_MAX_NAME_LEN + 1) ("multi-" +:+ pretty ring_id)
      else if t =? Ring.RINGTYPE_STREAM then fmt_ap (HAL_MAX_NAME_LEN + 1) ("stream-" +:+ pretty ring_id)
      else halfail EINVAL
  end.

(** The memory of the ring, and the descriptor that refers to it. *)
Definition ring_memory (o ring_id total mode : Z) : HM raddr :=
  if negb (Z.land mode ALLOC_HALMEM =? 0) then
    r ← attempt (shmalloc_desc_aligned total RTAPI_CACHELINE);
    match r with
    | None => set_errno ENOMEM ≫= fun _ => ring_new_fail ring_id (Some o)
    | Some p => set_body o (BRing (HalRing ring_id 0 total (u32 p) mode)) ≫= fun _ => mret (RHal p)
    end
  else
    let key := OS_KEY (RTAPI_RING_SHM_KEY + ring_id) rtapi_instance in
    set_body o (BRing (HalRing ring_id key total 0 mode)) ≫= fun _ =>
    r ← attempt_rc (shmem (rtapi_shmem_new rtapi_instance key total));
    match r with
    | inr shmid => set_errno shmid ≫= fun _ => ring_new_fail ring_id (Some o)
    | inl shmid =>
        r ← attempt_rc (shmem (rtapi_shmem_getptr shmid));
        match r with
        | inr retval => set_errno retval ≫= fun _ => ring_new_fail ring_id (Some o)
        | inl a => mret (RMap a)
        end
    end.

(** [ringheader_init] writes the header and the first word of the trailer. *)
Definition init_ring_memory (a : raddr) (mode size sp_size : Z) : HM unit :=
  c ← get_ringheader a Ring.sizeof_ringheader;
  let c' := Ring.ringheader_init (fst c) (snd c) mode size sp_size in
  put_ringheader a (Ring.sizeof_ringheader + Ring.trailer_from_header (fst c') + 4)
    (rh_set_refcount (fst c') 0, snd c').

Definition halg_ring_newfv (size sp_size mode : Z) (fmt : option string) : HM Z :=
  CHECK_HALDATA ≫= fun _ =>
  CHECK_LOCK HAL_LOCK_LOAD ≫= fun _ =>
  ring_id ← next_ring_id;
  name ← attempt (ring_name mode ring_id fmt);
  match name with
  | None => ring_new_fail ring_id None
  | Some name =>
      rptr ← halg_find_object_by_name HAL_RING name;
      match rptr with
      | Some _ => set_errno EEXIST ≫= fun _ => ring_new_fail ring_id rptr
      | None =>
          rptr ← attempt (halg_create_objectf HAL_RING 0 name);
          match rptr with
          | None => ring_new_fail ring_id None
          | Some o =>
              let total := s32 (Ring.ring_memsize mode (u32 size) (u32 sp_size)) in
              set_body o (BRing (HalRing ring_id 0 total 0 mode)) ≫= fun _ =>
              a ← ring_memory o ring_id total mode;
              init_ring_memory a mode (u32 size) (u32 sp_size) ≫= fun _ =>
              halg_add_object o ≫= fun _ => mret o
          end
      end
  end.

(** ** The memory of an existing ring

    The handle of its segment, if it has one ([-EEXIST] would be taken as a
    handle), and the address of the header. *)
Definition map_ring (r : hal_ring) : HM (option Z * raddr) :=
  if negb (Z.land (r_flags r) ALLOC_HALMEM =? 0) then mret (None, RHal (r_ring_offset r))
  else
    id ← attempt_rc (shmem (rtapi_shmem_new_inst (r_ring_shmkey r) rtapi_instance 0));
    let shmid := match id with inl i => i | inr e => e end in
    if (shmid <? 0) && negb (shmid =? - EEXIST) then halfail shmid
    else
      a ← attempt_rc (shmem (rtapi_shmem_getptr shmid));
      match a with inl a => mret (Some shmid, RMap a) | inr _ => halfail ENOMEM end.

Definition free_ring_struct (o : Z) : HM Z :=
  r ← get_ring o;
  loc ← map_ring r;
  c ← get_ringheader (snd loc) Ring.sizeof_ringheader;
  if negb (Ring.rh_refcount (fst c) =? 0) then halfail EBUSY
  else
    match fst loc with
    | None => shmfree_desc (r_ring_offset r)
    | Some shmid =>
        d ← attempt_rc (shmem (rtapi_shmem_delete shmid));
        match d with inl _ => mret tt | inr retval => halfail retval end
    end ≫= fun _ =>
    halg_free_object o ≫= fun _ => free_ring_id (r_ring_id r).

(** The result of [free_ring_struct] is dropped. *)
Definition halg_ring_deletefv (fmt : option string) : HM Z :=
  CHECK_HALDATA ≫= fun _ =>
  fmt ← CHECK_STR fmt;
  name ← fmt_ap (HAL_MAX_NAME_LEN + 1) fmt;
  rptr ← halg_find_object_by_name HAL_RING name;
  match rptr with
  | None => halfail ENOENT
  | Some o => ignore (free_ring_struct o) ≫= fun _ => mret 0
  end.

(** ** Attaching

    Returns the attachment ([None] when the caller passed no [ringbuffer_t])
    and the flags of the ring. *)
Definition halg_ring_attachfv (rbptr : bool) (fmt : option string)
  : HM (option ring_attachment * Z) :=
  CHECK_HALDATA ≫= fun _ =>
  fmt ← CHECK_STR fmt;
  name ← fmt_ap (HAL_MAX_NAME_LEN + 1) fmt;
  rptr ← halg_find_object_by_name HAL_RING name;
  match rptr with
  | None => halfail ENOENT
  | Some o =>
      r ← get_ring o;
      if negb rbptr then mret (None, r_flags r)
      else
        loc ← map_ring r;
        upd_ringheader (snd loc) (fun h => rh_set_refcount h (Ring.rh_refcount h + 1)) ≫= fun _ =>
        c ← get_ringheader (snd loc) Ring.sizeof_ringheader;
        let rb := Ring.ringbuffer_init (fst c) (snd c) in
        mret (Some (RingAttachment (Ring.rb_magic rb) (Some (snd loc)) (Ring.rb_scratchpad rb)), r_flags r)
  end.

(** The attachment loses its magic number. *)
Definition halg_ring_detach (rbptr : option ring_attachment) : HM ring_attachment :=
  CHECK_HALDATA ≫= fun _ =>
  CHECK_LOCK HAL_LOCK_CONFIG ≫= fun _ =>
  match rbptr with
  | None => halfail EINVAL
  | Some rb =>
      if negb (ra_magic rb =? Ring.RINGBUFFER_MAGIC) then halfail EINVAL
      else match ra_header rb with
           | None => crash
           | Some a =>
               upd_ringheader a (fun h => rh_set_refcount h (Ring.rh_refcount h - 1)) ≫= fun _ =>
               mret (RingAttachment 0 (ra_header rb) (ra_scratchpad rb))
           end
  end.

(** ** Plugs *)
Record plug_args := PlugArgs {
  plg_type : Z;
  plg_flags : Z;
  plg_ring_name : option string;
  plg_ring_id : Z;
  plg_owner_name : option string;
  plg_owner_id : Z;
}.

Definition find_by_name_or_id (type : Z) (name : option string) (id : Z) : HM (option Z) :=
  match name with
  | Some n => halg_find_object_by_name type n
  | None => halg_find_object_by_id type id
  end.

(** [<ring>.<owner>.write] or [<ring>.<owner>.read] *)
Definition plug_name (args : plug_args) (ring owner : string) : string :=
  ring +:+ "." +:+ owner +:+ "." +:+ (if plg_type args =? PLUG_WRITER then "write" else "read").

(** Marking the plug in the header, as the reader or the writer. *)
Definition mark_plug (args : plug_args) (id : Z) (h : Ring.ringheader) : Ring.ringheader :=
  if plg_type args =? PLUG_WRITER then rh_set_users h (Ring.rh_reader h) id
  else rh_set_users h id (Ring.rh_writer h).

(** The jumps to FAIL from above the declaration of [plug] skip its
    initialization: the test of [plug] reads an indeterminate pointer. *)
Definition uninitialized_plug {A} : HM A := crash.

(** From the new descriptor on: attach, mark, insert. *)
Definition plug_attach (args : plug_args) (plug ring : Z) (ringname : string) : HM Z :=
  rob ← get_obj ring;
  let pl := HalPlug (RingAttachment 0 None None) None (plg_flags args) (hh_id (o_hdr rob))
              (plg_type args mod 4) in
  set_body plug (BPlug pl) ≫= fun _ =>
  r ← attempt (match fmt_noargs ringname with
               | None => crash
               | Some n => halg_ring_attachfv true (Some n)
               end);
  match r with
  | Some (Some rb, _) =>
      pob ← get_obj plug;
      match ra_header rb with
      | None => crash
      | Some a =>
          upd_ringheader a (mark_plug args (hh_id (o_hdr pob))) ≫= fun _ =>
          c ← get_ringheader a Ring.sizeof_ringheader;
          let mb := if Ring.rh_type (fst c) =? Ring.RINGTYPE_MULTIPART
                    then Some Multiframe.msgbuffer_init else None in
          set_body plug (BPlug (HalPlug rb mb (pl_flags pl) (pl_ring_id pl) (pl_role pl))) ≫= fun _ =>
          halg_add_object plug ≫= fun _ => mret plug
      end
  | _ => ignore (halg_free_object plug) ≫= fun _ => s ← get; raise (hs_halerrno s)
  end.

Definition halg_plug_new (args : option plug_args) : HM Z :=
  CHECK_HALDATA ≫= fun _ =>
  args ← CHECK_NULL args;
  CHECK_LOCK HAL_LOCK_LOAD ≫= fun _ =>
  owner ← find_by_name_or_id 0 (plg_owner_name args) (plg_owner_id args);
  match owner with
  | None => halfail EINVAL
  | Some owner =>
  ring ← find_by_name_or_id HAL_RING (plg_ring_name args) (plg_ring_id args);
  match ring with
  | None => uninitialized_plug
  | Some ring =>
  r ← get_ring ring;
  rob ← get_obj ring;
  oob ← get_obj owner;
  let ringname := hh_get_name (o_hdr rob) in
  name ← attempt (fmt_ap HAL_MAX_NAME_LEN (plug_name args ringname (hh_get_name (o_hdr oob))));
  match name with
  | None => uninitialized_plug
  | Some name =>
  e ← halg_find_object_by_name HAL_PLUG name;
  let wanted := Z.land (plg_flags args) Ring.RINGTYPE_MASK in
  let ring_is := Z.land (r_flags r) Ring.RINGTYPE_MASK in
  if bool_decide (is_Some e) then uninitialized_plug
  else if negb (wanted =? RINGTYPE_ANY) && negb (wanted =? ring_is) then uninitialized_plug
  else
    plug ← attempt (halg_create_objectf HAL_PLUG (hh_id (o_hdr oob)) name);
    match plug with
    | None => s ← get; raise (hs_halerrno s)
    | Some plug => plug_attach args plug ring ringname
    end
  end
  end
  end.

Definition unmark_plug (self : Z) (h : Ring.ringheader) : Ring.ringheader :=
  rh_set_users h (if Ring.rh_reader h =? self then 0 else Ring.rh_reader h)
    (if Ring.rh_writer h =? self then 0 else Ring.rh_writer h).

Definition halg_plug_delete (plug : option Z) : HM Z :=
  CHECK_HALDATA ≫= fun _ =>
  o ← CHECK_NULL plug;
  CHECK_LOCK HAL_LOCK_LOAD ≫= fun _ =>
  ob ← get_obj o;
  if negb (hh_valid (o_hdr ob)) then halfail EINVAL
  else if negb (hh_get_object_type ob =? HAL_PLUG) then halfail EINVAL
  else
    pl ← get_plug o;
    match ra_header (pl_rb pl) with
    | None => mret tt
    | Some a =>
        upd_ringheader a (unmark_plug (hh_id (o_hdr ob))) ≫= fun _ =>
        r ← attempt (halg_ring_detach (Some (pl_rb pl)));
        match r with
        | Some rb => set_body o (BPlug (HalPlug rb (pl_mb pl) (pl_flags pl) (pl_ring_id pl) (pl_role pl)))
        | None => mret tt
        end
    end ≫= fun _ =>
    halg_free_object o ≫= fun _ => mret 0.
End HalRing.
