(* ===== verification/HalRingTheorems.v ===== *)
(** * Theorems about rings

    Ring ids, what creation does with a name in use, and the protocol of
    attaching: the memory of an attached ring is never freed. *)
From S2P Require Import Prelude Mem Ring RtapiShmem HalData HalMemory HalObject HalObjectFacts HalRing HalLinkOps HalBoot.

(** ** Ring ids *)
Lemma free_id_spec fuel ids i :
  let r := free_id fuel ids i in
  i <= r <= i + Z.of_nat fuel /\ (forall j, i <= j < r -> j ∈ ids) /\
  (r < i + Z.of_nat fuel -> r ∉ ids).
Proof.
  revert i. induction fuel as [| fuel IH]; intros i; simpl; [split; [lia | split; intros; lia] |].
  case_bool_decide as Hi.
  - destruct (IH (i + 1)) as (H1 & H2 & H3). split; [lia |]. split; [| intros; apply H3; lia].
    intros j Hj. destruct (decide (j = i)) as [-> |]; [done | apply H2; lia].
  - split; [lia |]. split; [intros; lia | done].
Qed.

Section RingTheorems.
Context {H : Type} {HA : Allocator H} {HS : AllocatorSpec H} {PF : Platform} {OS : ShmOS}.
Implicit Types s : hal_state H.

Definition set_ids (ids : gset Z) s : hal_state H := set_rings (set_rst_ids ids (hs_rings s)) s.

Lemma next_ring_id_run s :
  hs_init s = true ->
  (exists i, next_ring_id s = (Ok i, set_ids ({[i]} ∪ rst_ids (hs_rings s)) s) /\
     0 <= i < HAL_MAX_RINGS /\ (i ∉ rst_ids (hs_rings s)) /\ forall j, 0 <= j < i -> j ∈ rst_ids (hs_rings s)) \/
  (next_ring_id s = (Err (- EINVAL), set_halerrno (- EINVAL) s) /\
     forall j, 0 <= j < HAL_MAX_RINGS -> j ∈ rst_ids (hs_rings s)).
Proof.
  intros Hi. unfold next_ring_id, mbind, M_bind, hal_data. rewrite Hi.
  destruct (free_id_spec (Z.to_nat HAL_MAX_RINGS) (rst_ids (hs_rings s)) 0) as (H1 & H2 & H3).
  set (i := free_id _ _ _) in *. unfold HAL_MAX_RINGS in *.
  destruct (i =? 255) eqn:E; zb.
  - right. split; [done |]. intros j Hj. apply H2. lia.
  - left. exists i. split; [done |]. split; [lia |]. split; [apply H3; lia | done].
Qed.

Lemma free_ring_id_run s i :
  hs_init s = true -> 0 <= i <= HAL_MAX_RINGS -> i ∈ rst_ids (hs_rings s) ->
  free_ring_id i s = (Ok 0, set_ids (rst_ids (hs_rings s) ∖ {[i]}) s).
Proof.
  intros Hi Hr Hin. unfold free_ring_id, mbind, M_bind, hal_data. rewrite Hi.
  rewrite (proj2 (Z.ltb_ge i 0)), (proj2 (Z.ltb_ge HAL_MAX_RINGS i)) by lia.
  by rewrite bool_decide_eq_true_2.
Qed.

(** ** Creation under a name in use *)
Definition invalidated (ob : hal_obj) : hal_obj := HalObj (snd (hh_clear_hdr (o_hdr ob))) (o_body ob).

Lemma free_object_run s o ob :
  hs_objs s !! o = Some ob ->
  halg_free_object o s
  = if hh_refcnt (o_hdr ob) =? 0 then (Ok tt, set_objs (<[o := invalidated ob]> (hs_objs s)) s)
    else (Err (- EBUSY), set_halerrno (- EBUSY) s).
Proof.
  intros Ho. unfold halg_free_object, upd_hdr, mbind, M_bind, get_obj. rewrite Ho.
  destruct (hh_refcnt (o_hdr ob) =? 0); [| done]. rewrite Ho. done.
Qed.

Definition short_name (name : string) : Prop := Z.of_nat (String.length name) <= HAL_MAX_NAME_LEN.

Lemma fmt_ap_short name s : short_name name -> fmt_ap (HAL_MAX_NAME_LEN + 1) name s = (Ok name, s).
Proof.
  unfold short_name, HAL_MAX_NAME_LEN. intros Hn. unfold fmt_ap, vsnprintf.
  rewrite (proj2 (Z.ltb_ge _ _)) by lia. rewrite substring_all by lia. done.
Qed.

Lemma ids_add_remove (ids : gset Z) i : i ∉ ids -> ({[i]} ∪ ids) ∖ {[i]} = ids.
Proof. set_solver. Qed.

(** Creating a ring under the name of an existing ring fails with
    -EEXIST and, if nobody holds a reference on it, invalidates the existing
    ring: the error path frees the object that the lookup has found. *)
Theorem ring_new_duplicate size sp_size mode name s o ob r s' :
  hs_init s = true -> listed s -> Z.land (hs_lock s) HAL_LOCK_LOAD = 0 -> short_name name ->
  (exists i, 0 <= i < HAL_MAX_RINGS /\ (i ∉ rst_ids (hs_rings s))) ->
  find_obj (sel_ok (sel_type_name HAL_RING name)) s = Some o -> hs_objs s !! o = Some ob ->
  hh_refcnt (o_hdr ob) = 0 ->
  halg_ring_newfv size sp_size mode (Some name) s = (r, s') ->
  r = Err (- EEXIST) /\ hs_halerrno s' = - EEXIST /\ hs_rings s' = hs_rings s /\
  hs_halobjects s' = hs_halobjects s /\ hs_objs s' = <[o := invalidated ob]> (hs_objs s) /\
  find_obj (sel_ok (sel_type_name HAL_RING name)) s' <> Some o.
Proof.
  intros Hi Hl Hlk Hn (j & Hj & Hjn) Hf Ho Hrc Hrun.
  unfold halg_ring_newfv in Hrun. unfold mbind at 1, M_bind at 1, CHECK_HALDATA in Hrun. rewrite Hi in Hrun.
  unfold mbind at 1, M_bind at 1, CHECK_LOCK in Hrun. unfold mbind at 1, M_bind at 1, hal_data in Hrun.
  rewrite Hi, Hlk in Hrun. cbn [Z.eqb] in Hrun. unfold mret at 1, M_ret at 1 in Hrun.
  unfold mbind at 1, M_bind at 1 in Hrun.
  destruct (next_ring_id_run s Hi) as [(i & Hni & Hir & Hin & _) | [_ Hall]]; [| by specialize (Hall j Hj)].
  rewrite Hni in Hrun. set (s1 := set_ids _ s) in *. unfold mbind at 1, M_bind at 1, attempt in Hrun.
  unfold ring_name in Hrun. rewrite (fmt_ap_short name s1 Hn) in Hrun. unfold mbind at 1, M_bind at 1 in Hrun.
  rewrite (find_by_name_run HAL_RING name s1 Hi Hl) in Hrun.
  change (find_obj (sel_ok (sel_type_name HAL_RING name)) s1)
    with (find_obj (sel_ok (sel_type_name HAL_RING name)) s) in Hrun. rewrite Hf in Hrun.
  unfold mbind at 1, M_bind at 1, set_errno, modify, ring_new_fail in Hrun.
  unfold mbind at 1, M_bind at 1, ignore in Hrun.
  rewrite (free_ring_id_run (set_halerrno (- EEXIST) s1) i Hi ltac:(lia)) in Hrun
    by (simpl; set_solver).
  unfold mbind at 1, M_bind at 1 in Hrun. erewrite free_object_run in Hrun by exact Ho. rewrite Hrc in Hrun.
  cbn [Z.eqb] in Hrun. unfold mbind, M_bind, get, raise in Hrun. injection Hrun as <- <-.
  split; [done |]. split; [done |]. split.
  { simpl. rewrite ids_add_remove by done. by destruct (hs_rings s). }
  split; [done |]. split; [done |]. intros Hc. apply find_obj_some in Hc as (_ & ob' & Ho' & Hok).
  simpl in Ho'. rewrite lookup_insert_eq in Ho'. injection Ho' as <-.
  apply sel_ok_type_name in Hok as [Hv _]; done.
Qed.

(** ** Attaching, detaching and deleting rings in HAL memory *)
Definition halmem (r : hal_ring) : Prop := Z.land (r_flags r) ALLOC_HALMEM <> 0.

(** A ring that can be found. *)
Definition live_ring s (o : Z) (h : halhdr) (r : hal_ring) : Prop :=
  o ∈ hs_halobjects s /\ hs_objs s !! o = Some (HalObj h (BRing r)) /\ hh_valid h = true.

Definition held_at (off : Z) (held : list ring_attachment) : Z :=
  Z.of_nat (length (filter (fun a => ra_header a = Some (RHal off)) held)).

Definition refcount_at s (off : Z) : Z := Ring.rh_refcount (fst (content_of s (KHal off))).

(** [held]: the attachments the users of the rings have. *)
Record ring_inv s (held : list ring_attachment) : Prop := RingInv {
  rg_init : hs_init s = true;
  rg_listed : listed s;
  rg_heap : h_wf (hs_heap s);
  rg_ring : forall o h r, live_ring s o h r -> hh_refcnt h = 0 /\ halmem r /\
    (r_ring_offset r ∈ h_live (hs_heap s)) /\ refcount_at s (r_ring_offset r) = held_at (r_ring_offset r) held;
  rg_inj : forall o1 h1 r1 o2 h2 r2, live_ring s o1 h1 r1 -> live_ring s o2 h2 r2 ->
    r_ring_offset r1 = r_ring_offset r2 -> o1 = o2;
  rg_held : forall a, a ∈ held -> ra_magic a = Ring.RINGBUFFER_MAGIC /\
    exists o h r, live_ring s o h r /\ ra_header a = Some (RHal (r_ring_offset r));
}.

Lemma ring_inv_errno s held rc : ring_inv s held -> ring_inv (set_halerrno rc s) held.
Proof. by intros []. Qed.

Lemma held_at_cons a off held :
  held_at off (a :: held) = held_at off held + if decide (ra_header a = Some (RHal off)) then 1 else 0.
Proof. unfold held_at. rewrite filter_cons. destruct (decide _); simpl; lia. Qed.

Lemma held_at_perm off l1 l2 : l1 ≡ₚ l2 -> held_at off l1 = held_at off l2.
Proof. intros Hp. unfold held_at. by rewrite Hp. Qed.

Lemma held_at_bound off held : 0 <= held_at off held <= Z.of_nat (length held).
Proof. unfold held_at. pose proof (length_filter (fun a => ra_header a = Some (RHal off)) held). lia. Qed.

Lemma held_at_pos off a held : a ∈ held -> ra_header a = Some (RHal off) -> 0 < held_at off held.
Proof.
  intros Ha Hh. apply list_elem_of_split in Ha as (l1 & l2 & ->).
  rewrite (held_at_perm off _ (a :: l1 ++ l2)) by (symmetry; apply Permutation_middle).
  rewrite held_at_cons, decide_True by done. pose proof (held_at_bound off (l1 ++ l2)). lia.
Qed.

(** Changing the header of the ring at [off]. *)
Definition set_content (off : Z) (c : Ring.ringheader * mem) s : hal_state H :=
  set_rings (set_rst_content (<[KHal off := c]> (rst_content (hs_rings s))) (hs_rings s)) s.

Lemma upd_ringheader_run s off f :
  upd_ringheader (RHal off) f s
  = (Ok tt, set_content off (f (fst (content_of s (KHal off))), snd (content_of s (KHal off))) s).
Proof. done. Qed.

Lemma refcount_set s off off' h m :
  refcount_at (set_content off (h, m) s) off' = if decide (off' = off) then Ring.rh_refcount h else refcount_at s off'.
Proof.
  unfold refcount_at, content_of. simpl. destruct (decide (off' = off)) as [-> |].
  - by rewrite lookup_insert_eq.
  - rewrite lookup_insert_ne by congruence. done.
Qed.

(** The users of one ring change. *)
Lemma ring_inv_count s held held' off h m :
  ring_inv s held -> Ring.rh_refcount h = held_at off held' ->
  (forall off', off' <> off -> held_at off' held' = held_at off' held) ->
  (forall a, a ∈ held' -> a ∈ held \/ (ra_magic a = Ring.RINGBUFFER_MAGIC /\
     exists o h r, live_ring s o h r /\ ra_header a = Some (RHal (r_ring_offset r)))) ->
  ring_inv (set_content off (h, m) s) held'.
Proof.
  intros [] Hh Hother Hheld. split; try done.
  - intros o h' r Hr. destruct (rg_ring0 o h' r Hr) as (H1 & H2 & H3 & H4).
    repeat (split; [done |]). rewrite refcount_set. destruct (decide _) as [-> | Hne]; [done |].
    rewrite H4. symmetry. by apply Hother.
  - intros a Ha. destruct (Hheld a Ha) as [Ha' | Ha']; [by apply rg_held0 | done].
Qed.

Lemma live_ring_found s held name o :
  ring_inv s held -> find_obj (sel_ok (sel_type_name HAL_RING name)) s = Some o ->
  exists h r, live_ring s o h r.
Proof.
  intros Hi Hf. apply find_obj_some in Hf as (Hin & ob & Hob & Hok).
  apply sel_ok_type_name in Hok as (Hv & Ht & _); [| done]. destruct ob as [h b].
  unfold hh_get_object_type in Ht. simpl in *. destruct b; try discriminate. by exists h, r.
Qed.

Lemma get_ring_run s o h r : hs_objs s !! o = Some (HalObj h (BRing r)) -> get_ring o s = (Ok r, s).
Proof. intros Ho. unfold get_ring, mbind, M_bind, get_obj. by rewrite Ho. Qed.

Lemma map_ring_halmem r s : halmem r -> map_ring r s = (Ok (None, RHal (r_ring_offset r)), s).
Proof. intros Hm. unfold map_ring. unfold halmem in Hm. by rewrite (proj2 (Z.eqb_neq _ _) Hm). Qed.

(** A name that is looked up: too long, unknown, or that of a ring. *)
Lemma named_ring {A} s held name (f : option Z -> M (hal_state H) A) (Q : result A * hal_state H -> Prop) :
  ring_inv s held ->
  (forall e s', ring_inv s' held -> Q (Err e, s')) ->
  Q (f None s) ->
  (forall o h r, live_ring s o h r -> Q (f (Some o) s)) ->
  Q ((CHECK_HALDATA ≫= fun _ => CHECK_STR name ≫= fun fmt =>
      fmt_ap (HAL_MAX_NAME_LEN + 1) fmt ≫= fun n => halg_find_object_by_name HAL_RING n ≫= f) s).
Proof.
  intros Hi HE HN HS'. unfold CHECK_HALDATA, mbind at 1, M_bind at 1. rewrite (rg_init _ _ Hi).
  destruct name as [name |]; [| by apply HE].
  unfold mbind at 1, M_bind at 1, CHECK_STR, mret at 1, M_ret at 1.
  unfold mbind at 1, M_bind at 1, fmt_ap, vsnprintf. destruct (_ <? _).
  { apply HE, ring_inv_errno, Hi. }
  unfold mret, M_ret, mbind, M_bind.
  rewrite find_by_name_run by apply Hi.
  destruct (find_obj _ s) as [o |] eqn:Ef; [| exact HN].
  destruct (live_ring_found _ _ _ _ Hi Ef) as (h & r & Hr). by apply (HS' o h r).
Qed.

Lemma attach_run s held name :
  ring_inv s held -> Z.of_nat (length held) + 1 < 2 ^ 31 ->
  match halg_ring_attachfv true name s with
  | (Ok (Some rb, _), s') => ring_inv s' (rb :: held)
  | (Ok (None, _), _) => False
  | (Err _, s') => ring_inv s' held
  | (Crash, _) => False
  end.
Proof.
  intros Hi Hlen. unfold halg_ring_attachfv.
  apply (named_ring s held name (fun rptr => match rptr with None => halfail ENOENT | Some o => _ end)
    (fun x => match x with (Ok (Some rb, _), s') => ring_inv s' (rb :: held) | (Ok (None, _), _) => False
              | (Err _, s') => ring_inv s' held | (Crash, _) => False end)); [done | done | |].
  { by apply ring_inv_errno. }
  intros o h r Hr. pose proof Hr as (Hin & Ho & Hv). destruct (rg_ring _ _ Hi _ _ _ Hr) as (Hrc & Hm & Hlive & Hcnt).
  unfold mbind at 1, M_bind at 1. rewrite (get_ring_run _ _ _ _ Ho). cbn [negb].
  unfold mbind at 1, M_bind at 1. rewrite map_ring_halmem by done. cbn [fst snd].
  unfold mbind at 1, M_bind at 1. rewrite upd_ringheader_run.
  unfold mbind, M_bind, get_ringheader, ring_key, mret, M_ret. cbn [Ring.rb_magic].
  pose proof (held_at_bound (r_ring_offset r) held).
  apply (ring_inv_count s held); [done | | |].
  - simpl. unfold refcount_at in Hcnt. rewrite Hcnt, held_at_cons, decide_True by done. apply wraps_small; lia.
  - intros off' Hne. rewrite held_at_cons, decide_False; [lia |]. simpl. congruence.
  - intros a [-> | Ha]%elem_of_cons; [| by left]. right. split; [done |]. by exists o, h, r.
Qed.

Lemma detach_run s l1 rb l2 :
  ring_inv s (l1 ++ rb :: l2) -> Z.of_nat (length (l1 ++ rb :: l2)) < 2 ^ 31 ->
  match halg_ring_detach (Some rb) s with
  | (Ok _, s') => ring_inv s' (l1 ++ l2)
  | (Err _, s') => ring_inv s' (l1 ++ rb :: l2)
  | (Crash, _) => False
  end.
Proof.
  intros Hi Hlen. set (held := l1 ++ rb :: l2) in *.
  assert (rb ∈ held) as Hin by (apply elem_of_app; right; left).
  assert (held ≡ₚ rb :: l1 ++ l2) as Hp by (symmetry; apply Permutation_middle).
  destruct (rg_held _ _ Hi rb Hin) as (Hmag & o & h & r & Hr & Hhd).
  destruct (rg_ring _ _ Hi _ _ _ Hr) as (_ & _ & _ & Hcnt). set (off := r_ring_offset r) in *.
  unfold halg_ring_detach, CHECK_HALDATA, mbind at 1, M_bind at 1. rewrite (rg_init _ _ Hi).
  unfold mbind at 1, M_bind at 1, CHECK_LOCK, mbind at 1, M_bind at 1, hal_data. rewrite (rg_init _ _ Hi).
  destruct (Z.land _ _ =? 0); [| by apply ring_inv_errno].
  unfold mret at 1, M_ret at 1. rewrite Hmag, Z.eqb_refl, Hhd. cbn [negb].
  unfold mbind, M_bind. rewrite upd_ringheader_run. unfold mret, M_ret.
  pose proof (held_at_bound off held). pose proof (held_at_pos off rb held Hin Hhd).
  assert (forall off', held_at off' held = held_at off' (l1 ++ l2) + if decide (ra_header rb = Some (RHal off')) then 1 else 0) as Hc.
  { intros off'. rewrite (held_at_perm off' _ _ Hp), held_at_cons. done. }
  apply (ring_inv_count s held); [done | | |].
  - simpl. unfold refcount_at in Hcnt. rewrite Hcnt. pose proof (Hc off) as Ho.
    rewrite decide_True in Ho by done. rewrite wraps_small; lia.
  - intros off' Hne. rewrite Hc, decide_False; [lia |]. rewrite Hhd. congruence.
  - intros a Ha. left. rewrite Hp. by right.
Qed.

Lemma ring_inv_freed s held o h r :
  ring_inv s held -> live_ring s o h r -> held_at (r_ring_offset r) held = 0 ->
  exists h', h_free (hs_heap s) (r_ring_offset r) = Ok h' /\
  ring_inv (set_objs (<[o := invalidated (HalObj h (BRing r))]> (hs_objs s)) (set_heap h' s)) held.
Proof.
  intros Hi Hr H0. pose proof Hi as []. destruct (rg_ring0 _ _ _ Hr) as (_ & _ & Hlive & _).
  destruct (h_free_ok _ _ rg_heap0 Hlive) as (hp & Hf & Hl' & Hw' & _). exists hp. split; [done |].
  set (s' := set_objs _ _). pose proof Hr as (Hin & Ho & Hv).
  assert (forall o' h' r', live_ring s' o' h' r' -> live_ring s o' h' r' /\ o' <> o) as Hback.
  { intros o' h' r' (Hin' & Ho' & Hv'). simpl in *. destruct (decide (o' = o)) as [-> | Hne].
    - rewrite lookup_insert_eq in Ho'. injection Ho' as <- _. done.
    - rewrite lookup_insert_ne in Ho' by done. by repeat split. }
  split; try done.
  - intros o' Ho'. simpl. destruct (decide (o' = o)) as [-> |]; [rewrite lookup_insert_eq; eauto |].
    rewrite lookup_insert_ne by done. by apply rg_listed0.
  - intros o' h' r' Hr'. destruct (Hback _ _ _ Hr') as [Hrs Hne].
    destruct (rg_ring0 _ _ _ Hrs) as (H1 & H2 & H3 & H4). repeat (split; [done |]). split; [| exact H4].
    simpl. rewrite Hl'. apply elem_of_difference. split; [done |]. intros Heq%elem_of_singleton.
    apply Hne. by apply (rg_inj0 _ _ _ _ _ _ Hrs Hr).
  - intros o1 h1 r1 o2 h2 r2 [H1 _]%Hback [H2 _]%Hback. by apply (rg_inj0 _ _ _ _ _ _ H1 H2).
  - intros a Ha. destruct (rg_held0 a Ha) as (Hm & o' & h' & r' & Hr' & Hh). split; [done |].
    exists o', h', r'. split; [| done]. destruct Hr' as (Hin' & Ho' & Hv').
    assert (o' <> o) as Hne.
    { intros ->. rewrite Ho in Ho'. injection Ho' as <- <-. pose proof (held_at_pos _ _ _ Ha Hh). lia. }
    repeat split; simpl; [done | by rewrite lookup_insert_ne | done].
Qed.

Lemma delete_run s held name :
  ring_inv s held ->
  match halg_ring_deletefv name s with
  | (Ok _, s') => ring_inv s' held
  | (Err _, s') => ring_inv s' held
  | (Crash, _) => False
  end.
Proof.
  intros Hi. unfold halg_ring_deletefv.
  apply (named_ring s held name (fun rptr => match rptr with None => halfail ENOENT | Some o => _ end)
    (fun x => match x with (Ok _, s') => ring_inv s' held | (Err _, s') => ring_inv s' held
              | (Crash, _) => False end)); [done | done | |].
  { by apply ring_inv_errno. }
  intros o h r Hr. pose proof Hr as (_ & Ho & _). destruct (rg_ring _ _ Hi _ _ _ Hr) as (Hrc & Hm & _ & Hcnt).
  unfold mbind at 1, M_bind at 1, ignore, free_ring_struct.
  unfold mbind at 1, M_bind at 1. rewrite (get_ring_run _ _ _ _ Ho).
  unfold mbind at 1, M_bind at 1. rewrite map_ring_halmem by done. cbn [fst snd].
  unfold mbind at 1, M_bind at 1, get_ringheader, ring_key. fold (refcount_at s (r_ring_offset r)).
  destruct (refcount_at s (r_ring_offset r) =? 0) eqn:E; cbn [negb]; [| by apply ring_inv_errno]. zb.
  destruct (ring_inv_freed s held o h r Hi Hr ltac:(congruence)) as (hp & Hf & Hi').
  unfold mbind at 1, M_bind at 1, shmfree_desc. rewrite (rg_init _ _ Hi), Hf.
  unfold mbind at 1, M_bind at 1. erewrite free_object_run by exact Ho. cbn [o_hdr]. rewrite Hrc. cbn [Z.eqb].
  unfold free_ring_id, mbind, M_bind, hal_data. simpl. rewrite (rg_init _ _ Hi).
  destruct (_ || _); [by apply ring_inv_errno |]. destruct (negb _); [by apply ring_inv_errno |].
  destruct Hi'. by split.
Qed.

(** Any sequence of attaching, detaching what is held (by position) and
    deleting; [None]: undefined behaviour. *)
Inductive ring_op : Type :=
| OAttach (name : option string)
| ODetach (n : nat)
| ODelete (name : option string).

Definition ring_step (op : ring_op) (x : hal_state H * list ring_attachment)
  : option (hal_state H * list ring_attachment) :=
  let '(s, held) := x in
  match op with
  | OAttach name =>
      match halg_ring_attachfv true name s with
      | (Ok (Some rb, _), s') => Some (s', rb :: held)
      | (Crash, _) => None
      | (_, s') => Some (s', held)
      end
  | ODetach n =>
      match held !! n with
      | None => Some (s, held)
      | Some rb =>
          match halg_ring_detach (Some rb) s with
          | (Ok _, s') => Some (s', delete n held)
          | (Err _, s') => Some (s', held)
          | (Crash, _) => None
          end
      end
  | ODelete name =>
      match halg_ring_deletefv name s with
      | (Crash, _) => None
      | (_, s') => Some (s', held)
      end
  end.

Fixpoint ring_run (ops : list ring_op) (x : hal_state H * list ring_attachment)
  : option (hal_state H * list ring_attachment) :=
  match ops with
  | [] => Some x
  | op :: ops => match ring_step op x with None => None | Some x' => ring_run ops x' end
  end.

Lemma ring_step_inv s held op :
  ring_inv s held -> Z.of_nat (length held) + 1 < 2 ^ 31 ->
  exists s' held', ring_step op (s, held) = Some (s', held') /\ ring_inv s' held' /\
    Z.of_nat (length held') <= Z.of_nat (length held) + 1.
Proof.
  intros Hi Hlen. destruct op as [name | n | name]; simpl.
  - pose proof (attach_run s held name Hi Hlen) as Hr.
    destruct (halg_ring_attachfv true name s) as [[[[rb |] fl] | e |] s'] eqn:E; try done.
    + exists s', (rb :: held). split; [done |]. split; [exact Hr | simpl length; lia].
    + exists s', held. split; [done |]. split; [done | lia].
  - destruct (held !! n) as [rb |] eqn:En; [| exists s, held; split; [done |]; split; [done | lia]].
    pose proof (take_drop_middle held n rb En) as Hm. rewrite <- Hm in Hi.
    pose proof (detach_run s (take n held) rb (drop (S n) held) Hi) as Hr.
    rewrite Hm in Hr. specialize (Hr ltac:(lia)). rewrite <- delete_take_drop in Hr.
    destruct (halg_ring_detach (Some rb) s) as [[a | e |] s'] eqn:E; [| | done].
    + exists s', (delete n held). split; [done |]. split; [done |].
      pose proof (length_delete held n ltac:(by rewrite En)). lia.
    + exists s', held. split; [done |]. split; [done | lia].
  - pose proof (delete_run s held name Hi) as Hr.
    destruct (halg_ring_deletefv name s) as [[a | e |] s'] eqn:E; [| | done];
      (exists s', held; split; [done |]; split; [done | lia]).
Qed.

(** Whatever sequence of attaches, detaches and deletions runs on rings
    in HAL memory: no call crashes, the reference count of every ring is the
    number of its attachments, and the memory of an attached ring is not
    freed. *)
Theorem attached_ring_kept ops s held :
  ring_inv s held -> Z.of_nat (length held) + Z.of_nat (length ops) < 2 ^ 31 ->
  exists s' held', ring_run ops (s, held) = Some (s', held') /\
    (forall o h r, live_ring s' o h r -> refcount_at s' (r_ring_offset r) = held_at (r_ring_offset r) held') /\
    (forall rb, rb ∈ held' -> exists off, ra_header rb = Some (RHal off) /\ (off ∈ h_live (hs_heap s'))).
Proof.
  revert s held. induction ops as [| op ops IH]; intros s held Hi Hlen; cbn [ring_run].
  - exists s, held. split; [done |]. split.
    + intros o h r Hr. by apply (rg_ring _ _ Hi _ _ _ Hr).
    + intros rb Hrb. destruct (rg_held _ _ Hi rb Hrb) as (_ & o & h & r & Hr & Hh).
      exists (r_ring_offset r). split; [done |]. by apply (rg_ring _ _ Hi _ _ _ Hr).
  - simpl in Hlen. destruct (ring_step_inv s held op Hi ltac:(lia)) as (s1 & held1 & Hs & Hi1 & Hl1).
    rewrite Hs. apply IH; [done | lia].
Qed.

(** ** Rings in segments of their own *)
Lemma find_shmem_set fuel t key i j d d' :
  find_shmem fuel t key i = (j, Some d) -> sm_key d' = sm_key d ->
  sm_key d = key /\ t !! j = Some d /\ i <= j /\ (0 < RTAPI_MAX_SHMEMS - j) /\
  find_shmem fuel (<[j := d']> t) key i = (j, Some d').
Proof.
  revert i. induction fuel as [| fuel IH]; intros i Hf Hk; [done |]. simpl in *.
  destruct (RTAPI_MAX_SHMEMS <=? i) eqn:Em; [done |]. zb.
  destruct (t !! i) as [e |] eqn:Ei; [| done]. destruct (sm_key e =? key) eqn:Ek; zb.
  - injection Hf as <- <-. rewrite lookup_insert_eq, Hk, Ek, Z.eqb_refl. split_and!; (done || lia).
  - destruct (IH (i + 1) Hf Hk) as (H1 & H2 & H3 & H4 & H5). rewrite lookup_insert_ne by lia. rewrite Ei.
    rewrite (proj2 (Z.eqb_neq _ _) Ek). split_and!; (done || lia).
Qed.

(** Opening the segment of [key] once more, and closing it. *)
Definition reopened (d : shmem_data) : shmem_data :=
  ShmemData (sm_key d) (s32 (sm_count d + 1)) (sm_instance d) (sm_size d) (sm_mem d).

Lemma shmem_new_known w userkey instance size i d :
  find_shmem 32 (sw_table w) (OS_KEY userkey instance) 1 = (i, Some d) ->
  rtapi_shmem_new_inst userkey instance size w = (Ok i, set_table (<[i := reopened d]> (sw_table w)) w).
Proof. intros Hf. unfold rtapi_shmem_new_inst, mbind, M_bind, get. rewrite Hf. done. Qed.

Lemma shmem_reopen_delete w i d :
  sw_table w !! i = Some d -> 1 <= i < RTAPI_MAX_SHMEMS -> 1 <= sm_count d < 2 ^ 31 - 1 ->
  rtapi_shmem_delete_inst i (set_table (<[i := reopened d]> (sw_table w)) w) = (Ok 0, w).
Proof.
  intros Hi Hr Hc. unfold rtapi_shmem_delete_inst.
  rewrite (proj2 (Z.ltb_ge i 1)), (proj2 (Z.leb_gt _ _)) by lia. cbn [orb].
  unfold mbind, M_bind, get. cbn [sw_table set_table]. rewrite lookup_insert_eq. cbn [sm_count reopened].
  rewrite (wraps_small 32 (sm_count d + 1)), wraps_small by lia.
  rewrite (proj2 (Z.eqb_neq _ 0)) by lia. cbn [negb]. unfold modify, mret, M_ret, set_table. cbn.
  rewrite insert_insert_eq. replace (sm_count d + 1 - 1) with (sm_count d) by lia.
  destruct d. rewrite insert_id by done. by destruct w.
Qed.

Definition own_segment (r : hal_ring) : Prop := Z.land (r_flags r) ALLOC_HALMEM = 0.

Definition with_shm (w : shm_world) s : hal_state H := set_rings (set_rst_shm w (hs_rings s)) s.

Lemma shmem_run {A} (m : M shm_world A) s x w : m (rst_shm (hs_rings s)) = (x, w) ->
  shmem m s = (x, with_shm w s).
Proof. intros Hm. unfold shmem. by rewrite Hm. Qed.

Lemma with_shm_id s : with_shm (rst_shm (hs_rings s)) s = s.
Proof. destruct s as [? ? ? ? ? ? ? ? ? ? ? ? ? ? ? ? ? ? ? ? ? ? ? ? []]. done. Qed.

Lemma getptr_slot w i d :
  sw_table w !! i = Some d -> 1 <= i < RTAPI_MAX_SHMEMS -> rtapi_shmem_getptr i w = (Ok (sm_mem d), w).
Proof.
  intros Hi Hr. unfold rtapi_shmem_getptr, rtapi_shmem_getptr_inst.
  rewrite (proj2 (Z.ltb_ge i 1)), (proj2 (Z.leb_gt _ _)) by lia. cbn [orb].
  unfold mbind, M_bind, get. by rewrite Hi.
Qed.

(** The slot of a ring's segment after one more use. *)
Section KnownSegment.
Variables (s : hal_state H) (r : hal_ring) (i : Z) (d : shmem_data).
Let w := rst_shm (hs_rings s).
Let w1 := set_table (<[i := reopened d]> (sw_table w)) w.
Hypothesis Hf : find_shmem 32 (sw_table w) (OS_KEY (r_ring_shmkey r) rtapi_instance) 1 = (i, Some d).

Lemma known_slot : 1 <= i < RTAPI_MAX_SHMEMS /\ sw_table w !! i = Some d /\ sw_table w1 !! i = Some (reopened d).
Proof.
  pose proof (find_shmem_set _ _ _ _ _ _ d Hf eq_refl) as (_ & ? & ? & ? & _).
  split; [lia |]. split; [done |]. simpl. apply lookup_insert_eq.
Qed.

Lemma map_ring_segment :
  own_segment r -> map_ring r s = (Ok (Some i, RMap (sm_mem d)), with_shm w1 s).
Proof.
  intros Hown. destruct known_slot as (Hi & _ & Hl1). unfold map_ring. rewrite Hown. cbn [Z.eqb negb].
  unfold mbind at 1, M_bind at 1, attempt_rc. rewrite (shmem_run _ s _ _ (shmem_new_known w _ _ 0 i d Hf)).
  fold w1. rewrite (proj2 (Z.ltb_ge i 0)) by lia. cbn [andb].
  unfold mbind, M_bind. rewrite (shmem_run _ (with_shm w1 s) _ _ (getptr_slot w1 i _ Hl1 Hi)). done.
Qed.

Lemma ring_memory_segment o ring_id total mode ob :
  Z.land mode ALLOC_HALMEM = 0 -> hs_objs s !! o = Some ob ->
  r_ring_shmkey r = OS_KEY (RTAPI_RING_SHM_KEY + ring_id) rtapi_instance ->
  exists s2, ring_memory o ring_id total mode s = (Ok (RMap (sm_mem d)), s2) /\ hs_rings s2 = set_rst_shm w1 (hs_rings s).
Proof.
  intros Hm Ho Hkey. destruct known_slot as (Hi & _ & Hl1). unfold ring_memory. rewrite Hm. cbn [Z.eqb negb].
  rewrite <- Hkey. unfold mbind at 1, M_bind at 1, set_body, mbind at 1, M_bind at 1, get_obj. rewrite Ho.
  unfold put_obj. set (s' := set_objs _ s).
  unfold mbind at 1, M_bind at 1, attempt_rc, rtapi_shmem_new.
  rewrite (shmem_run _ s' _ _ (shmem_new_known w _ _ total i d Hf)). fold w1.
  unfold mbind, M_bind. rewrite (shmem_run _ (with_shm w1 s') _ _ (getptr_slot w1 i _ Hl1 Hi)).
  eexists. split; [reflexivity |]. done.
Qed.
End KnownSegment.

(** The new header does not fit. *)
Lemma init_ring_memory_short a mode size sp_size s :
  Ring.sizeof_ringheader <= accessible (rst_shm (hs_rings s)) a ->
  accessible (rst_shm (hs_rings s)) a
    < Ring.sizeof_ringheader + RTAPI_CACHE_ALIGN (Ring.ring_storage_alloc mode size) + 4 ->
  fst (init_ring_memory (RMap a) mode size sp_size s) = Crash.
Proof.
  intros Hlo Hhi. unfold init_ring_memory, mbind, M_bind, get_ringheader, ring_key.
  rewrite (proj2 (Z.ltb_ge _ _)) by lia.
  destruct (sw_maps (rst_shm (hs_rings s)) !! a) as [x |] eqn:Ex; [| done]. cbn [fmap option_fmap option_map].
  unfold put_ringheader, ring_key, Ring.trailer_from_header. simpl fst.
  rewrite (proj2 (Z.ltb_lt _ _)); [done |]. simpl. lia.
Qed.

(** The segment of a ring outlives the ring: deletion maps the segment
    once more and drops that use only, so its slot in the table stays.  A new
    ring that gets the same ring id gets the old mapping whatever its size
    is, and initializing a ring header that needs more than the old segment
    accesses memory outside of it. *)
Theorem ring_segment_stale s o h r i d mode size sp_size o' total :
  let key := OS_KEY (r_ring_shmkey r) rtapi_instance in
  hs_init s = true -> hs_objs s !! o = Some (HalObj h (BRing r)) -> own_segment r -> hh_refcnt h = 0 ->
  0 <= r_ring_id r <= HAL_MAX_RINGS -> r_ring_id r ∈ rst_ids (hs_rings s) ->
  r_ring_shmkey r = OS_KEY (RTAPI_RING_SHM_KEY + r_ring_id r) rtapi_instance ->
  find_shmem 32 (sw_table (rst_shm (hs_rings s))) key 1 = (i, Some d) -> 1 <= sm_count d < 2 ^ 31 - 1 ->
  Ring.sizeof_ringheader <= accessible (rst_shm (hs_rings s)) (sm_mem d) ->
  (forall k, ring_key s (RMap (sm_mem d)) Ring.sizeof_ringheader = Some k -> Ring.rh_refcount (fst (content_of s k)) = 0) ->
  Z.land mode ALLOC_HALMEM = 0 -> is_Some (hs_objs s !! o') -> o' <> o ->
  exists s1 s2,
    free_ring_struct o s = (Ok 0, s1) /\ rst_shm (hs_rings s1) = rst_shm (hs_rings s) /\
    ring_memory o' (r_ring_id r) total mode s1 = (Ok (RMap (sm_mem d)), s2) /\
    (accessible (rst_shm (hs_rings s)) (sm_mem d)
     < Ring.sizeof_ringheader + RTAPI_CACHE_ALIGN (Ring.ring_storage_alloc mode size) + 4 ->
     fst (init_ring_memory (RMap (sm_mem d)) mode size sp_size s2) = Crash).
Proof.
  intros key Hi Ho Hown Hrc Hid Hin Hkey Hf Hcnt Hacc Hzero Hmode [ob' Ho'] Hne.
  pose proof (find_shmem_set _ _ _ _ _ _ d Hf eq_refl) as (Hk & Hlk & Hi1 & Hi2 & _).
  set (w := rst_shm (hs_rings s)) in *.
  destruct (known_slot s r i d Hf) as (Hir & _ & Hl1).
  pose proof (shmem_reopen_delete w i d Hlk Hir Hcnt) as Hdel. fold w in Hl1.
  set (w1 := set_table (<[i := reopened d]> (sw_table w)) w) in *.
  assert (accessible w1 (sm_mem d) = accessible w (sm_mem d)) as Hacc1 by done.
  set (s1 := set_ids (rst_ids (hs_rings s) ∖ {[r_ring_id r]}) (set_objs (<[o := invalidated (HalObj h (BRing r))]> (hs_objs s)) s)).
  destruct (ring_memory_segment s1 r i d Hf o' (r_ring_id r) total mode ob' Hmode) as (s2 & Hm & Hs2);
    [simpl; by rewrite lookup_insert_ne | done |].
  exists s1, s2. split; [| split; [done |]; split; [exact Hm |]].
  - unfold free_ring_struct, mbind at 1, M_bind at 1. rewrite (get_ring_run _ _ _ _ Ho).
    unfold mbind at 1, M_bind at 1. rewrite (map_ring_segment s r i d Hf Hown). cbn [fst snd]. fold w w1.
    unfold mbind at 1, M_bind at 1, get_ringheader.
    destruct (ring_key s (RMap (sm_mem d)) Ring.sizeof_ringheader) as [k |] eqn:Ek.
    2:{ exfalso. unfold ring_key in Ek. fold w in Ek. rewrite (proj2 (Z.ltb_ge _ _)) in Ek by lia.
        unfold accessible in Hacc. destruct (sw_maps w !! sm_mem d); [done | unfold Ring.sizeof_ringheader in Hacc; lia]. }
    change (ring_key (with_shm w1 s) (RMap (sm_mem d)) Ring.sizeof_ringheader) with (ring_key s (RMap (sm_mem d)) Ring.sizeof_ringheader).
    rewrite Ek. change (content_of (with_shm w1 s) k) with (content_of s k). rewrite (Hzero k eq_refl). cbn [Z.eqb negb].
    unfold mbind at 1, M_bind at 1. unfold mbind at 1, M_bind at 1, attempt_rc.
    unfold rtapi_shmem_delete. rewrite (shmem_run _ (with_shm w1 s) _ _ Hdel).
    change (with_shm w (with_shm w1 s)) with (with_shm w s). unfold w at 1. rewrite with_shm_id.
    unfold mret at 1, M_ret at 1. unfold mbind, M_bind. erewrite free_object_run by exact Ho. cbn [o_hdr].
    rewrite Hrc. cbn [Z.eqb]. by rewrite free_ring_id_run.
  - intros Hshort. apply init_ring_memory_short; rewrite Hs2; [exact Hacc | exact Hshort].
Qed.
End RingTheorems.

(** ** Witnesses: a ring "r" in HAL memory, created at boot *)
#[export] Instance os0 : ShmOS := { mmap m _ := Some (4096 * (1 + Z.of_nat (size m))) }.

Definition w_ring : hal_state bump := snd (halg_ring_newfv 100 0 ALLOC_HALMEM (Some "r") boot).

Lemma w_ring_lookup o ob : hs_objs w_ring !! o = Some ob ->
  (o = 64 /\ body_type (o_body ob) = HAL_COMPONENT) \/
  (o = 512 /\ ob = HalObj (HalHdr 2 0 (Some (512, "r")) 0 false true false false)
                        (BRing (HalRing 0 0 320 1112 ALLOC_HALMEM))).
Proof.
  intros Ho%elem_of_map_to_list.
  let l := eval vm_compute in (map_to_list (hs_objs w_ring)) in
    replace (map_to_list (hs_objs w_ring)) with l in Ho by (vm_compute; reflexivity).
  rewrite !elem_of_cons in Ho. destruct Ho as [[= -> ->] | [[= -> ->] | Ho%elem_of_nil]];
    [by right | by left | done].
Qed.

Lemma w_ring_inv : ring_inv w_ring [].
Proof.
  assert (forall o h r, live_ring w_ring o h r -> o = 512 /\ hh_refcnt h = 0 /\ r = HalRing 0 0 320 1112 ALLOC_HALMEM) as Hlive.
  { intros o h r (_ & Ho & _). destruct (w_ring_lookup _ _ Ho) as [[_ Hb] | [-> [= -> ->]]]; [done | by split_and!]. }
  split.
  - done.
  - intros o Ho. change (hs_halobjects w_ring) with [64; 512] in Ho.
    rewrite !elem_of_cons in Ho. destruct Ho as [-> | [-> | Ho%elem_of_nil]]; [by vm_compute; eexists.. | done].
  - intros p Hp. change (hs_heap w_ring) with (Bump (b_next (hs_heap w_ring)) (b_live (hs_heap w_ring))) in Hp.
    assert (forallb (fun x => x <? b_next (hs_heap w_ring)) (elements (b_live (hs_heap w_ring))) = true) as Hall
      by (vm_compute; reflexivity).
    rewrite forallb_forall in Hall. apply Z.ltb_lt, Hall, list_elem_of_In, elem_of_elements. exact Hp.
  - intros o h r Hr. destruct (Hlive _ _ _ Hr) as (-> & Hrc & ->). split; [done |]. split; [done |].
    split; [by vm_compute | by vm_compute].
  - intros o1 h1 r1 o2 h2 r2 H1 H2 _. destruct (Hlive _ _ _ H1) as (-> & _). by destruct (Hlive _ _ _ H2) as (-> & _).
  - intros a Ha%elem_of_nil. done.
Qed.

Lemma ring_new_duplicate_witness : exists s',
  halg_ring_newfv 4096 0 ALLOC_HALMEM (Some "r") w_ring = (Err (- EEXIST), s') /\
  find_obj (sel_ok (sel_type_name HAL_RING "r")) w_ring = Some 512 /\
  find_obj (sel_ok (sel_type_name HAL_RING "r")) s' <> Some 512.
Proof.
  destruct (halg_ring_newfv 4096 0 ALLOC_HALMEM (Some "r") w_ring) as [r s'] eqn:E.
  assert (exists ob, hs_objs w_ring !! 512 = Some ob /\ hh_refcnt (o_hdr ob) = 0) as (ob & Ho & Hrc)
    by (vm_compute; eexists; split; reflexivity).
  assert (find_obj (sel_ok (sel_type_name HAL_RING "r")) w_ring = Some 512) as Hf by (vm_compute; reflexivity).
  destruct (ring_new_duplicate 4096 0 ALLOC_HALMEM "r" w_ring 512 ob r s' eq_refl (rg_listed _ _ w_ring_inv) eq_refl)
    as (-> & _ & _ & _ & _ & Hn).
  - unfold short_name, HAL_MAX_NAME_LEN. simpl. lia.
  - exists 1. split; [unfold HAL_MAX_RINGS; lia | by vm_compute].
  - exact Hf.
  - exact Ho.
  - exact Hrc.
  - exact E.
  - exists s'. split; [reflexivity |]. split; [exact Hf | exact Hn].
Defined.

Lemma attached_ring_kept_witness : exists s' held',
  ring_run [OAttach (Some "r"); OAttach (Some "r"); ODelete (Some "r"); ODetach 0] (w_ring, []) = Some (s', held') /\
  (forall o h r, live_ring s' o h r -> refcount_at s' (r_ring_offset r) = held_at (r_ring_offset r) held').
Proof.
  destruct (attached_ring_kept [OAttach (Some "r"); OAttach (Some "r"); ODelete (Some "r"); ODetach 0]
    w_ring [] w_ring_inv ltac:(simpl; lia)) as (s' & held' & Hrun & Hc & _).
  exists s', held'. split; [exact Hrun | exact Hc].
Defined.

(** Two attachments, one of them detached: the ring is still there, with one user. *)
Example ring_session : exists s' held',
  ring_run [OAttach (Some "r"); OAttach (Some "r"); ODelete (Some "r"); ODetach 0] (w_ring, []) = Some (s', held') /\
  length held' = 1%nat /\ refcount_at s' 1112 = 1.
Proof. vm_compute. eexists _, _. split; [reflexivity | split; reflexivity]. Qed.

(** A ring "q" in a segment of its own. *)
Definition w_seg : hal_state bump := snd (halg_ring_newfv 100 0 0 (Some "q") boot).
Definition w_q : hal_ring := HalRing 0 (OS_KEY RTAPI_RING_SHM_KEY 0) 320 0 0.
Definition w_slot : shmem_data := ShmemData (OS_KEY RTAPI_RING_SHM_KEY 0) 1 0 320 4096.

Lemma ring_segment_stale_witness : exists s1 s2,
  free_ring_struct 512 w_seg = (Ok 0, s1) /\ rst_shm (hs_rings s1) = rst_shm (hs_rings w_seg) /\
  ring_memory 64 0 10000 0 s1 = (Ok (RMap 4096), s2) /\
  fst (init_ring_memory (RMap 4096) 0 10000 0 s2) = Crash.
Proof.
  assert (hs_objs w_seg !! 512 = Some (HalObj (HalHdr 2 0 (Some (512, "q")) 0 false true false false) (BRing w_q))) as Ho
    by (vm_compute; reflexivity).
  destruct (ring_segment_stale w_seg 512 _ w_q 1 w_slot 0 10000 0 64 10000 eq_refl Ho eq_refl eq_refl) as (s1 & s2 & H1 & H2 & H3 & H4).
  - unfold w_q, HAL_MAX_RINGS. simpl. lia.
  - apply (bool_decide_unpack _). vm_compute. exact I.
  - vm_compute. reflexivity.
  - vm_compute. reflexivity.
  - simpl. lia.
  - vm_compute. discriminate.
  - intros k Hk. vm_compute in Hk. injection Hk as <-. vm_compute. reflexivity.
  - reflexivity.
  - vm_compute. eexists. reflexivity.
  - discriminate.
  - exists s1, s2. split; [exact H1 |]. split; [exact H2 |]. split; [exact H3 |].
    apply H4. vm_compute. reflexivity.
Defined.
