(* ===== verification/HalComp.v ===== *)
(** * HAL components and instances (hal/src/hal_comp.c, hal_instance.c,
    hal_object_selectors.c)

    Freeing an object frees what it owns: an instance its functs, pins,
    params and plugs; a component its functs, instances, pins, params and
    plugs.  The build modelled is the real-time library (RTAPI). *)
From S2P Require Import Prelude RtapiTask HalData HalMemory HalObject HalPin HalSignal HalFunct HalThread RtapiShmem HalRing.

(** The result of the shared memory calls of the runtime: an id, or a
    negative error code. *)
Class SharedMemory := {
  hal_shmem_new : Z;
  hal_shmem_getptr : Z;
}.

(** The userland functs of the library itself, as function pointers. *)
Definition create_instance_ptr : Z := -1.
Definition delete_instance_ptr : Z := -2.

Section HalComp.
Context {H : Type} {HA : Allocator H} {PF : Platform} {CB : Callbacks H} {SM : SharedMemory}
  {FL : Flavor} {OS : ShmOS}.
Abbreviation HM := (M (hal_state H)).

(** ** Freeing the objects of an owner ([yield_free] by type) *)
Definition yield_free_pin (o : Z) (_ : unit) : HM (Z * unit) :=
  free_pin_struct o ≫= fun _ => mret (0, tt).
Definition yield_free_param (o : Z) (_ : unit) : HM (Z * unit) :=
  ignore (halg_free_object o) ≫= fun _ => mret (0, tt).
Definition yield_free_funct (o : Z) (_ : unit) : HM (Z * unit) :=
  free_funct_struct o ≫= fun _ => mret (0, tt).

Definition yield_free_plug (o : Z) (_ : unit) : HM (Z * unit) :=
  ignore (halg_plug_delete (Some o)) ≫= fun _ => mret (0, tt).

Definition free_owned (type owner : Z) (cb : Z -> unit -> HM (Z * unit)) : HM unit :=
  halg_foreach (sel_type_owner type owner) cb tt ≫= fun _ => mret tt.

(** A destructor without a component dereferences NULL. *)
Definition free_inst_struct (o : Z) : HM unit :=
  ob ← get_obj o;
  let id := hh_id (o_hdr ob) in
  free_owned HAL_FUNCT id yield_free_funct ≫= fun _ =>
  comp ← halpr_find_owning_comp id;
  match comp with
  | None => crash
  | Some c =>
      cb ← get_comp c;
      inst ← get_inst o;
      match c_dtor cb with
      | Some dtor => run_dtor dtor (hh_get_name (o_hdr ob)) (i_inst_data_ptr inst) (i_inst_size inst)
      | None => mret tt
      end
  end ≫= fun _ =>
  free_owned HAL_PIN id yield_free_pin ≫= fun _ =>
  free_owned HAL_PARAM id yield_free_param ≫= fun _ =>
  free_owned HAL_PLUG id yield_free_plug ≫= fun _ =>
  inst ← get_inst o;
  halg_free_argv (i_frozen_argv inst) ≫= fun _ =>
  ignore (halg_free_object o).

Definition yield_free_inst (o : Z) (_ : unit) : HM (Z * unit) :=
  free_inst_struct o ≫= fun _ => mret (0, tt).

Definition free_comp_struct (o : Z) : HM Z :=
  ob ← get_obj o;
  if negb (hh_refcnt (o_hdr ob) =? 0) then halfail EBUSY
  else
    let id := hh_id (o_hdr ob) in
    free_owned HAL_FUNCT id yield_free_funct ≫= fun _ =>
    free_owned HAL_INST id yield_free_inst ≫= fun _ =>
    free_owned HAL_PIN id yield_free_pin ≫= fun _ =>
    free_owned HAL_PARAM id yield_free_param ≫= fun _ =>
    free_owned HAL_PLUG id yield_free_plug ≫= fun _ =>
    ignore (halg_free_object o) ≫= fun _ => mret 0.

(** [unlocked_delete_halobject]: signals only. *)
Definition unlocked_delete_halobject (type o : Z) (_ : unit) : HM (Z * unit) :=
  if type =? HAL_SIGNAL then
    ob ← get_obj o; rc ← halg_signal_delete (Some (hh_get_name (o_hdr ob))); mret (rc, tt)
  else raise (-1).

(** ** Component life cycle *)
Definition halg_ready (comp_id : Z) : HM Z :=
  comp ← halpr_find_comp_by_id comp_id;
  match comp with
  | None => halfail EINVAL
  | Some c =>
      cb ← get_comp c;
      if COMP_INITIALIZING <? c_state cb then halfail EINVAL
      else
        set_body c (BComp (comp_set_state cb
          (if c_type cb =? TYPE_REMOTE then COMP_UNBOUND else COMP_READY))) ≫= fun _ => mret 0
  end.

(** The whole segment is cleared; the heap gets half of it. *)
Definition init_hal_data : HM Z :=
  s ← hal_data;
  if negb (hs_version s =? 0) then
    if hs_version s =? HAL_VER then mret 0 else raise (-1)
  else
    modify (fun s =>
      HalState true HAL_VER h_init (hs_gheap s) ∅ [] [] [] ∅ ∅ HAL_LOCK_NONE 0 0 0
        arena_offset hal_size 0 0 0 0 (hs_next_handle s) (hs_halerrno s) (hs_lib_module_id s)
        (hs_rtapi s) (set_rst_ids ∅ (hs_rings s))) ≫= fun _ =>
    ignore (hal_heap_addmem (hal_size / HAL_HEAP_INITIAL)) ≫= fun _ => mret 0.

(** [rtapi_init] hands out a handle; [rtapi_exit] does nothing. *)
Definition rtapi_init : HM Z := rtapi_next_handle.

(** Mapping and initializing the segment, as the library component. *)
Definition attach_hal_shm (comp_id : Z) : HM unit :=
  if hal_shmem_new <? 0 then halfail hal_shmem_new
  else if hal_shmem_getptr <? 0 then halfail hal_shmem_getptr
  else
    modify (fun s => HalState true (hs_version s) (hs_heap s) (hs_gheap s) (hs_objs s)
      (hs_halobjects s) (hs_threads s) (hs_funct_entry_free s) (hs_fentries s) (hs_cells s)
      (hs_lock s) (hs_threads_running s) (hs_base_period s) (hs_exact_base_period s)
      (hs_shmem_bot s) (hs_shmem_top s) (hs_str_alloc s) (hs_str_freed s)
      (hs_rt_alignment_loss s) (hs_hal_malloced s) (hs_next_handle s) (hs_halerrno s)
      (hs_lib_module_id s) (hs_rtapi s) (hs_rings s)) ≫= fun _ =>
    r ← attempt init_hal_data;
    match r with
    | None => modify (set_lib_module_id (-1)) ≫= fun _ => halfail (-1)
    | Some _ => modify (set_lib_module_id comp_id)
    end.

Definition userfunct (ptr owner_id : Z) : hal_export_xfunct_args :=
  XfunctArgs FS_USERLAND ptr 0 0 0 owner_id.

(** [hallib]: how the library component is initialized if it has to be.
    [fmt] is the format, [str] the formatted name. *)
Definition xinitfv_body (hallib : HM Z) (type userarg1 userarg2 : Z) (ctor dtor : option Z)
    (fmt : option string) (str : string) : HM Z :=
  fmt ← CHECK_NULL fmt;
  PCHECK_STRLEN (Some fmt) HAL_MAX_NAME_LEN ≫= fun _ =>
  name ← fmt_ap (HAL_MAX_NAME_LEN + 1) str;
  match dtor, ctor with
  | Some _, None => halfail EINVAL
  | _, _ =>
  s ← get;
  (if (hs_lib_module_id s <? 0) && negb (type =? TYPE_HALLIB)
   then hallib ≫= fun _ => mret tt else mret tt) ≫= fun _ =>
  comp_id ← rtapi_init;
  if comp_id <? 0 then halfail comp_id
  else
  s ← get;
  (if (hs_lib_module_id s <? 0) && (type =? TYPE_HALLIB)
   then attach_hal_shm comp_id else mret tt) ≫= fun _ =>
  s ← get;
  if hs_lib_module_id s <? 0 then halfail (hs_lib_module_id s)
  else
  dup ← halpr_find_comp_by_name name;
  match dup with
  | Some _ => halfail EBUSY
  | None =>
  comp ← halg_create_objectf HAL_COMPONENT 0 name;
  upd_hdr comp (fun h => hh_set_id h comp_id) ≫= fun _ =>
  set_body comp (BComp (HalComp type COMP_INITIALIZING hal_shmem_base 0 0 0 0 ctor dtor 0
                          userarg1 userarg2)) ≫= fun _ =>
  halg_add_object comp ≫= fun _ =>
  (if type =? TYPE_HALLIB then
     s ← get;
     let lib := hs_lib_module_id s in
     halg_export_xfunctf (userfunct create_instance_ptr lib) "newinst" ≫= fun _ =>
     halg_export_xfunctf (userfunct delete_instance_ptr lib) "delinst" ≫= fun _ =>
     halg_ready lib ≫= fun _ => mret tt
   else mret tt) ≫= fun _ =>
  mret comp
  end
  end.

Definition init_hallib : HM Z :=
  xinitfv_body crash TYPE_HALLIB 0 0 None None (Some "hal_lib") "hal_lib".

Definition halg_xinitfv := xinitfv_body init_hallib.
Definition halg_xinitf := halg_xinitfv.

(** Called with the format "%s": the name may be as long as it likes here. *)
Definition hal_xinit (type userarg1 userarg2 : Z) (ctor dtor : option Z) (name : string) : HM Z :=
  r ← attempt (halg_xinitf type userarg1 userarg2 ctor dtor (Some "%s") name);
  match r with
  | None => s ← get; mret (hs_halerrno s)
  | Some c => ob ← get_obj c; mret (hh_id (o_hdr ob))
  end.

(** The result of [free_comp_struct] is not looked at. *)
Definition halg_exit (comp_id : Z) : HM Z :=
  CHECK_HALDATA ≫= fun _ =>
  comp ← halpr_find_comp_by_id comp_id;
  match comp with
  | None => halfail EINVAL
  | Some c =>
      cb ← get_comp c;
      ignore (free_comp_struct c) ≫= fun _ =>
      (if c_type cb =? TYPE_HALLIB then
         ignore hal_sweep ≫= fun _ =>
         modify (fun s => set_lib_module_id (-1) (set_init false s))
       else mret tt) ≫= fun _ => mret 0
  end.

Definition hal_comp_name (comp_id : Z) : HM (option string) :=
  comp ← halpr_find_comp_by_id comp_id;
  match comp with
  | None => mret None
  | Some c => ob ← get_obj c; mret (Some (hh_get_name (o_hdr ob)))
  end.

(** ** Instances *)

(** Returns the id and the instance data; when the data cannot be
    allocated, the descriptor is left behind, unlisted. *)
Definition halg_inst_create (name : option string) (comp_id size : Z) : HM (Z * option Z) :=
  CHECK_HALDATA ≫= fun _ =>
  name ← CHECK_STR name;
  comp ← halg_find_object_by_id HAL_COMPONENT comp_id;
  match comp with
  | None => halfail ENOENT
  | Some c =>
  dup ← halg_find_object_by_name HAL_INST name;
  match dup with
  | Some _ => halfail EEXIST
  | None =>
  cob ← get_obj c;
  inst ← halg_create_objectf HAL_INST (hh_id (o_hdr cob)) name;
  m ← (if 0 <? size then
         r ← attempt (shmalloc_rt size);
         match r with None => halfail ENOMEM | Some m => mret (Some m) end
       else mret None);
  set_body inst (BInst (HalInst m size None)) ≫= fun _ =>
  halg_add_object inst ≫= fun _ =>
  ob ← get_obj inst;
  mret (hh_id (o_hdr ob), m)
  end
  end.

Definition halg_inst_delete (name : option string) : HM Z :=
  CHECK_HALDATA ≫= fun _ =>
  name ← CHECK_STR name;
  inst ← halg_find_object_by_name HAL_INST name;
  match inst with
  | None => halfail ENOENT
  | Some i => free_inst_struct i ≫= fun _ => mret 0
  end.

Definition halg_find_inst_by_id (id : Z) : HM (option Z) :=
  ra ← halg_foreach (sel_type_id HAL_INST id) yield_match None;
  mret (if fst ra =? 0 then None else snd ra).

(** The userland functs "newinst" and "delinst". *)
Definition create_instance (argv : list string) : HM Z :=
  match argv with
  | cname :: iname :: _ =>
      comp ← halpr_find_comp_by_name cname;
      match comp with
      | None => halfail EINVAL
      | Some c =>
          cb ← get_comp c;
          match c_ctor cb with
          | None => halfail EINVAL
          | Some ctor =>
              inst ← halpr_find_inst_by_name iname;
              match inst with
              | Some _ => halfail EBUSY
              | None => run_ctor ctor argv
              end
          end
      end
  | _ => halfail EINVAL
  end.

Definition delete_instance (argv : list string) : HM Z :=
  match argv with
  | [] => halfail EINVAL
  | iname :: _ => halg_inst_delete (Some iname)
  end.

(** ** Shutdown: the processes that get SIGTERM are collected. *)
Definition unload_usr_cb (o : Z) (pids : list Z) : HM (Z * list Z) :=
  cb ← get_comp o;
  ob ← get_obj o;
  if (c_type cb =? TYPE_REMOTE) && (c_pid cb =? 0) then
    ignore (halg_exit (hh_id (o_hdr ob))) ≫= fun _ => mret (0, pids)
  else if ((c_type cb =? TYPE_REMOTE) && negb (c_pid cb =? 0)) || (c_type cb =? TYPE_USER) then
    mret (0, pids ++ [Z.abs (c_pid cb)])
  else mret (0, pids).

Definition hal_exit_usercomps (name : option string) : HM (list Z) :=
  ra ← halg_foreach (Sel HAL_COMPONENT 0 0 0 name) unload_usr_cb [];
  mret (snd ra).

(** ** hal_misc.c *)
Definition halpr_pin_count (name : option string) : HM Z :=
  name ← CHECK_NULL name;
  CHECK_HALDATA ≫= fun _ =>
  comp ← halpr_find_comp_by_name name;
  match comp with
  | None => halfail ENOENT
  | Some c =>
      cb ← get_comp c;
      ob ← get_obj c;
      let id := hh_id (o_hdr ob) in
      ra ← halg_foreach (if c_type cb =? TYPE_REMOTE then Sel HAL_PIN 0 id 0 None
                         else Sel HAL_PIN 0 0 id None) yield_count tt;
      mret (fst ra)
  end.

Definition halpr_param_count (name : option string) : HM Z :=
  name ← CHECK_NULL name;
  CHECK_HALDATA ≫= fun _ =>
  comp ← halpr_find_comp_by_name name;
  match comp with
  | None => halfail ENOENT
  | Some c =>
      ob ← get_obj c;
      ra ← halg_foreach (Sel HAL_PARAM 0 0 (hh_id (o_hdr ob)) None) yield_count tt;
      mret (fst ra)
  end.

Definition hal_find_pin_by_name (name : option string) : HM (option Z) :=
  name ← CHECK_NULL name;
  CHECK_HALDATA ≫= fun _ => halpr_find_pin_by_name name.

Definition hal_comp_state_by_name (name : string) : HM Z :=
  comp ← halpr_find_comp_by_name name;
  match comp with
  | None => halfail ENOENT
  | Some c => cb ← get_comp c; mret (c_state cb)
  end.
End HalComp.
