(* ===== verification/HalParam.v ===== *)
(** * HAL params (hal/src/hal_param.c)

    A param's value is in its descriptor, or, for legacy params, in memory of
    the component.  Unlike pins, names of params are not tested for
    duplicates, and a successful creation returns NULL. *)
From S2P Require Import Prelude HalData HalMemory HalObject HalPin.

Section HalParam.
Context {H : Type} {HA : Allocator H} {PF : Platform}.
Abbreviation HM := (M (hal_state H)).

(** [Ok] is the returned pointer, which is NULL (0) on success; [Err] is a
    NULL with [_halerrno] set. *)
Definition halg_param_newfv (type dir : Z) (data_addr : option Z) (owner_id : Z)
    (str : option string) : HM Z :=
  CHECK_HALDATA ≫= fun _ =>
  CHECK_LOCK HAL_LOCK_LOAD ≫= fun _ =>
  str ← CHECK_NULL str;
  name ← fmt_ap (HAL_MAX_NAME_LEN + 1) str;
  if negb ((type =? HAL_BIT) || (type =? HAL_FLOAT) || (type =? HAL_S32) || (type =? HAL_U32))
  then halfail EINVAL
  else if negb ((dir =? HAL_RO) || (dir =? HAL_RW)) then halfail EINVAL
  else
  comp ← halpr_find_owning_comp owner_id;
  match comp with
  | None => halfail EINVAL
  | Some c =>
  if match data_addr with Some a => negb (SHMCHK a) | None => false end then halfail EINVAL
  else
  inst ← halpr_find_inst_by_id owner_id;
  inst_id ← match inst with
            | Some i => ob ← get_obj i; mret (hh_id (o_hdr ob))
            | None => mret 0
            end;
  cb ← get_comp c;
  if (inst_id =? 0) && (COMP_INITIALIZING <? c_state cb) then halfail EINVAL
  else
  new ← halg_create_objectf HAL_PARAM owner_id name;
  match data_addr with
  | Some a =>
      set_body new (BParam (HalParam 0 (ARt a) type dir)) ≫= fun _ => upd_hdr new hh_set_legacy
  | None => set_body new (BParam (HalParam 0 (AParam new) type dir))
  end ≫= fun _ =>
  halg_add_object new ≫= fun _ => mret 0
  end.

Definition halg_param_newf := halg_param_newfv.

(** NULL means failure here, so that [_halerrno] of an earlier call is the
    result of a successful one. *)
Definition hal_param_newf (type dir : Z) (data_addr : option Z) (owner_id : Z)
    (str : option string) : HM Z :=
  r ← attempt (halg_param_newfv type dir data_addr owner_id str);
  if match r with Some p => p =? 0 | None => true end
  then s ← get; mret (hs_halerrno s) else mret 0.

(** [hal_param_new] (hal.h): the name is passed as "%s". *)
Definition hal_param_new (name : string) (type dir : Z) (data_addr : option Z) (owner_id : Z) : HM Z :=
  hal_param_newf type dir data_addr owner_id (Some name).

Definition hal_param_newfv (type dir : Z) (data_addr : option Z) (owner_id : Z) (str : string) : HM Z :=
  let '(sz, name) := vsnprintf (HAL_NAME_LEN + 1) str in
  if HAL_NAME_LEN <? sz then halfail ENOMEM
  else hal_param_new name type dir data_addr owner_id.

Definition hal_param_bit_newf := hal_param_newfv HAL_BIT.
Definition hal_param_float_newf := hal_param_newfv HAL_FLOAT.
Definition hal_param_u32_newf := hal_param_newfv HAL_U32.
Definition hal_param_s32_newf := hal_param_newfv HAL_S32.
End HalParam.
