(* ===== verification/HalVtable.v ===== *)
(** * HAL vtables (hal/src/hal_vtable.c)

    A vtable is exported under a name and a version, and reference counted.
    The context of a real-time vtable is 0. *)
From S2P Require Import Prelude HalData HalMemory HalObject.

Section HalVtable.
Context {H : Type} {HA : Allocator H} {PF : Platform}.
Abbreviation HM := (M (hal_state H)).

Definition halg_find_vtable_by_name (name : string) (version : Z) : HM (option Z) :=
  ra ← halg_foreach (sel_type_name HAL_VTABLE name) (yield_versioned_vtable_object version) None;
  mret (if fst ra =? 0 then None else snd ra).

Definition halpr_find_vtable_by_name := halg_find_vtable_by_name.

Definition halg_export_vtable (name : option string) (version : Z) (vtref : option Z) (comp_id : Z)
  : HM Z :=
  CHECK_HALDATA ≫= fun _ =>
  name ← CHECK_STRLEN name HAL_NAME_LEN;
  vtref ← CHECK_NULL vtref;
  CHECK_LOCK HAL_LOCK_LOAD ≫= fun _ =>
  dup ← halg_find_vtable_by_name name version;
  match dup with
  | Some _ => halfail EEXIST
  | None =>
      vt ← halg_create_objectf HAL_VTABLE comp_id name;
      set_body vt (BVtable (HalVtable 0 version vtref)) ≫= fun _ =>
      halg_add_object vt ≫= fun _ =>
      ob ← get_obj vt; mret (hh_id (o_hdr ob))
  end.

Definition halg_remove_vtable (vtable_id : Z) : HM Z :=
  CHECK_HALDATA ≫= fun _ =>
  CHECK_LOCK HAL_LOCK_LOAD ≫= fun _ =>
  vt ← halpr_find_vtable_by_id vtable_id;
  match vt with
  | None => halfail ENOENT
  | Some o =>
      ob ← get_obj o;
      if negb (hh_refcnt (o_hdr ob) =? 0) then halfail ENOENT
      else halg_free_object o ≫= fun _ => mret 0
  end.

(** Returns the id and the vtable. *)
Definition halg_reference_vtable (name : option string) (version : Z) : HM (Z * Z) :=
  CHECK_HALDATA ≫= fun _ =>
  name ← CHECK_STRLEN name HAL_NAME_LEN;
  CHECK_LOCK HAL_LOCK_LOAD ≫= fun _ =>
  vt ← halpr_find_vtable_by_name name version;
  match vt with
  | None => halfail ENOENT
  | Some o =>
      v ← get_vtable o;
      if negb (v_context v =? 0) then halfail ENOENT
      else
        upd_hdr o hh_incr_refcnt ≫= fun _ =>
        ob ← get_obj o; mret (hh_id (o_hdr ob), v_vtable v)
  end.

Definition halg_unreference_vtable (vtable_id : Z) : HM Z :=
  CHECK_HALDATA ≫= fun _ =>
  vt ← halpr_find_vtable_by_id vtable_id;
  match vt with
  | None => halfail ENOENT
  | Some o =>
      v ← get_vtable o;
      if negb (v_context v =? 0) then halfail ENOENT
      else upd_hdr o hh_decr_refcnt ≫= fun _ => mret 0
  end.

Definition count_exported_vtables_cb (owner : Z) (o : Z) (n : Z) : HM (Z * Z) :=
  ob ← get_obj o; mret (0, if hh_owner_id (o_hdr ob) =? owner then s32 (n + 1) else n).

Definition halg_count_exported_vtables (comp_id : Z) : HM Z :=
  ra ← halg_foreach (sel_type HAL_VTABLE) (count_exported_vtables_cb comp_id) 0; mret (snd ra).
End HalVtable.
