(* ===== verification/HalGroup.v ===== *)
(** * Signal groups (hal/src/hal_group.c)

    A group names signals as its members; each member holds a reference on
    its signal.  A compiled group remembers the last reported value of each
    monitored member.  Floating point values are IEEE binary64 patterns,
    computed with the specification floats of the Standard Library. *)
From S2P Require Import Prelude Double HalData HalMemory HalObject HalPin.

Definition GROUP_REPORT_ON_CHANGE : Z := 1.
Definition GROUP_MONITOR_ALL_MEMBERS : Z := 2.
Definition GROUP_REPORT_CHANGED_MEMBERS : Z := 4.
Definition MEMBER_MONITOR_CHANGE : Z := 1.

(** [HAL_FABS(a - b) > eps] *)
Definition float_differs (a b eps : Z) : bool :=
  dlt (float_of_bits eps) (dabs (dsub (float_of_bits a) (float_of_bits b))).

(** ** Compiled groups *)
Record compiled_group := CGroup {
  cg_group : Z;
  cg_member : list Z;
  cg_n_monitored : Z;
  cg_tracking : list hal_data_u;
  cg_changed : list bool;
}.

Inductive report_phase : Type := REPORT_BEGIN | REPORT_SIGNAL (sig : Z) | REPORT_END.

Section HalGroup.
Context {H : Type} {HA : Allocator H} {PF : Platform}.
Abbreviation HM := (M (hal_state H)).

(** [hal_data->epsilon], by index. *)
Variable epsilon : Z -> Z.

(** ** Groups and members *)
Definition halg_group_new (name : option string) (arg1 arg2 : Z) : HM Z :=
  CHECK_HALDATA ≫= fun _ =>
  name ← CHECK_STRLEN name HAL_NAME_LEN;
  CHECK_LOCK HAL_LOCK_LOAD ≫= fun _ =>
  group ← halpr_find_group_by_name name;
  match group with
  | Some _ => halfail EINVAL
  | None =>
      group ← halg_create_objectf HAL_GROUP 0 name;
      set_body group (BGroup (HalGroup arg1 arg2)) ≫= fun _ =>
      halg_add_object group ≫= fun _ => mret 0
  end.

Definition yield_free_member (o : Z) (_ : unit) : HM (Z * unit) :=
  ignore (halg_free_object o) ≫= fun _ => mret (0, tt).

(** The references of the members on their signals are not dropped. *)
Definition free_group_struct (o : Z) : HM unit :=
  ob ← get_obj o;
  halg_foreach (sel_type_owner HAL_MEMBER (hh_id (o_hdr ob))) yield_free_member tt ≫= fun _ =>
  ignore (halg_free_object o).

Definition halg_group_delete (name : option string) : HM Z :=
  CHECK_HALDATA ≫= fun _ =>
  name ← CHECK_STR name;
  CHECK_LOCK HAL_LOCK_CONFIG ≫= fun _ =>
  group ← halpr_find_group_by_name name;
  match group with
  | None => halfail ENOENT
  | Some g =>
      ob ← get_obj g;
      if negb (hh_refcnt (o_hdr ob) =? 0) then halfail EBUSY
      else free_group_struct g ≫= fun _ => mret 0
  end.

Definition hal_ref_group (name : string) : HM Z :=
  group ← halpr_find_group_by_name name;
  match group with
  | None => halfail ENOENT
  | Some g => upd_hdr g hh_incr_refcnt ≫= fun _ => mret 0
  end.

Definition hal_unref_group (name : string) : HM Z :=
  group ← halpr_find_group_by_name name;
  match group with
  | None => halfail ENOENT
  | Some g => upd_hdr g hh_decr_refcnt ≫= fun _ => mret 0
  end.

Definition halg_member_new (group member : option string) (arg1 eps_index : Z) : HM Z :=
  CHECK_HALDATA ≫= fun _ =>
  CHECK_LOCK HAL_LOCK_LOAD ≫= fun _ =>
  group ← CHECK_STRLEN group HAL_NAME_LEN;
  member ← CHECK_STRLEN member HAL_NAME_LEN;
  grp ← halg_find_object_by_name HAL_GROUP group;
  match grp with
  | None => halfail ENOENT
  | Some g =>
  gob ← get_obj g;
  if negb (hh_refcnt (o_hdr gob) =? 0) then halfail EBUSY
  else
  sig ← halg_find_object_by_name HAL_SIGNAL member;
  match sig with
  | None => halfail ENOENT
  | Some sig =>
  dup ← halg_find_object_by_name HAL_MEMBER member;
  match dup with
  | Some _ => halfail EBUSY
  | None =>
      new ← halg_create_objectf HAL_MEMBER (hh_id (o_hdr gob)) member;
      upd_hdr sig hh_incr_refcnt ≫= fun _ =>
      set_body new (BMember (HalMember sig arg1 (u8 eps_index))) ≫= fun _ =>
      halg_add_object new ≫= fun _ => mret 0
  end
  end
  end.

(** The member may belong to another group. *)
Definition halg_member_delete (group member : option string) : HM Z :=
  CHECK_HALDATA ≫= fun _ =>
  CHECK_LOCK HAL_LOCK_LOAD ≫= fun _ =>
  group ← CHECK_STRLEN group HAL_NAME_LEN;
  member ← CHECK_STRLEN member HAL_NAME_LEN;
  grp ← halpr_find_group_by_name group;
  match grp with
  | None => halfail EINVAL
  | Some g =>
  gob ← get_obj g;
  if negb (hh_refcnt (o_hdr gob) =? 0) then halfail EBUSY
  else
  mptr ← halg_find_object_by_name HAL_MEMBER member;
  match mptr with
  | None => halfail ENOENT
  | Some m =>
  sig ← halpr_find_sig_by_name member;
  match sig with
  | None => halfail ENOENT
  | Some sig =>
      upd_hdr sig hh_decr_refcnt ≫= fun _ =>
      ignore (halg_free_object m) ≫= fun _ => mret 0
  end
  end
  end.

(** ** Change detection *)
Definition monitored (g : hal_group) (m : hal_member) : bool :=
  negb (Z.land (m_userarg1 m) MEMBER_MONITOR_CHANGE =? 0)
  || negb (Z.land (g_userarg2 g) GROUP_MONITOR_ALL_MEMBERS =? 0).

Definition reports_changes (g : hal_group) : bool :=
  negb (Z.land (g_userarg2 g)
          (Z.lor GROUP_REPORT_ON_CHANGE GROUP_REPORT_CHANGED_MEMBERS) =? 0).

(** The two passes: the number of monitored members, and the members. *)
Definition cgroup_size_cb (g : hal_group) (o : Z) (n : Z * Z) : HM (Z * (Z * Z)) :=
  m ← get_member o;
  mret (0, (fst n + 1, if monitored g m then snd n + 1 else snd n)).

Definition cgroup_init_members_cb (o : Z) (l : list Z) : HM (Z * list Z) := mret (0, l ++ [o]).

Definition halpr_group_compile (name : option string) : HM compiled_group :=
  name ← CHECK_STR name;
  grp ← halpr_find_group_by_name name;
  match grp with
  | None => halfail EINVAL
  | Some go =>
      ob ← get_obj go;
      g ← get_group go;
      let sel := sel_type_owner HAL_MEMBER (hh_id (o_hdr ob)) in
      sizes ← halg_foreach sel (cgroup_size_cb g) (0, 0);
      members ← halg_foreach sel cgroup_init_members_cb [];
      let n := snd (snd sizes) in
      if reports_changes g && (n =? 0) then halfail EINVAL
      else
        let track := reports_changes g || (0 <? n) in
        upd_hdr go hh_incr_refcnt ≫= fun _ =>
        mret (CGroup go (snd members) (if track then n else 0)
                (if track then replicate (Z.to_nat n) 0 else [])
                (if track then replicate (length (snd members)) false else []))
  end.

(** Has the value changed since [old]?  And the value to remember. *)
Definition value_changed (type eps : Z) (old : hal_data_u) (v : hal_data_u) : option (bool * hal_data_u) :=
  if type =? HAL_BIT then
    Some (negb (get_bit_value old =? get_bit_value v), set_bit_value old (get_bit_value v))
  else if type =? HAL_FLOAT then
    Some (float_differs (get_float_value v) (get_float_value old) eps,
          set_float_value old (get_float_value v))
  else if type =? HAL_S32 then
    Some (negb (get_s32_value old =? get_s32_value v), set_s32_value old (get_s32_value v))
  else if type =? HAL_U32 then
    Some (negb (get_u32_value old =? get_u32_value v), set_u32_value old (get_u32_value v))
  else None.

(** The loop over the members: the tracking values and changed bits, and
    the number of changes. *)
Fixpoint match_members (g : hal_group) (l : list Z) (tracking : list hal_data_u) (n : Z)
  : HM (Z * list hal_data_u * list bool) :=
  match l with
  | [] => mret (n, tracking, [])
  | o :: l' =>
      m ← get_member o;
      if negb (monitored g m) then
        r ← match_members g l' tracking n;
        let '(n', tr, ch) := r in mret (n', tr, false :: ch)
      else
        sg ← get_sig (m_sig_ptr m);
        match tracking with
        | [] => crash
        | old :: tracking' =>
            match value_changed (s_type sg) (epsilon (m_eps_index m)) old (s_value sg) with
            | None => halfail EINVAL
            | Some (changed, v) =>
                r ← match_members g l' tracking' (if changed then n + 1 else n);
                let '(n', tr, ch) := r in
                mret (n', (if changed then v else old) :: tr, changed :: ch)
            end
        end
  end.

(** Returns the number of changes, or 1 when nothing is monitored. *)
Definition hal_cgroup_match (cg : compiled_group) : HM (Z * compiled_group) :=
  g ← get_group (cg_group cg);
  if reports_changes g || (0 <? cg_n_monitored cg) then
    r ← match_members g (cg_member cg) (cg_tracking cg) 0;
    let '(n, tr, ch) := r in
    mret (n, CGroup (cg_group cg) (cg_member cg) (cg_n_monitored cg) tr ch)
  else mret (1, cg).

(** The sequence of calls of the report callback, when none of them fails. *)
Fixpoint report_members (all : bool) (l : list Z) (changed : list bool) : HM (list report_phase) :=
  match l with
  | [] => mret []
  | o :: l' =>
      m ← get_member o;
      r ← report_members all l' (tail changed);
      mret (if all || default false (head changed) then REPORT_SIGNAL (m_sig_ptr m) :: r else r)
  end.

Definition hal_cgroup_report (cg : compiled_group) (force_all : bool) : HM (list report_phase) :=
  g ← get_group (cg_group cg);
  let all := force_all || (cg_n_monitored cg =? 0)
             || (Z.land (g_userarg2 g) GROUP_REPORT_CHANGED_MEMBERS =? 0) in
  r ← report_members all (cg_member cg) (cg_changed cg);
  mret (REPORT_BEGIN :: r ++ [REPORT_END]).
End HalGroup.
