(* ===== verification/HalRcomp.v ===== *)
(** * Remote components (hal/src/hal_rcomp.c)

    A remote component is bound and unbound by a client, and owned by the
    process that acquired it.  A compiled component is memory of the process:
    the tracked pins of a component and the last value of each of them. *)
From S2P Require Import Prelude HalData HalMemory HalObject HalPin HalGroup.

Definition PIN_DO_NOT_TRACK : Z := 1.

(** What the operating system and the global segment say. *)
Class Process := {
  now : Z;                 (* time(NULL) *)
  getpid : Z;
  rtapi_app_pid : Z;       (* global_data->rtapi_app_pid *)
}.

Definition comp_set_bound (c : hal_comp) (state last_bound last_unbound : Z) : hal_comp :=
  HalComp (c_type c) state (c_shmem_base c) (c_last_update c) last_bound last_unbound
    (c_pid c) (c_ctor c) (c_dtor c) (c_insmod_args c) (c_userarg1 c) (c_userarg2 c).

Definition comp_set_pid (c : hal_comp) (pid : Z) : hal_comp :=
  HalComp (c_type c) (c_state c) (c_shmem_base c) (c_last_update c) (c_last_bound c)
    (c_last_unbound c) pid (c_ctor c) (c_dtor c) (c_insmod_args c) (c_userarg1 c) (c_userarg2 c).

Record compiled_comp := CComp {
  cc_comp : Z;
  cc_pin : list Z;
  cc_changed : list bool;
  cc_tracking : list hal_data_u;
}.

Inductive comp_phase : Type := CREPORT_BEGIN | CREPORT_PIN (pin : Z) (value : vaddr) | CREPORT_END.

Section HalRcomp.
Context {H : Type} {PR : Process}.
Abbreviation HM := (M (hal_state H)).

(** [hal_data->epsilon], by index. *)
Variable epsilon : Z -> Z.

(** ** Binding and ownership *)
Definition halg_bind (comp_name : option string) : HM Z :=
  CHECK_HALDATA ≫= fun _ =>
  comp_name ← CHECK_STRLEN comp_name HAL_NAME_LEN;
  comp ← halpr_find_comp_by_name comp_name;
  match comp with
  | None => halfail EINVAL
  | Some o =>
      c ← get_comp o;
      if negb (c_type c =? TYPE_REMOTE) then halfail EINVAL
      else if negb (c_state c =? COMP_UNBOUND) then halfail EINVAL
      else set_body o (BComp (comp_set_bound c COMP_BOUND now (c_last_unbound c))) ≫= fun _ => mret 0
  end.

Definition halg_unbind (comp_name : option string) : HM Z :=
  CHECK_HALDATA ≫= fun _ =>
  comp_name ← CHECK_STRLEN comp_name HAL_NAME_LEN;
  comp ← halpr_find_comp_by_name comp_name;
  match comp with
  | None => halfail EINVAL
  | Some o =>
      c ← get_comp o;
      if negb (c_type c =? TYPE_REMOTE) then halfail EINVAL
      else if negb (c_state c =? COMP_BOUND) then halfail EINVAL
      else set_body o (BComp (comp_set_bound c COMP_UNBOUND (c_last_bound c) now)) ≫= fun _ => mret 0
  end.

Definition halg_acquire (comp_name : option string) (pid : Z) : HM Z :=
  CHECK_HALDATA ≫= fun _ =>
  comp_name ← CHECK_STRLEN comp_name HAL_NAME_LEN;
  comp ← halpr_find_comp_by_name comp_name;
  match comp with
  | None => halfail EINVAL
  | Some o =>
      c ← get_comp o;
      if negb (c_type c =? TYPE_REMOTE) then halfail EINVAL
      else if c_state c =? COMP_BOUND then halfail EINVAL
      else if negb (c_pid c =? 0) && negb (c_pid c =? rtapi_app_pid) then halfail EINVAL
      else
        set_body o (BComp (comp_set_pid c pid)) ≫= fun _ =>
        upd_hdr o hh_incr_refcnt ≫= fun _ =>
        ob ← get_obj o; mret (hh_id (o_hdr ob))
  end.

Definition halg_release (comp_name : option string) : HM Z :=
  CHECK_HALDATA ≫= fun _ =>
  comp_name ← CHECK_STRLEN comp_name HAL_NAME_LEN;
  comp ← halpr_find_comp_by_name comp_name;
  match comp with
  | None => halfail EINVAL
  | Some o =>
      c ← get_comp o;
      if negb (c_type c =? TYPE_REMOTE) then halfail EINVAL
      else if c_pid c =? 0 then halfail EINVAL
      else if negb (c_pid c =? getpid) then halfail EINVAL
      else
        set_body o (BComp (comp_set_pid c 0)) ≫= fun _ =>
        upd_hdr o hh_decr_refcnt ≫= fun _ => mret 0
  end.

(** ** Compiled components *)
Definition tracked (p : hal_pin) : bool := Z.land (p_flags p) PIN_DO_NOT_TRACK =? 0.

(** [user_arg1] counts the pins, [user_arg2] those tracked. *)
Definition count_pins_and_tracked_pins (o : Z) (n : Z * Z) : HM (Z * (Z * Z)) :=
  p ← get_pin o; mret (0, (fst n + 1, if tracked p then snd n + 1 else snd n)).

Definition fill_pin_array (o : Z) (l : list Z) : HM (Z * list Z) :=
  p ← get_pin o; mret (0, if tracked p then l ++ [o] else l).

(** Memory of the process is never short. *)
Definition halg_compile_comp (name : option string) : HM compiled_comp :=
  CHECK_HALDATA ≫= fun _ =>
  name ← CHECK_STRLEN name HAL_NAME_LEN;
  comp ← halpr_find_comp_by_name name;
  match comp with
  | None => halfail EINVAL
  | Some o =>
      ob ← get_obj o;
      let sel := sel_type_owner HAL_PIN (hh_id (o_hdr ob)) in
      sizes ← halg_foreach sel count_pins_and_tracked_pins (0, 0);
      let n := snd (snd sizes) in
      if n =? 0 then halfail EINVAL
      else
        pins ← halg_foreach sel fill_pin_array [];
        if negb (Z.of_nat (length (snd pins)) =? n) then crash     (* assert *)
        else mret (CComp o (snd pins) (replicate (Z.to_nat n) false) (replicate (Z.to_nat n) 0))
  end.

(** The loop over the pins: the count, or the error code at the first pin
    of another type; the values and changed bits behind it stay. *)
Fixpoint match_pins (l : list Z) (tracking : list hal_data_u) (nchanged : Z)
  : HM (Z * list hal_data_u * list bool) :=
  match l with
  | [] => mret (nchanged, tracking, [])
  | o :: l' =>
      p ← get_pin o;
      u ← load_value (p_data_ptr p);
      match tracking with
      | [] => crash
      | old :: tracking' =>
          match value_changed (p_type p) (epsilon (p_eps_index p)) old u with
          | None =>
              modify (set_halerrno (- EINVAL)) ≫= fun _ =>
              mret (- EINVAL, tracking, replicate (S (length l')) false)
          | Some (changed, v) =>
              r ← match_pins l' tracking' (if changed then nchanged + 1 else nchanged);
              let '(n, tr, ch) := r in mret (n, (if changed then v else old) :: tr, changed :: ch)
          end
      end
  end.

Definition hal_ccomp_match (cc : compiled_comp) : HM (Z * compiled_comp) :=
  r ← match_pins (cc_pin cc) (cc_tracking cc) 0;
  let '(n, tr, ch) := r in mret (n, CComp (cc_comp cc) (cc_pin cc) ch tr).

(** ** Reports: the callback stops the report with a negative result *)
Section Report.
Variable report_cb : comp_phase -> HM Z.

Fixpoint report_pins (report_all : bool) (l : list Z) (changed : list bool) : HM Z :=
  match l with
  | [] => report_cb CREPORT_END
  | o :: l' =>
      if report_all || default false (head changed) then
        p ← get_pin o;
        retval ← report_cb (CREPORT_PIN o (pin_value o p));
        if retval <? 0 then mret retval else report_pins report_all l' (tail changed)
      else report_pins report_all l' (tail changed)
  end.

Definition hal_ccomp_report (cc : compiled_comp) (report_all : bool) : HM Z :=
  retval ← report_cb CREPORT_BEGIN;
  if retval <? 0 then mret retval else report_pins report_all (cc_pin cc) (cc_changed cc).
End Report.

Definition hal_ccomp_args (cc : compiled_comp) : HM (Z * Z) :=
  c ← get_comp (cc_comp cc); mret (c_userarg1 c, c_userarg2 c).
End HalRcomp.
