(* ===== verification/HalRcompTheorems.v ===== *)
(** * Theorems about remote components

    A match of a compiled component settles: it counts the pins that it
    marks, and a second match without a change in between marks none.
    Ownership and binding: what each request may do in each state. *)
From S2P Require Import Prelude Double HalData HalMemory HalObject HalObjectFacts HalPin HalGroup HalRcomp HalBoot.

(** ** Change detection *)

(** A non-negative number, for which nothing is less than minus it. *)
Definition nonneg_float (b : Z) : Prop :=
  match float_of_bits b with
  | S754_finite sign _ _ | S754_infinity sign => sign = false
  | _ => True
  end.

Lemma float_same b eps : nonneg_float eps -> float_differs b b eps = false.
Proof.
  unfold nonneg_float, float_differs. set (x := float_of_bits b). set (e := float_of_bits eps). intros He.
  assert (dabs (dsub x x) = S754_zero false \/ dabs (dsub x x) = S754_nan) as [-> | ->].
  { destruct x as [[] | [] | | s m k]; simpl; auto. rewrite Z.sub_diag. simpl. auto. }
  - by destruct e as [| [] | | [] ? ?].
  - by destruct e as [[] | [] | | [] ? ?].
Qed.

Lemma value_changed_again t eps old u c v :
  nonneg_float eps -> value_changed t eps old u = Some (c, v) ->
  exists w, value_changed t eps (if c then v else old) u = Some (false, w).
Proof.
  intros He. unfold value_changed.
  destruct (t =? HAL_BIT).
  { intros [= <- <-].  destruct (negb (get_bit_value old =? get_bit_value u)) eqn:E; [| eexists; rewrite E; reflexivity].
    unfold get_bit_value, set_bit_value. rewrite get_put_low by lia. unfold get_low.
    rewrite Zmod_mod, Z.eqb_refl. eexists; reflexivity. }
  destruct (t =? HAL_FLOAT).
  { intros [= <- <-]. 
    destruct (float_differs (get_float_value u) (get_float_value old) eps) eqn:E; [| eexists; rewrite E; reflexivity].
    unfold get_float_value, set_float_value. rewrite get_put_low by lia. unfold get_low.
    rewrite Zmod_mod, float_same by done. eexists; reflexivity. }
  destruct (t =? HAL_S32).
  { intros [= <- <-].  destruct (negb (get_s32_value old =? get_s32_value u)) eqn:E; [| eexists; rewrite E; reflexivity].
    unfold get_s32_value, set_s32_value. rewrite get_put_low by lia. unfold get_low.
    unfold wraps at 1. rewrite (wraps_mod 32) by lia. fold (wraps 32 ((u mod 2 ^ 32) mod 2 ^ 32)).
    rewrite Zmod_mod. unfold wraps. rewrite Z.eqb_refl. eexists; reflexivity. }
  destruct (t =? HAL_U32); [| done].
  intros [= <- <-].  destruct (negb (get_u32_value old =? get_u32_value u)) eqn:E; [| eexists; rewrite E; reflexivity].
  unfold get_u32_value, set_u32_value. rewrite get_put_low by lia. unfold get_low.
  rewrite Zmod_mod, Z.eqb_refl. eexists; reflexivity.
Qed.

Section RcompTheorems.
Context {H : Type} {PR : Process}.
Variable epsilon : Z -> Z.
Hypothesis Heps : forall i, nonneg_float (epsilon i).
Implicit Types s : hal_state H.

Definition count_true (l : list bool) : Z := Z.of_nat (length (filter (fun b => b = true) l)).

Lemma get_pin_state o s r s' : get_pin o s = (r, s') -> s' = s.
Proof.
  unfold get_pin, mbind, M_bind, get_obj. destruct (hs_objs s !! o) as [ob |]; [| by intros [= _ <-]].
  by destruct (o_body ob); intros [= _ <-].
Qed.

Lemma load_value_state a s r s' : load_value a s = (r, s') -> s' = s.
Proof.
  unfold load_value, get_pin, get_sig, get_param, mbind, M_bind, get_obj.
  destruct a; try (by intros [= _ <-]); destruct (hs_objs s !! _) as [ob |]; try (by intros [= _ <-]);
    by destruct (o_body ob); intros [= _ <-].
Qed.

(** One pass over the pins that ends well: the second pass over the new
    values finds nothing. *)
Lemma match_pins_settled l tracking k s n tr ch s' :
  match_pins epsilon l tracking k s = (Ok (n, tr, ch), s') -> 0 <= n -> 0 <= k ->
  s' = s /\ n = k + count_true ch /\ length ch = length l /\
  forall k', match_pins epsilon l tr k' s = (Ok (k', tr, replicate (length l) false), s).
Proof.
  revert tracking k n tr ch s'. induction l as [| o l IH]; intros tracking k n tr ch s' Hm Hn Hk.
  { simpl in Hm. unfold mret, M_ret in Hm. injection Hm as <- <- <- <-. repeat split; [unfold count_true; simpl; lia | done..]. }
  cbn [match_pins] in *. unfold mbind at 1, M_bind at 1 in Hm.
  destruct (get_pin o s) as [[p | |] s1] eqn:Ep; try done. pose proof (get_pin_state _ _ _ _ Ep) as ->.
  unfold mbind at 1, M_bind at 1 in Hm.
  destruct (load_value (p_data_ptr p) s) as [[u | |] s1] eqn:Eu; try done. pose proof (load_value_state _ _ _ _ Eu) as ->.
  destruct tracking as [| old tracking]; [done |].
  destruct (value_changed (p_type p) (epsilon (p_eps_index p)) old u) as [[c v] |] eqn:Ec.
  2:{ unfold mbind, M_bind, modify, mret, M_ret in Hm. injection Hm as <- _ _ _. unfold EINVAL in Hn. lia. }
  unfold mbind at 1, M_bind at 1 in Hm.
  destruct (match_pins epsilon l tracking (if c then k + 1 else k) s) as [[[[n1 tr1] ch1] | |] s1] eqn:Er; try done.
  unfold mret, M_ret in Hm. injection Hm as <- <- <- <-.
  destruct (IH _ _ _ _ _ _ Er Hn ltac:(destruct c; lia)) as (-> & -> & Hlen & Hagain).
  split; [done |]. split.
  { unfold count_true. rewrite filter_cons. destruct c; [rewrite decide_True by done | rewrite decide_False by done]; simpl length; lia. }
  split; [simpl; by rewrite Hlen |]. intros k'.
  destruct (value_changed_again _ _ _ _ _ _ (Heps (p_eps_index p)) Ec) as [w Hw].
  unfold mbind at 1, M_bind at 1. rewrite Ep. unfold mbind at 1, M_bind at 1. rewrite Eu, Hw.
  unfold mbind, M_bind. rewrite Hagain. done.
Qed.

(** hal_ccomp_match counts the pins it marks as changed and has no other
    effect; a second match with the pins unchanged marks none. *)
Theorem ccomp_match_settles cc s n cc' s' :
  hal_ccomp_match epsilon cc s = (Ok (n, cc'), s') -> 0 <= n ->
  s' = s /\ n = count_true (cc_changed cc') /\ cc_pin cc' = cc_pin cc /\
  exists cc'', hal_ccomp_match epsilon cc' s' = (Ok (0, cc''), s') /\ cc_tracking cc'' = cc_tracking cc' /\
    cc_changed cc'' = replicate (length (cc_pin cc)) false.
Proof.
  intros Hm Hn. unfold hal_ccomp_match, mbind, M_bind in Hm.
  destruct (match_pins epsilon (cc_pin cc) (cc_tracking cc) 0 s) as [[[[n1 tr1] ch1] | |] s1] eqn:Er; try done.
  unfold mret, M_ret in Hm. injection Hm as <- <- <-.
  destruct (match_pins_settled _ _ _ _ _ _ _ _ Er Hn ltac:(lia)) as (-> & -> & _ & Hagain).
  split; [done |]. split; [simpl; lia |]. split; [done |].
  exists (CComp (cc_comp cc) (cc_pin cc) (replicate (length (cc_pin cc)) false) tr1).
  split; [| done]. unfold hal_ccomp_match, mbind, M_bind. simpl. by rewrite Hagain.
Qed.
End RcompTheorems.

(** ** Witness: a bit pin that is 1, a float pin that is 2.0 *)
#[export] Instance process0 : Process := { now := 0; getpid := 1; rtapi_app_pid := 2 }.

Definition w_pin (type value o : Z) : hal_obj :=
  HalObj (HalHdr 3 1 None 0 false true false false) (BPin (HalPin None (ADummy o) 0 value type HAL_OUT 0 0)).

Definition w_tracked : hal_state bump :=
  set_objs (<[512 := w_pin HAL_BIT 1 512]> (<[768 := w_pin HAL_FLOAT 0x4000000000000000 768]> (hs_objs boot))) boot.

Definition w_cc : compiled_comp := CComp 64 [512; 768] [false; false] [0; 0].

Lemma ccomp_match_settles_witness : exists cc' cc'',
  hal_ccomp_match (fun _ => 0) w_cc w_tracked = (Ok (2, cc'), w_tracked) /\
  hal_ccomp_match (fun _ => 0) cc' w_tracked = (Ok (0, cc''), w_tracked).
Proof.
  destruct (hal_ccomp_match (fun _ => 0) w_cc w_tracked) as [r s'] eqn:E.
  assert (exists cc', r = Ok (2, cc')) as [cc' ->].
  { change r with (fst (r, s')). rewrite <- E. vm_compute. eexists. reflexivity. }
  destruct (ccomp_match_settles (fun _ => 0) (fun _ => I) w_cc w_tracked 2 cc' s' E ltac:(lia)) as (-> & _ & _ & cc'' & H & _).
  exists cc', cc''. split; [reflexivity | exact H].
Defined.
