(* ===== verification/HalFunctFacts.v ===== *)
(** * Functs and threads: facts

    The positions of [hal_add_funct_to_thread], real-time memory, and the
    invariant [funct_inv] of function entries: every entry is on one list
    only, the entries of a thread call existing functs, and the users of a
    funct are the entries that call it. *)
From S2P Require Import Prelude RtapiTask HalData HalMemory HalObject HalObjectFacts HalPin HalLinks HalSweep HalFunct HalThread.

(** ** Positions *)
Lemma walk_forward_spec fuel len position i :
  0 <= i <= len -> i < position -> len - i + 1 <= Z.of_nat fuel ->
  walk_forward fuel len position i i = if position - 1 <=? len then Some (position - 1) else None.
Proof.
  revert i. induction fuel as [| fuel IH]; intros i Hi Hp Hf; [lia |]. cbn [walk_forward].
  unfold cursor_next. destruct (i + 1 <? position) eqn:E; zb.
  - destruct (i =? len) eqn:E1; zb.
    + subst. simpl. destruct (position - 1 <=? len) eqn:E2; zb; [lia | done].
    + destruct (i + 1 =? 0) eqn:E2; zb; [lia |]. apply IH; lia.
  - assert (position - 1 = i) as -> by lia.
    destruct (i <=? len) eqn:E1; zb; [done | lia].
Qed.

(** After [k] steps back. *)
Definition back (len k : Z) : Z := if k =? 0 then 0 else len + 1 - k.

Lemma walk_backward_spec fuel len position k :
  0 <= k <= len -> position <= - k - 1 -> len - k + 1 <= Z.of_nat fuel ->
  walk_backward fuel len position (- k) (back len k)
  = if - position - 1 <=? len then Some (back len (- position - 1)) else None.
Proof.
  revert k. induction fuel as [| fuel IH]; intros k Hk Hp Hf; [lia |]. cbn [walk_backward].
  destruct (position <? - k - 1) eqn:E; zb.
  - assert (cursor_prev len (back len k) = if k =? len then 0 else back len (k + 1)) as ->.
    { unfold cursor_prev, back. repeat case_match; zb; lia. }
    destruct (k =? len) eqn:E1; zb.
    + subst. simpl. destruct (- position - 1 <=? len) eqn:E2; zb; [lia | done].
    + assert ((back len (k + 1) =? 0) = false) as ->.
      { apply Z.eqb_neq. unfold back. destruct (k + 1 =? 0) eqn:E2; zb; lia. }
      replace (- k - 1) with (- (k + 1)) by lia. apply IH; lia.
  - assert (- position - 1 = k) as -> by lia. destruct (k <=? len) eqn:E1; zb; [done | lia].
Qed.

(** Position [p > 0] is behind [p - 1] entries, position [-p] before the last
    [p - 1] entries; the walk always ends. *)
Lemma insertion_point_spec len position :
  0 <= len -> position <> 0 ->
  insertion_point len position =
    let i := if 0 <? position then position - 1 else len + 1 + position in
    if (0 <=? i) && (i <=? len) then Some i else None.
Proof.
  intros Hlen Hp. unfold insertion_point. destruct (0 <? position) eqn:E; zb.
  - rewrite walk_forward_spec by lia. destruct (position - 1 <=? len) eqn:E1; zb;
      destruct (0 <=? position - 1) eqn:E2; zb; try lia; done.
  - change 0 with (- 0) at 1. change 0 with (back len 0) at 2.
    rewrite walk_backward_spec by lia.
    destruct (- position - 1 <=? len) eqn:E1; simpl; zb.
    + assert (cursor_prev len (back len (- position - 1)) = len + 1 + position) as ->.
      { unfold cursor_prev, back. repeat case_match; zb; lia. }
      destruct (0 <=? len + 1 + position) eqn:E2, (len + 1 + position <=? len) eqn:E3; zb; try lia; done.
    + destruct (0 <=? len + 1 + position) eqn:E2; zb; [lia | done].
Qed.

(** ** Real-time memory *)
(** The alignment of a block of [size] bytes, as a power of two. *)
Definition rt_align (size : Z) : Z :=
  if 8 <=? size then 3 else if 4 <=? size then 2 else if size =? 2 then 1 else 0.

Section Rt.
Context {H : Type} {HA : Allocator H} {PF : Platform}.
Implicit Types s : hal_state H.

Definition rt_block s size : Z :=
  let t := hs_shmem_top s - size in t - t mod 2 ^ rt_align size.

Definition rt_range s : Prop := 0 < hs_shmem_bot s /\ hs_shmem_bot s <= hs_shmem_top s < 2 ^ 31.

Lemma shmalloc_rt_run s size :
  hs_init s = true -> 0 <= hs_shmem_bot s <= hs_shmem_top s /\ hs_shmem_top s < 2 ^ 31 -> 0 <= size < 2 ^ 62 ->
  let p := rt_block s size in
  shmalloc_rt size s =
    if p <? hs_shmem_bot s then (Err (- ENOMEM), set_halerrno (- ENOMEM) s)
    else (Ok p, set_shmem_top p (set_rt_alignment_loss
            (u64 (hs_rt_alignment_loss s + u64 (hs_shmem_top s - p - size))) s)).
Proof.
  intros Hi [Hb Ht] Hs p. unfold shmalloc_rt, mbind, M_bind, hal_data. rewrite Hi.
  rewrite (wraps_small 64) by (cbn; lia).
  assert ((if 8 <=? size then Z.land (hs_shmem_top s - size) (-8)
           else if 4 <=? size then Z.land (hs_shmem_top s - size) (-4)
           else if size =? 2 then Z.land (hs_shmem_top s - size) (-2)
           else hs_shmem_top s - size) = p) as ->.
  { unfold p, rt_block, rt_align. change (-8) with (- 2 ^ 3). change (-4) with (- 2 ^ 2).
    change (-2) with (- 2 ^ 1). repeat case_match; rewrite ?land_neg_pow by lia; try done.
    rewrite Z.mod_1_r. lia. }
  destruct (p <? hs_shmem_bot s) eqn:E; [done |]. zb. simpl.
  assert (p <= hs_shmem_top s).
  { unfold p, rt_block. pose proof (Z.mod_pos_bound (hs_shmem_top s - size) (2 ^ rt_align size)
      ltac:(unfold rt_align; repeat case_match; lia)). lia. }
  unfold modify. rewrite (wraps_small 32) by (cbn; lia). done.
Qed.

Lemma rt_block_bounds s size : 0 <= size ->
  rt_block s size + size <= hs_shmem_top s < rt_block s size + size + 2 ^ rt_align size /\
  (2 ^ rt_align size | rt_block s size).
Proof.
  intros Hs. unfold rt_block.
  assert (0 < 2 ^ rt_align size) as Hpos by (unfold rt_align; repeat case_match; lia).
  pose proof (Z.mod_pos_bound (hs_shmem_top s - size) (2 ^ rt_align size) Hpos). split; [lia |].
  exists ((hs_shmem_top s - size) / 2 ^ rt_align size).
  pose proof (Z.div_mod (hs_shmem_top s - size) (2 ^ rt_align size) ltac:(lia)). lia.
Qed.
End Rt.

(** ** Entries *)
Section Entries.
Context {H : Type} {HA : Allocator H} {PF : Platform}.
Implicit Types s : hal_state H.

Definition thread_entries (m : gmap Z hal_obj) (o : Z) : list Z :=
  match m !! o with Some (HalObj _ (BThread t)) => t_funct_list t | _ => [] end.

Definition all_entries (m : gmap Z hal_obj) (l : list Z) : list Z := l ≫= thread_entries m.

Definition calls (fm : gmap Z hal_funct_entry) (fo e : Z) : bool :=
  match fm !! e with Some fe => fe_funct_ptr fe =? fo | None => false end.

(** The number of entries of the list that call [fo]. *)
Definition users (fm : gmap Z hal_funct_entry) (fo : Z) (l : list Z) : Z :=
  Z.of_nat (length (List.filter (calls fm fo) l)).

Lemma users_perm fm fo l l' : l ≡ₚ l' -> users fm fo l = users fm fo l'.
Proof.
  unfold users. intros Hp. f_equal. induction Hp; simpl; try done; repeat case_match; simpl; congruence.
Qed.

Lemma users_cons fm fo e l : users fm fo (e :: l) = (if calls fm fo e then 1 else 0) + users fm fo l.
Proof. unfold users. simpl. case_match; simpl; lia. Qed.

Lemma users_insert fm fo e fe l : e ∉ l -> users (<[e := fe]> fm) fo l = users fm fo l.
Proof.
  intros He. unfold users. f_equal. f_equal. apply filter_ext_in. intros x Hx%list_elem_of_In.
  unfold calls. rewrite lookup_insert_ne; [done |]. by intros ->.
Qed.

(** Listing the entries of one thread first. *)
Lemma all_entries_split m l to h t :
  NoDup l -> to ∈ l -> m !! to = Some (HalObj h (BThread t)) ->
  exists rest, all_entries m l ≡ₚ t_funct_list t ++ rest /\
    forall h' t', all_entries (<[to := HalObj h' (BThread t')]> m) l ≡ₚ t_funct_list t' ++ rest.
Proof.
  intros Hn Hto Hm. apply list_elem_of_split in Hto as (l1 & l2 & ->).
  apply NoDup_app in Hn as (_ & Hn1 & Hn2). apply NoDup_cons in Hn2 as [Hn2 _].
  assert (forall ob k, to ∉ k -> all_entries (<[to := ob]> m) k = all_entries m k) as Hsame.
  { intros ob k Hk. unfold all_entries. induction k as [| x k IH]; [done |].
    apply not_elem_of_cons in Hk as [Hx Hk]. cbn. rewrite IH by done. f_equal.
    unfold thread_entries. by rewrite lookup_insert_ne. }
  exists (all_entries m l1 ++ all_entries m l2). unfold all_entries. split.
  - rewrite bind_app, bind_cons. unfold thread_entries at 2. rewrite Hm.
    apply Permutation_app_swap_app.
  - intros h' t'. rewrite bind_app, bind_cons. unfold thread_entries at 2.
    rewrite lookup_insert_eq.
    fold (all_entries (<[to := HalObj h' (BThread t')]> m) l1).
    fold (all_entries (<[to := HalObj h' (BThread t')]> m) l2).
    rewrite (Hsame _ l1), (Hsame _ l2); [| done |].
    + apply Permutation_app_swap_app.
    + intros Hx. apply (Hn1 to Hx). left.
Qed.

(** Other descriptors do not matter. *)
Lemma all_entries_insert m l o h h' b b' :
  m !! o = Some (HalObj h b) ->
  (forall t, b <> BThread t) -> (forall t, b' <> BThread t) ->
  all_entries (<[o := HalObj h' b']> m) l = all_entries m l.
Proof.
  intros Ho Hb Hb'. unfold all_entries. induction l as [| x l IH]; [done |]. cbn. rewrite IH. f_equal.
  unfold thread_entries. destruct (decide (x = o)) as [-> |]; [| by rewrite lookup_insert_ne].
  rewrite lookup_insert_eq, Ho. destruct b, b'; try done; by (destruct (Hb _ eq_refl) || destruct (Hb' _ eq_refl)).
Qed.

Record funct_inv s : Prop := FunctInv {
  fi_init : hs_init s = true;
  fi_listed : listed s;
  fi_objs : NoDup (hs_halobjects s);
  fi_nodup : NoDup (hs_funct_entry_free s ++ all_entries (hs_objs s) (hs_halobjects s));
  fi_free : forall e, e ∈ hs_funct_entry_free s -> is_Some (hs_fentries s !! e);
  fi_calls : forall e, e ∈ all_entries (hs_objs s) (hs_halobjects s) ->
    exists fe h f, hs_fentries s !! e = Some fe /\ 0 < fe_funct_ptr fe /\
      hs_objs s !! fe_funct_ptr fe = Some (HalObj h (BFunct f));
  fi_users : forall fo h f, hs_objs s !! fo = Some (HalObj h (BFunct f)) ->
    f_users f = users (hs_fentries s) fo (all_entries (hs_objs s) (hs_halobjects s));
  fi_functs : forall fo h f, hs_objs s !! fo = Some (HalObj h (BFunct f)) -> 0 < fo;
  fi_dead : forall o h b, hs_objs s !! o = Some (HalObj h b) -> hh_valid h = false ->
    match b with BThread t => t_funct_list t = [] | BFunct f => f_users f = 0 | _ => True end;
  fi_range : rt_range s;
  fi_top : forall e, is_Some (hs_fentries s !! e) -> hs_shmem_top s <= e < 2 ^ 31;
}.

(** The number of entries stays below the range of an [int]. *)
Lemma users_bound s fo l :
  funct_inv s -> NoDup l -> (forall e, e ∈ l -> is_Some (hs_fentries s !! e)) ->
  0 <= users (hs_fentries s) fo l < 2 ^ 31.
Proof.
  intros Hi Hn Hl. split; [unfold users; lia |].
  destruct (length_offsets l (2 ^ 31)) as [Hb | ->]; [done | | | done].
  - intros e He%Hl. pose proof (fi_top _ Hi e He). destruct (fi_range _ Hi) as [Hb Ht]. lia.
  - unfold users. pose proof (List.filter_length_le (calls (hs_fentries s) fo) l). lia.
Qed.

Lemma fi_all_known s e :
  funct_inv s -> e ∈ all_entries (hs_objs s) (hs_halobjects s) -> is_Some (hs_fentries s !! e).
Proof. intros Hi (fe & _ & _ & ? & _)%(fi_calls _ Hi). eauto. Qed.

(** Replacing the entry list of a thread, the free list, one entry and the
    users of one functs at once: the shape of every operation below. *)
Definition entry_state s (to : Z) th t' (fo : Z) fh f' (e : Z) fe free : hal_state H :=
  set_funct_entry_free free (set_fentries (<[e := fe]> (hs_fentries s))
    (set_objs (<[fo := HalObj fh (BFunct f')]> (<[to := HalObj th (BThread t')]> (hs_objs s))) s)).

Lemma funct_inv_update s to th t t' fo fh f f' e fe free rest :
  funct_inv s -> (to ∈ hs_halobjects s) ->
  hs_objs s !! to = Some (HalObj th (BThread t)) ->
  hs_objs s !! fo = Some (HalObj fh (BFunct f)) ->
  hh_valid th = true -> hh_valid fh = true ->
  all_entries (hs_objs s) (hs_halobjects s) ≡ₚ t_funct_list t ++ rest ->
  (forall h' t', all_entries (<[to := HalObj h' (BThread t')]> (hs_objs s)) (hs_halobjects s)
                 ≡ₚ t_funct_list t' ++ rest) ->
  NoDup (free ++ t_funct_list t' ++ rest) ->
  (forall x, x ∈ free \/ x ∈ t_funct_list t' -> x = e \/ is_Some (hs_fentries s !! x)) ->
  (e ∈ t_funct_list t' -> fe_funct_ptr fe = fo) -> (e ∉ rest) ->
  (forall x, x ∈ t_funct_list t' -> x <> e -> x ∈ t_funct_list t) ->
  (forall fo', users (<[e := fe]> (hs_fentries s)) fo' (t_funct_list t')
     = users (hs_fentries s) fo' (t_funct_list t) + (if decide (fo' = fo) then f_users f' - f_users f else 0)) ->
  hs_shmem_top s <= e < 2 ^ 31 ->
  funct_inv (entry_state s to th t' fo fh f' e fe free).
Proof.
  intros [Hi Hlist Hno Hn Hfr Hc Hu Hf Hd Hr Htop] Hto Ht Hfo Hvt Hvf Hsp Hsp' Hn' Hk Hptr Her Hsub Hus He.
  assert (fo <> to) as Hne by (intros ->; congruence).
  set (m' := <[fo := HalObj fh (BFunct f')]> (<[to := HalObj th (BThread t')]> (hs_objs s))).
  assert (all_entries m' (hs_halobjects s) ≡ₚ t_funct_list t' ++ rest) as Hall.
  { unfold m'. rewrite (all_entries_insert _ _ fo fh fh (BFunct f) (BFunct f')); [apply Hsp' | | done | done].
    by rewrite lookup_insert_ne. }
  assert (forall o h b, hs_objs s !! o = Some (HalObj h (BFunct b)) -> exists h' b', m' !! o = Some (HalObj h' (BFunct b'))) as Hfwd.
  { intros o h b Ho. unfold m'. destruct (decide (o = fo)) as [-> |]; [rewrite lookup_insert_eq; eauto |].
    rewrite lookup_insert_ne by done. destruct (decide (o = to)) as [-> |]; [congruence |].
    rewrite lookup_insert_ne by done. eauto. }
  assert (forall o h b, m' !! o = Some (HalObj h (BFunct b)) ->
    (o = fo /\ b = f') \/ (o <> fo /\ hs_objs s !! o = Some (HalObj h (BFunct b)))) as Hback.
  { intros o h b Ho. unfold m' in Ho. destruct (decide (o = fo)) as [-> |].
    - rewrite lookup_insert_eq in Ho. left. by simplify_eq.
    - rewrite lookup_insert_ne in Ho by done. destruct (decide (o = to)) as [-> |].
      + by rewrite lookup_insert_eq in Ho.
      + rewrite lookup_insert_ne in Ho by done. by right. }
  assert (forall fo', users (<[e := fe]> (hs_fentries s)) fo' (all_entries m' (hs_halobjects s))
    = users (hs_fentries s) fo' (all_entries (hs_objs s) (hs_halobjects s))
      + (if decide (fo' = fo) then f_users f' - f_users f else 0)) as Husers.
  { intros fo'. rewrite (users_perm _ _ _ _ Hall), (users_perm _ _ _ _ Hsp).
    assert (forall fm a b, users fm fo' (a ++ b) = users fm fo' a + users fm fo' b) as Happ.
    { intros. unfold users. rewrite List.filter_app, length_app. lia. }
    rewrite !Happ, Hus, (users_insert _ _ _ _ rest) by done. lia. }
  split; unfold entry_state; simpl; fold m'.
  - done.
  - intros o Ho. simpl. fold m'. unfold m'. destruct (decide (o = fo)) as [-> |];
      [rewrite lookup_insert_eq; eauto |]. rewrite lookup_insert_ne by done.
    destruct (decide (o = to)) as [-> |]; [rewrite lookup_insert_eq; eauto |].
    rewrite lookup_insert_ne by done. by apply Hlist.
  - done.
  - rewrite Hall. done.
  - intros x Hx. destruct (decide (x = e)) as [-> |]; [rewrite lookup_insert_eq; eauto |].
    rewrite lookup_insert_ne by done. destruct (Hk x (or_introl Hx)); done.
  - intros x Hx. rewrite Hall in Hx. destruct (decide (x = e)) as [-> |].
    + apply elem_of_app in Hx as [Hx | Hx]; [| done].
      destruct (Hfwd _ _ _ Hfo) as (h1 & b1 & Hfo1).
      exists fe, h1, b1. rewrite lookup_insert_eq, (Hptr Hx). split; [done |]. split; [by eapply Hf |]. done.
    + assert (x ∈ all_entries (hs_objs s) (hs_halobjects s)) as Hx0.
      { rewrite Hsp. apply elem_of_app in Hx as [Hx | Hx]; apply elem_of_app; eauto. }
      destruct (Hc _ Hx0) as (fe0 & h0 & f0 & Hfe0 & Hpos & Hob0).
      destruct (Hfwd _ _ _ Hob0) as (h1 & f1 & Hob1).
      exists fe0, h1, f1. by rewrite lookup_insert_ne.
  - intros o h b Ho. rewrite Husers. apply Hback in Ho as [[-> ->] | [Hno' Ho]].
    + rewrite decide_True by done. rewrite <- (Hu _ _ _ Hfo). lia.
    + rewrite decide_False by done. rewrite (Hu _ _ _ Ho). lia.
  - intros o h b Ho. apply Hback in Ho as [[-> ->] | [_ Ho]]; eauto.
  - intros o h b Ho Hv. unfold m' in Ho. destruct (decide (o = fo)) as [-> |].
    { rewrite lookup_insert_eq in Ho. congruence. }
    rewrite lookup_insert_ne in Ho by done. destruct (decide (o = to)) as [-> |].
    { rewrite lookup_insert_eq in Ho. congruence. }
    rewrite lookup_insert_ne in Ho by done. by apply Hd in Ho.
  - done.
  - intros x Hx. destruct (decide (x = e)) as [-> |]; [done |].
    rewrite lookup_insert_ne in Hx by done. eauto.
Qed.

(** ** Primitives and lookups *)
Lemma wp_get_thread o (Q : hal_thread -> hal_state H -> Prop) E s h x :
  hs_objs s !! o = Some (HalObj h (BThread x)) -> Q x s -> wp (get_thread o) Q E s.
Proof. intros Ho HQ. apply wp_bind. eapply wp_get_obj; [done |]. by apply wp_ret. Qed.

Lemma wp_get_funct o (Q : hal_funct -> hal_state H -> Prop) E s h x :
  hs_objs s !! o = Some (HalObj h (BFunct x)) -> Q x s -> wp (get_funct o) Q E s.
Proof. intros Ho HQ. apply wp_bind. eapply wp_get_obj; [done |]. by apply wp_ret. Qed.

Lemma wp_get_fentry e fe (Q : hal_funct_entry -> hal_state H -> Prop) E s :
  hs_fentries s !! e = Some fe -> Q fe s -> wp (get_fentry e) Q E s.
Proof. intros He HQ. unfold wp, get_fentry. by rewrite He. Qed.

Lemma wp_check_str name (Q : string -> hal_state H -> Prop) E s :
  Q name s -> wp (CHECK_STR (Some name)) Q E s.
Proof. done. Qed.

Lemma funct_inv_errno s n : funct_inv s -> funct_inv (set_halerrno n s).
Proof. intros []. by split. Qed.

(** The funct of that name, or of that name and ".funct". *)
Definition funct_lookup s (n : string) : option Z :=
  match find_obj (sel_ok (sel_type_name HAL_FUNCT n)) s with
  | Some f => Some f
  | None => find_obj (sel_ok (sel_type_name HAL_FUNCT
              (snd (vsnprintf HAL_NAME_LEN (n ++ ".funct"))))) s
  end.

Definition thread_lookup s (n : string) : option Z :=
  find_obj (sel_ok (sel_type_name HAL_THREAD n)) s.

Lemma wp_find_funct n (Q : option Z -> hal_state H -> Prop) E s :
  hs_init s = true -> listed s -> Q (funct_lookup s n) s -> wp (find_funct n) Q E s.
Proof.
  intros Hi Hl HQ. unfold funct_lookup in HQ. apply wp_bind, wp_find_by_name; [done | done |].
  destruct (find_obj _ s); [by apply wp_ret |]. by apply wp_find_by_name.
Qed.

Lemma found_funct s n fo : funct_lookup s n = Some fo ->
  fo ∈ hs_halobjects s /\ exists h f, hs_objs s !! fo = Some (HalObj h (BFunct f)) /\ hh_valid h = true.
Proof.
  intros Hf. assert (exists n', find_obj (sel_ok (sel_type_name HAL_FUNCT n')) s = Some fo) as [n' Hn'].
  { unfold funct_lookup in Hf. destruct (find_obj _ s) eqn:E in Hf; simplify_eq; eauto. }
  apply find_obj_some in Hn' as (Hin & [h b] & Ho & Hsel). split; [done |].
  apply sel_ok_type_name in Hsel as (Hv & Ht & _); [| done].
  apply body_funct in Ht as [f Hb]. simpl in *. subst. eauto.
Qed.

Lemma found_thread s n to : thread_lookup s n = Some to ->
  to ∈ hs_halobjects s /\ exists h t, hs_objs s !! to = Some (HalObj h (BThread t)) /\ hh_valid h = true.
Proof.
  intros Hn'. apply find_obj_some in Hn' as (Hin & [h b] & Ho & Hsel). split; [done |].
  apply sel_ok_type_name in Hsel as (Hv & Ht & _); [| done].
  apply body_thread in Ht as [f Hb]. simpl in *. subst. eauto.
Qed.

(** ** A new entry *)

(** Without a free entry nor memory, the allocation writes through NULL. *)
Definition entry_room s : Prop :=
  hs_funct_entry_free s <> [] \/ hs_shmem_bot s <= rt_block s sizeof_funct_entry.

Definition rt_taken s s1 : Prop :=
  s1 = s \/ exists p l, s1 = set_shmem_top p (set_rt_alignment_loss l s).

Lemma set_free_same s l : hs_funct_entry_free s = l -> set_funct_entry_free l s = s.
Proof. destruct s. simpl. by intros ->. Qed.

Lemma wp_alloc_entry s (Q : Z -> hal_state H -> Prop) E :
  funct_inv s -> 0 < sizeof_funct_entry < 2 ^ 62 -> entry_room s ->
  (forall e fe s1 free, rt_taken s s1 -> funct_inv s1 -> fe_funct_ptr fe = 0 ->
     hs_shmem_top s1 <= e < 2 ^ 31 -> free ⊆ hs_funct_entry_free s ->
     NoDup (e :: free ++ all_entries (hs_objs s) (hs_halobjects s)) ->
     Q e (set_funct_entry_free free (set_fentries (<[e := fe]> (hs_fentries s1)) s1))) ->
  wp alloc_funct_entry_struct Q E s.
Proof.
  intros Hi Hsz Hroom HQ. apply wp_bind, wp_hal_data; [apply Hi |].
  destruct (hs_funct_entry_free s) as [| e rest] eqn:Ef.
  - destruct Hroom as [Hf | Hroom]; [congruence |].
    set (p := rt_block s sizeof_funct_entry) in *.
    destruct (rt_block_bounds s sizeof_funct_entry) as [Hb _]; [lia |]. fold p in Hb.
    pose proof (fi_range _ Hi) as [Hbot Htop].
    apply wp_bind, wp_attempt. unfold wp at 1. rewrite shmalloc_rt_run; [| apply Hi | pose proof (fi_range _ Hi) as [? ?]; lia | lia].
    fold p. rewrite (proj2 (Z.ltb_ge _ _)) by lia.
    set (s1 := set_shmem_top p _). apply wp_bind, wp_modify, wp_ret.
    assert (funct_inv s1) as Hi1.
    { destruct Hi. split; try done.
      - split; simpl; lia.
      - intros e He. simpl. specialize (fi_top0 e He). lia. }
    match goal with |- Q _ ?x => rewrite <- (set_free_same x []) by exact Ef end. apply (HQ p (HalFunctEntry 0 0 0 0 0 0) s1 []); try done.
    + right. eauto.
    + simpl. lia.
    + pose proof (fi_nodup _ Hi) as Hn. rewrite Ef in Hn. constructor; [| done].
      intros Hx. apply fi_all_known in Hx; [| done]. apply (fi_top _ Hi) in Hx. lia.
  - apply wp_bind, wp_modify.
    destruct (fi_free _ Hi e) as [fe Hfe]; [rewrite Ef; left |].
    apply wp_bind. eapply wp_get_fentry; [exact Hfe |]. apply wp_bind, wp_modify, wp_ret. simpl.
    apply (HQ e (fe_clear fe) s rest); try done.
    + by left.
    + apply (fi_top _ Hi). eauto.
    + set_solver.
    + pose proof (fi_nodup _ Hi) as Hn. by rewrite Ef in Hn.
Qed.

Lemma insert_after_perm {A} i (x : A) l : insert_after i x l ≡ₚ x :: l.
Proof.
  unfold insert_after. rewrite <- Permutation_middle. by rewrite take_drop.
Qed.

(** The entry after which the funct goes on the thread's list, if it may. *)
Definition addable (f : hal_funct) (t : hal_thread) (position : Z) : option Z :=
  if ((f_type f =? FS_LEGACY_THREADFUNC) || (f_type f =? FS_XTHREADFUNC))
     && negb ((0 <? f_users f) && (f_reentrant f =? 0))
     && negb (negb (f_uses_fp f =? 0) && (t_uses_fp t =? 0))
  then insertion_point (Z.of_nat (length (t_funct_list t))) position else None.

Definition new_entry (fo : Z) (f : hal_funct) (rb wb : Z) : hal_funct_entry :=
  HalFunctEntry (u8 rb) (u8 wb) (u8 (f_type f)) (f_arg f) (f_funct f) fo.

(** Adding an entry to a thread's list keeps the invariant. *)
Lemma funct_inv_add s to th t fo fh f e free i rb wb :
  funct_inv s -> to ∈ hs_halobjects s ->
  hs_objs s !! to = Some (HalObj th (BThread t)) -> hh_valid th = true ->
  hs_objs s !! fo = Some (HalObj fh (BFunct f)) -> hh_valid fh = true ->
  free ⊆ hs_funct_entry_free s -> hs_shmem_top s <= e < 2 ^ 31 ->
  NoDup (e :: free ++ all_entries (hs_objs s) (hs_halobjects s)) ->
  s32 (f_users f + 1) = f_users f + 1 /\
  funct_inv (entry_state s to th (thread_set_funct_list t (insert_after i e (t_funct_list t)))
    fo fh (funct_set_users f (f_users f + 1)) e (new_entry fo f rb wb) free).
Proof.
  intros Hi Hto Ht Hvt Hf Hvf Hfree He Hn. pose proof (fi_users _ Hi _ _ _ Hf) as Hu.
  destruct (all_entries_split (hs_objs s) (hs_halobjects s) to th t) as (rest & Hsp & Hsp'); [apply Hi | done | done |].
  pose proof Hn as [Hne Hn0]%NoDup_cons. split.
  - unfold s32. apply wraps_small; [lia |]. cbn.
    pose proof (users_bound s fo (all_entries (hs_objs s) (hs_halobjects s)) Hi) as Hb.
    assert (NoDup (e :: List.filter (calls (hs_fentries s) fo) (all_entries (hs_objs s) (hs_halobjects s)))) as Hnf.
    { apply NoDup_app in Hn0 as (_ & _ & Hn0). constructor; [| by apply NoDup_ListNoDup, List.NoDup_filter, NoDup_ListNoDup].
      intros Hx. apply list_elem_of_In, filter_In in Hx as [Hx _]. apply Hne, elem_of_app. right.
      by apply list_elem_of_In. }
    destruct (length_offsets _ (2 ^ 31) Hnf) as [Hlt | ?]; [| | done].
    + intros x [-> | Hx]%elem_of_cons; [destruct (fi_range _ Hi); lia |].
      apply list_elem_of_In, filter_In in Hx as [Hx _]. apply list_elem_of_In in Hx.
      apply fi_all_known in Hx; [| done]. apply (fi_top _ Hi) in Hx. destruct (fi_range _ Hi). lia.
    + simpl in Hlt. rewrite Hu. unfold users. lia.
  - assert (forall x, x ∈ insert_after i e (t_funct_list t) <-> x = e \/ x ∈ t_funct_list t) as Hin.
    { intros x. rewrite (insert_after_perm i e). apply elem_of_cons. }
    assert (forall x, x ∈ t_funct_list t -> x ∈ all_entries (hs_objs s) (hs_halobjects s)) as Hsub.
    { intros x Hx. rewrite Hsp. apply elem_of_app. by left. }
    assert ((e ∉ rest) /\ (e ∉ t_funct_list t)) as [Her Het].
    { rewrite Hsp, !not_elem_of_app in Hne. tauto. }
    apply (funct_inv_update s to th t _ fo fh f _ e _ free rest); auto.
    + assert (free ++ insert_after i e (t_funct_list t) ++ rest
              ≡ₚ e :: free ++ all_entries (hs_objs s) (hs_halobjects s)) as Hpm; [| simpl; by rewrite Hpm].
      rewrite Hsp, (insert_after_perm i e). simpl. by rewrite <- Permutation_middle.
    + intros x [Hx%Hfree | [-> | Hx]%Hin]; [right; by apply (fi_free _ Hi) | by left |].
      right. apply fi_all_known; auto.
    + intros x Hx Hxe. apply Hin in Hx as [|]; done.
    + intros fo'. simpl. rewrite (users_perm _ _ _ _ (insert_after_perm i e _)), users_cons, users_insert by done.
      unfold calls. rewrite lookup_insert_eq. simpl. repeat case_match; zb; try congruence; lia.
Qed.

Lemma wp_add_funct fname tname position rb wb s fo fh f to th t (Q : Z -> hal_state H -> Prop) (E : Z -> hal_state H -> Prop) :
  funct_inv s -> 0 < sizeof_funct_entry < 2 ^ 62 -> entry_room s ->
  Z.land (hs_lock s) HAL_LOCK_CONFIG = 0 -> position <> 0 ->
  funct_lookup s fname = Some fo -> hs_objs s !! fo = Some (HalObj fh (BFunct f)) ->
  thread_lookup s tname = Some to -> hs_objs s !! to = Some (HalObj th (BThread t)) ->
  (forall i e s1 free, addable f t position = Some i -> rt_taken s s1 ->
     (e ∉ all_entries (hs_objs s) (hs_halobjects s)) ->
     let s' := entry_state s1 to th (thread_set_funct_list t (insert_after i e (t_funct_list t)))
        fo fh (funct_set_users f (f_users f + 1)) e (new_entry fo f rb wb) free in
     funct_inv s' -> Q 0 s') ->
  (addable f t position = None -> E (- EINVAL) (set_halerrno (- EINVAL) s)) ->
  wp (hal_add_funct_to_thread (Some fname) (Some tname) position rb wb) Q E s.
Proof.
  intros Hi Hsz Hroom Hlock Hp Hff Hf Hft Ht HQ HE.
  pose proof (found_funct _ _ _ Hff) as (Hfin & fh' & f' & Hf' & Hvf). simplify_eq.
  pose proof (found_thread _ _ _ Hft) as (Htin & th' & t' & Ht' & Hvt). simplify_eq.
  unfold hal_add_funct_to_thread. apply wp_bind, wp_check_haldata; [apply Hi |].
  apply wp_bind, wp_check_lock; [apply Hi | intros _ | done].
  apply wp_bind, wp_check_str, wp_bind, wp_check_str.
  rewrite (proj2 (Z.eqb_neq _ _) Hp). apply wp_bind, wp_find_funct; [apply Hi | apply Hi |]. rewrite Hff.
  apply wp_bind. eapply wp_get_funct; [done |]. unfold addable in HQ, HE.
  destruct ((f_type f =? FS_LEGACY_THREADFUNC) || _); simpl in HQ, HE |- *; [| by apply wp_halfail, HE].
  destruct ((0 <? f_users f) && _); simpl in HQ, HE |- *; [by apply wp_halfail, HE |].
  apply wp_bind, wp_find_by_name; [apply Hi | apply Hi |].
  change (find_obj _ s) with (thread_lookup s tname). rewrite Hft.
  apply wp_bind. eapply wp_get_thread; [done |].
  destruct (negb (f_uses_fp f =? 0) && _); simpl in HQ, HE |- *; [by apply wp_halfail, HE |].
  destruct (insertion_point _ position) as [i |]; [| by apply wp_halfail, HE].
  apply wp_bind, wp_alloc_entry; [done | done | done |].
  intros e fe s1 free Hs1 Hi1 Hfe He Hfree Hn.
  assert (hs_objs s1 = hs_objs s /\ hs_halobjects s1 = hs_halobjects s /\
    hs_funct_entry_free s1 = hs_funct_entry_free s) as (Eo & El & Efr).
  { destruct Hs1 as [-> | (p & l & ->)]; done. }
  destruct (funct_inv_add s1 to th t fo fh f e free i rb wb) as [Hu Hadd];
    [done | by rewrite El | by rewrite Eo | done | by rewrite Eo | done | by rewrite Efr | done
    | by rewrite Eo, El |].
  assert (fo <> to) as Hne by (intros ->; congruence).
  apply wp_bind, wp_modify. simpl. rewrite insert_insert_eq.
  apply wp_bind. eapply wp_get_thread; [simpl; by rewrite Eo |].
  apply wp_bind. eapply wp_set_body; [simpl; by rewrite Eo |].
  apply wp_bind. eapply wp_get_funct; [simpl; rewrite lookup_insert_ne by done; by rewrite Eo |].
  rewrite Hu. apply wp_bind. eapply wp_set_body; [simpl; rewrite lookup_insert_ne by done; by rewrite Eo |].
  apply wp_ret. apply (HQ i e s1 free); [done | done | | done].
  apply NoDup_cons in Hn as [Hn _]. rewrite not_elem_of_app in Hn. tauto.
Qed.

(** ** Dropping an entry *)
Lemma elem_unlist e l x : x ∈ unlist e l <-> x <> e /\ x ∈ l.
Proof.
  unfold unlist. rewrite !list_elem_of_In, filter_In.
  destruct (x =? e) eqn:Ex; zb; naive_solver.
Qed.

Lemma unlist_notin e l : (e ∉ l) -> unlist e l = l.
Proof.
  induction l as [| x l IH]; [done |]. intros [Hx Hl]%not_elem_of_cons. unfold unlist. simpl.
  destruct (x =? e) eqn:E; zb; [done |]. simpl. f_equal. by apply IH.
Qed.

Lemma unlist_perm e l : NoDup l -> e ∈ l -> l ≡ₚ e :: unlist e l.
Proof.
  induction l as [| x l IH]; [by intros _ ?%not_elem_of_nil |]. intros [Hx Hn]%NoDup_cons He.
  unfold unlist. simpl. destruct (x =? e) eqn:E; zb; simpl.
  - subst. fold (unlist e l). by rewrite unlist_notin.
  - apply elem_of_cons in He as [| He]; [done |]. fold (unlist e l). rewrite (IH Hn He) at 1. apply Permutation_swap.
Qed.

Definition dropped s (to : Z) th t (e : Z) fe fh f : hal_state H :=
  entry_state s to th (thread_set_funct_list t (unlist e (t_funct_list t)))
    (fe_funct_ptr fe) fh (funct_set_users f (f_users f - 1)) e (fe_clear fe)
    (e :: hs_funct_entry_free s).

Lemma wp_drop_entry s to th t e fe fh f (Q : unit -> hal_state H -> Prop) E :
  funct_inv s -> to ∈ hs_halobjects s ->
  hs_objs s !! to = Some (HalObj th (BThread t)) -> e ∈ t_funct_list t ->
  hs_fentries s !! e = Some fe -> hs_objs s !! fe_funct_ptr fe = Some (HalObj fh (BFunct f)) ->
  (funct_inv (dropped s to th t e fe fh f) -> Q tt (dropped s to th t e fe fh f)) ->
  wp (remove_entry to e ≫= fun _ => free_funct_entry_struct e) Q E s.
Proof.
  intros Hi Hto Ht He Hfe Hf HQ. set (fo := fe_funct_ptr fe) in *.
  assert (fo <> to) as Hne by (intros Heq; rewrite Heq in Hf; congruence).
  destruct (all_entries_split (hs_objs s) (hs_halobjects s) to th t) as (rest & Hsp & Hsp'); [apply Hi | done | done |].
  pose proof (fi_nodup _ Hi) as Hn. rewrite Hsp in Hn.
  pose proof Hn as (Hnf & Hn1 & Hn2)%NoDup_app. pose proof Hn2 as (Hnt & Hn3 & Hnr)%NoDup_app.
  assert (calls (hs_fentries s) fo e = true) as Hcall by (unfold calls; rewrite Hfe; by apply Z.eqb_refl).
  assert (forall fm, users fm fo (t_funct_list t) = (if calls fm fo e then 1 else 0) + users fm fo (unlist e (t_funct_list t))) as Hcnt.
  { intros fm. rewrite <- users_cons. by apply users_perm, unlist_perm. }
  pose proof (users_bound s fo (all_entries (hs_objs s) (hs_halobjects s)) Hi) as Hb.
  assert (f_users f = users (hs_fentries s) fo (t_funct_list t) + users (hs_fentries s) fo rest) as Hu.
  { rewrite (fi_users _ Hi _ _ _ Hf), (users_perm _ _ _ _ Hsp). unfold users.
    rewrite List.filter_app, length_app. lia. }
  assert (1 <= f_users f < 2 ^ 31) as Hrange.
  { rewrite (fi_users _ Hi _ _ _ Hf). rewrite (fi_users _ Hi _ _ _ Hf) in Hu. split.
    - rewrite Hu, Hcnt, Hcall. unfold users. lia.
    - apply Hb; [by rewrite Hsp | intros; by apply fi_all_known]. }
  assert (hh_valid th = true) as Hvt.
  { destruct (hh_valid th) eqn:Ev; [done |]. pose proof (fi_dead _ Hi _ _ _ Ht Ev) as Hd.
    simpl in Hd. rewrite Hd in He. by apply not_elem_of_nil in He. }
  assert (hh_valid fh = true) as Hvf.
  { destruct (hh_valid fh) eqn:Ev; [done |]. pose proof (fi_dead _ Hi _ _ _ Hf Ev) as Hd. simpl in Hd. lia. }
  assert (funct_inv (dropped s to th t e fe fh f)) as Hi'.
  { apply (funct_inv_update s to th t _ fo fh f _ e _ _ rest); auto.
    - assert ((e :: hs_funct_entry_free s) ++ unlist e (t_funct_list t) ++ rest
              ≡ₚ hs_funct_entry_free s ++ t_funct_list t ++ rest) as Hpm; [| simpl; by rewrite Hpm].
      rewrite (unlist_perm e (t_funct_list t)) at 2 by done. simpl. by rewrite <- Permutation_middle.
    - intros x [[-> | Hx]%elem_of_cons | Hx]; [by left | right; by apply (fi_free _ Hi) |].
      right. apply elem_unlist in Hx as [_ Hx]. apply fi_all_known; [done |]. rewrite Hsp. set_solver.
    - simpl. intros [? _]%elem_unlist. done.
    - intros x [_ Hx]%elem_unlist _. done.
    - intros fo'. simpl. rewrite users_insert by (intros [? _]%elem_unlist; done).
      assert (users (hs_fentries s) fo' (t_funct_list t) = (if calls (hs_fentries s) fo' e then 1 else 0)
        + users (hs_fentries s) fo' (unlist e (t_funct_list t))) as ->
        by (rewrite <- users_cons; by apply users_perm, unlist_perm).
      unfold calls. rewrite Hfe. fold fo. repeat case_match; zb; try congruence; lia.
    - apply (fi_top _ Hi). eauto. }
  specialize (HQ Hi'). unfold dropped, entry_state in HQ. fold fo in HQ.
  apply wp_bind, wp_bind. eapply wp_get_thread; [done |]. eapply wp_set_body; [done |].
  apply wp_bind. eapply wp_get_fentry; [done |]. fold fo.
  rewrite (proj2 (Z.ltb_lt 0 fo)) by (eapply (fi_functs _ Hi); exact Hf).
  apply wp_bind, wp_bind. eapply wp_get_funct; [simpl; by rewrite lookup_insert_ne |].
  rewrite wraps_small by (cbn; lia).
  eapply wp_set_body; [simpl; by rewrite lookup_insert_ne |].
  apply wp_bind, wp_modify. by apply wp_modify.
Qed.

(** ** Taking functs off threads *)
Lemma wp_assoc {S A B C} (m : M S A) (f : A -> M S B) (g : B -> M S C) Q E (s : S) :
  wp ((m ≫= f) ≫= g) Q E s -> wp (m ≫= fun a => f a ≫= g) Q E s.
Proof. unfold wp, mbind, M_bind. destruct (m s) as [[] ?]; done. Qed.

Lemma find_entry_run fo l s :
  (forall e, e ∈ l -> is_Some (hs_fentries s !! e)) ->
  find_entry fo l s = (Ok (List.find (calls (hs_fentries s) fo) l), s).
Proof.
  induction l as [| e l IH]; intros Hl; [done |].
  destruct (Hl e) as [fe Hfe]; [by left |].
  cbn [find_entry List.find]. unfold mbind, M_bind, get_fentry, calls at 1. rewrite Hfe.
  destruct (fe_funct_ptr fe =? fo); [done |]. apply IH. intros; apply Hl; by right.
Qed.

Lemma wp_del_funct fname tname s fo fh f to th t (Q : Z -> hal_state H -> Prop) (E : Z -> hal_state H -> Prop) :
  funct_inv s -> Z.land (hs_lock s) HAL_LOCK_CONFIG = 0 ->
  funct_lookup s fname = Some fo -> hs_objs s !! fo = Some (HalObj fh (BFunct f)) ->
  thread_lookup s tname = Some to -> hs_objs s !! to = Some (HalObj th (BThread t)) ->
  (forall e fe, List.find (calls (hs_fentries s) fo) (t_funct_list t) = Some e ->
     hs_fentries s !! e = Some fe -> fe_funct_ptr fe = fo ->
     funct_inv (dropped s to th t e fe fh f) -> Q 0 (dropped s to th t e fe fh f)) ->
  (List.find (calls (hs_fentries s) fo) (t_funct_list t) = None ->
     E (- EINVAL) (set_halerrno (- EINVAL) s)) ->
  wp (hal_del_funct_from_thread (Some fname) (Some tname)) Q E s.
Proof.
  intros Hi Hlock Hff Hf Hft Ht HQ HE.
  pose proof (found_thread _ _ _ Hft) as (Htin & th' & t' & Ht' & Hvt). simplify_eq.
  assert (forall x, x ∈ t_funct_list t -> x ∈ all_entries (hs_objs s) (hs_halobjects s)) as Hsub.
  { destruct (all_entries_split (hs_objs s) (hs_halobjects s) to th t) as (rest & Hsp & _); [apply Hi | done | done |].
    intros x Hx. rewrite Hsp. apply elem_of_app. by left. }
  unfold hal_del_funct_from_thread. apply wp_bind, wp_check_haldata; [apply Hi |].
  apply wp_bind, wp_check_lock; [apply Hi | intros _ | done].
  apply wp_bind, wp_check_str, wp_bind, wp_check_str.
  apply wp_bind, wp_find_funct; [apply Hi | apply Hi |]. rewrite Hff.
  apply wp_bind. eapply wp_get_funct; [done |].
  destruct (f_users f =? 0) eqn:Eu; zb.
  { apply wp_halfail, HE. destruct (List.find _ _) as [e |] eqn:Ee; [| done].
    apply find_some in Ee as [Hin%list_elem_of_In%Hsub Hc]. rewrite (fi_users _ Hi _ _ _ Hf) in Eu.
    unfold users in Eu. destruct (List.filter _ _) eqn:El; [| done].
    apply list_elem_of_In in Hin. pose proof (proj2 (filter_In _ _ _) (conj Hin Hc)) as Hx. by rewrite El in Hx. }
  apply wp_bind, wp_find_by_name; [apply Hi | apply Hi |].
  change (find_obj _ s) with (thread_lookup s tname). rewrite Hft.
  apply wp_bind. eapply wp_get_thread; [done |]. apply wp_bind. unfold wp at 1.
  rewrite find_entry_run by (intros e He; by apply fi_all_known, Hsub).
  destruct (List.find _ _) as [e |] eqn:Ee; [| by apply wp_halfail, HE].
  apply find_some in Ee as [Hin%list_elem_of_In Hc].
  destruct (fi_all_known s e) as [fe Hfe]; [done | by apply Hsub |].
  assert (fe_funct_ptr fe = fo) as Hptr by (unfold calls in Hc; rewrite Hfe in Hc; by apply Z.eqb_eq in Hc).
  apply wp_assoc, wp_bind.
  eapply (wp_drop_entry s to th t e fe fh f); try done; [by rewrite Hptr |].
  intros Hi'. apply wp_ret. by eapply HQ.
Qed.

(** ** Deleting a funct *)
Lemma filter_all {A} (p : A -> bool) l : (forall x, x ∈ l -> p x = true) -> List.filter p l = l.
Proof.
  intros Hp. induction l as [| x l IH]; [done |]. simpl. rewrite Hp by left.
  f_equal. apply IH. intros; apply Hp; by right.
Qed.

(** [s'] is [s] with the list of every thread [o] replaced by [D o], after
    entries that call [fo] were dropped. *)
Record relisted s (fo : Z) (D : Z -> list Z) s' : Prop := Relisted {
  rl_inv : funct_inv s';
  rl_list : hs_halobjects s' = hs_halobjects s;
  rl_obj : forall o h b, hs_objs s !! o = Some (HalObj h b) ->
    exists b', hs_objs s' !! o = Some (HalObj h b') /\
      match b with
      | BThread t => b' = BThread (thread_set_funct_list t (D o))
      | BFunct f => exists n, b' = BFunct (funct_set_users f n) /\ (o <> fo -> n = f_users f)
      | _ => b' = b
      end;
  rl_entries : forall e, e ∈ all_entries (hs_objs s') (hs_halobjects s') ->
    hs_fentries s' !! e = hs_fentries s !! e;
}.

Lemma relisted_refl s fo : funct_inv s -> relisted s fo (thread_entries (hs_objs s)) s.
Proof.
  intros Hi. split; [done | done | | done]. intros o h b Ho. exists b. split; [done |].
  destruct b as [| | | t | f | | | | | | | |]; try done.
  - unfold thread_entries. rewrite Ho. by destruct t.
  - exists (f_users f). by destruct f.
Qed.

Lemma all_entries_elem m l to h t x :
  to ∈ l -> m !! to = Some (HalObj h (BThread t)) -> x ∈ t_funct_list t -> x ∈ all_entries m l.
Proof.
  intros Hto Hm Hx. apply list_elem_of_bind. exists to. split; [| done].
  unfold thread_entries. by rewrite Hm.
Qed.

Lemma all_entries_inv m l x : x ∈ all_entries m l ->
  exists to h t, to ∈ l /\ m !! to = Some (HalObj h (BThread t)) /\ x ∈ t_funct_list t.
Proof.
  intros (to & Hx & Hto)%list_elem_of_bind. unfold thread_entries in Hx.
  destruct (m !! to) as [[h []] |] eqn:E; try (by apply not_elem_of_nil in Hx). eauto 10.
Qed.

(** Dropping one more entry of thread [to] that calls [fo]. *)
Lemma relisted_drop s fo D s1 to h t e fe fh f :
  relisted s fo D s1 -> to ∈ hs_halobjects s ->
  hs_objs s !! to = Some (HalObj h (BThread t)) -> fe_funct_ptr fe = fo ->
  hs_objs s1 !! fo = Some (HalObj fh (BFunct f)) ->
  (e ∉ hs_funct_entry_free s1) -> e ∈ D to ->
  let s2 := dropped s1 to h (thread_set_funct_list t (D to)) e fe fh f in
  funct_inv s2 ->
  relisted s fo (fun o => if decide (o = to) then unlist e (D to) else D o) s2.
Proof.
  intros [Hi Hl Hob Hen] Hto Ht Hptr Hf He HeD s2 Hi2. split.
  - done.
  - done.
  - intros o ho b Ho. destruct (Hob _ _ _ Ho) as (b1 & Ho1 & Hb1). subst s2.
    unfold dropped, entry_state. simpl. rewrite Hptr.
    destruct (decide (o = fo)) as [-> |].
    + rewrite lookup_insert_eq. rewrite Hf in Ho1. simplify_eq. eexists. split; [done |].
      destruct b; try done; subst; simplify_eq.
      destruct Hb1 as (n & Hn & _). simplify_eq. exists (n - 1). split; [done | done].
    + rewrite lookup_insert_ne by done. destruct (decide (o = to)) as [-> |].
      * rewrite lookup_insert_eq. simplify_eq. eexists. split; [done |]. done.
      * rewrite lookup_insert_ne by done. exists b1. split; [done |]. done.
  - intros x Hx. assert (x <> e) as Hxe.
    { intros ->. pose proof (fi_nodup _ Hi2) as Hn. apply NoDup_app in Hn as (_ & Hn & _).
      apply (Hn e); [| exact Hx]. left. }
    simpl. rewrite lookup_insert_ne by done. apply Hen.
    apply all_entries_inv in Hx as (to' & h' & t' & Hto' & Ht' & Hx).
    subst s2. unfold dropped, entry_state in Ht', Hto'. simpl in Ht', Hto'. rewrite Hptr in Ht'.
    destruct (decide (to' = fo)) as [-> |]; [by rewrite lookup_insert_eq in Ht' |].
    rewrite lookup_insert_ne in Ht' by done. destruct (decide (to' = to)) as [-> |].
    + rewrite lookup_insert_eq in Ht'. simplify_eq. simpl in Hx. apply elem_unlist in Hx as [_ Hx].
      destruct (Hob _ _ _ Ht) as (b1 & Ho1 & ->). eapply all_entries_elem; [done | exact Ho1 | done].
    + rewrite lookup_insert_ne in Ht' by done. eapply all_entries_elem; done.
Qed.

Lemma wp_cb_loop s fo to h t l : forall s1 D (Q : unit -> hal_state H -> Prop) E,
  relisted s fo D s1 -> to ∈ hs_halobjects s -> 0 < fo ->
  hs_objs s !! to = Some (HalObj h (BThread t)) ->
  NoDup l -> (forall e, e ∈ l -> e ∈ D to) ->
  (forall s2 D', relisted s fo D' s2 -> (forall o, o <> to -> D' o = D o) ->
     D' to = List.filter (fun e => negb (calls (hs_fentries s) fo e && bool_decide (e ∈ l))) (D to) ->
     Q tt s2) ->
  wp (thread_cb_loop to fo l) Q E s1.
Proof.
  induction l as [| e l IH]; intros s1 D Q E Hr Hto Hfo Ht Hn Hl HQ.
  { apply wp_ret. eapply HQ; [done | done |]. symmetry. apply filter_all.
    intros x _. by rewrite andb_false_r. }
  apply NoDup_cons in Hn as [Hel Hn]. cbn [thread_cb_loop].
  pose proof (rl_inv _ _ _ _ Hr) as Hi1. pose proof (rl_obj _ _ _ _ Hr _ _ _ Ht) as (b1 & Ht1 & ->).
  assert (e ∈ all_entries (hs_objs s1) (hs_halobjects s1)) as Hall.
  { eapply all_entries_elem; [by rewrite (rl_list _ _ _ _ Hr) | exact Ht1 |]. simpl. apply Hl. by left. }
  destruct (fi_calls _ Hi1 e Hall) as (fe & fh & f & Hfe & _ & Hf).
  assert (calls (hs_fentries s) fo e = (fe_funct_ptr fe =? fo)) as Hc.
  { unfold calls. by rewrite <- (rl_entries _ _ _ _ Hr e Hall), Hfe. }
  apply wp_bind. eapply wp_get_fentry; [done |].
  destruct (fe_funct_ptr fe =? fo) eqn:Ep; zb.
  - apply wp_bind. eapply wp_drop_entry; try done; [by rewrite (rl_list _ _ _ _ Hr) | apply Hl; by left |].
    intros Hi2. eapply (IH _ (fun o => if decide (o = to) then unlist e (D to) else D o)); try done.
    + eapply relisted_drop; try done; [by rewrite <- Ep | | by (apply Hl; left)].
      intros Hx. pose proof (fi_nodup _ Hi1) as (_ & Hd & _)%NoDup_app. by apply (Hd e).
    + intros x Hx. rewrite decide_True by done. apply elem_unlist. split; [by intros -> | apply Hl; by right].
    + intros s2 D' Hr' Hne Heq. apply (HQ s2 D'); [done | |].
      * intros o Ho. rewrite Hne by done. by rewrite decide_False.
      * rewrite Heq, decide_True by done. unfold unlist. rewrite filter_andb. apply List.filter_ext.
        intros x. destruct (x =? e) eqn:Ex; zb.
        -- subst x. simpl. rewrite Hc, bool_decide_true by (by left). done.
        -- simpl. do 2 f_equal. apply bool_decide_ext. rewrite elem_of_cons. naive_solver.
  - apply wp_bind, wp_ret. eapply (IH _ D); try done; [intros; apply Hl; by right |].
    intros s2 D' Hr' Hne Heq. apply (HQ s2 D'); [done | done |]. rewrite Heq. apply List.filter_ext.
    intros x. destruct (decide (x = e)) as [-> |]; [by rewrite Hc |].
    do 2 f_equal. apply bool_decide_ext. rewrite elem_of_cons. naive_solver.
Qed.

(** The list of thread [o] without the entries that call [fo]. *)
Definition without s (fo o : Z) : list Z :=
  List.filter (fun e => negb (calls (hs_fentries s) fo e)) (thread_entries (hs_objs s) o).

Lemma wp_purge s fo (Q : unit -> hal_state H -> Prop) E :
  funct_inv s -> 0 < fo ->
  (forall s' D, relisted s fo D s' ->
     (forall o, o ∈ hs_halobjects s -> D o = without s fo o) -> Q tt s') ->
  wp (halg_foreach (sel_type HAL_THREAD) (thread_cb fo) tt ≫= fun _ => mret tt) Q E s.
Proof.
  intros Hi Hfo HQ. apply wp_bind, wp_bind, wp_hal_data; [apply Hi |].
  set (inv := fun (l : list Z) (_ : unit) s1 => NoDup l /\ (forall o, o ∈ l -> o ∈ hs_halobjects s) /\
    exists D, relisted s fo D s1 /\ (forall o, o ∈ l -> D o = thread_entries (hs_objs s) o) /\
      forall o, o ∈ hs_halobjects s -> (o ∉ l) -> D o = without s fo o).
  eapply wp_mono; [eapply (wp_foreach_all _ _ _ inv) with (l := hs_halobjects s) | |].
  - done.
  - intros o l [] s1 (Hn & Hl & D & Hr & HD & HD'). apply NoDup_cons in Hn as [Hol Hn].
    assert (o ∈ hs_halobjects s) as Ho by (apply Hl; by left).
    destruct (fi_listed _ Hi o Ho) as [[h b] Hob].
    destruct (rl_obj _ _ _ _ Hr _ _ _ Hob) as (b1 & Hob1 & Hb1).
    exists (HalObj h b1). split; [done |].
    destruct (sel_ok (sel_type HAL_THREAD) (HalObj h b1)) eqn:Es.
    + apply sel_ok_type in Es as [Hv Ht]; [| done]. apply body_thread in Ht as [t1 Ht1]. simpl in Ht1. subst b1.
      destruct b as [| | | t | f | | | | | | | |]; try done; [| by destruct Hb1 as (n & [=] & _)]. simplify_eq.
      apply wp_bind. eapply wp_get_thread; [done |]. simpl. apply wp_bind.
      assert (D o = t_funct_list t) as HDo.
      { rewrite HD by (by left). unfold thread_entries. by rewrite Hob. }
      eapply (wp_cb_loop s fo o h t _ s1 D); try done.
      * rewrite HDo. pose proof (fi_nodup _ Hi) as (_ & _ & Hna)%NoDup_app.
        destruct (all_entries_split (hs_objs s) (hs_halobjects s) o h t) as (rest & Hsp & _); [apply Hi | done | done |].
        rewrite Hsp in Hna. by apply NoDup_app in Hna as (? & _).
      * intros s2 D' Hr2 Hne Heq. apply wp_ret. split; [done |]. split; [done |].
        split; [intros; apply Hl; by right |]. exists D'. split; [done |]. split.
        -- intros x Hx. rewrite Hne by (by intros ->). apply HD. by right.
        -- intros x Hx Hxl. destruct (decide (x = o)) as [-> |].
           ++ rewrite Heq. unfold without, thread_entries. rewrite Hob, HDo. apply List.filter_ext_in.
              intros e He%list_elem_of_In. by rewrite bool_decide_true, andb_true_r.
           ++ rewrite Hne by done. apply HD'; [done |]. by rewrite not_elem_of_cons.
    + split; [done |]. split; [intros; apply Hl; by right |]. exists D. split; [done |].
      split; [intros; apply HD; by right |]. intros x Hx Hxl.
      destruct (decide (x = o)) as [-> |]; [| apply HD'; [done |]; by rewrite not_elem_of_cons].
      rewrite HD by (by left). unfold without, thread_entries. rewrite Hob.
      destruct b as [| | | t | f | | | | | | | |]; try done. subst b1.
      rewrite (fi_dead _ Hi _ _ _ Hob); [done |]. destruct (hh_valid h) eqn:Ev; [| done].
      exfalso. apply not_true_iff_false in Es. apply Es. by apply sel_ok_type.
  - split; [apply Hi |]. split; [done |]. exists (thread_entries (hs_objs s)).
    split; [by apply relisted_refl |]. done.
  - intros [n []] s' (_ & _ & D & Hr & _ & HD). apply wp_ret. eapply HQ; [done |].
    intros o Ho. apply HD; [done |]. apply not_elem_of_nil.
  - done.
Qed.

Lemma users_zero fm fo l : (forall e, e ∈ l -> calls fm fo e = false) -> users fm fo l = 0.
Proof.
  intros Hl. unfold users. induction l as [| x l IH]; [done |]. simpl. rewrite Hl by left.
  apply IH. intros; apply Hl; by right.
Qed.

(** After the loop nothing calls the funct. *)
Lemma relisted_users s fo D s' h f :
  relisted s fo D s' -> (forall o, o ∈ hs_halobjects s -> D o = without s fo o) ->
  (forall o, o ∈ hs_halobjects s -> is_Some (hs_objs s !! o)) ->
  hs_objs s' !! fo = Some (HalObj h (BFunct f)) -> f_users f = 0.
Proof.
  intros Hr HD Hl Hf. rewrite (fi_users _ (rl_inv _ _ _ _ Hr) _ _ _ Hf). apply users_zero.
  intros e He. unfold calls at 1. rewrite (rl_entries _ _ _ _ Hr e He).
  apply all_entries_inv in He as (to & ht & t & Hto & Ht & He). rewrite (rl_list _ _ _ _ Hr) in Hto.
  destruct (Hl _ Hto) as [[h0 b0] Hob0]. destruct (rl_obj _ _ _ _ Hr _ _ _ Hob0) as (b1 & Hob1 & Hb1).
  rewrite Ht in Hob1. simplify_eq.
  destruct b0 as [| | | t0 | f0 | | | | | | | |]; try done; [| by destruct Hb1 as (n & [=] & _)].
  simplify_eq. simpl in He. rewrite HD in He by done. unfold without in He.
  apply list_elem_of_In, filter_In in He as [_ Hc]. by apply negb_true_iff in Hc.
Qed.

Lemma funct_inv_invalidate s fo h h' f :
  funct_inv s -> hs_objs s !! fo = Some (HalObj h (BFunct f)) -> f_users f = 0 ->
  funct_inv (set_objs (<[fo := HalObj h' (BFunct f)]> (hs_objs s)) s).
Proof.
  intros [Hi Hlist Hno Hn Hfr Hc Hu Hf Hd Hr Htop] Ho Hz.
  assert (all_entries (<[fo := HalObj h' (BFunct f)]> (hs_objs s)) (hs_halobjects s)
    = all_entries (hs_objs s) (hs_halobjects s)) as Hall.
  { by eapply (all_entries_insert _ _ fo h h' (BFunct f) (BFunct f)). }
  split; simpl; rewrite ?Hall; try done.
  - intros o Hin. simpl. destruct (decide (o = fo)) as [-> |]; [rewrite lookup_insert_eq; eauto |].
    rewrite lookup_insert_ne by done. by apply Hlist.
  - intros e He. destruct (Hc e He) as (fe & h0 & f0 & ? & ? & Hob). exists fe.
    destruct (decide (fe_funct_ptr fe = fo)) as [-> |]; [rewrite lookup_insert_eq; eauto 10 |].
    rewrite lookup_insert_ne by done. eauto.
  - intros o h0 f0 Hob. destruct (decide (o = fo)) as [-> |].
    + rewrite lookup_insert_eq in Hob. simplify_eq. by eapply Hu.
    + rewrite lookup_insert_ne in Hob by done. by eapply Hu.
  - intros o h0 f0 Hob. destruct (decide (o = fo)) as [-> |]; [by eapply Hf |].
    rewrite lookup_insert_ne in Hob by done. by eapply Hf.
  - intros o h0 b Hob Hv. destruct (decide (o = fo)) as [-> |].
    + rewrite lookup_insert_eq in Hob. by simplify_eq.
    + rewrite lookup_insert_ne in Hob by done. by eapply Hd.
Qed.

Definition invalidated s (fo : Z) h f : hal_state H :=
  set_objs (<[fo := HalObj (snd (hh_clear_hdr h)) (BFunct f)]> (hs_objs s)) s.

Lemma wp_free_funct s fo h f (Q : unit -> hal_state H -> Prop) E :
  funct_inv s -> hs_objs s !! fo = Some (HalObj h (BFunct f)) -> hh_refcnt h = 0 ->
  (forall s1 D, relisted s fo D s1 -> (forall o, o ∈ hs_halobjects s -> D o = without s fo o) ->
     let s' := invalidated s1 fo h (funct_set_users f 0) in funct_inv s' -> Q tt s') ->
  wp (free_funct_struct fo) Q E s.
Proof.
  intros Hi Hf Hrc HQ.
  assert (forall s1 D, relisted s fo D s1 -> (forall o, o ∈ hs_halobjects s -> D o = without s fo o) ->
    wp (ignore (halg_free_object fo)) Q E s1) as Hfree.
  { intros s1 D Hr HD. destruct (rl_obj _ _ _ _ Hr _ _ _ Hf) as (b1 & Hf1 & n & -> & _).
    pose proof (relisted_users _ _ _ _ _ _ Hr HD (fi_listed _ Hi) Hf1) as Hz. simpl in Hz. subst n.
    apply wp_ignore, wp_bind. eapply wp_get_obj; [done |]. simpl. rewrite Hrc. simpl.
    eapply wp_upd_hdr; [done |]. apply (HQ s1 D Hr HD). eapply funct_inv_invalidate; [apply Hr | done | done]. }
  apply wp_bind. eapply wp_get_funct; [done |]. apply wp_bind. destruct (0 <? f_users f) eqn:Eu; zb.
  - apply wp_purge; [done | by eapply (fi_functs _ Hi) |]. intros. by eapply Hfree.
  - apply wp_ret. eapply Hfree; [by apply relisted_refl |]. intros o Ho. symmetry. apply filter_all.
    intros e He. unfold thread_entries in He.
    destruct (hs_objs s !! o) as [[ho [| | | t | | | | | | | | |]] |] eqn:Eo; try by apply not_elem_of_nil in He.
    pose proof (all_entries_elem _ _ _ _ _ _ Ho Eo He) as Hall.
    destruct (calls (hs_fentries s) fo e) eqn:Ec; [| done].
    pose proof (fi_users _ Hi _ _ _ Hf) as Hu. unfold users in Hu.
    assert (e ∈ List.filter (calls (hs_fentries s) fo) (all_entries (hs_objs s) (hs_halobjects s))) as Hin.
    { apply list_elem_of_In, filter_In. split; [by apply list_elem_of_In | done]. }
    destruct (List.filter _ _); [by apply not_elem_of_nil in Hin | simpl in Hu; lia].
Qed.
End Entries.
