(* ===== verification/HalReach.v ===== *)
(** * Reachable states

    The operations that create components, instances, functs, pins and
    signals, and those of pins and signals, as the steps of a transition
    system: [link_inv] holds in every reachable state, and no step crashes. *)
From S2P Require Import Prelude HalData HalMemory HalObject HalObjectFacts HalPin HalSignal HalLinks HalLinkOps HalLinkSteps HalSweep HalBoot HalFunct HalFunctFacts HalComp.

Lemma s16_idem z : s16 (s16 z) = s16 z.
Proof. apply (wraps_congr 16). by rewrite wraps_mod. Qed.

(** ** What every operation keeps

    The version of the segment and the width of the ids, neither of which
    [link_inv] mentions.  [preserves m]: the computation keeps both, however it
    ends; a lemma per construct, collected in the hint database [preserves]. *)
Create HintDb preserves.

Section Keeps.
Context {H : Type} {HA : Allocator H} {PF : Platform}.
Implicit Types s : hal_state H.
Abbreviation HM := (M (hal_state H)).

Definition short_id (ob : hal_obj) : Prop := s16 (hh_id (o_hdr ob)) = hh_id (o_hdr ob).

Record sane s : Prop := Sane {
  sn_version : hs_version s <> 0;
  sn_ids : forall o ob, hs_objs s !! o = Some ob -> short_id ob;
}.

Definition preserves {A} (m : HM A) : Prop := forall s, sane s -> sane (snd (m s)).

Lemma pres_ret {A} (a : A) : preserves (mret a).
Proof. by intros s. Qed.

Lemma pres_raise {A} e : preserves (raise (A := A) e).
Proof. by intros s. Qed.

Lemma pres_crash {A} : preserves (crash (A := A)).
Proof. by intros s. Qed.

Lemma pres_bind {A B} (m : HM A) (f : A -> HM B) : preserves m -> (forall a, preserves (f a)) -> preserves (m ≫= f).
Proof.
  intros Hm Hf s Hs. specialize (Hm s Hs). unfold mbind, M_bind. destruct (m s) as [[a | e |] s']; [by apply Hf | done | done].
Qed.

(** A state that is read is sane, and may be written back changed. *)
Lemma pres_get {A} (f : hal_state H -> HM A) : (forall s, sane s -> preserves (f s)) -> preserves (get ≫= f).
Proof. intros Hf s Hs. by apply Hf. Qed.

Lemma pres_put s' : sane s' -> preserves (put s').
Proof. by intros Hs s _. Qed.

Lemma pres_modify (f : hal_state H -> hal_state H) : (forall s, sane s -> sane (f s)) -> preserves (modify f).
Proof. intros Hf s Hs. by apply Hf. Qed.

Lemma pres_ignore {A} (m : HM A) : preserves m -> preserves (ignore m).
Proof. intros Hm s Hs. specialize (Hm s Hs). unfold ignore. by destruct (m s) as [[] ?]. Qed.

Lemma pres_attempt {A} (m : HM A) : preserves m -> preserves (attempt m).
Proof. intros Hm s Hs. specialize (Hm s Hs). unfold attempt. by destruct (m s) as [[] ?]. Qed.

Lemma pres_on_error {A} (m : HM A) h : preserves m -> preserves h -> preserves (on_error m h).
Proof.
  intros Hm Hh s Hs. specialize (Hm s Hs). unfold on_error. destruct (m s) as [[a | e |] s']; try done.
  specialize (Hh s' Hm). by destruct (h s') as [[] ?].
Qed.

(** Nothing but the fields that no lookup sees. *)
Lemma sane_same s s' : hs_version s' = hs_version s -> hs_objs s' = hs_objs s -> sane s -> sane s'.
Proof. intros Hv Ho []. by split; rewrite ?Hv, ?Ho. Qed.

Lemma sane_insert s o ob : short_id ob -> sane s -> sane (set_objs (<[o := ob]> (hs_objs s)) s).
Proof. intros Hi [Hv Hs]. split; [done |]. simpl. intros x xob [[_ <-] | [_ Hx]]%lookup_insert_Some; [done | by eapply Hs]. Qed.

Lemma sane_delete s o : sane s -> sane (set_objs (delete o (hs_objs s)) s).
Proof. intros [Hv Hs]. split; [done |]. simpl. intros x xob [_ Hx]%lookup_delete_Some. by eapply Hs. Qed.

Lemma pres_halfail {A} rc : preserves (halfail (A := A) rc).
Proof. intros s Hs. by apply (sane_same s). Qed.

Lemma pres_hal_data : preserves hal_data.
Proof. intros s Hs. unfold hal_data. by destruct (hs_init s). Qed.

Lemma pres_check_haldata : preserves CHECK_HALDATA.
Proof. intros s Hs. unfold CHECK_HALDATA. destruct (hs_init s); [done | by apply pres_halfail]. Qed.

Lemma pres_get_obj o : preserves (get_obj o).
Proof. intros s Hs. unfold get_obj. by destruct (hs_objs s !! o). Qed.

Lemma pres_put_obj o ob : short_id ob -> preserves (put_obj o ob).
Proof. intros Hi s Hs. by apply sane_insert. Qed.

Lemma pres_upd_hdr o f : (forall h, s16 (hh_id h) = hh_id h -> s16 (hh_id (f h)) = hh_id (f h)) -> preserves (upd_hdr o f).
Proof.
  intros Hf s Hs. unfold upd_hdr, mbind, M_bind, get_obj. destruct (hs_objs s !! o) as [ob |] eqn:Ho; [| done].
  apply sane_insert; [| done]. apply Hf. by apply (sn_ids _ Hs o).
Qed.

Lemma pres_set_body o b : preserves (set_body o b).
Proof.
  intros s Hs. unfold set_body, mbind, M_bind, get_obj. destruct (hs_objs s !! o) as [ob |] eqn:Ho; [| done].
  apply sane_insert; [| done]. by apply (sn_ids _ Hs o ob).
Qed.

Lemma pres_heap_calloc n : preserves (heap_calloc n).
Proof. intros s Hs. unfold heap_calloc. repeat case_match; try done. by apply (sane_same s). Qed.

Lemma pres_gheap_calloc n : preserves (gheap_calloc n).
Proof. intros s Hs. unfold gheap_calloc. repeat case_match; try done. by apply (sane_same s). Qed.

Lemma pres_gheap_free p : preserves (gheap_free p).
Proof. intros s Hs. unfold gheap_free. case_match; try done. by apply (sane_same s). Qed.

Lemma pres_shmfree_desc p : preserves (shmfree_desc p).
Proof. intros s Hs. unfold shmfree_desc. repeat case_match; try done. by apply (sane_same s). Qed.

Lemma pres_foreach {A} oc sel (cb : Z -> A -> HM (Z * A)) l : (forall id, preserves (oc id)) -> (forall o a, preserves (cb o a)) ->
  forall n a, preserves (foreach_list oc sel cb l n a).
Proof.
  intros Ho Hcb. induction l as [| o l IH]; intros n a; cbn [foreach_list]; [apply pres_ret |].
  apply pres_bind; [apply pres_get_obj |]. intros ob. case_match; [apply IH |].
  apply pres_bind.
  - unfold match_owning_comp. case_match; [apply pres_ret |]. apply pres_bind; [apply Ho |]. intros [c |]; [| apply pres_ret].
    apply pres_bind; [apply pres_get_obj | intros; apply pres_ret].
  - intros b. case_match; [apply IH |]. apply pres_bind; [apply Hcb |]. intros ra. repeat case_match; [apply pres_ret | apply pres_ret | apply IH].
Qed.
End Keeps.

#[export] Hint Resolve pres_ret pres_raise pres_crash pres_halfail pres_hal_data pres_check_haldata pres_get_obj pres_set_body
  pres_heap_calloc pres_gheap_calloc pres_gheap_free pres_shmfree_desc pres_ignore pres_attempt pres_on_error : preserves.

(** One construct at a time; updates of the state are of fields that are not
    looked at, or insert an object with a short id. *)
Ltac pres_step :=
  match goal with
  | |- forall _, _ => intros
  | |- preserves (get ≫= _) => apply pres_get
  | |- preserves (_ ≫= _) => apply pres_bind
  | |- preserves (foreach_list _ _ _ _ _ _) => apply pres_foreach
  | |- preserves (modify _) => apply pres_modify
  | |- preserves (put _) => apply pres_put
  | |- preserves (upd_hdr _ _) => apply pres_upd_hdr
  | |- preserves (put_obj _ _) => apply pres_put_obj
  | |- preserves (match ?x with _ => _ end) => destruct x eqn:?
  | |- preserves (ignore _) => apply pres_ignore
  | |- preserves (attempt _) => apply pres_attempt
  | |- preserves (on_error _ _) => apply pres_on_error
  | |- preserves _ => solve [eauto 2 with preserves]
  | |- sane (set_halobjects _ ?x) => apply (sane_same x); [done | done |]
  | |- sane (set_objs (delete _ _) _) => apply sane_delete
  | Hs : sane ?s |- sane _ => solve [done | by apply (sane_same s)]
  | |- short_id _ => apply s16_idem || done
  | |- s16 _ = _ => apply s16_idem || done
  end.
Ltac pres_tac := repeat (pres_step || case_match).

(** The operations, bottom up. *)
Section KeepsOps.
Context {H : Type} {HA : Allocator H} {PF : Platform} {SM : SharedMemory}.
Implicit Types s : hal_state H.

Lemma pres_check_lock ll : preserves (H := H) (CHECK_LOCK ll).
Proof. unfold CHECK_LOCK. pres_tac. Qed.

Lemma pres_check_strlen n len : preserves (H := H) (CHECK_STRLEN n len).
Proof. unfold CHECK_STRLEN, CHECK_STR. pres_tac. Qed.

Lemma pres_check_str n : preserves (H := H) (CHECK_STR n).
Proof. unfold CHECK_STR. pres_tac. Qed.

Lemma pres_pcheck_strlen n len : preserves (H := H) (PCHECK_STRLEN n len).
Proof. unfold PCHECK_STRLEN. pres_tac. Qed.

Lemma pres_check_null {A} (p : option A) : preserves (H := H) (CHECK_NULL p).
Proof. unfold CHECK_NULL. pres_tac. Qed.

Lemma pres_fmt_ap n str : preserves (H := H) (fmt_ap n str).
Proof. unfold fmt_ap. pres_tac. Qed.

Lemma pres_find_name t n : preserves (H := H) (halg_find_object_by_name t n).
Proof. unfold halg_find_object_by_name, halg_foreach0, yield_match. pres_tac. Qed.

Lemma pres_find_id t id : preserves (H := H) (halg_find_object_by_id t id).
Proof. unfold halg_find_object_by_id, halg_foreach0, yield_match. pres_tac. Qed.

Lemma pres_owning_comp id : preserves (H := H) (halpr_find_owning_comp id).
Proof. unfold halpr_find_owning_comp, halpr_find_inst_by_id, halpr_find_comp_by_id. pres_tac; apply pres_find_id. Qed.

Lemma pres_halg_foreach {A} sel (cb : Z -> A -> M (hal_state H) (Z * A)) a : (forall o a, preserves (cb o a)) -> preserves (halg_foreach sel cb a).
Proof. intros Hcb. unfold halg_foreach. pres_tac. apply pres_owning_comp. Qed.

Lemma pres_get_pin o : preserves (H := H) (get_pin o).
Proof. unfold get_pin. pres_tac. Qed.
Lemma pres_get_sig o : preserves (H := H) (get_sig o).
Proof. unfold get_sig. pres_tac. Qed.
Lemma pres_get_comp o : preserves (H := H) (get_comp o).
Proof. unfold get_comp. pres_tac. Qed.
Lemma pres_get_funct o : preserves (H := H) (get_funct o).
Proof. unfold get_funct. pres_tac. Qed.

Lemma pres_shmalloc_desc n : preserves (H := H) (shmalloc_desc n).
Proof. unfold shmalloc_desc, hal_heap_addmem. pres_tac. Qed.

Lemma pres_shmalloc_rt n : preserves (H := H) (shmalloc_rt n).
Proof. unfold shmalloc_rt. pres_tac. Qed.

Lemma pres_create t owner n : preserves (H := H) (halg_create_objectf t owner n).
Proof.
  unfold halg_create_objectf, halg_create_objectfv, shmalloc_desc_aligned, hh_init_hdrfv, hh_set_namefv, rtapi_next_handle, count_str_alloc.
  pres_tac; apply pres_shmalloc_desc.
Qed.

Lemma pres_add_object o : preserves (H := H) (halg_add_object o).
Proof. unfold halg_add_object. pres_tac. apply pres_halg_foreach. unfold find_previous. pres_tac. Qed.

Lemma pres_free_object o : preserves (H := H) (halg_free_object o).
Proof. unfold halg_free_object. pres_tac. Qed.

Lemma pres_legacy_cell o a : preserves (H := H) (set_legacy_cell o a).
Proof. unfold set_legacy_cell. pres_tac; auto using pres_get_pin, pres_owning_comp, pres_get_comp. Qed.

Lemma pres_unlink_pin o : preserves (H := H) (unlink_pin o).
Proof. unfold unlink_pin. pres_tac; auto using pres_get_pin, pres_get_sig, pres_legacy_cell. Qed.
End KeepsOps.

#[export] Hint Resolve pres_check_lock pres_check_strlen pres_check_str pres_pcheck_strlen pres_check_null pres_fmt_ap
  pres_find_name pres_find_id pres_owning_comp pres_halg_foreach pres_get_pin pres_get_sig pres_get_comp pres_get_funct
  pres_shmalloc_desc pres_shmalloc_rt pres_create pres_add_object pres_free_object pres_legacy_cell pres_unlink_pin : preserves.

Section KeepsApi.
Context {H : Type} {HA : Allocator H} {PF : Platform} {SM : SharedMemory}.
Implicit Types s : hal_state H.

Lemma pres_pin_new type dir cell owner defval name : preserves (H := H) (halg_pin_newfv type dir cell owner defval name).
Proof. unfold halg_pin_newfv, halpr_find_pin_by_name. pres_tac. Qed.

Lemma pres_signal_new name type : preserves (H := H) (halg_signal_new name type).
Proof. unfold halg_signal_new, halpr_find_sig_by_name. pres_tac. Qed.

Lemma pres_propagate sig : preserves (H := H) (halg_signal_propagate_barriers sig).
Proof.
  unfold halg_signal_propagate_barriers. pres_tac. apply pres_halg_foreach. unfold pin_by_signal_callback, propagate_barriers_cb. pres_tac.
Qed.

Lemma pres_load a : preserves (H := H) (load_value a).
Proof. unfold load_value, get_param. pres_tac. Qed.

Lemma pres_link pin sig : preserves (H := H) (halg_link pin sig).
Proof. unfold halg_link, halpr_find_pin_by_name, halpr_find_sig_by_name, inherit_value. pres_tac; auto using pres_load, pres_propagate. Qed.

Lemma pres_unlink pin : preserves (H := H) (halg_unlink pin).
Proof. unfold halg_unlink, halpr_find_pin_by_name. pres_tac. Qed.

Lemma pres_signal_delete name : preserves (H := H) (halg_signal_delete name).
Proof.
  unfold halg_signal_delete, halpr_find_sig_by_name, free_sig_struct, halg_foreach_pin_by_signal. pres_tac.
  apply pres_halg_foreach. unfold pin_by_signal_callback, unlink_pin_callback. pres_tac.
Qed.

Lemma pres_setbarriers name r w : preserves (H := H) (halg_signal_setbarriers name r w).
Proof. unfold halg_signal_setbarriers, halpr_find_sig_by_name, halg_object_setbarriers. pres_tac; auto using pres_propagate. Qed.

Lemma pres_sweep_list l n : preserves (H := H) (sweep_list l n).
Proof.
  revert n. induction l as [| o l IH]; intros n; cbn [sweep_list]; [apply pres_ret |].
  apply pres_bind; [| auto]. unfold sweep_one, count_str_freed. pres_tac.
Qed.

Lemma pres_sweep : preserves (H := H) hal_sweep.
Proof. unfold hal_sweep. pres_tac. apply pres_sweep_list. Qed.

Lemma pres_export xf name : preserves (H := H) (halg_export_xfunctfv xf name).
Proof.
  unfold halg_export_xfunctfv, halpr_find_funct_by_name, halpr_find_inst_by_id, set_funct, halx_pin_s32_newf, halx_pin_bit_newf, halx_pin_newf, halxd_pin_newf.
  pres_tac; apply pres_pin_new.
Qed.

Lemma pres_ready id : preserves (H := H) (halg_ready id).
Proof. unfold halg_ready, halpr_find_comp_by_id. pres_tac. Qed.

(** The segment has a version, so it is not initialized again. *)
Lemma pres_attach id : preserves (H := H) (attach_hal_shm id).
Proof.
  unfold attach_hal_shm. pres_tac. intros s Hs. unfold init_hal_data, mbind, M_bind, hal_data.
  destruct (hs_init s); [| done]. pose proof (sn_version _ Hs) as Hv. apply Z.eqb_neq in Hv as ->. cbn [negb]. by case_match.
Qed.

Lemma pres_xinitfv hallib type u1 u2 ctor dtor fmt name : preserves (H := H) hallib -> preserves (H := H) (xinitfv_body hallib type u1 u2 ctor dtor fmt name).
Proof.
  intros Hh. unfold xinitfv_body, halpr_find_comp_by_name, halg_export_xfunctf, rtapi_init, rtapi_next_handle.
  pres_tac; auto using pres_attach, pres_export, pres_ready.
Qed.

Lemma pres_xinit type u1 u2 ctor dtor name : preserves (H := H) (hal_xinit type u1 u2 ctor dtor name).
Proof.
  unfold hal_xinit, halg_xinitf, halg_xinitfv, init_hallib. pres_tac. apply pres_xinitfv, pres_xinitfv, pres_crash.
Qed.

Lemma pres_inst_create name comp size : preserves (H := H) (halg_inst_create name comp size).
Proof. unfold halg_inst_create. pres_tac. Qed.
End KeepsApi.

(** ** Components, instances and functs

    They are not looked at by links, so that a new one, and a change of the
    body of one, preserves [link_inv]. *)
Section Creation.
Context {H : Type} {HA : Allocator H} {HS : AllocatorSpec H} {PF : Platform} {SM : SharedMemory}.
Implicit Types s : hal_state H.

Definition unlinkable (b : hal_body) : Prop := body_type b <> HAL_PIN /\ body_type b <> HAL_SIGNAL.

(** Only fields that the invariant does not mention. *)
Lemma link_inv_fields s s' : link_inv s -> hs_init s' = hs_init s -> hs_objs s' = hs_objs s -> hs_halobjects s' = hs_halobjects s ->
  heap_ok s' -> hs_heap s' = hs_heap s -> hs_gheap s' = hs_gheap s -> link_inv s'.
Proof.
  intros [Hw Hs Hp Hq Hins Hpins Hsigs] Ei Eo El Hh Ehp Eg.
  assert (forall t, type_names s' t = type_names s t) as Hn by (intros; unfold type_names; by rewrite Eo, El).
  assert (forall id, resolves s id -> resolves s' id) as Hres by (intros id; unfold resolves; by rewrite Eo, El).
  split; rewrite ?Hn; try done.
  - destruct Hw. unfold listed in *. split; unfold listed; rewrite ?Ei, ?Eo, ?El, ?Ehp, ?Eg; done.
  - intros t. rewrite Hn. apply Hs.
  - unfold insts_ok. rewrite Eo, El. exact Hins.
  - intros o h p. rewrite Eo. intros Ho. destruct (Hpins _ _ _ Ho) as [? ? ? Hlink]. split; auto. unfold pin_linked. by rewrite Eo, El.
  - intros o h sg. rewrite Eo, El. intros Hin Ho. destruct (Hsigs _ _ _ Hin Ho). split; rewrite ?Eo, ?El; done.
Qed.

Lemma link_inv_body s o h b b' : link_inv s -> hs_objs s !! o = Some (HalObj h b) -> body_type b' = body_type b -> unlinkable b ->
  link_inv (set_objs (<[o := HalObj h b']> (hs_objs s)) s).
Proof.
  intros [Hw Hs Hp Hq Hins Hpins Hsigs] Ho Hty [Hnp Hns]. set (s' := set_objs _ s).
  assert (same_key (HalObj h b) (HalObj h b')) as Hk by (repeat split; done).
  assert (forall t, type_names s' t = type_names s t) as Hn by (intros t; by eapply type_names_insert).
  assert (forall x hx bx, body_type bx = HAL_PIN \/ body_type bx = HAL_SIGNAL ->
    hs_objs s' !! x = Some (HalObj hx bx) <-> hs_objs s !! x = Some (HalObj hx bx)) as Hsame.
  { intros x hx bx Hbx. unfold s'. simpl. destruct (decide (x = o)) as [-> |]; [| by rewrite lookup_insert_ne].
    rewrite lookup_insert_eq, Ho. split; intros [= -> <-]; destruct Hbx; congruence. }
  assert (forall f sig l, total f (hs_objs s') sig l = total f (hs_objs s) sig l) as Htot.
  { intros f sig l. apply total_ext. intros x _. unfold contrib, s'. simpl. destruct (decide (x = o)) as [-> |]; [| by rewrite lookup_insert_ne].
    rewrite lookup_insert_eq, Ho. destruct b, b'; try done. }
  split; rewrite ?Hn; try done.
  - by eapply wf_insert.
  - intros t. rewrite Hn. apply Hs.
  - eapply insts_ok_insert; [exact Ho | done | | done]. intros h' i [= -> ->].
    destruct b; try discriminate Hty. eauto.
  - intros x hx p Hx. apply Hsame in Hx; [| by left]. destruct (Hpins _ _ _ Hx) as [Hd Hlg Hoo Hlink]. split; [done | done | |].
    + intros Hv Hl. eapply resolves_insert; [exact Ho | done | auto].
    + destruct Hlink as [| (sig & Hs1 & Hs2 & Hs3 & Hs4 & Hs5 & hs & sg & Hs6 & Hs7 & Hs8)]; [by left | right].
      exists sig. repeat split; try done. exists hs, sg. split; [apply Hsame; [by right | done] | done].
  - intros x hx sg Hin Hx. apply Hsame in Hx; [| by right]. destruct (Hsigs _ _ _ Hin Hx). split; simpl; rewrite ?Htot; done.
Qed.

(** No descriptor is lost or changed; none is lost. *)
Definition grows s s' : Prop := forall o ob, hs_objs s !! o = Some ob -> hs_objs s' !! o = Some ob.
Definition known s s' : Prop := forall o, is_Some (hs_objs s !! o) -> is_Some (hs_objs s' !! o).

Lemma grows_refl s s' : hs_objs s' = hs_objs s -> grows s s'.
Proof. intros Eo o ob. by rewrite Eo. Qed.

Lemma grows_new s s' new ob : hs_objs s !! new = None -> hs_objs s' = <[new := ob]> (hs_objs s) -> grows s s'.
Proof. intros Hn Eo o xob Ho. rewrite Eo, lookup_insert_ne; [done |]. intros ->. congruence. Qed.

Lemma grows_known s s' : grows s s' -> known s s'.
Proof. intros Hg o [ob Ho]. eauto. Qed.

Lemma known_trans s1 s2 s3 : known s1 s2 -> known s2 s3 -> known s1 s3.
Proof. unfold known. auto. Qed.

(** What an unlisted descriptor holds does not matter for [wf]. *)
Lemma wf_reset s0 m new ob ob' : wf (set_objs (<[new := ob]> m) s0) -> hh_name (o_hdr ob') = hh_name (o_hdr ob) ->
  wf (set_objs (<[new := ob']> m) s0).
Proof.
  intros Hw Hn. eapply (wf_insert _ new ob ob') in Hw; [| apply lookup_insert_eq | done]. simpl in Hw. by rewrite insert_insert_eq in Hw.
Qed.

(** Listing a new descriptor that is neither a pin nor a signal. *)
Lemma wp_list_new s s0 new ob (Q : unit -> hal_state H -> Prop) E :
  link_inv s -> world s0 = world s -> hs_objs s !! new = None -> (new ∉ hs_halobjects s) ->
  wf (set_objs (<[new := ob]> (hs_objs s)) s0) -> hh_valid (o_hdr ob) = true -> unlinkable (o_body ob) -> hh_get_object_type ob <> 0 ->
  new_ok s new ob ->
  (forall s', link_inv s' -> hs_objs s' = <[new := ob]> (hs_objs s) -> Q tt s') ->
  wp (halg_add_object new) Q E (set_objs (<[new := ob]> (hs_objs s)) s0).
Proof.
  intros Hl Hwd Hno Hnl Hwf Hv [Hnp Hns] Ht Hok HQ. destruct (world_eqs _ _ Hwd) as (_ & Eo & El & _).
  eapply (wp_add_object new ob); [exact Hwf | apply lookup_insert_eq | simpl; by rewrite El | done |].
  apply HQ; [| done]. apply (link_inv_add s _ new ob); try done.
  - apply (wf_objs _ Hwf). simpl. rewrite lookup_insert_eq. eauto.
  - intros [|]; done.
Qed.

(** *** Functs *)
Lemma fmt_noargs_length n : forall a t, (String.length a < n)%nat -> fmt_noargs a = Some t -> (String.length t <= String.length a)%nat.
Proof.
  induction n as [| n IH]; intros a t Hn Ha; [lia |]. destruct a as [| c a]; cbn [fmt_noargs] in Ha; [by injection Ha as <- |]. cbn [String.length] in *.
  destruct (Ascii.eqb c percent).
  - destruct a as [| c' a]; [done |]. destruct (Ascii.eqb c' percent); [| done]. apply fmap_Some in Ha as (a' & Ha & ->).
    cbn [String.length] in *. specialize (IH a a' ltac:(lia) Ha). lia.
  - apply fmap_Some in Ha as (a' & Ha & ->). cbn [String.length]. specialize (IH a a' ltac:(lia) Ha). lia.
Qed.

Lemma fmt_noargs_app a b : fmt_noargs a = Some a -> fmt_noargs b = Some b -> fmt_noargs (a ++ b) = Some (a ++ b)%string.
Proof.
  intros Ha Hb. induction a as [| c a IH]; [done |]. cbn [fmt_noargs] in Ha. destruct (Ascii.eqb c percent) eqn:Ec.
  - exfalso. destruct a as [| c' a]; [done |]. destruct (Ascii.eqb c' percent); [| done].
    apply fmap_Some in Ha as (a' & Ha & E). injection E as <-.
    pose proof (fmt_noargs_length (S (String.length a)) a _ ltac:(lia) Ha) as Hlen. cbn [String.length] in Hlen. lia.
  - apply fmap_Some in Ha as (a' & Ha & E). injection E as <-.
    change (String c a ++ b)%string with (String c (a ++ b)). cbn [fmt_noargs]. by rewrite Ec, IH.
Qed.

Lemma length_string_app a b : String.length (a ++ b) = (String.length a + String.length b)%nat.
Proof.
  induction a as [| c a IH]; [done |]. change (String c a ++ b)%string with (String c (a ++ b)). cbn [String.length]. rewrite IH. lia.
Qed.

(** The names of the pins of a funct. *)
Lemma plain_suffix name suffix : fmt_noargs name = Some name -> Z.of_nat (String.length name) <= HAL_NAME_LEN -> plain suffix ->
  Z.of_nat (String.length suffix) <= 80 -> plain (name ++ suffix).
Proof.
  unfold HAL_NAME_LEN. intros Hn Hl [Hs _] Hsl. split; [by apply fmt_noargs_app |]. rewrite length_string_app. lia.
Qed.

(** A pin of a funct: its offset, or 0. *)
Lemma wp_funct_pin type dir owner name s (Q : Z -> hal_state H -> Prop) E :
  link_inv s -> plain name -> (forall p s', link_inv s' -> grows s s' -> Q p s') -> wp (halx_pin_newf type dir owner (Some name)) Q E s.
Proof.
  intros Hl Hp HQ. unfold halx_pin_newf, halxd_pin_newf. apply wp_bind, wp_attempt, wp_pin_new; [done | done | by intros [] | |].
  - intros new s' Hl' _ _ _ _ [Hno _ (h & Ho & _) _ _]. apply wp_ret, HQ; [done |]. by eapply grows_new.
  - intros e s' Hl' Ho _. apply wp_ret, HQ; [done | by apply grows_refl].
Qed.

Lemma wp_get_funct' o (Q : hal_funct -> hal_state H -> Prop) E s h x :
  hs_objs s !! o = Some (HalObj h (BFunct x)) -> Q x s -> wp (get_funct o) Q E s.
Proof. intros Ho HQ. apply wp_bind. eapply wp_get_obj; [done |]. by apply wp_ret. Qed.

(** One step of the export: a pin, whose offset goes into the funct. *)
Lemma wp_export_pin type dir owner name upd nf h f s0 s (Q : unit -> hal_state H -> Prop) E :
  link_inv s -> hs_objs s !! nf = Some (HalObj h (BFunct f)) -> known s0 s -> plain name ->
  (forall s' f', link_inv s' -> hs_objs s' !! nf = Some (HalObj h (BFunct f')) -> known s0 s' -> Q tt s') ->
  wp (p ← halx_pin_newf type dir owner (Some name); f ← get_funct nf; set_funct nf (upd p f)) Q E s.
Proof.
  intros Hl Ho Hk Hp Hnext. apply wp_bind, wp_funct_pin; [done | done |]. intros p s1 Hl1 Hg.
  apply wp_bind. eapply wp_get_funct'; [by apply Hg |]. unfold set_funct. eapply wp_set_body; [by apply Hg |]. cbn [o_hdr].
  eapply (Hnext _ (upd p f)).
  - by eapply link_inv_body; [done | by apply Hg | |].
  - simpl. apply lookup_insert_eq.
  - eapply known_trans; [exact Hk |]. intros o' [ob Ho']. simpl. destruct (decide (o' = nf)) as [-> |]; [rewrite lookup_insert_eq; eauto |].
    rewrite lookup_insert_ne by done. eauto.
Qed.

Lemma wp_bind3 {A B C D} (m : M (hal_state H) A) (f : A -> M (hal_state H) B) (g : A -> B -> M (hal_state H) C)
    (k : C -> M (hal_state H) D) Q E s :
  wp (x ← m; y ← f x; g x y) (fun c => wp (k c) Q E) E s -> wp (x ← m; y ← f x; g x y ≫= k) Q E s.
Proof.
  unfold wp, mbind, M_bind. destruct (m s) as [[x | |] s1]; try done. destruct (f x s1) as [[y | |] s2]; try done. by destruct (g x y s2) as [[] s3].
Qed.

Lemma wp_export xf name s (Q : Z -> hal_state H -> Prop) (E : Z -> hal_state H -> Prop) :
  link_inv s -> fmt_noargs name = Some name ->
  (forall s', link_inv s' -> known s s' -> Q 0 s') -> (forall e s', link_inv s' -> known s s' -> E e s') ->
  wp (halg_export_xfunctfv xf name) Q E s.
Proof.
  intros Hl Hfmt HQ HE. unfold halg_export_xfunctfv, vsnprintf.
  assert (forall rc, E (- rc) (set_halerrno (- rc) s)) as Hfail by (intros; apply HE; [by apply link_inv_errno | by intros o]).
  apply wp_bind, wp_check_haldata; [apply Hl |]. apply wp_bind, wp_check_lock; [apply Hl | intros _ | auto].
  destruct (HAL_NAME_LEN <? Z.of_nat (String.length name)) eqn:Elen; [apply wp_halfail; auto |]. zb.
  assert (Z.of_nat (String.length name) <= 41) as Hlen by exact Elen. rewrite substring_all by (unfold HAL_NAME_LEN; lia).
  apply wp_bind, wp_find_by_name; [apply Hl | apply Hl |]. destruct (find_obj _ s) as [dup |]; [apply wp_halfail; auto |].
  destruct (owning_comp_total s (xf_owner_id xf) (li_insts _ Hl)) as (r & Hr & Hcb & _).
  apply wp_bind. eapply wp_find_owning_comp; [apply Hl | apply Hl | exact Hr |]. destruct r as [c |]; [| apply wp_halfail; auto].
  destruct (Hcb c eq_refl) as (hc & cb & Hc). apply wp_bind. eapply wp_get_comp; [exact Hc |].
  destruct (c_type cb =? TYPE_USER); [apply wp_halfail; auto |].
  apply wp_bind, wp_find_by_id; [apply Hl | apply Hl |].
  destruct (match find_obj _ s with None => _ | Some _ => _ end); [apply wp_halfail; auto |].
  apply wp_bind. eapply wp_create_object; [apply Hl | exact Hfmt | |].
  2:{ intros e s1 Hw Hwf. destruct (world_eqs _ _ Hw) as (_ & Eo & _). apply HE; [by eapply link_inv_world |]. intros o. by rewrite Eo. }
  intros nf s1 (id & np & s0 & Hw0 & Hno & Hnl & Hwf1 & ->).
  apply wp_bind. unfold set_funct at 1. eapply wp_set_body; [apply lookup_insert_eq |]. cbn [o_hdr]. simpl. rewrite insert_insert_eq.
  set (f := HalFunct _ _ _ _ _ _ _ _ _). set (hd := new_hdr id _ np name) in *.
  apply wp_bind, (wp_list_new s s0 nf (HalObj hd (BFunct f))); try done; [by eapply wf_reset |].
  intros s2 Hl2 Eo. assert (known s s2) as Hk by (by eapply grows_known, grows_new).
  assert (hs_objs s2 !! nf = Some (HalObj hd (BFunct f))) as Ho by (rewrite Eo; apply lookup_insert_eq).
  assert (forall suffix, plain suffix -> Z.of_nat (String.length suffix) <= 80 -> plain (name ++ suffix)) as Hplain
    by (intros; by apply plain_suffix).
  apply wp_bind. case_match; [| apply wp_ret, wp_ret; by apply HQ].
  unfold halx_pin_s32_newf, halx_pin_bit_newf.
  apply wp_bind3. eapply (wp_export_pin _ _ _ _ (fun p f => funct_set_pins f p (f_maxtime f) (f_maxtime_increased f))); [done | exact Ho | exact Hk | by apply Hplain |].
  intros s3 f3 Hl3 Ho3 Hk3.
  apply wp_bind3. eapply (wp_export_pin _ _ _ _ (fun p f => funct_set_pins f (f_runtime f) p (f_maxtime_increased f))); [done | exact Ho3 | exact Hk3 | by apply Hplain |].
  intros s4 f4 Hl4 Ho4 Hk4.
  eapply (wp_export_pin _ _ _ _ (fun p f => funct_set_pins f (f_runtime f) (f_maxtime f) p)); [done | exact Ho4 | exact Hk4 | by apply Hplain |].
  intros s5 f5 Hl5 _ Hk5. apply wp_ret. by apply HQ.
Qed.

(** *** Components *)
Lemma wp_ready id s (Q : Z -> hal_state H -> Prop) (E : Z -> hal_state H -> Prop) :
  link_inv s -> (forall s', link_inv s' -> known s s' -> Q 0 s') -> (forall e, E e (set_halerrno e s)) -> wp (halg_ready id) Q E s.
Proof.
  intros Hl HQ HE. unfold halg_ready. apply wp_bind, wp_find_by_id; [apply Hl | apply Hl |].
  destruct (find_obj _ s) as [c |] eqn:Ec; [| by apply wp_halfail].
  apply find_obj_some in Ec as (_ & [h b] & Ho & Hsel). apply sel_id_type in Hsel as [_ Ht]; [| done].
  apply body_comp in Ht as [cb Hb]. cbn in Hb. subst b. apply wp_bind. eapply wp_get_comp; [exact Ho |].
  case_match; [by apply wp_halfail |]. apply wp_bind. eapply wp_set_body; [exact Ho |]. apply wp_ret. apply HQ.
  - by eapply link_inv_body.
  - intros o' Hs. simpl. destruct (decide (o' = c)) as [-> |]; [rewrite lookup_insert_eq; eauto | by rewrite lookup_insert_ne].
Qed.

Lemma link_inv_handle s n : link_inv s -> link_inv (set_next_handle n s).
Proof. intros Hl. apply (link_inv_fields s); try done. apply Hl. Qed.

Lemma link_inv_lib s n : link_inv s -> link_inv (set_lib_module_id n s).
Proof. intros Hl. apply (link_inv_fields s); try done. apply Hl. Qed.

(** The segment is mapped, and it has been initialized. *)
Lemma wp_attach id s (Q : unit -> hal_state H -> Prop) (E : Z -> hal_state H -> Prop) :
  link_inv s -> hs_version s <> 0 -> Q tt (set_lib_module_id id s) -> (forall e s', link_inv s' -> E e s') -> wp (attach_hal_shm id) Q E s.
Proof.
  intros Hl Hv HQ HE. unfold attach_hal_shm. case_match; [by apply wp_halfail, HE, link_inv_errno |].
  case_match; [by apply wp_halfail, HE, link_inv_errno |]. apply wp_bind, wp_modify.
  assert (hs_init s = true) as Hi by apply Hl.
  match goal with |- wp _ _ _ ?s1 => assert (s1 = s) as -> by (destruct s; simpl in *; by subst) end.
  apply wp_bind, wp_attempt. unfold init_hal_data. apply wp_bind, wp_hal_data; [done |].
  apply Z.eqb_neq in Hv as ->. cbn [negb]. case_match; [apply wp_ret, wp_modify, HQ |].
  apply wp_raise, wp_bind, wp_modify, wp_halfail, HE, link_inv_errno. by apply link_inv_lib.
Qed.

(** The last part of [xinitfv_body]: the descriptor, and the functs of the
    library component. *)
Definition new_comp (type u1 u2 : Z) (ctor dtor : option Z) (name : string) (comp_id : Z) : M (hal_state H) Z :=
  comp ← halg_create_objectf HAL_COMPONENT 0 name;
  upd_hdr comp (fun h => hh_set_id h comp_id) ≫= fun _ =>
  set_body comp (BComp (HalComp type COMP_INITIALIZING hal_shmem_base 0 0 0 0 ctor dtor 0 u1 u2)) ≫= fun _ =>
  halg_add_object comp ≫= fun _ =>
  (if type =? TYPE_HALLIB then
     s ← get;
     let lib := hs_lib_module_id s in
     halg_export_xfunctf (userfunct create_instance_ptr lib) "newinst" ≫= fun _ =>
     halg_export_xfunctf (userfunct delete_instance_ptr lib) "delinst" ≫= fun _ =>
     halg_ready lib ≫= fun _ => mret tt
   else mret tt) ≫= fun _ =>
  mret comp.

(** The part before it, from the handle on. *)
Definition find_comp (type u1 u2 : Z) (ctor dtor : option Z) (name : string) (comp_id : Z) : M (hal_state H) Z :=
  s ← get;
  if hs_lib_module_id s <? 0 then halfail (hs_lib_module_id s)
  else
  dup ← halpr_find_comp_by_name name;
  match dup with
  | Some _ => halfail EBUSY
  | None => new_comp type u1 u2 ctor dtor name comp_id
  end.

Definition attach_comp (type u1 u2 : Z) (ctor dtor : option Z) (name : string) : M (hal_state H) Z :=
  comp_id ← rtapi_init;
  if comp_id <? 0 then halfail comp_id
  else
  s ← get;
  (if (hs_lib_module_id s <? 0) && (type =? TYPE_HALLIB) then attach_hal_shm comp_id else mret tt) ≫= fun _ =>
  find_comp type u1 u2 ctor dtor name comp_id.

Section Comp.
Context (type u1 u2 : Z) (ctor dtor : option Z) (name : string) (Hfmt : fmt_noargs name = Some name).
Context (Q : Z -> hal_state H -> Prop) (E : Z -> hal_state H -> Prop).
Hypothesis HQ : forall c s', link_inv s' -> is_Some (hs_objs s' !! c) -> Q c s'.
Hypothesis HE : forall e s', link_inv s' -> E e s'.

Lemma wp_fail_inv {A} rc s (Q' : A -> hal_state H -> Prop) : link_inv s -> wp (halfail rc) Q' E s.
Proof. intros Hl. by apply wp_halfail, HE, link_inv_errno. Qed.

Lemma wp_new_comp comp_id s : link_inv s -> wp (new_comp type u1 u2 ctor dtor name comp_id) Q E s.
Proof.
  intros Hl. apply wp_bind. eapply wp_create_object; [apply Hl | exact Hfmt | |].
  2:{ intros e s1 Hw Hwf. apply HE. by eapply link_inv_world. }
  intros c s1 (id & np & s0 & Hw0 & Hno & Hnl & Hwf1 & ->).
  apply wp_bind. eapply wp_upd_hdr; [apply lookup_insert_eq |]. cbn [o_hdr o_body]. simpl. rewrite insert_insert_eq.
  apply wp_bind. eapply wp_set_body; [apply lookup_insert_eq |]. cbn [o_hdr]. simpl. rewrite insert_insert_eq.
  apply wp_bind. eapply (wp_list_new s s0 c); try done; [by eapply wf_reset |].
  intros s2 Hl2 Eo. assert (is_Some (hs_objs s2 !! c)) as Hc by (rewrite Eo, lookup_insert_eq; eauto).
  apply wp_bind. case_match; [| by apply wp_ret, wp_ret, HQ].
  apply wp_bind, wp_get. unfold halg_export_xfunctf.
  apply wp_bind, wp_export; [done | done | | auto]. intros s3 Hl3 Hk3.
  apply wp_bind, wp_export; [done | done | | auto]. intros s4 Hl4 Hk4.
  apply wp_bind, wp_ready; [done | | intros; by apply HE, link_inv_errno]. intros s5 Hl5 Hk5. apply wp_ret, wp_ret, HQ; auto.
Qed.

Lemma wp_find_comp comp_id s : link_inv s -> wp (find_comp type u1 u2 ctor dtor name comp_id) Q E s.
Proof.
  intros Hl. apply wp_bind, wp_get. case_match; [by apply wp_fail_inv |].
  apply wp_bind, wp_find_by_name; [apply Hl | apply Hl |]. destruct (find_obj _ s) as [dup |]; [by apply wp_fail_inv | by apply wp_new_comp].
Qed.

Lemma wp_attach_comp s : link_inv s -> (type = TYPE_HALLIB -> hs_version s <> 0) -> wp (attach_comp type u1 u2 ctor dtor name) Q E s.
Proof.
  intros Hl Hv. apply wp_bind. unfold rtapi_init, rtapi_next_handle. apply wp_bind, wp_get, wp_bind, wp_modify, wp_ret.
  apply link_inv_handle with (n := s32 (hs_next_handle s + 1)) in Hl. case_match; [by apply wp_fail_inv |].
  apply wp_bind, wp_get, wp_bind. destruct (_ && _) eqn:Ecase; [| by apply wp_ret, wp_find_comp].
  apply andb_true_iff in Ecase as [_ Ety]. zb. apply wp_attach; [done | by apply Hv | by apply wp_find_comp, link_inv_lib | exact HE].
Qed.

Lemma wp_xinitfv hallib fmt s : link_inv s -> hs_version s <> 0 -> plain name ->
  (type <> TYPE_HALLIB -> wp hallib (fun _ s' => link_inv s') (fun _ s' => link_inv s') s) ->
  wp (xinitfv_body hallib type u1 u2 ctor dtor fmt name) Q E s.
Proof.
  intros Hl Hv Hplain Hlib. unfold xinitfv_body. apply wp_bind. destruct fmt as [fmt |]; [apply wp_ret | by apply wp_fail_inv].
  apply wp_bind. unfold PCHECK_STRLEN. case_match; [by apply wp_fail_inv | apply wp_ret].
  apply wp_bind, wp_fmt_ap_plain; [done | unfold HAL_MAX_NAME_LEN; lia |].
  assert (wp (s ← get; (if (hs_lib_module_id s <? 0) && negb (type =? TYPE_HALLIB) then hallib ≫= fun _ => mret tt else mret tt) ≫= fun _ =>
      attach_comp type u1 u2 ctor dtor name) Q E s) as Hrest.
  { apply wp_bind, wp_get, wp_bind. destruct (_ && _) eqn:Elib; [| by apply wp_ret, wp_attach_comp].
    apply andb_true_iff in Elib as [_ Ety]. apply negb_true_iff in Ety. zb. apply wp_bind.
    eapply wp_mono; [by apply Hlib | intros x s1 Hl1; by apply wp_ret, wp_attach_comp | exact HE]. }
  clear Hlib. destruct dtor, ctor; first [exact Hrest | by apply wp_fail_inv].
Qed.
End Comp.

Lemma wp_xinit type u1 u2 ctor dtor name s (Q : Z -> hal_state H -> Prop) (E : Z -> hal_state H -> Prop) :
  link_inv s -> hs_version s <> 0 -> plain name -> (forall r s', link_inv s' -> Q r s') -> wp (hal_xinit type u1 u2 ctor dtor name) Q E s.
Proof.
  intros Hl Hv Hp HQ. unfold hal_xinit, halg_xinitf, halg_xinitfv. apply wp_bind, wp_attempt. apply wp_xinitfv; try done; [apply Hp | | |].
  - intros c s' Hl' [ob Ho]. apply wp_bind. eapply wp_get_obj; [exact Ho |]. by apply wp_ret, HQ.
  - intros e s' Hl'. by apply wp_bind, wp_get, wp_ret, HQ.
  - intros _. apply wp_xinitfv; done.
Qed.

(** *** Instances *)
Lemma wp_shmalloc_rt size s (Q : Z -> hal_state H -> Prop) (E : Z -> hal_state H -> Prop) :
  hs_init s = true -> heap_ok s -> 0 <= size < 2 ^ 62 ->
  (forall p s', world s' = world s -> heap_ok s' -> hs_heap s' = hs_heap s -> hs_gheap s' = hs_gheap s -> Q p s') ->
  (forall e, E e (set_halerrno e s)) -> wp (shmalloc_rt size) Q E s.
Proof.
  intros Hi [Hwf Hroom] Hs HQ HE. pose proof (h_room_bounds _ _ _ Hroom) as Hb. unfold wp. rewrite shmalloc_rt_run by done. cbv zeta.
  destruct (rt_block s size <? hs_shmem_bot s) eqn:Ert; [by apply HE |]. zb. apply HQ; try done. split; [done |]. simpl. eapply h_room_shrink; [exact Hroom |].
  destruct (rt_block_bounds s size ltac:(lia)) as [? _]. lia.
Qed.

(** The state with a descriptor that is not listed, after the memory of the
    instance was taken. *)
Lemma wf_same_heap s s' : wf s -> world s' = world s -> heap_ok s' -> hs_heap s' = hs_heap s -> hs_gheap s' = hs_gheap s -> wf s'.
Proof.
  intros Hw Hwd Hh Ehp Eg. apply (wf_world s); [exact Hw | exact Hwd | exact Hh | rewrite Eg; apply Hw | | by rewrite Eg].
  intros o Ho. rewrite Ehp. by apply (wf_objs _ Hw).
Qed.

Lemma set_objs_world s0 s m : world s = world (set_objs m s0) -> exists s1, s = set_objs m s1 /\ world s1 = world s0 /\ hs_version s1 = hs_version s.
Proof.
  intros Hw. exists (set_objs (hs_objs s0) s). destruct (world_eqs _ _ Hw) as (Ei & Eo & El & Ec & Ek & Et & Ef & Efe & Elib). simpl in *.
  split; [destruct s; simpl in *; by subst |]. split; [| done]. unfold world. simpl. congruence.
Qed.

Lemma wp_inst_create name comp_id size s (Q : Z * option Z -> hal_state H -> Prop) (E : Z -> hal_state H -> Prop) :
  link_inv s -> (forall o ob, hs_objs s !! o = Some ob -> short_id ob) -> (forall n, name = Some n -> plain n) -> size < 2 ^ 31 ->
  (forall r s', link_inv s' -> Q r s') -> (forall e s', link_inv s' -> E e s') ->
  wp (halg_inst_create name comp_id size) Q E s.
Proof.
  intros Hl Hshort Hplain Hsz HQ HE. unfold halg_inst_create.
  apply wp_bind, wp_check_haldata; [apply Hl |]. apply wp_bind. unfold CHECK_STR. destruct name as [name |]; [| by apply wp_raise, HE]. apply wp_ret.
  destruct (Hplain name eq_refl) as [Hfmt _]. apply wp_bind, wp_find_by_id; [apply Hl | apply Hl |].
  destruct (find_obj _ s) as [c |] eqn:Ec; [| by apply wp_fail_inv].
  apply find_obj_some in Ec as (Hcl & cob & Hc & Hsel). pose proof Hsel as [Hcv Hct]%sel_id_type; [| done].
  apply wp_bind, wp_find_by_name; [apply Hl | apply Hl |]. destruct (find_obj _ s) as [dup |]; [by apply wp_fail_inv |].
  apply wp_bind. eapply wp_get_obj; [exact Hc |]. apply wp_bind. eapply wp_create_object; [apply Hl | exact Hfmt | |].
  2:{ intros e s1 Hw Hwf. apply HE. by eapply link_inv_world. }
  intros o s1 (id & np & s0 & Hw0 & Hno & Hnl & Hwf1 & ->). set (hd := new_hdr id _ np name) in *.
  assert (forall s2, world s2 = world (set_objs (<[o := HalObj hd (zero_body HAL_INST)]> (hs_objs s)) s0) -> wf s2 -> forall e, link_inv (set_halerrno e s2)) as Hleft.
  { intros s2 Hw2 Hwf2 e. destruct (world_eqs _ _ Hw2) as (_ & Eo & El & _). destruct (world_eqs _ _ Hw0) as (_ & _ & El0 & _). apply link_inv_errno.
    eapply (link_inv_unlisted s _ o); [done | done | done | done | exact Eo | simpl in El; congruence | done]. }
  assert (forall m s2, world s2 = world (set_objs (<[o := HalObj hd (zero_body HAL_INST)]> (hs_objs s)) s0) -> wf s2 ->
    wp (set_body o (BInst (HalInst m size None)) ≫= fun _ => halg_add_object o ≫= fun _ => ob ← get_obj o; mret (hh_id (o_hdr ob), m)) Q E s2) as Hend.
  { intros m s2 Hw2 Hwf2. destruct (set_objs_world _ _ _ Hw2) as (s3 & -> & Hw3 & _). apply wp_bind. eapply wp_set_body; [apply lookup_insert_eq |].
    cbn [o_hdr]. simpl. rewrite insert_insert_eq. apply wp_bind. eapply (wp_list_new s s3 o); try done; [congruence | by eapply wf_reset | | ].
    - exists c, cob. split; [done |]. split; [done |]. unfold hd. cbn [o_hdr new_hdr hh_owner_id]. rewrite (Hshort c cob Hc).
      unfold sel_ok, match_hdr, match_name, match_field. simpl. by rewrite Hcv, Hct, Z.eqb_refl, orb_true_r.
    - intros s4 Hl4 Eo4. apply wp_bind. eapply wp_get_obj; [rewrite Eo4; apply lookup_insert_eq |]. by apply wp_ret, HQ. }
  apply wp_bind. destruct (0 <? size) eqn:E0; zb; [| by apply wp_ret, Hend].
  apply wp_bind, wp_attempt, wp_shmalloc_rt; [apply Hwf1 | apply Hwf1 | lia | |].
  - intros p s2 Hw2 Hh2 Ehp Eg. apply wp_ret, Hend; [done |]. by eapply wf_same_heap.
  - intros e. apply wp_halfail, HE. change (link_inv (set_halerrno (- ENOMEM) (set_halerrno e (set_objs (<[o := HalObj hd (zero_body HAL_INST)]> (hs_objs s)) s0)))).
    by apply link_inv_errno, Hleft.
Qed.
End Creation.

(** ** The transition system *)
Section Reach.
Context {H : Type} {HA : Allocator H} {HS : AllocatorSpec H} {PF : Platform} {SM : SharedMemory}.
Implicit Types s : hal_state H.
Abbreviation HM := (M (hal_state H)).

(** The calls of the API; names may be NULL. *)
Inductive hal_op : Type :=
| OPinNew (type dir : Z) (cell : option Z) (owner : Z) (defval : hal_data_u) (name : option string)
| OSignalNew (name : option string) (type : Z)
| OLink (pin sig : option string)
| OUnlink (pin : option string)
| OSignalDelete (name : option string)
| OSetBarriers (name : option string) (rmb wmb : Z)
| OSetLock (lock : Z)
| OSweep
| OCompNew (type userarg1 userarg2 : Z) (ctor dtor : option Z) (name : string)
| OCompReady (comp_id : Z)
| OInstNew (name : option string) (comp_id size : Z)
| OFunctNew (xf : hal_export_xfunct_args) (name : string).

Definition run_op (op : hal_op) : HM Z :=
  match op with
  | OPinNew type dir cell owner defval name => halg_pin_newfv type dir cell owner defval name
  | OSignalNew name type => halg_signal_new name type
  | OLink pin sig => halg_link pin sig
  | OUnlink pin => halg_unlink pin
  | OSignalDelete name => halg_signal_delete name
  | OSetBarriers name rmb wmb => halg_signal_setbarriers name rmb wmb
  | OSetLock lock => hal_set_lock lock
  | OSweep => hal_sweep
  | OCompNew type u1 u2 ctor dtor name => hal_xinit type u1 u2 ctor dtor name
  | OCompReady comp_id => halg_ready comp_id
  | OInstNew name comp_id size => r ← halg_inst_create name comp_id size; mret (fst r)
  | OFunctNew xf name => hal_export_xfunctf xf name
  end.

(** New names hold no conversion of printf, and fit; ids of owners of pins
    with a pointer cell are 16-bit; sizes are [int]s. *)
Definition op_ok (op : hal_op) : Prop :=
  match op with
  | OPinNew _ _ cell owner _ name =>
      (forall n, name = Some n -> plain n) /\ (is_Some cell -> s16 owner = owner)
  | OSignalNew name _ => forall n, name = Some n -> plain n
  | OCompNew _ _ _ _ _ name => plain name
  | OInstNew name _ size => (forall n, name = Some n -> plain n) /\ size < 2 ^ 31
  | OFunctNew _ name => fmt_noargs name = Some name
  | _ => True
  end.

(** A call and its effect, successful or not. *)
Inductive hal_step s : hal_op -> hal_state H -> Prop :=
| hal_step_run op r s' : op_ok op -> run_op op s = (r, s') -> r <> Crash -> hal_step s op s'.

Inductive hal_reach s : hal_state H -> Prop :=
| hal_reach_refl : hal_reach s s
| hal_reach_step s1 op s2 : hal_reach s s1 -> hal_step s1 op s2 -> hal_reach s s2.

(** A failing call leaves no trace but the error number. *)
Lemma wp_link_any pn sn s (Q : Z -> hal_state H -> Prop) (E : Z -> hal_state H -> Prop) :
  link_inv s -> (forall s', link_inv s' -> Q 0 s') ->
  (forall e s', link_inv s' -> hs_objs s' = hs_objs s -> hs_halobjects s' = hs_halobjects s -> E e s') ->
  wp (halg_link (Some pn) (Some sn)) Q E s.
Proof.
  intros Hl HQ HE.
  assert (forall rc, E (- rc) (set_halerrno (- rc) s)) as Hfail
    by (intros; apply HE; [by apply link_inv_errno | done | done]).
  destruct (decide (Z.land (hs_lock s) HAL_LOCK_CONFIG = 0)) as [Hlock |].
  2:{ unfold halg_link. apply wp_bind, wp_check_haldata; [apply Hl |].
      by apply wp_bind, wp_check_lock; [apply Hl | | auto]. }
  destruct (decide (Z.of_nat (String.length pn) <= HAL_NAME_LEN)) as [Hpn |].
  2:{ unfold halg_link. apply wp_bind, wp_check_haldata; [apply Hl |].
      apply wp_bind, wp_check_lock; [apply Hl | | done]. intros _.
      apply wp_bind, wp_check_strlen; [by intros ? [= <-] | by intros; apply HE]. }
  destruct (decide (Z.of_nat (String.length sn) <= HAL_NAME_LEN)) as [Hsn |].
  2:{ unfold halg_link. apply wp_bind, wp_check_haldata; [apply Hl |].
      apply wp_bind, wp_check_lock; [apply Hl | | done]. intros _.
      apply wp_bind, wp_check_strlen; [intros ? _ _ | by intros; apply HE].
      apply wp_bind, wp_check_strlen; [by intros ? [= <-] | by intros; apply HE]. }
  destruct (find_obj (sel_ok (sel_type_name HAL_PIN pn)) s) as [o |] eqn:Eo,
    (find_obj (sel_ok (sel_type_name HAL_SIGNAL sn)) s) as [sig |] eqn:Es.
  1:{ pose proof Eo as (_ & [h b] & Ho & Hsel)%find_obj_some.
      apply sel_ok_type_name in Hsel as (_ & Ht & _); [| done].
      apply body_pin in Ht as [p Hp]. simpl in Hp. subst b.
      pose proof Es as (_ & [hs b] & Hsig & Hsel)%find_obj_some.
      apply sel_ok_type_name in Hsel as (_ & Ht & _); [| done].
      apply body_sig in Ht as [sg Hp]. simpl in Hp. subst b.
      eapply wp_link; eauto. }
  all: unfold halg_link; apply wp_bind, wp_check_haldata; [apply Hl |];
    apply wp_bind, wp_check_lock; [apply Hl | intros _ | done];
    apply wp_bind, wp_check_strlen; [intros ? [= <-] _ | by intros; apply HE];
    apply wp_bind, wp_check_strlen; [intros ? [= <-] _ | by intros; apply HE];
    apply wp_bind, wp_find_by_name; [apply Hl | apply Hl |]; rewrite Eo;
    first [ apply wp_halfail; by apply Hfail
          | apply wp_bind, wp_find_by_name; [apply Hl | apply Hl |]; rewrite Es;
            apply wp_halfail; by apply Hfail ].
Qed.

(** A NULL name, or the lock: the state is as it was. *)
Lemma wp_null_name {A} (f : string -> HM A) (ll len : Z) s
    (Q : A -> hal_state H -> Prop) (E : Z -> hal_state H -> Prop) :
  link_inv s -> (forall e s', link_inv s' -> E e s') ->
  wp (CHECK_HALDATA ≫= fun _ => CHECK_LOCK ll ≫= fun _ => n ← CHECK_STRLEN None len; f n) Q E s.
Proof.
  intros Hl HE. apply wp_bind, wp_check_haldata; [apply Hl |].
  apply wp_bind, wp_check_lock; [apply Hl | intros _ | intros _; by apply HE, link_inv_errno].
  apply wp_bind, wp_check_strlen; [done | intros _; by apply HE].
Qed.

Lemma link_inv_lock s l : link_inv s -> link_inv (set_lock l s).
Proof.
  intros [Hw Hs Hp Hq Hins Hpins Hsigs]. split; try done.
  - destruct Hw. by split.
  - intros o h p Ho. destruct (Hpins o h p Ho). by split.
  - intros o h sg Hin Ho. destruct (Hsigs o h sg Hin Ho). by split.
Qed.

(** The invariant of the reachable states. *)
Definition hal_inv s : Prop := link_inv s /\ sane s.

Lemma pres_op op : preserves (run_op op).
Proof.
  destruct op; simpl; auto using pres_pin_new, pres_signal_new, pres_link, pres_unlink, pres_signal_delete, pres_setbarriers,
    pres_sweep, pres_xinit, pres_ready, pres_export.
  - unfold hal_set_lock. pres_tac.
  - apply pres_bind; [apply pres_inst_create | intros; apply pres_ret].
Qed.

Lemma wp_op op s :
  hal_inv s -> op_ok op -> wp (run_op op) (fun _ => link_inv) (fun _ => link_inv) s.
Proof.
  intros [Hl Hsane] Hok. destruct op; simpl in *.
  - destruct Hok as [Hn Hc]. destruct name as [name |].
    + apply wp_pin_new; auto.
    + unfold halg_pin_newfv. apply wp_bind, wp_check_haldata; [apply Hl |].
      apply wp_bind, wp_check_lock; [apply Hl | intros _ | intros _; by apply link_inv_errno].
      apply wp_bind. by apply wp_halfail, link_inv_errno.
  - destruct name as [name |]; [| by apply wp_null_name].
    apply wp_signal_new; eauto.
  - destruct pin as [pn |]; [| by apply wp_null_name].
    destruct sig as [sn |]; [by apply wp_link_any |].
    apply wp_bind, wp_check_haldata; [apply Hl |].
    apply wp_bind, wp_check_lock; [apply Hl | intros _ | intros _; by apply link_inv_errno].
    apply wp_bind, wp_check_strlen; [intros ? _ _ | done].
    by apply wp_bind, wp_check_strlen.
  - destruct pin as [pn |]; [| by apply wp_null_name].
    destruct (decide (Z.land (hs_lock s) HAL_LOCK_CONFIG = 0)) as [Hlock |].
    2:{ apply wp_bind, wp_check_haldata; [apply Hl |].
        by apply wp_bind, wp_check_lock; [apply Hl | | intros; by apply link_inv_errno]. }
    destruct (decide (Z.of_nat (String.length pn) <= HAL_NAME_LEN)) as [Hpn |].
    2:{ apply wp_bind, wp_check_haldata; [apply Hl |].
        apply wp_bind, wp_check_lock; [apply Hl | | done]. intros _.
        apply wp_bind, wp_check_strlen; [by intros ? [= <-] | done]. }
    apply wp_unlink; auto. intros. by apply link_inv_errno.
  - destruct name as [name |]; [by apply wp_signal_delete | by apply wp_null_name].
  - destruct name as [name |]; [by apply wp_signal_setbarriers | by apply wp_null_name].
  - apply wp_bind, wp_check_haldata; [apply Hl |]. by apply wp_bind, wp_modify, wp_ret, link_inv_lock.
  - apply wp_sweep; [done |]. by intros s' [].
  - apply wp_xinit; [done | apply Hsane | done | done].
  - apply wp_ready; [done | done |]. intros. by apply link_inv_errno.
  - destruct Hok as [Hn Hsz]. apply wp_bind, wp_inst_create; [done | apply Hsane | done | done | | done]. intros. by apply wp_ret.
  - apply wp_export; done.
Qed.

Lemma op_inv op s r s' : hal_inv s -> op_ok op -> run_op op s = (r, s') -> r <> Crash /\ hal_inv s'.
Proof.
  intros Hi Hok Hr. pose proof (pres_op op s (proj2 Hi)) as Hs. rewrite Hr in Hs.
  pose proof (wp_op op s Hi Hok) as Hw. eapply wp_run in Hr; [| exact Hw]. by destruct r.
Qed.

Lemma reach_inv s s' : hal_inv s -> hal_reach s s' -> hal_inv s'.
Proof.
  intros Hi. induction 1 as [| s1 op s2 _ IH Hstep]; [done |].
  destruct Hstep as [op r s2 Hok Hr _]. by eapply op_inv.
Qed.

(** Sequences of calls, for concrete states. *)
Fixpoint run_ops (ops : list hal_op) s : hal_state H :=
  match ops with
  | [] => s
  | op :: ops' => run_ops ops' (snd (run_op op s))
  end.

Lemma run_ops_reach ops s0 s : hal_inv s -> hal_reach s0 s -> Forall op_ok ops -> hal_reach s0 (run_ops ops s) /\ hal_inv (run_ops ops s).
Proof.
  intros Hi Hr Hops. revert s Hi Hr. induction Hops as [| op ops Hok _ IH]; intros s Hi Hr; [done |]. cbn [run_ops].
  destruct (op_inv op s _ _ Hi Hok (surjective_pairing _)) as [Hc Hi']. apply IH; [done |].
  eapply hal_reach_step; [exact Hr |]. eapply hal_step_run; [exact Hok | apply surjective_pairing | exact Hc].
Qed.

Lemma run_ops_inv ops s : hal_inv s -> Forall op_ok ops -> hal_inv (run_ops ops s).
Proof. intros Hi Hops. by apply (run_ops_reach ops s s Hi (hal_reach_refl s)). Qed.
End Reach.

(** ** Concrete states *)
#[export] Instance shm0 : SharedMemory := { hal_shmem_new := 1; hal_shmem_getptr := 0 }.

Lemma boot_hal_inv : hal_inv boot.
Proof. split; [apply boot_inv |]. split; [done |]. by intros o ob [_ ->]%boot_lookup. Qed.

Ltac plain_tac := unfold plain; split; [reflexivity | vm_compute; discriminate].

Ltac op_tac := simpl; first [done | plain_tac | intros n [= <-]; plain_tac
  | split; [intros n [= <-]; plain_tac | intros; first [reflexivity | lia]]].

Ltac ops_tac := repeat (first [by apply Forall_nil | apply Forall_cons; split; [op_tac |]]).
