(* ===== verification/HalTheorems.v ===== *)
(** * Theorems about pins, signals and the object list *)
From S2P Require Import Prelude HalData HalMemory HalObject HalObjectFacts HalPin HalSignal HalLinks HalLinkOps HalLinkSteps HalSweep HalBoot HalFunct HalComp HalReach.

Section Theorems.
Context {H : Type} {HA : Allocator H} {HS : AllocatorSpec H} {PF : Platform} {SM : SharedMemory}.
Implicit Types s : hal_state H.

(** ** Values of a type *)
Definition type_width (t : Z) : Z :=
  if t =? HAL_BIT then 8 else if t =? HAL_FLOAT then 64 else 32.

(** A typed copy preserves the value of that type. *)
Lemma copy_value_low t u v x :
  copy_value t u v = Some x -> get_low (type_width t) x = get_low (type_width t) v.
Proof.
  unfold copy_value, type_width.
  destruct (t =? HAL_BIT) eqn:E1; zb.
  { subst. intros [= <-]. unfold set_bit_value, get_bit_value. rewrite get_put_low by lia.
    unfold get_low. apply Zmod_mod. }
  destruct (t =? HAL_S32) eqn:E2; zb.
  { subst. intros [= <-]. simpl. unfold set_s32_value, get_s32_value. rewrite get_put_low by lia.
    rewrite wraps_mod by lia. unfold get_low. apply Zmod_mod. }
  destruct (t =? HAL_U32) eqn:E3; zb.
  { subst. intros [= <-]. simpl. unfold set_u32_value, get_u32_value. rewrite get_put_low by lia.
    unfold get_low. apply Zmod_mod. }
  destruct (t =? HAL_FLOAT) eqn:E4; [| done]. intros [= <-].
  unfold set_float_value, get_float_value. rewrite get_put_low by lia. unfold get_low. apply Zmod_mod.
Qed.

Lemma find_obj_ext f g s : (forall ob, f ob = g ob) -> find_obj f s = find_obj g s.
Proof.
  intros Hfg. unfold find_obj. induction (hs_halobjects s) as [| x l IH]; simpl; [done |].
  rewrite IH. unfold obj_test. destruct (hs_objs s !! x); [by rewrite Hfg | done].
Qed.

(** C1: No sequence of calls that create components, instances, functs, pins
    and signals, make components ready, link, unlink, delete signals, set
    barriers or the lock, or sweep, crashes, and the link invariant holds in
    every reachable state: every linked pin refers to a valid listed signal
    of its own type and reads that signal's value, the reader, writer and
    bidir counters of a signal are the numbers of its linked pins, a signal
    never has two writers nor a writer next to a bidirectional pin, names are
    unique and sorted within their type.  New names have no percent sign and
    at most 126 characters (a name that has one is used as a format, and may
    crash: [percent_signal] and [percent_pin]); the owner of a pin with a
    pointer cell is a 16-bit id, as all ids are; sizes are [int]s. *)
Theorem hal_api_safe s s' :
  hal_inv s -> hal_reach s s' ->
  link_inv s' /\ forall op, op_ok op -> fst (run_op op s') <> Crash.
Proof.
  intros Hi Hr. assert (hal_inv s') as Hi' by (by eapply reach_inv). split; [apply Hi' |].
  intros op Hok. by apply (op_inv op s' _ _ Hi' Hok (surjective_pairing _)).
Qed.


(** halg_unlink leaves the pin with the value it had: the dummy value
    of the pin becomes the value of the signal, the signal's counters lose
    the pin, and no other descriptor changes. *)
Theorem unlink_outcome pn s o h p hs sg r s' :
  link_inv s -> Z.land (hs_lock s) HAL_LOCK_CONFIG = 0 ->
  Z.of_nat (String.length pn) <= HAL_NAME_LEN ->
  find_obj (sel_ok (sel_type_name HAL_PIN pn)) s = Some o ->
  hs_objs s !! o = Some (HalObj h (BPin p)) -> pin_is_linked o p = true ->
  hs_objs s !! p_signal p = Some (HalObj hs (BSig sg)) ->
  halg_unlink (Some pn) s = (r, s') ->
  r = Ok 0 /\
  (exists u, hs_objs s' !! o = Some (HalObj h (BPin (pin_set_unlinked o (pin_set_dummysig p u)))) /\
     get_low (type_width (p_type p)) u = get_low (type_width (p_type p)) (s_value sg)) /\
  hs_objs s' !! p_signal p = Some (HalObj hs (BSig (sig_count (-1) (p_dir p) sg))) /\
  (forall x, x <> o -> x <> p_signal p -> hs_objs s' !! x = hs_objs s !! x).
Proof.
  intros Hl Hlock Hpn Hf Ho Hlk Hsig Hrun.
  assert (o <> p_signal p) as Hne by (intros E; rewrite <- E in Hsig; congruence).
  eapply (wp_run _ (fun r s' => r = 0 /\ exists u C, copy_value (p_type p) (p_dummysig p) (s_value sg) = Some u
      /\ s' = unlinked_state s o h p hs sg u C) (fun _ _ => False)) in Hrun.
  - destruct r as [a | |]; [| done | done]. destruct Hrun as (-> & u & C & Hu & ->).
    split; [done |]. unfold unlinked_state. simpl. split; [| split].
    + exists u. rewrite lookup_insert_eq. split; [done |]. by eapply copy_value_low.
    + rewrite lookup_insert_ne by done. by rewrite lookup_insert_eq.
    + intros x Hx1 Hx2. by rewrite !lookup_insert_ne.
  - apply wp_unlink; [done | done | done | by rewrite Hf | |].
    + rewrite Hf. intros o' h' p' [= <-] Ho' [_ Hu]. rewrite Ho in Ho'. injection Ho' as <- <-.
      unfold pin_is_linked in Hlk. by rewrite bool_decide_true in Hlk.
    + rewrite Hf. intros o' h' p' hs' sg' u C [= <-] Ho' _ Hsig' Hu _ _.
      rewrite Ho in Ho'. injection Ho' as <- <-. rewrite Hsig in Hsig'. injection Hsig' as <- <-.
      eauto.
Qed.

(** halg_pin_newfv either creates the pin, valid, listed, unlinked, with
    the default value, and found by its name, which no pin had before and
    whose owner exists; or it fails and neither the descriptors nor the
    object list change. *)
Theorem pin_new_outcome type dir cell owner defval name s r s' :
  link_inv s -> plain name -> (is_Some cell -> s16 owner = owner) ->
  halg_pin_newfv type dir cell owner defval (Some name) s = (r, s') ->
  match r with
  | Ok new => hal_valid_type type = true /\ hal_valid_dir dir = true /\
      (name ∉ type_names s HAL_PIN) /\ resolves s owner /\
      pin_created s type dir cell owner defval name new s'
  | Err _ => hs_objs s' = hs_objs s /\ hs_halobjects s' = hs_halobjects s
  | Crash => False
  end.
Proof.
  intros Hl Hp Ho Hrun.
  apply (wp_run _ (fun new s' => hal_valid_type type = true /\ hal_valid_dir dir = true /\
      (name ∉ type_names s HAL_PIN) /\ resolves s owner /\
      pin_created s type dir cell owner defval name new s')
    (fun _ s' => hs_objs s' = hs_objs s /\ hs_halobjects s' = hs_halobjects s) _ _ _) in Hrun; [done |].
  apply wp_pin_new; auto 10.
Qed.

(** halg_signal_new either creates the signal with value 0 and no pins,
    found by its name, which no signal had before; or it fails.  With a
    64-bit type it fails and leaves behind a descriptor that is not in the
    object list and is never freed. *)
Theorem signal_new_outcome name type s r s' :
  link_inv s -> plain name ->
  halg_signal_new (Some name) type s = (r, s') ->
  match r with
  | Ok _ => legal_signal_type type = true /\ (name ∉ type_names s HAL_SIGNAL) /\
      exists new, signal_created s type name new s'
  | Err _ => (hs_objs s' = hs_objs s /\ hs_halobjects s' = hs_halobjects s) \/
      (legal_signal_type type = false /\ signal_leaked s s')
  | Crash => False
  end.
Proof.
  intros Hl Hp Hrun.
  apply (wp_run _ (fun _ s' => legal_signal_type type = true /\ (name ∉ type_names s HAL_SIGNAL) /\
      exists new, signal_created s type name new s')
    (fun _ s' => (hs_objs s' = hs_objs s /\ hs_halobjects s' = hs_halobjects s) \/
      (legal_signal_type type = false /\ signal_leaked s s')) _ _ _) in Hrun; [done |].
  apply wp_signal_new; eauto 10.
Qed.

(** halg_signal_delete takes every pin off the signal, each keeping the
    signal's value, before anything else; the signal is then invalidated if
    its reference count is 0, and otherwise the call fails with -EBUSY
    although the pins are unlinked. *)
Theorem signal_delete_outcome name s sig hs sg r s' :
  link_inv s -> Z.land (hs_lock s) HAL_LOCK_CONFIG = 0 ->
  Z.of_nat (String.length name) <= HAL_NAME_LEN ->
  find_obj (sel_ok (sel_type_name HAL_SIGNAL name)) s = Some sig ->
  hs_objs s !! sig = Some (HalObj hs (BSig sg)) ->
  halg_signal_delete (Some name) s = (r, s') ->
  if hh_refcnt hs =? 0 then r = Ok 0 /\ severed s sig (snd (hh_clear_hdr hs)) sg s'
  else r = Err (- EBUSY) /\ severed s sig hs sg s'.
Proof.
  intros Hl Hlock Hn Hf Hsig Hrun.
  eapply (wp_run _ (fun r s' => hh_refcnt hs = 0 /\ r = 0 /\ severed s sig (snd (hh_clear_hdr hs)) sg s')
    (fun e s' => hh_refcnt hs <> 0 /\ e = - EBUSY /\ severed s sig hs sg s')) in Hrun.
  - destruct r as [a | e |]; [| | done]; destruct Hrun as (Hr & -> & Hs).
    + by rewrite Hr.
    + by apply Z.eqb_neq in Hr as ->.
  - unfold halg_signal_delete. apply wp_bind, wp_check_haldata; [apply Hl |].
    apply wp_bind, wp_check_lock; [apply Hl | intros _ | done].
    apply wp_bind, wp_check_strlen; [| intros Hx; specialize (Hx name eq_refl); lia].
    intros n [= <-] _. apply wp_bind, wp_find_by_name; [apply Hl | apply Hl |]. rewrite Hf.
    pose proof Hf as (Hin & _)%find_obj_some.
    apply wp_bind. eapply wp_free_sig; [done | done | exact Hsig | |]; [| done].
    intros. by apply wp_ret.
Qed.

(** Setting the barriers of a signal passes them on to its pins by
    direction: an input pin gets the read barrier, but an output pin whose
    signal has a write barrier gets the value of the signal's read barrier
    as its write barrier; no other descriptor changes. *)
Theorem setbarriers_outcome name rb wb s sig hs sg r s' :
  link_inv s -> Z.land (hs_lock s) HAL_LOCK_CONFIG = 0 ->
  Z.of_nat (String.length name) <= HAL_MAX_NAME_LEN ->
  find_obj (sel_ok (sel_type_name HAL_SIGNAL name)) s = Some sig ->
  hs_objs s !! sig = Some (HalObj hs (BSig sg)) ->
  halg_signal_setbarriers (Some name) rb wb s = (r, s') ->
  r = Ok 0 /\ hs_halobjects s' = hs_halobjects s /\
  hs_objs s' !! sig = Some (HalObj (set_barriers rb wb hs) (BSig sg)) /\
  (forall o h p, hs_objs s !! o = Some (HalObj h (BPin p)) -> hs_objs s' !! o =
     Some (HalObj (if p_signal p =? sig then pin_barriers (set_barriers rb wb hs) (p_dir p) h else h)
                  (BPin p))) /\
  (forall o h b, o <> sig -> body_type b <> HAL_PIN ->
     hs_objs s !! o = Some (HalObj h b) -> hs_objs s' !! o = Some (HalObj h b)).
Proof.
  intros Hl Hlock Hn Hf Hsig Hrun.
  eapply (wp_run _ (fun r s' => r = 0 /\ s' = barriers_state s sig hs sg rb wb) (fun _ _ => False)) in Hrun.
  - destruct r as [a | |]; [| done | done]. destruct Hrun as [-> ->]. unfold barriers_state. simpl.
    split; [done |]. split; [done |]. split; [| split].
    + by rewrite lookup_fmap, lookup_insert_eq.
    + intros o h p Ho. rewrite lookup_fmap, lookup_insert_ne by (intros ->; congruence).
      rewrite Ho. simpl. by case_match.
    + intros o h b Hne Hb Ho. rewrite lookup_fmap, lookup_insert_ne by done. rewrite Ho. simpl.
      by destruct b.
  - unfold halg_signal_setbarriers. apply wp_bind, wp_check_haldata; [apply Hl |].
    apply wp_bind, wp_check_lock; [apply Hl | intros _ | done].
    apply wp_bind, wp_check_strlen; [| intros Hx; specialize (Hx name eq_refl); lia].
    intros n [= <-] _. apply wp_bind, wp_find_by_name; [apply Hl | apply Hl |]. rewrite Hf.
    pose proof Hf as (Hin & ob & Hob & Hsel)%find_obj_some. rewrite Hsig in Hob. injection Hob as <-.
    apply sel_ok_type_name in Hsel as (Hv & _); [| done].
    eapply (wp_set_then_propagate sig s hs sg); [done | done | done | auto].
Qed.

(** hal_sweep removes exactly the invalid descriptors from the object
    list, keeps the order of the rest, frees the removed ones, and returns
    their number. *)
Theorem sweep_outcome s r s' :
  link_inv s -> hal_sweep s = (r, s') ->
  r = Ok (Z.of_nat (length (List.filter (fun x => negb (valid_obj s x)) (hs_halobjects s)))) /\
  hs_halobjects s' = List.filter (valid_obj s) (hs_halobjects s) /\
  (forall x, x ∈ hs_halobjects s -> valid_obj s x = false -> hs_objs s' !! x = None) /\
  (forall x, valid_obj s x = true -> hs_objs s' !! x = hs_objs s !! x).
Proof.
  intros Hl Hrun.
  eapply (wp_run _ (fun r s' =>
      r = Z.of_nat (length (List.filter (fun x => negb (valid_obj s x)) (hs_halobjects s))) /\
      swept s (hs_halobjects s) s') (fun _ _ => False)) in Hrun.
  - destruct r as [a | |]; [| done | done]. destruct Hrun as [-> [_ El Eo]]. split; [done |].
    split; [| split].
    + rewrite El. apply filter_ext_in. intros x Hx%list_elem_of_In. unfold kept.
      by rewrite bool_decide_true.
    + intros x Hx Hv. rewrite Eo. unfold kept. by rewrite bool_decide_true, Hv.
    + intros x Hv. rewrite Eo. unfold kept. by rewrite Hv, orb_true_r.
  - apply wp_sweep; auto.
Qed.

(** halg_add_object inserts a name before the first larger one of its
    type: the names of that type stay sorted, and the names of the other
    types are as they were. *)
Theorem add_object_sorted new nob s r s' :
  wf s -> sorted s -> hs_objs s !! new = Some nob -> (new ∉ hs_halobjects s) ->
  hh_valid (o_hdr nob) = true -> hh_get_object_type nob <> 0 ->
  halg_add_object new s = (r, s') ->
  r = Ok tt /\ hs_objs s' = hs_objs s /\ hs_halobjects s' ≡ₚ new :: hs_halobjects s /\ sorted s' /\
  forall t, type_names s' t = if hh_get_object_type nob =? t
              then insert_name (hh_get_name (o_hdr nob)) (type_names s t) else type_names s t.
Proof.
  intros Hw Hs Hnew Hnl Hv Ht Hrun.
  eapply (wp_run _ (fun _ s' => s' = set_halobjects (insert_before new
    (List.find (greater (hs_objs s) (hh_get_object_type nob) (hh_get_name (o_hdr nob)))
       (hs_halobjects s)) (hs_halobjects s)) s) (fun _ _ => False)) in Hrun.
  - destruct r as [[] | |]; [| done | done]. subst s'. split; [done |]. split; [done |].
    split; [apply insert_before_perm |]. split; [by apply sorted_add |].
    intros t. by apply (type_names_add new nob).
  - by eapply wp_add_object.
Qed.

(** An object id of 0 is a wildcard: the lookup of a component by id 0
    finds the first valid component, and a pin may be created with owner 0
    as soon as any component exists. *)
Theorem find_comp_id_zero s :
  link_inv s ->
  halpr_find_comp_by_id 0 s = (Ok (find_obj (fun ob => hh_valid (o_hdr ob) &&
     (hh_get_object_type ob =? HAL_COMPONENT)) s), s) /\
  ((exists c ob, c ∈ hs_halobjects s /\ hs_objs s !! c = Some ob /\ hh_valid (o_hdr ob) = true /\
      hh_get_object_type ob = HAL_COMPONENT) -> resolves s 0).
Proof.
  intros Hl. split.
  - unfold halpr_find_comp_by_id. rewrite find_by_id_run by apply Hl. f_equal. f_equal.
    apply find_obj_ext. intros ob. unfold sel_ok, match_hdr, match_name, match_field. simpl.
    by rewrite !andb_true_r, (Z.eqb_sym (hh_get_object_type ob)).
  - intros (c & ob & Hc & Hob & Hv & Ht). exists c, ob. split; [done |]. split; [done |]. right.
    unfold sel_ok, match_hdr, match_name, match_field. simpl. by rewrite Hv, Ht.
Qed.

(** A created object that is not listed yet. *)
Lemma create_sorted type owner name s :
  link_inv s -> fmt_noargs name = Some name ->
  wp (halg_create_objectf type owner name) (fun _ s' => wf s' /\ sorted s')
     (fun _ s' => wf s' /\ sorted s') s.
Proof.
  intros Hl Hn. eapply wp_create_object; [apply Hl | exact Hn | |].
  - intros new s1 (id & p & s2 & Hwd & Hno & Hnl & Hwf & ->). split; [done |]. intros t.
    destruct (world_eqs _ _ Hwd) as (_ & Eo & El & _). unfold type_names. simpl. rewrite El.
    rewrite (type_names_unlisted s new); [apply Hl | done |].
    intros x Hx. by rewrite lookup_insert_ne.
  - intros e s1 Hwd Hwf. split; [done |]. intros t.
    destruct (world_eqs _ _ Hwd) as (_ & Eo & El & _). unfold type_names. rewrite Eo, El. apply Hl.
Qed.

Lemma wp_snd {A} (m : M (hal_state H) A) (P : hal_state H -> Prop) s :
  wp m (fun _ => P) (fun _ => P) s -> P (snd (m s)).
Proof. unfold wp. by destruct (m s) as [[] ?]. Qed.
End Theorems.

(** ** The theorems at a concrete HAL *)
Definition w_pins : hal_state bump := run_ops
  [OPinNew HAL_S32 HAL_OUT None 1 7 (Some "p.out");
   OPinNew HAL_S32 HAL_IN (Some 2000) 1 0 (Some "p.in");
   OSignalNew (Some "sig") HAL_S32] boot.

Definition w_linked : hal_state bump := run_ops
  [OLink (Some "p.out") (Some "sig"); OLink (Some "p.in") (Some "sig")] w_pins.

Definition w_deleted : hal_state bump := run_ops [OSignalDelete (Some "sig")] w_linked.


Lemma w_linked_inv : link_inv w_linked.
Proof. apply run_ops_inv; [apply run_ops_inv; [apply boot_hal_inv | ops_tac] | ops_tac]. Qed.

Lemma w_deleted_inv : link_inv w_deleted.
Proof. do 2 (apply run_ops_inv; [| ops_tac]). apply run_ops_inv; [apply boot_hal_inv | ops_tac]. Qed.

Ltac vmr := vm_compute; reflexivity.
Ltac vmd := vm_compute; discriminate.

(** A component with an instance, a funct with its pins, and a linked pin. *)
Definition w_ops : list hal_op :=
  [OCompNew TYPE_RT 0 0 None None "comp2"; OInstNew (Some "comp2.0") 1 16;
   OFunctNew (XfunctArgs FS_XTHREADFUNC 0 0 0 0 2) "comp2.run"; OCompReady 2;
   OPinNew HAL_S32 HAL_OUT (Some 2000) 2 7 (Some "comp2.out"); OSignalNew (Some "sig") HAL_S32; OLink (Some "comp2.out") (Some "sig")].

Lemma w_ops_ok : Forall op_ok w_ops.
Proof. ops_tac. Qed.

Lemma hal_api_safe_witness : length (hs_halobjects (run_ops w_ops boot)) = 9%nat /\
  link_inv (run_ops w_ops boot) /\ forall op, op_ok op -> fst (run_op op (run_ops w_ops boot)) <> Crash.
Proof.
  split; [vmr |]. apply (hal_api_safe boot); [apply boot_hal_inv |].
  apply run_ops_reach; [apply boot_hal_inv | apply hal_reach_refl | apply w_ops_ok].
Defined.

(** A name with a conversion reads an argument that nobody passed. *)
Example percent_signal : fst (halg_signal_new (Some "%d") HAL_BIT boot) = Crash.
Proof. vmr. Qed.

Example percent_pin : fst (halg_pin_newfv HAL_BIT HAL_IN None 1 0 (Some "load%s") boot) = Crash.
Proof. vmr. Qed.

(** The object of a name in a concrete state, and its descriptor. *)
Ltac found t n s E Ho :=
  let o := eval vm_compute in (find_obj (sel_ok (sel_type_name t n)) s) in
  assert (find_obj (sel_ok (sel_type_name t n)) s = o) as E by (vm_compute; reflexivity);
  match o with Some ?a =>
    let ob := eval vm_compute in (hs_objs s !! a) in
    assert (hs_objs s !! a = ob) as Ho by (vm_compute; reflexivity) end.


Lemma unlink_outcome_witness :
  fst (halg_unlink (Some "p.in") w_linked) = Ok 0.
Proof.
  found HAL_PIN "p.in" w_linked Eo Ho. found HAL_SIGNAL "sig" w_linked Eg Hg.
  exact (proj1 (unlink_outcome "p.in" w_linked _ _ _ _ _ _ _ w_linked_inv eq_refl ltac:(vmd)
    Eo Ho eq_refl Hg (surjective_pairing _))).
Defined.

Lemma pin_new_outcome_witness : exists new,
  pin_created boot HAL_BIT HAL_IN (Some 2000) 1 0 "p" new
    (snd (halg_pin_newfv HAL_BIT HAL_IN (Some 2000) 1 0 (Some "p") boot)).
Proof.
  pose proof (pin_new_outcome HAL_BIT HAL_IN (Some 2000) 1 0 "p" boot _ _ boot_inv
    ltac:(plain_tac) (fun _ => eq_refl) (surjective_pairing _)) as Hc.
  destruct (fst _) as [new | |] eqn:E; [eexists; apply Hc | vm_compute in E; discriminate | done].
Defined.

Lemma signal_new_outcome_witness :
  signal_leaked boot (snd (halg_signal_new (Some "sig") HAL_U64 boot)).
Proof.
  pose proof (signal_new_outcome "sig" HAL_U64 boot _ _ boot_inv ltac:(plain_tac)
    (surjective_pairing _)) as Hc.
  destruct (fst _) as [? | |] eqn:E; [vm_compute in E; discriminate | | done].
  destruct Hc as [[Hc _] | [_ Hc]]; [| exact Hc].
  apply (f_equal (fun m : gmap Z hal_obj => size m)) in Hc. vm_compute in Hc. discriminate.
Defined.

Lemma signal_delete_outcome_witness :
  fst (halg_signal_delete (Some "sig") w_linked) = Ok 0.
Proof.
  found HAL_SIGNAL "sig" w_linked Eg Hg.
  exact (proj1 (signal_delete_outcome "sig" w_linked _ _ _ _ _ w_linked_inv eq_refl ltac:(vmd)
    Eg Hg (surjective_pairing _))).
Defined.

Lemma setbarriers_outcome_witness :
  fst (halg_signal_setbarriers (Some "sig") 0 1 w_linked) = Ok 0.
Proof.
  found HAL_SIGNAL "sig" w_linked Eg Hg.
  exact (proj1 (setbarriers_outcome "sig" 0 1 w_linked _ _ _ _ _ w_linked_inv eq_refl ltac:(vmd)
    Eg Hg (surjective_pairing _))).
Defined.

Lemma sweep_outcome_witness :
  fst (hal_sweep w_deleted)
  = Ok (Z.of_nat (length (List.filter (fun x => negb (valid_obj w_deleted x)) (hs_halobjects w_deleted)))).
Proof. exact (proj1 (sweep_outcome w_deleted _ _ w_deleted_inv (surjective_pairing _))). Defined.

(** A descriptor that was created but is not in the list yet. *)
Definition w_unlisted : hal_state bump :=
  snd (halg_create_objectf HAL_PIN 1 "p.mid" w_linked).

Lemma w_unlisted_wf : wf w_unlisted /\ sorted w_unlisted.
Proof. apply (wp_snd _ (fun s => wf s /\ sorted s)), create_sorted; [apply w_linked_inv | done]. Qed.

Lemma add_object_sorted_witness :
  fst (halg_add_object 1280 w_unlisted) = Ok tt.
Proof.
  let ob := eval vm_compute in (hs_objs w_unlisted !! 1280) in
  assert (hs_objs w_unlisted !! 1280 = ob) as Ho by vmr.
  assert (1280 ∉ hs_halobjects w_unlisted) as Hn by (apply (bool_decide_unpack _); vm_compute; exact I).
  exact (proj1 (add_object_sorted 1280 _ w_unlisted _ _ (proj1 w_unlisted_wf) (proj2 w_unlisted_wf) Ho
    Hn eq_refl ltac:(vm_compute; discriminate) (surjective_pairing _))).
Defined.

Lemma find_comp_id_zero_witness : resolves boot 0.
Proof.
  apply (find_comp_id_zero boot boot_inv). eexists 64, _.
  split; [vm_compute; left |]. split; [reflexivity | done].
Defined.
