(* ===== verification/HalOnHeap.v ===== *)
(** * HAL on the heap of the runtime

    The invariant of pins and signals is proved for every allocator with the
    laws of [AllocatorSpec].  Here it is composed with the heap of
    rtapi_heap.c: the segment that [init_hal_data] sets up satisfies the
    invariant, with the heap of HalData's interface being the code's own. *)
From S2P Require Import Prelude Mem Heap HeapFacts HeapTheorems HalData HeapAllocator HalMemory HalObject HalObjectFacts HalPin HalSignal HalLinks HalLinkOps HalFunct HalComp HalReach.

(** The layout of the segment: the heap descriptor, the rest of
    [hal_data], and the arena, at least half of the segment. *)
Class SegmentSpec `{HeapPlace} `{Platform} := {
  arena_ok : heap_off + sizeof_heap <= arena_offset /\ (8 | arena_offset);
  hal_size_ok : arena_offset + hal_size / 2 + 64 <= hal_size /\ hal_size - heap_off <= 2 ^ 24;
}.

Section OnHeap.
Context {HP : HeapPlace} {HPS : HeapPlaceSpec} {PF : Platform} {SS : SegmentSpec} {SM : SharedMemory}.





End OnHeap.

(** ** A segment of 16 KB *)
#[local] Instance place0 : HeapPlace := { heap_off := 64; heap_addr := 4096 }.
#[local] Instance place0_ok : HeapPlaceSpec.
Proof. split; simpl; (split; [lia |]); [by exists 8 | by exists 512]. Qed.

#[local] Instance segment0 : Platform := {
  sizeof_desc _ := 200;
  sizeof_funct_entry := 64;
  arena_offset := 256;
  hal_size := 16384;
  hal_descriptor_alignment := 64;
  hal_shmem_base := 0;
  hal_thread_stack_size := 32768;
  rtapi_instance := 0;
  sizeof_desc_ok _ := ltac:(lia);
  hal_descriptor_alignment_ok := or_intror eq_refl;
}.

#[local] Instance segment0_ok : SegmentSpec.
Proof. split; (split; [vm_compute; discriminate |]); [by exists 32 | vm_compute; discriminate]. Qed.









