(* ===== verification/HalListTheorems.v ===== *)
(** * Theorems about the shared-memory lists

    The links of a well-formed list are a cycle through its root; each
    operation and each loop on the links does to the sequence of entries what
    the list functions of the HAL model do, and leaves all other lists alone. *)
From S2P Require Import Prelude HalList HalObject HalFunct HalFunctFacts.
Import HalList.

Definition mapped (m : links) (a : Z) : Prop := is_Some (m !! a).
Definition nx (m : links) (a : Z) : option Z := next <$> m !! a.
Definition pv (m : links) (a : Z) : option Z := prev <$> m !! a.

(** ** The single stores *)
Lemma store_next_run e n m x : m !! e = Some x -> store_next e n m = (Ok tt, <[e := HalElem n (prev x)]> m).
Proof. intros Hx. unfold store_next, mbind, M_bind, load. by rewrite Hx. Qed.

Lemma store_prev_run e p m x : m !! e = Some x -> store_prev e p m = (Ok tt, <[e := HalElem (next x) p]> m).
Proof. intros Hx. unfold store_prev, mbind, M_bind, load. by rewrite Hx. Qed.

Lemma load_run e m x : m !! e = Some x -> load e m = (Ok x, m).
Proof. unfold load. by intros ->. Qed.

Lemma bind_run {A B} (c : LM A) (f : A -> LM B) m a m' : c m = (Ok a, m') -> (c ≫= f) m = f a m'.
Proof. unfold mbind, M_bind. by intros ->. Qed.

(** What the four stores of an insertion leave. *)
Definition spliced (m : links) (p e n : Z) (m' : links) : Prop :=
  (forall a, nx m' a = if decide (a = e) then Some n else if decide (a = p) then Some e else nx m a) /\
  (forall a, pv m' a = if decide (a = e) then Some p else if decide (a = n) then Some e else pv m a) /\
  (forall a, a <> e -> a <> p -> a <> n -> m' !! a = m !! a).

Definition four_stores (p e n : Z) : LM unit :=
  store_next e n ≫= fun _ => store_prev e p ≫= fun _ => store_next p e ≫= fun _ => store_prev n e.

Lemma four_stores_run m p e n : mapped m e -> mapped m p -> mapped m n -> e <> p -> e <> n ->
  exists m', four_stores p e n m = (Ok tt, m') /\ spliced m p e n m'.
Proof.
  intros [xe He] [xp Hp] [xn Hn] Hep Hen. unfold four_stores.
  rewrite (bind_run _ _ _ _ _ (store_next_run _ n _ _ He)).
  erewrite bind_run by (apply store_prev_run; apply lookup_insert_eq).
  erewrite bind_run by (apply store_next_run; rewrite !lookup_insert_ne by done; exact Hp).
  assert (forall m', (forall a, a <> e -> a <> p -> a <> n -> m' !! a = m !! a) ->
    (forall a, a = e \/ a = p \/ a = n -> nx m' a = if decide (a = e) then Some n else if decide (a = p) then Some e else nx m a) ->
    (forall a, a = e \/ a = p \/ a = n -> pv m' a = if decide (a = e) then Some p else if decide (a = n) then Some e else pv m a) ->
    spliced m p e n m') as Hs.
  { intros m' Hsame Hnx Hpv. split_and!; [| | done].
    - intros a. destruct (decide (a = e \/ a = p \/ a = n)); [by apply Hnx |].
      unfold nx. rewrite Hsame by tauto. by rewrite !decide_False by tauto.
    - intros a. destruct (decide (a = e \/ a = p \/ a = n)); [by apply Hpv |].
      unfold pv. rewrite Hsame by tauto. by rewrite !decide_False by tauto. }
  destruct (decide (n = p)) as [-> | Hnp].
  - eexists. split; [apply store_prev_run; apply lookup_insert_eq |]. apply Hs; unfold nx, pv; simpl.
    + intros a ? ? ?. by rewrite !lookup_insert_ne.
    + intros a [-> | [-> | ->]]; rewrite !lookup_insert; repeat case_decide; simplify_eq; done.
    + intros a [-> | [-> | ->]]; rewrite !lookup_insert; repeat case_decide; simplify_eq; done.
  - eexists. split; [apply store_prev_run; rewrite !lookup_insert_ne by done; exact Hn |]. apply Hs; unfold nx, pv; simpl.
    + intros a ? ? ?. by rewrite !lookup_insert_ne.
    + intros a [-> | [-> | ->]]; rewrite !lookup_insert; repeat case_decide; simplify_eq; by rewrite ?Hn.
    + intros a [-> | [-> | ->]]; rewrite !lookup_insert; repeat case_decide; simplify_eq; by rewrite ?Hp.
Qed.

(** ** Well-formed lists *)

(** The links lead from [a] over [l] to [z], and back. *)
Fixpoint path (m : links) (a : Z) (l : list Z) (z : Z) : Prop :=
  match l with
  | [] => nx m a = Some z /\ pv m z = Some a
  | b :: l => (nx m a = Some b /\ pv m b = Some a) /\ path m b l z
  end.

Definition dlist (m : links) (root : Z) (l : list Z) : Prop := NoDup (root :: l) /\ path m root l root.

Lemma path_app m a l1 b l2 z : path m a (l1 ++ b :: l2) z <-> path m a l1 b /\ path m b l2 z.
Proof. revert a. induction l1 as [| c l1 IH]; intros a; simpl; [done |]. rewrite IH. tauto. Qed.

Lemma path_frame m m' a l z :
  (forall b, b ∈ a :: l -> nx m' b = nx m b) -> (forall b, b ∈ l ++ [z] -> pv m' b = pv m b) ->
  path m a l z -> path m' a l z.
Proof.
  revert a. induction l as [| b l IH]; intros a Hn Hp; simpl.
  - rewrite Hn, Hp by set_solver. done.
  - rewrite Hn, Hp by set_solver. intros [? ?]. split; [done |]. apply IH; [| | done]; set_solver.
Qed.

Lemma path_ends m a l z : path m a l z -> nx m a = Some (default z (head l)) /\ pv m z = Some (default a (last l)).
Proof.
  intros Hp. split; [by destruct l; apply Hp |].
  destruct l as [| y l _] using rev_ind; [apply Hp |]. rewrite last_snoc. simpl. apply path_app in Hp. apply Hp.
Qed.

Lemma nx_mapped m a b : nx m a = Some b -> mapped m a.
Proof. unfold nx, mapped. destruct (m !! a); [by eexists | done]. Qed.

Lemma path_mapped m a l z b : path m a l z -> b ∈ a :: l -> mapped m b.
Proof.
  revert a. induction l as [| c l IH]; intros a Hp Hb; simpl in Hp.
  - apply list_elem_of_singleton in Hb as ->. by eapply nx_mapped, Hp.
  - apply elem_of_cons in Hb as [-> | Hb]; [eapply nx_mapped, Hp |]. eapply IH; [apply Hp | done].
Qed.

Lemma dlist_mapped m r l a : dlist m r l -> a ∈ r :: l -> mapped m a.
Proof. intros [_ Hp]. by eapply path_mapped. Qed.

Lemma dlist_element m r l a : dlist m r l -> a ∈ r :: l -> exists x, m !! a = Some x.
Proof. apply dlist_mapped. Qed.

(** Only the elements of a list carry it. *)
Definition only (X : list Z) (m m' : links) : Prop := forall a, a ∉ X -> m' !! a = m !! a.

Lemma only_trans X m1 m2 m3 : only X m1 m2 -> only X m2 m3 -> only X m1 m3.
Proof. intros H1 H2 a Ha. by rewrite H2, H1. Qed.

Lemma only_mono X Y m m' : X ⊆ Y -> only X m m' -> only Y m m'.
Proof. intros HXY H a Ha. apply H. set_solver. Qed.

Lemma only_mapped X m m' a : only X m m' -> a ∉ X -> mapped m a -> mapped m' a.
Proof. unfold mapped. intros H Ha. by rewrite H. Qed.

Lemma dlist_frame X m m' r l : only X m m' -> r :: l ## X -> dlist m r l -> dlist m' r l.
Proof.
  intros Ho Hd [Hnd Hp]. split; [done |]. eapply path_frame; [| | exact Hp]; intros b Hb; unfold nx, pv; rewrite Ho; set_solver.
Qed.

(** A list may be seen from each of its elements. *)
Lemma dlist_rotate m r l1 p l2 : dlist m r (l1 ++ p :: l2) <-> dlist m p (l2 ++ r :: l1).
Proof.
  unfold dlist. rewrite !path_app. assert (r :: l1 ++ p :: l2 ≡ₚ p :: l2 ++ r :: l1) as Hperm by solve_Permutation.
  rewrite Hperm. tauto.
Qed.

Lemma dlist_single m e : nx m e = Some e -> pv m e = Some e -> dlist m e [].
Proof. intros. split; [apply NoDup_singleton | done]. Qed.

(** ** Insertion *)
Lemma spliced_dlist m p e l m' : dlist m p l -> e ∉ p :: l -> spliced m p e (default p (head l)) m' -> dlist m' p (e :: l).
Proof.
  intros [Hnd Hp] He (Hnx & Hpv & _). apply not_elem_of_cons in He as [Hep Hel].
  split. { apply NoDup_cons in Hnd as [? ?]. apply NoDup_cons. split; [set_solver | by apply NoDup_cons]. }
  cbn [path]. rewrite Hnx, Hpv, (decide_True (P := e = e)), decide_False, decide_True by done. split; [done |].
  destruct l as [| n l]; cbn [head default from_option id path] in *.
  - by rewrite Hnx, Hpv, decide_True, decide_False, decide_True by done.
  - rewrite Hnx, Hpv, (decide_True (P := e = e)) by done.
    rewrite (decide_False (P := n = e)), decide_True by (done || set_solver). split; [done |].
    apply (path_frame m); [| | apply Hp]; intros b Hb.
    + apply NoDup_cons in Hnd as [Hpn _]. rewrite Hnx, !decide_False by set_solver. done.
    + apply NoDup_cons in Hnd as [Hpn Hnd]. apply NoDup_cons in Hnd as [Hnl _].
      rewrite Hpv, !decide_False by (set_solver). done.
Qed.

(** Behind [p], whatever the root is. *)
Lemma add_after_run m p l e : dlist m p l -> mapped m e -> e ∉ p :: l ->
  exists m', dlist_add_after e p m = (Ok tt, m') /\ dlist m' p (e :: l) /\ only (e :: p :: l) m m'.
Proof.
  intros Hd Hm He. pose proof Hd as [_ Hp]. apply path_ends in Hp as [Hn _].
  destruct (dlist_element m p l p Hd) as [x Hx]; [set_solver |]. unfold nx in Hn. rewrite Hx in Hn. injection Hn as Hn.
  assert (default p (head l) ∈ p :: l) as Hin by (destruct l; set_solver).
  destruct (four_stores_run m p e (next x)) as (m' & Hrun & Hs); [done | by eexists | | set_solver | rewrite Hn; set_solver |].
  { rewrite Hn. by eapply dlist_mapped. }
  exists m'. split; [unfold dlist_add_after; by rewrite (bind_run _ _ _ _ _ (load_run _ _ _ Hx)) |].
  rewrite Hn in Hs. split; [by apply (spliced_dlist m) |]. intros a Ha. apply Hs; set_solver.
Qed.

Lemma add_before_run m n l e : dlist m n l -> mapped m e -> e ∉ n :: l ->
  exists m', dlist_add_before e n m = (Ok tt, m') /\ dlist m' n (l ++ [e]) /\ only (e :: n :: l) m m'.
Proof.
  intros Hd Hm He. pose proof Hd as [_ Hp]. apply path_ends in Hp as [_ Hpv].
  destruct (dlist_element m n l n Hd) as [x Hx]; [set_solver |]. unfold pv in Hpv. rewrite Hx in Hpv. injection Hpv as Hpv.
  assert (prev x ∈ n :: l) as Hin.
  { rewrite Hpv. destruct l as [| y l _] using rev_ind; [set_solver |]. rewrite last_snoc. set_solver. }
  destruct (four_stores_run m (prev x) e n) as (m' & Hrun & Hs); [done | by eapply dlist_mapped | by eexists | set_solver | set_solver |].
  exists m'. split; [unfold dlist_add_before; by rewrite (bind_run _ _ _ _ _ (load_run _ _ _ Hx)) |].
  split; [| intros a Ha; apply Hs; set_solver].
  destruct l as [| y l _] using rev_ind.
  - cbn in Hpv. rewrite Hpv in Hs. by apply (spliced_dlist m).
  - rewrite last_snoc in Hpv. cbn in Hpv. rewrite Hpv in Hs. rewrite <- app_assoc. cbn [app].
    apply dlist_rotate. cbn [app]. apply (spliced_dlist m); [by apply dlist_rotate in Hd | set_solver | done].
Qed.

(** ** Removal *)
Lemma remove_stores_run m e p n : m !! e = Some (HalElem n p) -> mapped m p -> mapped m n -> (p = e <-> n = e) ->
  exists m', dlist_remove_entry e m = (Ok n, m') /\
    (forall a, nx m' a = if decide (a = e) then Some e else if decide (a = p) then Some n else nx m a) /\
    (forall a, pv m' a = if decide (a = e) then Some e else if decide (a = n) then Some p else pv m a) /\
    (forall a, a <> e -> a <> p -> a <> n -> m' !! a = m !! a).
Proof.
  intros He [xp Hp] [xn Hn] Hpe. unfold dlist_remove_entry. rewrite !(bind_run _ _ _ _ _ (load_run _ _ _ He)). cbn [next prev].
  destruct (decide (p = e)) as [-> | Hne].
  - assert (n = e) as -> by tauto.
    erewrite bind_run by (by apply store_next_run). erewrite bind_run by (apply load_run, lookup_insert_eq).
    erewrite bind_run by (apply store_prev_run, lookup_insert_eq). erewrite bind_run by (apply store_next_run, lookup_insert_eq).
    erewrite bind_run by (apply store_prev_run, lookup_insert_eq). eexists. split; [reflexivity |]. unfold nx, pv. cbn [next prev].
    split_and!; intros a; [| | intros; by rewrite !lookup_insert_ne]; rewrite !lookup_insert; repeat case_decide; simplify_eq; done.
  - assert (n <> e) by tauto. erewrite bind_run by (by apply store_next_run).
    erewrite bind_run by (apply load_run; rewrite lookup_insert_ne by done; exact He). cbn [next prev].
    destruct (decide (n = p)) as [-> | Hnp].
    + erewrite bind_run by (apply store_prev_run, lookup_insert_eq).
      erewrite bind_run by (apply store_next_run; rewrite !lookup_insert_ne by done; exact He).
      erewrite bind_run by (apply store_prev_run, lookup_insert_eq). eexists. split; [reflexivity |]. unfold nx, pv. cbn [next prev].
      split_and!; intros a; [| | intros; by rewrite !lookup_insert_ne]; rewrite !lookup_insert; repeat case_decide; simplify_eq; done.
    + erewrite bind_run by (apply store_prev_run; rewrite !lookup_insert_ne by done; exact Hn).
      erewrite bind_run by (apply store_next_run; rewrite !lookup_insert_ne by done; exact He).
      erewrite bind_run by (apply store_prev_run, lookup_insert_eq). eexists. split; [reflexivity |]. unfold nx, pv. cbn [next prev].
      split_and!; intros a; [| | intros; by rewrite !lookup_insert_ne]; rewrite !lookup_insert; repeat case_decide; simplify_eq;
        by rewrite ?Hp, ?Hn.
Qed.

Lemma remove_run m e l : dlist m e l ->
  exists m', dlist_remove_entry e m = (Ok (default e (head l)), m') /\ dlist m' e [] /\
    match l with [] => True | n :: l => dlist m' n l end /\ only (e :: l) m m'.
Proof.
  intros Hd. pose proof Hd as [Hnd Hp]. destruct (dlist_element m e l e Hd) as [[n p] Hx]; [set_solver |].
  pose proof (path_ends _ _ _ _ Hp) as [Hn Hpv]. unfold nx, pv in Hn, Hpv. rewrite Hx in Hn, Hpv. injection Hn as Hn. injection Hpv as Hpv.
  assert (default e (head l) ∈ e :: l /\ default e (last l) ∈ e :: l) as [Hhead Hlast].
  { split; [destruct l; set_solver |]. destruct l as [| y l _] using rev_ind; [set_solver |]. rewrite last_snoc. set_solver. }
  destruct (remove_stores_run m e p n) as (m' & Hrun & Hnx' & Hpv' & Hsame).
  - done.
  - rewrite Hpv. by eapply dlist_mapped.
  - rewrite Hn. by eapply dlist_mapped.
  - apply NoDup_cons in Hnd as [He _]. rewrite Hn, Hpv. destruct l as [| n1 l]; [done |]. cbn in *.
    split; intros Heq; exfalso; [| set_solver]. apply He. rewrite <- Heq.
    destruct l as [| y l _] using rev_ind; simpl; [set_solver |]. rewrite app_comm_cons, last_snoc. set_solver.
  - exists m'. rewrite Hn in Hrun. split; [done |]. split; [apply dlist_single; [rewrite Hnx' | rewrite Hpv']; by rewrite decide_True |].
    split; [| intros a Ha; apply Hsame; rewrite ?Hn, ?Hpv; set_solver].
    destruct l as [| n1 l]; [done |]. cbn [head default from_option id] in Hn. subst n.
    apply NoDup_cons in Hnd as [He Hnd]. split; [done |]. destruct l as [| y l _] using rev_ind; cbn in Hpv; subst p.
    + cbn in *. rewrite Hnx', Hpv', !(decide_False (P := n1 = e)), !decide_True by set_solver. done.
    + rewrite app_comm_cons, last_snoc in *. cbn in *. destruct Hp as [_ Hp]. apply path_app in Hp as [Hp _]. apply path_app. split.
      * apply (path_frame m); [| | exact Hp]; intros b Hb; apply NoDup_cons in Hnd as [Hn1 Hnd]; apply NoDup_app in Hnd as (_ & Hy & _).
        -- rewrite Hnx', !decide_False; [done | |]; set_solver.
        -- rewrite Hpv', !decide_False; [done | |]; set_solver.
      * cbn. rewrite Hnx', Hpv', (decide_False (P := y = e)), (decide_False (P := n1 = e)), !decide_True by set_solver. done.
Qed.

(** Seen from the root. *)
Lemma remove_at_run m r l1 e l2 : dlist m r (l1 ++ e :: l2) ->
  exists m', dlist_remove_entry e m = (Ok (default r (head l2)), m') /\ dlist m' r (l1 ++ l2) /\ dlist m' e [] /\
    only (r :: l1 ++ e :: l2) m m'.
Proof.
  intros Hd. apply dlist_rotate in Hd. destruct (remove_run m e _ Hd) as (m' & Hrun & Hs & Hrest & Ho).
  exists m'. assert (default e (head (l2 ++ r :: l1)) = default r (head l2)) as E by by destruct l2.
  rewrite E in Hrun. split; [done |]. split; [| split; [done |]].
  - destruct l2 as [| n l2]; cbn in Hrest; [by rewrite app_nil_r | by apply dlist_rotate].
  - eapply only_mono; [| exact Ho]. set_solver.
Qed.

(** ** Cursors: position 0 is the root *)
Lemma add_at_run m r l i e cur : dlist m r l -> mapped m e -> e ∉ r :: l -> (r :: l) !! i = Some cur ->
  exists m', dlist_add_after e cur m = (Ok tt, m') /\ dlist m' r (take i l ++ e :: drop i l) /\ only (e :: r :: l) m m'.
Proof.
  intros Hd Hm He Hi. destruct i as [| i]; cbn in Hi.
  - injection Hi as ->. by apply add_after_run.
  - assert (l = take i l ++ cur :: drop (S i) l) as E by by rewrite take_drop_middle.
    rewrite E in Hd. apply dlist_rotate in Hd.
    destruct (add_after_run m cur _ e Hd Hm) as (m' & Hrun & Hd' & Ho). { rewrite E in He. set_solver. }
    exists m'. split; [done |]. split.
    + rewrite (take_S_r _ _ _ Hi), <- app_assoc. cbn [app]. apply dlist_rotate. exact Hd'.
    + eapply only_mono; [| exact Ho]. rewrite E at 3. set_solver.
Qed.

Lemma path_step m a l z i b : path m a l z -> (a :: l) !! i = Some b ->
  nx m b = Some (default z ((a :: l) !! S i)) /\ (forall c, (a :: l) !! S i = Some c -> pv m c = Some b).
Proof.
  revert a i. induction l as [| c l IH]; intros a i Hp Hi.
  - destruct i as [| i]; [| done]. cbn in *. injection Hi as <-. split; [apply Hp | done].
  - destruct i as [| i]; cbn in Hi; [| apply (IH c i); [apply Hp | done]].
    injection Hi as <-. cbn in *. split; [apply Hp |]. intros d [= <-]. apply Hp.
Qed.

(** The code's step to the next and to the previous element moves the cursor. *)
Lemma next_cursor m r l i cur : dlist m r l -> (r :: l) !! Z.to_nat i = Some cur -> 0 <= i ->
  exists c, dlist_next cur m = (Ok c, m) /\ (r :: l) !! Z.to_nat (cursor_next (Z.of_nat (length l)) i) = Some c /\
    (c = r <-> cursor_next (Z.of_nat (length l)) i = 0).
Proof.
  intros Hd Hi H0. pose proof Hd as [Hnd Hp]. destruct (path_step m r l r _ _ Hp Hi) as [Hn _].
  destruct (dlist_element m r l cur Hd) as [x Hx]; [by eapply list_elem_of_lookup_2 |].
  unfold nx in Hn. rewrite Hx in Hn. injection Hn as Hn. exists (next x).
  split; [unfold dlist_next; by rewrite (bind_run _ _ _ _ _ (load_run _ _ _ Hx)) |].
  pose proof (lookup_lt_Some _ _ _ Hi) as Hlt. cbn [length] in Hlt. unfold cursor_next.
  destruct (Z.eqb_spec i (Z.of_nat (length l))) as [-> | Hne].
  - rewrite Nat2Z.id in Hn. rewrite lookup_ge_None_2 in Hn by (simpl; lia). rewrite Hn. split; [done |]. done.
  - replace (Z.to_nat (i + 1)) with (S (Z.to_nat i)) by lia.
    destruct (lookup_lt_is_Some_2 (r :: l) (S (Z.to_nat i))) as [c Hc]; [simpl; lia |]. assert (next x = c) as <- by (rewrite Hn; change (default r ((r :: l) !! S (Z.to_nat i)) = c); by rewrite Hc).
    split; [done |]. split; [| lia]. intros Hr. exfalso. rewrite Hr in Hc.
    apply (NoDup_lookup _ _ 0%nat _ Hnd) in Hc; [lia | done].
Qed.

Lemma prev_cursor m r l i cur : dlist m r l -> (r :: l) !! Z.to_nat i = Some cur -> 0 <= i ->
  exists c, dlist_prev cur m = (Ok c, m) /\ (r :: l) !! Z.to_nat (cursor_prev (Z.of_nat (length l)) i) = Some c /\
    (c = r <-> cursor_prev (Z.of_nat (length l)) i = 0).
Proof.
  intros Hd Hi H0. pose proof Hd as [Hnd Hp].
  destruct (dlist_element m r l cur Hd) as [x Hx]; [by eapply list_elem_of_lookup_2 |]. exists (prev x).
  split; [unfold dlist_prev; by rewrite (bind_run _ _ _ _ _ (load_run _ _ _ Hx)) |].
  pose proof (lookup_lt_Some _ _ _ Hi) as Hlt. cbn [length] in Hlt. unfold cursor_prev.
  assert (exists j c, (r :: l) !! j = Some c /\ pv m cur = Some c /\
    j = Z.to_nat (if i =? 0 then Z.of_nat (length l) else i - 1)) as (j & c & Hj & Hc & Ej).
  { destruct (Z.eqb_spec i 0) as [-> | Hne].
    - cbn in Hi. injection Hi as <-. pose proof (path_ends _ _ _ _ Hp) as [_ Hl].
      exists (length l), (default r (last l)). rewrite Nat2Z.id. split; [| done].
      rewrite last_lookup. destruct l; [done |]. cbn. destruct (lookup_lt_is_Some_2 (z :: l) (length l)) as [y Hy]; [simpl; lia |].
      by rewrite Hy.
    - destruct (lookup_lt_is_Some_2 (r :: l) (Z.to_nat (i - 1))) as [c Hc]; [simpl; lia |].
      exists (Z.to_nat (i - 1)), c. split; [done |]. split; [| done].
      destruct (path_step m r l r _ _ Hp Hc) as [_ Hpv]. apply Hpv. by replace (S (Z.to_nat (i - 1))) with (Z.to_nat i) by lia. }
  unfold pv in Hc. rewrite Hx in Hc. injection Hc as <-. subst j. split; [exact Hj |].
  split; intros Hr.
  - rewrite Hr in Hj. apply (NoDup_lookup _ _ 0%nat _ Hnd) in Hj; [| done]. destruct (Z.eqb_spec i 0); lia.
  - rewrite Hr in Hj. by injection Hj as <-.
Qed.

(** The address at a cursor. *)
Definition at_cursor (r : Z) (l : list Z) (i : option Z) : option Z := i ≫= fun i => (r :: l) !! Z.to_nat i.

Lemma forward_run m r l fuel position n i cur :
  dlist m r l -> (r :: l) !! Z.to_nat i = Some cur -> 0 <= i <= Z.of_nat (length l) ->
  Z.of_nat (length l) - i + 1 <= Z.of_nat fuel ->
  forward fuel r position n cur m = (Ok (at_cursor r l (walk_forward fuel (Z.of_nat (length l)) position n i)), m).
Proof.
  intros Hd. revert n i cur. induction fuel as [| fuel IH]; intros n i cur Hi Hr Hf; [lia |]. cbn [forward walk_forward].
  destruct (n + 1 <? position); [| by cbn; rewrite Hi].
  destruct (next_cursor m r l i cur Hd Hi) as (c & Hrun & Hc & Hz); [lia |]. rewrite (bind_run _ _ _ _ _ Hrun).
  destruct (Z.eqb_spec c r) as [E | E].
  - rewrite (proj2 (Z.eqb_eq _ _)) by tauto. done.
  - assert (cursor_next (Z.of_nat (length l)) i <> 0) as Hnz by tauto. rewrite (proj2 (Z.eqb_neq _ _) Hnz).
    assert (cursor_next (Z.of_nat (length l)) i = i + 1 /\ i + 1 <= Z.of_nat (length l)) as [Es ?].
    { unfold cursor_next in *. destruct (Z.eqb_spec i (Z.of_nat (length l))); [done | lia]. }
    rewrite Es in *. apply IH; [done | lia | lia].
Qed.

Lemma backward_run m r l fuel position n i cur :
  dlist m r l -> (r :: l) !! Z.to_nat i = Some cur -> 0 <= i <= Z.of_nat (length l) ->
  (if i =? 0 then Z.of_nat (length l) + 1 else i) <= Z.of_nat fuel ->
  backward fuel r position n cur m = (Ok (at_cursor r l (walk_backward fuel (Z.of_nat (length l)) position n i)), m).
Proof.
  intros Hd. revert n i cur. induction fuel as [| fuel IH]; intros n i cur Hi Hr Hf; [destruct (Z.eqb_spec i 0); lia |].
  cbn [backward walk_backward].
  destruct (position <? n - 1); [| by cbn; rewrite Hi].
  destruct (prev_cursor m r l i cur Hd Hi) as (c & Hrun & Hc & Hz); [lia |]. rewrite (bind_run _ _ _ _ _ Hrun).
  destruct (Z.eqb_spec c r) as [E | E].
  - rewrite (proj2 (Z.eqb_eq _ _)) by tauto. done.
  - assert (cursor_prev (Z.of_nat (length l)) i <> 0) as Hnz by tauto. rewrite (proj2 (Z.eqb_neq _ _) Hnz).
    apply IH; [done | |]; unfold cursor_prev in *; destruct (Z.eqb_spec i 0); try lia;
      rewrite (proj2 (Z.eqb_neq _ _) Hnz); lia.
Qed.

Lemma find_position_run m r l position : dlist m r l ->
  find_position (length l + 2) r position m = (Ok (at_cursor r l (insertion_point (Z.of_nat (length l)) position)), m).
Proof.
  intros Hd. unfold find_position, insertion_point.
  replace (Z.to_nat (Z.of_nat (length l) + 2)) with (length l + 2)%nat by lia.
  destruct (0 <? position); [apply forward_run; by (done || lia) |].
  assert (forall fuel n i, 0 <= i <= Z.of_nat (length l) -> forall c,
    walk_backward fuel (Z.of_nat (length l)) position n i = Some c -> 0 <= c <= Z.of_nat (length l)) as Hb.
  { induction fuel as [| fuel IH]; intros n i Hi c; cbn [walk_backward]; [done |].
    destruct (position <? n - 1); [| by intros [= <-]]. destruct (Z.eqb_spec (cursor_prev (Z.of_nat (length l)) i) 0); [done |].
    apply IH. unfold cursor_prev in *. destruct (Z.eqb_spec i 0); lia. }
  specialize (Hb (length l + 2)%nat 0 0 ltac:(lia)).
  erewrite bind_run by (apply (backward_run m r l _ position 0 0); [done | done | lia | cbn; lia]).
  destruct (walk_backward _ _ position 0 0) as [c |]; [| done]. specialize (Hb c eq_refl). cbn [at_cursor mbind option_bind].
  destruct (lookup_lt_is_Some_2 (r :: l) (Z.to_nat c)) as [a Ha]; [simpl; lia |]. rewrite Ha.
  destruct (prev_cursor m r l c a Hd Ha) as (b & Hrun & Hb' & _); [lia |]. rewrite (bind_run _ _ _ _ _ Hrun). cbn. by rewrite Hb'.
Qed.

(** ** Allocation of an entry *)
Lemma init_run m e : mapped m e -> exists m', dlist_init_entry e m = (Ok tt, m') /\ dlist m' e [] /\ only [e] m m'.
Proof.
  intros [x Hx]. unfold dlist_init_entry. rewrite (bind_run _ _ _ _ _ (store_next_run _ e _ _ Hx)).
  eexists. split; [apply store_prev_run, lookup_insert_eq |]. split.
  - apply dlist_single; unfold nx, pv; by rewrite lookup_insert_eq.
  - intros a Ha. rewrite !lookup_insert_ne by set_solver. done.
Qed.

Lemma take_free_run m freelist fl fresh : dlist m freelist fl -> mapped m fresh -> fresh ∉ freelist :: fl ->
  exists m', take_free freelist fresh m = (Ok (default fresh (head fl)), m') /\ dlist m' freelist (tail fl) /\
    mapped m' (default fresh (head fl)) /\ only (fresh :: freelist :: fl) m m'.
Proof.
  intros Hd Hm Hf. destruct (next_cursor m freelist fl 0 freelist Hd eq_refl) as (c & Hrun & Hc & Hz); [lia |].
  unfold take_free. rewrite (bind_run _ _ _ _ _ Hrun). unfold cursor_next in Hc, Hz.
  destruct fl as [| e fl]; cbn in Hc.
  - injection Hc as <-. rewrite Z.eqb_refl. destruct (init_run m fresh Hm) as (m' & Hi & Hd' & Ho).
    rewrite (bind_run _ _ _ _ _ Hi). exists m'. split; [done |]. split; [| split].
    + eapply dlist_frame; [exact Ho | set_solver | done].
    + eapply dlist_mapped; [exact Hd' | set_solver].
    + eapply only_mono; [| exact Ho]. set_solver.
  - injection Hc as <-. pose proof Hd as [Hnd _]. apply NoDup_cons in Hnd as [Hnd _].
    rewrite (proj2 (Z.eqb_neq e freelist)) by set_solver.
    destruct (remove_at_run m freelist [] e fl Hd) as (m' & Hr & Hd' & He & Ho). rewrite (bind_run _ _ _ _ _ Hr).
    exists m'. split; [done |]. split; [done |]. split.
    + eapply dlist_mapped; [exact He | set_solver].
    + eapply only_mono; [| exact Ho]. set_solver.
Qed.

(** C13: Adding a function to a thread, on the links: the walk along the list
    stops where the HAL model says, and then the entry (the first of the free
    list, or fresh memory) is in the thread's list behind that position and
    in the free list no more; when the position does not exist nothing is
    written.  Every other list in memory stays as it is. *)
Theorem add_entry_refines m root l freelist fl fresh position :
  dlist m root l -> dlist m freelist fl -> root :: l ## freelist :: fl ->
  mapped m fresh -> fresh ∉ root :: l ++ freelist :: fl ->
  match insertion_point (Z.of_nat (length l)) position with
  | None => add_entry (length l + 2) root freelist fresh position m = (Ok None, m)
  | Some i =>
      let e := default fresh (head fl) in
      exists m', add_entry (length l + 2) root freelist fresh position m = (Ok (Some e), m') /\
        dlist m' root (insert_after i e l) /\ dlist m' freelist (tail fl) /\
        (forall r' l', dlist m r' l' -> r' :: l' ## fresh :: root :: l ++ freelist :: fl -> dlist m' r' l')
  end.
Proof.
  intros Hl Hf Hdisj Hm Hfresh. unfold add_entry. rewrite (bind_run _ _ _ _ _ (find_position_run m root l position Hl)).
  destruct (insertion_point (Z.of_nat (length l)) position) as [i |] eqn:Ei; [| done].
  assert (0 <= i <= Z.of_nat (length l)) as Hi.
  { destruct (Z.eq_dec position 0) as [-> | Hp].
    - unfold insertion_point in Ei. replace (Z.to_nat (Z.of_nat (length l) + 2)) with (S (length l + 1)) in Ei by lia.
      unfold cursor_prev in Ei. cbn -[Z.of_nat] in Ei. injection Ei as <-. lia.
    - rewrite insertion_point_spec in Ei by lia. cbv zeta in Ei.
      destruct (0 <=? _) eqn:E1, (_ <=? Z.of_nat (length l)) eqn:E2; cbn in Ei; try done. zb. injection Ei as <-. lia. }
  destruct (lookup_lt_is_Some_2 (root :: l) (Z.to_nat i)) as [cur Hcur]; [simpl; lia |]. cbn [at_cursor mbind option_bind]. rewrite Hcur.
  destruct (take_free_run m freelist fl fresh Hf Hm) as (m1 & Hrun1 & Hf1 & Hm1 & Ho1); [set_solver |].
  rewrite (bind_run _ _ _ _ _ Hrun1). cbv zeta. remember (default fresh (head fl)) as e eqn:Ee.
  assert (e ∈ fresh :: fl) as He by (subst e; destruct fl; set_solver).
  destruct (add_at_run m1 root l (Z.to_nat i) e cur) as (m2 & Hrun2 & Hl2 & Ho2).
  - eapply dlist_frame; [exact Ho1 | set_solver | done].
  - done.
  - intros Hin. apply elem_of_cons in He as [-> | He]; [apply Hfresh; rewrite app_comm_cons, elem_of_app; by left |].
    apply (Hdisj e Hin). by apply elem_of_cons; right.
  - done.
  - rewrite (bind_run _ _ _ _ _ Hrun2). exists m2. split; [done |]. split; [exact Hl2 |]. split.
    + eapply dlist_frame; [exact Ho2 | | done]. destruct Hf as [Hnd _]. subst e. destruct fl as [| x fl]; cbn in *; [set_solver |].
      apply NoDup_cons in Hnd as [? Hnd]. apply NoDup_cons in Hnd as [? _]. set_solver.
    + intros r' l' Hd' Hr'. eapply dlist_frame; [exact Ho2 | set_solver |]. eapply dlist_frame; [exact Ho1 | set_solver | done].
Qed.

(** ** Loops that remove elements *)
Lemma dlist_next_run m r kept x todo : dlist m r (kept ++ x :: todo) -> dlist_next x m = (Ok (default r (head todo)), m).
Proof.
  intros [Hnd Hp]. apply path_app in Hp as [_ Hp]. apply path_ends in Hp as [Hn _].
  unfold nx in Hn. destruct (m !! x) as [y |] eqn:Hx; [| done]. injection Hn as Hn.
  unfold dlist_next. rewrite (bind_run _ _ _ _ _ (load_run _ _ _ Hx)). by rewrite Hn.
Qed.

Lemma dlist_first_run m r l : dlist m r l -> dlist_next r m = (Ok (default r (head l)), m).
Proof.
  intros Hd. pose proof Hd as [_ Hp]. apply path_ends in Hp as [Hn _]. unfold nx in Hn.
  destruct (m !! r) as [y |] eqn:Hx; [| done]. injection Hn as Hn.
  unfold dlist_next. rewrite (bind_run _ _ _ _ _ (load_run _ _ _ Hx)). by rewrite Hn.
Qed.

Lemma head_not_root m r kept x todo : dlist m r (kept ++ x :: todo) -> x <> r.
Proof. intros [Hnd _]. apply NoDup_cons in Hnd as [Hr _]. set_solver. Qed.

Lemma remove_entries_run root freelist mine kept todo fl fuel m :
  dlist m root (kept ++ todo) -> dlist m freelist fl -> root :: kept ++ todo ## freelist :: fl -> (length todo < fuel)%nat ->
  exists m', remove_entries fuel root freelist mine (default root (head todo)) m = (Ok tt, m') /\
    dlist m' root (kept ++ List.filter (fun e => negb (mine e)) todo) /\
    dlist m' freelist (rev (List.filter mine todo) ++ fl) /\
    only (root :: kept ++ todo ++ freelist :: fl) m m'.
Proof.
  revert kept fl fuel m. induction todo as [| x todo IH]; intros kept fl fuel m Hl Hf Hdisj Hfuel;
    (destruct fuel as [| fuel]; [simpl in Hfuel; lia |]); cbn [remove_entries head default from_option id].
  - rewrite Z.eqb_refl. exists m. split; [done |]. split; [done |]. split; [done |]. by intros a Ha.
  - rewrite (proj2 (Z.eqb_neq x root)) by (by eapply head_not_root). cbn [length] in Hfuel. cbn [List.filter]. destruct (mine x); cbn [negb].
    + destruct (remove_at_run m root kept x todo Hl) as (m1 & Hrun1 & Hl1 & Hx1 & Ho1). rewrite (bind_run _ _ _ _ _ Hrun1).
      destruct (add_after_run m1 freelist fl x) as (m2 & Hrun2 & Hf2 & Ho2).
      * eapply dlist_frame; [exact Ho1 | set_solver | done].
      * eapply dlist_mapped; [exact Hx1 | set_solver].
      * set_solver.
      * rewrite (bind_run _ _ _ _ _ Hrun2). pose proof Hl as [Hnd _].
        assert (x ∉ root :: kept ++ todo) as Hx.
        { apply NoDup_cons in Hnd as [Hr Hnd]. apply NoDup_app in Hnd as (_ & Hk & Hnd). apply NoDup_cons in Hnd as [Hxt _]. set_solver. }
        destruct (IH kept (x :: fl) fuel m2) as (m3 & Hrun3 & Hl3 & Hf3 & Ho3); [| done | | lia |].
        -- eapply dlist_frame; [exact Ho2 | set_solver | done].
        -- set_solver.
        -- exists m3. split; [done |]. split; [done |]. split; [cbn [rev]; by rewrite <- app_assoc |].
           eapply only_trans; [| eapply only_mono; [| exact Ho3]; set_solver].
           eapply only_trans; [eapply only_mono; [| exact Ho1]; set_solver | eapply only_mono; [| exact Ho2]; set_solver].
    + rewrite (bind_run _ _ _ _ _ (dlist_next_run m root kept x todo Hl)).
      destruct (IH (kept ++ [x]) fl fuel m) as (m' & Hrun & Hl' & Hf' & Ho'); rewrite <- ?app_assoc in *; [done | done | done | lia |].
      exists m'. split; [done |]. split; [done |]. split; [done |]. eapply only_mono; [| exact Ho']. set_solver.
Qed.

(** C14: Taking a funct off a thread, on the links: the loop over the list
    that it is changing ends, moves exactly the entries of the funct to the
    free list and keeps the order of the others. *)
Theorem drop_funct_refines m root l freelist fl mine :
  dlist m root l -> dlist m freelist fl -> root :: l ## freelist :: fl ->
  exists m', drop_funct (length l + 1) root freelist mine m = (Ok tt, m') /\
    dlist m' root (List.filter (fun e => negb (mine e)) l) /\
    dlist m' freelist (rev (List.filter mine l) ++ fl) /\
    (forall r' l', dlist m r' l' -> r' :: l' ## root :: l ++ freelist :: fl -> dlist m' r' l').
Proof.
  intros Hl Hf Hdisj. unfold drop_funct. rewrite (bind_run _ _ _ _ _ (dlist_first_run m root l Hl)).
  destruct (remove_entries_run root freelist mine [] l fl (length l + 1) m) as (m' & Hrun & Hl' & Hf' & Ho); [done | done | done | lia |].
  exists m'. split; [done |]. split; [done |]. split; [done |]. intros r' l' Hd Hr. eapply dlist_frame; [exact Ho | done | done].
Qed.

Lemma sweep_run head valid kept todo fuel m n count :
  dlist m head (kept ++ todo) -> (length todo < fuel)%nat -> (todo <> [] -> n = default head (list.head (tail todo))) ->
  exists m', for_each_safe fuel head (sweep_body valid) (default head (list.head todo)) n count m
      = (Ok (count + Z.of_nat (length (List.filter (fun e => negb (valid e)) todo))), m') /\
    dlist m' head (kept ++ List.filter valid todo) /\
    (forall e, e ∈ todo -> valid e = false -> dlist m' e []) /\ only (head :: kept ++ todo) m m'.
Proof.
  revert kept fuel m n count. induction todo as [| x todo IH]; intros kept fuel m n count Hl Hfuel Hn;
    (destruct fuel as [| fuel]; [simpl in Hfuel; lia |]); cbn [for_each_safe list.head default from_option id].
  - rewrite Z.eqb_refl, Z.add_0_r. exists m. split; [done |]. split; [done |]. split; [set_solver | by intros a Ha].
  - rewrite (proj2 (Z.eqb_neq x head)) by (by eapply head_not_root). cbn [length] in Hfuel. specialize (Hn ltac:(done)). cbn [tail] in Hn.
    pose proof Hl as [Hnd _]. assert (x ∉ head :: kept ++ todo) as Hx.
    { apply NoDup_cons in Hnd as [Hr Hnd]. apply NoDup_app in Hnd as (_ & Hk & Hnd). apply NoDup_cons in Hnd as [Hxt _]. set_solver. }
    assert (forall m1 kept1, dlist m1 head (kept1 ++ todo) -> exists n', dlist_next n m1 = (Ok n', m1) /\
      (todo <> [] -> n' = default head (list.head (tail todo)))) as Hstep.
    { intros m1 kept1 Hd1. subst n. destruct todo as [| y todo]; cbn.
      - exists (default head (list.head (kept1 ++ []))). split; [by apply dlist_first_run | done].
      - exists (default head (list.head todo)). split; [by eapply dlist_next_run | done]. }
    cbn [List.filter]. destruct (valid x) eqn:Ev; cbn [negb].
    + assert (dlist m head ((kept ++ [x]) ++ todo)) as Hl1 by by rewrite <- app_assoc.
      destruct (Hstep m _ Hl1) as (n' & Hrun & Hn').
      assert (sweep_body valid x count m = (Ok count, m)) as Hbody by by (unfold sweep_body; rewrite Ev).
      rewrite (bind_run _ _ _ _ _ Hbody), (bind_run _ _ _ _ _ Hrun).
      destruct (IH (kept ++ [x]) fuel m n' count Hl1 ltac:(lia) Hn') as (m' & Hrun' & Hl' & Hs & Ho). subst n.
      exists m'. split; [done |]. split; [by rewrite <- app_assoc in Hl' |]. split; [| eapply only_mono; [| exact Ho]; set_solver].
      intros e He Hev. apply Hs; [| done]. apply elem_of_cons in He as [-> | He]; [congruence | done].
    + destruct (remove_at_run m head kept x todo Hl) as (m1 & Hrun1 & Hl1 & Hx1 & Ho1).
      assert (sweep_body valid x count m = (Ok (count + 1), m1)) as Hbody by by (unfold sweep_body; rewrite Ev, (bind_run _ _ _ _ _ Hrun1)).
      rewrite (bind_run _ _ _ _ _ Hbody). destruct (Hstep m1 _ Hl1) as (n' & Hrun & Hn'). rewrite (bind_run _ _ _ _ _ Hrun).
      destruct (IH kept fuel m1 n' (count + 1) Hl1 ltac:(lia) Hn') as (m' & Hrun' & Hl' & Hs & Ho). subst n.
      exists m'. split; [rewrite Hrun'; cbn [length]; do 2 f_equal; lia |]. split; [done |]. split.
      * intros e He Hev. apply elem_of_cons in He as [-> | He]; [| by apply Hs].
        eapply dlist_frame; [exact Ho | set_solver | done].
      * eapply only_trans; [eapply only_mono; [| exact Ho1]; set_solver | eapply only_mono; [| exact Ho]; set_solver].
Qed.

(** The sweep of the object list, on the links: the loop ends although
    it removes the element it stands on; the valid objects stay in their
    order, the others are counted and linked to themselves. *)
Theorem sweep_refines m head l valid : dlist m head l ->
  exists m', sweep (length l + 1) head valid m = (Ok (Z.of_nat (length (List.filter (fun e => negb (valid e)) l))), m') /\
    dlist m' head (List.filter valid l) /\
    (forall e, e ∈ l -> valid e = false -> dlist m' e []) /\
    (forall r' l', dlist m r' l' -> r' :: l' ## head :: l -> dlist m' r' l').
Proof.
  intros Hl. unfold sweep, dlist_for_each_safe. rewrite (bind_run _ _ _ _ _ (dlist_first_run m head l Hl)).
  assert (exists n, dlist_next (default head (list.head l)) m = (Ok n, m) /\ (l <> [] -> n = default head (list.head (tail l)))) as (n & Hn & Hne).
  { destruct l as [| x l]; cbn; eexists; (split; [| done]); [exact (dlist_first_run m head [] Hl) | exact (dlist_next_run m head [] x l Hl)]. }
  rewrite (bind_run _ _ _ _ _ Hn). destruct (sweep_run head valid [] l (length l + 1) m n 0 Hl ltac:(lia) Hne) as (m' & Hrun & Hl' & Hs & Ho).
  exists m'. split; [exact Hrun |]. split; [done |]. split; [done |]. intros r' l' Hd Hr. by eapply dlist_frame.
Qed.

(** ** Concrete lists: a thread with three entries, a free list with one *)
Definition two_lists : links := list_to_map [
  (100, HalElem 10 30); (10, HalElem 20 100); (20, HalElem 30 10); (30, HalElem 100 20);
  (200, HalElem 50 50); (50, HalElem 200 200); (60, HalElem 0 0)].

Ltac concrete_list := split; [apply (bool_decide_unpack _); vm_compute; exact I | repeat (split; [split; reflexivity |]); split; reflexivity].

Lemma two_lists_ok : dlist two_lists 100 [10; 20; 30] /\ dlist two_lists 200 [50].
Proof. split; concrete_list. Qed.

Ltac disjoint_lists := intros a Ha Hb; repeat (apply elem_of_cons in Ha as [-> | Ha]; [set_solver by lia |]); set_solver.

Lemma add_entry_refines_witness : exists m',
  add_entry 5 100 200 60 (-1) two_lists = (Ok (Some 50), m') /\ dlist m' 100 [10; 20; 30; 50] /\ dlist m' 200 [].
Proof.
  destruct two_lists_ok as [Hl Hf].
  destruct (add_entry_refines two_lists 100 [10; 20; 30] 200 [50] 60 (-1) Hl Hf) as (m' & H1 & H2 & H3 & _).
  - disjoint_lists.
  - by eexists.
  - set_solver by lia.
  - exists m'. split; [exact H1 |]. split; [exact H2 | exact H3].
Defined.

Lemma drop_funct_refines_witness : exists m',
  drop_funct 4 100 200 (fun e => negb (e =? 20)) two_lists = (Ok tt, m') /\ dlist m' 100 [20] /\ dlist m' 200 [30; 10; 50].
Proof.
  destruct two_lists_ok as [Hl Hf].
  destruct (drop_funct_refines two_lists 100 [10; 20; 30] 200 [50] (fun e => negb (e =? 20)) Hl Hf) as (m' & H1 & H2 & H3 & _).
  - disjoint_lists.
  - exists m'. split; [exact H1 |]. split; [exact H2 | exact H3].
Defined.

Lemma sweep_refines_witness : exists m',
  sweep 4 100 (fun e => e =? 20) two_lists = (Ok 2, m') /\ dlist m' 100 [20] /\ dlist m' 30 [].
Proof.
  destruct two_lists_ok as [Hl _].
  destruct (sweep_refines two_lists 100 [10; 20; 30] (fun e => e =? 20) Hl) as (m' & H1 & H2 & H3 & _).
  exists m'. split; [exact H1 |]. split; [exact H2 |]. apply H3; [set_solver | reflexivity].
Defined.

(** The traversal is safe against the removal of the element it stands on,
    not of the next one: that element is then linked to itself, and the loop
    never comes back to the head. *)
Example removing_the_next_spins :
  fst (dlist_for_each_safe 1000 100 (fun pos (_ : unit) => if pos =? 10 then dlist_remove_entry 20 ≫= fun _ => mret tt else mret tt) tt two_lists) = Crash.
Proof. vm_compute. reflexivity. Qed.
