(* ===== verification/HalFunctTheorems.v ===== *)
(** * Theorems about functs, threads and real-time memory *)
From S2P Require Import Prelude RtapiTask HalData HalMemory HalObject HalObjectFacts HalPin HalLinks HalBoot HalFunct HalThread HalFunctFacts.

Section Theorems.
Context {H : Type} {HA : Allocator H} {PF : Platform}.
Implicit Types s : hal_state H.

(** shmalloc_rt hands out the aligned block below the top of the segment
    (8 bytes for blocks of 8 bytes and more, 4 from 4 bytes on, 2 for 2
    bytes), never below the bottom; consecutive blocks are disjoint, and
    without room it fails with -ENOMEM and takes nothing. *)
Theorem shmalloc_rt_outcome size s r s' :
  hs_init s = true -> rt_range s -> 0 <= size < 2 ^ 62 ->
  shmalloc_rt size s = (r, s') ->
  match r with
  | Ok p => hs_shmem_bot s <= p /\ p + size <= hs_shmem_top s < p + size + 2 ^ rt_align size /\
      (2 ^ rt_align size | p) /\ hs_shmem_top s' = p /\ rt_range s' /\
      hs_objs s' = hs_objs s /\ hs_fentries s' = hs_fentries s
  | Err e => e = - ENOMEM /\ s' = set_halerrno (- ENOMEM) s /\
      hs_shmem_top s - size - hs_shmem_bot s < 2 ^ rt_align size
  | Crash => False
  end.
Proof.
  intros Hi Hr Hs. rewrite shmalloc_rt_run by (done || (destruct Hr; lia)). cbv zeta.
  destruct (rt_block_bounds s size) as [Hb Hd]; [lia |]. destruct Hr as [Hr1 Hr2].
  destruct (_ <? _) eqn:E; zb; intros [= <- <-].
  - split; [done |]. split; [done | lia].
  - simpl. repeat split; try done; simpl; lia.
Qed.

(** hal_add_funct_to_thread on an existing funct and thread: it succeeds
    exactly when the funct is a thread function, not in use or reentrant,
    needs floating point only where the thread has it, and the position is
    on the list; then a new entry, used by no thread, that calls the funct
    with its barriers, is put behind entry [position - 1] (a negative
    position counts from the end), the user count is incremented, and the
    accounting of entries still holds.  Otherwise nothing changes. *)
Theorem add_funct_outcome fname tname position rb wb s fo fh f to th t r s' :
  funct_inv s -> 0 < sizeof_funct_entry < 2 ^ 62 -> entry_room s ->
  Z.land (hs_lock s) HAL_LOCK_CONFIG = 0 -> position <> 0 ->
  funct_lookup s fname = Some fo -> hs_objs s !! fo = Some (HalObj fh (BFunct f)) ->
  thread_lookup s tname = Some to -> hs_objs s !! to = Some (HalObj th (BThread t)) ->
  hal_add_funct_to_thread (Some fname) (Some tname) position rb wb s = (r, s') ->
  let threadfunc := (f_type f =? FS_LEGACY_THREADFUNC) || (f_type f =? FS_XTHREADFUNC) in
  let i := if 0 <? position then position - 1 else Z.of_nat (length (t_funct_list t)) + 1 + position in
  if threadfunc && negb ((0 <? f_users f) && (f_reentrant f =? 0)) &&
     negb (negb (f_uses_fp f =? 0) && (t_uses_fp t =? 0)) &&
     ((0 <=? i) && (i <=? Z.of_nat (length (t_funct_list t))))
  then r = Ok 0 /\ funct_inv s' /\
    (exists e, (e ∉ all_entries (hs_objs s) (hs_halobjects s)) /\
       hs_objs s' !! to = Some (HalObj th (BThread (thread_set_funct_list t
         (take (Z.to_nat i) (t_funct_list t) ++ e :: drop (Z.to_nat i) (t_funct_list t))))) /\
       hs_fentries s' !! e = Some (new_entry fo f rb wb) /\
       forall e', e' <> e -> hs_fentries s' !! e' = hs_fentries s !! e') /\
    hs_objs s' !! fo = Some (HalObj fh (BFunct (funct_set_users f (f_users f + 1)))) /\
    (forall o, o <> to -> o <> fo -> hs_objs s' !! o = hs_objs s !! o)
  else r = Err (- EINVAL) /\ s' = set_halerrno (- EINVAL) s.
Proof.
  intros Hi Hsz Hroom Hlock Hp Hff Hf Hft Ht Hrun threadfunc i.
  assert (fo <> to) as Hne by (intros ->; congruence).
  assert (addable f t position =
    if threadfunc && negb ((0 <? f_users f) && (f_reentrant f =? 0)) &&
       negb (negb (f_uses_fp f =? 0) && (t_uses_fp t =? 0)) &&
       ((0 <=? i) && (i <=? Z.of_nat (length (t_funct_list t)))) then Some i else None) as Ha.
  { unfold addable, threadfunc. rewrite insertion_point_spec by lia. fold i. cbv zeta.
    by destruct (_ && negb ((0 <? f_users f) && _) && _). }
  destruct (_ && _) eqn:Ec; zb.
  - eapply (wp_run _ (fun a s' => a = 0 /\ exists e s1 free, rt_taken s s1 /\
       (e ∉ all_entries (hs_objs s) (hs_halobjects s)) /\ funct_inv s' /\
       s' = entry_state s1 to th (thread_set_funct_list t (insert_after i e (t_funct_list t)))
        fo fh (funct_set_users f (f_users f + 1)) e (new_entry fo f rb wb) free) (fun _ _ => False)) in Hrun.
    + destruct r as [a | |]; [| done | done].
      destruct Hrun as (-> & e & s1 & free & Hs1 & He & Hi' & ->).
      assert (hs_objs s1 = hs_objs s /\ hs_fentries s1 = hs_fentries s) as [Eo Ef]
        by (destruct Hs1 as [-> | (p & l & ->)]; done).
      split; [done |]. split; [done |]. unfold entry_state. simpl. rewrite Eo, Ef. split; [| split].
      * exists e. split; [done |]. rewrite lookup_insert_ne, lookup_insert_eq by done.
        split; [done |]. rewrite lookup_insert_eq. split; [done |]. intros; by rewrite lookup_insert_ne.
      * by rewrite lookup_insert_eq.
      * intros o Ho1 Ho2. by rewrite !lookup_insert_ne.
    + eapply (wp_add_funct fname tname position rb wb s fo fh f to th t); try done; [| by rewrite Ha].
      rewrite Ha. intros i' e s1 free [= <-] Hs1 He s2 Hi2. eauto 10.
  - eapply (wp_run _ (fun _ _ => False) (fun e s' => e = - EINVAL /\ s' = set_halerrno (- EINVAL) s)) in Hrun.
    + destruct r as [| e |]; [done | | done]. by destruct Hrun as [-> ->].
    + eapply (wp_add_funct fname tname position rb wb s fo fh f to th t); try done; by rewrite Ha.
Qed.

(** hal_del_funct_from_thread takes the first entry of the thread that
    calls the funct off the list, frees it and decrements the user count; a
    thread that does not call the funct is an error that changes nothing. *)
Theorem del_funct_outcome fname tname s fo fh f to th t r s' :
  funct_inv s -> Z.land (hs_lock s) HAL_LOCK_CONFIG = 0 ->
  funct_lookup s fname = Some fo -> hs_objs s !! fo = Some (HalObj fh (BFunct f)) ->
  thread_lookup s tname = Some to -> hs_objs s !! to = Some (HalObj th (BThread t)) ->
  hal_del_funct_from_thread (Some fname) (Some tname) s = (r, s') ->
  match List.find (calls (hs_fentries s) fo) (t_funct_list t) with
  | Some e => r = Ok 0 /\ funct_inv s' /\ hs_funct_entry_free s' = e :: hs_funct_entry_free s /\
      hs_objs s' !! to = Some (HalObj th (BThread (thread_set_funct_list t (unlist e (t_funct_list t))))) /\
      hs_objs s' !! fo = Some (HalObj fh (BFunct (funct_set_users f (f_users f - 1)))) /\
      (forall o, o <> to -> o <> fo -> hs_objs s' !! o = hs_objs s !! o) /\
      (forall e', e' <> e -> hs_fentries s' !! e' = hs_fentries s !! e')
  | None => r = Err (- EINVAL) /\ s' = set_halerrno (- EINVAL) s
  end.
Proof.
  intros Hi Hlock Hff Hf Hft Ht Hrun. assert (fo <> to) as Hne by (intros ->; congruence).
  destruct (List.find _ _) as [e |] eqn:Ee.
  - eapply (wp_run _ (fun a s' => a = 0 /\ exists fe, fe_funct_ptr fe = fo /\ funct_inv s' /\
      s' = dropped s to th t e fe fh f) (fun _ _ => False)) in Hrun.
    + destruct r as [a | |]; [| done | done]. destruct Hrun as (-> & fe & Hptr & Hi' & ->).
      split; [done |]. split; [done |]. unfold dropped, entry_state. simpl. rewrite Hptr. split; [done |].
      split; [by rewrite lookup_insert_ne, lookup_insert_eq |]. split; [by rewrite lookup_insert_eq |].
      split; intros; by rewrite ?lookup_insert_ne.
    + eapply (wp_del_funct fname tname s fo fh f to th t); try done; [| by rewrite Ee].
      rewrite Ee. intros e' fe [= <-] _ Hptr Hi'. eauto 10.
  - eapply (wp_run _ (fun _ _ => False) (fun e s' => e = - EINVAL /\ s' = set_halerrno (- EINVAL) s)) in Hrun.
    + destruct r as [| e |]; [done | | done]. by destruct Hrun as [-> ->].
    + eapply (wp_del_funct fname tname s fo fh f to th t); try done. by rewrite Ee.
Qed.

(** free_funct_struct, the deletion of a funct, takes every entry that
    calls it off every thread, leaving the order of the others: afterwards
    no thread can call the funct, which is invalid and has no users. *)
Theorem free_funct_outcome s fo h f r s' :
  funct_inv s -> hs_objs s !! fo = Some (HalObj h (BFunct f)) -> hh_refcnt h = 0 ->
  free_funct_struct fo s = (r, s') ->
  r = Ok tt /\ funct_inv s' /\ hs_halobjects s' = hs_halobjects s /\
  hs_objs s' !! fo = Some (HalObj (snd (hh_clear_hdr h)) (BFunct (funct_set_users f 0))) /\
  (forall to th t, to ∈ hs_halobjects s -> hs_objs s !! to = Some (HalObj th (BThread t)) ->
     hs_objs s' !! to = Some (HalObj th (BThread (thread_set_funct_list t
       (List.filter (fun e => negb (calls (hs_fentries s) fo e)) (t_funct_list t)))))) /\
  (forall e, e ∈ all_entries (hs_objs s') (hs_halobjects s') -> calls (hs_fentries s') fo e = false) /\
  (forall o ho b, o <> fo -> (forall t, b <> BThread t) ->
     hs_objs s !! o = Some (HalObj ho b) -> hs_objs s' !! o = Some (HalObj ho b)).
Proof.
  intros Hi Hf Hrc Hrun.
  eapply (wp_run _ (fun _ s' => exists s1 D, relisted s fo D s1 /\
      (forall o, o ∈ hs_halobjects s -> D o = without s fo o) /\
      s' = invalidated s1 fo h (funct_set_users f 0) /\ funct_inv s') (fun _ _ => False)) in Hrun.
  2:{ eapply wp_free_funct; try done. intros s1 D Hr HD s2 Hi2. eauto 10. }
  destruct r as [[] | |]; [| done | done]. destruct Hrun as (s1 & D & Hr & HD & -> & Hi').
  split; [done |]. split; [done |]. split; [apply Hr |]. split; [simpl; by rewrite lookup_insert_eq |].
  split; [| split].
  - intros to th t Hto Ht. simpl. rewrite lookup_insert_ne by (intros ->; congruence).
    destruct (rl_obj _ _ _ _ Hr _ _ _ Ht) as (b' & -> & ->). rewrite HD by done.
    unfold without, thread_entries. by rewrite Ht.
  - intros e He. destruct (calls (hs_fentries (invalidated s1 fo h (funct_set_users f 0))) fo e) eqn:Ec; [| done].
    pose proof (fi_users _ Hi' fo _ _ (lookup_insert_eq _ _ _)) as Hu. simpl in Hu. unfold users in Hu.
    assert (e ∈ List.filter (calls (hs_fentries s1) fo) (all_entries (hs_objs (invalidated s1 fo h (funct_set_users f 0))) (hs_halobjects s1))) as Hin.
    { apply list_elem_of_In, filter_In. split; [by apply list_elem_of_In | done]. }
    unfold invalidated in Hin. simpl in Hin, Hu.
    destruct (List.filter _ _); [by apply not_elem_of_nil in Hin | simpl in Hu; lia].
  - intros o ho b Hne Hb Ho. simpl. rewrite lookup_insert_ne by done.
    destruct (rl_obj _ _ _ _ Hr _ _ _ Ho) as (b' & -> & Hb'). f_equal. f_equal.
    destruct b as [| | | t | f0 | | | | | | | |]; try done; [by destruct (Hb t) |].
    destruct Hb' as (n & -> & Hn). rewrite Hn by done. by destruct f0.
Qed.
End Theorems.

(** ** The cycle of a thread *)
Section Cycle.
Context {H : Type} {HA : Allocator H} {PF : Platform} {FL : Flavor} {TH : ThreadFuncts H}.
Implicit Types s : hal_state H.
Abbreviation HM := (M (hal_state H)).

(** The function entries of thread [to]. *)
Definition thread_list s (to : Z) : option (list Z) :=
  match hs_objs s !! to with Some (HalObj _ (BThread t)) => Some (t_funct_list t) | _ => None end.

Definition keeps {A} (to : Z) (m : HM A) : Prop :=
  forall s, thread_list (snd (m s)) to = thread_list s to.

Lemma keeps_bind {A B} to (m : HM A) (f : A -> HM B) :
  keeps to m -> (forall a, keeps to (f a)) -> keeps to (m ≫= f).
Proof.
  intros Hm Hf s. unfold mbind, M_bind. specialize (Hm s).
  destruct (m s) as [[] s1]; simpl in *; try done. by rewrite Hf.
Qed.

Lemma keeps_ret {A} to (a : A) : keeps to (mret a).
Proof. done. Qed.
Lemma keeps_crash {A} to : keeps to (crash : HM A).
Proof. done. Qed.
Lemma keeps_get_obj to o : keeps to (get_obj o).
Proof. intros s. unfold get_obj. by destruct (hs_objs s !! o). Qed.
Lemma keeps_get_fentry to e : keeps to (get_fentry e).
Proof. intros s. unfold get_fentry. by destruct (hs_fentries s !! e). Qed.

Hint Resolve keeps_ret keeps_crash keeps_get_obj keeps_get_fentry : core.
Ltac keep := repeat (first [done | apply keeps_bind; [| intros ?] | case_match]); auto.

Lemma keeps_get_pin to o : keeps to (get_pin o).
Proof. unfold get_pin. keep. Qed.
Lemma keeps_get_funct to o : keeps to (get_funct o).
Proof. unfold get_funct. keep. Qed.

Lemma keeps_store to a f : keeps to (store_value a f).
Proof.
  intros s. destruct a as [| o | o | o |]; try done; unfold store_value, get_pin, get_sig, get_param,
    set_body, get_obj, mbind, M_bind, thread_list.
  all: destruct (hs_objs s !! o) as [[h []] |] eqn:Eo; try done; simpl; rewrite Eo; simpl.
  all: destruct (decide (to = o)) as [-> |]; [by rewrite lookup_insert_eq, Eo | by rewrite lookup_insert_ne].
Qed.

Lemma keeps_load to a : keeps to (load_value a).
Proof. destruct a; unfold load_value, get_sig, get_param; keep; apply keeps_get_pin. Qed.

Lemma keeps_set_pin to f o v : keeps to (set_pin_with f o v).
Proof.
  apply keeps_bind; [apply keeps_get_pin | intros p]. apply keeps_bind; [apply keeps_store | done].
Qed.

Lemma keeps_get_pin_with to f o : keeps to (get_pin_with f o).
Proof.
  apply keeps_bind; [apply keeps_get_pin | intros p]. apply keeps_bind; [apply keeps_load | done].
Qed.

(** The loaded functs leave the list of thread [to] alone. *)
Definition functs_keep (to : Z) : Prop :=
  (forall f a p, keeps to (run_legacy f a p)) /\ (forall f a, keeps to (run_xthread f a)).

Variable now : nat -> Z.

Lemma keeps_call_entry to period e start reads :
  functs_keep to -> keeps to (call_entry now period e start reads).
Proof.
  intros [Hl Hx]. apply keeps_bind; [apply keeps_get_fentry | intros fe].
  apply keeps_bind; [repeat case_match; auto | intros _].
  apply keeps_bind; [apply keeps_get_funct | intros f].
  apply keeps_bind; [apply keeps_set_pin | intros _].
  apply keeps_bind; [apply keeps_get_pin_with | intros m]. apply keeps_bind; [| done].
  case_match; [| done]. apply keeps_bind; [apply keeps_set_pin | done].
Qed.

(** Every entry of the list once, in order; each call is timed from the end
    of the call before. *)
Fixpoint call_all (period : Z) (l : list Z) (start : Z) (end_time : option Z) (reads : nat)
  : HM (option Z * nat) :=
  match l with
  | [] => mret (end_time, reads)
  | e :: l' => end_time ← call_entry now period e start reads;
               call_all period l' end_time (Some end_time) (S reads)
  end.

Lemma list_after_app e l1 l2 : (e ∉ l1) -> list_after e (l1 ++ e :: l2) = Some l2.
Proof.
  induction l1 as [| x l1 IH]; intros He; simpl; [by rewrite Z.eqb_refl |].
  apply not_elem_of_cons in He as [Hx He]. rewrite IH by done.
  destruct (x =? e) eqn:E; zb; [by subst |]. done.
Qed.

Lemma next_entry_run to e s l : thread_list s to = Some l ->
  next_entry to e s = (match list_after e l with Some k => Ok (head k) | None => Crash end, s).
Proof.
  unfold thread_list, next_entry, get_thread, get_obj, mbind, M_bind. intros Ht.
  destruct (hs_objs s !! to) as [[h []] |]; simplify_eq. simpl. by destruct (list_after e _).
Qed.

(** The cycle of a running thread calls the entries of its list one
    after the other, each exactly once and in list order, provided the functs
    leave the list alone; the walk over the links ends after as many steps as
    the list has entries. *)
Theorem run_functs_in_order fuel to period l s start end_time reads :
  functs_keep to -> thread_list s to = Some l -> NoDup l -> (length l <= fuel)%nat ->
  run_functs now fuel to period (head l) start end_time reads s
  = call_all period l start end_time reads s.
Proof.
  intros Hk Hl Hn Hf.
  assert (forall k l1 fuel s start end_time reads, l = l1 ++ k -> thread_list s to = Some l ->
    (length k <= fuel)%nat ->
    run_functs now fuel to period (head k) start end_time reads s
    = call_all period k start end_time reads s) as Hgen; [| by apply (Hgen l [])].
  clear fuel s start end_time reads Hl Hf.
  induction k as [| e k IH]; intros l1 fuel s start end_time reads -> Hl Hf; simpl.
  - by destruct fuel.
  - destruct fuel as [| fuel]; simpl in Hf; [lia |]. simpl.
    unfold mbind at 1 3, M_bind at 1 3. pose proof (keeps_call_entry to period e start reads Hk s) as Hs.
    destruct (call_entry now period e start reads s) as [[et | |] s1]; [| done | done]. simpl in Hs.
    unfold mbind, M_bind. rewrite (next_entry_run _ _ _ (l1 ++ e :: k)) by congruence.
    apply NoDup_app in Hn as (_ & Hn & _). rewrite list_after_app; [| intros Hx; apply (Hn e Hx); left].
    apply (IH (l1 ++ [e])); [by rewrite <- app_assoc | congruence | lia].
Qed.

(** A thread whose list is still empty in the first cycle it runs
    computes its execution time from the variable [end_time] before anything
    was assigned to it. *)
Theorem first_cycle_without_functs fuel to s l th t cp hp :
  hs_init s = true -> hs_objs s !! to = Some (HalObj th (BThread t)) ->
  t_funct_list t = [] -> 0 < hs_threads_running s -> tl_end_time l = None ->
  hs_objs s !! t_curr_period t = Some (HalObj hp (BPin cp)) -> p_data_ptr cp = ADummy (t_curr_period t) ->
  fst (thread_cycle now fuel to l s) = Crash.
Proof.
  intros Hi Ht Hl Hr He Hc Hp. unfold thread_cycle, get_thread, get_obj, hal_data, mbind, M_bind.
  rewrite Ht. simpl. rewrite Hi, (proj2 (Z.ltb_lt _ _)) by done.
  unfold set_s32_pin, set_pin_with, store_value, get_pin, set_body, get_obj, mbind, M_bind.
  rewrite Hc. simpl. rewrite Hp, Hc. simpl. rewrite Hc. simpl. rewrite Hl, He. by destruct fuel.
Qed.
End Cycle.

(** ** Witnesses

    A segment with two functs, one of them on the list of a thread. *)
Definition w_hdr (id : Z) (p : Z) (n : string) : halhdr :=
  HalHdr id 0 (Some (p, n)) 0 false true false false.

Definition w_f (users : Z) : hal_funct := HalFunct 0 7 FS_XTHREADFUNC 0 0 0 0 1 users.
Definition w_t (l : list Z) : hal_thread := HalThread 0 1000 1 0 0 0 0 l (-1) 0.

Definition w_entry : hal_funct_entry := HalFunctEntry 0 0 FS_XTHREADFUNC 0 7 128.

Definition w_functs : hal_state bump :=
  HalState true HAL_VER (Bump 512 ∅) (Bump 512 ∅)
    (<[128 := HalObj (w_hdr 2 128 "f.a") (BFunct (w_f 1))]>
    (<[192 := HalObj (w_hdr 3 192 "f.b") (BFunct (w_f 0))]>
    {[256 := HalObj (w_hdr 4 256 "servo") (BThread (w_t [262000]))]}))
    [128; 192; 256] [256] [] {[262000 := w_entry]} ∅ HAL_LOCK_NONE 1 0 0 1024 262000 0 0 0 0 9 0 0
    (RtapiData 0 ∅ 0 0) no_rings.

Lemma w_functs_lookup o h b : hs_objs w_functs !! o = Some (HalObj h b) ->
  (o = 128 /\ h = w_hdr 2 128 "f.a" /\ b = BFunct (w_f 1)) \/
  (o = 192 /\ h = w_hdr 3 192 "f.b" /\ b = BFunct (w_f 0)) \/
  (o = 256 /\ h = w_hdr 4 256 "servo" /\ b = BThread (w_t [262000])).
Proof.
  unfold w_functs. cbn [hs_objs]. rewrite !lookup_insert_Some, lookup_singleton_Some. naive_solver.
Qed.

Lemma w_functs_inv : funct_inv w_functs.
Proof.
  split; try done.
  - intros o Ho. simpl in Ho. rewrite !elem_of_cons in Ho.
    destruct Ho as [-> | [-> | [-> | Ho%elem_of_nil]]]; [by eexists.. | done].
  - by apply (bool_decide_unpack _); vm_compute.
  - by apply (bool_decide_unpack _); vm_compute.
  - intros e He. by apply not_elem_of_nil in He.
  - intros e He. change (all_entries _ _) with [262000] in He. apply list_elem_of_singleton in He as ->.
    exists w_entry. eexists _, _. by repeat split.
  - intros fo h f Ho. apply w_functs_lookup in Ho as [(-> & -> & Hb) | [(-> & -> & Hb) | (-> & -> & Hb)]];
      simplify_eq; done.
  - intros fo h f Ho. apply w_functs_lookup in Ho as [(-> & -> & Hb) | [(-> & -> & Hb) | (-> & -> & Hb)]];
      simplify_eq; done.
  - intros o h b Ho. by apply w_functs_lookup in Ho as [(-> & -> & Hb) | [(-> & -> & Hb) | (-> & -> & Hb)]].
  - intros e [fe Hfe]. unfold w_functs in Hfe. cbn [hs_fentries] in Hfe. apply lookup_singleton_Some in Hfe as [<- _]. done.
Qed.

Lemma shmalloc_rt_outcome_witness :
  exists p s', shmalloc_rt 12 w_functs = (Ok p, s') /\ (8 | p).
Proof.
  destruct (shmalloc_rt 12 w_functs) as [r s'] eqn:E.
  pose proof (shmalloc_rt_outcome 12 w_functs r s' eq_refl (fi_range _ w_functs_inv) ltac:(lia) E) as Ho.
  vm_compute in E. destruct r as [p | |]; [| discriminate..].
  exists p, s'. split; [reflexivity |]. destruct Ho as (_ & _ & Hd & _). exact Hd.
Defined.

Lemma add_funct_outcome_witness :
  exists s', hal_add_funct_to_thread (Some "f.b") (Some "servo") 1 0 0 w_functs = (Ok 0, s') /\
    exists e, thread_list s' 256 = Some [e; 262000].
Proof.
  destruct (hal_add_funct_to_thread (Some "f.b") (Some "servo") 1 0 0 w_functs) as [r s'] eqn:E.
  pose proof (add_funct_outcome "f.b" "servo" 1 0 0 w_functs 192 (w_hdr 3 192 "f.b") (w_f 0) 256
    (w_hdr 4 256 "servo") (w_t [262000]) r s' w_functs_inv (conj eq_refl eq_refl)
    ltac:(right; vm_compute; discriminate) eq_refl ltac:(lia) eq_refl eq_refl eq_refl eq_refl E) as Ho.
  destruct Ho as (-> & _ & (e & _ & Ht & _) & _). exists s'. split; [reflexivity |].
  exists e. unfold thread_list. rewrite Ht. reflexivity.
Defined.

Lemma del_funct_outcome_witness :
  exists s', hal_del_funct_from_thread (Some "f.a") (Some "servo") w_functs = (Ok 0, s') /\
    thread_list s' 256 = Some [].
Proof.
  destruct (hal_del_funct_from_thread (Some "f.a") (Some "servo") w_functs) as [r s'] eqn:E.
  pose proof (del_funct_outcome "f.a" "servo" w_functs 128 (w_hdr 2 128 "f.a") (w_f 1) 256
    (w_hdr 4 256 "servo") (w_t [262000]) r s' w_functs_inv eq_refl eq_refl eq_refl eq_refl eq_refl E) as Ho.
  destruct Ho as (-> & _ & _ & Ht & _). exists s'. split; [reflexivity |].
  unfold thread_list. rewrite Ht. reflexivity.
Defined.

Lemma free_funct_outcome_witness :
  exists s', free_funct_struct 128 w_functs = (Ok tt, s') /\ thread_list s' 256 = Some [].
Proof.
  destruct (free_funct_struct 128 w_functs) as [r s'] eqn:E.
  pose proof (free_funct_outcome w_functs 128 (w_hdr 2 128 "f.a") (w_f 1) r s' w_functs_inv eq_refl eq_refl E) as Ho.
  destruct Ho as (-> & _ & _ & _ & Ht & _). exists s'. split; [reflexivity |].
  unfold thread_list. rewrite (Ht 256 (w_hdr 4 256 "servo") (w_t [262000])); [reflexivity | | reflexivity].
  simpl. set_solver.
Defined.

(** Functs that do nothing. *)
#[export] Instance idle_functs : ThreadFuncts bump := {
  run_legacy _ _ _ := mret tt;
  run_xthread _ _ := mret tt;
}.

Lemma run_functs_in_order_witness :
  run_functs (fun n => Z.of_nat n) 1 256 1000 (Some 262000) 5 None 6 w_functs
  = call_all (fun n => Z.of_nat n) 1000 [262000] 5 None 6 w_functs.
Proof.
  apply (run_functs_in_order (fun n => Z.of_nat n) 1 256 1000 [262000]); [split; done | reflexivity | | simpl; lia].
  apply NoDup_singleton.
Defined.

(** A thread without functs, and the pin of its period. *)
Definition w_idle : hal_state bump :=
  set_objs (<[320 := HalObj (w_hdr 5 320 "p") (BPin (HalPin None (ADummy 320) 0 0 HAL_S32 HAL_OUT 0 0))]>
    (<[256 := HalObj (w_hdr 4 256 "servo") (BThread (HalThread 0 1000 1 0 0 0 320 [] (-1) 0))]> ∅)) w_functs.

Lemma first_cycle_without_functs_witness :
  fst (thread_cycle (fun n => Z.of_nat n) 3 256 task_locals_init w_idle) = Crash.
Proof.
  apply (first_cycle_without_functs (fun n => Z.of_nat n) 3 256 w_idle task_locals_init (w_hdr 4 256 "servo")
    (HalThread 0 1000 1 0 0 0 320 [] (-1) 0) (HalPin None (ADummy 320) 0 0 HAL_S32 HAL_OUT 0 0) (w_hdr 5 320 "p"));
    first [reflexivity | simpl; lia].
Defined.
