(* ===== verification/Encoder.v ===== *)
(** * Software encoder counter (modules/managed/components/encoder/src/encoder.c)

    [update] samples the quadrature inputs in the fast thread and counts;
    [capture] computes position and velocity in the slow thread.  The two
    share a double buffer: [update] may run in the middle of [capture], so
    [capture] is the composition of the part that interacts with [update]
    and of the rest.  Pins are fields; increments of the 32-bit counts wrap. *)
From S2P Require Import Prelude Double.

Module Encoder.

(** ** State ([counter_t], [atomic]) *)
Record atomic := Atomic {
  a_count_detected : bool;
  a_index_detected : bool;
  a_latch_detected : bool;
  a_raw_count : Z;
  a_timestamp : Z;
  a_index_count : Z;
  a_latch_count : Z;
}.

(** Pins that are only read. *)
Record inputs := Inputs {
  x4_mode : bool;
  counter_mode : bool;
  phaseA : bool;
  phaseB : bool;
  phaseZ : bool;
  reset : bool;
  latch_in : bool;
  latch_rising : bool;
  latch_falling : bool;
}.

(** Written by [update] ([raw_counts]: a pin), and [Zmask], written by both. *)
Record fast := Fast {
  e_state : Z;
  e_oldZ : Z;
  e_Zmask : Z;
  e_raw_counts : Z;
  e_old_latch : bool;
}.

(** Written by [capture] only; [index_ena], [pos_scale] and [min_speed] are
    pins that it also reads. *)
Record slow := Slow {
  index_ena : bool;
  min_speed : double;
  pos_scale : double;
  raw_count : Z;
  timestamp : Z;
  index_count : Z;
  latch_count : Z;
  old_scale : double;
  scale : double;
  counts_since_timeout : Z;
  count : Z;
  count_latch : Z;
  pos : double;
  pos_interp : double;
  pos_latch : double;
  vel : double;
}.

(** [c_bp]: is the second buffer in use? *)
Record counter_t := Counter {
  c_in : inputs;
  c_fast : fast;
  c_buf0 : atomic;
  c_buf1 : atomic;
  c_bp : bool;
  c_slow : slow;
}.

Definition buf_of (c : counter_t) (b : bool) : atomic := if b then c_buf1 c else c_buf0 c.
Definition set_buf (c : counter_t) (b : bool) (a : atomic) : counter_t :=
  if b then Counter (c_in c) (c_fast c) (c_buf0 c) a (c_bp c) (c_slow c)
  else Counter (c_in c) (c_fast c) a (c_buf1 c) (c_bp c) (c_slow c).
Definition set_fast (c : counter_t) (f : fast) : counter_t :=
  Counter (c_in c) f (c_buf0 c) (c_buf1 c) (c_bp c) (c_slow c).
Definition set_slow (c : counter_t) (s : slow) : counter_t :=
  Counter (c_in c) (c_fast c) (c_buf0 c) (c_buf1 c) (c_bp c) s.
Definition set_bp (c : counter_t) (b : bool) : counter_t :=
  Counter (c_in c) (c_fast c) (c_buf0 c) (c_buf1 c) b (c_slow c).
Definition set_in (c : counter_t) (i : inputs) : counter_t :=
  Counter i (c_fast c) (c_buf0 c) (c_buf1 c) (c_bp c) (c_slow c).

(** ** Quadrature decoding *)
Definition SM_PHASE_A_MASK : Z := 0x01.
Definition SM_PHASE_B_MASK : Z := 0x02.
Definition SM_LOOKUP_MASK : Z := 0x0F.
Definition SM_CNT_UP_MASK : Z := 0x40.
Definition SM_CNT_DN_MASK : Z := 0x80.

Definition lut_x4 : list Z :=
  [0x00; 0x44; 0x88; 0x0C; 0x80; 0x04; 0x08; 0x4C;
   0x40; 0x04; 0x08; 0x8C; 0x00; 0x84; 0x48; 0x0C].
Definition lut_x1 : list Z :=
  [0x00; 0x44; 0x08; 0x0C; 0x80; 0x04; 0x08; 0x0C;
   0x00; 0x04; 0x08; 0x0C; 0x00; 0x04; 0x08; 0x0C].
Definition lut_ctr : list Z :=
  [0x00; 0x48; 0x00; 0x00; 0x00; 0x00; 0x00; 0x00;
   0x00; 0x08; 0x00; 0x00; 0x00; 0x00; 0x00; 0x00].

Definition lookup_lut (l : list Z) (i : Z) : Z := nth (Z.to_nat i) l 0.

Definition next_state (i : inputs) (state : Z) : Z :=
  let state := if phaseA i then Z.lor state SM_PHASE_A_MASK else state in
  let state := if phaseB i then Z.lor state SM_PHASE_B_MASK else state in
  if counter_mode i
  then lookup_lut lut_ctr (Z.land state (Z.land SM_LOOKUP_MASK (Z.lnot SM_PHASE_B_MASK)))
  else if x4_mode i then lookup_lut lut_x4 (Z.land state SM_LOOKUP_MASK)
  else lookup_lut lut_x1 (Z.land state SM_LOOKUP_MASK).

Definition counted (raw timebase : Z) (a : atomic) : atomic :=
  Atomic true (a_index_detected a) (a_latch_detected a) raw timebase (a_index_count a) (a_latch_count a).

Definition bit_set (x mask : Z) : bool := negb (Z.land x mask =? 0).

(** ** [update] for one counter *)
Definition update1 (timebase : Z) (c : counter_t) : counter_t :=
  let i := c_in c in
  let f := c_fast c in
  let buf := buf_of c (c_bp c) in
  let state := next_state i (e_state f) in
  let '(raw, buf) :=
    if bit_set state SM_CNT_UP_MASK then
      let raw := s32 (e_raw_counts f + 1) in (raw, counted raw timebase buf)
    else if bit_set state SM_CNT_DN_MASK then
      let raw := s32 (e_raw_counts f - 1) in (raw, counted raw timebase buf)
    else (e_raw_counts f, buf) in
  let z := u8 (Z.shiftl (e_oldZ f) 1) in
  let z := if phaseZ i then Z.lor z 1 else z in
  let index := Z.land z (e_Zmask f) =? 1 in
  let buf := if index
             then Atomic (a_count_detected buf) true (a_latch_detected buf) (a_raw_count buf)
                    (a_timestamp buf) raw (a_latch_count buf)
             else buf in
  let rising := latch_in i && negb (e_old_latch f) in
  let falling := negb (latch_in i) && e_old_latch f in
  let buf := if (rising && latch_rising i) || (falling && latch_falling i)
             then Atomic (a_count_detected buf) (a_index_detected buf) true (a_raw_count buf)
                    (a_timestamp buf) (a_index_count buf) raw
             else buf in
  set_buf (set_fast c (Fast state (Z.land z 3) (if index then 0 else e_Zmask f) raw (latch_in i)))
    (c_bp c) buf.

(** ** [capture] for one counter: up to "done interacting with update()" *)
Definition capture_begin (c : counter_t) : bool * counter_t :=
  let b := c_bp c in
  let buf := buf_of c b in
  let c := set_bp c (negb b) in
  let s := c_slow c in
  let ena := if a_index_detected buf then false else index_ena s in
  let s := Slow ena (min_speed s) (pos_scale s) (raw_count s) (timestamp s)
             (if a_index_detected buf then a_index_count buf else index_count s)
             (if a_latch_detected buf then a_latch_count buf else latch_count s)
             (old_scale s) (scale s) (counts_since_timeout s) (count s) (count_latch s)
             (pos s) (pos_interp s) (pos_latch s) (vel s) in
  let f := c_fast c in
  let f := Fast (e_state f) (e_oldZ f) (if ena then 3 else 0) (e_raw_counts f) (e_old_latch f) in
  let buf := Atomic (a_count_detected buf) false false (a_raw_count buf) (a_timestamp buf)
               (a_index_count buf) (a_latch_count buf) in
  (b, set_buf (set_fast (set_slow c s) f) b buf).

(** A changed scale is tested; its reciprocal is used. *)
Definition new_scale (s : slow) : double * double * double :=
  if negb (deq (pos_scale s) (old_scale s)) then
    let ps := if dlt (pos_scale s) d1e_20 && dlt (dneg d1e_20) (pos_scale s) then d1 else pos_scale s in
    (ps, pos_scale s, ddiv d1 ps)
  else (pos_scale s, old_scale s, scale s).

(** Seconds of a 32-bit number of nanoseconds. *)
Definition seconds (delta_time : Z) : double := dmul (dbl_of_Z delta_time) d1e_9.

(** Velocity, timestamp, captured count and timeout. *)
Definition velocity (timebase : Z) (buf : atomic) (sc min_speed : double) (raw ts cst : Z) (v : double)
  : Z * Z * Z * double :=
  if a_count_detected buf then
    let delta_counts := s32 (a_raw_count buf - raw) in
    let delta_time := u32 (a_timestamp buf - ts) in
    if cst <? 2 then (a_raw_count buf, a_timestamp buf, cst + 1, v)
    else (a_raw_count buf, a_timestamp buf, cst,
          ddiv (dmul (dbl_of_Z delta_counts) sc) (seconds delta_time))
  else if negb (cst =? 0) then
    let delta_time := u32 (timebase - ts) in
    if dlt (dbl_of_Z delta_time) (ddiv (dbl_of_Z 1000000000) (dmul min_speed sc)) then
      let e := ddiv sc (seconds delta_time) in
      let e := if dlt e d0 then dneg e else e in
      let v := if dlt e v then e else v in
      (raw, ts, cst, if dlt v (dneg e) then dneg e else v)
    else (raw, ts, 0, d0)
  else (raw, ts, cst, d0).

(** The rest of [capture], with the buffer [b] it took. *)
Definition capture_end (timebase : Z) (b : bool) (c : counter_t) : counter_t :=
  let buf := buf_of c b in
  let s := c_slow c in
  let '(ps, old, sc) := new_scale s in
  let ms := if deq (min_speed s) d0 then d1 else min_speed s in
  let raw := if reset (c_in c) then e_raw_counts (c_fast c) else raw_count s in
  let idx := if reset (c_in c) then raw else index_count s in
  let '(raw, ts, cst, v) := velocity timebase buf sc ms raw (timestamp s) (counts_since_timeout s) (vel s) in
  let cnt := s32 (raw - idx) in
  let cntl := s32 (latch_count s - idx) in
  let p := dmul (dbl_of_Z cnt) sc in
  let interp := dmul v (seconds (u32 (timebase - ts))) in
  let s := Slow (index_ena s) ms ps raw ts idx (latch_count s) old sc cst cnt cntl
             p (dadd p interp) (dmul (dbl_of_Z cntl) sc) v in
  set_slow (set_buf c b (Atomic false (a_index_detected buf) (a_latch_detected buf) (a_raw_count buf)
                           (a_timestamp buf) (a_index_count buf) (a_latch_count buf))) s.

Definition capture1 (timebase : Z) (c : counter_t) : counter_t :=
  let '(b, c) := capture_begin c in capture_end timebase b c.

(** ** The component: all counters, and the master timestamp *)
Record encoder := EncoderState { counters : list counter_t; e_timebase : Z }.

Definition update (period : Z) (e : encoder) : encoder :=
  EncoderState (map (update1 (e_timebase e)) (counters e)) (u32 (e_timebase e + period)).

Definition capture (e : encoder) : encoder :=
  EncoderState (map (capture1 (e_timebase e)) (counters e)) (e_timebase e).

(** The counters of [rtapi_app_main]. *)
Definition init_atomic : atomic := Atomic false false false 0 0 0 0.
Definition init_counter : counter_t :=
  Counter (Inputs true false false false false false false true true) (Fast 0 0 0 0 false)
    init_atomic init_atomic false
    (Slow false d1 d1 0 0 0 0 d1 d1 0 0 0 d0 d0 d0 d0).

Definition MAX_CHAN : Z := 8.

(** [num_chan] and [names] are module parameters; [None]: -1 or -EINVAL. *)
Definition rtapi_app_main (num_chan : Z) (names : list string) : option encoder :=
  if negb (num_chan =? 0) && negb (bool_decide (names = [])) then None
  else
    let num_chan := if (num_chan =? 0) && bool_decide (names = []) then 3 else num_chan in
    let howmany := if negb (num_chan =? 0) then num_chan
                   else Z.min MAX_CHAN (Z.of_nat (length names)) in
    if (howmany <=? 0) || (MAX_CHAN <? howmany) then None
    else Some (EncoderState (replicate (Z.to_nat howmany) init_counter) 0).
End Encoder.
