(* ===== verification/EncoderTheorems.v ===== *)
(** * Theorems about the encoder counter

    The decoder follows the position of an ideal encoder; the double buffer
    loses no count, however updates and captures interleave. *)
From S2P Require Import Prelude Double Encoder.
Import Encoder.

(** ** An ideal encoder at position [p] *)
Definition quadA (p : Z) : bool := (p mod 4 =? 1) || (p mod 4 =? 2).
Definition quadB (p : Z) : bool := (p mod 4 =? 2) || (p mod 4 =? 3).

(** The inputs of a counter in quadrature mode at position [p]. *)
Definition at_position (i : inputs) (p : Z) : Prop :=
  counter_mode i = false /\ phaseA i = quadA p /\ phaseB i = quadB p.

(** What the state machine remembers of position [p]. *)
Definition code (p : Z) : Z := 4 * (if quadA p then 1 else 0) + 8 * (if quadB p then 1 else 0).

(** The full cycles of position [p], counted where phase A rises first. *)
Definition cycles (p : Z) : Z := (p + 3) / 4.

Lemma mod4_cases p : p mod 4 = 0 \/ p mod 4 = 1 \/ p mod 4 = 2 \/ p mod 4 = 3.
Proof. pose proof (Z.mod_pos_bound p 4 ltac:(lia)). lia. Qed.

Lemma mod4_step p d : (p + d) mod 4 = (p mod 4 + d) mod 4.
Proof. by rewrite Zplus_mod_idemp_l. Qed.

Definition count_of (state : Z) : Z :=
  if bit_set state SM_CNT_UP_MASK then 1 else if bit_set state SM_CNT_DN_MASK then -1 else 0.

Lemma next_state_low i s s' :
  Z.land s 15 = Z.land s' 15 -> counter_mode i = false -> next_state i s = next_state i s'.
Proof.
  intros Hs Hc. unfold next_state. rewrite Hc.
  assert (forall a b m, Z.land a 15 = Z.land b 15 -> Z.land (Z.lor a m) 15 = Z.land (Z.lor b m) 15) as Hor.
  { intros a b m Hab. by rewrite !Z.land_lor_distr_l, Hab. }
  unfold SM_LOOKUP_MASK.
  destruct (phaseA i), (phaseB i); repeat (erewrite Hor; [| reflexivity]);
    by rewrite ?Z.land_lor_distr_l, Hs.
Qed.

(** One sample of the decoder: the state follows, and the count is the move. *)
Lemma decode_x4 i s p d :
  Z.land s 15 = code p -> at_position i (p + d) -> x4_mode i = true -> -1 <= d <= 1 ->
  Z.land (next_state i s) 15 = code (p + d) /\ count_of (next_state i s) = d.
Proof.
  intros Hs (Hc & HA & HB) Hx Hd.
  assert (Z.land s 15 = Z.land (code p) 15) as Hs'.
  { rewrite Hs. unfold code. by destruct (quadA p), (quadB p). }
  rewrite (next_state_low i s (code p) Hs' Hc). unfold next_state. rewrite Hc, HA, HB, Hx.
  unfold code, quadA, quadB. rewrite (mod4_step p d).
  assert (d = -1 \/ d = 0 \/ d = 1) as Hd' by lia.
  destruct (mod4_cases p) as [-> | [-> | [-> | ->]]], Hd' as [-> | [-> | ->]]; vm_compute; done.
Qed.

Lemma cycles_step p d : -1 <= d <= 1 ->
  cycles (p + d) - cycles p
  = if (d =? 1) && (p mod 4 =? 0) then 1 else if (d =? -1) && (p mod 4 =? 1) then -1 else 0.
Proof.
  intros Hd. unfold cycles. pose proof (Z.div_mod p 4 ltac:(lia)) as Hdm.
  pose proof (Z.mod_pos_bound p 4 ltac:(lia)) as Hb.
  set (q := p / 4) in *. set (r := p mod 4) in *.
  assert (forall k, (p + k + 3) / 4 = q + (r + k + 3) / 4) as Hk.
  { intros k. rewrite <- (Z.div_add_l q 4 (r + k + 3)) by lia. f_equal. lia. }
  replace (p + 3) with (p + 0 + 3) by lia. rewrite !Hk.
  assert (d = -1 \/ d = 0 \/ d = 1) as Hd' by lia.
  assert (r = 0 \/ r = 1 \/ r = 2 \/ r = 3) as Hr by lia. clear -Hd' Hr.
  destruct Hr as [-> | [-> | [-> | ->]]], Hd' as [-> | [-> | ->]];
    match goal with |- _ + ?a - (_ + ?b) = _ => let a' := eval vm_compute in a in let b' := eval vm_compute in b in
      change a with a'; change b with b' end; simpl; lia.
Qed.

Lemma decode_x1 i s p d :
  Z.land s 15 = code p -> at_position i (p + d) -> x4_mode i = false -> -1 <= d <= 1 ->
  Z.land (next_state i s) 15 = code (p + d) /\ count_of (next_state i s) = cycles (p + d) - cycles p.
Proof.
  intros Hs (Hc & HA & HB) Hx Hd.
  assert (Z.land s 15 = Z.land (code p) 15) as Hs'.
  { rewrite Hs. unfold code. by destruct (quadA p), (quadB p). }
  rewrite cycles_step by done.
  rewrite (next_state_low i s (code p) Hs' Hc). unfold next_state. rewrite Hc, HA, HB, Hx.
  unfold code, quadA, quadB. rewrite (mod4_step p d).
  assert (d = -1 \/ d = 0 \/ d = 1) as Hd' by lia.
  destruct (mod4_cases p) as [-> | [-> | [-> | ->]]], Hd' as [-> | [-> | ->]]; vm_compute; done.
Qed.

(** ** Counting *)
Definition counting (timebase : Z) (c : counter_t) : Z := count_of (next_state (c_in c) (e_state (c_fast c))).

Lemma update1_fast tb c :
  let f' := c_fast (update1 tb c) in
  e_state f' = next_state (c_in c) (e_state (c_fast c)) /\
  e_raw_counts f' = (if counting tb c =? 0 then e_raw_counts (c_fast c)
                     else s32 (e_raw_counts (c_fast c) + counting tb c)).
Proof.
  unfold counting, update1, count_of. set (st := next_state _ _).
  destruct (bit_set st SM_CNT_UP_MASK); [| destruct (bit_set st SM_CNT_DN_MASK)]; simpl;
    unfold set_buf; destruct (c_bp c); simpl; done.
Qed.

(** The buffer in use gets the count; the other one is left alone. *)
Lemma update1_bufs tb c :
  let c' := update1 tb c in
  c_bp c' = c_bp c /\ c_slow c' = c_slow c /\ buf_of c' (negb (c_bp c)) = buf_of c (negb (c_bp c)) /\
  a_count_detected (buf_of c' (c_bp c))
    = a_count_detected (buf_of c (c_bp c)) || negb (counting tb c =? 0) /\
  a_raw_count (buf_of c' (c_bp c))
    = if counting tb c =? 0 then a_raw_count (buf_of c (c_bp c)) else e_raw_counts (c_fast c').
Proof.
  unfold counting, update1, count_of. set (st := next_state _ _).
  destruct (bit_set st SM_CNT_UP_MASK); [| destruct (bit_set st SM_CNT_DN_MASK)];
    cbv zeta iota beta;
    repeat match goal with |- context [if ?b then Atomic _ _ _ _ _ _ _ else _] => destruct b end;
    unfold set_buf, buf_of; destruct (c_bp c) eqn:Eb; simpl; rewrite ?orb_true_r, ?orb_false_r; done.
Qed.

(** ** Interleaving

    Updates at positions that move by at most one, captures that may be
    interrupted by updates.  [cap] is the capture in progress: its buffer
    and the position when it began. *)
Inductive run : counter_t -> Z -> Z -> option (bool * Z) -> Prop :=
| run_init : run init_counter 0 0 None
| run_update c tb p cap i d period :
    run c tb p cap -> -1 <= d <= 1 -> at_position i (p + d) -> x4_mode i = true ->
    run (update1 tb (set_in c i)) (u32 (tb + period)) (p + d) cap
| run_begin c tb p b c' :
    run c tb p None -> capture_begin c = (b, c') -> run c' tb p (Some (b, p))
| run_end c tb p b q :
    run c tb p (Some (b, q)) -> run (capture_end tb b c) tb p None.

(** What the buffers hold: [q] is what the captured count will be. *)
Record run_inv (c : counter_t) (p : Z) (cap : option (bool * Z)) : Prop := RunInv {
  ri_state : Z.land (e_state (c_fast c)) 15 = code p;
  ri_raw : e_raw_counts (c_fast c) = s32 p;
  ri_active : a_count_detected (buf_of c (c_bp c)) = true -> a_raw_count (buf_of c (c_bp c)) = s32 p;
  ri_quiet : a_count_detected (buf_of c (c_bp c)) = false ->
    match cap with Some (_, q) => s32 q = s32 p | None => raw_count (c_slow c) = s32 p end;
  ri_cap : match cap with
    | Some (b, q) => b = negb (c_bp c) /\
        (if a_count_detected (buf_of c b) then a_raw_count (buf_of c b) = s32 q
         else raw_count (c_slow c) = s32 q)
    | None => a_count_detected (buf_of c (negb (c_bp c))) = false
    end;
}.

Lemma inv_update c tb p cap i d :
  run_inv c p cap -> -1 <= d <= 1 -> at_position i (p + d) -> x4_mode i = true ->
  run_inv (update1 tb (set_in c i)) (p + d) cap.
Proof.
  intros [Hst Hraw Hact Hq Hcap] Hd Hat Hx.
  destruct (decode_x4 i _ p d Hst Hat Hx Hd) as [Hst' Hcnt].
  destruct (update1_fast tb (set_in c i)) as [Hs1 Hr1].
  destruct (update1_bufs tb (set_in c i)) as (Hbp & Hslow & Hother & Hdet & Hrc).
  change (c_bp (set_in c i)) with (c_bp c) in *. change (c_slow (set_in c i)) with (c_slow c) in *.
  change (buf_of (set_in c i)) with (buf_of c) in *. change (c_fast (set_in c i)) with (c_fast c) in *.
  unfold counting in *. simpl in Hs1, Hr1, Hdet, Hrc.
  change (c_in (set_in c i)) with i in *. rewrite Hcnt in *. set (c' := update1 tb (set_in c i)) in *.
  assert (e_raw_counts (c_fast c') = s32 (p + d)) as Hraw'.
  { rewrite Hr1, Hraw. destruct (d =? 0) eqn:E; zb; [f_equal; lia | apply wraps_add_l]. }
  split; rewrite ?Hbp.
  - by rewrite Hs1.
  - done.
  - rewrite Hdet, Hrc, Hraw'. destruct (d =? 0) eqn:E; zb; [| done]. replace (p + d) with p by lia. cbn [negb]. rewrite orb_false_r. apply Hact.
  - rewrite Hdet, Hslow. destruct (d =? 0) eqn:E; zb; [| by rewrite orb_true_r].
    replace (p + d) with p by lia. cbn [negb]. rewrite orb_false_r. apply Hq.
  - destruct cap as [[b q] |]; [| by rewrite Hother].
    destruct Hcap as [-> Hcap]. split; [done |]. by rewrite Hother, Hslow.
Qed.

Lemma inv_begin c p b c' :
  run_inv c p None -> capture_begin c = (b, c') -> run_inv c' p (Some (b, p)).
Proof.
  intros [Hst Hraw Hact Hq Hcap] [= <- <-].
  split; unfold set_buf, set_fast, set_slow, set_bp, buf_of in *; destruct (c_bp c); simpl in *; try done;
    try congruence; (split; [done |]); destruct (a_count_detected _); auto.
Qed.

Lemma velocity_raw tb buf sc ms raw ts cst v :
  fst (fst (fst (velocity tb buf sc ms raw ts cst v))) = if a_count_detected buf then a_raw_count buf else raw.
Proof. unfold velocity. repeat case_match; done. Qed.

(** The capture that ends takes the count of its buffer, if there is one. *)
Lemma capture_end_raw tb b c :
  raw_count (c_slow (capture_end tb b c))
  = if a_count_detected (buf_of c b) then a_raw_count (buf_of c b)
    else if reset (c_in c) then e_raw_counts (c_fast c) else raw_count (c_slow c).
Proof.
  unfold capture_end. destruct (new_scale (c_slow c)) as [[ps old] sc].
  set (raw := if reset (c_in c) then _ else _).
  set (ms := if deq _ _ then _ else _).
  pose proof (velocity_raw tb (buf_of c b) sc ms raw (timestamp (c_slow c)) (counts_since_timeout (c_slow c)) (vel (c_slow c))) as Hv.
  destruct (velocity _ _ _ _ _ _ _ _) as [[[raw' ts] cst] v]. simpl in *. by rewrite Hv.
Qed.

Lemma capture_end_rest tb b c :
  let c' := capture_end tb b c in
  c_fast c' = c_fast c /\ c_bp c' = c_bp c /\ buf_of c' (negb b) = buf_of c (negb b) /\
  a_count_detected (buf_of c' b) = false.
Proof.
  unfold capture_end. destruct (new_scale (c_slow c)) as [[ps old] sc].
  destruct (velocity _ _ _ _ _ _ _ _) as [[[raw' ts] cst] v].
  unfold set_slow, set_buf, buf_of. by destruct b.
Qed.

Lemma inv_end c tb p b q : run_inv c p (Some (b, q)) -> run_inv (capture_end tb b c) p None.
Proof.
  intros [Hst Hraw Hact Hq [-> Hcap]].
  destruct (capture_end_rest tb (negb (c_bp c)) c) as (Hf & Hbp & Hother & Hdet).
  rewrite negb_involutive in Hother.
  split; rewrite ?Hf, ?Hbp; try done; rewrite ?Hother; try done.
  intros Hquiet. specialize (Hq Hquiet). rewrite capture_end_raw.
  destruct (a_count_detected (buf_of c (negb (c_bp c)))); [congruence |].
  destruct (reset (c_in c)); congruence.
Qed.

Lemma run_inv_holds c tb p cap : run c tb p cap -> run_inv c p cap.
Proof.
  induction 1 as [| c tb p cap i d period _ IH | c tb p b c' _ IH | c tb p b q _ IH].
  - split; try done.
  - by apply inv_update.
  - by eapply inv_begin.
  - by eapply inv_end.
Qed.

Lemma capture_end_count tb b c :
  let s' := c_slow (capture_end tb b c) in
  count s' = s32 (raw_count s' - index_count s') /\ count_latch s' = s32 (latch_count s' - index_count s').
Proof.
  unfold capture_end. destruct (new_scale (c_slow c)) as [[ps old] sc].
  by destruct (velocity _ _ _ _ _ _ _ _) as [[[raw' ts] cst] v].
Qed.

(** C6: As long as the encoder moves by at most one position between two
    updates, the raw count is its position modulo 2^32, however updates
    interrupt captures; and every capture (reset off) ends with exactly the
    position at which it began: no count is lost or reported twice. *)
Theorem encoder_position c tb p cap :
  run c tb p cap ->
  e_raw_counts (c_fast c) = s32 p /\
  forall b q, cap = Some (b, q) -> reset (c_in c) = false ->
    let s' := c_slow (capture_end tb b c) in
    raw_count s' = s32 q /\ count s' = s32 (s32 q - index_count s').
Proof.
  intros Hr. pose proof (run_inv_holds _ _ _ _ Hr) as [Hst Hraw Hact Hq Hcap]. split; [done |].
  intros b q -> Hres s'. destruct Hcap as [Hb Hcap].
  assert (raw_count s' = s32 q) as Hrc.
  { unfold s'. rewrite capture_end_raw, Hres. destruct (a_count_detected (buf_of c b)); exact Hcap. }
  split; [done |]. destruct (capture_end_count tb b c) as [Hc _]. fold s' in Hc. rewrite Hc, Hrc. done.
Qed.

Definition w_inputs (p : Z) : inputs := Inputs true false (quadA p) (quadB p) false false false true true.

(** Three counts up, a capture interrupted by a count down. *)
Lemma encoder_position_witness : exists c b,
  run c 4000 2 (Some (b, 3)) /\ e_raw_counts (c_fast c) = 2 /\
  raw_count (c_slow (capture_end 4000 b c)) = 3.
Proof.
  set (c3 := update1 2000 (set_in (update1 1000 (set_in (update1 0 (set_in init_counter (w_inputs 1))) (w_inputs 2))) (w_inputs 3))).
  set (c4 := update1 3000 (set_in (snd (capture_begin c3)) (w_inputs 2))).
  assert (run c3 3000 3 None) as Hr3.
  { apply (run_update _ 2000 2 None (w_inputs 3) 1 1000); [| lia | done | done].
    apply (run_update _ 1000 1 None (w_inputs 2) 1 1000); [| lia | done | done].
    apply (run_update _ 0 0 None (w_inputs 1) 1 1000); [apply run_init | lia | done | done]. }
  assert (run c4 4000 2 (Some (false, 3))) as Hr4.
  { apply (run_update _ 3000 3 (Some (false, 3)) (w_inputs 2) (-1) 1000); [| lia | done | done].
    apply (run_begin c3 3000 3 false); [exact Hr3 | done]. }
  destruct (encoder_position c4 4000 2 (Some (false, 3)) Hr4) as [Hraw Hcap].
  destruct (Hcap false 3 eq_refl eq_refl) as [Hc _].
  exists c4, false. split; [exact Hr4 |]. split; [exact Hraw | exact Hc].
Defined.
