(* ===== verification/Stepgen.v ===== *)
(** * Step pulse generator (modules/managed/components/stepgen/src/stepgen.c)

    [make_pulses] runs in the fast thread, [update_pos] and [update_freq] in
    a slow one.  A channel is modelled in three records: what [make_pulses]
    writes, what it reads, and the rest.  A pin is a field.  A conversion of
    a double that C leaves undefined makes the result [None].  Messages are
    not modelled; the width of [long] is 64. *)
From Stdlib Require Import Ascii.
From S2P Require Import Prelude Double.

Module Stepgen.

Definition MAX_CHAN : Z := 16.
Definition MAX_CYCLE : Z := 18.
Definition USER_STEP_TYPE : nat := 13.
Definition MAX_STEP_TYPE : Z := 15.
Definition PICKOFF : Z := 28.
Definition STEP_PIN : nat := 0.
Definition DIR_PIN : nat := 1.
Definition UP_PIN : nat := 0.
Definition DOWN_PIN : nat := 1.

(** ** State ([stepgen_t]) *)
Record fast := Fast {
  timer1 : Z;
  timer2 : Z;
  timer3 : Z;
  hold_dds : bool;
  addval : Z;
  accum : Z;
  rawcount : Z;
  curr_dir : Z;
  state : Z;
  phase : list bool;
}.

Record config := Config {
  enable : bool;
  target_addval : Z;
  deltalim : Z;
  step_len : Z;
  dir_hold_dly : Z;
  dir_setup : Z;
  step_type : Z;
  cycle_max : Z;
  num_phases : Z;
  lut : list Z;
}.

Record slow := Slow {
  pos_mode : bool;
  step_space : Z;
  old_pos_cmd : double;
  count : Z;
  pos_scale : double;
  old_scale : double;
  scale_recip : double;
  vel_cmd : double;
  pos_cmd : double;
  pos_fb : double;
  freq : double;
  maxvel : double;
  maxaccel : double;
  old_step_len : Z;
  old_step_space : Z;
  old_dir_hold_dly : Z;
  old_dir_setup : Z;
}.

Record stepgen_t := Gen { g_fast : fast; g_cfg : config; g_slow : slow }.

(** ** The static data of the module *)
Definition row (l : list Z) : list Z := l ++ replicate (18 - length l) 0.

Definition master_lut : list (list Z) := map row [
  [1; 3; 2; 0];
  [1; 2; 4];
  [1; 3; 2; 6; 4; 5];
  [1; 2; 4; 8];
  [3; 6; 12; 9];
  [1; 7; 14; 8];
  [5; 6; 10; 9];
  [1; 3; 2; 6; 4; 12; 8; 9];
  [1; 5; 7; 6; 14; 10; 8; 9];
  [1; 2; 4; 8; 16];
  [3; 6; 12; 24; 17];
  [1; 3; 2; 6; 4; 12; 8; 24; 16; 17];
  [3; 7; 6; 14; 12; 28; 24; 25; 17; 19];
  []].

Definition cycle_len_lut : list Z := [4; 3; 6; 4; 4; 4; 4; 8; 8; 5; 5; 10; 10; 0].
Definition num_phases_lut : list Z := [2; 3; 3; 4; 4; 4; 4; 4; 4; 5; 5; 5; 5; 0].

Record luts := Luts { l_master : list (list Z); l_cycle : list Z; l_phases : list Z }.

(** ** [make_pulses], one channel *)
Definition countdown (t period : Z) : Z :=
  if 0 <? t then if period <? t then u32 (t - period) else 0 else t.

(** [timer3] runs out in this period. *)
Definition times_out (t period : Z) : bool := (0 <? t) && negb (period <? t).

Definition ramp (c : config) (old : Z) : Z :=
  if negb (deltalim c =? 0) then
    if s64 (old + deltalim c) <? target_addval c then s64 (old + deltalim c)
    else if target_addval c <? s64 (old - deltalim c) then s64 (old - deltalim c)
    else target_addval c
  else target_addval c.

Definition reversal (new old : Z) : bool :=
  ((0 <=? new) && (old <? 0)) || ((new <? 0) && (0 <=? old)).

Definition next_phase_state (c : config) (state dir : Z) : Z :=
  let state := s32 (state + dir) in
  if state <? 0 then cycle_max c else if cycle_max c <? state then 0 else state.

(** The phase bits of an output pattern, starting with pin [p]. *)
Fixpoint phase_bits (n : nat) (p : nat) (outbits : Z) (ph : list bool) : list bool :=
  match n with
  | O => ph
  | S n => phase_bits n (S p) (Z.shiftr outbits 1) (<[p := Z.odd outbits]> ph)
  end.

Definition output (c : config) (timer1 curr_dir state : Z) (ph : list bool) : list bool :=
  if step_type c =? 0 then
    <[DIR_PIN := curr_dir <? 0]> (<[STEP_PIN := negb (timer1 =? 0)]> ph)
  else if step_type c =? 1 then
    if negb (timer1 =? 0)
    then <[DOWN_PIN := curr_dir <? 0]> (<[UP_PIN := negb (curr_dir <? 0)]> ph)
    else <[DOWN_PIN := false]> (<[UP_PIN := false]> ph)
  else phase_bits (Z.to_nat (num_phases c)) 0 (nth (Z.to_nat state) (lut c) 0) ph.

(** Timers, ramp and hold of one period. *)
Definition advance (period : Z) (c : config) (f : fast) : fast :=
  let t3 := countdown (timer3 f) period in
  let hold := if times_out (timer3 f) period then false else hold_dds f in
  let go := negb hold && enable c in
  let new := if go then ramp c (addval f) else addval f in
  let hold := if go && reversal new (addval f) && negb (t3 =? 0) then true else hold in
  Fast (countdown (timer1 f) period) (countdown (timer2 f) period) t3 hold new
    (accum f) (rawcount f) (curr_dir f) (state f) (phase f).

(** The frequency generator: a change of the pickoff bit is a step. *)
Definition dds (c : config) (f : fast) : bool * fast :=
  if negb (hold_dds f) && enable c then
    let accum' := s64 (accum f + addval f) in
    (Z.testbit (Z.lxor (accum f) accum') PICKOFF,
     Fast (timer1 f) (timer2 f) (timer3 f) (hold_dds f) (addval f) accum'
       (s32 (Z.shiftr accum' PICKOFF)) (curr_dir f) (state f) (phase f))
  else (false, f).

Definition direction (f : fast) : Z :=
  if timer2 f =? 0 then if 0 <? addval f then 1 else if addval f <? 0 then -1 else curr_dir f
  else curr_dir f.

Definition make_pulses1 (period : Z) (c : config) (f : fast) : fast :=
  let '(step_now, f) := dds c (advance period c f) in
  let dir := direction f in
  let t1 := if step_now then step_len c else timer1 f in
  let t2 := if step_now then u32 (t1 + dir_hold_dly c) else timer2 f in
  let t3 := if step_now then u32 (t2 + dir_setup c) else timer3 f in
  let st := if step_now && (2 <=? step_type c) then next_phase_state c (state f) dir else state f in
  Fast t1 t2 t3 (hold_dds f) (addval f) (accum f) (rawcount f) dir st (output c t1 dir st (phase f)).

(** ** [update_pos], one channel *)
Definition half_step : Z := Z.shiftl 1 (PICKOFF - 1).
Definition fraction : double := ddiv d1 (dbl_of_Z (Z.shiftl 1 PICKOFF)).

(** A changed scale is tested, and its reciprocal kept. *)
Definition check_scale (s : slow) : slow :=
  if negb (deq (pos_scale s) (old_scale s)) then
    let ps := if dlt (pos_scale s) d1e_20 && dlt (dneg d1e_20) (pos_scale s) then d1 else pos_scale s in
    Slow (pos_mode s) (step_space s) (old_pos_cmd s) (count s) ps (pos_scale s) (ddiv fraction ps)
      (vel_cmd s) (pos_cmd s) (pos_fb s) (freq s) (maxvel s) (maxaccel s)
      (old_step_len s) (old_step_space s) (old_dir_hold_dly s) (old_dir_setup s)
  else s.

Definition update_pos1 (g : stepgen_t) : stepgen_t :=
  let a := accum (g_fast g) in
  let s := check_scale (g_slow g) in
  Gen (g_fast g) (g_cfg g)
    (Slow (pos_mode s) (step_space s) (old_pos_cmd s) (s32 (Z.shiftr a PICKOFF))
       (pos_scale s) (old_scale s) (scale_recip s) (vel_cmd s) (pos_cmd s)
       (dmul (dbl_of_Z (a - half_step)) (scale_recip s)) (freq s) (maxvel s) (maxaccel s)
       (old_step_len s) (old_step_space s) (old_dir_hold_dly s) (old_dir_setup s)).

(** ** [update_freq] *)
Definition ulceil (value increment : Z) : Z :=
  if value =? 0 then 0 else u64 (increment * ((value - 1) / increment + 1)).

Record periods := Periods {
  periodns : Z;
  old_periodns : Z;
  periodfp : double;
  freqscale : double;
  accelscale : double;
  old_dtns : Z;
  dt : double;
  recip_dt : double;
}.

(** The constants of the two periods; has the period of [make_pulses] changed? *)
Definition update_periods (period : Z) (p : periods) : bool * periods :=
  let newperiod := negb (periodns p =? old_periodns p) in
  let fp := if newperiod then dmul (dbl_of_Z (periodns p)) d1e_9 else periodfp p in
  let fs := if newperiod then dmul (dbl_of_Z (Z.shiftl 1 PICKOFF)) fp else freqscale p in
  let acs := if newperiod then dmul fs fp else accelscale p in
  let dt' := if negb (period =? old_dtns p) then dmul (dbl_of_Z period) d1e_9 else dt p in
  let rdt := if negb (period =? old_dtns p) then ddiv d1 dt' else recip_dt p in
  (newperiod, Periods (periodns p) (periodns p) fp fs acs period dt' rdt).

(** The timing parameters become multiples of the period. *)
Definition update_timing (newperiod : bool) (pns : Z) (g : stepgen_t) : stepgen_t :=
  let c := g_cfg g in
  let s := g_slow g in
  let old x := if newperiod then u32 (-1) else x in
  let len0 := if step_len c =? 0 then 1 else step_len c in
  let '(len, olen) :=
    if negb (step_len c =? old (old_step_len s)) then (u32 (ulceil len0 pns), u32 (ulceil len0 pns))
    else (step_len c, old (old_step_len s)) in
  let '(spc, ospc) :=
    if negb (step_space s =? old (old_step_space s))
    then (u32 (ulceil (step_space s) pns), u32 (ulceil (step_space s) pns))
    else (step_space s, old (old_step_space s)) in
  let '(setup, osetup) :=
    if negb (dir_setup c =? old (old_dir_setup s))
    then (u32 (ulceil (dir_setup c) pns), u32 (ulceil (dir_setup c) pns))
    else (dir_setup c, old (old_dir_setup s)) in
  let hold0 := if (u32 (dir_hold_dly c + setup) =? 0) && (step_type c <? 2) then 1 else dir_hold_dly c in
  let '(hold, ohold) :=
    if negb (dir_hold_dly c =? old (old_dir_hold_dly s))
    then (u32 (ulceil hold0 pns), u32 (ulceil hold0 pns))
    else (dir_hold_dly c, old (old_dir_hold_dly s)) in
  Gen (g_fast g)
    (Config (enable c) (target_addval c) (deltalim c) len hold setup
       (step_type c) (cycle_max c) (num_phases c) (lut c))
    (Slow (pos_mode s) spc (old_pos_cmd s) (count s) (pos_scale s) (old_scale s) (scale_recip s)
       (vel_cmd s) (pos_cmd s) (pos_fb s) (freq s) (maxvel s) (maxaccel s) olen ospc ohold osetup).

(** Limit of the frequency, and [maxvel]. *)
Definition freq_limit (c : config) (s : slow) : double * double :=
  let max_freq := ddiv d1 (dmul (dbl_of_Z (u32 (step_len c + step_space s))) d1e_9) in
  if dle (maxvel s) d0 then (max_freq, d0)
  else
    let desired := dmul (maxvel s) (dabs (pos_scale s)) in
    if dlt max_freq desired then (max_freq, ddiv max_freq (dabs (pos_scale s)))
    else (desired, maxvel s).

(** Limit of the acceleration, and [maxaccel]. *)
Definition accel_limit (p : periods) (s : slow) (max_freq : double) : double * double :=
  let max_ac := dmul max_freq (recip_dt p) in
  if dle (maxaccel s) d0 then (max_ac, d0)
  else
    let desired := dmul (maxaccel s) (dabs (pos_scale s)) in
    if dlt max_ac desired then (max_ac, ddiv max_ac (dabs (pos_scale s)))
    else (desired, maxaccel s).

Definition d2 : double := dbl_of_Z 2.

(** The velocity of position mode, with the position command in counts. *)
Definition position_control (p : periods) (accum : Z) (pos_cmd old_pos_cmd curr_vel max_freq max_ac : double)
  : double :=
  let vel_cmd := dmul (dsub pos_cmd old_pos_cmd) (recip_dt p) in
  let curr_pos := dmul (dbl_of_Z (accum - half_step)) fraction in
  let match_ac := if dlt curr_vel vel_cmd then max_ac else dneg max_ac in
  let match_time := ddiv (dsub vel_cmd curr_vel) match_ac in
  let avg_v := dmul (dadd vel_cmd curr_vel) d_half in
  let est_out := dadd curr_pos (dmul avg_v match_time) in
  let est_cmd := dadd pos_cmd (dmul vel_cmd (dsub match_time (dmul d_three_halves (dt p)))) in
  let est_err := dsub est_out est_cmd in
  let new_vel :=
    if dlt match_time (dt p) then
      if dlt (dabs est_err) d1e_4 then vel_cmd
      else
        dclamp (dsub vel_cmd (dmul (dmul d_half est_err) (recip_dt p)))
          (dsub curr_vel (dmul max_ac (dt p))) (dadd curr_vel (dmul max_ac (dt p)))
    else
      let dv := dmul (dmul (dneg d2) match_ac) (dt p) in
      let dp := dmul dv match_time in
      let match_ac := if dlt (dabs (dadd est_err (dmul dp d2))) (dabs est_err) then dneg match_ac else match_ac in
      dadd curr_vel (dmul match_ac (dt p)) in
  dclamp new_vel (dneg max_freq) max_freq.

(** The velocity of velocity mode. *)
Definition velocity_control (p : periods) (vel_cmd curr_vel max_freq max_ac : double) : double :=
  let vel_cmd := dclamp vel_cmd (dneg max_freq) max_freq in
  let dv := dmul max_ac (dt p) in
  dclamp vel_cmd (dsub curr_vel dv) (dadd curr_vel dv).

(** Disabled: no velocity. *)
Definition disable (g : stepgen_t) : stepgen_t :=
  let f := g_fast g in
  let c := g_cfg g in
  let s := g_slow g in
  Gen (Fast (timer1 f) (timer2 f) (timer3 f) (hold_dds f) 0 (accum f) (rawcount f) (curr_dir f) (state f) (phase f))
    (Config (enable c) 0 (deltalim c) (step_len c) (dir_hold_dly c) (dir_setup c)
       (step_type c) (cycle_max c) (num_phases c) (lut c))
    (Slow (pos_mode s) (step_space s) (if pos_mode s then dmul (pos_cmd s) (pos_scale s) else old_pos_cmd s)
       (count s) (pos_scale s) (old_scale s) (scale_recip s) (vel_cmd s) (pos_cmd s) (pos_fb s) d0
       (maxvel s) (maxaccel s) (old_step_len s) (old_step_space s) (old_dir_hold_dly s) (old_dir_setup s)).

Definition control (p : periods) (g : stepgen_t) : option stepgen_t :=
  let c := g_cfg g in
  let s := g_slow g in
  let '(max_freq, mv) := freq_limit c s in
  let '(max_ac, ma) := accel_limit p s max_freq in
  let cmd := dmul (pos_cmd s) (pos_scale s) in
  let new_vel :=
    if pos_mode s then position_control p (accum (g_fast g)) cmd (old_pos_cmd s) (freq s) max_freq max_ac
    else velocity_control p (dmul (vel_cmd s) (pos_scale s)) (freq s) max_freq max_ac in
  target ← dbl_to_sint 64 (dmul new_vel (freqscale p));
  delta ← dbl_to_sint 64 (dmul max_ac (accelscale p));
  Some (Gen (g_fast g)
    (Config (enable c) target delta (step_len c) (dir_hold_dly c) (dir_setup c)
       (step_type c) (cycle_max c) (num_phases c) (lut c))
    (Slow (pos_mode s) (step_space s) (if pos_mode s then cmd else old_pos_cmd s) (count s)
       (pos_scale s) (old_scale s) (scale_recip s) (vel_cmd s) (pos_cmd s) (pos_fb s) new_vel mv ma
       (old_step_len s) (old_step_space s) (old_dir_hold_dly s) (old_dir_setup s))).

Definition update_freq1 (newperiod : bool) (p : periods) (g : stepgen_t) : option stepgen_t :=
  let g := Gen (g_fast g) (g_cfg g) (check_scale (g_slow g)) in
  let g := update_timing newperiod (periodns p) g in
  if negb (enable (g_cfg g)) then Some (disable g) else control p g.

(** ** The component: its channels and the shared periods *)
Record stepgens := Stepgens { gens : list stepgen_t; s_periods : periods }.

Definition make_pulses (period : Z) (s : stepgens) : stepgens :=
  let p := s_periods s in
  Stepgens (map (fun g => Gen (make_pulses1 period (g_cfg g) (g_fast g)) (g_cfg g) (g_slow g)) (gens s))
    (Periods period (old_periodns p) (periodfp p) (freqscale p) (accelscale p) (old_dtns p) (dt p) (recip_dt p)).

Definition update_pos (s : stepgens) : stepgens := Stepgens (map update_pos1 (gens s)) (s_periods s).

Definition update_freq (period : Z) (s : stepgens) : option stepgens :=
  let '(newperiod, p) := update_periods period (s_periods s) in
  l ← mapM (update_freq1 newperiod p) (gens s);
  Some (Stepgens l p).

(** ** Initialisation *)
Definition bits_used (user : list Z) : Z := foldr Z.lor 0 user.

(** The user's pattern: at most ten entries before the first -1. *)
Fixpoint user_pattern (n : nat) (user : list Z) : list Z :=
  match n, user with
  | S n, x :: user => if x =? -1 then [] else x :: user_pattern n user
  | _, _ => []
  end.

Definition phases_of (used old : Z) : Z :=
  if Z.testbit used 4 then 5 else if Z.testbit used 3 then 4 else if Z.testbit used 2 then 3
  else if Z.testbit used 1 then 2 else if Z.testbit used 0 then 1 else old.

(** [None]: -EINVAL. *)
Definition setup_user_step_type (user : list Z) : option luts :=
  let pat := user_pattern 10 user in
  let used := bits_used pat in
  if negb (Z.land used (Z.lnot 0x1f) =? 0) then None
  else Some (Luts (<[USER_STEP_TYPE := map u8 pat ++ drop (length pat) (row [])]> master_lut)
               (<[USER_STEP_TYPE := Z.of_nat (length pat)]> cycle_len_lut)
               (<[USER_STEP_TYPE := phases_of used 0]> num_phases_lut)).

Inductive CONTROL := POSITION | VELOCITY | INVALID.

(** [None]: no string. *)
Definition parse_ctrl_type (ctrl : option string) : CONTROL :=
  match ctrl with
  | None | Some EmptyString => POSITION
  | Some (String a _) =>
      if Ascii.eqb a "p"%char || Ascii.eqb a "P"%char then POSITION
      else if Ascii.eqb a "v"%char || Ascii.eqb a "V"%char then VELOCITY
      else INVALID
  end.

(** The values that [export_stepgen] stores; HAL memory is zeroed. *)
Definition export_stepgen (l : luts) (step_type : Z) (pos_mode : bool) : stepgen_t :=
  let i := Z.to_nat (step_type - 2) in
  let pattern := 2 <=? step_type in
  Gen (Fast 0 0 0 false 0 (Z.shiftl 1 (PICKOFF - 1)) 0 0 0 (replicate 5 false))
    (Config false 0 0 1 1 (if step_type =? 0 then 1 else 0) step_type
       (if pattern then nth i (l_cycle l) 0 - 1 else 0)
       (if pattern then nth i (l_phases l) 0 else 0)
       (if pattern then nth i (l_master l) [] else []))
    (Slow pos_mode (if step_type <? 2 then 1 else 0) d0 0 d1 d0 d0 d0 d0 d0 d0 d0 d0
       (u32 (-1)) (u32 (-1)) (u32 (-1)) (u32 (-1))).

(** The channels: the step types before the first -1 ([None]: -1). *)
Fixpoint channels (n : nat) (step_type : list Z) (ctrl_type : list (option string)) : option (list (Z * bool)) :=
  match n, step_type with
  | S n, t :: step_type =>
      if t =? -1 then Some []
      else if (MAX_STEP_TYPE <? t) || (t <? 0) then None
      else
        match parse_ctrl_type (head ctrl_type ≫= id) with
        | INVALID => None
        | k => cons (t, match k with POSITION => true | _ => false end)
                 <$> channels n step_type (tail ctrl_type)
        end
  | _, _ => Some []
  end.

Definition init_periods : periods :=
  let fp := dmul (dbl_of_Z 50000) d1e_9 in
  let fs := dmul (dbl_of_Z (Z.shiftl 1 PICKOFF)) fp in
  let dt := dmul (dbl_of_Z 1000000) d1e_9 in
  Periods 50000 50000 fp fs (dmul fs fp) 1000000 dt (ddiv d1 dt).

(** The module parameters; [None]: the module does not load. *)
Definition rtapi_app_main (user_step_type step_type : list Z) (ctrl_type : list (option string))
  : option stepgens :=
  l ← setup_user_step_type user_step_type;
  chans ← channels (Z.to_nat MAX_CHAN) step_type ctrl_type;
  if bool_decide (chans = []) then None
  else Some (Stepgens (map (fun '(t, m) => export_stepgen l t m) chans) init_periods).
End Stepgen.
