(* ===== verification/StepgenTheorems.v ===== *)
(** * Theorems about the step generator

    A step/direction drive that watches the two pins follows the position of
    the generator and never sees the direction change too early; the phase
    outputs of the other step types follow the position; rounding of the
    timing parameters; the limit of the frequency. *)
From S2P Require Import Prelude Double Stepgen.
Import Stepgen.

(** ** A drive: counts rising edges of STEP in the direction of DIR

    [d_age]: time since the last counted step, [d_last]: its direction;
    [d_fault]: DIR changed less than [hold] after a step, or a step came
    less than [delay] after one in the other direction. *)
Record drive := Drive {
  d_step : bool;
  d_dir : bool;
  d_pos : Z;
  d_age : option Z;
  d_last : bool;
  d_fault : bool;
}.

Definition init_drive : drive := Drive false false 0 None false false.

Definition younger (age : option Z) (t : Z) : bool :=
  match age with Some a => a <? t | None => false end.

Definition drive_sample (period hold delay : Z) (d : drive) (step dir : bool) : drive :=
  let age := Z.add period <$> d_age d in
  let rising := step && negb (d_step d) in
  Drive step dir
    (if rising then d_pos d + (if dir then -1 else 1) else d_pos d)
    (if rising then Some 0 else age)
    (if rising then dir else d_last d)
    (d_fault d || (xorb dir (d_dir d) && younger age hold)
     || (rising && xorb dir (d_last d) && younger age delay)).

Definition pin (n : nat) (f : fast) : bool := nth n (phase f) false.

(** The pins and parameters that change while the generator runs. *)
Definition command (c : config) (en : bool) (target lim : Z) : config :=
  Config en target lim (step_len c) (dir_hold_dly c) (dir_setup c) (step_type c) (cycle_max c)
    (num_phases c) (lut c).

Definition hold_time (c : config) : Z := step_len c + dir_hold_dly c.
Definition delay_time (c : config) : Z := step_len c + dir_hold_dly c + dir_setup c.

(** [make_pulses] runs with arbitrary commands of at most [F] per period. *)
Inductive run (period F : Z) (c : config) : fast -> drive -> Prop :=
| run_init f0 : f0 = g_fast (export_stepgen (Luts master_lut cycle_len_lut num_phases_lut) (step_type c) false) ->
    run period F c f0 init_drive
| run_period f d en target lim :
    run period F c f d -> Z.abs target <= F -> 0 <= lim < 2 ^ 62 -> Z.abs (accum f) < 2 ^ 62 ->
    let f' := make_pulses1 period (command c en target lim) f in
    run period F c f' (drive_sample period (hold_time c) (delay_time c) d (pin STEP_PIN f') (pin DIR_PIN f')).

(** The position of the generator, in steps. *)
Definition position (f : fast) : Z := accum f / 2 ^ 28.

(** ** The parts of a period *)
Lemma countdown_eq t p : 0 <= t < 2 ^ 32 -> 0 < p -> countdown t p = Z.max 0 (t - p).
Proof.
  intros Ht Hp. unfold countdown. destruct (0 <? t) eqn:E1; [| zb; lia].
  destruct (p <? t) eqn:E2; zb; [| lia]. rewrite wrapu_small; lia.
Qed.

Lemma times_out_eq t p : 0 <= t -> times_out t p = true <-> 0 < t <= p.
Proof. intros Ht. unfold times_out. rewrite andb_true_iff, negb_true_iff, Z.ltb_lt, Z.ltb_ge. lia. Qed.

Lemma ramp_bound c old F :
  0 <= F < 2 ^ 61 -> Z.abs old <= F -> Z.abs (target_addval c) <= F -> 0 <= deltalim c < 2 ^ 62 ->
  Z.abs (ramp c old) <= F.
Proof.
  intros HF Ho Ht Hl. unfold ramp.
  rewrite !(wraps_small 64) by lia. repeat case_match; zb; try lia.
Qed.

Lemma pickoff_bit a b :
  Z.abs (b - a) <= 2 ^ 28 -> Z.testbit (Z.lxor a b) PICKOFF = negb (b / 2 ^ 28 =? a / 2 ^ 28).
Proof.
  intros H. rewrite Z.lxor_spec, !Z.testbit_odd, !Z.shiftr_div_pow2 by (unfold PICKOFF; lia).
  unfold PICKOFF. assert (Z.abs (b / 2 ^ 28 - a / 2 ^ 28) <= 1) as Hd.
  { pose proof (Z.div_mod a (2 ^ 28) ltac:(lia)). pose proof (Z.mod_pos_bound a (2 ^ 28) ltac:(lia)).
    pose proof (Z.div_mod b (2 ^ 28) ltac:(lia)). pose proof (Z.mod_pos_bound b (2 ^ 28) ltac:(lia)). lia. }
  set (x := a / 2 ^ 28) in *. set (y := b / 2 ^ 28) in *.
  assert (y = x \/ y = x + 1 \/ y = x - 1) as [-> | [-> | ->]] by lia.
  - rewrite Z.eqb_refl. by destruct (Z.odd x).
  - rewrite Z.odd_add. destruct (Z.eqb_spec (x + 1) x); [lia |]. by destruct (Z.odd x).
  - rewrite Z.odd_sub. destruct (Z.eqb_spec (x - 1) x); [lia |]. by destruct (Z.odd x).
Qed.

(** One period moves the position by at most one step, in the direction of [addval]. *)
Lemma dds_spec c f :
  Z.abs (addval f) <= 2 ^ 28 -> Z.abs (accum f) < 2 ^ 62 ->
  let a' := if negb (hold_dds f) && enable c then accum f + addval f else accum f in
  dds c f = (negb (a' / 2 ^ 28 =? accum f / 2 ^ 28),
    if negb (hold_dds f) && enable c
    then Fast (timer1 f) (timer2 f) (timer3 f) (hold_dds f) (addval f) a' (s32 (a' / 2 ^ 28))
           (curr_dir f) (state f) (phase f)
    else f).
Proof.
  intros Hv Ha a'. unfold dds. subst a'. destruct (negb (hold_dds f) && enable c).
  - rewrite (wraps_small 64) by lia. rewrite pickoff_bit by lia.
    by rewrite Z.shiftr_div_pow2 by (unfold PICKOFF; lia).
  - by rewrite Z.eqb_refl.
Qed.

Definition sgn (down : bool) : Z := if down then -1 else 1.

(** ** The direction invariant: until [timer2] is out the direction is that
    of the last step, and until [timer3] is out no step goes the other way *)
Record dir_inv (F : Z) (f : fast) (last : bool) : Prop := {
  di_timer1 : 0 <= timer1 f < 2 ^ 32;
  di_timer2 : 0 <= timer2 f <= timer3 f;
  di_timer3 : timer3 f < 2 ^ 32;
  di_addval : Z.abs (addval f) <= F;
  di_hold : hold_dds f = true -> timer3 f <> 0;
  di_dir : timer2 f <> 0 -> curr_dir f = sgn last;
  di_way : timer3 f <> 0 -> hold_dds f = true \/ (addval f <? 0) = last;
}.

(** The parameters of a channel that runs. *)
Record config_ok (F : Z) (c : config) : Prop := {
  ok_F : 0 <= F <= 2 ^ 28;
  ok_target : Z.abs (target_addval c) <= F;
  ok_lim : 0 <= deltalim c < 2 ^ 62;
  ok_len : 0 < step_len c;
  ok_hold : 0 <= dir_hold_dly c;
  ok_setup : 0 <= dir_setup c;
  ok_sum : step_len c + dir_hold_dly c + dir_setup c < 2 ^ 32;
}.

Lemma advance_inv F P c f last :
  config_ok F c -> 0 < P -> dir_inv F f last ->
  let f1 := advance P c f in
  timer1 f1 = Z.max 0 (timer1 f - P) /\ timer2 f1 = Z.max 0 (timer2 f - P) /\
  timer3 f1 = Z.max 0 (timer3 f - P) /\ accum f1 = accum f /\ rawcount f1 = rawcount f /\ curr_dir f1 = curr_dir f /\
  state f1 = state f /\ phase f1 = phase f /\ dir_inv F f1 last.
Proof.
  intros Hc HP [Ht1 Ht2 Ht3 Hv Hh Hd Hw] f1. destruct Hc.
  assert (countdown (timer3 f) P = Z.max 0 (timer3 f - P)) as E3 by (apply countdown_eq; lia).
  assert (timer1 f1 = Z.max 0 (timer1 f - P)) as E1 by (apply countdown_eq; lia).
  assert (timer2 f1 = Z.max 0 (timer2 f - P)) as E2 by (apply countdown_eq; lia).
  do 2 (split; [done |]). split; [exact E3 |]. do 5 (split; [done |]).
  assert (timer3 f1 = Z.max 0 (timer3 f - P)) as E3' by exact E3.
  assert (Z.abs (addval f1) <= F) as Hv'.
  { unfold f1, advance; simpl. destruct (negb _ && enable c); [apply ramp_bound; lia | done]. }
  split; rewrite ?E1, ?E2, ?E3'; try lia.
  - unfold f1, advance; simpl. rewrite E3. pose proof (times_out_eq (timer3 f) P ltac:(lia)) as Ho.
    destruct (negb (Z.max 0 (timer3 f - P) =? 0)) eqn:En.
    { rewrite negb_true_iff, Z.eqb_neq in En. done. }
    rewrite !andb_false_r. intros Hhold.
    destruct (times_out (timer3 f) P) eqn:Et; [done |]. apply Hh in Hhold.
    rewrite negb_false_iff, Z.eqb_eq in En. destruct Ho as [_ Ho]. discriminate Ho. lia.
  - intros H2. apply Hd. lia.
  - intros H3. unfold f1, advance; simpl. rewrite E3.
    pose proof (times_out_eq (timer3 f) P ltac:(lia)) as Ho.
    destruct (times_out (timer3 f) P) eqn:Et; [destruct Ho as [Ho _]; specialize (Ho eq_refl); lia |].
    assert (negb (Z.max 0 (timer3 f - P) =? 0) = true) as -> by (rewrite negb_true_iff, Z.eqb_neq; lia).
    destruct (hold_dds f); simpl; [by left |].
    destruct (Hw ltac:(lia)) as [? | Hw']; [done |].
    destruct (enable c); simpl; [| by right]. rewrite andb_true_r.
    destruct (reversal (ramp c (addval f)) (addval f)) eqn:Er; [by left |]. right.
    rewrite <- Hw'. unfold reversal in Er.
    destruct (ramp c (addval f) <? 0) eqn:En1, (addval f <? 0) eqn:En2; try done;
      rewrite ?En1, ?En2, ?andb_true_r, ?andb_false_r, ?orb_false_r in Er; simpl in Er; zb; lia.
Qed.

Lemma div_step a v : Z.abs v <= 2 ^ 28 ->
  (a + v) / 2 ^ 28 = a / 2 ^ 28 \/ (a + v) / 2 ^ 28 = a / 2 ^ 28 + sgn (v <? 0) /\ v <> 0.
Proof.
  intros Hv. pose proof (Z.div_mod a (2 ^ 28) ltac:(lia)). pose proof (Z.mod_pos_bound a (2 ^ 28) ltac:(lia)).
  pose proof (Z.div_mod (a + v) (2 ^ 28) ltac:(lia)). pose proof (Z.mod_pos_bound (a + v) (2 ^ 28) ltac:(lia)).
  unfold sgn. destruct (v <? 0) eqn:E; zb; lia.
Qed.

(** One period: the position moves by at most a step, never against the
    direction of the last one while [timer3] runs; the direction shown after
    a step is that of the step. *)
Lemma period_step F P c f last :
  config_ok F c -> 0 < P -> Z.abs (accum f) < 2 ^ 62 -> dir_inv F f last ->
  let f' := make_pulses1 P c f in
  let t x := Z.max 0 (x - P) in
  Z.abs (accum f' - accum f) <= F /\
  (t (timer3 f) <> 0 -> if last then accum f' <= accum f else accum f <= accum f') /\
  ((position f' = position f /\ (rawcount f' = rawcount f \/ rawcount f' = s32 (position f')) /\
    timer1 f' = t (timer1 f) /\ timer2 f' = t (timer2 f) /\ timer3 f' = t (timer3 f) /\
    (timer2 f' <> 0 -> curr_dir f' = curr_dir f) /\
    state f' = state f /\ dir_inv F f' last) \/
   (exists last', position f' = position f + sgn last' /\ rawcount f' = s32 (position f') /\
    (t (timer3 f) <> 0 -> last' = last) /\ curr_dir f' = sgn last' /\
    (t (timer2 f) <> 0 -> curr_dir f = curr_dir f') /\
    timer1 f' = step_len c /\ timer2 f' = step_len c + dir_hold_dly c /\
    timer3 f' = step_len c + dir_hold_dly c + dir_setup c /\
    state f' = (if 2 <=? step_type c then next_phase_state c (state f) (sgn last') else state f) /\
    dir_inv F f' last')) /\
  phase f' = output c (timer1 f') (curr_dir f') (state f') (phase f).
Proof.
  intros Hc HP Ha Hinv f' t.
  destruct (advance_inv F P c f last Hc HP Hinv) as (E1 & E2 & E3 & Eacc & Eraw & Edir & Est & Eph & Hinv1).
  unfold f', make_pulses1, t. clear f' t.
  set (f1 := advance P c f) in *. clearbody f1. pose proof (ok_F _ _ Hc) as HF.
  destruct Hinv1 as [Ht1 Ht2 Ht3 Hv Hh Hd Hw].
  rewrite (dds_spec c f1) by (rewrite ?Eacc; lia). rewrite <- E1, <- E2, <- E3.
  destruct (negb (hold_dds f1) && enable c) eqn:Ego.
  2:{ rewrite Z.eqb_refl. simpl. unfold position. cbn [accum timer1 timer2 timer3 rawcount state phase curr_dir].
      rewrite Eacc, Eph, Est. split; [lia |]. split; [destruct last; lia |]. split; [left | done].
      split; [done |]. split; [by left |]. do 3 (split; [done |]). split.
      { unfold direction. intros H2. destruct (Z.eqb_spec (timer2 f1) 0); congruence. }
      split; [done |]. split; cbn [timer1 timer2 timer3 addval hold_dds curr_dir]; try done.
      intros H2. unfold direction. destruct (Z.eqb_spec (timer2 f1) 0); [done |]. by apply Hd. }
  apply andb_true_iff in Ego as [Hnh _]. apply negb_true_iff in Hnh. rewrite Hnh in *.
  unfold position. rewrite <- Eacc in *.
  pose proof (div_step (accum f1) (addval f1) ltac:(lia)) as Hstep.
  split; [simpl; lia |]. split.
  { intros H3. destruct (Hw H3) as [? | <-]; [done |]. simpl. destruct (addval f1 <? 0) eqn:E; zb; lia. }
  split; [| by rewrite <- Eph].
  destruct (Z.eqb_spec ((accum f1 + addval f1) / 2 ^ 28) (accum f1 / 2 ^ 28)) as [Eq | Hne]; cbn [negb andb].
  - left. unfold position. cbn [accum timer1 timer2 timer3 rawcount state phase curr_dir addval hold_dds].
    split; [done |]. split; [by right |]. do 3 (split; [done |]). split.
    { unfold direction. cbn [timer2]. intros H2. destruct (Z.eqb_spec (timer2 f1) 0); [done |]. simpl. congruence. }
    split; [done |]. split; cbn [timer1 timer2 timer3 addval hold_dds curr_dir]; try done.
    intros H2. unfold direction. cbn [timer2]. destruct (Z.eqb_spec (timer2 f1) 0); [done |]. by apply Hd.
  - right. destruct Hstep as [? | [Hstep Hnz]]; [done |]. exists (addval f1 <? 0).
    set (f2 := Fast (timer1 f1) _ _ _ _ _ _ _ _ _).
    assert (direction f2 = sgn (addval f1 <? 0)) as Edirn.
    { unfold direction, f2. cbn [timer2 addval curr_dir]. destruct (Z.eqb_spec (timer2 f1) 0) as [| H2].
      - destruct (0 <? addval f1) eqn:E0, (addval f1 <? 0) eqn:E1'; try done; zb; lia.
      - destruct (Hw ltac:(lia)) as [? | Hw']; [done |]. rewrite Hw'. by apply Hd. }
    rewrite Edirn. unfold position. cbn [accum timer1 timer2 timer3 rawcount state phase curr_dir addval hold_dds f2].
    destruct Hc. rewrite !(wrapu_small 32) by lia.
    split; [exact Hstep |]. split; [done |]. split.
    { intros H3. by destruct (Hw H3) as [? | <-]. }
    split; [done |]. split.
    { intros H2. destruct (Hw ltac:(lia)) as [? | Hw']; [done |]. rewrite Hw', <- Edir. by apply Hd. }
    do 3 (split; [done |]). split; [by rewrite Est |].
    split; cbn [timer1 timer2 timer3 addval hold_dds curr_dir]; try done; lia.
Qed.

(** ** The drive follows the generator *)
Section Drive.
Context (P F k : Z) (c : config).
Hypothesis HP : 0 < P.
Hypothesis Hk : 1 <= k.
Hypothesis Hlen : step_len c = k * P.
Hypothesis HF : 0 <= F /\ (k + 1) * F <= 2 ^ 28.
Hypothesis Hhold : 0 <= dir_hold_dly c.
Hypothesis Hsetup : 0 <= dir_setup c.
Hypothesis Hdelay : 1 <= dir_hold_dly c + dir_setup c.
Hypothesis Hsum : delay_time c < 2 ^ 32.
Hypothesis Htype : step_type c = 0.

(** While the pulse lasts, the next step in its direction is out of reach. *)
Definition out_of_reach (f : fast) (last : bool) (r : Z) : Prop :=
  if last then position f * 2 ^ 28 + r * F <= accum f
  else accum f + r * F + 1 <= (position f + 1) * 2 ^ 28.

Record drive_inv (f : fast) (d : drive) : Prop := {
  dr_dir : dir_inv F f (d_last d);
  dr_pos : d_pos d = position f;
  dr_raw : rawcount f = s32 (position f);
  dr_step : d_step d = negb (timer1 f =? 0);
  dr_pin : d_dir d = (curr_dir f <? 0);
  dr_fault : d_fault d = false;
  dr_phase : length (phase f) = 5%nat;
  dr_pulse : exists r, 0 <= r <= k /\ timer1 f = r * P /\ out_of_reach f (d_last d) r /\
    (r <> 0 -> timer1 f + dir_hold_dly c + dir_setup c <= timer3 f);
  dr_age : match d_age d with
           | Some a => 0 <= a /\ hold_time c <= timer2 f + a /\ delay_time c <= timer3 f + a
           | None => timer2 f = 0 /\ timer3 f = 0
           end;
}.

Lemma out_of_reach_0 f last : out_of_reach f last 0.
Proof.
  unfold out_of_reach, position. pose proof (Z.div_mod (accum f) (2 ^ 28) ltac:(lia)).
  pose proof (Z.mod_pos_bound (accum f) (2 ^ 28) ltac:(lia)). destruct last; lia.
Qed.

Lemma position_bounds f p : position f = p -> p * 2 ^ 28 <= accum f < (p + 1) * 2 ^ 28.
Proof.
  intros <-. unfold position. pose proof (Z.div_mod (accum f) (2 ^ 28) ltac:(lia)).
  pose proof (Z.mod_pos_bound (accum f) (2 ^ 28) ltac:(lia)). lia.
Qed.

Lemma drive_init f0 :
  f0 = g_fast (export_stepgen (Luts master_lut cycle_len_lut num_phases_lut) (step_type c) false) ->
  drive_inv f0 init_drive.
Proof.
  intros ->. split; try done.
  - split; simpl; try done; lia.
  - exists 0. split; [lia |]. split; [done |]. split; [apply out_of_reach_0 | done].
Qed.

Lemma output_pins f : length (phase f) = 5%nat ->
  let ph := output c (timer1 f) (curr_dir f) (state f) (phase f) in
  nth STEP_PIN ph false = negb (timer1 f =? 0) /\ nth DIR_PIN ph false = (curr_dir f <? 0) /\
  length ph = 5%nat.
Proof.
  intros Hl. unfold output. rewrite Htype. simpl.
  destruct (phase f) as [| a [| b l]]; try done.
Qed.
Lemma drive_step f d en target lim :
  drive_inv f d -> Z.abs target <= F -> 0 <= lim < 2 ^ 62 -> Z.abs (accum f) < 2 ^ 62 ->
  let f' := make_pulses1 P (command c en target lim) f in
  drive_inv f' (drive_sample P (hold_time c) (delay_time c) d (pin STEP_PIN f') (pin DIR_PIN f')).
Proof.
  intros [Hdir Hpos Hraw Hstep Hpin Hfault Hph (r & Hr & Ht1 & Hreach & Hroom) Hage] Htg Hlim Hacc f'.
  assert (config_ok F (command c en target lim)) as Hok.
  { unfold delay_time in Hsum. split; simpl; nia. }
  destruct (period_step F P _ f (d_last d) Hok HP Hacc Hdir) as (Hda & Hsign & Hcase & Hout).
  fold f' in Hda, Hsign, Hcase, Hout.
  assert (length (phase f') = 5%nat /\ pin STEP_PIN f' = negb (timer1 f' =? 0) /\
          pin DIR_PIN f' = (curr_dir f' <? 0)) as (Hph' & Hps & Hpd).
  { unfold pin. rewrite Hout. unfold output. simpl. rewrite Htype. simpl.
    destruct (phase f) as [| a [| b l]]; try done. }
  rewrite Hps, Hpd.
  destruct Hcase as [(Ep & Er & E1 & E2 & E3 & Ed & _ & Hdir') | (last' & Ep & Er & Hlast & Edl & Ed2 & E1 & E2 & E3 & _ & Hdir')].
  - assert (negb (timer1 f' =? 0) && negb (d_step d) = false) as Hris.
    { rewrite Hstep, E1, negb_involutive. destruct (Z.eqb_spec (timer1 f) 0) as [-> |]; [| apply andb_false_r].
      destruct (Z.eqb_spec (Z.max 0 (0 - P)) 0); [done | lia]. }
    unfold drive_sample. rewrite Hris. split; cbn [d_last d_pos d_step d_dir d_fault d_age]; try done; try congruence.
    + rewrite Ep. destruct Er; congruence.
    + rewrite Hfault. simpl. rewrite orb_false_r.
      destruct (Z.eq_dec (timer2 f') 0) as [H2 | H2].
      2:{ rewrite (Ed H2), Hpin, xorb_nilpotent. done. }
      destruct (d_age d) as [a |]; simpl; [| apply andb_false_r].
      destruct (Z.ltb_spec (P + a) (hold_time c)); [lia | apply andb_false_r].
    + exists (Z.max 0 (r - 1)). split; [lia |]. rewrite E1, E3. split; [nia |]. split.
      2:{ intros Hr0. specialize (Hroom ltac:(lia)). assert (P <= timer1 f) by nia. lia. }
      destruct (Z.eq_dec r 0) as [-> | Hr0]; [apply out_of_reach_0 |].
      specialize (Hroom Hr0). unfold out_of_reach in *. rewrite Ep.
      assert (Z.max 0 (timer3 f - P) <> 0) as H3 by nia. specialize (Hsign H3).
      replace (Z.max 0 (r - 1)) with (r - 1) by lia. destruct (d_last d); nia.
    + destruct (d_age d) as [a |]; simpl; lia.
  - assert (timer1 f = 0) as Ht0.
    { destruct (Z.eq_dec r 0) as [-> | Hr0]; [lia |]. exfalso. specialize (Hroom Hr0).
      assert (Z.max 0 (timer3 f - P) <> 0) as H3 by nia. specialize (Hsign H3). rewrite (Hlast H3) in Ep.
      unfold out_of_reach in Hreach. apply position_bounds in Ep. unfold sgn in Ep. destruct (d_last d); nia. }
    assert (negb (timer1 f' =? 0) && negb (d_step d) = true) as Hris.
    { rewrite Hstep, Ht0, E1. simpl step_len. destruct (Z.eqb_spec (step_len c) 0); [nia | done]. }
    assert ((curr_dir f' <? 0) = last') as Epin by (rewrite Edl; by destruct last').
    unfold drive_sample. rewrite Hris, Epin.
    simpl step_len in *. simpl dir_hold_dly in *. simpl dir_setup in *.
    split; cbn [d_last d_pos d_step d_dir d_fault d_age]; try done.
    + rewrite Hpos, Ep. done.
    + rewrite Hfault. simpl. apply orb_false_iff; split.
      * destruct (Z.eq_dec (Z.max 0 (timer2 f - P)) 0) as [H2 | H2].
        2:{ rewrite Hpin, (Ed2 H2), Epin, xorb_nilpotent. done. }
        destruct (d_age d) as [a |]; simpl; [| apply andb_false_r].
        destruct (Z.ltb_spec (P + a) (hold_time c)); [lia | apply andb_false_r].
      * destruct (Z.eq_dec (Z.max 0 (timer3 f - P)) 0) as [H3 | H3].
        2:{ rewrite (Hlast H3), xorb_nilpotent. done. }
        destruct (d_age d) as [a |]; simpl; [| apply andb_false_r].
        destruct (Z.ltb_spec (P + a) (delay_time c)); [lia | apply andb_false_r].
    + exists k. split; [lia |]. rewrite E1, E3. split; [done |]. split; [| lia].
      pose proof (position_bounds f _ eq_refl). apply position_bounds in Ep as Hb.
      unfold out_of_reach. rewrite Ep. unfold sgn in *. destruct last'; nia.
    + unfold hold_time, delay_time. lia.
Qed.

Lemma drive_follows f d : run P F c f d -> drive_inv f d.
Proof. induction 1; [by apply drive_init | by apply drive_step]. Qed.
End Drive.

(** C7: A step/direction drive counts exactly the raw count of the
    generator, and never sees DIR change within pulse length and hold time
    of a step, nor a step the other way within these and the setup time,
    for every sequence of commands whose frequency respects steplen and
    stepspace.  (DIR may still change in the period of a step.) *)
Theorem stepgen_drive P F k c f d :
  0 < P -> 1 <= k -> step_len c = k * P -> 0 <= F /\ (k + 1) * F <= 2 ^ 28 ->
  0 <= dir_hold_dly c -> 0 <= dir_setup c -> 1 <= dir_hold_dly c + dir_setup c ->
  delay_time c < 2 ^ 32 -> step_type c = 0 ->
  run P F c f d -> rawcount f = s32 (d_pos d) /\ d_fault d = false.
Proof.
  intros HP Hk Hl HF Hh Hs Hd Hsum Ht Hr.
  destruct (drive_follows P F k c HP Hk Hl HF Hh Hs Hd Hsum Ht f d Hr).
  split; [congruence | done].
Qed.

(** Runs at speeds that are given for each period. *)
Definition w_config : config := Config true 0 0 20000 20000 20000 0 0 0 [].
Definition w_start : fast :=
  g_fast (export_stepgen (Luts master_lut cycle_len_lut num_phases_lut) 0 false).

Fixpoint w_run (targets : list Z) (f : fast) (d : drive) : option (fast * drive) :=
  match targets with
  | [] => Some (f, d)
  | t :: targets =>
      if (Z.abs t <=? 2 ^ 27) && (Z.abs (accum f) <? 2 ^ 62) then
        let f' := make_pulses1 20000 (command w_config true t 0) f in
        w_run targets f' (drive_sample 20000 (hold_time w_config) (delay_time w_config) d
                            (pin STEP_PIN f') (pin DIR_PIN f'))
      else None
  end.

Lemma w_run_run targets f d f' d' :
  run 20000 (2 ^ 27) w_config f d -> w_run targets f d = Some (f', d') -> run 20000 (2 ^ 27) w_config f' d'.
Proof.
  revert f d. induction targets as [| t targets IH]; simpl; intros f d Hr.
  - by intros [= <- <-].
  - destruct (_ && _) eqn:E; [| done]. apply andb_true_iff in E as [Et Ea]. zb.
    apply IH. apply run_period; [done | lia | lia | lia].
Qed.

(** Steps up, a reversal at full speed, steps down. *)
Lemma stepgen_drive_witness :
  exists f d, run 20000 (2 ^ 27) w_config f d /\ rawcount f = -2 /\ d_pos d = -2 /\
    rawcount f = s32 (d_pos d) /\ d_fault d = false.
Proof.
  destruct (w_run (replicate 6 (2 ^ 27) ++ replicate 12 (- 2 ^ 27)) w_start init_drive) as [[f d] |] eqn:E;
    [| vm_compute in E; discriminate].
  assert (run 20000 (2 ^ 27) w_config f d) as Hr.
  { refine (w_run_run _ w_start init_drive f d _ E); by apply run_init. }
  exists f, d. split; [exact Hr |]. vm_compute in E. injection E as Ef Ed.
  split; [by rewrite <- Ef |]. split; [by rewrite <- Ed |].
  apply (stepgen_drive 20000 (2 ^ 27) 1 w_config f d); try done; try exact Hr; simpl; try lia; vm_compute; done.
Defined.

(** The setup time is not kept: with both timers out, a reversal shows the new
    direction and the step in the same period. *)
Example dirsetup_not_kept :
  exists f d, run 20000 (2 ^ 27) w_config f d /\
    let f' := make_pulses1 20000 (command w_config true (-2) 0) f in
    d_step d = false /\ d_dir d = false /\ pin STEP_PIN f' = true /\ pin DIR_PIN f' = true /\
    dir_setup w_config = 20000.
Proof.
  destruct (w_run [- 2 ^ 27; 1] w_start init_drive) as [[f d] |] eqn:E; [| vm_compute in E; discriminate].
  exists f, d. split; [refine (w_run_run _ w_start init_drive f d _ E); by apply run_init |].
  vm_compute in E. injection E as Ef Ed. rewrite <- Ef, <- Ed. vm_compute. done.
Qed.

(** A channel that is disabled while it holds for a reversal forgets the
    reversal: enabled again, it steps up while DIR still says down. *)
Example disable_skips_reversal :
  let g f := Gen f w_config (g_slow (export_stepgen (Luts master_lut cycle_len_lut num_phases_lut) 0 false)) in
  let after t f := make_pulses1 20000 (command w_config true t 0) f in
  let f1 := after (- 2 ^ 27) (after (- 2 ^ 27) w_start) in
  let f2 := after (2 ^ 27) (g_fast (disable (g f1))) in
  rawcount f1 = -1 /\ rawcount f2 = 0 /\ pin STEP_PIN f2 = true /\ pin DIR_PIN f2 = true.
Proof. vm_compute. done. Qed.

(** ** State patterns: the outputs follow the position *)
Lemma phase_bits_nth n p outbits ph q :
  (p + n <= length ph)%nat ->
  nth q (phase_bits n p outbits ph) false
  = if bool_decide (p <= q < p + n)%nat then Z.testbit outbits (Z.of_nat (q - p)) else nth q ph false.
Proof.
  revert p outbits ph. induction n as [| n IH]; intros p outbits ph Hl; simpl.
  - rewrite bool_decide_eq_false_2 by lia. done.
  - rewrite IH by (rewrite length_insert; lia).
    destruct (decide (q = p)) as [-> | Hne].
    + rewrite bool_decide_eq_false_2, bool_decide_eq_true_2 by lia.
      rewrite Nat.sub_diag. apply nth_lookup_Some. rewrite list_lookup_insert_eq by lia.
      by rewrite Z.bit0_odd.
    + rewrite !nth_lookup, list_lookup_insert_ne by done.
      destruct (bool_decide_reflect (S p <= q < S p + n)%nat).
      * rewrite bool_decide_eq_true_2 by lia. rewrite Z.shiftr_spec by lia. f_equal. lia.
      * by rewrite bool_decide_eq_false_2 by lia.
Qed.

Lemma phase_bits_length n p outbits ph : length (phase_bits n p outbits ph) = length ph.
Proof. revert p outbits ph. induction n; intros; simpl; [done |]. by rewrite IHn, length_insert. Qed.

Lemma output_length c t1 dir st ph : length (output c t1 dir st ph) = length ph.
Proof. unfold output. repeat case_match; rewrite ?length_insert; try done. apply phase_bits_length. Qed.

Lemma next_phase_state_eq c x (down : bool) n :
  cycle_max c = n - 1 -> 1 <= n < 2 ^ 30 ->
  next_phase_state c (x mod n) (sgn down) = (x + sgn down) mod n.
Proof.
  intros Hc Hn. pose proof (Z.mod_pos_bound x n ltac:(lia)) as Hb.
  unfold next_phase_state. rewrite Hc, (wraps_small 32) by (unfold sgn; destruct down; lia).
  rewrite <- Zplus_mod_idemp_l. unfold sgn.
  destruct (Z.ltb_spec (x mod n + (if down then -1 else 1)) 0).
  - apply (Zmod_unique _ _ (-1)); destruct down; lia.
  - destruct (Z.ltb_spec (n - 1) (x mod n + (if down then -1 else 1))).
    + apply (Zmod_unique _ _ 1); destruct down; lia.
    + symmetry. apply Z.mod_small. lia.
Qed.

Section Patterns.
Context (P F n : Z) (c : config).
Hypothesis HP : 0 < P.
Hypothesis HF : 0 <= F <= 2 ^ 28.
Hypothesis Hlen : 0 < step_len c.
Hypothesis Hhold : 0 <= dir_hold_dly c.
Hypothesis Hsetup : 0 <= dir_setup c.
Hypothesis Hsum : delay_time c < 2 ^ 32.
Hypothesis Htype : 2 <= step_type c.
Hypothesis Hcycle : cycle_max c = n - 1 /\ 1 <= n < 2 ^ 30.

Definition pattern_inv (f : fast) : Prop :=
  (exists last, dir_inv F f last) /\ state f = position f mod n /\ rawcount f = s32 (position f) /\
  length (phase f) = 5%nat.

Lemma pattern_step f en target lim :
  pattern_inv f -> Z.abs target <= F -> 0 <= lim < 2 ^ 62 -> Z.abs (accum f) < 2 ^ 62 ->
  pattern_inv (make_pulses1 P (command c en target lim) f).
Proof.
  intros ([last Hdir] & Hst & Hraw & Hph) Htg Hlim Hacc.
  assert (config_ok F (command c en target lim)) as Hok by (unfold delay_time in Hsum; split; simpl; lia).
  destruct (period_step F P _ f last Hok HP Hacc Hdir) as (_ & _ & Hcase & Hout).
  set (f' := make_pulses1 P (command c en target lim) f) in *. unfold pattern_inv.
  rewrite Hout, output_length.
  destruct Hcase as [(Ep & Er & _ & _ & _ & _ & Est & Hdir') | (last' & Ep & Er & _ & _ & _ & _ & _ & _ & Est & Hdir')].
  - rewrite Est, Ep. split; [by exists last |]. split; [done |]. split; [destruct Er; congruence | done].
  - split; [by exists last' |]. split; [| by split; [exact Er | exact Hph]]. rewrite Est. simpl.
    destruct (Z.leb_spec 2 (step_type c)); [| lia].
    rewrite Hst, Ep. apply next_phase_state_eq; apply Hcycle.
Qed.

Lemma pattern_run f d : run P F c f d -> pattern_inv f.
Proof.
  induction 1 as [f0 -> | f d en target lim _ IH]; [| by apply pattern_step].
  split; [| done]. exists false. split; simpl; try done; lia.
Qed.
End Patterns.

(** For the step types 2 and up, after every period the phase outputs are
    the bits of the pattern at the position of the generator modulo the cycle
    length, and the raw count is that position, for every sequence of commands. *)
Theorem stepgen_pattern P F n c f d en target lim :
  0 < P -> 0 <= F <= 2 ^ 28 -> 0 < step_len c -> 0 <= dir_hold_dly c -> 0 <= dir_setup c ->
  delay_time c < 2 ^ 32 -> 2 <= step_type c -> cycle_max c = n - 1 /\ 1 <= n < 2 ^ 30 -> 0 <= num_phases c <= 5 ->
  run P F c f d -> Z.abs target <= F -> 0 <= lim < 2 ^ 62 -> Z.abs (accum f) < 2 ^ 62 ->
  let f' := make_pulses1 P (command c en target lim) f in
  rawcount f' = s32 (position f') /\
  forall p, Z.of_nat p < num_phases c ->
    pin p f' = Z.testbit (nth (Z.to_nat (position f' mod n)) (lut c) 0) (Z.of_nat p).
Proof.
  intros HP HF Hl Hh Hs Hsum Ht Hc Hn Hr Htg Hlim Ha f'.
  pose proof (pattern_run P F n c HP HF Hl Hh Hs Hsum Ht Hc f d Hr) as Hinv.
  pose proof (pattern_step P F n c HP HF Hl Hh Hs Hsum Ht Hc f en target lim Hinv Htg Hlim Ha) as Hinv'.
  fold f' in Hinv'. destruct Hinv as (_ & _ & _ & Hph), Hinv' as (_ & Hst & Hraw & _). split; [done |].
  intros p Hp. rewrite <- Hst. unfold pin, f', make_pulses1.
  destruct (dds _ _) as [now f2] eqn:Ed. cbn [phase state].
  assert (phase f2 = phase f) as ->.
  { unfold dds in Ed. destruct (_ && _); injection Ed as _ <-; done. }
  unfold output. cbn [command step_type num_phases lut]. destruct (Z.eqb_spec (step_type c) 0); [lia |].
  destruct (Z.eqb_spec (step_type c) 1); [lia |].
  rewrite phase_bits_nth by lia. rewrite bool_decide_eq_true_2 by lia. by rewrite Nat.sub_0_r.
Qed.

Definition w_pattern : config :=
  let c := g_cfg (export_stepgen (Luts master_lut cycle_len_lut num_phases_lut) 4 true) in
  Config true 0 0 20000 20000 0 4 (cycle_max c) (num_phases c) (lut c).

(** Three wire half step, one step down from the first pattern: the last one. *)
Lemma stepgen_pattern_witness :
  let f := g_fast (export_stepgen (Luts master_lut cycle_len_lut num_phases_lut) 4 false) in
  let f' := make_pulses1 20000 (command w_pattern true (- 2 ^ 28) 0) f in
  position f' = -1 /\ rawcount f' = -1 /\ map (fun p => pin p f') [0; 1; 2]%nat = [true; false; true].
Proof.
  intros f f'. split; [vm_compute; done |].
  pose proof (stepgen_pattern 20000 (2 ^ 28) 6 w_pattern f init_drive true (- 2 ^ 28) 0) as H.
  destruct H as [Hr Hp]; [lia | lia | vm_compute; done | vm_compute; done | vm_compute; done | vm_compute; done
    | vm_compute; done | split; [vm_compute; done | lia] | vm_compute; split; congruence | by apply run_init
    | lia | lia | vm_compute; done |].
  fold f' in Hr, Hp. split; [rewrite Hr; vm_compute; done |].
  cbn [map]. rewrite !Hp by (vm_compute; done). vm_compute. done.
Defined.

(** ** [update_freq] *)
Lemma ulceil_spec v p : 0 <= v < 2 ^ 32 -> 0 < p < 2 ^ 31 ->
  v <= ulceil v p < v + p /\ (p | ulceil v p).
Proof.
  intros Hv Hp. unfold ulceil. destruct (Z.eqb_spec v 0) as [-> | Hn]; [split; [lia | apply Z.divide_0_r] |].
  pose proof (Z.div_mod (v - 1) p ltac:(lia)). pose proof (Z.mod_pos_bound (v - 1) p ltac:(lia)).
  rewrite wrapu_small by nia. split; [nia | apply Z.divide_factor_l].
Qed.

Lemma freq_limit_nonneg c s : nonneg (fst (freq_limit c s)) = true.
Proof.
  assert (nonneg (ddiv d1 (dmul (dbl_of_Z (u32 (step_len c + step_space s))) d1e_9)) = true) as Hm.
  { apply ddiv_nonneg; [done |]. apply dmul_nonneg; [apply dbl_of_Z_nonneg, wrapu_range; lia | done]. }
  unfold freq_limit. destruct (dle (maxvel s) d0) eqn:E; [exact Hm |].
  destruct (dlt _ _); [exact Hm |]. apply dmul_nonneg; [by apply positive_nonneg | apply dabs_nonneg].
Qed.

Lemma update_timing_len np p g :
  let g' := update_timing np p g in
  let l := step_len (g_cfg g) in
  enable (g_cfg g') = enable (g_cfg g) /\ pos_mode (g_slow g') = pos_mode (g_slow g) /\
  step_len (g_cfg g') = if negb (l =? (if np then u32 (-1) else old_step_len (g_slow g)))
                        then u32 (ulceil (if l =? 0 then 1 else l) p) else l.
Proof.
  unfold update_timing. cbv zeta.
  destruct (negb (step_len _ =? _)), (negb (step_space _ =? _)), (negb (dir_setup _ =? _)),
    (negb (dir_hold_dly _ =? _)); done.
Qed.

(** After a change of the period: the least positive multiple of the period
    that is not below the requested pulse length. *)
Lemma new_period_len p g :
  0 < p < 2 ^ 31 -> 0 <= step_len (g_cfg g) < 2 ^ 31 ->
  let l := step_len (g_cfg g) in
  let l' := step_len (g_cfg (update_timing true p g)) in
  Z.max 1 l <= l' < Z.max 1 l + p /\ (p | l').
Proof.
  intros Hp Hl l l'. destruct (update_timing_len true p g) as (_ & _ & E). fold l l' in E.
  destruct (Z.eqb_spec l (u32 (-1))) as [Eq |]; [vm_compute (u32 (-1)) in Eq; lia |]. cbn [negb] in E.
  pose proof (ulceil_spec (Z.max 1 l) p ltac:(lia) Hp) as [Hb Hd].
  assert ((if l =? 0 then 1 else l) = Z.max 1 l) as Hx by (destruct (Z.eqb_spec l 0); lia).
  rewrite Hx, wrapu_small in E by lia. by rewrite E.
Qed.

Lemma control_freq p g g' : control p g = Some g' -> pos_mode (g_slow g) = true ->
  let m := fst (freq_limit (g_cfg g) (g_slow g)) in
  dlt m (freq (g_slow g')) = false /\ dlt (freq (g_slow g')) (dneg m) = false /\
  step_len (g_cfg g') = step_len (g_cfg g).
Proof.
  intros H Hpm m. unfold control in H. pose proof (freq_limit_nonneg (g_cfg g) (g_slow g)) as Hn.
  destruct (freq_limit (g_cfg g) (g_slow g)) as [mf mv]. simpl in m, Hn. subst m.
  destruct (accel_limit p (g_slow g) mf) as [ma mav]. rewrite Hpm in H.
  apply bind_Some in H as (t & _ & H). apply bind_Some in H as (dl & _ & H). injection H as <-.
  simpl. unfold position_control.
  split; [| split; [| done]]; [apply dclamp_hi | apply dclamp_lo]; by apply nonneg_limits.
Qed.

Lemma check_scale_mode s : pos_mode (check_scale s) = pos_mode s.
Proof. unfold check_scale. by destruct (negb _). Qed.

(** Enabled in position mode, [update_freq] sets a frequency within the
    limit that pulse length, spacing and maxvel give, whatever command,
    feedback and gains are, infinities and NaN included; after a change of the
    period the pulse length is the least positive multiple of the period that
    is not shorter than requested. *)
Theorem stepgen_limits np p g g' :
  update_freq1 np p g = Some g' -> enable (g_cfg g) = true -> pos_mode (g_slow g) = true ->
  0 < periodns p < 2 ^ 31 -> 0 <= step_len (g_cfg g) < 2 ^ 31 ->
  let g1 := update_timing np (periodns p) (Gen (g_fast g) (g_cfg g) (check_scale (g_slow g))) in
  let max_freq := fst (freq_limit (g_cfg g1) (g_slow g1)) in
  let l := step_len (g_cfg g) in
  dlt max_freq (freq (g_slow g')) = false /\ dlt (freq (g_slow g')) (dneg max_freq) = false /\
  (np = true -> Z.max 1 l <= step_len (g_cfg g') < Z.max 1 l + periodns p /\ (periodns p | step_len (g_cfg g'))).
Proof.
  intros Hu Hen Hpm Hp Hl g1 max_freq l. unfold update_freq1 in Hu. fold g1 in Hu.
  destruct (update_timing_len np (periodns p) (Gen (g_fast g) (g_cfg g) (check_scale (g_slow g)))) as (He & Hm & _).
  fold g1 in He, Hm. simpl in He, Hm. rewrite He, Hen in Hu. simpl in Hu. rewrite check_scale_mode, Hpm in Hm.
  destruct (control_freq p g1 g' Hu Hm) as (H1 & H2 & H3). split; [exact H1 |]. split; [exact H2 |].
  intros Enp. rewrite H3. unfold g1. rewrite Enp.
  exact (new_period_len (periodns p) (Gen (g_fast g) (g_cfg g) (check_scale (g_slow g))) Hp Hl).
Qed.

Definition w_limits : stepgen_t :=
  let g := export_stepgen (Luts master_lut cycle_len_lut num_phases_lut) 0 true in
  Gen (g_fast g) w_config
    (Slow true 1 d0 0 d1 d0 d0 d0 (dbl_of_Z 1000) d0 d0 (dbl_of_Z 100) d0 0 0 0 0).

(** A command of 1000 units in one period, maxvel 100 units per second: 100 Hz. *)
Lemma stepgen_limits_witness :
  exists g', update_freq1 true init_periods w_limits = Some g' /\ freq (g_slow g') = dbl_of_Z 100 /\
    50000 <= step_len (g_cfg g') /\ (50000 | step_len (g_cfg g')).
Proof.
  destruct (update_freq1 true init_periods w_limits) as [g' |] eqn:E; [| vm_compute in E; discriminate].
  destruct (stepgen_limits true init_periods w_limits g' E) as (_ & _ & Hlen);
    [done | done | simpl; lia | simpl; lia |].
  destruct (Hlen eq_refl) as [Hle Hdiv]. simpl in Hle, Hdiv.
  exists g'. split; [done |]. split; [vm_compute in E; by injection E as <- |].
  vm_compute in E. injection E as <-. simpl in *. split; [lia | exact Hdiv].
Defined.
