(* ===== verification/Pwmgen.v ===== *)
(** * PWM generator (modules/managed/components/pwmgen/src/pwmgen.c)

    [make_pulses] runs in the fast thread, [update] in a slow one.  A channel
    is modelled in three records: what [make_pulses] writes, what it reads,
    and the rest.  A pin is a field.  A conversion of a double that C leaves
    undefined makes the result [None].  The width of [long] is 64. *)
From S2P Require Import Prelude Double.

Module Pwmgen.

Definition MAX_CHAN : nat := 8.
Definition MAX_OUTPUT_TYPE : Z := 2.
Definition PWM_DISABLED : Z := 0.
Definition PWM_PURE : Z := 1.
Definition PWM_DITHER : Z := 2.
Definition PWM_PDM : Z := 3.

(** ** State ([pwmgen_t]) *)
Record fast := Fast {
  period_timer : Z;
  high_timer : Z;
  curr_output : Z;
  out : bool * bool;        (* PWM or UP; DIR or DOWN *)
}.

Record config := Config {
  period : Z;
  high_time : Z;
  output_type : Z;
  pwm_mode : Z;
  direction : Z;
}.

Record slow := Slow {
  enable : bool;
  value : double;
  scale : double;
  offset : double;
  old_scale : double;
  scale_recip : double;
  pwm_freq : double;
  old_pwm_freq : double;
  periods : Z;              (* int *)
  periods_recip : double;
  dither_pwm : bool;
  min_dc : double;
  max_dc : double;
  curr_dc : double;
}.

Record pwmgen_t := Gen { g_fast : fast; g_cfg : config; g_slow : slow }.

(** ** [make_pulses], one channel *)
Definition pure_step (periodns : Z) (c : config) (f : fast) : fast :=
  let high := if curr_output f =? 0 then high_timer f else s64 (high_timer f + periodns) in
  let cur := if negb (curr_output f =? 0) && (high_time c <=? high) then 0 else curr_output f in
  let timer := s64 (period_timer f + periodns) in
  if period c <=? timer then Fast 0 0 (if 0 <? high_time c then 1 else cur) (out f)
  else Fast timer high cur (out f).

Definition dither_step (periodns : Z) (c : config) (f : fast) : fast :=
  let high := if curr_output f =? 0 then high_timer f else s64 (high_timer f - periodns) in
  let cur := if negb (curr_output f =? 0) && (high <=? 0) then 0 else curr_output f in
  let timer := s64 (period_timer f + periodns) in
  if period c <=? timer then
    let high := s64 (high + high_time c) in
    Fast (s64 (timer - period c)) high (if 0 <? high then 1 else cur) (out f)
  else Fast timer high cur (out f).

Definition pdm_step (periodns : Z) (c : config) (f : fast) : fast :=
  let high := s64 (high_timer f + high_time c) in
  let high := if curr_output f =? 0 then high else s64 (high - periodns) in
  Fast (period_timer f) high (if 0 <? high then 1 else 0) (out f).

Definition write_out (c : config) (f : fast) : fast :=
  let cur := curr_output f in
  Fast (period_timer f) (high_timer f) cur
    (if output_type c <? 2 then (negb (cur =? 0), snd (out f))
     else (negb (Z.land cur (Z.lnot (direction c)) =? 0), negb (Z.land cur (direction c) =? 0))).

Definition make_pulses1 (periodns : Z) (c : config) (f : fast) : fast :=
  write_out c
    (if pwm_mode c =? PWM_PURE then pure_step periodns c f
     else if pwm_mode c =? PWM_DITHER then dither_step periodns c f
     else if pwm_mode c =? PWM_PDM then pdm_step periodns c f
     else Fast 0 0 0 (out f)).

(** ** [update], one channel *)
Definition d1e9 : double := dbl_of_Z 1000000000.
Definition d2 : double := dbl_of_Z 2.

(** Both limits of the duty cycle. *)
Definition dc_limits (min_dc max_dc : double) : double * double :=
  let max_dc := if dlt d1 max_dc then d1 else max_dc in
  let min_dc := if dlt max_dc min_dc then max_dc else min_dc in
  let min_dc := if dlt min_dc d0 then d0 else min_dc in
  let max_dc := if dlt max_dc min_dc then min_dc else max_dc in
  (min_dc, max_dc).

(** The scale, its old value and its reciprocal. *)
Definition check_scale (s : slow) : double * double * double :=
  if negb (deq (scale s) (old_scale s)) then
    let sc := if dlt (scale s) d1e_20 && dlt (dneg d1e_20) (scale s) then d1 else scale s in
    (sc, scale s, ddiv d1 sc)
  else (scale s, old_scale s, scale_recip s).

Definition new_mode (s : slow) : Z :=
  if negb (enable s) then PWM_DISABLED
  else if deq (pwm_freq s) d0 then PWM_PDM
  else if dither_pwm s then PWM_DITHER
  else PWM_PURE.

(** The frequency within its limits. *)
Definition freq_limits (periodns : Z) (f : double) : double :=
  let top := ddiv (ddiv d1e9 d2) (dbl_of_Z periodns) in
  if dlt f d_half then d_half else if dlt top f then top else f.

(** Frequency, periods, their reciprocal, and the period. *)
Definition period_calcs (periodns mode : Z) (c : config) (s : slow) : option (double * Z * double * Z) :=
  if dle (pwm_freq s) d0 then Some (d0, periods s, periods_recip s, periodns)
  else
    let f := freq_limits periodns (pwm_freq s) in
    if mode =? PWM_PURE then
      n ← dbl_to_sint 32 (dadd (ddiv (ddiv d1e9 f) (dbl_of_Z periodns)) d_half);
      let p := s64 (n * periodns) in
      Some (ddiv d1e9 (dbl_of_Z p), n, ddiv d1 (dbl_of_Z n), p)
    else
      p ← dbl_to_sint 64 (ddiv d1e9 f);
      Some (f, periods s, periods_recip s, p).

(** The duty cycle with its sign, the direction, and the duty cycle of the output. *)
Definition duty (output_type : Z) (lo hi dc : double) : double * Z * double :=
  let dc := if (output_type =? 0) && dlt dc d0 then d0 else dc in
  if dle d0 dc then
    let dc := if dlt hi dc then hi else if dlt dc lo then lo else dc in (dc, 0, dc)
  else
    let dc := if dlt dc (dneg hi) then dneg hi else if dlt (dneg lo) dc then dneg lo else dc in (dc, 1, dneg dc).

(** The time of a cycle that the output is high, and the duty cycle that results. *)
Definition high_of (periodns mode period periods : Z) (recip dc outdc : double) : option (Z * double) :=
  if mode =? PWM_PURE then
    n ← dbl_to_sint 32 (dadd (dmul (dbl_of_Z periods) outdc) d_half);
    Some (s64 (n * periodns), dmul (dbl_of_Z (if dle d0 dc then n else s32 (- n))) recip)
  else
    h ← dbl_to_sint 64 (dadd (dmul (dbl_of_Z period) outdc) d_half);
    Some (h, dc).

Definition update1 (periodns oldperiodns : Z) (g : pwmgen_t) : option pwmgen_t :=
  let c := g_cfg g in
  let s := g_slow g in
  let '(lo, hi) := dc_limits (min_dc s) (max_dc s) in
  let '(sc, osc, recip) := check_scale s in
  let mode := new_mode s in
  let old_mode := if negb (deq (pwm_freq s) (old_pwm_freq s)) then PWM_DISABLED else pwm_mode c in
  let recalc := negb (old_mode =? mode) || negb (periodns =? oldperiodns) in
  r ← (if recalc then
         '(f, n, nr, p) ← period_calcs periodns mode c s; Some (f, f, n, nr, p)
       else Some (pwm_freq s, old_pwm_freq s, periods s, periods_recip s, period c));
  let '(freq, ofreq, n, nr, p) := r in
  let '(dc, dir, outdc) := duty (output_type c) lo hi (dadd (dmul (value s) recip) (offset s)) in
  '(high, cdc) ← high_of periodns mode p n nr dc outdc;
  let f := g_fast g in
  Some (Gen
    (Fast (period_timer f) (high_timer f) (curr_output f)
       (if output_type c =? 1 then (fst (out f), negb (dir =? 0)) else out f))
    (Config p high (output_type c) mode dir)
    (Slow (enable s) (value s) sc (offset s) osc recip freq ofreq n nr (dither_pwm s) lo hi cdc)).

(** ** The component *)
Record pwmgens := Pwmgens { gens : list pwmgen_t; periodns : Z; oldperiodns : Z }.

Definition make_pulses (p : Z) (s : pwmgens) : pwmgens :=
  Pwmgens (map (fun g => Gen (make_pulses1 p (g_cfg g) (g_fast g)) (g_cfg g) (g_slow g)) (gens s)) p (oldperiodns s).

Definition update (s : pwmgens) : option pwmgens :=
  l ← mapM (update1 (periodns s) (oldperiodns s)) (gens s);
  Some (Pwmgens l (periodns s) (periodns s)).

(** ** Initialisation *)
Definition export_pwmgen (output_type : Z) : pwmgen_t :=
  Gen (Fast 0 0 0 (false, false)) (Config 50000 0 output_type PWM_DISABLED 0)
    (Slow false d0 d1 d0 (dadd d1 d1) d0 d0 (dbl_of_Z (-1)) 0 d0 false d0 d1 d0).

(** The output types before the first -1 ([None]: -1). *)
Fixpoint channels (n : nat) (output_type : list Z) : option (list Z) :=
  match n, output_type with
  | S n, t :: output_type =>
      if t =? -1 then Some []
      else if (MAX_OUTPUT_TYPE <? t) || (t <? 0) then None
      else cons t <$> channels n output_type
  | _, _ => Some []
  end.

Definition rtapi_app_main (output_type : list Z) : option pwmgens :=
  chans ← channels MAX_CHAN output_type;
  if bool_decide (chans = []) then None
  else Some (Pwmgens (map export_pwmgen chans) (-1) (-1)).
End Pwmgen.
