(* ===== verification/PwmgenTheorems.v ===== *)
(** * Theorems about the PWM generator

    Pure PWM repeats the exact pattern of high and low periods from any state
    on; with dithering and in PDM mode the time the output has been high
    follows the duty cycle with an error that never grows. *)
From S2P Require Import Prelude Double Pwmgen.
Import Pwmgen.

(** The pin that follows the output, and the other one of an up/down pair. *)
Definition drive (c : config) (f : fast) : bool :=
  if (output_type c <? 2) || (direction c =? 0) then fst (out f) else snd (out f).
Definition idle (c : config) (f : fast) : bool :=
  if direction c =? 0 then snd (out f) else fst (out f).

Definition is_bit (z : Z) : Prop := z = 0 \/ z = 1.

Lemma drive_write c f : is_bit (direction c) -> is_bit (curr_output f) ->
  drive c (write_out c f) = (curr_output f =? 1) /\ (2 <= output_type c -> idle c (write_out c f) = false).
Proof.
  intros [Hd | Hd] [Ho | Ho]; unfold drive, idle, write_out; rewrite Hd, Ho; cbn [out];
    destruct (Z.ltb_spec (output_type c) 2); cbn; (split; [done | first [done | lia]]).
Qed.

Definition calls (n : nat) (p : Z) (c : config) (f : fast) : fast := Nat.iter n (make_pulses1 p c) f.

Lemma calls_S n p c f : calls (S n) p c f = make_pulses1 p c (calls n p c f).
Proof. apply Nat.iter_succ. Qed.

Lemma calls_add n m p c f : calls (n + m) p c f = calls n p c (calls m p c f).
Proof. apply Nat.iter_add. Qed.

Lemma s64_small z : - 2 ^ 63 <= z < 2 ^ 63 -> s64 z = z.
Proof. intros Hz. apply wraps_small; [lia | exact Hz]. Qed.

(** ** Pure PWM *)
Section Pure.
Variables (p k j : Z) (c : config).
Hypothesis Hp : 0 < p.
Hypothesis Hk : 0 < k.
Hypothesis Hj : 0 <= j <= k.
Hypothesis Hsize : k * p <= 2 ^ 61.
Hypothesis Hmode : pwm_mode c = PWM_PURE.
Hypothesis Hperiod : period c = k * p.
Hypothesis Hhigh : high_time c = j * p.
Hypothesis Hdir : is_bit (direction c).

(** [r] calls after the start of a cycle. *)
Definition in_cycle (r : Z) (f : fast) : Prop :=
  period_timer f = r * p /\ curr_output f = (if r <? j then 1 else 0) /\ high_timer f = Z.min r j * p.

Lemma pure_calls f : make_pulses1 p c f = write_out c (pure_step p c f).
Proof. unfold make_pulses1. by rewrite Hmode, Z.eqb_refl. Qed.

Lemma in_cycle_step r f : 0 <= r < k -> in_cycle r f -> in_cycle ((r + 1) mod k) (make_pulses1 p c f).
Proof.
  intros Hr (Ht & Ho & Hh). rewrite pure_calls. unfold in_cycle, write_out, pure_step. rewrite Ht, Ho, Hh, Hperiod, Hhigh.
  assert (p <= k * p /\ 0 <= r * p <= k * p /\ 0 <= Z.min r j * p <= k * p) as (? & ? & ?) by nia.
  rewrite !s64_small by lia. destruct (Z.ltb_spec r j); cbn [Z.eqb negb andb].
  - replace (Z.min r j) with r by lia. destruct (Z.leb_spec (k * p) (r * p + p)).
    + assert (r + 1 = k) as -> by nia. rewrite Z.mod_same by lia. cbn [period_timer curr_output high_timer].
      rewrite (proj2 (Z.ltb_lt 0 (j * p))), (proj2 (Z.ltb_lt 0 j)), Z.min_l by nia. lia.
    + assert (r + 1 < k) by nia. rewrite Z.mod_small by lia. cbn [period_timer curr_output high_timer].
      replace (Z.min (r + 1) j) with (r + 1) by lia. split; [lia |]. split; [| lia].
      destruct (Z.leb_spec (j * p) (r * p + p)), (Z.ltb_spec (r + 1) j); nia || done.
  - destruct (Z.leb_spec (k * p) (r * p + p)).
    + assert (r + 1 = k) as -> by nia. rewrite Z.mod_same by lia. cbn [period_timer curr_output high_timer].
      rewrite Z.min_l by lia. split; [lia |]. split; [| lia].
      destruct (Z.ltb_spec 0 (j * p)), (Z.ltb_spec 0 j); nia || done.
    + assert (r + 1 < k) by nia. rewrite Z.mod_small by lia. cbn [period_timer curr_output high_timer].
      rewrite (proj2 (Z.ltb_ge (r + 1) j)) by lia. split; [lia |]. split; [done |]. f_equal; lia.
Qed.

Lemma in_cycle_calls n f : in_cycle 0 f -> in_cycle (Z.of_nat n mod k) (calls n p c f).
Proof.
  intros Hf. induction n as [| n IH]; [by rewrite Z.mod_0_l by lia |].
  rewrite calls_S. pose proof (Z.mod_pos_bound (Z.of_nat n) k Hk).
  replace (Z.of_nat (S n) mod k) with ((Z.of_nat n mod k + 1) mod k); [by apply in_cycle_step |].
  rewrite Zplus_mod_idemp_l. f_equal. lia.
Qed.

(** A cycle starts, whatever the timers are. *)
Lemma cycle_starts m f : 0 <= period_timer f -> period_timer f + k * p <= 2 ^ 62 ->
  - p <= high_timer f -> high_timer f + Z.of_nat m * p <= 2 ^ 62 -> is_bit (curr_output f) ->
  (1 <= m)%nat -> k * p <= period_timer f + Z.of_nat m * p ->
  exists n, (1 <= n <= m)%nat /\ in_cycle 0 (calls n p c f).
Proof.
  revert f. induction m as [| m IH]; intros f Ht Htb Hh Hhb Ho Hm1 Hm; [lia |].
  set (f' := make_pulses1 p c f). assert (p <= k * p) by nia. assert (0 <= Z.of_nat m * p) by nia.
  assert (f' = write_out c (pure_step p c f)) as Ef by apply pure_calls. unfold pure_step in Ef.
  rewrite Hperiod, Hhigh in Ef. rewrite !s64_small in Ef by lia.
  destruct (Z.leb_spec (k * p) (period_timer f + p)).
  - exists 1%nat. split; [lia |]. change (calls 1 p c f) with f'. rewrite Ef. unfold in_cycle, write_out. cbn [period_timer curr_output high_timer].
    rewrite Z.min_l by lia. split; [lia |]. split; [| lia]. destruct (Z.ltb_spec 0 (j * p)), (Z.ltb_spec 0 j); try nia; try done.
    destruct Ho as [-> | ->]; [done |]. cbn [Z.eqb negb andb]. by rewrite (proj2 (Z.leb_le _ _)) by nia.
  - destruct (IH f') as (n & Hn & Hc).
    1-7: rewrite ?Ef; unfold write_out; cbn [period_timer curr_output high_timer]; try nia.
    + destruct (curr_output f =? 0); lia.
    + destruct (curr_output f =? 0); lia.
    + clear Ef. destruct Ho as [-> | ->]; cbn [Z.eqb negb andb]; [by left |]. case_match; [by left | by right].
    + exists (S n). split; [lia |]. replace (S n) with (n + 1)%nat by lia. by rewrite calls_add.
Qed.
End Pure.

(** C15: Pure PWM: within one cycle of [k] calls, whatever the timers were
    before, a cycle starts; from then on the output is high in the first [j]
    of every [k] periods and low in the others, without jitter. *)
Theorem pwm_pure_exact p k j c f :
  0 < p -> 0 < k -> 0 <= j <= k -> k * p <= 2 ^ 61 ->
  pwm_mode c = PWM_PURE -> period c = k * p -> high_time c = j * p -> is_bit (direction c) ->
  0 <= period_timer f <= 2 ^ 61 -> - p <= high_timer f <= 2 ^ 61 -> is_bit (curr_output f) ->
  exists n0, (1 <= n0 <= Z.to_nat k)%nat /\
    forall n, drive c (calls (n0 + n) p c f) = (Z.of_nat n mod k <? j) /\
      (2 <= output_type c -> idle c (calls (n0 + n) p c f) = false).
Proof.
  intros Hp Hk Hj Hsize Hmode Hperiod Hhigh Hdir Ht Hh Ho.
  destruct (cycle_starts p k j c Hp Hk Hj Hsize Hmode Hperiod Hhigh (Z.to_nat k) f) as (n0 & Hn0 & Hc);
    rewrite ?Z2Nat.id by lia; try lia; try done.
  exists n0. split; [done |]. intros n. rewrite Nat.add_comm, calls_add.
  pose proof (in_cycle_calls p k j c Hp Hk Hj Hsize Hmode Hperiod Hhigh n _ Hc) as (_ & Hcur & _).
  assert (exists g, calls n p c (calls n0 p c f) = write_out c g) as [g Eg].
  { destruct n as [| n]; [destruct n0 as [| n0]; [lia |]; cbn [calls Nat.iter] |]; rewrite ?calls_S; eexists; reflexivity. }
  rewrite Eg in *. change (curr_output (write_out c g)) with (curr_output g) in Hcur.
  destruct (drive_write c g Hdir) as [Hd Hi]; [rewrite Hcur; destruct (_ <? _); [by right | by left] |].
  split; [| exact Hi]. rewrite Hd, Hcur. by destruct (_ <? _).
Qed.

(** ** Dithered PWM and PDM *)

(** How long the pin has been high in the first [n] periods. *)
Fixpoint on_time (n : nat) (p : Z) (c : config) (f : fast) : Z :=
  match n with
  | O => 0
  | S n => on_time n p c f + (if drive c (calls n p c f) then p else 0)
  end.

Definition at_rest (f : fast) : Prop := f = Fast 0 0 0 (false, false).

Section Average.
Variables (p P H : Z) (c : config).
Hypothesis Hp : 0 < p.
Hypothesis HH : 0 <= H <= P.
Hypothesis HP : p <= P <= 2 ^ 60.
Hypothesis Hperiod : period c = P.
Hypothesis Hhigh : high_time c = H.
Hypothesis Hdir : is_bit (direction c).

(** High while there is high time left, and then at most what a cycle adds. *)
Definition balanced (f : fast) : Prop :=
  0 <= period_timer f < P /\ - p < high_timer f /\ drive c f = (curr_output f =? 1) /\
  ((curr_output f = 1 /\ 0 < high_timer f /\ high_timer f + period_timer f <= H + p) \/
   (curr_output f = 0 /\ high_timer f <= 0)).

(** [W] cycles have been completed after [n] calls. *)
Definition accounts (n W on : Z) (f : fast) : Prop :=
  period_timer f = n * p - P * W /\ high_timer f = H * W - on.

Lemma balanced_write f : is_bit (curr_output f) ->
  0 <= period_timer f < P -> - p < high_timer f ->
  ((curr_output f = 1 /\ 0 < high_timer f /\ high_timer f + period_timer f <= H + p) \/
   (curr_output f = 0 /\ high_timer f <= 0)) -> balanced (write_out c f).
Proof.
  intros Ho Ht Hh Hc. unfold balanced. destruct (drive_write c f Hdir Ho) as [-> _]. by unfold write_out.
Qed.

Lemma dither_step_ok f n W on : balanced f -> accounts n W on f -> 0 <= W ->
  exists W', 0 <= W' /\ balanced (write_out c (dither_step p c f)) /\
    accounts (n + 1) W' (on + if drive c f then p else 0) (write_out c (dither_step p c f)).
Proof.
  intros (Ht & Hh & Hd & Hc) [Ea Eh] HW. rewrite Hd. unfold dither_step. rewrite Hperiod, Hhigh.
  destruct Hc as [(Ho & Hpos & Hb) | (Ho & Hneg)]; rewrite Ho; cbn [Z.eqb negb andb Pos.eqb];
    try rewrite (s64_small (high_timer f - p)) by lia; rewrite !s64_small by lia; destruct (Z.leb_spec P (period_timer f + p)).
  - exists (W + 1). split; [lia |]. split; [| unfold accounts, write_out; cbn [period_timer high_timer]; lia].
    apply balanced_write; cbn [period_timer high_timer curr_output]; try lia.
    + destruct (0 <? _); [by right |]. destruct (_ <=? 0); [by left | by right].
    + destruct (Z.ltb_spec 0 (high_timer f - p + H)); [left; lia |]. destruct (Z.leb_spec (high_timer f - p) 0); [right; lia | lia].
  - exists W. split; [done |]. split; [| unfold accounts, write_out; cbn [period_timer high_timer]; lia].
    apply balanced_write; cbn [period_timer high_timer curr_output]; try lia.
    + destruct (_ <=? 0); [by left | by right].
    + destruct (Z.leb_spec (high_timer f - p) 0); lia.
  - exists (W + 1). split; [lia |]. split; [| unfold accounts, write_out; cbn [period_timer high_timer]; lia].
    apply balanced_write; cbn [period_timer high_timer curr_output]; try lia.
    + destruct (0 <? _); [by right | by left].
    + destruct (Z.ltb_spec 0 (high_timer f + H)); lia.
  - exists W. split; [done |]. split; [| unfold accounts, write_out; cbn [period_timer high_timer]; lia].
    apply balanced_write; cbn [period_timer high_timer curr_output]; try lia. by left.
Qed.

Lemma pdm_step_ok f on n : H <= p -> period_timer f = 0 -> balanced f -> high_timer f <= H -> high_timer f = H * n - on ->
  let f' := write_out c (pdm_step p c f) in
  period_timer f' = 0 /\ balanced f' /\ high_timer f' <= H /\ high_timer f' = H * (n + 1) - (on + if drive c f then p else 0).
Proof.
  intros Hle Ht0 (Ht & Hh & Hd & Hc) Hb Eh. cbv zeta. rewrite Hd. unfold pdm_step. rewrite Hhigh, !s64_small by lia.
  destruct Hc as [(Ho & Hpos & _) | (Ho & Hneg)]; rewrite Ho; cbn [Z.eqb Pos.eqb]; rewrite ?s64_small by lia;
    (split; [done |]; split; [| unfold write_out; cbn [high_timer]; lia]);
    apply balanced_write; cbn [period_timer high_timer curr_output]; try lia.
  - destruct (0 <? _); [by right | by left].
  - destruct (Z.ltb_spec 0 (high_timer f + H - p)); lia.
  - destruct (0 <? _); [by right | by left].
  - destruct (Z.ltb_spec 0 (high_timer f + H)); lia.
Qed.

Lemma at_rest_balanced f : at_rest f -> balanced f.
Proof.
  intros ->. unfold balanced. cbn. split; [lia |]. split; [lia |]. split; [| lia].
  unfold drive. by destruct (_ || _).
Qed.
End Average.

(** C16: The time the output is high.  With dithering, over [n] calls of
    period [p], it differs from [H / P] of the time by at most [H + p],
    however large [n] is; in PDM mode, where the cycle is one call, by at
    most [p].  (Both sides are multiplied by [P].) *)
Theorem pwm_average p P H c f n :
  0 < p -> 0 <= H <= P -> p <= P <= 2 ^ 60 -> period c = P -> high_time c = H -> is_bit (direction c) -> at_rest f ->
  (pwm_mode c = PWM_DITHER ->
     - (P * p) < H * (Z.of_nat n * p) - P * on_time n p c f <= P * (H + p)) /\
  (pwm_mode c = PWM_PDM -> H <= p -> - p < H * Z.of_nat n - on_time n p c f <= H).
Proof.
  intros Hp HH HP Hperiod Hhigh Hdir Hf.
  assert (balanced p P H c f) as H0 by (eapply at_rest_balanced; first [eassumption | lia]).
  assert (period_timer f = 0 /\ high_timer f = 0) as [Ht0 Hh0] by (by rewrite Hf).
  split; intros Hm.
  - assert (exists W, 0 <= W /\ balanced p P H c (calls n p c f) /\ accounts p P H (Z.of_nat n) W (on_time n p c f) (calls n p c f)) as (W & HW & Hb & Ea & Eh).
    { induction n as [| n (W & HW & Hb & Ha)]; [exists 0; split; [lia |]; split; [done |]; unfold accounts; cbn [on_time calls Nat.iter nat_rect]; lia |].
      destruct (dither_step_ok p P H c Hp HH HP Hperiod Hhigh Hdir _ _ _ _ Hb Ha HW) as (W' & HW' & Hb' & Ha').
      exists W'. rewrite calls_S. unfold make_pulses1. rewrite Hm. cbn [Z.eqb Pos.eqb PWM_PURE PWM_DITHER PWM_PDM].
      replace (Z.of_nat (S n)) with (Z.of_nat n + 1) by lia. done. }
    destruct Hb as (Ht & Hh & _ & Hc). set (g := calls n p c f) in *.
    assert (H * (Z.of_nat n * p) - P * on_time n p c f = H * period_timer g + P * high_timer g) as -> by (rewrite Ea, Eh; ring).
    assert (0 <= H * period_timer g <= P * period_timer g /\ H * period_timer g <= H * P) as [? ?] by nia.
    assert (- (P * p) < P * high_timer g) by nia. split; [lia |].
    destruct Hc as [(_ & _ & Hb) | (_ & Hn)]; nia.
  - intros Hle. assert (period_timer (calls n p c f) = 0 /\ balanced p P H c (calls n p c f) /\ high_timer (calls n p c f) <= H /\
      high_timer (calls n p c f) = H * Z.of_nat n - on_time n p c f) as (_ & Hb & Hu & Eh).
    { induction n as [| n (Ht & Hb & Hu & Eh)]; [split_and!; [done | done | cbn; lia | cbn [on_time calls Nat.iter nat_rect]; lia] |].
      pose proof (pdm_step_ok p P H c Hp HH HP Hhigh Hdir _ _ _ Hle Ht Hb Hu Eh) as Hs. cbv zeta in Hs.
      rewrite calls_S. unfold make_pulses1. rewrite Hm. cbn [Z.eqb Pos.eqb PWM_PURE PWM_DITHER PWM_PDM].
      replace (Z.of_nat (S n)) with (Z.of_nat n + 1) by lia. done. }
    destruct Hb as (_ & Hh & _). lia.
Qed.

(** ** Concrete runs *)
Lemma pwm_pure_exact_witness : exists n0, (1 <= n0 <= 4)%nat /\
  forall n, drive (Config 200000 50000 2 PWM_PURE 1) (calls (n0 + n) 50000 (Config 200000 50000 2 PWM_PURE 1) (Fast 120000 70000 1 (true, false)))
    = (Z.of_nat n mod 4 <? 1).
Proof.
  destruct (pwm_pure_exact 50000 4 1 (Config 200000 50000 2 PWM_PURE 1) (Fast 120000 70000 1 (true, false))) as (n0 & Hn & H);
    cbn [period high_time pwm_mode direction period_timer high_timer curr_output]; try lia; try done; try (by right).
  exists n0. split; [exact Hn |]. intros n. apply (H n).
Defined.

Lemma pwm_average_witness :
  - (25 * 10) < 7 * (1000 * 10) - 25 * on_time 1000 10 (Config 25 7 0 PWM_DITHER 0) (Fast 0 0 0 (false, false)) <= 25 * (7 + 10).
Proof.
  refine (proj1 (pwm_average 10 25 7 (Config 25 7 0 PWM_DITHER 0) (Fast 0 0 0 (false, false)) 1000 _ _ _ eq_refl eq_refl _ eq_refl) eq_refl);
    [lia | lia | lia | by left].
Defined.

(** The component: a channel of type 1 at 5 kHz, a quarter of full scale. *)
Definition set_inputs (en : bool) (v f : double) (g : pwmgen_t) : pwmgen_t :=
  let s := g_slow g in
  Gen (g_fast g) (g_cfg g)
    (Slow en v (scale s) (offset s) (old_scale s) (scale_recip s) f (old_pwm_freq s) (periods s) (periods_recip s)
       (dither_pwm s) (min_dc s) (max_dc s) (curr_dc s)).

Definition d_quarter : double := float_of_bits 0x3fd0000000000000.

Definition ready : pwmgens :=
  let s := default (Pwmgens [] 0 0) (rtapi_app_main [1; -1; 0; 0; 0; 0; 0; 0]) in
  Pwmgens (map (set_inputs true d_quarter (dbl_of_Z 5000)) (gens s)) (periodns s) (oldperiodns s).

Definition pulses (n : nat) (s : pwmgens) : list bool :=
  map (fun i => match gens (Nat.iter (S i) (make_pulses 50000) s) with g :: _ => fst (out (g_fast g)) | [] => false end) (seq 0 n).

Example quarter_duty :
  pulses 9 <$> update (make_pulses 50000 ready) = Some [false; false; false; true; false; false; false; true; false].
Proof. vm_compute. reflexivity. Qed.

(** When [update] runs before the first [make_pulses], the period is still
    -1: the frequency of the user is replaced by a negative one, and the
    channel ends up in PDM mode. *)
Example frequency_lost :
  (s ← update ready; s ← update (make_pulses 50000 s); s ← update (make_pulses 50000 s);
   match gens s with g :: _ => Some (pwm_freq (g_slow g), pwm_mode (g_cfg g), dlt (dbl_of_Z 0) (value (g_slow g))) | [] => None end)
  = Some (d0, PWM_PDM, true).
Proof. vm_compute. reflexivity. Qed.
