(* ===== verification/Hm2Encoder.v ===== *)
(** * hostmot2 quadrature counters
      (modules/managed/drivers/hostmot2/hostmot2_core/src/encoder.c)

    The card counts in 16 bits and stamps every edge with a 16-bit time; the
    driver extends both, and handles the index pulse and the probe through
    the latch/control register.  The registers that have been read from the
    card are fields, what is written to it is recorded.  A pin is a field.
    Messages are not modelled, nor the writes of the DPLL timer. *)
From S2P Require Import Prelude Double.

Module Hm2Encoder.

(** ** Bits of the latch/control register *)
Definition HM2_ENCODER_INDEX_MODE : Z := Z.shiftl 1 16.
Definition HM2_ENCODER_QUADRATURE_ERROR : Z := Z.shiftl 1 15.
Definition HM2_ENCODER_LATCH_ON_PROBE : Z := Z.shiftl 1 13.
Definition HM2_ENCODER_PROBE_POLARITY : Z := Z.shiftl 1 12.
Definition HM2_ENCODER_FILTER : Z := Z.shiftl 1 11.
Definition HM2_ENCODER_COUNTER_MODE : Z := Z.shiftl 1 10.
Definition HM2_ENCODER_INDEX_MASK : Z := Z.shiftl 1 9.
Definition HM2_ENCODER_INDEX_MASK_POLARITY : Z := Z.shiftl 1 8.
Definition HM2_ENCODER_INDEX_JUSTONCE : Z := Z.shiftl 1 6.
Definition HM2_ENCODER_LATCH_ON_INDEX : Z := Z.shiftl 1 4.
Definition HM2_ENCODER_INDEX_POLARITY : Z := Z.shiftl 1 3.
Definition HM2_ENCODER_INPUT_INDEX : Z := Z.shiftl 1 2.
Definition HM2_ENCODER_INPUT_B : Z := Z.shiftl 1 1.
Definition HM2_ENCODER_INPUT_A : Z := Z.shiftl 1 0.
Definition HM2_ENCODER_CONTROL_MASK : Z := 0x0001ffff.

Inductive run_state := HM2_ENCODER_STOPPED | HM2_ENCODER_MOVING.

(** ** One counter ([hm2_encoder_instance_t]) *)
Record hm2_encoder_instance_t := Instance {
  rawcounts : Z;
  rawlatch : Z;
  count : Z;
  count_latch : Z;
  position : double;
  position_latch : double;
  velocity : double;
  reset : bool;
  index_enable : bool;
  latch_enable : bool;
  latch_polarity : bool;
  quadrature_error : bool;
  quadrature_error_enable : bool;
  input_a : bool;
  input_b : bool;
  input_idx : bool;
  scale : double;
  index_invert : bool;
  index_mask : bool;
  index_mask_invert : bool;
  counter_mode : bool;
  index_mode : bool;
  filter : bool;
  vel_timeout : double;
  zero_offset : Z;                 (* s32 *)
  prev_reg_count : Z;              (* u16 *)
  prev_dS_counts : Z;
  prev_control : Z;                (* u32 *)
  prev_event_rawcounts : Z;
  prev_event_reg_timestamp : Z;    (* u16 *)
  tsc_num_rollovers : Z;
  prev_time_of_interest : Z;       (* u16 *)
  state : run_state;
}.

Inductive reg_write :=
| WLatchControl (regs : list Z)
| WTimestampDiv (v : Z)
| WFilterRate (v : Z).

(** ** The module ([hm2_encoder_t]); [last_error_enable] is a static variable *)
Record hm2_encoder_t := Encoder {
  instance : list hm2_encoder_instance_t;
  counter_reg : list Z;
  control_reg : list Z;
  read_control_reg : list Z;
  timestamp_count_reg : Z;
  prev_timestamp_count_reg : Z;
  timestamp_div_reg : Z;
  seconds_per_tsdiv_clock : double;
  clock_frequency : Z;
  sample_frequency : Z;
  written_sample_frequency : Z;
  has_skew : bool;
  skew : Z;
  written_skew : Z;
  last_error_enable : bool;
  writes : list reg_write;
}.

Abbreviation EM := (M hm2_encoder_t).

Definition hm2_encoder_get_reg_count (r : Z) : Z := Z.land r 0x0000ffff.
Definition hm2_encoder_get_reg_timestamp (r : Z) : Z := Z.land (Z.shiftr r 16) 0x0000ffff.
Definition hm2_encoder_get_reg_tsc (m : hm2_encoder_t) : Z := Z.land (timestamp_count_reg m) 0xFFFF.

(** The words of instance [i]; beyond the array is undefined. *)
Definition reg (l : list Z) (i : nat) : EM Z :=
  match l !! i with Some r => mret r | None => crash end.
Definition get_instance (i : nat) : EM hm2_encoder_instance_t :=
  m ← get; match instance m !! i with Some e => mret e | None => crash end.
Definition set_instance (i : nat) (e : hm2_encoder_instance_t) : EM unit :=
  modify (fun m => {| m with instance := <[i := e]> (instance m) |}).

(** ** The control register *)
Definition do_flag (condition : bool) (bits reg : Z) : Z :=
  if condition then Z.lor reg bits else Z.land reg (u32 (Z.lnot bits)).

Definition control_word (e : hm2_encoder_instance_t) : Z :=
  do_flag (filter e) HM2_ENCODER_FILTER
  (do_flag (index_mode e) HM2_ENCODER_INDEX_MODE
  (do_flag (counter_mode e) HM2_ENCODER_COUNTER_MODE
  (do_flag (index_mask_invert e) HM2_ENCODER_INDEX_MASK_POLARITY
  (do_flag (index_mask e) HM2_ENCODER_INDEX_MASK
  (do_flag (index_invert e) HM2_ENCODER_INDEX_POLARITY
  (do_flag (latch_polarity e) HM2_ENCODER_PROBE_POLARITY
  (do_flag (index_enable e || latch_enable e) HM2_ENCODER_INDEX_JUSTONCE
  (do_flag (negb (index_enable e) && latch_enable e) HM2_ENCODER_LATCH_ON_PROBE
  (do_flag (index_enable e) HM2_ENCODER_LATCH_ON_INDEX 0))))))))).

Definition hm2_encoder_update_control_register : EM unit :=
  modify (fun m => {| m with control_reg := map control_word (instance m) |}).

(** A double as an unsigned integer; [None]: undefined. *)
Definition dbl_to_uint (w : Z) (d : double) : option Z :=
  z ← dbl_to_sint (w + 1) d; if 0 <=? z then Some z else None.
Definition convert (w : Z) (d : double) : EM Z :=
  match dbl_to_uint w d with Some z => mret z | None => crash end.

Definition d1e9 : double := dbl_of_Z 1000000000.

(** Unsigned division; by zero it is undefined. *)
Definition udiv (a b : Z) : EM Z := if b =? 0 then crash else mret (a / b).

Definition hm2_encoder_set_filter_rate_and_skew : EM unit :=
  m ← get;
  filter_rate ← udiv (clock_frequency m) (sample_frequency m);
  let filter_rate := if filter_rate =? 1 then 0xFFF else u32 (filter_rate - 2) in
  sf ← udiv (clock_frequency m) (u32 (filter_rate + 2));
  modify (fun m => {| m with sample_frequency := sf |}) ≫= fun _ =>
  (if has_skew m then
     let per := ddiv d1e9 (dbl_of_Z (clock_frequency m)) in
     k ← convert 32 (ddiv (dbl_of_Z (skew m)) per);
     let k := if 15 <? k then 15 else k in
     s ← convert 32 (dmul (dbl_of_Z k) per);
     modify (fun m => {| m with skew := s; written_skew := s |}) ≫= fun _ =>
     mret (Z.lor filter_rate (u32 (Z.shiftl (Z.land k 0xF) 28)))
   else mret filter_rate) ≫= fun rate =>
  modify (fun m => {| m with writes := writes m ++ [WFilterRate rate]; written_sample_frequency := sf |}).

Definition hm2_encoder_force_write : EM unit :=
  m ← get;
  if bool_decide (instance m = []) then mret tt
  else
    hm2_encoder_update_control_register ≫= fun _ =>
    modify (fun m => {| m with
      writes := writes m ++ [WLatchControl (control_reg m); WTimestampDiv (timestamp_div_reg m)];
      instance := zip_with (fun e c => {| e with prev_control := c |}) (instance m) (control_reg m) |}) ≫= fun _ =>
    hm2_encoder_set_filter_rate_and_skew.

Definition control_changed (m : hm2_encoder_t) : bool :=
  existsb (fun ec => negb (Z.land (prev_control (fst ec)) HM2_ENCODER_CONTROL_MASK =? Z.land (snd ec) HM2_ENCODER_CONTROL_MASK))
    (zip (instance m) (control_reg m)).

Definition hm2_encoder_write : EM unit :=
  m ← get;
  if bool_decide (instance m = []) then mret tt
  else
    hm2_encoder_update_control_register ≫= fun _ =>
    m ← get;
    if control_changed m || negb (sample_frequency m =? written_sample_frequency m) ||
       (has_skew m && negb (skew m =? written_skew m))
    then hm2_encoder_force_write else mret tt.

(** ** Reading *)

(** The body of the loop of [hm2_encoder_read_control_register]. *)
Definition read_control (i : nat) : EM unit :=
  e ← get_instance i;
  m ← get;
  (if quadrature_error_enable e then
     if negb (last_error_enable m) then
       hm2_encoder_force_write ≫= fun _ => modify (fun m => {| m with last_error_enable := true |})
     else
       r ← reg (read_control_reg m) i;
       set_instance i {| e with quadrature_error :=
         negb (Z.land (Z.land r HM2_ENCODER_CONTROL_MASK) HM2_ENCODER_QUADRATURE_ERROR =? 0) |}
   else
     set_instance i {| e with quadrature_error := false |} ≫= fun _ =>
     modify (fun m => {| m with last_error_enable := false |})) ≫= fun _ =>
  m ← get;
  e ← get_instance i;
  r ← reg (read_control_reg m) i;
  set_instance i {| e with
    input_a := negb (Z.land r HM2_ENCODER_INPUT_A =? 0);
    input_b := negb (Z.land r HM2_ENCODER_INPUT_B =? 0);
    input_idx := negb (Z.land r HM2_ENCODER_INPUT_INDEX =? 0) |}.

Fixpoint for_instances (n i : nat) (body : nat -> EM unit) : EM unit :=
  match n with
  | O => mret tt
  | S n => body i ≫= fun _ => for_instances n (S i) body
  end.

Definition hm2_encoder_read_control_register : EM unit :=
  m ← get; for_instances (length (instance m)) 0 read_control.

(** The signed distance of two 16-bit counts. *)
Definition reg_count_diff (new prev : Z) : Z :=
  let d := new - prev in
  let d := if 32768 <? d then d - 65536 else d in
  if d <? -32768 then d + 65536 else d.

(** [counter] is the counter register, [latch_ctrl] the latch/control
    register, as they have been read. *)
Definition update_rawcounts_and_handle_index (counter latch_ctrl : Z) (e : hm2_encoder_instance_t) : hm2_encoder_instance_t :=
  let prev_rawcounts := rawcounts e in
  let reg_count := hm2_encoder_get_reg_count counter in
  let latched := s32 (prev_rawcounts + reg_count_diff (Z.land (Z.shiftr latch_ctrl 16) 0xffff) (prev_reg_count e)) in
  let e := {| e with rawcounts := s32 (rawcounts e + reg_count_diff reg_count (prev_reg_count e)) |} in
  let e :=
    if negb (Z.land (prev_control e) HM2_ENCODER_LATCH_ON_INDEX =? 0) then
      if Z.land latch_ctrl HM2_ENCODER_LATCH_ON_INDEX =? 0
      then {| e with zero_offset := latched; index_enable := false |} else e
    else if negb (Z.land (prev_control e) HM2_ENCODER_LATCH_ON_PROBE =? 0) then
      if Z.land latch_ctrl HM2_ENCODER_LATCH_ON_PROBE =? 0
      then {| e with rawlatch := latched |} else e
    else e in
  {| e with prev_reg_count := reg_count |}.

Definition update_position (e : hm2_encoder_instance_t) : hm2_encoder_instance_t :=
  let e := if reset e then {| e with zero_offset := rawcounts e |} else e in
  let c := s32 (rawcounts e - zero_offset e) in
  let cl := s32 (rawlatch e - zero_offset e) in
  {| e with count := c; count_latch := cl;
     position := ddiv (dbl_of_Z c) (scale e); position_latch := ddiv (dbl_of_Z cl) (scale e) |}.

(** Looking for the index or the probe. *)
Definition searching (e : hm2_encoder_instance_t) : bool :=
  negb (Z.land (prev_control e) (Z.lor HM2_ENCODER_LATCH_ON_INDEX HM2_ENCODER_LATCH_ON_PROBE) =? 0).

(** The time since the last event, with the rollovers of the time stamps. *)
Definition rollovers (time : Z) (e : hm2_encoder_instance_t) : Z :=
  if time <? prev_time_of_interest e then s32 (tsc_num_rollovers e + 1) else tsc_num_rollovers e.
Definition dT_clocks (time : Z) (e : hm2_encoder_instance_t) : Z :=
  s32 (time - prev_event_reg_timestamp e + s32 (Z.shiftl (rollovers time e) 16)).

Definition read_stopped (counter latch_ctrl : Z) (e : hm2_encoder_instance_t) : hm2_encoder_instance_t :=
  if (hm2_encoder_get_reg_count counter =? prev_reg_count e) && negb (searching e) then update_position e
  else
    let e := update_position (update_rawcounts_and_handle_index counter latch_ctrl e) in
    let t := hm2_encoder_get_reg_timestamp counter in
    {| e with prev_event_rawcounts := rawcounts e; prev_event_reg_timestamp := t; prev_dS_counts := 0;
       tsc_num_rollovers := 0; prev_time_of_interest := t; state := HM2_ENCODER_MOVING |}.

(** Moving, without an edge since the last time. *)
Definition read_no_event (tick : double) (tsc counter latch_ctrl : Z) (e : hm2_encoder_instance_t) : hm2_encoder_instance_t :=
  let e := update_position e in
  let n := rollovers tsc e in
  let clocks := dT_clocks tsc e in
  let e := {| e with tsc_num_rollovers := n |} in
  let dT_s := dmul (dbl_of_Z clocks) tick in
  if dle (vel_timeout e) dT_s then {| e with velocity := d0; state := HM2_ENCODER_STOPPED |}
  else
    let dS := if dlt d0 (dmul (velocity e) (scale e)) then 1 else -1 in
    let e :=
      if 0 <? clocks then
        let vel := ddiv (ddiv (dbl_of_Z dS) (scale e)) dT_s in
        if dlt (dabs vel) (dabs (velocity e)) then {| e with velocity := vel |} else e
      else e in
    let e := if searching e then update_rawcounts_and_handle_index counter latch_ctrl e else e in
    {| e with prev_time_of_interest := tsc |}.

(** Moving, with a new edge. *)
Definition read_event (tick : double) (counter latch_ctrl : Z) (e : hm2_encoder_instance_t) : hm2_encoder_instance_t :=
  let e := update_position (update_rawcounts_and_handle_index counter latch_ctrl e) in
  let t := hm2_encoder_get_reg_timestamp counter in
  let clocks := dT_clocks t e in
  let dS := s32 (rawcounts e - prev_event_rawcounts e) in
  let e :=
    if ((dS =? 1) && (prev_dS_counts e <? 0)) || ((dS =? -1) && (0 <? prev_dS_counts e))
    then {| e with velocity := d0 |}
    else if 0 <? clocks
    then {| e with velocity := ddiv (ddiv (dbl_of_Z dS) (scale e)) (dmul (dbl_of_Z clocks) tick) |}
    else e in
  {| e with tsc_num_rollovers := 0; prev_dS_counts := dS; prev_event_rawcounts := rawcounts e;
     prev_event_reg_timestamp := t; prev_time_of_interest := t |}.

Definition read_instance (tick : double) (tsc counter latch_ctrl : Z) (e : hm2_encoder_instance_t) : hm2_encoder_instance_t :=
  match state e with
  | HM2_ENCODER_STOPPED => read_stopped counter latch_ctrl e
  | HM2_ENCODER_MOVING =>
      if hm2_encoder_get_reg_count counter =? prev_reg_count e then read_no_event tick tsc counter latch_ctrl e
      else read_event tick counter latch_ctrl e
  end.

Definition check_scale (e : hm2_encoder_instance_t) : hm2_encoder_instance_t :=
  if deq (scale e) d0 then {| e with scale := d1 |} else e.

(** Every instance reads the control registers of all. *)
Definition hm2_encoder_instance_process_tram_read (i : nat) : EM unit :=
  e ← get_instance i;
  set_instance i (check_scale e) ≫= fun _ =>
  hm2_encoder_read_control_register ≫= fun _ =>
  m ← get;
  e ← get_instance i;
  c ← reg (counter_reg m) i;
  l ← reg (read_control_reg m) i;
  set_instance i (read_instance (seconds_per_tsdiv_clock m) (hm2_encoder_get_reg_tsc m) c l e).

Definition hm2_encoder_process_tram_read : EM unit :=
  m ← get; for_instances (length (instance m)) 0 hm2_encoder_instance_process_tram_read.

(** ** Initialisation *)
Definition init_instance (counter : Z) (e : hm2_encoder_instance_t) : hm2_encoder_instance_t :=
  let c := hm2_encoder_get_reg_count counter in
  {| e with rawcounts := c; rawlatch := c; count := 0; count_latch := 0; position := d0; position_latch := d0;
     velocity := d0; quadrature_error := false; zero_offset := c; prev_reg_count := c; state := HM2_ENCODER_STOPPED |}.

Definition hm2_encoder_tram_init : EM unit :=
  m ← get;
  modify (fun m => {| m with prev_timestamp_count_reg := timestamp_count_reg m |}) ≫= fun _ =>
  for_instances (length (instance m)) 0 (fun i =>
    m ← get; e ← get_instance i; c ← reg (counter_reg m) i; set_instance i (init_instance c e)).

(** The rate of the time stamps: a megahertz (hm2_encoder_parse_md). *)
Definition d1e6 : double := dbl_of_Z 1000000.
Definition timestamp_div (clock : Z) : option Z := dbl_to_uint 32 (dsub (ddiv (dbl_of_Z clock) d1e6) (dbl_of_Z 2)).
Definition seconds_per_clock (clock div : Z) : double := ddiv (dbl_of_Z (u32 (div + 2))) (dbl_of_Z clock).

End Hm2Encoder.
