(* ===== verification/Hm2EncoderTheorems.v ===== *)
(** * Theorems about the hostmot2 quadrature counters

    The 16-bit counts and time stamps of the card are extended without losing
    an edge or a clock, as long as the card is read often enough; an index
    pulse sets the zero to the position of the pulse. *)
From S2P Require Import Prelude Double Hm2Encoder.
Import Hm2Encoder.

(** ** Words of the card *)
Lemma land_16 z : Z.land z 0xFFFF = z mod 65536.
Proof. change 0xFFFF with (Z.ones 16). by rewrite Z.land_ones. Qed.

(** The counter register after an edge at time [stamp] to position [p]. *)
Definition counter_word (stamp p : Z) : Z := stamp mod 65536 * 65536 + p mod 65536.

Lemma counter_word_count stamp p : hm2_encoder_get_reg_count (counter_word stamp p) = p mod 65536.
Proof.
  unfold hm2_encoder_get_reg_count, counter_word. rewrite land_16, Z.add_comm, Z.mod_add by lia. by rewrite Zmod_mod.
Qed.

Lemma counter_word_timestamp stamp p : hm2_encoder_get_reg_timestamp (counter_word stamp p) = stamp mod 65536.
Proof.
  unfold hm2_encoder_get_reg_timestamp, counter_word. rewrite land_16, Z.shiftr_div_pow2 by lia. change (2 ^ 16) with 65536.
  pose proof (Z.mod_pos_bound p 65536 ltac:(lia)). rewrite Z.div_add_l, (Z.div_small (p mod 65536)), Z.add_0_r by lia. by rewrite Zmod_mod.
Qed.

Lemma reg_count_diff_exact p p' : Z.abs (p' - p) <= 32767 -> reg_count_diff (p' mod 65536) (p mod 65536) = p' - p.
Proof.
  intros H. unfold reg_count_diff. pose proof (Z.div_mod p 65536 ltac:(lia)). pose proof (Z.div_mod p' 65536 ltac:(lia)).
  pose proof (Z.mod_pos_bound p 65536 ltac:(lia)). pose proof (Z.mod_pos_bound p' 65536 ltac:(lia)).
  destruct (Z.ltb_spec 32768 (p' mod 65536 - p mod 65536));
    [destruct (Z.ltb_spec (p' mod 65536 - p mod 65536 - 65536) (-32768)) | destruct (Z.ltb_spec (p' mod 65536 - p mod 65536) (-32768))]; lia.
Qed.

(** ** Counts *)

(** The counter follows position [p], up to a constant. *)
Definition tracks (base p : Z) (e : hm2_encoder_instance_t) : Prop :=
  rawcounts e = s32 (p + base) /\ prev_reg_count e = p mod 65536.

(** What has been read from the card, and from whom the time is. *)
Record reading := Reading { r_pos : Z; r_stamp : Z; r_tsc : Z; r_latch : Z }.

Definition read_one (tick : double) (r : reading) (e : hm2_encoder_instance_t) : hm2_encoder_instance_t :=
  read_instance tick (r_tsc r mod 65536) (counter_word (r_stamp r) (r_pos r)) (r_latch r) e.

(** The fields that other functions do not write: between two readings
    everything else may change. *)
Definition keeps_count (env : hm2_encoder_instance_t -> hm2_encoder_instance_t) : Prop :=
  forall e, rawcounts (env e) = rawcounts e /\ prev_reg_count (env e) = prev_reg_count e.

Lemma update_position_counts e : rawcounts (update_position e) = rawcounts e /\ prev_reg_count (update_position e) = prev_reg_count e.
Proof. unfold update_position. by destruct (reset e). Qed.

Lemma update_rawcounts_counts c l e :
  rawcounts (update_rawcounts_and_handle_index c l e) = s32 (rawcounts e + reg_count_diff (hm2_encoder_get_reg_count c) (prev_reg_count e)) /\
  prev_reg_count (update_rawcounts_and_handle_index c l e) = hm2_encoder_get_reg_count c.
Proof. unfold update_rawcounts_and_handle_index. repeat case_match; done. Qed.

Lemma tracks_update base p p' stamp l e : tracks base p e -> Z.abs (p' - p) <= 32767 ->
  tracks base p' (update_rawcounts_and_handle_index (counter_word stamp p') l e).
Proof.
  intros [Hr Hc] Hd. unfold tracks. destruct (update_rawcounts_counts (counter_word stamp p') l e) as [-> ->].
  rewrite counter_word_count, Hr, Hc, reg_count_diff_exact by done. split; [| done]. rewrite wraps_add_l. f_equal. lia.
Qed.

Lemma tracks_same base p p' e : tracks base p e -> Z.abs (p' - p) <= 32767 -> p' mod 65536 = prev_reg_count e -> p' = p.
Proof.
  intros [_ Hc] Hd Heq. pose proof (reg_count_diff_exact p p' Hd) as Hx. rewrite Heq, Hc in Hx. unfold reg_count_diff in Hx.
  rewrite Z.sub_diag in Hx. cbn in Hx. lia.
Qed.

Lemma tracks_position base p e : tracks base p e -> tracks base p (update_position e).
Proof. unfold tracks. destruct (update_position_counts e) as [-> ->]. done. Qed.

(** The branches of a reading. *)
Lemma read_stopped_tracks base p p' stamp l e : tracks base p e -> Z.abs (p' - p) <= 32767 ->
  tracks base p' (read_stopped (counter_word stamp p') l e).
Proof.
  intros Ht Hd. unfold read_stopped. rewrite counter_word_count.
  pose proof (tracks_position _ _ _ (tracks_update base p p' stamp l e Ht Hd)) as Hp.
  generalize dependent (update_position (update_rawcounts_and_handle_index (counter_word stamp p') l e)). intros e0 Hp.
  assert (p' mod 65536 = prev_reg_count e -> tracks base p' (update_position e)) as Hs.
  { intros Heq. rewrite (tracks_same _ _ _ _ Ht Hd Heq). by apply tracks_position. }
  destruct (Z.eqb_spec (p' mod 65536) (prev_reg_count e)) as [Heq |]; cbn [andb]; [| exact Hp].
  destruct (negb (searching e)); [by apply Hs | exact Hp].
Qed.

Lemma tracks_ext base p e e' : rawcounts e' = rawcounts e -> prev_reg_count e' = prev_reg_count e -> tracks base p e -> tracks base p e'.
Proof. unfold tracks. by intros -> ->. Qed.

Lemma read_no_event_tracks tick tsc base p stamp l e : tracks base p e ->
  tracks base p (read_no_event tick tsc (counter_word stamp p) l e).
Proof.
  intros Ht. apply tracks_position in Ht. unfold read_no_event. generalize dependent (update_position e). intros e0 Hp. cbv zeta.
  assert (forall e2, rawcounts e2 = rawcounts e0 -> prev_reg_count e2 = prev_reg_count e0 ->
    tracks base p {| (if searching e2 then update_rawcounts_and_handle_index (counter_word stamp p) l e2 else e2) with prev_time_of_interest := tsc |}) as H2.
  { intros e2 Hr Hc. pose proof (tracks_ext _ _ _ _ Hr Hc Hp) as He2. pose proof (tracks_update base p p stamp l e2 He2 ltac:(lia)) as Hu.
    destruct (searching e2); [generalize dependent (update_rawcounts_and_handle_index (counter_word stamp p) l e2); intros e3 Hu; exact Hu | exact He2]. }
  destruct (dle _ _); [exact Hp |]. apply H2; destruct (0 <? _); try destruct (dlt (dabs _) _); reflexivity.
Qed.

Lemma read_event_tracks tick base p p' stamp l e : tracks base p e -> Z.abs (p' - p) <= 32767 ->
  tracks base p' (read_event tick (counter_word stamp p') l e).
Proof.
  intros Ht Hd. pose proof (tracks_position _ _ _ (tracks_update base p p' stamp l e Ht Hd)) as Hp. unfold read_event.
  generalize dependent (update_position (update_rawcounts_and_handle_index (counter_word stamp p') l e)). intros e0 Hp. cbv zeta.
  apply (tracks_ext base p' e0); [| | exact Hp]; destruct (_ || _); try destruct (0 <? _); reflexivity.
Qed.

Lemma read_one_tracks tick base p r e : tracks base p e -> Z.abs (r_pos r - p) <= 32767 -> tracks base (r_pos r) (read_one tick r e).
Proof.
  intros Ht Hd. unfold read_one, read_instance. rewrite counter_word_count.
  destruct (state e); [by apply (read_stopped_tracks base p) |].
  destruct (Z.eqb_spec (r_pos r mod 65536) (prev_reg_count e)) as [Heq |]; [| by apply (read_event_tracks tick base p)].
  rewrite (tracks_same _ _ _ _ Ht Hd Heq). by apply read_no_event_tracks.
Qed.

(** A run: what the rest of the system does to the instance, then a reading. *)
Fixpoint run (tick : double) (l : list ((hm2_encoder_instance_t -> hm2_encoder_instance_t) * reading)) (e : hm2_encoder_instance_t)
  : hm2_encoder_instance_t :=
  match l with
  | [] => e
  | (env, r) :: l => run tick l (read_one tick r (env e))
  end.

(** The card is read often enough: less than half a turn of the counter. *)
Fixpoint often (p : Z) (l : list ((hm2_encoder_instance_t -> hm2_encoder_instance_t) * reading)) : Prop :=
  match l with
  | [] => True
  | (env, r) :: l => keeps_count env /\ Z.abs (r_pos r - p) <= 32767 /\ often (r_pos r) l
  end.

Definition last_pos (p : Z) (l : list ((hm2_encoder_instance_t -> hm2_encoder_instance_t) * reading)) : Z :=
  default p (last (map (fun x => r_pos (snd x)) l)).

(** C30: The count of the driver is the position of the encoder, up to the
    constant of its start and modulo 2^32, however far the 16-bit counter
    has turned, through stops, index and probe events, resets and changes of
    every pin, when the encoder never moves more than 32767 edges between
    two readings. *)
Theorem hm2_rawcounts_track tick base p l e : tracks base p e -> often p l -> tracks base (last_pos p l) (run tick l e).
Proof.
  revert p e. induction l as [| [env r] l IH]; intros p e Ht; [done |]. cbn [often run]. intros (Hk & Hd & Ho).
  assert (last_pos p ((env, r) :: l) = last_pos (r_pos r) l) as ->.
  { unfold last_pos. cbn [map snd]. destruct l as [| x l]; [done |]. cbn [map]. rewrite last_cons.
    by destruct (last (r_pos (snd x) :: map _ l)) eqn:E; [| apply last_None in E]. }
  apply IH; [| done]. apply (read_one_tracks tick base p); [| done]. destruct Ht as [Hr Hc]. destruct (Hk e) as [H1 H2].
  split; congruence.
Qed.

(** ** The index pulse *)
Definition looks_for_index (e : hm2_encoder_instance_t) : Prop := Z.land (prev_control e) HM2_ENCODER_LATCH_ON_INDEX <> 0.

(** The card has seen the index, at position [q]. *)
Definition index_at (q latch_ctrl : Z) : Prop :=
  Z.land latch_ctrl HM2_ENCODER_LATCH_ON_INDEX = 0 /\ Z.land (Z.shiftr latch_ctrl 16) 0xffff = q mod 65536.

Lemma update_index base p q c l e : tracks base p e -> Z.abs (q - p) <= 32767 -> looks_for_index e -> index_at q l ->
  let e' := update_rawcounts_and_handle_index c l e in
  zero_offset e' = s32 (q + base) /\ index_enable e' = false /\ reset e' = reset e /\ scale e' = scale e.
Proof.
  intros [Hr Hc] Hd Hs [Hl Hq]. unfold update_rawcounts_and_handle_index. cbn [prev_control]. unfold looks_for_index in Hs.
  rewrite (proj2 (Z.eqb_neq _ 0) Hs), Hl, Hq, Hc, reg_count_diff_exact by done. cbn [negb Z.eqb]. cbv zeta. cbn.
  split; [| done]. rewrite Hr, wraps_add_l. f_equal. lia.
Qed.

Lemma update_no_index c l e : (Z.land (prev_control e) HM2_ENCODER_LATCH_ON_INDEX = 0 \/ Z.land l HM2_ENCODER_LATCH_ON_INDEX <> 0) ->
  let e' := update_rawcounts_and_handle_index c l e in zero_offset e' = zero_offset e /\ index_enable e' = index_enable e.
Proof.
  intros Hn. unfold update_rawcounts_and_handle_index. cbn [prev_control].
  destruct (Z.eqb_spec (Z.land (prev_control e) HM2_ENCODER_LATCH_ON_INDEX) 0) as [Hz | Hz]; cbn [negb]; cbv zeta.
  - repeat case_match; done.
  - destruct Hn as [Hn | Hn]; [done |]. by rewrite (proj2 (Z.eqb_neq _ 0) Hn).
Qed.

Lemma update_position_spec e : reset e = false ->
  zero_offset (update_position e) = zero_offset e /\ index_enable (update_position e) = index_enable e /\
  count (update_position e) = s32 (rawcounts e - zero_offset e) /\
  position (update_position e) = ddiv (dbl_of_Z (s32 (rawcounts e - zero_offset e))) (scale e).
Proof. unfold update_position. by intros ->. Qed.

Lemma looks_for_index_searching e : looks_for_index e -> searching e = true.
Proof.
  unfold looks_for_index, searching. intros H. apply negb_true_iff, Z.eqb_neq. intros H0. apply H.
  rewrite Z.land_lor_distr_r in H0. by apply Z.lor_eq_0_iff in H0 as [? _].
Qed.

Lemma index_event_fields base p p' q stamp l e : tracks base p e -> Z.abs (p' - p) <= 32767 -> Z.abs (q - p) <= 32767 ->
  reset e = false -> looks_for_index e -> index_at q l ->
  let e' := update_position (update_rawcounts_and_handle_index (counter_word stamp p') l e) in
  index_enable e' = false /\ zero_offset e' = s32 (q + base) /\ count e' = s32 (p' - q) /\ position e' = ddiv (dbl_of_Z (s32 (p' - q))) (scale e).
Proof.
  intros Ht Hd Hq Hr Hs Hi. pose proof (update_index base p q (counter_word stamp p') l e Ht Hq Hs Hi) as (Hz & Hie & Hre & Hsc).
  pose proof (tracks_update base p p' stamp l e Ht Hd) as [Hraw _]. cbv zeta in *.
  generalize dependent (update_rawcounts_and_handle_index (counter_word stamp p') l e). intros e0 Hz Hie Hre Hsc Hraw.
  destruct (update_position_spec e0) as (H1 & H2 & H3 & H4); [congruence |]. rewrite H1, H2, H3, H4, Hraw, Hz, Hsc, wraps_sub by lia.
  replace (p' + base - (q + base)) with (p' - q) by lia. done.
Qed.

Definition zeroing (e : hm2_encoder_instance_t) := (index_enable e, zero_offset e, count e, position e).

Lemma zeroing_inv e e' : zeroing e = zeroing e' ->
  index_enable e = index_enable e' /\ zero_offset e = zero_offset e' /\ count e = count e' /\ position e = position e'.
Proof. unfold zeroing. intros H. injection H. auto. Qed.

Lemma read_event_zeroing tick c l e :
  zeroing (read_event tick c l e) = zeroing (update_position (update_rawcounts_and_handle_index c l e)).
Proof.
  unfold read_event. generalize (update_position (update_rawcounts_and_handle_index c l e)). intros e0. cbv zeta.
  destruct (_ || _); try destruct (0 <? _); reflexivity.
Qed.

Lemma read_stopped_zeroing c l e :
  zeroing (read_stopped c l e) =
    zeroing (if (hm2_encoder_get_reg_count c =? prev_reg_count e) && negb (searching e) then update_position e
             else update_position (update_rawcounts_and_handle_index c l e)).
Proof.
  unfold read_stopped. generalize (update_position (update_rawcounts_and_handle_index c l e)). intros e0. cbv zeta.
  by destruct (_ && _).
Qed.

(** Between two edges: the position first, then the index. *)
Lemma read_no_event_split tick tsc c l e :
  (state (read_no_event tick tsc c l e) = HM2_ENCODER_STOPPED /\ zeroing (read_no_event tick tsc c l e) = zeroing (update_position e)) \/
  (exists e2, prev_control e2 = prev_control e /\ rawcounts e2 = rawcounts e /\ prev_reg_count e2 = prev_reg_count e /\
     reset e2 = reset e /\ scale e2 = scale e /\ state e2 = state e /\ zeroing e2 = zeroing (update_position e) /\
     state (read_no_event tick tsc c l e) = state (if searching e2 then update_rawcounts_and_handle_index c l e2 else e2) /\
     zeroing (read_no_event tick tsc c l e) = zeroing (if searching e2 then update_rawcounts_and_handle_index c l e2 else e2)).
Proof.
  assert (prev_control (update_position e) = prev_control e /\ rawcounts (update_position e) = rawcounts e /\
    prev_reg_count (update_position e) = prev_reg_count e /\ reset (update_position e) = reset e /\ scale (update_position e) = scale e /\
    state (update_position e) = state e) as He by (unfold update_position; destruct (reset e) eqn:E; split_and!; cbn; congruence).
  unfold read_no_event. generalize dependent (update_position e). intros e0 He. cbv zeta. destruct (dle _ _); [by left |]. right.
  set (e2 := if 0 <? _ then _ else _). exists e2.
  assert ((prev_control e2, rawcounts e2, prev_reg_count e2, reset e2, scale e2, state e2, zeroing e2) =
    (prev_control e0, rawcounts e0, prev_reg_count e0, reset e0, scale e0, state e0, zeroing e0)) as H2
    by (unfold e2; destruct (0 <? _); try destruct (dlt (dabs _) _); reflexivity).
  clearbody e2. injection H2 as -> -> -> -> -> -> ? ? ? ?. destruct He as (-> & -> & -> & -> & -> & ->).
  split_and!; try done. unfold zeroing. congruence.
Qed.

(** C32: The index pulse.  A reading that shows an edge, or comes from
    standstill, and finds that the card has seen the index at [q] makes [q]
    the zero: index-enable falls, and count and position are those from [q].
    When no edge came with it, index-enable falls and the zero is [q], but
    count still is the one from the old zero, until the next reading.
    Without an index event the zero and index-enable stay. *)
Theorem hm2_index_zero tick base p q r e :
  tracks base p e -> Z.abs (r_pos r - p) <= 32767 -> Z.abs (q - p) <= 32767 -> reset e = false ->
  let e' := read_one tick r e in
  (looks_for_index e -> index_at q (r_latch r) -> state e = HM2_ENCODER_STOPPED \/ r_pos r <> p ->
     index_enable e' = false /\ zero_offset e' = s32 (q + base) /\ count e' = s32 (r_pos r - q) /\
     position e' = ddiv (dbl_of_Z (s32 (r_pos r - q))) (scale e)) /\
  (looks_for_index e -> index_at q (r_latch r) -> state e = HM2_ENCODER_MOVING -> r_pos r = p ->
     state e' = HM2_ENCODER_MOVING ->
     index_enable e' = false /\ zero_offset e' = s32 (q + base) /\ count e' = s32 (rawcounts e - zero_offset e)) /\
  (Z.land (prev_control e) HM2_ENCODER_LATCH_ON_INDEX = 0 \/ Z.land (r_latch r) HM2_ENCODER_LATCH_ON_INDEX <> 0 ->
     zero_offset e' = zero_offset e /\ index_enable e' = index_enable e).
Proof.
  intros Ht Hd Hq Hr. cbv zeta. unfold read_one, read_instance. rewrite counter_word_count.
  set (c := counter_word (r_stamp r) (r_pos r)). assert (hm2_encoder_get_reg_count c = r_pos r mod 65536) as Hc by apply counter_word_count.
  pose proof (fun Hs Hi => index_event_fields base p (r_pos r) q (r_stamp r) (r_latch r) e Ht Hd Hq Hr Hs Hi) as Hidx. cbv zeta in Hidx. fold c in Hidx.
  pose proof (update_no_index c (r_latch r) e) as Hno. cbv zeta in Hno.
  assert (reset (update_rawcounts_and_handle_index c (r_latch r) e) = reset e) as Hre
    by (unfold update_rawcounts_and_handle_index; repeat case_match; reflexivity).
  destruct (update_position_spec e Hr) as (P1 & P2 & P3 & P4).
  destruct (update_position_spec (update_rawcounts_and_handle_index c (r_latch r) e)) as (Q1 & Q2 & _); [congruence |].
  destruct (state e) eqn:Est.
  - destruct (zeroing_inv _ _ (read_stopped_zeroing c (r_latch r) e)) as (E1 & E2 & E3 & E4). rewrite Hc in *. rewrite E1, E2, E3, E4. split; [| split].
    + intros Hs Hi _. rewrite (looks_for_index_searching e Hs), andb_false_r. by apply Hidx.
    + done.
    + intros Hn. destruct (_ && _); [done |]. rewrite Q1, Q2. by apply Hno.
  - destruct (Z.eqb_spec (r_pos r mod 65536) (prev_reg_count e)) as [Heq | Hne].
    + pose proof (tracks_same _ _ _ _ Ht Hd Heq) as Hp. split; [intros _ _ [? | ?]; done |].
      destruct (read_no_event_split tick (r_tsc r mod 65536) c (r_latch r) e) as [[Hst E] | (e2 & F1 & F2 & F3 & F4 & F5 & F6 & G & Hst & E)];
        apply zeroing_inv in E as (E1 & E2 & E3 & E4).
      * rewrite Hst, E1, E2. split; [done |]. intros _. done.
      * apply zeroing_inv in G as (G1 & G2 & G3 & G4). rewrite E1, E2, E3. split.
        -- intros Hs Hi _ _ _. assert (looks_for_index e2) as Hs2 by (unfold looks_for_index; by rewrite F1).
           assert (tracks base p e2) as Ht2 by (destruct Ht; split; congruence).
           rewrite (looks_for_index_searching e2 Hs2). destruct (update_index base p q c (r_latch r) e2 Ht2 Hq Hs2 Hi) as (-> & -> & _).
           split; [done |]. split; [done |]. rewrite <- P3, <- G3. unfold update_rawcounts_and_handle_index. repeat case_match; reflexivity.
        -- intros Hn. rewrite <- P1, <- P2, <- G1, <- G2. destruct (searching e2); [| done].
           rewrite <- F1 in Hn. by destruct (update_no_index c (r_latch r) e2 Hn) as [-> ->].
    + destruct (zeroing_inv _ _ (read_event_zeroing tick c (r_latch r) e)) as (E1 & E2 & E3 & E4). rewrite E1, E2, E3, E4. split; [| split].
      * intros Hs Hi _. by apply Hidx.
      * intros _ _ _ Hp. destruct Ht as [_ Ht]. by rewrite Hp, Ht in Hne.
      * intros Hn. rewrite Q1, Q2. by apply Hno.
Qed.

(** ** Concrete runs *)

(** What hm2_encoder_parse_md stores; HAL memory is zeroed. *)
Definition parsed : hm2_encoder_instance_t :=
  Instance 0 0 0 0 d0 d0 d0 false false false false false false false false false d1 false false false false false true
    (float_of_bits 0x3fe0000000000000) 0 0 0 0 0 0 0 0 HM2_ENCODER_STOPPED.

(** After hm2_encoder_tram_init at position 65530. *)
Definition started : hm2_encoder_instance_t := init_instance (counter_word 0 65530) parsed.

Definition env_id (e : hm2_encoder_instance_t) : hm2_encoder_instance_t := e.

(** The counter turns over. *)
Lemma hm2_rawcounts_track_witness :
  rawcounts (run d1e_9 [(env_id, Reading 65540 7 100 0); (env_id, Reading 80000 9000 9100 0)] started) = 80000.
Proof.
  assert (tracks 0 65530 started) as H0 by (split; reflexivity).
  destruct (hm2_rawcounts_track d1e_9 0 65530 [(env_id, Reading 65540 7 100 0); (env_id, Reading 80000 9000 9100 0)] started H0) as [H _].
  - cbn [often r_pos]. split_and!; try done; lia.
  - exact H.
Defined.

(** The index is found at 65536, between the two readings. *)
Definition armed : hm2_encoder_instance_t := {| started with index_enable := true; prev_control := HM2_ENCODER_LATCH_ON_INDEX |}.

Lemma hm2_index_zero_witness :
  index_enable (read_one d1e_9 (Reading 65540 7 100 0) armed) = false /\ count (read_one d1e_9 (Reading 65540 7 100 0) armed) = 4.
Proof.
  assert (tracks 0 65530 armed) as H0 by (split; reflexivity).
  destruct (hm2_index_zero d1e_9 0 65530 65536 (Reading 65540 7 100 0) armed H0) as [H _]; [cbn; lia | lia | reflexivity |].
  destruct H as (H1 & _ & H3 & _); [discriminate | split; reflexivity | by left |]. split; [exact H1 | exact H3].
Defined.

(** When index-enable is set again before the write of the same period, the
    control word is the one before: nothing is written, and the next reading
    takes the old latch for another index event. *)
Definition card (latch : Z) (e : hm2_encoder_instance_t) : hm2_encoder_t :=
  Encoder [e] [counter_word 7 65540] [] [latch] 100 0 0 d1e_9 100000000 25000000 25000000 false 0 0 false [].

Definition rearm (m : hm2_encoder_t) : hm2_encoder_t :=
  {| m with instance := map (fun e => {| e with index_enable := true |}) (instance m) |}.

Definition armed_properly : hm2_encoder_instance_t :=
  {| started with index_enable := true; prev_control := control_word {| started with index_enable := true |} |}.

Example rearmed_in_the_same_period :
  let m1 := snd (hm2_encoder_process_tram_read (card 0 armed_properly)) in
  let m2 := snd (hm2_encoder_write (rearm m1)) in
  let m3 := snd (hm2_encoder_process_tram_read m2) in
  (index_enable <$> instance m1, writes m2, index_enable <$> instance m3) = ([false], [], [false]).
Proof. vm_compute. reflexivity. Qed.

(** One encoder without quad-error-enable hides the errors of the next one,
    and makes every reading write the registers. *)
Definition erring : hm2_encoder_instance_t := {| started with quadrature_error_enable := true |}.

Example quadrature_error_hidden :
  let m0 := Encoder [started; erring] [counter_word 0 65530; counter_word 0 65530] []
    [0; HM2_ENCODER_QUADRATURE_ERROR] 100 0 0 d1e_9 100000000 25000000 25000000 false 0 0 false [] in
  let m1 := snd (hm2_encoder_read_control_register m0) in
  let m2 := snd (hm2_encoder_read_control_register m1) in
  (quadrature_error <$> instance m2, length (writes m1), length (writes m2)) = ([false; false], 3%nat, 6%nat).
Proof. vm_compute. reflexivity. Qed.

(** A sample frequency above the clock divides by zero. *)
Example sample_frequency_too_high :
  fst (hm2_encoder_set_filter_rate_and_skew
    (Encoder [started] [0] [] [0] 100 0 0 d1e_9 100000000 100000001 25000000 false 0 0 false [])) = Crash.
Proof. vm_compute. reflexivity. Qed.
