(* ===== verification/Hm2Velocity.v ===== *)
(** * Velocity of the hostmot2 counters

    The time stamps of the card have 16 bits; the driver counts their
    rollovers.  The velocity at an edge is the number of edges since the last
    one divided by the exact time between them, however many readings
    without an edge lie between. *)
From S2P Require Import Prelude Double Hm2Encoder Hm2EncoderTheorems.
Import Hm2Encoder.

(** The last edge was at time [ev], the last reading at time [last]. *)
Definition clock_ok (ev last : Z) (e : hm2_encoder_instance_t) : Prop :=
  prev_event_reg_timestamp e = ev mod 65536 /\ prev_time_of_interest e = last mod 65536 /\
  tsc_num_rollovers e = last / 65536 - ev / 65536 /\ ev <= last.

(** What the position and index code does not touch. *)
Definition motion (e : hm2_encoder_instance_t) :=
  (prev_event_reg_timestamp e, prev_time_of_interest e, tsc_num_rollovers e, prev_event_rawcounts e, prev_dS_counts e, state e, scale e).

Lemma motion_inv e e' : motion e = motion e' ->
  prev_event_reg_timestamp e = prev_event_reg_timestamp e' /\ prev_time_of_interest e = prev_time_of_interest e' /\
  tsc_num_rollovers e = tsc_num_rollovers e' /\ prev_event_rawcounts e = prev_event_rawcounts e' /\
  prev_dS_counts e = prev_dS_counts e' /\ state e = state e' /\ scale e = scale e'.
Proof. unfold motion. intros H. injection H as -> -> -> -> -> -> ->. split_and!; reflexivity. Qed.

Lemma update_position_motion e : motion (update_position e) = motion e.
Proof. unfold update_position. destruct (reset e); reflexivity. Qed.

Lemma update_rawcounts_motion c l e : motion (update_rawcounts_and_handle_index c l e) = motion e.
Proof. unfold update_rawcounts_and_handle_index. cbv zeta. repeat case_match; reflexivity. Qed.

Lemma clock_ok_ext ev last e e' : motion e' = motion e -> clock_ok ev last e -> clock_ok ev last e'.
Proof. intros H. apply motion_inv in H as (H1 & H2 & H3 & _). unfold clock_ok. by rewrite H1, H2, H3. Qed.

(** The time since the last edge is exact. *)
Lemma clock_exact ev last t e : clock_ok ev last e -> last <= t < last + 65536 -> t - ev < 2 ^ 31 - 65536 ->
  rollovers (t mod 65536) e = t / 65536 - ev / 65536 /\ dT_clocks (t mod 65536) e = t - ev.
Proof.
  intros (He & Hl & Hr & Hle) Ht Hb.
  pose proof (Z.div_mod t 65536 ltac:(lia)). pose proof (Z.div_mod last 65536 ltac:(lia)). pose proof (Z.div_mod ev 65536 ltac:(lia)).
  pose proof (Z.mod_pos_bound t 65536 ltac:(lia)). pose proof (Z.mod_pos_bound last 65536 ltac:(lia)). pose proof (Z.mod_pos_bound ev 65536 ltac:(lia)).
  assert (rollovers (t mod 65536) e = t / 65536 - ev / 65536) as Hro.
  { unfold rollovers. rewrite Hl, Hr. destruct (Z.ltb_spec (t mod 65536) (last mod 65536)); [rewrite wraps_small by lia |]; lia. }
  split; [done |]. unfold dT_clocks. rewrite Hro, He, Z.shiftl_mul_pow2 by lia. change (2 ^ 16) with 65536.
  rewrite (wraps_small 32 ((t / 65536 - ev / 65536) * 65536)) by lia. rewrite wraps_small by lia. lia.
Qed.

(** A reading without an edge that does not time out. *)
Lemma no_event_motion tick tsc c l e : state e = HM2_ENCODER_MOVING ->
  state (read_no_event tick tsc c l e) = HM2_ENCODER_MOVING ->
  motion (read_no_event tick tsc c l e) =
    (prev_event_reg_timestamp e, tsc, rollovers tsc e, prev_event_rawcounts e, prev_dS_counts e, HM2_ENCODER_MOVING, scale e).
Proof.
  intros Hst. pose proof (update_position_motion e) as He. apply motion_inv in He as (E1 & E2 & E3 & E4 & E5 & E6 & E7).
  assert (rollovers tsc (update_position e) = rollovers tsc e) as Hro by (unfold rollovers; by rewrite E2, E3).
  unfold read_no_event. generalize dependent (update_position e). intros e0 E1 E2 E3 E4 E5 E6 E7 Hro. cbv zeta.
  destruct (dle _ _); [done |]. intros _.
  assert (forall e2, motion e2 = motion {| e0 with tsc_num_rollovers := rollovers tsc e0 |} ->
    motion {| (if searching e2 then update_rawcounts_and_handle_index c l e2 else e2) with prev_time_of_interest := tsc |} =
    (prev_event_reg_timestamp e, tsc, rollovers tsc e, prev_event_rawcounts e, prev_dS_counts e, HM2_ENCODER_MOVING, scale e)) as Hgo.
  { intros e2 H2. assert (motion (if searching e2 then update_rawcounts_and_handle_index c l e2 else e2) = motion e2) as H3
      by (destruct (searching e2); [apply update_rawcounts_motion | done]).
    generalize dependent (if searching e2 then update_rawcounts_and_handle_index c l e2 else e2). intros e3 H3.
    rewrite H2 in H3. apply motion_inv in H3 as (F1 & F2 & F3 & F4 & F5 & F6 & F7).
    cbn in F1, F2, F3, F4, F5, F6, F7. unfold motion. cbn. congruence. }
  apply Hgo. destruct (0 <? _); try destruct (dlt (dabs _) _); reflexivity.
Qed.

(** What the rest of the system leaves alone between two readings. *)
Definition keeps_motion (env : hm2_encoder_instance_t -> hm2_encoder_instance_t) : Prop :=
  keeps_count env /\ forall e, prev_event_reg_timestamp (env e) = prev_event_reg_timestamp e /\
    prev_time_of_interest (env e) = prev_time_of_interest e /\ tsc_num_rollovers (env e) = tsc_num_rollovers e /\
    prev_event_rawcounts (env e) = prev_event_rawcounts e /\ prev_dS_counts (env e) = prev_dS_counts e /\ state (env e) = state e.

(** Readings without an edge and without a timeout, from time [last] to [last']. *)
Inductive quiet (tick : double) (p : Z) : Z -> hm2_encoder_instance_t -> Z -> hm2_encoder_instance_t -> Prop :=
| quiet_nil last e : quiet tick p last e last e
| quiet_cons last e env r last' e' :
    keeps_motion env -> r_pos r = p -> last <= r_tsc r < last + 65536 ->
    state (read_one tick r (env e)) = HM2_ENCODER_MOVING ->
    quiet tick p (r_tsc r) (read_one tick r (env e)) last' e' -> quiet tick p last e last' e'.

(** An edge is the origin of the next measurement. *)
Definition measuring (base p ev last : Z) (e : hm2_encoder_instance_t) : Prop :=
  tracks base p e /\ clock_ok ev last e /\ state e = HM2_ENCODER_MOVING /\ prev_event_rawcounts e = s32 (p + base).

Lemma keeps_measuring base p ev last env e : keeps_motion env -> measuring base p ev last e ->
  measuring base p ev last (env e) /\ prev_dS_counts (env e) = prev_dS_counts e.
Proof.
  intros [Hk Hm] ([Hr Hc] & (C1 & C2 & C3 & C4) & Hst & Hp). destruct (Hk e) as [K1 K2]. destruct (Hm e) as (M1 & M2 & M3 & M4 & M5 & M6).
  split; [| done]. unfold measuring, tracks, clock_ok. split_and!; congruence.
Qed.

Lemma quiet_measuring tick base p ev last e last' e' : measuring base p ev last e ->
  quiet tick p last e last' e' -> last' - ev < 2 ^ 31 - 65536 -> measuring base p ev last' e' /\ prev_dS_counts e' = prev_dS_counts e /\ last <= last'.
Proof.
  intros Hm Hq. revert Hm. induction Hq as [last e | last e env r last' e' Hk Hp Ht Hst Hq IH]; intros Hm Hb.
  { split; [exact Hm |]. split; [done | lia]. }
  destruct (keeps_measuring _ _ _ _ _ _ Hk Hm) as [(Htr & Hck & Hmv & Hpe) HdS].
  assert (r_tsc r <= last') as Hle by (clear - Hq; induction Hq; lia).
  pose proof (read_one_tracks tick base p r (env e) Htr ltac:(lia)) as Htr'. rewrite Hp in Htr'.
  assert (read_one tick r (env e) = read_no_event tick (r_tsc r mod 65536) (counter_word (r_stamp r) (r_pos r)) (r_latch r) (env e)) as Er.
  { unfold read_one, read_instance. rewrite Hmv, counter_word_count. destruct Htr as [_ ->]. by rewrite Hp, Z.eqb_refl. }
  destruct (clock_exact ev last (r_tsc r) (env e) Hck Ht) as [Hro _]; [lia |].
  pose proof (no_event_motion tick (r_tsc r mod 65536) (counter_word (r_stamp r) (r_pos r)) (r_latch r) (env e) Hmv) as Hmo.
  rewrite <- Er in Hmo. specialize (Hmo Hst). unfold motion in Hmo. injection Hmo as M1 M2 M3 M4 M5 M6 M7.
  destruct Hck as (C1 & C2 & C3 & C4).
  destruct IH as (IH1 & IH2 & IH3); [| lia | split; [exact IH1 |]; split; [congruence | lia]].
  split; [exact Htr' |]. split; [| split; congruence]. unfold clock_ok. split_and!; [congruence | congruence | congruence | lia].
Qed.

(** What an edge leaves. *)
Lemma read_event_result tick c l e e0 : e0 = update_position (update_rawcounts_and_handle_index c l e) ->
  let t := hm2_encoder_get_reg_timestamp c in
  let dS := s32 (rawcounts e0 - prev_event_rawcounts e0) in
  velocity (read_event tick c l e) =
    (if ((dS =? 1) && (prev_dS_counts e0 <? 0)) || ((dS =? -1) && (0 <? prev_dS_counts e0)) then d0
     else if 0 <? dT_clocks t e0 then ddiv (ddiv (dbl_of_Z dS) (scale e0)) (dmul (dbl_of_Z (dT_clocks t e0)) tick)
     else velocity e0) /\
  motion (read_event tick c l e) = (t, t, 0, rawcounts e0, dS, state e0, scale e0).
Proof.
  intros ->. unfold read_event. generalize (update_position (update_rawcounts_and_handle_index c l e)). intros e0. cbv zeta.
  destruct (_ || _); [split; reflexivity |]. destruct (0 <? _); split; reflexivity.
Qed.

(** C31: The velocity.  After an edge at time [ev], any number of readings
    without an edge, each less than 65536 clocks after the one before, and an
    edge at time [t], the velocity is the number of edges over the exact time
    [t - ev]; only a single edge against the direction of the last motion
    gives 0.  The edge is the origin of the next measurement. *)
Theorem hm2_velocity tick base p ev last e last' e' env r :
  measuring base p ev last e -> quiet tick p last e last' e' -> keeps_motion env ->
  last' <= r_stamp r < last' + 65536 -> ev < r_stamp r -> r_stamp r - ev < 2 ^ 31 - 65536 ->
  r_pos r <> p -> Z.abs (r_pos r - p) <= 32767 ->
  let d := r_pos r - p in
  let e'' := read_one tick r (env e') in
  velocity e'' =
    (if ((d =? 1) && (prev_dS_counts e <? 0)) || ((d =? -1) && (0 <? prev_dS_counts e)) then d0
     else ddiv (ddiv (dbl_of_Z d) (scale (env e'))) (dmul (dbl_of_Z (r_stamp r - ev)) tick)) /\
  measuring base (r_pos r) (r_stamp r) (r_stamp r) e'' /\ prev_dS_counts e'' = d.
Proof.
  intros Hm Hq Hk Ht Hev Hb Hne Hd. cbv zeta. destruct (quiet_measuring _ _ _ _ _ _ _ _ Hm Hq) as (Hm' & HdS & _); [lia |].
  destruct (keeps_measuring _ _ _ _ _ _ Hk Hm') as [(Htr & Hck & Hmv & Hpe) HdS']. rewrite HdS in HdS'. clear Hm' HdS.
  pose proof (read_one_tracks tick base p r (env e') Htr Hd) as Htr'.
  assert (read_one tick r (env e') = read_event tick (counter_word (r_stamp r) (r_pos r)) (r_latch r) (env e')) as Er.
  { unfold read_one, read_instance. rewrite Hmv, counter_word_count. destruct (Z.eqb_spec (r_pos r mod 65536) (prev_reg_count (env e'))) as [Heq |]; [| done].
    exfalso. apply Hne. exact (tracks_same _ _ _ _ Htr Hd Heq). }
  rewrite Er in *. clear Er. pose proof (tracks_position _ _ _ (tracks_update base p (r_pos r) (r_stamp r) (r_latch r) _ Htr Hd)) as [Hr0 _].
  assert (motion (update_position (update_rawcounts_and_handle_index (counter_word (r_stamp r) (r_pos r)) (r_latch r) (env e'))) = motion (env e')) as Hmo
    by (rewrite update_position_motion; apply update_rawcounts_motion).
  destruct (read_event_result tick (counter_word (r_stamp r) (r_pos r)) (r_latch r) (env e') _ eq_refl) as [Hv Hmot].
  rewrite counter_word_timestamp in Hv, Hmot. generalize dependent (read_event tick (counter_word (r_stamp r) (r_pos r)) (r_latch r) (env e')).
  generalize dependent (update_position (update_rawcounts_and_handle_index (counter_word (r_stamp r) (r_pos r)) (r_latch r) (env e'))).
  intros e0 Hr0 Hmo e1 Htr' Hv Hmot. destruct (clock_exact ev last' (r_stamp r) e0) as [_ HdT]; [by eapply clock_ok_ext | done | done |].
  apply motion_inv in Hmo as (_ & _ & _ & M4 & M5 & M6 & M7).
  rewrite Hr0, M4, Hpe, wraps_sub in Hv, Hmot by lia. replace (r_pos r + base - (p + base)) with (r_pos r - p) in Hv, Hmot by lia.
  rewrite (wraps_small 32 (r_pos r - p)) in Hv, Hmot by lia. rewrite M5, HdS', M7, HdT, (proj2 (Z.ltb_lt 0 (r_stamp r - ev))) in Hv by lia.
  unfold motion in Hmot. injection Hmot as N1 N2 N3 N4 N5 N6 N7. split; [exact Hv |]. split; [| exact N5].
  split; [exact Htr' |]. split; [unfold clock_ok; rewrite N1, N2, N3, Z.sub_diag; split_and!; first [reflexivity | lia] |]. split; congruence.
Qed.

(** ** A concrete run: an edge, two readings without one, then ten edges *)
Definition moving : hm2_encoder_instance_t := read_one d1e_9 (Reading 65531 65000 65100 0) started.

Lemma quiet_twice tick p m last t1 t2 : let step t e := read_one tick (Reading p last t 0) (env_id e) in
  last <= t1 < last + 65536 -> t1 <= t2 < t1 + 65536 ->
  state (step t1 m) = HM2_ENCODER_MOVING -> state (step t2 (step t1 m)) = HM2_ENCODER_MOVING ->
  quiet tick p last m t2 (step t2 (step t1 m)).
Proof.
  cbv zeta. intros H1 H2 S1 S2. assert (keeps_motion env_id) as Hk by (split; [by intros e | by intros e; split_and!]).
  apply (quiet_cons tick p last m env_id (Reading p last t1 0)); [exact Hk | reflexivity | exact H1 | exact S1 |].
  apply (quiet_cons tick p t1 _ env_id (Reading p last t2 0)); [exact Hk | reflexivity | exact H2 | exact S2 |]. constructor.
Qed.

Lemma moving_measures : measuring 0 65531 65000 65000 moving.
Proof. split; [split; reflexivity |]. split; [split_and!; reflexivity || discriminate |]. split; reflexivity. Qed.

Lemma hm2_velocity_witness : exists e' : hm2_encoder_instance_t,
  quiet d1e_9 65531 65000 moving 130000 e' /\
  velocity (read_one d1e_9 (Reading 65541 140000 140100 0) e') = ddiv (ddiv (dbl_of_Z 10) d1) (dmul (dbl_of_Z 75000) d1e_9).
Proof.
  assert (keeps_motion env_id) as Hk by (split; [by intros e | by intros e; split_and!]).
  assert (exists e', quiet d1e_9 65531 65000 moving 130000 e' /\ scale (env_id e') = d1) as (e' & Hq & Hs).
  { pose proof (quiet_twice d1e_9 65531 moving 65000 70000 130000 ltac:(lia) ltac:(lia) ltac:(vm_compute; reflexivity) ltac:(vm_compute; reflexivity)) as Hq.
    cbv zeta in Hq. eexists. split; [exact Hq | vm_compute; reflexivity]. }
  exists e'. split; [exact Hq |].
  pose proof (hm2_velocity d1e_9 0 65531 65000 65000 moving 130000 e' env_id (Reading 65541 140000 140100 0) moving_measures Hq Hk
    ltac:(cbn [r_stamp]; lia) ltac:(cbn [r_stamp]; lia) ltac:(cbn [r_stamp]; lia) ltac:(cbn [r_pos]; lia) ltac:(cbn [r_pos]; lia)) as H.
  cbv zeta in H. apply proj1 in H. cbn [r_stamp r_pos] in H. rewrite Hs in H.
  change (65541 - 65531) with 10 in H. change (140000 - 65000) with 75000 in H. change (10 =? 1) with false in H. change (10 =? -1) with false in H.
  exact H.
Defined.
