(* ===== verification/Hm2Tram.v ===== *)
(** * The driver's copy of the registers of a hostmot2 card
      (modules/managed/drivers/hostmot2/hostmot2_core/src/tram.c)

    Every module of the firmware registers address ranges to be read and
    written in each period, with a variable that is to point to the copy.  The
    copies lie one behind the other in one buffer for each direction, as
    bytes.  What a board does with a request is the parameter [LLIO]. *)
From S2P Require Import Prelude.

(** realloc: does it succeed, and what new bytes hold. *)
Class Realloc := { realloc_ok : Z -> bool; junk : nat -> Z }.

(** A pointer into the buffers: which, and the byte offset. *)
Inductive side := Reads | Writes.
#[export] Instance side_eq : EqDecision side. Proof. solve_decision. Defined.
Definition pointer : Type := side * Z.

(** The low-level driver of a board with state [hw].  A call tells if it has
    succeeded and what it has stored where. *)
Class LLIO (hw : Type) := {
  queue_read : Z -> pointer -> Z -> hw -> bool * list (pointer * list Z) * hw;
  send_queued_reads : option (hw -> bool * hw);
  receive_queued_reads : option (hw -> Z * list (pointer * list Z) * hw);
  queue_write : Z -> list Z -> hw -> bool * hw;
  send_queued_writes : option (hw -> bool * hw);
}.

Module Tram.

(** [buffer] is the variable that will point to the copy. *)
Record hm2_tram_entry_t := Entry { addr : Z; size : Z; buffer : Z }.

Record hostmot2_t := Hostmot2 {
  tram_read_entries : list hm2_tram_entry_t;
  tram_read_buffer : option (list Z);
  tram_read_size : Z;                           (* u16 *)
  tram_write_entries : list hm2_tram_entry_t;
  tram_write_buffer : option (list Z);
  tram_write_size : Z;                          (* u16 *)
  pointers : gmap Z pointer;                    (* what the variables point to *)
}.

Section Operations.
Context {hw : Type} `{LLIO hw} `{Realloc}.

Abbreviation TM := (M (hostmot2_t * hw)).

Definition EIO : Z := 5.
Definition state : TM hostmot2_t := s ← get; mret (fst s).
Definition update (f : hostmot2_t -> hostmot2_t) : TM unit := modify (fun s => (f (fst s), snd s)).
(** A call of the low-level driver. *)
Definition call {A} (f : hw -> A * hw) : TM A := fun s => (Ok (fst (f (snd s))), (fst s, snd (f (snd s)))).

(** [room] tells if kmalloc succeeds. *)
Definition hm2_register_tram_read_region (room : bool) (a n var : Z) : TM unit :=
  if negb room then raise (- ENOMEM)
  else update (fun t => {| t with tram_read_entries := tram_read_entries t ++ [Entry (u16 a) (u16 n) var] |}).

Definition hm2_register_tram_write_region (room : bool) (a n var : Z) : TM unit :=
  if negb room then raise (- ENOMEM)
  else update (fun t => {| t with tram_write_entries := tram_write_entries t ++ [Entry (u16 a) (u16 n) var] |}).

Definition sum_sizes (l : list hm2_tram_entry_t) : Z := fold_left (fun acc e => u16 (acc + size e)) l 0.

Definition krealloc (old : option (list Z)) (n : Z) : option (list Z) :=
  if realloc_ok n
  then let l := take (Z.to_nat n) (default [] old) in Some (l ++ map junk (seq 0 (Z.to_nat n - length l)))
  else None.

(** Bytes stored at an offset of a block; outside of it is undefined. *)
Definition store (off : Z) (data l : list Z) : option (list Z) :=
  if (0 <=? off) && (off + Z.of_nat (length data) <=? Z.of_nat (length l))
  then Some (take (Z.to_nat off) l ++ data ++ drop (Z.to_nat off + length data) l) else None.

(** [memset(b + old, 0, n - old)] on a pointer to words: the offset counts
    words, the length bytes. *)
Definition clear_new (old n : Z) (l : list Z) : option (list Z) :=
  if old <? n then store (4 * old) (replicate (Z.to_nat (n - old)) 0) l else Some l.

Fixpoint set_pointers (s : side) (offset : Z) (l : list hm2_tram_entry_t) (p : gmap Z pointer) : gmap Z pointer :=
  match l with
  | [] => p
  | e :: l => set_pointers s (u16 (offset + size e)) l (<[buffer e := (s, offset)]> p)
  end.

Definition hm2_allocate_tram_regions : TM unit :=
  t ← state;
  let old_read := tram_read_size t in
  let old_write := tram_write_size t in
  let n := sum_sizes (tram_read_entries t) in
  let m := sum_sizes (tram_write_entries t) in
  update (fun t => {| t with tram_read_size := n; tram_write_size := m; tram_read_buffer := krealloc (tram_read_buffer t) n |}) ≫= fun _ =>
  t ← state;
  match tram_read_buffer t with
  | None => raise (- ENOMEM)
  | Some rb =>
      match clear_new old_read n rb with
      | None => crash
      | Some rb =>
          update (fun t => {| t with tram_read_buffer := Some rb; tram_write_buffer := krealloc (tram_write_buffer t) m |}) ≫= fun _ =>
          t ← state;
          match tram_write_buffer t with
          | None => raise (- ENOMEM)
          | Some wb =>
              match clear_new old_write m wb with
              | None => crash
              | Some wb =>
                  update (fun t => {| t with tram_write_buffer := Some wb;
                    pointers := set_pointers Writes 0 (tram_write_entries t) (set_pointers Reads 0 (tram_read_entries t) (pointers t)) |})
              end
          end
      end
  end.

(** What the board stores through a pointer. *)
Definition store_at (x : pointer * list Z) (t : hostmot2_t) : option hostmot2_t :=
  let '((s, off), data) := x in
  match s with
  | Reads => b ← tram_read_buffer t; b ← store off data b; Some {| t with tram_read_buffer := Some b |}
  | Writes => b ← tram_write_buffer t; b ← store off data b; Some {| t with tram_write_buffer := Some b |}
  end.
Fixpoint stores (l : list (pointer * list Z)) (t : hostmot2_t) : option hostmot2_t :=
  match l with [] => Some t | x :: l => t ← store_at x t; stores l t end.
Definition store_all (l : list (pointer * list Z)) : TM unit :=
  s ← get;
  match stores l (fst s) with
  | Some t => put (t, snd s)
  | None => crash
  end.

(** A variable that has not been set. *)
Definition deref (var : Z) : TM pointer :=
  t ← state; match pointers t !! var with Some p => mret p | None => crash end.

Fixpoint read_entries (l : list hm2_tram_entry_t) : TM unit :=
  match l with
  | [] => mret tt
  | e :: l =>
      p ← deref (buffer e);
      '(ok, ws) ← call (fun h => queue_read (addr e) p (size e) h);
      store_all ws ≫= fun _ => if negb ok then raise (- EIO) else read_entries l
  end.
Definition hm2_tram_read : TM unit := t ← state; read_entries (tram_read_entries t).

Definition hm2_queue_read : TM unit :=
  match send_queued_reads with
  | None => mret tt
  | Some send => ok ← call send; if negb ok then raise (- EIO) else mret tt
  end.

Definition hm2_finish_read : TM unit :=
  match receive_queued_reads with
  | None => mret tt
  | Some receive =>
      '(r, ws) ← call receive;
      store_all ws ≫= fun _ => if r <? 0 then raise r else if r =? 0 then raise (- EIO) else mret tt
  end.

(** The bytes that a pointer points to. *)
Definition load (p : pointer) (n : Z) : TM (list Z) :=
  t ← state;
  match (match fst p with Reads => tram_read_buffer t | Writes => tram_write_buffer t end) with
  | Some b => if (0 <=? snd p) && (snd p + n <=? Z.of_nat (length b)) then mret (take (Z.to_nat n) (drop (Z.to_nat (snd p)) b)) else crash
  | None => crash
  end.

Fixpoint write_entries (l : list hm2_tram_entry_t) : TM unit :=
  match l with
  | [] => mret tt
  | e :: l =>
      p ← deref (buffer e);
      d ← load p (size e);
      ok ← call (queue_write (addr e) d);
      if negb ok then raise (- EIO) else write_entries l
  end.
Definition hm2_tram_write : TM unit := t ← state; write_entries (tram_write_entries t).

Definition hm2_finish_write : TM unit :=
  match send_queued_writes with
  | None => mret tt
  | Some send => ok ← call send; if negb ok then raise (- EIO) else mret tt
  end.

(** The buffers are freed; the variables are left dangling. *)
Definition hm2_tram_cleanup : TM unit :=
  update (fun t => {| t with tram_read_entries := []; tram_write_entries := []; tram_read_buffer := None; tram_write_buffer := None |}).

(** The [i]-th register of a region, as the modules read and write it. *)
Definition word_of (l : list Z) : Z := fold_right (fun b acc => Z.lor b (Z.shiftl acc 8)) 0 l.
Definition read_reg (var : Z) (i : nat) : TM Z :=
  p ← deref var; d ← load (fst p, snd p + 4 * Z.of_nat i) 4; mret (word_of d).
Definition bytes_of (z : Z) : list Z := map (fun k => Z.land (Z.shiftr z (8 * Z.of_nat k)) 0xFF) (seq 0 4).
Definition write_reg (var : Z) (i : nat) (z : Z) : TM unit :=
  p ← deref var; store_all [((fst p, snd p + 4 * Z.of_nat i), bytes_of z)].

End Operations.
End Tram.
