(* ===== verification/Hm2TramTheorems.v ===== *)
(** * Theorems about the driver's copy of the registers

    The first allocation gives every region a place of its own; after a
    period's read each region holds what the card has at its address, whether
    the board answers at once or queues the requests.  A later allocation
    that is larger clears memory behind the end of the buffer. *)
From S2P Require Import Prelude Double Hm2Encoder Hm2EncoderTheorems Hm2Tram.
Import Tram.

(** ** The layout *)
Fixpoint total (l : list hm2_tram_entry_t) : Z := match l with [] => 0 | e :: l => size e + total l end.
Definition sizes_ok (l : list hm2_tram_entry_t) : Prop := Forall (fun e => 0 <= size e) l.

(** The variables of [l] point to one region behind the other. *)
Fixpoint placed (s : side) (off : Z) (l : list hm2_tram_entry_t) (p : gmap Z pointer) : Prop :=
  match l with [] => True | e :: l => p !! buffer e = Some (s, off) /\ placed s (off + size e) l p end.

Lemma total_nonneg l : sizes_ok l -> 0 <= total l.
Proof. induction 1; cbn; lia. Qed.

Lemma sum_sizes_total l : sizes_ok l -> total l < 2 ^ 16 -> sum_sizes l = total l.
Proof.
  intros Hl Ht. unfold sum_sizes. assert (forall acc, 0 <= acc -> acc + total l < 2 ^ 16 ->
    fold_left (fun acc e => u16 (acc + size e)) l acc = acc + total l) as H; [| apply (H 0); lia].
  induction Hl as [| e l He Hl IH]; intros acc Ha Hb; cbn [total fold_left] in *; [lia |].
  pose proof (total_nonneg l Hl) as Hn. rewrite wrapu_small by lia. rewrite IH by lia. lia.
Qed.

Lemma set_pointers_other s off l p v : v ∉ (buffer <$> l) -> set_pointers s off l p !! v = p !! v.
Proof.
  revert off p. induction l as [| e l IH]; intros off p; [done |]. cbn [fmap list_fmap set_pointers].
  intros [Hv Hl]%not_elem_of_cons. rewrite IH by done. by apply lookup_insert_ne.
Qed.

Lemma set_pointers_placed s off l p : NoDup (buffer <$> l) -> sizes_ok l -> 0 <= off -> off + total l < 2 ^ 16 ->
  placed s off l (set_pointers s off l p).
Proof.
  intros Hn Hl. revert off p. induction Hl as [| e l He Hl IH]; intros off p Ho Hb; [done |].
  cbn [fmap list_fmap set_pointers placed total] in *. apply NoDup_cons in Hn as [Hne Hn].
  pose proof (total_nonneg l Hl) as Ht. rewrite wrapu_small by lia. split.
  - rewrite set_pointers_other by done. by apply lookup_insert_eq.
  - apply IH; (done || lia).
Qed.

Lemma placed_other s off l p q : (forall v, v ∈ (buffer <$> l) -> q !! v = p !! v) -> placed s off l p -> placed s off l q.
Proof.
  revert off. induction l as [| e l IH]; intros off Hq; [done |]. cbn [placed fmap list_fmap] in *. intros [He Hl]. split.
  - rewrite Hq by (by left). done.
  - apply IH; [| done]. intros v Hv. apply Hq. by right.
Qed.

(** What the allocation establishes. *)
Definition allocated (t : hostmot2_t) : Prop :=
  sizes_ok (tram_read_entries t) /\ sizes_ok (tram_write_entries t) /\
  placed Reads 0 (tram_read_entries t) (pointers t) /\ placed Writes 0 (tram_write_entries t) (pointers t) /\
  (exists b, tram_read_buffer t = Some b /\ Z.of_nat (length b) = total (tram_read_entries t)) /\
  (exists b, tram_write_buffer t = Some b /\ Z.of_nat (length b) = total (tram_write_entries t)).

Section Theorems.
Context {hw : Type} `{LLIO hw} `{Realloc}.

(** How the steps of the monad run. *)
Lemma run_state {A} (f : hostmot2_t -> M (hostmot2_t * hw) A) s : (state ≫= f) s = f (fst s) s.
Proof. done. Qed.
Lemma run_update {A} g (f : unit -> M (hostmot2_t * hw) A) s : (update g ≫= f) s = f tt (g (fst s), snd s).
Proof. done. Qed.
Lemma run_call {A B} g (f : A -> M (hostmot2_t * hw) B) s : (call g ≫= f) s = f (fst (g (snd s))) (fst s, snd (g (snd s))).
Proof. done. Qed.

Lemma krealloc_length old n b : 0 <= n -> krealloc old n = Some b -> Z.of_nat (length b) = n.
Proof.
  unfold krealloc. destruct (realloc_ok n); [| done]. intros Hn [= <-]. rewrite length_app, length_map, length_seq, length_take. lia.
Qed.

Lemma store_length off d l l' : store off d l = Some l' -> length l' = length l.
Proof.
  unfold store. destruct (_ && _) eqn:E; [| done]. apply andb_true_iff in E as [E1 E2]. zb. intros [= <-].
  rewrite !length_app, length_take, length_drop. lia.
Qed.

Lemma clear_new_fresh n l : 0 <= n -> Z.of_nat (length l) = n -> exists l', clear_new 0 n l = Some l' /\ Z.of_nat (length l') = n.
Proof.
  intros Hn Hl. unfold clear_new. destruct (0 <? n) eqn:E; [| by exists l].
  unfold store. rewrite length_replicate. rewrite (proj2 (Z.leb_le _ _)), (proj2 (Z.leb_le _ _)) by lia. eexists. split; [reflexivity |].
  rewrite !length_app, length_take, length_drop, length_replicate. lia.
Qed.

Lemma allocate_fresh t (h : hw) : tram_read_size t = 0 -> tram_write_size t = 0 ->
  sizes_ok (tram_read_entries t) -> sizes_ok (tram_write_entries t) ->
  NoDup (buffer <$> (tram_read_entries t ++ tram_write_entries t)) ->
  total (tram_read_entries t) < 2 ^ 16 -> total (tram_write_entries t) < 2 ^ 16 ->
  realloc_ok (total (tram_read_entries t)) = true -> realloc_ok (total (tram_write_entries t)) = true ->
  exists t', hm2_allocate_tram_regions (t, h) = (Ok tt, (t', h)) /\ allocated t' /\
    tram_read_entries t' = tram_read_entries t /\ tram_write_entries t' = tram_write_entries t.
Proof.
  intros Hr0 Hw0 Hrs Hws Hn Hrt Hwt Hro Hwo. pose proof (total_nonneg _ Hrs) as Hrn. pose proof (total_nonneg _ Hws) as Hwn.
  rewrite fmap_app in Hn. apply NoDup_app in Hn as (Hnr & Hd & Hnw).
  unfold hm2_allocate_tram_regions. rewrite run_state. cbn [fst]. rewrite Hr0, Hw0, !sum_sizes_total by done.
  rewrite run_update, run_state. cbn.
  destruct (krealloc (tram_read_buffer t) (total (tram_read_entries t))) as [rb |] eqn:Er; [| unfold krealloc in Er; by rewrite Hro in Er].
  apply krealloc_length in Er; [| done]. destruct (clear_new_fresh _ rb Hrn Er) as (rb' & -> & Erl).
  rewrite run_update, run_state. cbn. destruct (krealloc (tram_write_buffer t) (total (tram_write_entries t))) as [wb |] eqn:Ew; [| unfold krealloc in Ew; by rewrite Hwo in Ew].
  apply krealloc_length in Ew; [| done]. destruct (clear_new_fresh _ wb Hwn Ew) as (wb' & -> & Ewl).
  cbn. eexists. split; [reflexivity |]. cbn. split; [| done]. split_and!; cbn; [done | done | | | by eexists | by eexists].
  - eapply placed_other; [| by apply (set_pointers_placed Reads 0 _ (pointers t))]. intros v Hv. apply set_pointers_other. intros Hvw. by apply (Hd v).
  - by apply set_pointers_placed.
Qed.

(** Allocating again after a region has been added: the offset of the new
    part is scaled by the size of a word, and memory behind the end of the
    buffer is cleared. *)
Theorem second_allocation_overruns t (h : hw) : 0 < tram_read_size t < sum_sizes (tram_read_entries t) ->
  realloc_ok (sum_sizes (tram_read_entries t)) = true ->
  fst (hm2_allocate_tram_regions (t, h)) = Crash.
Proof.
  intros Hs Hro. unfold hm2_allocate_tram_regions. rewrite run_state, run_update, run_state. cbn.
  destruct (krealloc (tram_read_buffer t) (sum_sizes (tram_read_entries t))) as [rb |] eqn:Er; [| unfold krealloc in Er; by rewrite Hro in Er].
  apply krealloc_length in Er; [| lia]. unfold clear_new. rewrite (proj2 (Z.ltb_lt _ _)) by lia. unfold store. rewrite length_replicate.
  rewrite (proj2 (Z.leb_gt _ (Z.of_nat (length rb)))), andb_false_r by lia. done.
Qed.
(** ** A period's read *)

(** The requests of a list of regions that lie at [off] and behind. *)
Fixpoint requests (off : Z) (l : list hm2_tram_entry_t) : list (Z * pointer * Z) :=
  match l with [] => [] | e :: l => (addr e, (Reads, off), size e) :: requests (off + size e) l end.

(** Requests given to the board, up to the first one it refuses. *)
Fixpoint queue_all (rs : list (Z * pointer * Z)) (h : hw) : bool * list (pointer * list Z) * hw :=
  match rs with
  | [] => (true, [], h)
  | (a, p, n) :: rs =>
      let '(ok, ws, h) := queue_read a p n h in
      if ok then let '(ok, ws', h) := queue_all rs h in (ok, ws ++ ws', h) else (false, ws, h)
  end.
Definition send (h : hw) : bool * hw := match send_queued_reads with None => (true, h) | Some f => f h end.
Definition receive (h : hw) : Z * list (pointer * list Z) * hw := match receive_queued_reads with None => (1, [], h) | Some f => f h end.

(** What the registers hold, where it was asked for. *)
Definition delivered (regs : hw -> Z -> Z -> list Z) (h : hw) (rs : list (Z * pointer * Z)) : list (pointer * list Z) :=
  map (fun '(a, p, n) => (p, regs h a n)) rs.

(** A board that works: in the end it has stored what its registers hold, in
    the order of the requests. *)
Class LLIOSpec (regs : hw -> Z -> Z -> list Z) (idle : hw -> Prop) : Prop := {
  regs_length h a n : 0 <= n -> Z.of_nat (length (regs h a n)) = n;
  completes rs h : idle h -> exists w1 h1 h2 r w2 h3, queue_all rs h = (true, w1, h1) /\ send h1 = (true, h2) /\ receive h2 = (r, w2, h3) /\
    0 < r /\ w1 ++ w2 = delivered regs h rs /\ idle h3;
}.

Lemma run_store_all {A} ws t t' (h : hw) (f : unit -> M (hostmot2_t * hw) A) : stores ws t = Some t' -> (store_all ws ≫= f) (t, h) = f tt (t', h).
Proof. intros Hs. unfold store_all, mbind, M_bind, get. cbn [fst snd]. by rewrite Hs. Qed.

Lemma run_deref {A} v p s (f : pointer -> M (hostmot2_t * hw) A) : pointers (fst s) !! v = Some p -> (deref v ≫= f) s = f p s.
Proof. intros Hv. unfold deref, state, mbind, M_bind, get, mret, M_ret. cbn. by rewrite Hv. Qed.

Lemma stores_app ws vs t t' : stores (ws ++ vs) t = Some t' <-> exists t1, stores ws t = Some t1 /\ stores vs t1 = Some t'.
Proof.
  revert t. induction ws as [| w ws IH]; intros t; cbn [stores app].
  - split; [by eexists | by intros (t1 & [= ->] & H1)].
  - cbn [mbind option_bind]. destruct (store_at w t) as [t1 |]; [apply IH |]. split; [done | by intros (? & ? & _)].
Qed.

Lemma store_at_frame w t t' : store_at w t = Some t' ->
  pointers t' = pointers t /\ tram_read_entries t' = tram_read_entries t /\ tram_write_entries t' = tram_write_entries t.
Proof.
  destruct w as [[[] off] d]; cbn; [destruct (tram_read_buffer t) as [b |] | destruct (tram_write_buffer t) as [b |]]; cbn; try done;
    destruct (store off d b); cbn; (done || by intros [= <-]).
Qed.

Lemma stores_frame ws t t' : stores ws t = Some t' ->
  pointers t' = pointers t /\ tram_read_entries t' = tram_read_entries t /\ tram_write_entries t' = tram_write_entries t.
Proof.
  revert t. induction ws as [| w ws IH]; intros t; cbn [stores mbind option_bind]; [by intros [= ->] |].
  destruct (store_at w t) as [t1 |] eqn:E; [| done]. intros Hs. apply store_at_frame in E as (E1 & E2 & E3).
  destruct (IH _ Hs) as (F1 & F2 & F3). split_and!; congruence.
Qed.

Lemma read_entries_run l off t (h : hw) ws t' h' : placed Reads off l (pointers t) -> queue_all (requests off l) h = (true, ws, h') ->
  stores ws t = Some t' -> read_entries l (t, h) = (Ok tt, (t', h')).
Proof.
  revert off t h ws. induction l as [| e l IH]; intros off t h ws Hp Hq Hs; cbn [requests queue_all read_entries placed] in *.
  { injection Hq as <- <-. injection Hs as <-. done. }
  destruct Hp as [He Hp]. rewrite (run_deref _ _ (t, h) _ He), run_call. cbn [fst snd].
  destruct (queue_read (addr e) (Reads, off) (size e) h) as [[ok w1] h1]. destruct ok; [| done].
  destruct (queue_all (requests (off + size e) l) h1) as [[ok w2] h2] eqn:E. injection Hq as -> <- <-.
  apply stores_app in Hs as (t1 & Hs1 & Hs2). cbn [fst snd]. rewrite (run_store_all _ _ _ _ _ Hs1). cbn [negb].
  apply (IH (off + size e) t1 h1 w2); [| done | done]. apply stores_frame in Hs1 as (-> & _). done.
Qed.

(** The buffer after the stores of all regions. *)
Lemma stores_regions regs (h : hw) l t don rest : (forall a n, 0 <= n -> Z.of_nat (length (regs h a n)) = n) -> sizes_ok l ->
  tram_read_buffer t = Some (don ++ rest) -> Z.of_nat (length rest) = total l ->
  stores (delivered regs h (requests (Z.of_nat (length don)) l)) t =
    Some {| t with tram_read_buffer := Some (don ++ flat_map (fun e => regs h (addr e) (size e)) l) |}.
Proof.
  intros Hlen Hl. revert t don rest. induction Hl as [| e l He Hl IH]; intros t don rest Hb Hr; cbn [requests delivered map stores flat_map total] in *.
  - destruct rest; [| cbn in Hr; lia]. rewrite <- Hb. by destruct t.
  - pose proof (total_nonneg l Hl) as Hn. pose proof (Hlen (addr e) (size e) He) as Hd. cbn [store_at]. rewrite Hb. cbn [mbind option_bind].
    unfold store. rewrite length_app, (proj2 (Z.leb_le _ _)), (proj2 (Z.leb_le _ _)) by lia. cbn [andb mbind option_bind].
    rewrite Nat2Z.id, take_app_length, drop_app_add. replace (Z.of_nat (length don) + size e) with (Z.of_nat (length (don ++ regs h (addr e) (size e)))) by (rewrite length_app; lia).
    rewrite (IH _ (don ++ regs h (addr e) (size e)) (drop (length (regs h (addr e) (size e))) rest)).
    + cbn. by rewrite <- app_assoc.
    + cbn. by rewrite <- app_assoc.
    + rewrite length_drop. lia.
Qed.

(** The region of an entry within the concatenation. *)
Lemma region_slice (g : hm2_tram_entry_t -> list Z) l off e p : (forall e, 0 <= size e -> Z.of_nat (length (g e)) = size e) -> sizes_ok l ->
  placed Reads off l p -> e ∈ l -> exists k, p !! buffer e = Some (Reads, off + k) /\ 0 <= k /\ k + size e <= total l /\
    take (Z.to_nat (size e)) (drop (Z.to_nat k) (flat_map g l)) = g e.
Proof.
  intros Hg Hl. revert off. induction Hl as [| x l Hx Hl IH]; intros off Hp; [by intros ?%elem_of_nil |]. cbn [placed total flat_map] in *.
  destruct Hp as [Hpx Hp]. pose proof (total_nonneg l Hl) as Hn. pose proof (Hg x Hx) as Hgx. intros [-> | He]%elem_of_cons.
  - exists 0. rewrite Z.add_0_r. split_and!; [done | lia | lia |]. change (Z.to_nat 0) with 0%nat. rewrite drop_0. cbn [flat_map]. by rewrite take_app_length' by lia.
  - destruct (IH (off + size x) Hp He) as (k & Hk & Hk0 & Hkn & Hs). exists (size x + k). split_and!; [rewrite Hk; f_equal; f_equal; lia | lia | lia |].
    replace (Z.to_nat (size x + k)) with (length (g x) + Z.to_nat k)%nat by lia. by rewrite drop_app_add.
Qed.

(** C39: A period's read.  After the regions have been allocated, a read that
    is queued, sent and finished leaves in every region, found through its
    variable, what the card's registers at the address of the region hold;
    that does not depend on when the board delivers, and leaves the copy of
    what is to be written alone. *)
Theorem tram_read_registers regs idle t (h : hw) : LLIOSpec regs idle -> idle h -> allocated t ->
  exists t' h', (hm2_tram_read ≫= fun _ => hm2_queue_read ≫= fun _ => hm2_finish_read) (t, h) = (Ok tt, (t', h')) /\
    idle h' /\ allocated t' /\ tram_read_entries t' = tram_read_entries t /\ tram_write_buffer t' = tram_write_buffer t /\ pointers t' = pointers t /\
    forall e, e ∈ tram_read_entries t ->
      (p ← deref (buffer e); load p (size e)) (t', h') = (Ok (regs h (addr e) (size e)), (t', h')).
Proof.
  intros Hspec Hidle (Hrs & Hws & Hpr & Hpw & (rb & Hrb & Hrl) & Hwb).
  destruct (completes (requests 0 (tram_read_entries t)) h Hidle) as (w1 & h1 & h2 & r & w2 & h3 & Hq & Hs & Hr & Hr0 & Hw & Hi).
  pose proof (stores_regions regs h (tram_read_entries t) t [] rb (fun a n => regs_length h a n) Hrs Hrb Hrl) as Hst.
  cbn [length app] in Hst. change (Z.of_nat 0) with 0 in Hst. rewrite <- Hw in Hst. apply stores_app in Hst as (t1 & Hst1 & Hst2).
  set (t' := {| t with tram_read_buffer := Some (flat_map (fun e => regs h (addr e) (size e)) (tram_read_entries t)) |}) in *.
  exists t', h3. split.
  - unfold mbind at 1, M_bind at 1. unfold hm2_tram_read. rewrite run_state. cbn [fst].
    rewrite (read_entries_run _ 0 _ _ w1 t1 h1) by done. unfold mbind at 1, M_bind at 1.
    assert (hm2_queue_read (t1, h1) = (Ok tt, (t1, h2))) as ->.
    { unfold hm2_queue_read, send in *. destruct send_queued_reads as [f |]; [| by injection Hs as <-].
      rewrite run_call. cbn [fst snd]. by rewrite Hs. }
    unfold hm2_finish_read, receive in *. destruct receive_queued_reads as [f |].
    + rewrite run_call. cbn [fst snd]. rewrite Hr. cbn [fst snd]. rewrite (run_store_all _ _ _ _ _ Hst2).
      rewrite (proj2 (Z.ltb_ge _ _)) by lia. by rewrite (proj2 (Z.eqb_neq _ _)) by lia.
    + injection Hr as <- <- <-. by injection Hst2 as <-.
  - assert (Z.of_nat (length (flat_map (fun e => regs h (addr e) (size e)) (tram_read_entries t))) = total (tram_read_entries t)) as Hfl.
    { clear -Hspec Hrs. induction Hrs as [| e l He Hl IH]; cbn [flat_map total]; [done |]. rewrite length_app, Nat2Z.inj_add, IH.
      by rewrite regs_length. }
    split; [exact Hi |]. split; [split_and!; cbn; try done; by eexists |]. do 3 (split; [done |]). intros e He.
    destruct (region_slice (fun e => regs h (addr e) (size e)) _ 0 e (pointers t) ltac:(intros x Hx; by apply regs_length) Hrs Hpr He) as (k & Hk & Hk0 & Hkn & Hsl).
    rewrite (run_deref _ _ (t', h3) _ Hk). unfold load. rewrite run_state. cbn [fst snd t' tram_read_buffer].
    rewrite (proj2 (Z.leb_le _ _)), (proj2 (Z.leb_le _ _)) by lia. cbn [andb]. change (0 + k) with k. by rewrite Hsl.
Qed.
(** ** Registers *)

(** The [i]-th word of what a region holds. *)
Definition word_at (d : list Z) (i : nat) : Z := word_of (take 4 (drop (4 * i) d)).

Lemma read_reg_value e d i (s : hostmot2_t * hw) : (p ← deref (buffer e); load p (size e)) s = (Ok d, s) -> 4 * (Z.of_nat i + 1) <= size e ->
  read_reg (buffer e) i s = (Ok (word_at d i), s).
Proof.
  intros Hd Hi. unfold read_reg. destruct (pointers (fst s) !! buffer e) as [p |] eqn:Hp.
  2: { exfalso. revert Hd. unfold deref, state, mbind, M_bind, get, mret, M_ret. cbn. by rewrite Hp. }
  rewrite (run_deref (buffer e) p s (fun p => load p (size e)) Hp) in Hd. etrans; [apply (run_deref _ p _ _ Hp) |]. revert Hd. unfold load. unfold mbind, M_bind, state, get, mret, M_ret. cbn [fst snd].
  unfold mbind, M_bind, get. cbn [fst snd].
  destruct (match fst p with Reads => _ | Writes => _ end) as [b |]; [| done].
  destruct ((0 <=? snd p) && (snd p + size e <=? Z.of_nat (length b))) eqn:E; [| done]. apply andb_true_iff in E as [E1 E2]. zb.
  intros [= <-]. rewrite (proj2 (Z.leb_le _ _)), (proj2 (Z.leb_le _ _)) by lia. cbn [andb]. do 2 f_equal. unfold word_at. f_equal.
  rewrite skipn_firstn_comm, take_take, drop_drop. f_equal; [lia |]. f_equal. lia.
Qed.

(** What a period does to one counter: the requests are queued, sent and
    finished as in hm2_read, and the counter's state is brought up to date.
    It is a client of the modelled functions, not hm2_read itself, which also
    has the watchdog checks, hm2_raw_queue_read, hm2_tp_pwmgen_queue_read and
    the updates of all other modules; of the encoders' own function it leaves
    out the check of the scale and the pass over the control registers. *)
Definition encoder_period (tick : double) (tsc counter latch : Z) (i : nat) (e : Hm2Encoder.hm2_encoder_instance_t)
  : M (hostmot2_t * hw) Hm2Encoder.hm2_encoder_instance_t :=
  (hm2_tram_read ≫= fun _ => hm2_queue_read ≫= fun _ => hm2_finish_read) ≫= fun _ =>
  t ← read_reg tsc 0; c ← read_reg counter i; l ← read_reg latch i;
  mret (Hm2Encoder.read_instance tick (Z.land t 0xFFFF) c l e).

(** The registers of the card show the reading [r] of counter [i]. *)
Definition shows (regs : Z -> Z -> list Z) (tsc counter latch : hm2_tram_entry_t) (i : nat) (r : reading) : Prop :=
  Z.land (word_at (regs (addr tsc) (size tsc)) 0) 0xFFFF = r_tsc r mod 65536 /\
  word_at (regs (addr counter) (size counter)) i = counter_word (r_stamp r) (r_pos r) /\
  word_at (regs (addr latch) (size latch)) i = r_latch r.

(** C33: From the card to the position.  When the registers of the card show
    that a counter stands at [r_pos r], not more than 32767 edges from where
    it was, a period's read through the copies leaves the driver's count at
    that position, and everything ready for the next period. *)
Theorem card_position regs idle t (h : hw) tick tsc counter latch i base p r e :
  LLIOSpec regs idle -> idle h -> allocated t ->
  tsc ∈ tram_read_entries t -> counter ∈ tram_read_entries t -> latch ∈ tram_read_entries t ->
  4 <= size tsc -> 4 * (Z.of_nat i + 1) <= size counter -> 4 * (Z.of_nat i + 1) <= size latch ->
  shows (regs h) tsc counter latch i r -> tracks base p e -> Z.abs (r_pos r - p) <= 32767 ->
  exists t' h' e', encoder_period tick (buffer tsc) (buffer counter) (buffer latch) i e (t, h) = (Ok e', (t', h')) /\
    e' = read_one tick r e /\ tracks base (r_pos r) e' /\
    idle h' /\ allocated t' /\ tram_read_entries t' = tram_read_entries t.
Proof.
  intros Hspec Hidle Hal Ht Hc Hl Hst Hsc Hsl (Hwt & Hwc & Hwl) Htr Hd.
  destruct (tram_read_registers regs idle t h Hspec Hidle Hal) as (t' & h' & Hrun & Hi' & Hal' & Hen & _ & _ & Hload).
  exists t', h', (read_one tick r e). split; [| split; [done |]; split; [by apply (read_one_tracks tick base p) | done]].
  unfold encoder_period. unfold mbind at 1, M_bind at 1. rewrite Hrun. unfold mbind, M_bind.
  rewrite (read_reg_value tsc _ 0 _ (Hload tsc Ht)) by lia. rewrite (read_reg_value counter _ i _ (Hload counter Hc)) by done.
  rewrite (read_reg_value latch _ i _ (Hload latch Hl)) by done. rewrite Hwt, Hwc, Hwl. done.
Qed.
End Theorems.

(** ** Two boards: one that answers at once, one that queues the requests *)
Definition memory : Type := Z -> Z.
Definition bytes_at (h : memory) (a n : Z) : list Z := map (fun k => h (a + Z.of_nat k)) (seq 0 (Z.to_nat n)).

Instance direct : LLIO memory := {|
  queue_read a p n h := (true, [(p, bytes_at h a n)], h);
  send_queued_reads := None; receive_queued_reads := None;
  queue_write a d h := (true, h); send_queued_writes := None;
|}.

Lemma bytes_at_length h a n : 0 <= n -> Z.of_nat (length (bytes_at h a n)) = n.
Proof. intros Hn. unfold bytes_at. rewrite length_map, length_seq. lia. Qed.

Instance direct_spec : LLIOSpec bytes_at (fun _ => True).
Proof.
  split; [apply bytes_at_length |]. intros rs h _. exists (delivered bytes_at h rs), h, h, 1, [], h. rewrite app_nil_r. split_and!; try done.
  induction rs as [| [[a p] n] rs IH]; [done |]. cbn. by rewrite IH.
Qed.

Definition card : Type := memory * list (Z * pointer * Z).
Instance queued : LLIO card := {|
  queue_read a p n h := (true, [], (fst h, snd h ++ [(a, p, n)]));
  send_queued_reads := Some (fun h => (true, h));
  receive_queued_reads := Some (fun h => (1, delivered bytes_at (fst h) (snd h), (fst h, [])));
  queue_write a d h := (true, h); send_queued_writes := None;
|}.

Instance queued_spec : LLIOSpec (fun h : card => bytes_at (fst h)) (fun h => snd h = []).
Proof.
  split; [intros h; apply bytes_at_length |]. intros rs [m q] Hq. cbn in Hq. subst q.
  exists [], (m, rs), (m, rs), 1, (delivered bytes_at m rs), (m, []). split_and!; try done.
  assert (forall q, queue_all rs (m, q) = (true, [], (m, q ++ rs))) as H; [| apply (H [])].
  induction rs as [| [[a p] n] rs IH]; intros q; cbn; [by rewrite app_nil_r |]. rewrite IH. cbn. by rewrite <- app_assoc.
Qed.

(** ** A card with two counters *)
#[local] Instance glibc : Realloc := {| realloc_ok := fun _ => true; junk := fun _ => 0xAA |}.

Definition tsc_entry : hm2_tram_entry_t := Entry 0x100 4 1.
Definition counter_entry : hm2_tram_entry_t := Entry 0x200 8 2.
Definition latch_entry : hm2_tram_entry_t := Entry 0x300 8 3.
Definition fresh : hostmot2_t := Hostmot2 [tsc_entry; counter_entry; latch_entry] None 0 [] None 0 ∅.
Definition after_allocation : hostmot2_t :=
  match hm2_allocate_tram_regions (fresh, fun _ : Z => 0) with (Ok _, (t, _)) => t | _ => fresh end.

Lemma after_allocation_ok : allocated after_allocation /\ tram_read_entries after_allocation = tram_read_entries fresh.
Proof.
  unfold after_allocation. destruct (allocate_fresh fresh (fun _ : Z => 0)) as (t & -> & Ha & He & _); try done.
  - repeat constructor; cbn; lia.
  - constructor.
  - by apply (bool_decide_unpack _).
Qed.

(** Counter 1 stands at 65541. *)
Definition card_memory : memory := fun a => nth (Z.to_nat (a - 0x204)) (if 0x204 <=? a then bytes_of (counter_word 500 65541) else []) 0.

Lemma second_allocation_overruns_witness :
  let t := {| after_allocation with tram_read_entries := tram_read_entries after_allocation ++ [Entry 0x400 4 4] |} in
  fst (hm2_allocate_tram_regions (t, fun _ : Z => 0)) = Crash.
Proof. intros t. apply (second_allocation_overruns t); [by vm_compute | reflexivity]. Defined.

Lemma tram_read_registers_witness : exists t' h',
  (hm2_tram_read ≫= fun _ => hm2_queue_read ≫= fun _ => hm2_finish_read) (after_allocation, (card_memory, [])) = (Ok tt, (t', h')) /\
  (p ← deref 2; load p 8) (t', h') = (Ok (bytes_at card_memory 0x200 8), (t', h')).
Proof.
  destruct after_allocation_ok as [Ha He].
  destruct (tram_read_registers _ _ after_allocation (card_memory, []) queued_spec eq_refl Ha) as (t' & h' & Hrun & _ & _ & _ & _ & _ & Hl).
  exists t', h'. split; [exact Hrun |]. apply (Hl counter_entry). rewrite He. apply list_elem_of_In. cbn. tauto.
Defined.

Lemma card_position_witness : exists t' h' e', encoder_period d1e_9 1 2 3 1 started (after_allocation, card_memory) = (Ok e', (t', h')) /\
  tracks 0 65541 e'.
Proof.
  destruct after_allocation_ok as [Ha He].
  assert (forall x, In x [tsc_entry; counter_entry; latch_entry] -> x ∈ tram_read_entries after_allocation) as Hin
    by (intros x Hx; rewrite He; by apply list_elem_of_In).
  destruct (card_position _ _ after_allocation card_memory d1e_9 tsc_entry counter_entry latch_entry 1 0 65530 (Reading 65541 500 0 0) started
    direct_spec I Ha) as (t' & h' & e' & Hrun & _ & Htr & _); try (apply Hin; cbn; tauto); try (cbn; lia).
  - split_and!; vm_compute; reflexivity.
  - split; reflexivity.
  - exists t', h', e'. split; [exact Hrun | exact Htr].
Defined.
