(* ===== verification/Sserial.v ===== *)
(** * Smart-serial ports of hostmot2 cards
      (modules/managed/drivers/hostmot2/hostmot2_core/src/sserial.c)

    A remote device packs its fields into up to three 32-bit registers; the
    driver packs and unpacks them, extends the counts of absolute encoders,
    and runs a state machine that starts, runs and stops each port.  [None] is
    undefined behaviour: a NULL pointer, a shift by the width of its type or
    more, a conversion out of range.  A pin that has not been created is
    [None].  Messages, the counters that limit them, and the discovery of the
    devices are not modelled. *)
From S2P Require Import Prelude Double.

Module Sserial.

Definition LBP_PAD : Z := 0x00.
Definition LBP_BITS : Z := 0x01.
Definition LBP_UNSIGNED : Z := 0x02.
Definition LBP_SIGNED : Z := 0x03.
Definition LBP_STREAM : Z := 0x06.
Definition LBP_BOOLEAN : Z := 0x07.
Definition LBP_ENCODER : Z := 0x08.
Definition LBP_FLOAT : Z := 0x10.
Definition LBP_ENCODER_H : Z := 0x18.
Definition LBP_ENCODER_L : Z := 0x28.

Record hm2_sserial_data_t := Conf { DataLength : Z; DataType : Z; DataDir : Z }.

Record hm2_sserial_pins_t := Pins {
  u32_pin : option Z;
  s32_pin : option Z;
  s32_pin2 : option Z;
  float_pin : option double;
  bit_pins : list bool;
  bit_pins_not : list bool;
  invert : list bool;
  boolean : option bool;
  boolean2 : option bool;
  maxlim : double;
  minlim : double;
  fullscale : double;
  u32_param : Z;
  graycode : bool;
  oldval : Z;                    (* s64 *)
  accum : Z;
  offset : Z;
}.

(** The registers that a remote device has. *)
Record regs := Regs { reg_0 : option Z; reg_1 : option Z; reg_2 : option Z }.

Record hm2_sserial_remote_t := Remote {
  confs : list hm2_sserial_data_t;
  pins : list hm2_sserial_pins_t;
  status : Z;
  reg_cs_read : Z;
  reg_cs_addr : Z;
  regs_read : regs;
  regs_write : regs;
  index : nat;
}.

(** ** Packing *)

(** Shifts of 64-bit values. *)
Definition shl (x n : Z) : option Z := if (0 <=? n) && (n <? 64) then Some (u64 (Z.shiftl x n)) else None.
Definition shr (x n : Z) : option Z := if (0 <=? n) && (n <? 64) then Some (Z.shiftr x n) else None.
(** The same of a [long long]; the bits that are shifted out at the top are lost. *)
Definition sshl (x n : Z) : option Z := if (0 <=? n) && (n <? 64) then Some (s64 (Z.shiftl x n)) else None.

Definition all_ones : Z := 2 ^ 64 - 1.

Definition getbits (r : regs) (start len : Z) : option Z :=
  let user0 := default 0 (reg_0 r) in
  let user1 := default 0 (reg_1 r) in
  let user2 := default 0 (reg_2 r) in
  mask ← s64 <$> shr all_ones (64 - len);
  x ← (if start + len <=? 32 then shr user0 start
       else if start + len <=? 64 then
         if 32 <=? start then shr user1 (start - 32)
         else h ← sshl user1 32; shr (Z.lor h user0) start
       else if 64 <=? start then shr user2 (start - 64)
       else if 32 <=? start then h ← sshl user2 32; shr (Z.lor h user1) (start - 32)
       else h ← sshl user2 (64 - start); m ← sshl user1 (32 - start); l ← shr user0 start; Some (Z.lor (Z.lor h m) l));
  Some (u64 (Z.land x mask)).

(** [*reg |= v], [*reg = v] *)
Definition or_reg (r : option Z) (v : Z) : option (option Z) := x ← r; Some (Some (u32 (Z.lor x v))).
Definition set_reg (r : option Z) (v : Z) : option (option Z) := _ ← r; Some (Some (u32 v)).

Definition setbits (r : regs) (val start len : Z) : option (regs * Z) :=
  let fin := start + len in
  r ← (if fin <=? 32 then
         mask0 ← shr all_ones (64 - len);
         v ← shl (Z.land val mask0) start; r0 ← or_reg (reg_0 r) v; Some {| r with reg_0 := r0 |}
       else if fin <=? 64 then
         if 32 <=? start then
           mask1 ← shr all_ones (64 - len);
           v ← shl (Z.land val mask1) (start - 32); r1 ← or_reg (reg_1 r) v; Some {| r with reg_1 := r1 |}
         else
           mask0 ← shr all_ones (32 + start);
           mask1 ← shr all_ones (96 - fin); mask1 ← shl mask1 (32 - start);
           v ← shl (Z.land val mask0) start; r0 ← or_reg (reg_0 r) v;
           w ← shr (Z.land val mask1) (32 - start); r1 ← or_reg (reg_1 r) w;
           Some {| r with reg_0 := r0; reg_1 := r1 |}
       else if 64 <=? start then
         mask2 ← shr all_ones (64 - len);
         v ← shl (Z.land val mask2) (start - 64); r2 ← or_reg (reg_2 r) v; Some {| r with reg_2 := r2 |}
       else if 32 <=? start then
         mask1 ← shr all_ones start;
         mask2 ← shr all_ones (128 - fin); mask2 ← shl mask2 (64 - start);
         v ← shl (Z.land val mask1) (start - 32); r1 ← or_reg (reg_1 r) v;
         w ← shr (Z.land val mask2) (64 - start); r2 ← or_reg (reg_2 r) w;
         Some {| r with reg_1 := r1; reg_2 := r2 |}
       else
         mask0 ← shr all_ones (32 + start);
         mask1 ← shl 0xFFFFFFFF (32 - start);
         mask2 ← shr all_ones (128 - fin); mask2 ← shl mask2 (64 - start);
         v ← shl (Z.land val mask0) start; r0 ← or_reg (reg_0 r) v;
         u ← shr (Z.land val mask1) (32 - start); r1 ← set_reg (reg_1 r) u;
         w ← shr (Z.land val mask2) (64 - start); r2 ← or_reg (reg_2 r) w;
         Some (Regs r0 r1 r2));
  Some (r, fin).

(** ** Floats *)
Abbreviation float := spec_float.

(** A double as the nearest float, a float as a double. *)
Definition to_float (d : double) : float :=
  match d with S754_finite s m e => binary_normalize 24 128 (if s then Zneg m else Zpos m) e s | _ => d end.
Definition of_float (f : float) : double :=
  match f with S754_finite s m e => binary_normalize 53 1024 (if s then Zneg m else Zpos m) e s | _ => f end.
Definition float_of_Z (z : Z) : float := binary_normalize 24 128 z 0 false.

(** The bit pattern of a float. *)
Definition bits_of_float32 (f : float) : Z :=
  let bit (s : bool) := if s then 2 ^ 31 else 0 in
  match f with
  | S754_zero s => bit s
  | S754_infinity s => bit s + 0x7f800000
  | S754_nan => 0x7fc00000
  | S754_finite s m e => bit s + if Zpos m <? 2 ^ 23 then Zpos m else (e + 150) * 2 ^ 23 + (Zpos m - 2 ^ 23)
  end.
Definition float32_of_bits (b : Z) : float :=
  let sign := negb (b / 2 ^ 31 mod 2 =? 0) in
  let exp := b / 2 ^ 23 mod 2 ^ 8 in
  let man := b mod 2 ^ 23 in
  if exp =? 255 then if man =? 0 then S754_infinity sign else S754_nan
  else
    match (if exp =? 0 then man else man + 2 ^ 23) with
    | Zpos m => S754_finite sign m (Z.max exp 1 - 150)
    | _ => S754_zero sign
    end.

(** A value as an unsigned integer of [w] bits; a fraction is cut off. *)
Definition to_uint (w : Z) (d : double) : option Z := z ← dbl_to_sint (w + 1) d; if 0 <=? z then Some z else None.

(** ** Writing the fields of a device *)
Fixpoint or_bits (n b : nat) (p : hm2_sserial_pins_t) (buff : Z) : option Z :=
  match n with
  | O => Some buff
  | S n =>
      v ← bit_pins p !! b; i ← invert p !! b;
      x ← shl (Z.b2z v) (Z.of_nat b); y ← shl (Z.b2z i) (Z.of_nat b);
      or_bits n (S b) p (Z.lor buff (Z.lxor x y))
  end.

(** The analog value within its limits, as a float. *)
Definition limited (p : hm2_sserial_pins_t) : option float :=
  v ← float_pin p;
  let val := to_float v in
  let val := if dlt (maxlim p) (of_float val) then to_float (maxlim p) else val in
  let val := if dlt (of_float val) (minlim p) then to_float (minlim p) else val in
  Some val.

(** The field of a pin and its configuration: the new value of [buff]. *)
Definition encode_pin (c : hm2_sserial_data_t) (p : hm2_sserial_pins_t) (buff : Z) : option (Z * hm2_sserial_data_t) :=
  let len := DataLength c in
  let t := DataType c in
  if t =? LBP_PAD then Some (buff, c)
  else if t =? LBP_BITS then b ← or_bits (Z.to_nat len) 0 p 0; Some (b, c)
  else if t =? LBP_UNSIGNED then
    val ← limited p; m ← shr all_ones (64 - len);
    x ← to_uint 32 (SFmul 24 128 (SFdiv 24 128 val (to_float (fullscale p))) (float_of_Z m)); Some (x, c)
  else if t =? LBP_SIGNED then
    val ← limited p; m ← shr all_ones (64 - len);
    x ← dbl_to_sint 32 (dmul (ddiv (of_float val) (fullscale p)) (dbl_of_Z 2147483647));
    if (0 <=? 32 - len) && (32 - len <? 32) then Some (Z.land (u64 (Z.shiftr x (32 - len))) m, c) else None
  else if t =? LBP_STREAM then v ← u32_pin p; m ← shr all_ones (64 - len); Some (Z.land v m, c)
  else if t =? LBP_BOOLEAN then
    v ← boolean p; i ← invert p !! O;
    if xorb v i then m ← shr all_ones (64 - len); Some (m, c) else Some (0, c)
  else if t =? LBP_ENCODER then Some (buff, c)
  else if t =? LBP_FLOAT then
    if len =? 32 then v ← float_pin p; Some (Z.lor (Z.land buff 0xFFFFFFFF00000000) (bits_of_float32 (to_float v)), c)
    else if len =? 64 then v ← float_pin p; Some (bits_of_float v, c)
    else Some (buff, {| c with DataType := 0 |})
  else Some (buff, c).

(** The loop over the fields: [buff] keeps its value from field to field. *)
Fixpoint write_pins (l : list (hm2_sserial_data_t * hm2_sserial_pins_t)) (r : regs) (buff bitcount : Z) : option (list hm2_sserial_data_t * regs * Z) :=
  match l with
  | [] => Some ([], r, buff)
  | (c, p) :: l =>
      '(c, r, buff, bitcount) ←
        (if negb (Z.land (DataDir c) 0xC0 =? 0) then
           '(buff, c') ← encode_pin c p buff;
           '(r, bitcount) ← setbits r buff bitcount (DataLength c);
           Some (c', r, buff, bitcount)
         else Some (c, r, buff, bitcount));
      '(cs, r, buff) ← write_pins l r buff bitcount;
      Some (c :: cs, r, buff)
  end.

Definition zero_regs (r : regs) : regs :=
  Regs ((fun _ => 0) <$> reg_0 r) ((fun _ => 0) <$> reg_1 r) ((fun _ => 0) <$> reg_2 r).

Definition write_remote (chan : hm2_sserial_remote_t) (buff : Z) : option (hm2_sserial_remote_t * Z) :=
  '(cs, r, buff) ← write_pins (zip (confs chan) (pins chan)) (zero_regs (regs_write chan)) buff 0;
  Some ({| chan with confs := cs ++ drop (length cs) (confs chan); regs_write := r |}, buff).

Fixpoint write_remotes (l : list hm2_sserial_remote_t) (buff : Z) : option (list hm2_sserial_remote_t * Z) :=
  match l with
  | [] => Some ([], buff)
  | chan :: l => '(chan, buff) ← write_remote chan buff; '(l, buff) ← write_remotes l buff; Some (chan :: l, buff)
  end.

(** ** Reading the fields of a device *)

(** The static variables of [hm2_sserial_read_pins]. *)
Record statics := Statics { h_flag : Z; l_flag : Z; bitshift : Z; buff_store : Z }.
Definition initial_statics : statics := Statics 0 0 1 0.

(** [for (mask = buff >> 1; mask != 0; mask >>= 1) buff ^= mask] *)
Fixpoint gray_loop (fuel : nat) (mask buff : Z) : Z :=
  match fuel with
  | O => buff
  | S fuel => if mask =? 0 then buff else gray_loop fuel (Z.shiftr mask 1) (Z.lxor buff mask)
  end.
Definition gray_decode (buff : Z) : Z := gray_loop 64 (Z.shiftr buff 1) buff.

(** [1 << n] as an int. *)
Definition int_shl1 (n : Z) : option Z := if (0 <=? n) && (n <? 31) then Some (2 ^ n) else None.

(** The new accumulated count: the difference to the old value, with a turn
    of the field added or taken off. *)
Definition accumulate (bitlength buff64 : Z) (p : hm2_sserial_pins_t) : option Z :=
  q ← int_shl1 (bitlength - 2); turn ← int_shl1 bitlength;
  let a :=
    if q <? s64 (buff64 - oldval p) then s64 (accum p - turn)
    else if q <? s64 (oldval p - buff64) then s64 (accum p + turn)
    else accum p in
  Some (s64 (a + s64 (buff64 - oldval p))).

(** The position of the index within a turn of [ppr] counts has been passed
    between [previous] and [a]: the new offset. *)
Definition index_offset (ppr previous a off : Z) : option Z :=
  let rem1 := s32 (Z.rem previous (s32 ppr)) in
  let rem2 := s32 (Z.rem a (s32 ppr)) in
  if (ppr / 2 <? Z.abs (rem1 - rem2)) || ((0 <=? rem1) && (rem2 <? 0)) || ((rem1 <? 0) && (0 <=? rem2)) then
    Some (if previous <? a then (if 0 <? a then s64 (a - rem2) else if a <? 0 then s64 (a - rem2) else 0)
          else if 0 <? a then s64 (a - rem2 + ppr) else if a <? 0 then s64 (a - rem2) else 0)
  else None.

Definition read_encoder (bitlength buff : Z) (p : hm2_sserial_pins_t) : option hm2_sserial_pins_t :=
  let buff := if graycode p then gray_decode buff else buff in
  sign ← (if (0 <=? bitlength - 1) && (bitlength - 1 <? 32) then Some (2 ^ (bitlength - 1)) else None);
  let buff64 := s64 (u64 (Z.lxor buff sign - sign)) in
  let previous := accum p in
  a ← accumulate bitlength buff64 p;
  rst ← boolean2 p;
  let off := if (rst : bool) then a else offset p in
  idx ← boolean p;
  let '(off, idx) :=
    if (idx : bool) && (0 <? u32_param p) then
      match index_offset (u32_param p) previous a off with Some o => (o, false) | None => (off, idx) end
    else (off, idx) in
  _ ← s32_pin p; _ ← s32_pin2 p; _ ← float_pin p;
  Some {| p with accum := a; offset := off; boolean := Some idx; oldval := buff64;
    s32_pin := Some (s32 (a - off)); s32_pin2 := Some (s32 a);
    float_pin := Some (ddiv (dbl_of_Z (s64 (a - off))) (fullscale p)) |}.

(** Every bit of [buff] to its pin. *)
Fixpoint bits_out (n b : nat) (buff : Z) (p : hm2_sserial_pins_t) : option hm2_sserial_pins_t :=
  match n with
  | O => Some p
  | S n =>
      let v := Z.testbit buff (Z.of_nat b) in
      _ ← bit_pins p !! b; _ ← bit_pins_not p !! b;
      bits_out n (S b) buff {| p with bit_pins := <[b := v]> (bit_pins p); bit_pins_not := <[b := negb v]> (bit_pins_not p) |}
  end.

(** What is done with the field [buff] of a pin. *)
Definition decode_pin (c : hm2_sserial_data_t) (p : hm2_sserial_pins_t) (buff : Z) (st : statics)
  : option (hm2_sserial_data_t * hm2_sserial_pins_t * statics) :=
  let len := DataLength c in
  let t := DataType c in
  if t =? LBP_PAD then Some (c, p, st)
  else if t =? LBP_BITS then p ← bits_out (Z.to_nat len) 0 buff p; Some (c, p, st)
  else if t =? LBP_UNSIGNED then
    let buff := if graycode p then gray_decode buff else buff in
    m ← int_shl1 len; _ ← float_pin p;
    Some (c, {| p with float_pin := Some (ddiv (dmul (dbl_of_Z buff) (fullscale p)) (dbl_of_Z (m - 1))) |}, st)
  else if t =? LBP_SIGNED then
    b ← shl (Z.land buff 0xFFFFFFFF) (32 - len); _ ← float_pin p;
    Some (c, {| p with float_pin := Some (dmul (ddiv (dbl_of_Z (s32 b)) (dbl_of_Z 2147483647)) (fullscale p)) |}, st)
  else if t =? LBP_STREAM then
    m ← shr all_ones (64 - len); _ ← u32_pin p; Some (c, {| p with u32_pin := Some (u32 (Z.land buff m)) |}, st)
  else if t =? LBP_BOOLEAN then
    _ ← boolean p; _ ← boolean2 p;
    Some (c, {| p with boolean := Some (negb (buff =? 0)); boolean2 := Some (buff =? 0) |}, st)
  else if t =? LBP_ENCODER then p ← read_encoder len buff p; Some (c, p, st)
  else if (t =? LBP_ENCODER_H) || (t =? LBP_ENCODER_L) then
    st ← (if t =? LBP_ENCODER_H
          then b ← shl buff (bitshift st); Some {| st with h_flag := len; buff_store := Z.lor (buff_store st) b |}
          else Some {| st with l_flag := len; bitshift := len; buff_store := Z.lor (buff_store st) buff |});
    if (h_flag st =? 0) || (l_flag st =? 0) then Some (c, p, st)
    else
      p ← read_encoder (h_flag st + l_flag st) (buff_store st) p;
      Some (c, p, {| st with h_flag := 0; l_flag := 0; buff_store := 0 |})
  else if t =? LBP_FLOAT then
    if len =? 32 then _ ← float_pin p; Some (c, {| p with float_pin := Some (of_float (float32_of_bits (Z.land buff 0xFFFFFFFF))) |}, st)
    else if len =? 64 then _ ← float_pin p; Some (c, {| p with float_pin := Some (float_of_bits buff) |}, st)
    else Some ({| c with DataType := 0 |}, p, st)
  else Some (c, p, st).

Fixpoint read_fields (l : list (hm2_sserial_data_t * hm2_sserial_pins_t)) (r : regs) (bitcount : Z) (st : statics)
  : option (list (hm2_sserial_data_t * hm2_sserial_pins_t) * statics) :=
  match l with
  | [] => Some ([], st)
  | (c, p) :: l =>
      '(c, p, bitcount, st) ←
        (if Z.land (DataDir c) 0x80 =? 0 then
           buff ← getbits r bitcount (DataLength c);
           '(c', p, st) ← decode_pin c p buff st;
           Some (c', p, bitcount + DataLength c, st)
         else Some (c, p, bitcount, st));
      '(l, st) ← read_fields l r bitcount st;
      Some ((c, p) :: l, st)
  end.

Definition hm2_sserial_read_pins (chan : hm2_sserial_remote_t) (st : statics) : option (hm2_sserial_remote_t * statics) :=
  '(l, st) ← read_fields (zip (confs chan) (pins chan)) (regs_read chan) 0 st;
  Some ({| chan with status := reg_cs_read chan;
    confs := map fst l ++ drop (length l) (confs chan); pins := map snd l ++ drop (length l) (pins chan) |}, st).

(** ** The ports *)
Record hm2_sserial_instance_t := Inst {
  remotes : list hm2_sserial_remote_t;
  tag : Z;
  command_reg_read : Z;
  command_reg_write : Z;
  fault_count : Z;               (* u32 pins and parameters *)
  fault_inc : Z;
  fault_dec : Z;
  fault_lim : Z;
  run : bool;
  state : Z;
  timer : Z;                     (* u32 *)
  modes : list Z;                (* of the module's configuration, as characters *)
}.

(** Writes that do not go through the copies of the registers. *)
Definition writes : Type := list (Z * Z).

Definition hm2_sserial_setmode (inst : hm2_sserial_instance_t) : option writes :=
  foldr (fun chan acc =>
    ws ← acc; m ← modes inst !! index chan;
    Some (if m =? 120 then ws else (reg_cs_addr chan, u32 (Z.shiftl (m - 48) 24)) :: ws)) (Some []) (remotes inst).

(** Is one of the bits 31 to 1 that mean an error set? *)
Definition hm2_sserial_check_errors (inst : hm2_sserial_instance_t) : Z :=
  if existsb (fun chan => existsb (fun i => Z.testbit (Z.land (status chan) 0xFF00E1FF) (Z.of_nat i)) (seq 1 31)) (remotes inst)
  then - EINVAL else 0.

(** One turn of the loop of [hm2_sserial_prepare_tram_write]: the port, the
    direct writes, [buff], and whether the function returns. *)
Definition prepare_port (period : Z) (inst : hm2_sserial_instance_t) (buff : Z) : option (hm2_sserial_instance_t * writes * Z * bool) :=
  let go inst := Some (inst, [], buff, false) in
  if state inst =? 0 then
    if negb (run inst) then Some (inst, [], buff, true)
    else
      ws ← hm2_sserial_setmode inst;
      Some ({| inst with state := 0x11; timer := 0; command_reg_write := u32 (Z.lor 0x900 (tag inst)); fault_count := 0 |}, ws, buff, false)
  else if state inst =? 0x01 then
    if negb (run inst) then go {| inst with state := 0x02 |}
    else if fault_lim inst <? fault_count inst then go {| inst with state := 0x20; run := false; command_reg_write := 0x800 |}
    else if negb (command_reg_read inst =? 0) then
      go {| inst with fault_count := u32 (fault_count inst + fault_inc inst); command_reg_write := 0x80000000 |}
    else
      let inst := if hm2_sserial_check_errors inst =? 0 then inst else {| inst with fault_count := u32 (fault_count inst + fault_inc inst) |} in
      let inst := {| inst with fault_count := if fault_dec inst <? fault_count inst then fault_count inst - fault_dec inst else 0 |} in
      '(l, buff) ← write_remotes (remotes inst) buff;
      Some ({| inst with remotes := l; command_reg_write := u32 (Z.lor 0x1000 (tag inst)) |}, [], buff, false)
  else if state inst =? 0x02 then go {| inst with state := 0x10; timer := 0; command_reg_write := 0x800 |}
  else if (state inst =? 0x10) || (state inst =? 0x11) then
    let inst := {| inst with timer := u32 (timer inst + period) |} in
    let next inst := go {| inst with state := Z.land (state inst) 0x0F; command_reg_write := 0x80000000 |} in
    if negb (command_reg_read inst =? 0) then
      if timer inst <? 2100000000 then go inst
      else next {| inst with fault_count := u32 (fault_count inst + fault_inc inst) |}
    else next inst
  else if state inst =? 0x20 then
    go {| inst with command_reg_write := 0x80000000; state := if run inst then state inst else 0x02 |}
  else go {| inst with state := 0 |}.

Fixpoint hm2_sserial_prepare_tram_write (period : Z) (l : list hm2_sserial_instance_t) (buff : Z) : option (list hm2_sserial_instance_t * writes) :=
  match l with
  | [] => Some ([], [])
  | inst :: l =>
      '(inst, ws, buff, ret) ← prepare_port period inst buff;
      if ret : bool then Some (inst :: l, ws)
      else '(l, ws') ← hm2_sserial_prepare_tram_write period l buff; Some (inst :: l, ws ++ ws')
  end.

Fixpoint read_remotes (l : list hm2_sserial_remote_t) (st : statics) : option (list hm2_sserial_remote_t * statics) :=
  match l with
  | [] => Some ([], st)
  | chan :: l => '(chan, st) ← hm2_sserial_read_pins chan st; '(l, st) ← read_remotes l st; Some (chan :: l, st)
  end.

Fixpoint hm2_sserial_process_tram_read (l : list hm2_sserial_instance_t) (st : statics) : option (list hm2_sserial_instance_t * statics) :=
  match l with
  | [] => Some ([], st)
  | inst :: l =>
      '(inst, st) ← (if negb (state inst =? 0x01) then Some (inst, st)
                     else '(r, st) ← read_remotes (remotes inst) st; Some ({| inst with remotes := r |}, st));
      '(l, st) ← hm2_sserial_process_tram_read l st;
      Some (inst :: l, st)
  end.

End Sserial.
