(* ===== verification/SserialTheorems.v ===== *)
(** * Theorems about the smart-serial ports

    Fields are packed and unpacked at the same places; the count of an
    absolute encoder follows its position; a port whose device no longer
    answers is stopped and becomes idle. *)
From S2P Require Import Prelude Double Sserial.
Import Sserial.

(** ** Bits *)
Lemma testbit_wrapu w x i : 0 <= w -> 0 <= i -> Z.testbit (wrapu w x) i = (i <? w) && Z.testbit x i.
Proof. intros Hw Hi. unfold wrapu. by apply Z.testbit_mod_pow2. Qed.

Lemma testbit_wraps_low w x i : 0 < w -> 0 <= i < w -> Z.testbit (wraps w x) i = Z.testbit x i.
Proof.
  intros Hw Hi. rewrite <- (Z.mod_pow2_bits_low (wraps w x) w i), <- (Z.mod_pow2_bits_low x w i) by lia. by rewrite wraps_mod.
Qed.

Lemma testbit_high a n i : 0 <= a < 2 ^ n -> n <= i -> Z.testbit a i = false.
Proof.
  intros Ha Hi. destruct (Z.lt_ge_cases n 0) as [Hn | Hn]; [rewrite Z.pow_neg_r in Ha by done; lia |].
  rewrite <- (Z.mod_small a (2 ^ n)) by done. by apply Z.mod_pow2_bits_high.
Qed.

Lemma shr_ones n : 0 <= n < 64 -> shr all_ones n = Some (Z.ones (64 - n)).
Proof.
  intros Hn. unfold shr. rewrite (proj2 (Z.leb_le 0 n)), (proj2 (Z.ltb_lt n 64)) by lia. cbn [andb]. f_equal.
  unfold all_ones. replace (2 ^ 64 - 1) with (Z.ones 64) by done. rewrite Z.ones_equiv, Z.shiftr_div_pow2 by lia.
  rewrite Z.ones_equiv. replace (2 ^ 64) with (2 ^ (64 - n) * 2 ^ n) by (rewrite <- Z.pow_add_r by lia; f_equal; lia).
  assert (0 < 2 ^ n) by (apply Z.pow_pos_nonneg; lia). symmetry. apply (Z.div_unique _ _ _ (2 ^ n - 1)); lia.
Qed.

Lemma shr_some x n : 0 <= n < 64 -> shr x n = Some (Z.shiftr x n).
Proof. intros Hn. unfold shr. by rewrite (proj2 (Z.leb_le 0 n)), (proj2 (Z.ltb_lt n 64)) by lia. Qed.
Lemma shl_some x n : 0 <= n < 64 -> shl x n = Some (u64 (Z.shiftl x n)).
Proof. intros Hn. unfold shl. by rewrite (proj2 (Z.leb_le 0 n)), (proj2 (Z.ltb_lt n 64)) by lia. Qed.
Lemma sshl_some x n : 0 <= n < 64 -> sshl x n = Some (s64 (Z.shiftl x n)).
Proof. intros Hn. unfold sshl. by rewrite (proj2 (Z.leb_le 0 n)), (proj2 (Z.ltb_lt n 64)) by lia. Qed.

(** The registers as one number of 96 bits. *)
Definition value (r : regs) : Z := Z.lor (default 0 (reg_0 r)) (Z.lor (Z.shiftl (default 0 (reg_1 r)) 32) (Z.shiftl (default 0 (reg_2 r)) 64)).
Definition reg_ok (r : option Z) : Prop := 0 <= default 0 r < 2 ^ 32.
Definition regs_ok (r : regs) : Prop := reg_ok (reg_0 r) /\ reg_ok (reg_1 r) /\ reg_ok (reg_2 r).
(** There is a register for each of the first [n] bits. *)
Definition covers (r : regs) (n : Z) : Prop := (0 < n -> is_Some (reg_0 r)) /\ (32 < n -> is_Some (reg_1 r)) /\ (64 < n -> is_Some (reg_2 r)).

(** A field of a number. *)
Definition slice (v start len : Z) : Z := Z.land (Z.shiftr v start) (Z.ones len).

Ltac bit_rewrite :=
  repeat first [rewrite Z.land_spec | rewrite Z.lor_spec | rewrite Z.shiftl_spec by lia | rewrite Z.shiftr_spec by lia
    | rewrite testbit_wrapu by lia | rewrite testbit_wraps_low by lia | rewrite Z.testbit_ones_nonneg by lia].
Ltac bit_known :=
  repeat match goal with
  | |- context [Z.testbit ?a ?j] => first [rewrite (Z.testbit_neg_r a j) by lia | rewrite (testbit_high a 32 j) by lia]
  end.
Ltac bit_cmp :=
  repeat match goal with
  | |- context [?a <? ?b] => first [rewrite (proj2 (Z.ltb_lt a b)) by lia | rewrite (proj2 (Z.ltb_ge a b)) by lia]
  end.
Ltac bit_cmp_in H :=
  repeat match type of H with
  | context [?a <? ?b] => first [rewrite (proj2 (Z.ltb_lt a b)) in H by lia | rewrite (proj2 (Z.ltb_ge a b)) in H by lia]
  end.
Ltac bit_done := rewrite ?orb_false_r, ?orb_false_l, ?andb_true_l, ?andb_true_r, ?andb_false_l, ?andb_false_r, ?orb_false_r, ?orb_false_l;
  try reflexivity; try (f_equal; lia).

Lemma getbits_spec r start len : regs_ok r -> 0 <= start -> 1 <= len <= 64 -> start + len <= 96 ->
  getbits r start len = Some (slice (value r) start len).
Proof.
  intros (H0 & H1 & H2) Hs Hl He. unfold reg_ok in *. unfold getbits, value, slice.
  generalize dependent (default 0 (reg_0 r)). generalize dependent (default 0 (reg_1 r)). generalize dependent (default 0 (reg_2 r)).
  intros u2 H2 u1 H1 u0 H0. rewrite shr_ones by lia. cbn [fmap option_fmap option_map mbind option_bind].
  replace (64 - (64 - len)) with len by lia.
  assert (forall x, (forall i, 0 <= i < len -> Z.testbit x i = Z.testbit (Z.lor u0 (Z.lor (Z.shiftl u1 32) (Z.shiftl u2 64))) (i + start)) ->
    Some (u64 (Z.land x (s64 (Z.ones len)))) = Some (Z.land (Z.shiftr (Z.lor u0 (Z.lor (Z.shiftl u1 32) (Z.shiftl u2 64))) start) (Z.ones len))) as Hx.
  { intros x Hx. f_equal. apply Z.bits_inj'. intros i Hi. rewrite testbit_wrapu, !Z.land_spec, Z.shiftr_spec, Z.testbit_ones_nonneg by lia.
    destruct (Z.ltb_spec i 64); [| bit_cmp; by rewrite andb_false_r]. rewrite testbit_wraps_low, Z.testbit_ones_nonneg by lia.
    destruct (Z.ltb_spec i len); [by rewrite Hx by lia | by rewrite !andb_false_r]. }
  repeat match goal with |- context [if ?c then _ else _] => destruct c eqn:? end; zb;
    rewrite ?sshl_some, ?shr_some by lia; cbn [mbind option_bind];
    rewrite ?shr_some by lia; cbn [mbind option_bind]; apply Hx; intros i Hi;
    destruct (Z.lt_ge_cases (i + start) 32), (Z.lt_ge_cases (i + start) 64); try lia; bit_rewrite; bit_known; bit_done.
Qed.

Lemma value_testbit r i : regs_ok r -> 0 <= i -> Z.testbit (value r) i =
  if i <? 32 then Z.testbit (default 0 (reg_0 r)) i else if i <? 64 then Z.testbit (default 0 (reg_1 r)) (i - 32) else Z.testbit (default 0 (reg_2 r)) (i - 64).
Proof.
  intros (H0 & H1 & H2) Hi. unfold reg_ok, value in *.
  destruct (Z.ltb_spec i 32); [| destruct (Z.ltb_spec i 64)]; bit_rewrite; bit_known; bit_done.
Qed.

(** A field goes to its place, whatever registers it crosses. *)
Lemma setbits_spec r val start len : regs_ok r -> 0 <= start -> 1 <= len <= 64 -> start + len <= 96 -> covers r (start + len) ->
  0 <= val < 2 ^ 64 -> (forall i, start <= i -> Z.testbit (value r) i = false) ->
  exists r', setbits r val start len = Some (r', start + len) /\ regs_ok r' /\ (forall n, covers r n -> covers r' n) /\
    forall i, 0 <= i -> Z.testbit (value r') i = if i <? start then Z.testbit (value r) i else (i <? start + len) && Z.testbit val (i - start).
Proof.
  intros Hok Hs Hl He (C0 & C1 & C2) Hv Hz. pose proof Hok as (H0 & H1 & H2). unfold setbits.
  destruct r as [r0 r1 r2]. cbn [reg_0 reg_1 reg_2] in *. unfold reg_ok in *.
  assert (forall x, 0 <= u32 x < 2 ^ 32) as Hw by (intros x; apply wrapu_range; lia).
  assert (forall r', regs_ok r' -> (forall n, covers (Regs r0 r1 r2) n -> covers r' n) ->
    (forall i, 0 <= i -> start <= i -> Z.testbit (value (Regs r0 r1 r2)) i = false ->
      Z.testbit (value r') i = (i <? start + len) && Z.testbit val (i - start)) ->
    (forall i, 0 <= i -> i < start -> Z.testbit (value r') i = Z.testbit (value (Regs r0 r1 r2)) i) ->
    exists r'', Some (r', start + len) = Some (r'', start + len) /\ regs_ok r'' /\ (forall n, covers (Regs r0 r1 r2) n -> covers r'' n) /\
      forall i, 0 <= i -> Z.testbit (value r'') i = if i <? start then Z.testbit (value (Regs r0 r1 r2)) i else (i <? start + len) && Z.testbit val (i - start))
    as Hfin.
  { intros r' Hr' Hc Hhi Hlo. exists r'. do 3 (split; [done |]). intros i Hi. destruct (Z.ltb_spec i start); [by apply Hlo | by apply Hhi, Hz]. }
  repeat match goal with |- context [if ?c then _ else _] => destruct c eqn:? end; zb.
  all: rewrite ?shr_ones by lia; cbn [mbind option_bind]; rewrite ?shl_some by lia; cbn [mbind option_bind]; rewrite ?shr_some by lia; cbn [mbind option_bind].
  all: try (destruct C0 as [u0 ->]; [lia |]); try (destruct C1 as [u1 ->]; [lia |]); try (destruct C2 as [u2 ->]; [lia |]).
  all: cbn [or_reg set_reg mbind option_bind default reg_0 reg_1 reg_2] in *; rewrite ?shr_some by lia; cbn [mbind option_bind or_reg set_reg].
  all: assert (forall a b c, 0 <= default 0 a < 2 ^ 32 -> 0 <= default 0 b < 2 ^ 32 -> 0 <= default 0 c < 2 ^ 32 -> regs_ok (Regs a b c)) as Hmk by done.
  all: apply Hfin; [apply Hmk; first [apply Hw | assumption] | intros n (A & B & C); split_and!; cbn in *; auto | |].
  all: intros i Hi Hi2; rewrite !value_testbit by (first [lia | apply Hmk; first [apply Hw | assumption]]); cbn [reg_0 reg_1 reg_2 default]; try intros Hzi.
  all: destruct (Z.lt_ge_cases i 32), (Z.lt_ge_cases i 64), (Z.lt_ge_cases i (start + len)); try lia; bit_cmp.
  all: unfold id in *; change 4294967295 with (Z.ones 32); cbn [default] in *; try bit_cmp_in Hzi; bit_rewrite; bit_cmp; try rewrite Hzi; bit_known; bit_done.
Qed.

(** ** Fields one behind the other *)

(** Fields are a value and a length. *)
Fixpoint pack (l : list (Z * Z)) (r : regs) (start : Z) : option (regs * Z) :=
  match l with [] => Some (r, start) | (v, len) :: l => '(r, start) ← setbits r v start len; pack l r start end.
Fixpoint unpack (lens : list Z) (r : regs) (start : Z) : option (list Z) :=
  match lens with [] => Some [] | len :: l => x ← getbits r start len; xs ← unpack l r (start + len); Some (x :: xs) end.

Definition field_ok (f : Z * Z) : Prop := 0 <= fst f < 2 ^ 64 /\ 1 <= snd f <= 64.
Fixpoint bits (l : list (Z * Z)) : Z := match l with [] => 0 | f :: l => snd f + bits l end.

Lemma bits_nonneg l : Forall field_ok l -> 0 <= bits l.
Proof. induction 1 as [| f l [_ Hf] Hl IH]; cbn; lia. Qed.

Lemma slice_field v val start len : 0 <= start -> 0 <= len -> 0 <= val ->
  (forall i, start <= i < start + len -> Z.testbit v i = Z.testbit val (i - start)) -> slice v start len = val mod 2 ^ len.
Proof.
  intros Hs Hl Hv Hb. unfold slice. rewrite <- Z.land_ones by done. apply Z.bits_inj'. intros i Hi.
  rewrite !Z.land_spec, Z.shiftr_spec, Z.testbit_ones_nonneg by lia. destruct (Z.ltb_spec i len); [| by rewrite !andb_false_r].
  rewrite Hb by lia. do 2 f_equal. lia.
Qed.

Lemma pack_spec l r start : Forall field_ok l -> regs_ok r -> 0 <= start -> start + bits l <= 96 -> covers r (start + bits l) ->
  (forall i, start <= i -> Z.testbit (value r) i = false) ->
  exists r', pack l r start = Some (r', start + bits l) /\ regs_ok r' /\
    (forall i, 0 <= i < start -> Z.testbit (value r') i = Z.testbit (value r) i) /\
    unpack (map snd l) r' start = Some (map (fun f => fst f mod 2 ^ snd f) l).
Proof.
  intros Hl. revert r start. induction Hl as [| [v len] l [Hv Hf] Hl IH]; intros r start Hr Hs Hb Hc Hz; cbn [pack bits map unpack fst snd] in *.
  { exists r. rewrite Z.add_0_r. split_and!; done. }
  pose proof (bits_nonneg l Hl) as Hn.
  destruct (setbits_spec r v start len) as (r1 & -> & Hr1 & Hc1 & Hb1); try done; try lia.
  { destruct Hc as (A & B & C). split_and!; intros; [apply A | apply B | apply C]; lia. }
  cbn [mbind option_bind].
  destruct (IH r1 (start + len)) as (r' & -> & Hr' & Hlow & Hun); [done | lia | lia | rewrite <- Z.add_assoc; by apply Hc1 | |].
  { intros i Hi. rewrite Hb1 by lia. by rewrite (proj2 (Z.ltb_ge i start)), (proj2 (Z.ltb_ge i (start + len))) by lia. }
  exists r'. split; [f_equal; f_equal; lia |]. split; [done |]. split.
  - intros i Hi. rewrite Hlow, Hb1 by lia. by rewrite (proj2 (Z.ltb_lt i start)) by lia.
  - rewrite getbits_spec by (done || lia). cbn [mbind option_bind]. rewrite Hun. cbn [mbind option_bind]. do 2 f_equal.
    apply slice_field; try lia. intros i Hi. rewrite Hlow, Hb1 by lia.
    by rewrite (proj2 (Z.ltb_ge i start)), (proj2 (Z.ltb_lt i (start + len))) by lia.
Qed.

(** C38: Unpacking what was packed.  Fields of 1 to 64 bits, 96 together, are
    stored into cleared registers one behind the other; reading them with the
    same lengths gives every value back, cut to its length, also where a
    field crosses one or two borders of registers. *)
Theorem fields_roundtrip l r : Forall field_ok l -> bits l <= 96 -> covers r (bits l) ->
  exists r', pack l (zero_regs r) 0 = Some (r', bits l) /\ unpack (map snd l) r' 0 = Some (map (fun f => fst f mod 2 ^ snd f) l).
Proof.
  intros Hl Hb (A & B & C). assert (regs_ok (zero_regs r)) as Hok by (destruct r as [[] [] []]; split_and!; unfold reg_ok, id; cbn; unfold id; lia).
  assert (value (zero_regs r) = 0) as Hv by (by destruct r as [[] [] []]).
  destruct (pack_spec l (zero_regs r) 0) as (r' & Hp & _ & _ & Hu); [done | done | lia | lia | | | by exists r'].
  - split_and!; cbn; rewrite fmap_is_Some; auto.
  - intros i _. by rewrite Hv, Z.bits_0.
Qed.

(** ** Gray code *)
Lemma gray_loop_spec fuel k p : 0 <= p < 2 ^ 64 -> 0 <= k -> k + Z.of_nat fuel = 65 ->
  gray_loop fuel (Z.shiftr (Z.lxor p (Z.shiftr p 1)) k) (Z.lxor p (Z.shiftr p k)) = p.
Proof.
  intros Hp. revert k. induction fuel as [| fuel IH]; intros k Hk Hf; cbn [gray_loop].
  - rewrite Z.shiftr_div_pow2, (Z.div_small p), Z.lxor_0_r; [done | | lia]. split; [lia |]. eapply Z.lt_le_trans; [apply Hp |]. apply Z.pow_le_mono_r; lia.
  - rewrite Z.shiftr_lxor, Z.shiftr_shiftr by lia. destruct (Z.eqb_spec (Z.lxor (Z.shiftr p k) (Z.shiftr p (1 + k))) 0) as [E | E].
    + apply Z.lxor_eq in E. assert (Z.shiftr p k = 0) as ->; [| apply Z.lxor_0_r].
      rewrite (Z.add_comm 1 k), <- Z.shiftr_shiftr, (Z.shiftr_div_pow2 (Z.shiftr p k) 1) in E by lia.
      pose proof (proj2 (Z.shiftr_nonneg p k) ltac:(lia)). Z.div_mod_to_equations. lia.
    + rewrite Z.shiftr_lxor, !Z.shiftr_shiftr by lia.
      replace (Z.lxor (Z.lxor p (Z.shiftr p k)) (Z.lxor (Z.shiftr p k) (Z.shiftr p (1 + k)))) with (Z.lxor p (Z.shiftr p (1 + k)))
        by (rewrite Z.lxor_assoc, <- (Z.lxor_assoc (Z.shiftr p k) (Z.shiftr p k)), Z.lxor_nilpotent, Z.lxor_0_l; done).
      specialize (IH (1 + k) ltac:(lia) ltac:(lia)). rewrite Z.shiftr_lxor, !Z.shiftr_shiftr in IH by lia.
      replace (k + 1) with (1 + k) by lia. replace (1 + k + 1) with (1 + (1 + k)) by lia. exact IH.
Qed.

Definition gray_encode (p : Z) : Z := Z.lxor p (Z.shiftr p 1).

Lemma gray_decode_encode p : 0 <= p < 2 ^ 64 -> gray_decode (gray_encode p) = p.
Proof.
  intros Hp. unfold gray_decode, gray_encode.
  pose proof (gray_loop_spec 64 1 p Hp ltac:(lia) ltac:(lia)) as H. by rewrite H.
Qed.

(** ** Absolute encoders *)
Lemma sign_extend bl x : 1 <= bl <= 32 -> 0 <= x < 2 ^ bl -> s64 (u64 (Z.lxor x (2 ^ (bl - 1)) - 2 ^ (bl - 1))) = wraps bl x.
Proof.
  intros Hb Hx. assert (2 ^ bl = 2 * 2 ^ (bl - 1)) as E by (rewrite <- Z.pow_succ_r by lia; f_equal; lia).
  assert (2 ^ (bl - 1) <= 2 ^ 31) as Hle by (apply Z.pow_le_mono_r; lia). assert (0 < 2 ^ (bl - 1)) as Hpos by (apply Z.pow_pos_nonneg; lia).
  assert (forall y, 0 <= y < 2 ^ (bl - 1) -> Z.land y (2 ^ (bl - 1)) = 0) as Hland.
  { intros y Hy. apply Z.bits_inj'. intros i Hi. rewrite Z.land_spec, Z.bits_0, Z.pow2_bits_eqb by lia.
    destruct (Z.eqb_spec (bl - 1) i) as [<- |]; [| by rewrite andb_false_r]. by rewrite (testbit_high y (bl - 1)) by lia. }
  assert (s64 (u64 (Z.lxor x (2 ^ (bl - 1)) - 2 ^ (bl - 1))) = Z.lxor x (2 ^ (bl - 1)) - 2 ^ (bl - 1) /\
    Z.lxor x (2 ^ (bl - 1)) - 2 ^ (bl - 1) = wraps bl x) as [-> ->]; [| done].
  destruct (Z.lt_ge_cases x (2 ^ (bl - 1))) as [Hlt | Hge].
  - rewrite <- Z.add_nocarry_lxor by (apply Hland; lia). rewrite (wraps_small bl x) by lia.
    replace (x + 2 ^ (bl - 1) - 2 ^ (bl - 1)) with x by lia. rewrite wrapu_small, wraps_small by lia. done.
  - pose (y := x - 2 ^ (bl - 1)). assert (x = Z.lxor y (2 ^ (bl - 1))) as Hxy by (rewrite <- Z.add_nocarry_lxor by (apply Hland; lia); lia).
    rewrite Hxy, Z.lxor_assoc, Z.lxor_nilpotent, Z.lxor_0_r, <- Hxy. split.
    + rewrite <- (wraps_small 64 (y - 2 ^ (bl - 1))) at 2 by lia. apply wraps_congr. apply wrapu_idemp.
    + rewrite <- (wraps_small bl (y - 2 ^ (bl - 1))) by lia. apply wraps_congr. unfold y.
      replace x with (x - 2 ^ (bl - 1) - 2 ^ (bl - 1) + 1 * 2 ^ bl) at 2 by lia. by rewrite Z.mod_add by lia.
Qed.

(** The differences of two wrapped positions. *)
Lemma wraps_diff bl p p' : 1 <= bl -> exists k, -1 <= k <= 1 /\ wraps bl p' - wraps bl p = p' - p + k * 2 ^ bl \/
  2 ^ bl < Z.abs (p' - p).
Proof.
  intros Hb. pose proof (wraps_range bl p ltac:(lia)) as H1. pose proof (wraps_range bl p' ltac:(lia)) as H2.
  assert (2 ^ bl = 2 * 2 ^ (bl - 1)) as E by (rewrite <- Z.pow_succ_r by lia; f_equal; lia). assert (0 < 2 ^ bl) by (apply Z.pow_pos_nonneg; lia).
  pose proof (wraps_mod bl p ltac:(lia)) as M1. pose proof (wraps_mod bl p' ltac:(lia)) as M2.
  pose proof (Z.div_mod (wraps bl p) (2 ^ bl) ltac:(lia)). pose proof (Z.div_mod p (2 ^ bl) ltac:(lia)).
  pose proof (Z.div_mod (wraps bl p') (2 ^ bl) ltac:(lia)). pose proof (Z.div_mod p' (2 ^ bl) ltac:(lia)).
  exists ((wraps bl p' / 2 ^ bl - p' / 2 ^ bl) - (wraps bl p / 2 ^ bl - p / 2 ^ bl)).
  destruct (Z.lt_ge_cases (2 ^ bl) (Z.abs (p' - p))) as [| Hle]; [by right | left].
  assert (wraps bl p' - wraps bl p = p' - p + ((wraps bl p' / 2 ^ bl - p' / 2 ^ bl) - (wraps bl p / 2 ^ bl - p / 2 ^ bl)) * 2 ^ bl) as Heq by nia.
  split; [nia | exact Heq].
Qed.

(** The pin has accumulated the position [pos], up to a constant. *)
Definition encoder_at (bl base pos : Z) (p : hm2_sserial_pins_t) : Prop :=
  oldval p = wraps bl pos /\ accum p = pos + base /\
  is_Some (s32_pin p) /\ is_Some (s32_pin2 p) /\ is_Some (float_pin p) /\ is_Some (boolean p) /\ is_Some (boolean2 p).

Lemma accumulate_exact bl base pos pos' p : 2 <= bl <= 30 -> encoder_at bl base pos p -> Z.abs (pos' - pos) <= 2 ^ (bl - 2) ->
  Z.abs (pos + base) <= 2 ^ 62 -> accumulate bl (wraps bl pos') p = Some (pos' + base).
Proof.
  intros Hb (Ho & Ha & _) Hd Hbig. unfold accumulate, int_shl1. repeat rewrite (proj2 (Z.leb_le _ _)) by lia. repeat rewrite (proj2 (Z.ltb_lt _ 31)) by lia.
  cbn [andb mbind option_bind]. rewrite Ho, Ha.
  assert (2 ^ bl = 4 * 2 ^ (bl - 2)) as E by (replace bl with (2 + (bl - 2)) at 1 by lia; rewrite Z.pow_add_r by lia; done).
  assert (0 < 2 ^ (bl - 2) <= 2 ^ 28) as Hq by (split; [apply Z.pow_pos_nonneg; lia | apply Z.pow_le_mono_r; lia]).
  destruct (wraps_diff bl pos pos' ltac:(lia)) as (k & [[Hk Hdiff] | Hfar]); [| lia].
  replace (wraps bl pos - wraps bl pos') with (- (wraps bl pos' - wraps bl pos)) by lia.
  rewrite Hdiff. f_equal. clear Hdiff.
  assert (k = -1 \/ k = 0 \/ k = 1) as [-> | [-> | ->]] by lia; rewrite !(wraps_small 64 (- _)), !(wraps_small 64 (pos' - pos + _)) by lia.
  - rewrite (proj2 (Z.ltb_ge _ _)), (proj2 (Z.ltb_lt _ _)) by lia. rewrite (wraps_small 64 (pos + base + 2 ^ bl)), wraps_small by lia. lia.
  - rewrite (proj2 (Z.ltb_ge _ _)), (proj2 (Z.ltb_ge _ _)) by lia. rewrite wraps_small by lia. lia.
  - rewrite (proj2 (Z.ltb_lt _ _)) by lia. rewrite (wraps_small 64 (pos + base - 2 ^ bl)), wraps_small by lia. lia.
Qed.

(** What the device sends for a position. *)
Definition sent (bl pos : Z) (p : hm2_sserial_pins_t) : Z := if graycode p then gray_encode (pos mod 2 ^ bl) else pos mod 2 ^ bl.

Lemma read_encoder_exact bl base pos pos' p : 2 <= bl <= 30 -> encoder_at bl base pos p -> Z.abs (pos' - pos) <= 2 ^ (bl - 2) ->
  Z.abs (pos + base) <= 2 ^ 62 ->
  exists p', read_encoder bl (sent bl pos' p) p = Some p' /\ encoder_at bl base pos' p' /\ graycode p' = graycode p /\
    u32_param p' = u32_param p /\ boolean2 p' = boolean2 p /\
    s32_pin p' = Some (s32 (pos' + base - offset p')) /\
    (boolean2 p = Some true -> boolean p = Some false -> s32_pin p' = Some 0) /\
    (boolean2 p = Some false -> boolean p = Some false -> offset p' = offset p).
Proof.
  intros Hb Hat Hd Hbig. unfold read_encoder.
  assert (0 <= pos' mod 2 ^ bl < 2 ^ bl) as Hm by (apply Z.mod_pos_bound; apply Z.pow_pos_nonneg; lia).
  assert (2 ^ bl <= 2 ^ 30) as H30 by (apply Z.pow_le_mono_r; lia).
  assert ((if graycode p then gray_decode (sent bl pos' p) else sent bl pos' p) = pos' mod 2 ^ bl) as ->
    by (unfold sent; destruct (graycode p); [apply gray_decode_encode; lia | done]).
  rewrite (proj2 (Z.leb_le 0 (bl - 1))), (proj2 (Z.ltb_lt (bl - 1) 32)) by lia. cbn [andb mbind option_bind].
  rewrite sign_extend by lia. rewrite (wraps_congr bl (pos' mod 2 ^ bl) pos') by apply Zmod_mod.
  rewrite (accumulate_exact bl base pos pos') by done. cbn [mbind option_bind]. pose proof Hat as (Ho & Ha & [s Hs] & [s2 Hs2] & [f Hf] & [b Hbo] & [b2 Hbo2]).
  rewrite Hbo2, Hbo, Hs, Hs2, Hf. cbn [mbind option_bind].
  destruct (if b && (0 <? u32_param p) then _ else _) as [off idx] eqn:Eo. eexists. split; [reflexivity |].
  split; [unfold encoder_at; cbn; split_and!; by eauto |]. cbn. split_and!; try done.
  - intros [= ->] [= ->]. cbn in Eo. injection Eo as <- <-. rewrite Z.sub_diag. done.
  - intros [= ->] [= ->]. cbn in Eo. by injection Eo as <- <-.
Qed.

(** The registers that arrive in one cycle after the other. *)
Fixpoint cycles (rs : list regs) (chan : hm2_sserial_remote_t) (st : statics) : option (hm2_sserial_remote_t * statics) :=
  match rs with
  | [] => Some (chan, st)
  | r :: rs => '(chan, st) ← hm2_sserial_read_pins {| chan with regs_read := r |} st; cycles rs chan st
  end.

(** From each position to the next is at most a quarter of a turn. *)
Fixpoint slow (bl base pos : Z) (ps : list Z) : Prop :=
  match ps with [] => True | x :: ps => Z.abs (x - pos) <= 2 ^ (bl - 2) /\ Z.abs (pos + base) <= 2 ^ 62 /\ slow bl base x ps end.

(** An encoder field behind [n] bits that are not used. *)
Definition encoder_confs (n bl : Z) : list hm2_sserial_data_t := [Conf n LBP_PAD 0; Conf bl LBP_ENCODER 0].

(** The registers carry the position. *)
Definition carries (n bl : Z) (gray : bool) (r : regs) (x : Z) : Prop :=
  regs_ok r /\ slice (value r) n bl = (if gray then gray_encode (x mod 2 ^ bl) else x mod 2 ^ bl).

(** One field that is read. *)
Lemma read_field c p l r bitcount st buff c' p' st' : Z.land (DataDir c) 0x80 = 0 -> getbits r bitcount (DataLength c) = Some buff ->
  decode_pin c p buff st = Some (c', p', st') ->
  read_fields ((c, p) :: l) r bitcount st = '(l, st) ← read_fields l r (bitcount + DataLength c) st'; Some ((c', p') :: l, st).
Proof. intros Hd Hg Hp. cbn [read_fields]. rewrite Hd, Hg. cbn [Z.eqb mbind option_bind]. rewrite Hp. done. Qed.

Lemma read_fields_encoder n bl r q p p' st : 1 <= n <= 64 -> 1 <= bl <= 64 -> n + bl <= 96 -> regs_ok r ->
  read_encoder bl (slice (value r) n bl) p = Some p' ->
  read_fields [(Conf n LBP_PAD 0, q); (Conf bl LBP_ENCODER 0, p)] r 0 st = Some ([(Conf n LBP_PAD 0, q); (Conf bl LBP_ENCODER 0, p')], st).
Proof.
  intros Hn Hb He Hok Hre.
  rewrite (read_field (Conf n LBP_PAD 0) q [(Conf bl LBP_ENCODER 0, p)] r 0 st (slice (value r) 0 n) (Conf n LBP_PAD 0) q st)
    by (first [done | apply getbits_spec; cbn [DataLength]; first [done | lia]]).
  rewrite (read_field (Conf bl LBP_ENCODER 0) p [] r _ st (slice (value r) n bl) (Conf bl LBP_ENCODER 0) p' st); [done | done | |].
  - apply getbits_spec; cbn [DataLength]; first [done | lia].
  - unfold decode_pin. cbn -[read_encoder]. by rewrite Hre.
Qed.

Lemma read_pins_encoder n bl r x base pos q p chan st : 1 <= n <= 64 -> 2 <= bl <= 30 -> n + bl <= 96 ->
  confs chan = encoder_confs n bl -> pins chan = [q; p] -> carries n bl (graycode p) r x ->
  encoder_at bl base pos p -> Z.abs (x - pos) <= 2 ^ (bl - 2) -> Z.abs (pos + base) <= 2 ^ 62 ->
  boolean p = Some false -> boolean2 p = Some false ->
  exists chan' p', hm2_sserial_read_pins {| chan with regs_read := r |} st = Some (chan', st) /\
    confs chan' = encoder_confs n bl /\ pins chan' = [q; p'] /\ encoder_at bl base x p' /\ graycode p' = graycode p /\
    boolean p' = Some false /\ boolean2 p' = Some false /\ offset p' = offset p /\ s32_pin p' = Some (s32 (x + base - offset p)).
Proof.
  intros Hn Hb He Hc Hp [Hok Hsl] Hat Hd Hbig Hbo Hb2. unfold hm2_sserial_read_pins. cbn [confs pins regs_read reg_cs_read]. rewrite Hc, Hp.
  destruct (read_encoder_exact bl base pos x p) as (p' & Hre & Hat' & Hg & _ & Hb2' & Hs & _ & Hoff); [done.. |].
  assert (boolean p' = Some false) as Hbo'.
  { clear - Hre Hbo Hb2. unfold read_encoder in Hre. rewrite Hbo, Hb2 in Hre. by simplify_option_eq. }
  change (zip (encoder_confs n bl) [q; p]) with [(Conf n LBP_PAD 0, q); (Conf bl LBP_ENCODER 0, p)].
  rewrite (read_fields_encoder n bl r q p p' st) by (first [done | lia | by rewrite Hsl]). cbn [mbind option_bind].
  rewrite Hoff in Hs by done. eexists _, p'. split; [reflexivity |]. cbn. by split_and!; rewrite ?Hb2', ?Hoff.
Qed.

(** C37: Absolute encoders.  A device sends, behind [n] other bits, a position
    of [bl] bits, plain or in Gray code, of which the driver sees only the
    position modulo a turn.  As long as the position changes by at most a
    quarter of a turn from one cycle to the next, the driver's count follows
    the position over any number of turns in both directions: after every
    sequence of cycles the accumulated count is the last position, and the
    count pin is the position less the offset. *)
Theorem absolute_encoder_tracks n bl base pos rs ps q p chan st : 1 <= n <= 64 -> 2 <= bl <= 30 -> n + bl <= 96 ->
  confs chan = encoder_confs n bl -> pins chan = [q; p] -> encoder_at bl base pos p -> boolean p = Some false -> boolean2 p = Some false ->
  Forall2 (carries n bl (graycode p)) rs ps -> slow bl base pos ps ->
  exists chan' p', cycles rs chan st = Some (chan', st) /\ pins chan' = [q; p'] /\ encoder_at bl base (List.last ps pos) p' /\
    (ps <> [] -> s32_pin p' = Some (s32 (List.last ps pos + base - offset p))).
Proof.
  intros Hn Hb He Hc Hp Hat Hbo Hb2 Hrs Hslow.
  assert (exists chan' p', cycles rs chan st = Some (chan', st) /\ pins chan' = [q; p'] /\ encoder_at bl base (List.last ps pos) p' /\
    s32_pin p' = match ps with [] => s32_pin p | _ => Some (s32 (List.last ps pos + base - offset p)) end) as (chan' & p' & ? & ? & ? & Hs).
  2: { exists chan', p'. split_and!; try done. intros Hne. destruct ps; [done | exact Hs]. }
  revert ps chan p pos Hc Hp Hat Hbo Hb2 Hrs Hslow.
  induction rs as [| r rs IH]; intros ps chan p pos Hc Hp Hat Hbo Hb2 Hrs Hslow; inversion Hrs as [| ? x ? ps' Hr Hrs' E1 E2]; subst.
  { exists chan, p. by split_and!. }
  destruct Hslow as (Hd & Hbig & Hslow). cbn [cycles].
  destruct (read_pins_encoder n bl r x base pos q p chan st) as (chan1 & p1 & -> & Hc1 & Hp1 & Hat1 & Hg1 & Hbo1 & Hb21 & Ho1 & Hs1); [done.. |].
  cbn [mbind option_bind]. rewrite <- Hg1 in Hrs'.
  destruct (IH ps' chan1 p1 x Hc1 Hp1 Hat1 Hbo1 Hb21 Hrs' Hslow) as (chan' & p' & -> & Hp' & Hat' & Hs').
  rewrite Ho1 in Hs'. assert (List.last (x :: ps') pos = List.last ps' x) as ->.
  { clear. revert x. induction ps' as [| y l IHl]; intros x; [done |]. cbn [List.last] in *. destruct l; [done |]. apply (IHl x). }
  exists chan', p'. split_and!; try done. rewrite Hs'. by destruct ps'.
Qed.

(** ** Ports *)
Fixpoint port_runs (n : nat) (period : Z) (inst : hm2_sserial_instance_t) (buff : Z) : option hm2_sserial_instance_t :=
  match n with
  | O => Some inst
  | S n => '(inst, _, buff, _) ← prepare_port period inst buff; port_runs n period inst buff
  end.

(** A port whose device does not take commands any more, while it runs or is
    being stopped. *)
Definition silent (inst : hm2_sserial_instance_t) : Prop :=
  command_reg_read inst <> 0 /\ 0 < fault_inc inst /\ 0 <= fault_lim inst /\ fault_lim inst + fault_inc inst < 2 ^ 32 /\ 0 <= fault_count inst < 2 ^ 32 /\
  (state inst = 0x01 \/ run inst = false /\ (state inst = 0x20 \/ state inst = 0x02 \/ state inst = 0x10 /\ 0 <= timer inst < 2100000000 \/ state inst = 0)).

Definition idle (inst : hm2_sserial_instance_t) : Prop := state inst = 0 /\ run inst = false.

(** The number of cycles until the port is idle. *)
Definition cycles_left (period : Z) (inst : hm2_sserial_instance_t) : Z :=
  let wait := 2100000000 / period in
  if state inst =? 0 then 0
  else if state inst =? 0x10 then 1 + (2100000000 - timer inst) / period
  else if state inst =? 0x02 then 2 + wait
  else if state inst =? 0x20 then 3 + wait
  else 4 + wait + if fault_lim inst <? fault_count inst then 0 else 1 + (fault_lim inst - fault_count inst) / fault_inc inst.

Lemma silent_step period inst buff : 0 < period < 2 ^ 31 -> silent inst ->
  exists inst' ws ret, prepare_port period inst buff = Some (inst', ws, buff, ret) /\ silent inst' /\
    0 <= cycles_left period inst' /\ (cycles_left period inst' < cycles_left period inst \/ idle inst /\ idle inst').
Proof.
  intros Hp (Hc & Hi & Hl & Hli & Hf & Hst). unfold prepare_port.
  assert (0 <= 2100000000 / period) as Hw by (apply Z.div_pos; lia).
  destruct Hst as [E | [Hr [E | [E | [[E Ht] | E]]]]]; rewrite E; cbn [Z.eqb Pos.eqb orb].
  - destruct (run inst) eqn:Hr; cbn [negb].
    2: { do 3 eexists. split; [reflexivity |]. unfold silent, cycles_left. cbn. rewrite E, ?Hr. cbn.
         assert (0 <= (if fault_lim inst <? fault_count inst then 0 else 1 + (fault_lim inst - fault_count inst) / fault_inc inst)).
         { destruct (Z.ltb_spec (fault_lim inst) (fault_count inst)); [lia |]. pose proof (Z.div_pos (fault_lim inst - fault_count inst) (fault_inc inst)). lia. }
         split; [| lia]. split_and!; try done; try lia; right; (split; [done |]); auto. }
    destruct (Z.ltb_spec (fault_lim inst) (fault_count inst)).
    { do 3 eexists. split; [reflexivity |]. unfold silent, cycles_left. cbn. rewrite E. cbn. rewrite (proj2 (Z.ltb_lt _ _)) by done.
      split; [| lia]. split_and!; try done; try lia; right; (split; [done |]); auto. }
    rewrite (proj2 (Z.eqb_neq _ _) Hc). cbn [negb]. do 3 eexists. split; [reflexivity |]. unfold silent, cycles_left. cbn. rewrite E. cbn.
    rewrite wrapu_small by lia. rewrite (proj2 (Z.ltb_ge (fault_lim inst) (fault_count inst))) by done.
    pose proof (Z.div_pos (fault_lim inst - fault_count inst) (fault_inc inst) ltac:(lia) ltac:(lia)).
    split; [split_and!; try done; try lia; left; done |].
    destruct (Z.ltb_spec (fault_lim inst) (fault_count inst + fault_inc inst)); [lia |].
    replace (fault_lim inst - (fault_count inst + fault_inc inst)) with (fault_lim inst - fault_count inst + (-1) * fault_inc inst) by lia.
    rewrite Z.div_add by lia. pose proof (Z.div_le_lower_bound (fault_lim inst - fault_count inst) (fault_inc inst) 1). lia.
  - rewrite Hr. do 3 eexists. split; [reflexivity |]. unfold silent, cycles_left. cbn. rewrite E, ?Hr. cbn.
    split; [| lia]. split_and!; try done; try lia; right; (split; [done |]); auto.
  - do 3 eexists. split; [reflexivity |]. unfold silent, cycles_left. cbn. rewrite E, ?Hr. cbn.
    rewrite Z.sub_0_r. split; [| lia]. split_and!; try done; try lia; right; (split; [done |]); right; right; left; done.
  - cbn [timer state command_reg_read]. rewrite (proj2 (Z.eqb_neq _ _) Hc). cbn [negb].
    rewrite wrapu_small by lia. pose proof (Z.div_pos (2100000000 - timer inst) period ltac:(lia) ltac:(lia)).
    destruct (Z.ltb_spec (timer inst + period) 2100000000); (do 3 eexists; split; [reflexivity |]); unfold silent, cycles_left; cbn; rewrite E, ?Hr; cbn.
    + replace (2100000000 - (timer inst + period)) with (2100000000 - timer inst + (-1) * period) by lia. rewrite Z.div_add by lia.
      pose proof (Z.div_le_lower_bound (2100000000 - timer inst) period 1). split; [| lia].
      split_and!; try done; try lia; right; (split; [done |]); right; right; left; (split; [done | lia]).
    + pose proof (wrapu_range 32 (fault_count inst + fault_inc inst) ltac:(lia)). change (Z.land 16 15) with 0. cbn [Z.eqb]. split; [| lia]. split_and!; try done; try lia; right; (split; [done |]); auto.
  - rewrite Hr. cbn [negb]. do 3 eexists. split; [reflexivity |]. unfold silent, cycles_left, idle. rewrite E, ?Hr. cbn.
    split; [| split; [lia | right; by split_and!]]. split_and!; try done; try lia; right; (split; [done |]); auto.
Qed.

Lemma silent_runs n period inst buff : 0 < period < 2 ^ 31 -> silent inst -> cycles_left period inst <= Z.of_nat n -> 0 <= cycles_left period inst ->
  exists inst', port_runs n period inst buff = Some inst' /\ silent inst' /\ cycles_left period inst' = 0.
Proof.
  intros Hp. revert inst buff. induction n as [| n IH]; intros inst buff Hs Hn H0; cbn [port_runs].
  - exists inst. split_and!; [done | done | lia].
  - destruct (silent_step period inst buff Hp Hs) as (inst1 & ws & ret & -> & Hs1 & H1 & Hdec). cbn [mbind option_bind].
    apply IH; [done | | done]. destruct Hdec as [Hdec | [_ [Hi _]]]; [lia |]. unfold cycles_left. rewrite Hi. cbn. lia.
Qed.

Lemma silent_left_zero period inst : 0 < period -> silent inst -> cycles_left period inst = 0 -> idle inst.
Proof.
  intros Hp (Hc & Hi & Hl & Hli & Hf & Hst). unfold cycles_left. assert (0 <= 2100000000 / period) as Hw by (apply Z.div_pos; lia).
  destruct Hst as [E | [Hr [E | [E | [[E Ht] | E]]]]]; rewrite E; cbn [Z.eqb Pos.eqb]; try lia; [| | by split].
  - destruct (Z.ltb_spec (fault_lim inst) (fault_count inst)); [lia |]. pose proof (Z.div_pos (fault_lim inst - fault_count inst) (fault_inc inst)). lia.
  - pose proof (Z.div_pos (2100000000 - timer inst) period). lia.
Qed.

(** A port that no longer answers is given up.  A running port whose
    command register is never cleared by its card counts a fault in every
    cycle, is stopped when the faults exceed their limit, waits for the stop to
    be taken, and gives that up too after 2.1 seconds: after at most
    limit / increment + 2100000000 / period + 5 cycles the port is idle, with
    its [run] pin off, and it stays idle. *)
Theorem dead_port_idles n period inst buff : 0 < period < 2 ^ 31 -> state inst = 0x01 -> command_reg_read inst <> 0 ->
  0 < fault_inc inst -> 0 <= fault_lim inst -> fault_lim inst + fault_inc inst < 2 ^ 32 -> 0 <= fault_count inst < 2 ^ 32 ->
  5 + fault_lim inst / fault_inc inst + 2100000000 / period <= Z.of_nat n ->
  exists inst', port_runs n period inst buff = Some inst' /\ idle inst'.
Proof.
  intros Hp Hst Hc Hi Hl Hli Hf Hn. assert (silent inst) as Hs by (split_and!; try done; try lia; by left).
  assert (0 <= 2100000000 / period) as Hw by (apply Z.div_pos; lia).
  assert (0 <= cycles_left period inst <= Z.of_nat n) as [H0 H1].
  { unfold cycles_left. rewrite Hst. cbn [Z.eqb Pos.eqb]. pose proof (Z.div_pos (fault_lim inst) (fault_inc inst)).
    destruct (Z.ltb_spec (fault_lim inst) (fault_count inst)); [lia |].
    pose proof (Z.div_pos (fault_lim inst - fault_count inst) (fault_inc inst)).
    pose proof (Z.div_le_mono (fault_lim inst - fault_count inst) (fault_lim inst) (fault_inc inst)). lia. }
  destruct (silent_runs n period inst buff Hp Hs H1 H0) as (inst' & Hr & Hs' & Hz). exists inst'. split; [done |].
  apply (silent_left_zero period); [lia | done | done].
Qed.

(** A port without a device to talk to: an idle port ends the loop over the
    ports, so that the ports behind it are not served. *)
Lemma idle_blocks_others period inst l buff : idle inst -> hm2_sserial_prepare_tram_write period (inst :: l) buff = Some (inst :: l, []).
Proof. intros [Hs Hr]. cbn. unfold prepare_port. by rewrite Hs, Hr. Qed.

(** ** Witnesses *)
Definition no_pin : hm2_sserial_pins_t :=
  Pins None None None None [] [] [] None None (S754_zero false) (S754_zero false) (S754_zero false) 0 false 0 0 0.
Definition encoder_pin : hm2_sserial_pins_t :=
  Pins None (Some 0) (Some 0) (Some (S754_zero false)) [] [] [] (Some false) (Some false) (S754_zero false) (S754_zero false) (dbl_of_Z 80) 0 true 0 0 0.
Definition encoder_remote : hm2_sserial_remote_t :=
  Remote (encoder_confs 24 16) [no_pin; encoder_pin] 0 0 0 (Regs None None None) (Regs None None None) 0.
(** The registers of a device that sends [x] in Gray code. *)
Definition arrived (x : Z) : regs :=
  let v := Z.shiftl (gray_encode (x mod 2 ^ 16)) 24 in Regs (Some (u32 v)) (Some (Z.shiftr v 32)) None.
Definition dead_port : hm2_sserial_instance_t := Inst [] 1 0x1001 0x1001 0 10 1 200 true 0x01 0 [].

Lemma fields_roundtrip_witness : exists r', pack [(0x5a, 7); (0x123456789abcdef, 60); (0xfffff, 13)] (zero_regs (Regs (Some 5) (Some 6) (Some 7))) 0 = Some (r', 80) /\
  unpack [7; 60; 13] r' 0 = Some [0x5a; 0x123456789abcdef; 0x1fff].
Proof.
  apply (fields_roundtrip [(0x5a, 7); (0x123456789abcdef, 60); (0xfffff, 13)] (Regs (Some 5) (Some 6) (Some 7))).
  - repeat constructor; cbn; lia.
  - cbn. lia.
  - split_and!; by eexists.
Defined.

Lemma absolute_encoder_tracks_witness : exists chan' p',
  cycles (map arrived [-16000; -32000; -48000; -40000]) encoder_remote initial_statics = Some (chan', initial_statics) /\ pins chan' = [no_pin; p'] /\
  encoder_at 16 0 (-40000) p' /\ ([-16000; -32000; -48000; -40000] <> [] -> s32_pin p' = Some (s32 (-40000 + 0 - 0))).
Proof.
  apply (absolute_encoder_tracks 24 16 0 0 (map arrived [-16000; -32000; -48000; -40000]) [-16000; -32000; -48000; -40000] no_pin encoder_pin
    encoder_remote initial_statics); try done.
  - repeat constructor; cbn; try lia; vm_compute; by first [done | split].
Defined.

Lemma dead_port_idles_witness : exists inst', port_runs 2125 1000000 dead_port 0 = Some inst' /\ idle inst'.
Proof. apply (dead_port_idles 2125 1000000 dead_port 0); try done; cbn; lia. Defined.
