(* ===== verification/Hm2Watchdog.v ===== *)
(** * The watchdog of a hostmot2 card and the functs that drive the card
      (modules/managed/drivers/hostmot2/hostmot2_core/src/watchdog.c,
      hostmot2.c)

    A card that is not written to in time stops its outputs, and its watchdog
    has bitten.  The driver sees that, or an input/output error, and then
    leaves the card alone until the user clears a pin.  The calls that may
    reach the card are logged in their order; what the board does with a call
    is the parameter [Board].  The other modules of the driver appear as the
    calls of their functions. *)
From S2P Require Import Prelude Double.

Module Watchdog.

Inductive call :=
  | Bite                        (* the driver sets has_bit: no access to the card *)
  | IoReset
  | DpllReset
  | Write (addr : Z) (data : list Z)
  | Module (f : string).

(** What comes back from a call: does the board set its flags, what has been
    read of the watchdog's status, and the result. *)
Record outcome := Outcome {
  fails : bool;                 (* io_error is set *)
  wants_reset : bool;           (* needs_reset is set *)
  wants_soft_reset : bool;      (* needs_soft_reset is set *)
  seen : option Z;
  result : Z;
}.

(** A board with the state [hw].  A double out of the range of an unsigned
    int is converted to some number. *)
Class Board (hw : Type) := {
  transfer : call -> hw -> outcome * hw;
  has_io_reset : bool;
  conversion : double -> Z;
}.

Record hostmot2_t (hw : Type) := Hostmot2 {
  num_instances : Z;
  has_bit : bool;               (* pins *)
  timeout_ns : Z;
  written_timeout_ns : Z;
  enable : Z;
  written_enable : Z;
  clock_frequency : Z;
  timer_addr : Z;
  timer_reg : Z;
  status_addr : Z;
  status_reg : Z;
  reset_reg : Z;
  io_error : bool;              (* of the low-level driver *)
  needs_reset : bool;
  needs_soft_reset : bool;
  read_requested : bool;
  card : hw;
  log : list call;
}.
#[global] Arguments Hostmot2 {hw}.
#[global] Arguments num_instances {hw}. #[global] Arguments has_bit {hw}. #[global] Arguments timeout_ns {hw}.
#[global] Arguments written_timeout_ns {hw}. #[global] Arguments enable {hw}. #[global] Arguments written_enable {hw}.
#[global] Arguments clock_frequency {hw}. #[global] Arguments timer_addr {hw}. #[global] Arguments timer_reg {hw}.
#[global] Arguments status_addr {hw}. #[global] Arguments status_reg {hw}. #[global] Arguments reset_reg {hw}.
#[global] Arguments io_error {hw}. #[global] Arguments needs_reset {hw}. #[global] Arguments needs_soft_reset {hw}.
#[global] Arguments read_requested {hw}. #[global] Arguments card {hw}. #[global] Arguments log {hw}.

Section Operations.
Context {hw : Type} `{Board hw}.

Abbreviation T := (hostmot2_t hw).

(** One call that may reach the card. *)
Definition act (c : call) (t : T) : Z * T :=
  let '(o, h) := transfer c (card t) in
  (result o, {| t with card := h; log := log t ++ [c]; io_error := io_error t || fails o; needs_reset := needs_reset t || wants_reset o;
    needs_soft_reset := needs_soft_reset t || wants_soft_reset o; status_reg := default (status_reg t) (seen o) |}).
Definition acts (l : list call) (t : T) : T := fold_left (fun t c => snd (act c t)) l t.
Definition modules (l : list string) : T -> T := acts (map Module l).

Definition bite (t : T) : T := {| t with has_bit := true; needs_reset := true; needs_soft_reset := true; log := log t ++ [Bite] |}.

Definition watchdog_handle_reset (t : T) : T := if has_io_reset then acts [IoReset; DpllReset] t else t.

Definition hm2_watchdog_bite_on_ioerror (t : T) : bool * T :=
  if num_instances t =? 0 then (false, t)
  else if has_bit t then (true, t)
  else if io_error t then (true, if needs_reset t then t else bite t)
  else if needs_reset t then
    let t := watchdog_handle_reset t in
    (false, {| t with needs_reset := false; needs_soft_reset := true |})
  else (false, t).

Definition hm2_watchdog_process_tram_read (t : T) : T :=
  if num_instances t =? 0 then t
  else if has_bit t then t
  else
    let '(stop, t) := hm2_watchdog_bite_on_ioerror t in
    if (stop : bool) then t
    else if needs_reset t then t
    else if needs_soft_reset t then t
    else if Z.testbit (status_reg t) 0 then bite t
    else t.

Definition hm2_watchdog_prepare_tram_write (t : T) : T :=
  if num_instances t <=? 0 then t else {| t with reset_reg := 0x5a000000 |}.

(** The timer register for a timeout. *)
Definition timer_counts (timeout clock : Z) : Z := u64 (u64 (timeout * clock) / 1000000000 - 1).

(** (tmp + 1) / (clock / 1e9) as an unsigned int *)
Definition longest_timeout (clock : Z) : Z :=
  let d := ddiv (dbl_of_Z (0x7FFFFFFF + 1)) (ddiv (dbl_of_Z clock) (dbl_of_Z 1000000000)) in
  match dbl_to_sint 33 d with Some z => if 0 <=? z then z else conversion d | None => conversion d end.

(** The new value of the timer register; a timeout that is too long is set to
    the longest one. *)
Definition set_timer (t : T) : T :=
  if enable t =? 0 then {| t with timer_reg := 0x80000000 |}
  else
    let tmp := timer_counts (timeout_ns t) (clock_frequency t) in
    if tmp <? 0x80000000 then {| t with timer_reg := tmp |}
    else {| t with timer_reg := 0x7FFFFFFF; timeout_ns := longest_timeout (clock_frequency t) |}.

Definition hm2_watchdog_force_write (t : T) : T :=
  if negb (num_instances t =? 1) then t
  else
    let t := set_timer t in
    let t := snd (act (Write (timer_addr t) [timer_reg t]) t) in
    let t := {| t with written_timeout_ns := timeout_ns t; written_enable := enable t |} in
    snd (act (Write (status_addr t) [status_reg t]) t).

Definition force_modules : list string :=
  ["hm2_ioport_force_write"; "hm2_encoder_force_write"; "hm2_muxed_encoder_force_write"; "hm2_pwmgen_force_write"; "hm2_stepgen_force_write";
   "hm2_tp_pwmgen_force_write"; "hm2_sserial_force_write"; "hm2_bspi_force_write"; "hm2_dbspi_force_write"; "hm2_dpll_force_write"]%string.

Definition hm2_force_write (t : T) : T := modules force_modules (hm2_watchdog_force_write t).

(** The first write after a bite: all settings go to the card. *)
Definition soft_reset (t : T) : T :=
  if needs_soft_reset t then hm2_force_write {| t with status_reg := 0; needs_soft_reset := false |} else t.

Definition hm2_watchdog_write (t : T) : T :=
  if negb (num_instances t =? 1) then t
  else if io_error t then t
  else if has_bit t then t
  else
    let t := soft_reset {| t with enable := 1 |} in
    if (timeout_ns t =? written_timeout_ns t) && (enable t =? written_enable t) then t
    else hm2_watchdog_force_write t.

(** ** The functs of a card *)
Definition hm2_read_request (t : T) : Z * T :=
  let '(stop, t) := hm2_watchdog_bite_on_ioerror t in
  if stop then (-1, t)
  else
    let t := modules ["hm2_tram_read"%string] t in
    let '(stop, t) := hm2_watchdog_bite_on_ioerror t in
    if stop then (-1, t)
    else
      let t := modules ["hm2_raw_queue_read"; "hm2_tp_pwmgen_queue_read"]%string t in
      let '(stop, t) := hm2_watchdog_bite_on_ioerror t in
      if stop then (-1, t)
      else
        let t := modules ["hm2_queue_read"%string] t in
        (0, {| t with read_requested := true |}).

Definition read_modules : list string :=
  ["hm2_ioport_gpio_process_tram_read"; "hm2_encoder_process_tram_read"; "hm2_muxed_encoder_process_tram_read"; "hm2_resolver_process_tram_read";
   "hm2_stepgen_process_tram_read"; "hm2_sserial_process_tram_read"; "hm2_bspi_process_tram_read"; "hm2_dbspi_process_tram_read";
   "hm2_absenc_process_tram_read"; "hm2_tp_pwmgen_process_read"; "hm2_dpll_process_tram_read"; "de0_nano_soc_adc_read"; "hm2_capsense_read"]%string.

Definition hm2_read (t : T) : Z * T :=
  let t := if negb (read_requested t) then snd (hm2_read_request t) else t in
  let t := {| t with read_requested := false |} in
  let '(stop, t) := hm2_watchdog_bite_on_ioerror t in
  if stop then (-1, t)
  else
    let '(r, t) := act (Module "hm2_finish_read") t in
    if r =? - EAGAIN then (-1, t)
    else
      let '(stop, t) := hm2_watchdog_bite_on_ioerror t in
      if stop then (-1, t)
      else (0, modules read_modules (hm2_watchdog_process_tram_read t)).

Definition prepare_modules : list string :=
  ["hm2_ioport_gpio_prepare_tram_write"; "hm2_pwmgen_prepare_tram_write"; "hm2_tp_pwmgen_prepare_tram_write"; "hm2_stepgen_prepare_tram_write";
   "hm2_sserial_prepare_tram_write"; "hm2_bspi_prepare_tram_write"; "hm2_dbspi_prepare_tram_write"]%string.
Definition write_modules : list string :=
  ["hm2_pwmgen_write"; "hm2_tp_pwmgen_write"; "hm2_stepgen_write"; "hm2_encoder_write"; "hm2_muxed_encoder_write"; "hm2_absenc_write"; "hm2_resolver_write";
   "hm2_dpll_write"; "hm2_irq_write"; "hm2_led_write"; "hm2_raw_write"; "hm2_capsense_write"; "hm2_finish_write"]%string.

Definition hm2_write (t : T) : Z * T :=
  let '(stop, t) := hm2_watchdog_bite_on_ioerror t in
  if stop then (-1, t)
  else
    let t := modules prepare_modules t in
    let t := hm2_watchdog_prepare_tram_write t in
    let t := modules ["hm2_tram_write"; "hm2_ioport_write"]%string t in
    let t := hm2_watchdog_write t in
    (0, modules write_modules t).

Definition hm2_read_gpio (t : T) : Z * T :=
  let '(stop, t) := hm2_watchdog_bite_on_ioerror t in
  if stop then (-1, t) else (0, modules ["hm2_ioport_gpio_read"%string] t).

Definition hm2_write_gpio (t : T) : Z * T :=
  let '(stop, t) := hm2_watchdog_bite_on_ioerror t in
  if stop then (-1, t) else (0, hm2_watchdog_write (modules ["hm2_ioport_gpio_write"%string] t)).

(** The part of [hm2_unregister] that makes the board safe. *)
Definition hm2_unregister (t : T) : T :=
  if 0 <? num_instances t then hm2_watchdog_force_write {| t with enable := 1; timeout_ns := 1 |} else t.

(** ** Sequences of functs and of what the user does to the pins *)
Inductive funct := ReadRequest | Read | Wr | ReadGpio | WriteGpio.
Definition call_funct (f : funct) : T -> Z * T :=
  match f with ReadRequest => hm2_read_request | Read => hm2_read | Wr => hm2_write | ReadGpio => hm2_read_gpio | WriteGpio => hm2_write_gpio end.

Inductive step : T -> T -> Prop :=
  | Funct f t : step t (snd (call_funct f t))
  | SetHasBit b t : step t {| t with has_bit := b |}
  | SetIoError b t : step t {| t with io_error := b |}
  | SetTimeout n t : 0 <= n < 2 ^ 32 -> step t {| t with timeout_ns := n |}.

(** The driver as it has been loaded. *)
Definition loaded (t : T) : Prop := num_instances t = 1 /\ has_bit t = false /\ enable t = 0 /\ needs_reset t = false /\ log t = [].
Inductive reachable : T -> Prop :=
  | Loaded t : loaded t -> reachable t
  | Step t t' : reachable t -> step t t' -> reachable t'.

End Operations.
End Watchdog.
