(* ===== verification/Hm2WatchdogTheorems.v ===== *)
(** * Theorems about the watchdog

    After a bite the card is left alone until the user has cleared the pins,
    the next access resets it, and the first write after that writes all
    settings; the timer register for every timeout. *)
From S2P Require Import Prelude Double Hm2Watchdog.
Import Watchdog.

(** The last bite has not been followed by a reset yet. *)
Definition bitten (l : list call) : bool := fold_left (fun b c => match c with Bite => true | IoReset => false | _ => b end) l false.
(** The settings have not been written since the last bite or reset. *)
Definition stale (l : list call) : bool :=
  fold_left (fun b c => match c with Bite | IoReset => true | Module f => if bool_decide (f = "hm2_ioport_force_write"%string) then false else b | _ => b end) l false.

#[local] Arguments bitten : simpl never.
#[local] Arguments stale : simpl never.

Section Watchdog.
Context {hw : Type} `{Board hw}.
Abbreviation T := (hostmot2_t hw).

(** A call that is neither a bite nor a reset. *)
Definition plain (c : call) : Prop := match c with Bite | IoReset => False | _ => True end.

(** The invariant; the second part does not hold ([s] is false) while the
    settings are being written. *)
Record inv (s : bool) (t : T) : Prop := {
  inv_one : num_instances t = 1;
  inv_bitten : has_io_reset = true -> bitten (log t) = true -> needs_reset t = true;
  inv_stale : s = true -> stale (log t) = true -> needs_soft_reset t = true;
}.

(** What an operation may change: it appends to the log. *)
Definition grows (t t' : T) : Prop := log t `prefix_of` log t'.
#[local] Instance grows_preorder : PreOrder grows.
Proof. split; [intros ?; unfold grows; done | intros x y z; unfold grows; by etrans]. Qed.

Lemma act_grows c t : grows t (snd (act c t)).
Proof. unfold grows, act. destruct (transfer c (card t)). by eexists. Qed.

Lemma act_log c t : log (snd (act c t)) = log t ++ [c].
Proof. unfold act. by destruct (transfer c (card t)). Qed.

Lemma acts_grows l t : grows t (acts l t).
Proof. unfold acts. revert t. induction l as [| c l IH]; intros t; cbn [fold_left]; [reflexivity |]. etrans; [apply act_grows | apply IH]. Qed.

Lemma acts_log l t : log (acts l t) = log t ++ l.
Proof.
  unfold acts. revert t. induction l as [| c l IH]; intros t; cbn [fold_left]; [by rewrite app_nil_r |].
  rewrite IH. unfold act. destruct (transfer c (card t)). cbn. by rewrite <- app_assoc.
Qed.

Lemma bitten_snoc l c : bitten (l ++ [c]) = match c with Bite => true | IoReset => false | _ => bitten l end.
Proof. unfold bitten. by rewrite fold_left_app. Qed.
Lemma stale_snoc l c : stale (l ++ [c]) =
  match c with Bite | IoReset => true | Module f => if bool_decide (f = "hm2_ioport_force_write"%string) then false else stale l | _ => stale l end.
Proof. unfold stale. by rewrite fold_left_app. Qed.

Lemma act_inv s c t : plain c -> inv s t -> inv s (snd (act c t)).
Proof.
  intros Hc [H1 H2 H3]. unfold act. destruct (transfer c (card t)) as [o h]. split; cbn; [done | |].
  - rewrite bitten_snoc. intros Hr Hb. by destruct c; try destruct Hc; rewrite (H2 Hr Hb).
  - rewrite stale_snoc. intros Hs Hb. destruct c; try destruct Hc; try by rewrite (H3 Hs Hb). case_bool_decide; [done |]. by rewrite (H3 Hs Hb).
Qed.

Lemma acts_inv s l t : Forall plain l -> inv s t -> inv s (acts l t).
Proof. intros Hl. revert t. induction Hl as [| c l Hc Hl IH]; intros t Ht; [done |]. cbn. by apply IH, act_inv. Qed.

Lemma modules_inv s l t : inv s t -> inv s (modules l t).
Proof. apply acts_inv. induction l; by constructor. Qed.

Lemma bite_inv s t : num_instances t = 1 -> inv s (bite t).
Proof. intros H1. by split. Qed.

(** The fields that the calls do not touch. *)
Definition same_pins (t t' : T) : Prop := has_bit t' = has_bit t /\ num_instances t' = num_instances t /\ timeout_ns t' = timeout_ns t /\
  clock_frequency t' = clock_frequency t /\ enable t' = enable t /\ read_requested t' = read_requested t /\ timer_addr t' = timer_addr t /\
  status_addr t' = status_addr t /\ timer_reg t' = timer_reg t.
Lemma act_pins c t : same_pins t (snd (act c t)).
Proof. unfold act. by destruct (transfer c (card t)). Qed.
Lemma acts_pins l t : same_pins t (acts l t).
Proof.
  unfold acts. revert t. induction l as [| c l IH]; intros t; cbn [fold_left]; [done |]. specialize (IH (snd (act c t))). pose proof (act_pins c t).
  unfold same_pins in *. intuition congruence.
Qed.

Lemma bite_on_inv s t : inv s t -> inv s (snd (hm2_watchdog_bite_on_ioerror t)).
Proof.
  intros Ht. pose proof (inv_one _ _ Ht) as H1. unfold hm2_watchdog_bite_on_ioerror. rewrite H1. cbn [Z.eqb].
  destruct (has_bit t); [done |]. destruct (io_error t).
  { destruct (needs_reset t); [done | by apply bite_inv]. }
  destruct (needs_reset t); [| done]. unfold watchdog_handle_reset. destruct has_io_reset eqn:Hr; cbn [snd].
  - pose proof (acts_pins [IoReset; DpllReset] t) as (_ & Hn & _). pose proof (acts_log [IoReset; DpllReset] t) as Hl.
    generalize dependent (acts [IoReset; DpllReset] t). intros t1 Hn Hl. split; cbn; [congruence | | done].
    rewrite Hl. change [IoReset; DpllReset] with ([IoReset] ++ [DpllReset]). by rewrite app_assoc, !bitten_snoc.
  - split; cbn; [done | congruence | done].
Qed.

Lemma bite_on_grows t : grows t (snd (hm2_watchdog_bite_on_ioerror t)).
Proof.
  unfold hm2_watchdog_bite_on_ioerror. destruct (_ =? 0); [reflexivity |]. destruct (has_bit t); [reflexivity |].
  destruct (io_error t); [destruct (needs_reset t); [reflexivity | by eexists] |].
  destruct (needs_reset t); [| reflexivity]. cbn [snd]. unfold grows. cbn. unfold watchdog_handle_reset. destruct has_io_reset; [apply acts_grows | done].
Qed.

Lemma process_inv s t : inv s t -> inv s (hm2_watchdog_process_tram_read t).
Proof.
  intros Ht. unfold hm2_watchdog_process_tram_read. rewrite (inv_one _ _ Ht). cbn [Z.eqb]. destruct (has_bit t); [done |].
  pose proof (bite_on_inv s t Ht) as Ht1. destruct (hm2_watchdog_bite_on_ioerror t) as [[] t1]; [done |]. cbn [snd] in Ht1.
  destruct (needs_reset t1); [done |]. destruct (needs_soft_reset t1); [done |]. destruct (Z.testbit _ 0); [| done]. apply bite_inv, Ht1.
Qed.

Lemma process_grows t : grows t (hm2_watchdog_process_tram_read t).
Proof.
  unfold hm2_watchdog_process_tram_read. destruct (_ =? 0); [reflexivity |]. destruct (has_bit t); [reflexivity |].
  pose proof (bite_on_grows t) as Hg. destruct (hm2_watchdog_bite_on_ioerror t) as [[] t1]; [done |]. cbn [snd] in Hg.
  destruct (needs_reset t1); [done |]. destruct (needs_soft_reset t1); [done |]. destruct (Z.testbit _ 0); [| done]. etrans; [exact Hg |]. by eexists.
Qed.

(** A change of fields other than those of the invariant. *)
Lemma inv_same s t t' : num_instances t' = num_instances t -> log t' = log t -> needs_reset t' = needs_reset t -> needs_soft_reset t' = needs_soft_reset t ->
  inv s t -> inv s t'.
Proof. intros E1 E2 E3 E4 [H1 H2 H3]. split; rewrite ?E1, ?E2, ?E3, ?E4; done. Qed.

(** The forced write of the watchdog's registers: two writes. *)
Lemma force_write_calls t : num_instances t = 1 ->
  exists status, log (hm2_watchdog_force_write t) = log t ++ [Write (timer_addr t) [timer_reg (set_timer t)]; Write (status_addr t) [status]].
Proof.
  intros H1. unfold hm2_watchdog_force_write. rewrite H1. cbn [Z.eqb Pos.eqb negb].
  assert (log (set_timer t) = log t /\ timer_addr (set_timer t) = timer_addr t /\ status_addr (set_timer t) = status_addr t) as (El & Et & Es)
    by (unfold set_timer; destruct (enable t =? 0); [| destruct (_ <? _)]; done).
  cbv zeta. generalize dependent (set_timer t). intros t1 El Et Es. rewrite act_log. cbn [log status_addr status_reg]. rewrite act_log, El, Et, <- app_assoc.
  pose proof (act_pins (Write (timer_addr t) [timer_reg t1]) t1) as (_ & _ & _ & _ & _ & _ & _ & Hs & _). rewrite Hs, Es. by eexists.
Qed.

Lemma force_write_pins t : num_instances t = 1 ->
  let t' := hm2_watchdog_force_write t in num_instances t' = 1 /\ has_bit t' = has_bit t /\ timer_reg t' = timer_reg (set_timer t).
Proof.
  intros H1. unfold hm2_watchdog_force_write. rewrite H1. cbn [Z.eqb Pos.eqb negb]. cbv zeta.
  assert (num_instances (set_timer t) = 1 /\ has_bit (set_timer t) = has_bit t) as (En & Eh)
    by (unfold set_timer; destruct (enable t =? 0); [| destruct (_ <? _)]; done).
  generalize dependent (set_timer t). intros t1 En Eh.
  pose proof (act_pins (Write (timer_addr t1) [timer_reg t1]) t1) as (H2 & H3 & _ & _ & _ & _ & _ & _ & H4).
  generalize dependent (snd (act (Write (timer_addr t1) [timer_reg t1]) t1)). intros t2 H2 H3 H4.
  match goal with |- context [act ?c ?x] => pose proof (act_pins c x) as (H5 & H6 & _ & _ & _ & _ & _ & _ & H7) end.
  cbn [has_bit num_instances timer_reg] in *. split_and!; congruence.
Qed.

Lemma set_timer_inv s t : inv s t -> inv s (set_timer t).
Proof. apply inv_same; unfold set_timer; destruct (enable t =? 0); try done; by destruct (_ <? _). Qed.

Lemma watchdog_force_inv s t : inv s t -> inv s (hm2_watchdog_force_write t).
Proof.
  intros Ht. unfold hm2_watchdog_force_write. rewrite (inv_one _ _ Ht). cbn [Z.eqb Pos.eqb negb]. cbv zeta.
  apply act_inv; [done |]. generalize (set_timer_inv s t Ht). generalize (set_timer t). intros t1 Ht1.
  pose proof (act_inv s (Write (timer_addr t1) [timer_reg t1]) t1 I Ht1) as Ht2. generalize dependent (snd (act (Write (timer_addr t1) [timer_reg t1]) t1)).
  intros t2 Ht2. revert Ht2. by apply inv_same.
Qed.

Lemma modules_bitten l b : fold_left (fun b c => match c with Bite => true | IoReset => false | _ => b end) (map Module l) b = b.
Proof. induction l; done. Qed.

Lemma force_inv s t : inv false t -> inv s (hm2_force_write t).
Proof.
  intros Ht. unfold hm2_force_write. pose proof (modules_inv false force_modules _ (watchdog_force_inv false t Ht)) as [H1 H2 _].
  split; [done | done |]. intros _. unfold modules. rewrite acts_log. unfold stale. rewrite fold_left_app.
  match goal with |- context [fold_left ?f (log ?x) false] => generalize (fold_left f (log x) false) end. by intros [].
Qed.

Lemma soft_reset_inv t : inv true t -> inv true (soft_reset t).
Proof. intros Ht. unfold soft_reset. destruct (needs_soft_reset t); [| done]. apply force_inv. by destruct Ht as [H1 H2 _]. Qed.

Lemma watchdog_write_inv t : inv true t -> inv true (hm2_watchdog_write t).
Proof.
  intros Ht. unfold hm2_watchdog_write. cbv zeta.
  assert (inv true (soft_reset {| t with enable := 1 |})) as Ht1 by (apply soft_reset_inv; revert Ht; by apply inv_same).
  generalize dependent (soft_reset {| t with enable := 1 |}). intros t1 Ht1.
  destruct (negb _); [done |]. destruct (io_error t); [done |]. destruct (has_bit t); [done |]. destruct (_ && _); [done | by apply watchdog_force_inv].
Qed.

Lemma request_inv t : inv true t -> inv true (snd (hm2_read_request t)).
Proof.
  intros Ht. unfold hm2_read_request.
  pose proof (bite_on_inv true t Ht) as Ht1. destruct (hm2_watchdog_bite_on_ioerror t) as [[] t1]; [done |]. cbn [snd] in Ht1. cbv zeta.
  apply (modules_inv true ["hm2_tram_read"%string]) in Ht1. generalize dependent (modules ["hm2_tram_read"%string] t1). intros t2 Ht2.
  pose proof (bite_on_inv true t2 Ht2) as Ht3. destruct (hm2_watchdog_bite_on_ioerror t2) as [[] t3]; [done |]. cbn [snd] in Ht3.
  apply (modules_inv true ["hm2_raw_queue_read"; "hm2_tp_pwmgen_queue_read"]%string) in Ht3.
  generalize dependent (modules ["hm2_raw_queue_read"; "hm2_tp_pwmgen_queue_read"]%string t3). intros t4 Ht4.
  pose proof (bite_on_inv true t4 Ht4) as Ht5. destruct (hm2_watchdog_bite_on_ioerror t4) as [[] t5]; [done |]. cbn [snd] in Ht5 |- *.
  apply (modules_inv true ["hm2_queue_read"%string]) in Ht5. revert Ht5. by apply inv_same.
Qed.

Lemma funct_inv f t : inv true t -> inv true (snd (call_funct f t)).
Proof.
  intros Ht. destruct f; cbn [call_funct].
  - by apply request_inv.
  - unfold hm2_read. assert (inv true (if negb (read_requested t) then snd (hm2_read_request t) else t)) as Ht1
      by (destruct (negb _); [by apply request_inv | done]).
    generalize dependent (if negb (read_requested t) then snd (hm2_read_request t) else t). intros t1 Ht1. cbv zeta.
    assert (inv true {| t1 with read_requested := false |}) as Ht2 by (revert Ht1; by apply inv_same).
    generalize dependent {| t1 with read_requested := false |}. intros t2 Ht2.
    pose proof (bite_on_inv true t2 Ht2) as Ht3. destruct (hm2_watchdog_bite_on_ioerror t2) as [[] t3]; [done |]. cbn [snd] in Ht3.
    pose proof (act_inv true (Module "hm2_finish_read") t3 I Ht3) as Ht4. destruct (act (Module "hm2_finish_read") t3) as [r t4]. cbn [snd] in Ht4.
    destruct (r =? _); [done |].
    pose proof (bite_on_inv true t4 Ht4) as Ht5. destruct (hm2_watchdog_bite_on_ioerror t4) as [[] t5]; [done |]. cbn [snd] in Ht5 |- *.
    by apply modules_inv, process_inv.
  - unfold hm2_write. pose proof (bite_on_inv true t Ht) as Ht1. destruct (hm2_watchdog_bite_on_ioerror t) as [[] t1]; [done |]. cbn [snd] in Ht1 |- *. cbv zeta.
    apply modules_inv, watchdog_write_inv, modules_inv. apply (modules_inv true prepare_modules) in Ht1. generalize dependent (modules prepare_modules t1).
    intros t2 Ht2. unfold hm2_watchdog_prepare_tram_write. destruct (_ <=? 0); [done |]. revert Ht2. by apply inv_same.
  - unfold hm2_read_gpio. pose proof (bite_on_inv true t Ht) as Ht1. destruct (hm2_watchdog_bite_on_ioerror t) as [[] t1]; [done |]. cbn [snd] in Ht1 |- *.
    by apply modules_inv.
  - unfold hm2_write_gpio. pose proof (bite_on_inv true t Ht) as Ht1. destruct (hm2_watchdog_bite_on_ioerror t) as [[] t1]; [done |]. cbn [snd] in Ht1 |- *.
    by apply watchdog_write_inv, modules_inv.
Qed.

Lemma card_reachable_inv t : reachable t -> inv true t.
Proof.
  induction 1 as [t (H1 & H2 & H3 & H4 & H5) | t t' Hr IH Hs].
  - split; [done | by rewrite H5 | by rewrite H5].
  - destruct Hs; [by apply funct_inv | revert IH; by apply inv_same..].
Qed.

(** ** The log grows *)
Lemma grows_same t t' : log t' = log t -> grows t t'.
Proof. intros E. unfold grows. by rewrite E. Qed.

Lemma modules_grows l t : grows t (modules l t).
Proof. apply acts_grows. Qed.

Lemma watchdog_force_grows t : grows t (hm2_watchdog_force_write t).
Proof.
  destruct (Z.eq_dec (num_instances t) 1) as [E | E].
  - destruct (force_write_calls t E) as (s & Hl). unfold grows. rewrite Hl. by eexists.
  - unfold hm2_watchdog_force_write. by rewrite (proj2 (Z.eqb_neq _ _) E).
Qed.

Lemma soft_reset_grows t : grows t (soft_reset t).
Proof.
  unfold soft_reset. destruct (needs_soft_reset t); [| reflexivity]. unfold hm2_force_write. etrans; [| apply modules_grows].
  etrans; [| apply watchdog_force_grows]. by apply grows_same.
Qed.

Lemma watchdog_write_grows t : grows t (hm2_watchdog_write t).
Proof.
  unfold hm2_watchdog_write. cbv zeta. pose proof (soft_reset_grows {| t with enable := 1 |}) as Hg. generalize dependent (soft_reset {| t with enable := 1 |}). intros t1 Hg.
  destruct (negb _); [reflexivity |]. destruct (io_error t); [reflexivity |]. destruct (has_bit t); [reflexivity |].
  destruct (_ && _); [exact Hg |]. etrans; [exact Hg | apply watchdog_force_grows].
Qed.

(** A function that starts with the check, and does nothing more when that
    says so. *)
Definition guarded (g : T -> Z * T) : Prop :=
  forall t, let '(stop, t1) := hm2_watchdog_bite_on_ioerror t in if stop then snd (g t) = t1 else grows t1 (snd (g t)).

Lemma guarded_grows g t : guarded g -> grows t (snd (g t)).
Proof.
  intros Hg. specialize (Hg t). pose proof (bite_on_grows t) as Hb. destruct (hm2_watchdog_bite_on_ioerror t) as [[] t1]; [by rewrite Hg |].
  by etrans.
Qed.

Lemma request_guarded : guarded hm2_read_request.
Proof.
  intros t. unfold hm2_read_request. destruct (hm2_watchdog_bite_on_ioerror t) as [[] t1]; [done |]. cbv zeta.
  transitivity (modules ["hm2_tram_read"%string] t1); [apply modules_grows |]. generalize (modules ["hm2_tram_read"%string] t1). intros t2.
  pose proof (bite_on_grows t2) as Hg. destruct (hm2_watchdog_bite_on_ioerror t2) as [[] t3]; [done |]. etrans; [exact Hg |]. cbn [snd].
  transitivity (modules ["hm2_raw_queue_read"; "hm2_tp_pwmgen_queue_read"]%string t3); [apply modules_grows |].
  generalize (modules ["hm2_raw_queue_read"; "hm2_tp_pwmgen_queue_read"]%string t3). intros t4.
  pose proof (bite_on_grows t4) as Hg4. destruct (hm2_watchdog_bite_on_ioerror t4) as [[] t5]; [done |]. etrans; [exact Hg4 |]. cbn [snd].
  etrans; [apply (modules_grows ["hm2_queue_read"%string]) |]. by apply grows_same.
Qed.

(** [hm2_read] after the request. *)
Definition read_rest (t : T) : Z * T :=
  let '(stop, t) := hm2_watchdog_bite_on_ioerror t in
  if stop then (-1, t)
  else
    let '(r, t) := act (Module "hm2_finish_read") t in
    if r =? - EAGAIN then (-1, t)
    else
      let '(stop, t) := hm2_watchdog_bite_on_ioerror t in
      if stop then (-1, t) else (0, modules read_modules (hm2_watchdog_process_tram_read t)).

Lemma hm2_read_rest t : hm2_read t = read_rest {| (if negb (read_requested t) then snd (hm2_read_request t) else t) with read_requested := false |}.
Proof. done. Qed.

Lemma read_rest_guarded : guarded read_rest.
Proof.
  intros t. unfold read_rest. destruct (hm2_watchdog_bite_on_ioerror t) as [[] t1]; [done |].
  pose proof (act_grows (Module "hm2_finish_read") t1) as Ha. destruct (act (Module "hm2_finish_read") t1) as [r t2]. cbn [snd] in Ha.
  destruct (r =? _); [done |]. pose proof (bite_on_grows t2) as Hg. destruct (hm2_watchdog_bite_on_ioerror t2) as [[] t3]; (etrans; [exact Ha |]); [done |].
  cbn [snd] in *. etrans; [exact Hg |]. etrans; [apply process_grows | apply modules_grows].
Qed.

Lemma write_guarded : guarded hm2_write.
Proof.
  intros t. unfold hm2_write. destruct (hm2_watchdog_bite_on_ioerror t) as [[] t1]; [done |]. cbv zeta. cbn [snd].
  etrans; [| apply modules_grows]. etrans; [| apply watchdog_write_grows]. etrans; [| apply modules_grows].
  etrans; [apply (modules_grows prepare_modules) |]. apply grows_same. unfold hm2_watchdog_prepare_tram_write. by destruct (_ <=? 0).
Qed.

Lemma gpio_guarded : guarded hm2_read_gpio /\ guarded hm2_write_gpio.
Proof.
  split; intros t; [unfold hm2_read_gpio | unfold hm2_write_gpio]; (destruct (hm2_watchdog_bite_on_ioerror t) as [[] t1]; [done |]); cbn [snd].
  - apply modules_grows.
  - etrans; [apply (modules_grows ["hm2_ioport_gpio_write"%string]) | apply watchdog_write_grows].
Qed.

(** ** After a bite *)

(** Nothing happens to the card, or, when a reset is due, it is the first
    thing, if the board has one. *)
Definition resets : list call := if has_io_reset then [IoReset; DpllReset] else [].
Definition protected (t t' : T) : Prop :=
  if has_bit t then log t' = log t
  else if io_error t then log t' = log t ++ (if needs_reset t then [] else [Bite])
  else if needs_reset t then (log t ++ resets) `prefix_of` log t'
  else log t `prefix_of` log t'.

Lemma bite_on_protected t : num_instances t = 1 ->
  let '(stop, t1) := hm2_watchdog_bite_on_ioerror t in
  protected t t1 /\ num_instances t1 = 1 /\ stop = has_bit t || io_error t /\ (stop = true -> has_bit t1 = true \/ (io_error t1 = true /\ needs_reset t1 = true)).
Proof.
  intros H1. unfold hm2_watchdog_bite_on_ioerror, protected. rewrite H1. cbn [Z.eqb]. destruct (has_bit t) eqn:Eb; [by auto |].
  destruct (io_error t) eqn:Ei; [destruct (needs_reset t) eqn:En; rewrite ?app_nil_r; split_and!; auto |].
  destruct (needs_reset t); [| by auto]. unfold watchdog_handle_reset, resets. destruct has_io_reset; cbn [log num_instances].
  - rewrite acts_log. pose proof (acts_pins [IoReset; DpllReset] t) as (_ & -> & _). done.
  - by rewrite app_nil_r.
Qed.

Lemma protected_grows t t1 t2 : protected t t1 -> has_bit t || io_error t = false -> grows t1 t2 -> protected t t2.
Proof.
  unfold protected, grows. intros Hp [Eb Ei]%orb_false_iff Hg. rewrite Eb, Ei in *. by destruct (needs_reset t); etrans.
Qed.

Lemma guarded_protected g t : guarded g -> num_instances t = 1 -> protected t (snd (g t)).
Proof.
  intros Hg Ht. specialize (Hg t). pose proof (bite_on_protected t Ht) as Hp. destruct (hm2_watchdog_bite_on_ioerror t) as [[] t1]; destruct Hp as (Hp & _ & Hs & _).
  - by rewrite Hg.
  - by eapply protected_grows.
Qed.

(** When the check has said so once, it says so again. *)
Lemma guarded_stops g t : guarded g -> num_instances t = 1 -> has_bit t = true \/ (io_error t = true /\ needs_reset t = true) -> snd (g t) = t.
Proof.
  intros Hg Ht Hs. specialize (Hg t). unfold hm2_watchdog_bite_on_ioerror in Hg. rewrite Ht in Hg. cbn [Z.eqb] in Hg.
  destruct (has_bit t); [done |]. destruct Hs as [| [Hi Hn]]; [done |]. by rewrite Hi, Hn in Hg.
Qed.

Lemma read_protected t : num_instances t = 1 -> protected t (snd (hm2_read t)).
Proof.
  intros Ht. rewrite hm2_read_rest. destruct (read_requested t); cbn [negb].
  { apply (guarded_protected read_rest {| t with read_requested := false |}); [apply read_rest_guarded | done]. }
  pose proof (guarded_protected _ t request_guarded Ht) as Hp. destruct (has_bit t || io_error t) eqn:Es.
  - pose proof (bite_on_protected t Ht) as Hb. pose proof (request_guarded t) as Hg. destruct (hm2_watchdog_bite_on_ioerror t) as [stop t1]. destruct Hb as (_ & Hn & Hstop & Hagain).
    rewrite Es in Hstop. subst stop. rewrite Hg in *. by rewrite (guarded_stops read_rest {| t1 with read_requested := false |}); [| apply read_rest_guarded | | apply Hagain].
  - eapply protected_grows; [exact Hp | exact Es |]. generalize (snd (hm2_read_request t)). intros t1.
    exact (guarded_grows read_rest {| t1 with read_requested := false |} read_rest_guarded).
Qed.

(** C29: After a bite.  In every sequence of calls of the functs of a card,
    with the user changing the pins in between, whatever the board does: a
    funct does nothing to the card while the [has_bit] pin is set or there is
    an I/O error, which bites if it is new; once the user has cleared both and
    a reset is due, resetting the board and the driver's clock is the first
    thing that the next funct does, if the board can be reset.  From a bite on
    a reset is due until it has been done, on a board that has one; on every
    board the settings are due until they have been written. *)
Theorem bitten_card_protected f t : reachable t ->
  protected t (snd (call_funct f t)) /\
  (has_io_reset = true -> bitten (log t) = true -> needs_reset t = true) /\
  (stale (log t) = true -> needs_soft_reset t = true).
Proof.
  intros Hr. apply card_reachable_inv in Hr as [H1 H2 H3]. split; [| by auto].
  destruct f; cbn [call_funct]; [| by apply read_protected | | |]; apply guarded_protected; try done;
    [apply request_guarded | apply write_guarded | apply gpio_guarded..].
Qed.

(** ** The write after the reset *)

(** A board on which no call fails. *)
Definition healthy : Prop := forall c h, let o := fst (transfer c h) in fails o = false /\ wants_reset o = false /\ wants_soft_reset o = false.

Lemma act_healthy c t : healthy -> let t' := snd (act c t) in io_error t' = io_error t /\ needs_reset t' = needs_reset t /\ needs_soft_reset t' = needs_soft_reset t.
Proof.
  intros Hh. unfold act. specialize (Hh c (card t)). destruct (transfer c (card t)) as [o h]. cbn in *. destruct Hh as (-> & -> & ->).
  by rewrite !orb_false_r.
Qed.

Lemma acts_healthy l t : healthy -> let t' := acts l t in io_error t' = io_error t /\ needs_reset t' = needs_reset t /\ needs_soft_reset t' = needs_soft_reset t.
Proof.
  intros Hh. unfold acts. revert t. induction l as [| c l IH]; intros t; cbn [fold_left]; [done |].
  destruct (act_healthy c t Hh) as (A & B & C), (IH (snd (act c t))) as (D & E & F). split_and!; congruence.
Qed.

(** The pins and flags of a card that is being driven. *)
Definition running (t : T) : Prop := num_instances t = 1 /\ has_bit t = false /\ io_error t = false /\ needs_reset t = false.

Lemma acts_running l t : healthy -> running t -> running (acts l t) /\ needs_soft_reset (acts l t) = needs_soft_reset t.
Proof.
  intros Hh (A & B & C & D). destruct (acts_healthy l t Hh) as (E & F & G). destruct (acts_pins l t) as (P & Q & _).
  split; [split_and!; congruence | done].
Qed.

Lemma set_timer_running t : running t -> running (set_timer t) /\ needs_soft_reset (set_timer t) = needs_soft_reset t.
Proof. unfold set_timer. destruct (enable t =? 0); [done |]. by destruct (_ <? _). Qed.

Lemma watchdog_force_running t : healthy -> running t ->
  running (hm2_watchdog_force_write t) /\ needs_soft_reset (hm2_watchdog_force_write t) = needs_soft_reset t.
Proof.
  intros Hh Ht. unfold hm2_watchdog_force_write. rewrite (proj1 Ht). cbn [Z.eqb Pos.eqb negb]. cbv zeta.
  destruct (set_timer_running t Ht) as [H1 H2]. generalize dependent (set_timer t). intros t1 H1 H2.
  destruct (acts_running [Write (timer_addr t1) [timer_reg t1]] t1 Hh H1) as [H3 H4]. cbn [acts fold_left] in H3, H4. unfold acts in H3, H4. cbn [fold_left] in H3, H4.
  generalize dependent (snd (act (Write (timer_addr t1) [timer_reg t1]) t1)). intros t2 H3 H4.
  match goal with |- context [act ?c ?x] => destruct (acts_running [c] x Hh H3) as [H5 H6] end.
  unfold acts in H5, H6. cbn [fold_left needs_soft_reset] in H5, H6. split; [exact H5 | congruence].
Qed.

Lemma watchdog_write_settings t : healthy -> running t -> needs_soft_reset t = true ->
  exists counts status b, log (hm2_watchdog_write t) = log t ++ Write (timer_addr t) [counts] :: Write (status_addr t) [status] :: map Module force_modules ++ b /\
    running (hm2_watchdog_write t) /\ needs_soft_reset (hm2_watchdog_write t) = false.
Proof.
  intros Hh Ht Hs. pose proof Ht as (H1 & H2 & H3 & H4). unfold hm2_watchdog_write. cbv zeta.
  assert (exists counts status, log (soft_reset {| t with enable := 1 |}) = log t ++ Write (timer_addr t) [counts] :: Write (status_addr t) [status] :: map Module force_modules /\
    running (soft_reset {| t with enable := 1 |}) /\ needs_soft_reset (soft_reset {| t with enable := 1 |}) = false) as (counts & status & Hl & Hr & Hn).
  { unfold soft_reset. cbn [needs_soft_reset]. rewrite Hs. unfold hm2_force_write, modules.
    match goal with |- context [hm2_watchdog_force_write ?x] => destruct (force_write_calls x H1) as [status Hl]; destruct (watchdog_force_running x Hh Ht) as [Hr Hn];
      generalize dependent (hm2_watchdog_force_write x) end.
    intros t1 Hl Hr Hn. cbn [log timer_addr status_addr needs_soft_reset] in *. eexists _, status.
    rewrite acts_log, Hl, <- app_assoc. split; [reflexivity |].
    destruct (acts_running (map Module force_modules) t1 Hh Hr) as [Hr2 Hn2]. split; [done | congruence]. }
  generalize dependent (soft_reset {| t with enable := 1 |}). intros t1 Hl Hr Hn. rewrite H1, H2, H3. cbn [Z.eqb Pos.eqb negb]. exists counts, status.
  destruct (_ && _).
  - exists []. rewrite Hl, app_nil_r. done.
  - destruct (watchdog_force_running t1 Hh Hr) as [Hr2 Hn2], (watchdog_force_grows t1) as [b Hb]. exists b.
    rewrite Hb, Hl, <- app_assoc. split; [done |]. split; [done | congruence].
Qed.

(** The recovery.  Once the user has cleared the [has_bit] pin and the
    I/O error, and the board works again, the next write of the card, wherever
    in a sequence of calls it is, writes the timer of the watchdog, clears its
    status and writes the settings of all modules; after it the card runs
    without anything pending. *)
Theorem recovery_writes_settings t : reachable t -> healthy -> stale (log t) = true -> has_bit t = false -> io_error t = false ->
  exists a counts status b, let t' := snd (hm2_write t) in
    log t' = log t ++ a ++ Write (timer_addr t) [counts] :: Write (status_addr t) [status] :: map Module force_modules ++ b /\
    running t' /\ needs_soft_reset t' = false.
Proof.
  intros Hr Hh Hst Hb Hi. apply card_reachable_inv in Hr as [H1 _ H3]. specialize (H3 eq_refl Hst). unfold hm2_write.
  assert (exists t1 a, hm2_watchdog_bite_on_ioerror t = (false, t1) /\ log t1 = log t ++ a /\ running t1 /\ needs_soft_reset t1 = true /\
    timer_addr t1 = timer_addr t /\ status_addr t1 = status_addr t) as (t1 & a & -> & Hl1 & Hr1 & Hs1 & Ht1 & Ha1).
  { unfold hm2_watchdog_bite_on_ioerror. rewrite H1, Hb, Hi. cbn [Z.eqb]. destruct (needs_reset t) eqn:En.
    2: { exists t, []. rewrite app_nil_r. done. }
    unfold watchdog_handle_reset. destruct has_io_reset; [| by exists {| t with needs_reset := false; needs_soft_reset := true |}, []; rewrite app_nil_r].
    destruct (acts_healthy [IoReset; DpllReset] t Hh) as (A & B & C), (acts_pins [IoReset; DpllReset] t) as (D & E & _ & _ & _ & _ & F & G & _).
    pose proof (acts_log [IoReset; DpllReset] t) as L. generalize dependent (acts [IoReset; DpllReset] t). intros t1 A B C D E F G L.
    eexists _, [IoReset; DpllReset]. split; [reflexivity |]. unfold running. cbn. split_and!; congruence. }
  cbv zeta. cbn [snd].
  assert (exists t2 a2, modules ["hm2_tram_write"; "hm2_ioport_write"]%string (hm2_watchdog_prepare_tram_write (modules prepare_modules t1)) = t2 /\
    log t2 = log t ++ a2 /\ running t2 /\ needs_soft_reset t2 = true /\ timer_addr t2 = timer_addr t /\ status_addr t2 = status_addr t) as (t2 & a2 & -> & Hl2 & Hr2 & Hs2 & Ht2 & Ha2).
  { destruct (acts_running (map Module prepare_modules) t1 Hh Hr1) as [Hr2 Hs2], (acts_pins (map Module prepare_modules) t1) as (_ & _ & _ & _ & _ & _ & F & G & _).
    pose proof (acts_log (map Module prepare_modules) t1) as L. unfold modules at 2. generalize dependent (acts (map Module prepare_modules) t1). intros t2 Hr2 Hs2 F G L.
    assert (exists t3, hm2_watchdog_prepare_tram_write t2 = t3 /\ log t3 = log t2 /\ running t3 /\ needs_soft_reset t3 = needs_soft_reset t2 /\
      timer_addr t3 = timer_addr t2 /\ status_addr t3 = status_addr t2) as (t3 & -> & L3 & Hr3 & Hs3 & F3 & G3)
      by (eexists; split; [reflexivity |]; unfold hm2_watchdog_prepare_tram_write; by destruct (_ <=? 0)).
    unfold modules. destruct (acts_running (map Module ["hm2_tram_write"; "hm2_ioport_write"]%string) t3 Hh Hr3) as [Hr4 Hs4],
      (acts_pins (map Module ["hm2_tram_write"; "hm2_ioport_write"]%string) t3) as (_ & _ & _ & _ & _ & _ & F4 & G4 & _).
    eexists _, _. split; [reflexivity |]. split; [rewrite acts_log, L3, L, Hl1, <- !app_assoc; reflexivity |]. split; [done |]. split_and!; congruence. }
  destruct (watchdog_write_settings t2 Hh Hr2 Hs2) as (counts & status & b & Hl & Hr & Hs). rewrite Ht2, Ha2 in Hl.
  generalize dependent (hm2_watchdog_write t2). intros t3 Hl Hr Hs. exists a2, counts, status, (b ++ map Module write_modules).
  destruct (acts_running (map Module write_modules) t3 Hh Hr) as [Hr4 Hs4]. unfold modules. split; [| split; [done | congruence]].
  rewrite acts_log, Hl, Hl2, <- !app_assoc. cbn [app]. by rewrite <- !app_assoc.
Qed.
End Watchdog.

(** ** The timer *)
Lemma timer_counts_eq timeout clock : 0 <= timeout < 2 ^ 32 -> 0 < clock < 2 ^ 32 ->
  timer_counts timeout clock = if timeout * clock <? 1000000000 then 2 ^ 64 - 1 else timeout * clock / 1000000000 - 1.
Proof.
  intros Ht Hc. unfold timer_counts. rewrite (wrapu_small 64 (timeout * clock)) by nia.
  destruct (Z.ltb_spec (timeout * clock) 1000000000) as [Hlt | Hge].
  - rewrite Z.div_small by nia. reflexivity.
  - pose proof (Z.div_le_lower_bound (timeout * clock) 1000000000 1 ltac:(lia) ltac:(lia)).
    assert (timeout * clock / 1000000000 <= timeout * clock) by (apply Z.div_le_upper_bound; nia). rewrite wrapu_small by nia. done.
Qed.

Lemma force_write_timer {hw} `{Board hw} t : num_instances t = 1 -> enable t <> 0 -> 0 < clock_frequency t <= 500000000 -> 0 <= timeout_ns t < 2 ^ 32 ->
  timer_reg (hm2_watchdog_force_write t) =
    if timeout_ns t * clock_frequency t <? 1000000000 then 0x7FFFFFFF else timeout_ns t * clock_frequency t / 1000000000 - 1.
Proof.
  intros H1 He Hc Ht. destruct (force_write_pins t H1) as (_ & _ & ->). unfold set_timer. rewrite (proj2 (Z.eqb_neq _ _) He).
  rewrite timer_counts_eq by lia. destruct (Z.ltb_spec (timeout_ns t * clock_frequency t) 1000000000) as [Hlt | Hge]; [done |].
  rewrite (proj2 (Z.ltb_lt _ 0x80000000)); [done |]. assert (timeout_ns t * clock_frequency t / 1000000000 < 2 ^ 31); [| lia].
  apply Z.div_lt_upper_bound; nia.
Qed.

(** The timer of the watchdog.  For every timeout and a clock of at most
    500 MHz: a timeout of at least one tick of the clock is written as the
    number of ticks, rounded down, so that the watchdog bites at most one
    tick early and never late; a timeout shorter than a tick, 0 included, is
    written as the longest time the register can hold. *)
Theorem timer_register {hw} `{Board hw} t : num_instances t = 1 -> enable t <> 0 -> 0 < clock_frequency t <= 500000000 -> 0 <= timeout_ns t < 2 ^ 32 ->
  let counts := timer_reg (hm2_watchdog_force_write t) in
  if timeout_ns t * clock_frequency t <? 1000000000 then counts = 0x7FFFFFFF
  else 0 <= counts < 2 ^ 31 /\ (counts + 1) * 1000000000 <= timeout_ns t * clock_frequency t < (counts + 2) * 1000000000.
Proof.
  intros H1 He Hc Ht. cbv zeta. rewrite force_write_timer by done.
  destruct (Z.ltb_spec (timeout_ns t * clock_frequency t) 1000000000) as [Hlt | Hge]; [done |].
  pose proof (Z.div_mod (timeout_ns t * clock_frequency t) 1000000000 ltac:(lia)). pose proof (Z.mod_pos_bound (timeout_ns t * clock_frequency t) 1000000000 ltac:(lia)).
  assert (timeout_ns t * clock_frequency t / 1000000000 < 2 ^ 31) by (apply Z.div_lt_upper_bound; nia). lia.
Qed.

(** Unloading asks for the shortest timeout, one nanosecond, to have the board
    stop its outputs, and gets the longest. *)
Theorem unregister_longest {hw} `{Board hw} t : num_instances t = 1 -> 0 < clock_frequency t <= 500000000 ->
  exists status, log (hm2_unregister t) = log t ++ [Write (timer_addr t) [0x7FFFFFFF]; Write (status_addr t) [status]].
Proof.
  intros H1 Hc. unfold hm2_unregister. rewrite H1. cbn [Z.ltb Z.compare].
  match goal with |- context [hm2_watchdog_force_write ?x] => destruct (force_write_calls x eq_refl) as [status Hl];
    destruct (force_write_pins x eq_refl) as (_ & _ & Hp); pose proof (force_write_timer x eq_refl) as Ht end.
  cbn [enable timeout_ns clock_frequency timer_addr status_addr log] in *. exists status. rewrite Hl, <- Hp, Ht by lia.
  rewrite (proj2 (Z.ltb_lt _ _)) by lia. done.
Qed.

(** ** Witnesses *)

(** A board on which nothing fails; its watchdog has bitten when it is read
    for the first time. *)
#[local] Instance biting_board : Board bool := {
  transfer c bites := match c with
    | Module f => if bool_decide (f = "hm2_finish_read"%string) then (Outcome false false false (Some (Z.b2z bites)) 0, false)
                  else (Outcome false false false None 0, bites)
    | _ => (Outcome false false false None 0, bites) end;
  has_io_reset := true;
  conversion _ := 0;
}.
Definition fresh_card : hostmot2_t bool :=
  Hostmot2 1 false 5000000 0 0 0 100000000 0x0c00 0 0x0d00 0 0 false false false false true [].
Definition bitten_card : hostmot2_t bool := snd (call_funct Read fresh_card).

Lemma bitten_card_reachable b : reachable {| bitten_card with has_bit := b |}.
Proof. apply (Step bitten_card); [| apply SetHasBit]. apply (Step fresh_card); [| apply (Funct Read)]. by constructor. Qed.

Lemma bitten_card_protected_witness : let t := {| bitten_card with has_bit := false |} in
  bitten (log t) = true /\ protected t (snd (call_funct Wr t)) /\ (has_io_reset = true -> bitten (log t) = true -> needs_reset t = true) /\
  (stale (log t) = true -> needs_soft_reset t = true).
Proof. split; [vm_compute; reflexivity | apply (bitten_card_protected Wr {| bitten_card with has_bit := false |}), bitten_card_reachable]. Defined.

Lemma recovery_writes_settings_witness : exists a counts status b, let t := {| bitten_card with has_bit := false |} in let t' := snd (hm2_write t) in
  log t' = log t ++ a ++ Write 0x0c00 [counts] :: Write 0x0d00 [status] :: map Module force_modules ++ b /\ running t' /\ needs_soft_reset t' = false.
Proof.
  apply (recovery_writes_settings {| bitten_card with has_bit := false |}); [apply bitten_card_reachable | | vm_compute; reflexivity..].
  intros [] h; try done. cbn. by destruct (bool_decide _).
Defined.

Lemma timer_register_witness : let t := {| fresh_card with enable := 1 |} in let counts := timer_reg (hm2_watchdog_force_write t) in
  if timeout_ns t * clock_frequency t <? 1000000000 then counts = 0x7FFFFFFF
  else 0 <= counts < 2 ^ 31 /\ (counts + 1) * 1000000000 <= timeout_ns t * clock_frequency t < (counts + 2) * 1000000000.
Proof. apply (timer_register {| fresh_card with enable := 1 |}); cbn; lia. Defined.

(** A card that is unloaded would let its outputs run for another 21 s. *)
Example unregister_example : log (hm2_unregister fresh_card) = [Write 0x0c00 [0x7FFFFFFF]; Write 0x0d00 [0]].
Proof. vm_compute. reflexivity. Qed.

(** The header of the driver leaves the reset to the next write; a read of the
    ports does it as well. *)
Example read_resets : let t := {| bitten_card with has_bit := false |} in
  log (snd (call_funct ReadGpio t)) = log t ++ [IoReset; DpllReset; Module "hm2_ioport_gpio_read"].
Proof. vm_compute. reflexivity. Qed.

(** Without a reset of the board the card is written to at once, although the
    driver has seen it bite: here the ports, before the settings. *)
Definition no_reset_board : Board bool := {| transfer := transfer; has_io_reset := false; conversion := conversion |}.
Definition bitten_no_reset : hostmot2_t bool := (let t := snd (@call_funct _ no_reset_board Read fresh_card) in {| t with has_bit := false |}).
Example no_reset_write : needs_reset bitten_no_reset = true /\
  log (snd (@call_funct _ no_reset_board WriteGpio bitten_no_reset)) !! length (log bitten_no_reset) = Some (Module "hm2_ioport_gpio_write").
Proof. vm_compute. done. Qed.
