(* ===== verification/Hm2Pins.v ===== *)
(** * Pins and ports of a hostmot2 card
      (modules/managed/drivers/hostmot2/hostmot2_core/src/pins.c, ioport.c)

    The firmware of a card describes its pins: each is a general-purpose pin
    of a port and may be taken by another module.  The driver hands the pins
    out, exports HAL pins for them, and keeps the registers of the ports up to
    date.  The board is a parameter ([PinBoard]), and so are the allocation
    of memory and of HAL pins ([PinHost]). *)
From S2P Require Import Prelude.

(** The low-level driver of a board with state [hw]: a read tells whether it
    has succeeded, and gives words, or has stored nothing; the driver does not
    look at the result of a write. *)
Class PinBoard (hw : Type) := {
  llio_read : Z -> Z -> hw -> bool * list Z * hw;       (* address, number of words *)
  llio_write : Z -> list Z -> hw -> hw;                 (* address, words *)
}.

(** Allocations and new HAL pins that succeed. *)
Class PinHost := {
  kmalloc : nat -> bool;                                (* the n-th block of a function *)
  hal_malloc : Z -> bool;                               (* for the pin with this number *)
  hal_pin_bit_newf : string -> Z -> bool;
}.

Module Pins.

Definition EIO : Z := 5.

Definition HM2_GTAG_IOPORT : Z := 3.
Definition HM2_GTAG_STEPGEN : Z := 5.
Definition HM2_PIN_SOURCE_IS_PRIMARY : Z := 0.
Definition HM2_PIN_SOURCE_IS_SECONDARY : Z := 1.
Definition HM2_PIN_DIR_IS_INPUT : Z := 2.
Definition HM2_PIN_DIR_IS_OUTPUT : Z := 4.
Definition HM2_MAX_PIN_DESCRIPTORS : Z := 1000.

(** ** State *)

(** The HAL pins of a pin; [None] is a NULL pointer. *)
Record hm2_gpio_instance_t := Gpio {
  in_ : option bool;
  in_not : option bool;
  out : option bool;
  is_output : option bool;
  is_opendrain : option bool;
  invert_output : option bool;
}.

Record hm2_pin_t := Pin {
  sec_pin : Z;
  sec_tag : Z;
  sec_unit : Z;
  primary_tag : Z;
  port_num : Z;
  port_pin : Z;
  bit_num : Z;
  gtag : Z;                     (* the function that uses the pin *)
  direction : Z;
  instance : option hm2_gpio_instance_t;
}.

(** Of the ID ROM, what describes the ports. *)
Record idrom_t := Idrom { io_ports : Z; io_width : Z; port_width : Z; offset_to_pin_desc : Z }.

Record hm2_module_descriptor_t := Md {
  md_gtag : Z;
  md_version : Z;
  md_clock_freq : Z;
  md_instances : Z;
  md_base_address : Z;
  md_num_registers : Z;
  md_register_stride : Z;
  md_instance_stride : Z;
  md_multiple_registers : Z;
}.

Record hm2_ioport_t := Ioport {
  num_instances : Z;
  clock_frequency : Z;
  version : Z;
  data_addr : Z;
  ddr_addr : Z;
  alt_source_addr : Z;
  open_drain_addr : Z;
  output_invert_addr : Z;
  data_read_reg : list Z;
  data_write_reg : list Z;
  ddr_reg : list Z;
  written_ddr : list Z;
  alt_source_reg : list Z;
  open_drain_reg : list Z;
  written_open_drain : list Z;
  output_invert_reg : list Z;
  written_output_invert : list Z;
}.

Record hostmot2_t := Hostmot2 {
  idrom : idrom_t;
  idrom_offset : Z;
  pins_per_connector : Z;       (* of the low-level driver *)
  num_ioport_connectors : Z;
  has_dmsg : bool;              (* fwid.dmsg is not NULL *)
  num_pins : Z;
  pin : list hm2_pin_t;
  ioport : hm2_ioport_t;
}.

(** [for (i = a; i < a + n; i++)] *)
Fixpoint for_from {S} (n : nat) (a : Z) (f : Z -> M S unit) : M S unit :=
  match n with O => mret tt | Datatypes.S n => f a ≫= fun _ => for_from n (a + 1) f end.
Definition for_ {S} (n : Z) (f : Z -> M S unit) : M S unit := for_from (Z.to_nat n) 0 f.

(** Set or clear the bit [i] of a register. *)
Definition put_bit (b : bool) (i w : Z) : Z :=
  if b then Z.lor w (u32 (Z.shiftl 1 i)) else Z.land w (u32 (Z.lnot (Z.shiftl 1 i))).

Section Operations.
Context {hw : Type} `{PinBoard hw} `{PinHost}.

Abbreviation T := (hostmot2_t * hw)%type.

Definition state : M T hostmot2_t := s ← get; mret (fst s).
Definition change (f : hostmot2_t -> hostmot2_t) : M T unit := modify (fun s => (f (fst s), snd s)).
Definition set_ioport (f : hm2_ioport_t -> hm2_ioport_t) : M T unit := change (fun h => {| h with ioport := f (ioport h) |}).

Definition read (addr words : Z) : M T (bool * list Z) :=
  s ← get;
  let '(ok, d, h) := llio_read addr words (snd s) in
  modify (fun s => (fst s, h)) ≫= fun _ => mret (ok, d).
Definition write (addr : Z) (d : list Z) : M T unit := modify (fun s => (fst s, llio_write addr d (snd s))).

(** An element of an array; outside of the array, C leaves it undefined. *)
Definition at_ {A} (l : list A) (i : Z) : M T A :=
  match (if 0 <=? i then l !! Z.to_nat i else None) with Some x => mret x | None => crash end.
(** A HAL pin through its pointer. *)
Definition deref (b : option bool) : M T bool := match b with Some b => mret b | None => crash end.
Definition gpio (p : hm2_pin_t) : M T hm2_gpio_instance_t := match instance p with Some g => mret g | None => crash end.

Definition get_pin (i : Z) : M T hm2_pin_t := h ← state; at_ (pin h) i.
Definition set_pin (i : Z) (f : hm2_pin_t -> hm2_pin_t) : M T unit :=
  p ← get_pin i; change (fun h => {| h with pin := <[Z.to_nat i := f p]> (pin h) |}).

(** One bit of a register of a port. *)
Definition put (reg : hm2_ioport_t -> list Z) (set : list Z -> hm2_ioport_t -> hm2_ioport_t) (b : bool) (port i : Z) : M T unit :=
  h ← state; w ← at_ (reg (ioport h)) port; set_ioport (set (<[Z.to_nat port := put_bit b i w]> (reg (ioport h)))).

(** ** Pins (pins.c, and the checks of hm2_read_idrom) *)

Definition check_idrom : M T Z :=
  h ← state;
  let d := idrom h in
  if negb (port_width d =? pins_per_connector h) then mret (- EINVAL)
  else if negb (io_width d =? u32 (io_ports d * port_width d)) then mret (- EINVAL)
  else if negb (io_ports d =? num_ioport_connectors h) then mret (- EINVAL)
  else if HM2_MAX_PIN_DESCRIPTORS <? io_width d then mret (- EINVAL)
  else mret 0.

Definition DB25 : list Z := [1; 14; 2; 15; 3; 16; 4; 17; 5; 6; 7; 8; 9; 10; 11; 12; 13].

(** The number of a pin on its connector. *)
Definition connector_pin (i : Z) (h : hostmot2_t) (old : Z) : Z :=
  if has_dmsg h then u8 (i + 1)
  else if port_width (idrom h) =? 24 then u8 (i `mod` 24 * 2 + 1)
  else if port_width (idrom h) =? 17 then nth (Z.to_nat (i `mod` 17)) DB25 0
  else if port_width (idrom h) =? 32 then u8 (i + 1)
  else old.

Definition read_pin_descriptor (i addr : Z) : M T Z :=
  h ← state;
  p ← get_pin i;
  '(ok, d) ← read addr 1;
  if negb (ok : bool) then mret (- EIO)
  else
    d ← at_ d 0;
    let p := {| p with sec_pin := Z.land d 0xFF; sec_tag := Z.land (Z.shiftr d 8) 0xFF; sec_unit := Z.land (Z.shiftr d 16) 0xFF;
                primary_tag := Z.land (Z.shiftr d 24) 0xFF |} in
    set_pin i (fun _ => p) ≫= fun _ =>
    if primary_tag p =? 0 then mret (- EINVAL)
    else if negb (primary_tag p =? HM2_GTAG_IOPORT) then mret (- EINVAL)
    else if port_width (idrom h) =? 0 then crash
    else
      let p := {| p with gtag := primary_tag p; port_num := u8 (i / port_width (idrom h)) |} in
      set_pin i (fun _ => p) ≫= fun _ =>
      if num_ioport_connectors h <=? port_num p then mret (- EINVAL)
      else
        let p := {| p with bit_num := u8 (i `mod` port_width (idrom h)) |} in
        set_pin i (fun _ => p) ≫= fun _ =>
        if 31 <? bit_num p then mret (- EINVAL)
        else set_pin i (fun p => {| p with port_pin := connector_pin i h (port_pin p) |}) ≫= fun _ => mret 0.

Fixpoint read_pin_descriptors (n : nat) (i addr : Z) : M T Z :=
  match n with
  | O => mret 0
  | S n => r ← read_pin_descriptor i addr; if r =? 0 then read_pin_descriptors n (i + 1) (addr + 4) else mret r
  end.

(** [fresh]: the new array, before anything is stored. *)
Definition hm2_read_pin_descriptors (fresh : Z -> list hm2_pin_t) : M T Z :=
  change (fun h => {| h with num_pins := io_width (idrom h) |}) ≫= fun _ =>
  if negb (kmalloc 0) then mret (- ENOMEM)
  else
    change (fun h => {| h with pin := fresh (num_pins h) |}) ≫= fun _ =>
    h ← state;
    read_pin_descriptors (Z.to_nat (num_pins h)) 0 (idrom_offset h + offset_to_pin_desc (idrom h)).

Definition set_alt_source (l : list Z) (io : hm2_ioport_t) : hm2_ioport_t := {| io with alt_source_reg := l |}.

Definition valid_pin (h : hostmot2_t) (i : Z) : bool := negb ((i <? 0) || (num_pins h <=? i) || (num_instances (ioport h) <=? 0)).

Definition hm2_set_pin_source (pin_number source : Z) : M T unit :=
  h ← state;
  if negb (valid_pin h pin_number) then mret tt
  else
    p ← get_pin pin_number;
    if source =? HM2_PIN_SOURCE_IS_PRIMARY then
      put alt_source_reg set_alt_source false (port_num p) (bit_num p) ≫= fun _ =>
      set_pin pin_number (fun p => {| p with gtag := primary_tag p |})
    else if source =? HM2_PIN_SOURCE_IS_SECONDARY then
      put alt_source_reg set_alt_source true (port_num p) (bit_num p) ≫= fun _ =>
      set_pin pin_number (fun p => {| p with gtag := sec_tag p |})
    else mret tt.

Definition hm2_set_pin_direction (pin_number dir : Z) : M T unit :=
  h ← state;
  if negb (valid_pin h pin_number) then mret tt
  else if negb (dir =? HM2_PIN_DIR_IS_INPUT) && negb (dir =? HM2_PIN_DIR_IS_OUTPUT) then mret tt
  else set_pin pin_number (fun p => {| p with direction := dir |}).

(** A module takes a pin. *)
Definition take_pin (i : Z) : M T unit :=
  hm2_set_pin_source i HM2_PIN_SOURCE_IS_SECONDARY ≫= fun _ =>
  p ← get_pin i;
  if Z.testbit (sec_pin p) 7 then hm2_set_pin_direction i HM2_PIN_DIR_IS_OUTPUT else mret tt.

(** Is the pin one of the pins of the enabled instances of a module? *)
Definition of_module (tag instances : Z) (p : hm2_pin_t) : bool :=
  (sec_tag p =? tag) && ((sec_unit p <? instances) || (Z.testbit (sec_unit p) 7 && (0 <? instances))).
Definition of_stepgen (instances width : Z) (p : hm2_pin_t) : bool :=
  negb (negb (sec_tag p =? HM2_GTAG_STEPGEN) || (instances <=? sec_unit p) || (width <? Z.land (sec_pin p) 0x7F)).

Definition allocate_if (wanted : hm2_pin_t -> bool) : M T unit :=
  h ← state; for_ (num_pins h) (fun i => p ← get_pin i; if wanted p then take_pin i else mret tt).
Definition hm2_pins_allocate_all (tag instances : Z) : M T unit := allocate_if (of_module tag instances).
Definition hm2_stepgen_allocate_pins (instances width : Z) : M T unit := allocate_if (of_stepgen instances width).

(** The numbers of instances that are enabled. *)
Record enabled := Enabled {
  stepgens : Z; stepgen_width : Z; encoders : Z; resolvers : Z; pwmgens : Z; tp_pwmgens : Z; bspis : Z; dbspis : Z;
  uarts : Z; pktuarts : Z; sserials : Z; muxed_encoders : Z; dplls : Z;
}.
Definition MAX_ABSENCS : Z := 32.

(** The modules that take all their pins, with the numbers of instances. *)
Definition takers (e : enabled) : list (Z * Z) :=
  [(4, encoders e); (8, MAX_ABSENCS); (24, MAX_ABSENCS); (25, MAX_ABSENCS); (192, resolvers e); (6, pwmgens e); (19, tp_pwmgens e);
   (14, bspis e); (15, dbspis e); (10, uarts e); (9, uarts e); (28, pktuarts e); (27, pktuarts e); (193, sserials e);
   (13, muxed_encoders e); (12, Z.quot (muxed_encoders e + 1) 2); (26, dplls e); (136, 1)].

Fixpoint allocate_all (l : list (Z * Z)) : M T unit :=
  match l with [] => mret tt | (tag, n) :: l => hm2_pins_allocate_all tag n ≫= fun _ => allocate_all l end.

Definition hm2_configure_pins (e : enabled) : M T unit :=
  h ← state;
  for_ (num_pins h) (fun i =>
    hm2_set_pin_source i HM2_PIN_SOURCE_IS_PRIMARY ≫= fun _ =>
    hm2_set_pin_direction i HM2_PIN_DIR_IS_INPUT) ≫= fun _ =>
  hm2_stepgen_allocate_pins (stepgens e) (stepgen_width e) ≫= fun _ =>
  allocate_all (takers e).

End Operations.

End Pins.

(** ** Ports: ioport.c

    A port has registers for data, direction, source, open drain and inverted
    output, with a bit for each pin.  The driver computes them from the HAL
    pins, and writes those that have changed. *)
Import Pins.

Module Ioport.

Section Operations.
Context {hw : Type} `{PinBoard hw} `{PinHost}.
Abbreviation T := (hostmot2_t * hw)%type.

Definition hm2_md_is_consistent (md : hm2_module_descriptor_t) (version num_registers instance_stride multiple_registers : Z) : bool :=
  (md_num_registers md =? num_registers) && (md_version md =? version) && (md_instance_stride md =? instance_stride) &&
  (md_multiple_registers md =? multiple_registers).

(** No port: what a failure leaves. *)
Definition no_ports (io : hm2_ioport_t) : hm2_ioport_t := {| io with num_instances := 0 |}.

(** The registers of the module; [reg_read] and [reg_write] are what the
    registration of the data register in the TRAM returns.  Blocks that are
    freed are not reached any more, as there are no ports. *)
Definition hm2_ioport_parse_md (md : hm2_module_descriptor_t) (reg_read reg_write : Z) : M T Z :=
  h ← state;
  if negb (hm2_md_is_consistent md 0 5 4 0x1F) then mret (- EINVAL)
  else if negb (num_instances (ioport h) =? 0) then mret (- EINVAL)
  else if negb (io_ports (idrom h) =? md_instances md) then mret (- EINVAL)
  else
    let n := md_instances md in
    let reg k := md_base_address md + k * md_register_stride md in
    set_ioport (fun io => {| io with num_instances := n; clock_frequency := md_clock_freq md; version := md_version md;
      data_addr := reg 0; ddr_addr := reg 1; alt_source_addr := reg 2; open_drain_addr := reg 3; output_invert_addr := reg 4 |}) ≫= fun _ =>
    if reg_read <? 0 then set_ioport no_ports ≫= fun _ => mret reg_read
    else if reg_write <? 0 then set_ioport no_ports ≫= fun _ => mret reg_write
    else if negb (forallb kmalloc (seq 0 7)) then set_ioport no_ports ≫= fun _ => mret (- ENOMEM)
    else
      let zeros := replicate (Z.to_nat n) 0 in
      set_ioport (fun io => {| io with ddr_reg := zeros; written_ddr := zeros; alt_source_reg := zeros; open_drain_reg := zeros;
        written_open_drain := zeros; output_invert_reg := zeros; written_output_invert := zeros |}) ≫= fun _ =>
      mret n.

(** ** HAL pins *)

(** The names of the HAL pins, in the order of their creation. *)
Definition pin_names (p : hm2_pin_t) : list string :=
  ["in"; "in_not"] ++
  (if (gtag p =? HM2_GTAG_IOPORT) || (direction p =? HM2_PIN_DIR_IS_OUTPUT) then ["invert_output"; "is_opendrain"] else []) ++
  (if gtag p =? HM2_GTAG_IOPORT then ["out"; "is_output"] else []).

(** A new HAL pin is false. *)
Definition gpio_of (names : list string) : hm2_gpio_instance_t :=
  let value (name : string) := if existsb (String.eqb name) names then Some false else None in
  {| in_ := value "in"; in_not := value "in_not"; out := value "out"; is_output := value "is_output"; is_opendrain := value "is_opendrain";
     invert_output := value "invert_output" |}.

(** Up to the first that fails. *)
Fixpoint made_pins (i : Z) (names : list string) : list string :=
  match names with
  | [] => []
  | name :: names => if hal_pin_bit_newf name i then name :: made_pins i names else []
  end.

Definition export_pin (i : Z) : M T Z :=
  p ← get_pin i;
  if negb (hal_malloc i) then set_pin i (fun p => {| p with instance := None |}) ≫= fun _ => mret (- ENOMEM)
  else
    let made := made_pins i (pin_names p) in
    set_pin i (fun p => {| p with instance := Some (gpio_of made) |}) ≫= fun _ =>
    mret (if (length made =? length (pin_names p))%nat then 0 else - EINVAL).

Fixpoint export_pins (n : nat) (i : Z) : M T Z :=
  match n with
  | O => mret 0
  | S n => r ← export_pin i; if r =? 0 then export_pins n (i + 1) else mret r
  end.
Definition hm2_ioport_gpio_export_hal : M T Z := h ← state; export_pins (Z.to_nat (num_pins h)) 0.

(** ** Registers *)

Definition set_ddr (l : list Z) (io : hm2_ioport_t) : hm2_ioport_t := {| io with ddr_reg := l |}.
Definition set_open_drain (l : list Z) (io : hm2_ioport_t) : hm2_ioport_t := {| io with open_drain_reg := l |}.
Definition set_output_invert (l : list Z) (io : hm2_ioport_t) : hm2_ioport_t := {| io with output_invert_reg := l |}.
Definition set_data_write (l : list Z) (io : hm2_ioport_t) : hm2_ioport_t := {| io with data_write_reg := l |}.

Definition hm2_ioport_force_write_ddr : M T unit :=
  h ← state; write (ddr_addr (ioport h)) (ddr_reg (ioport h)) ≫= fun _ => set_ioport (fun io => {| io with written_ddr := ddr_reg io |}).
Definition hm2_ioport_force_write_output_invert : M T unit :=
  h ← state; write (output_invert_addr (ioport h)) (output_invert_reg (ioport h)) ≫= fun _ => set_ioport (fun io => {| io with written_output_invert := output_invert_reg io |}).
Definition hm2_ioport_force_write_open_drain : M T unit :=
  h ← state; write (open_drain_addr (ioport h)) (open_drain_reg (ioport h)) ≫= fun _ => set_ioport (fun io => {| io with written_open_drain := open_drain_reg io |}).

(** For every pin of every port: the port, the bit and the number of the pin. *)
Definition each_pin (f : Z -> Z -> Z -> M T unit) : M T unit :=
  h ← state;
  for_ (num_instances (ioport h)) (fun port =>
    for_ (port_width (idrom h)) (fun port_pin => f port port_pin (port * port_width (idrom h) + port_pin))).

Definition update_pin (port port_pin io_pin : Z) : M T unit :=
  p ← get_pin io_pin;
  (if gtag p =? HM2_GTAG_IOPORT then
     g ← gpio p; o ← deref (is_output g);
     set_pin io_pin (fun p => {| p with direction := if o : bool then HM2_PIN_DIR_IS_OUTPUT else HM2_PIN_DIR_IS_INPUT |})
   else mret tt) ≫= fun _ =>
  p ← get_pin io_pin;
  if direction p =? HM2_PIN_DIR_IS_OUTPUT then
    put ddr_reg set_ddr true port port_pin ≫= fun _ =>
    g ← gpio p; o ← deref (is_opendrain g);
    put open_drain_reg set_open_drain o port port_pin ≫= fun _ =>
    o ← deref (invert_output g);
    put output_invert_reg set_output_invert o port port_pin
  else
    put open_drain_reg set_open_drain false port port_pin ≫= fun _ =>
    put ddr_reg set_ddr false port port_pin.
Definition hm2_ioport_update : M T unit := each_pin update_pin.

Definition hm2_ioport_force_write : M T unit :=
  hm2_ioport_update ≫= fun _ =>
  hm2_ioport_force_write_ddr ≫= fun _ =>
  hm2_ioport_force_write_output_invert ≫= fun _ =>
  hm2_ioport_force_write_open_drain ≫= fun _ =>
  h ← state; write (alt_source_addr (ioport h)) (alt_source_reg (ioport h)).

(** Do the first [n] elements differ somewhere? *)
Definition differs (n : Z) (a b : list Z) : bool :=
  negb (bool_decide (take (Z.to_nat n) a = take (Z.to_nat n) b)).

Definition hm2_ioport_write : M T unit :=
  hm2_ioport_update ≫= fun _ =>
  h ← state;
  (if differs (num_instances (ioport h)) (written_ddr (ioport h)) (ddr_reg (ioport h)) then hm2_ioport_force_write_ddr else mret tt) ≫= fun _ =>
  h ← state;
  (if differs (num_instances (ioport h)) (written_open_drain (ioport h)) (open_drain_reg (ioport h)) then hm2_ioport_force_write_open_drain else mret tt) ≫= fun _ =>
  h ← state;
  if differs (num_instances (ioport h)) (written_output_invert (ioport h)) (output_invert_reg (ioport h)) then hm2_ioport_force_write_output_invert else mret tt.

(** ** Data *)

Definition hm2_ioport_gpio_tram_write_init : M T unit :=
  h ← state;
  for_ (num_instances (ioport h)) (fun port =>
    h ← state; _ ← at_ (data_write_reg (ioport h)) port; set_ioport (fun io => {| io with data_write_reg := <[Z.to_nat port := 0]> (data_write_reg io) |})).

(** The pin [in] and its negation; writes through NULL are undefined. *)
Definition store_in (bit : bool) (io_pin : Z) : M T unit :=
  p ← get_pin io_pin; g ← gpio p; _ ← deref (in_ g); _ ← deref (in_not g);
  set_pin io_pin (fun p => {| p with instance := Some {| g with in_ := Some bit; in_not := Some (negb bit) |} |}).
Definition read_bit (port port_pin : Z) : M T bool :=
  h ← state; w ← at_ (data_read_reg (ioport h)) port; mret (Z.testbit w port_pin).

Definition hm2_ioport_gpio_process_tram_read : M T unit :=
  each_pin (fun port port_pin io_pin => bit ← read_bit port port_pin; store_in bit io_pin).

Definition write_bit (port port_pin io_pin : Z) : M T unit :=
  p ← get_pin io_pin;
  if negb (gtag p =? HM2_GTAG_IOPORT) then mret tt
  else
    put data_write_reg set_data_write false port port_pin ≫= fun _ =>
    g ← gpio p; o ← deref (out g);
    if o : bool then put data_write_reg set_data_write true port port_pin else mret tt.
Definition hm2_ioport_gpio_prepare_tram_write : M T unit := each_pin write_bit.

Definition hm2_ioport_gpio_read : M T unit :=
  h ← state;
  if num_instances (ioport h) <=? 0 then mret tt
  else
    '(ok, d) ← read (data_addr (ioport h)) (num_instances (ioport h));
    (if ok : bool then set_ioport (fun io => {| io with data_read_reg := d |}) else mret tt) ≫= fun _ =>
    each_pin (fun port port_pin io_pin =>
      p ← get_pin io_pin;
      if negb (direction p =? HM2_PIN_DIR_IS_INPUT) then mret tt
      else bit ← read_bit port port_pin; store_in bit io_pin).

Definition hm2_ioport_gpio_write : M T unit :=
  h ← state;
  if num_instances (ioport h) <=? 0 then mret tt
  else
    hm2_ioport_write ≫= fun _ =>
    each_pin write_bit ≫= fun _ =>
    h ← state; write (data_addr (ioport h)) (data_write_reg (ioport h)).

(** From the description of the card to ports with exported pins, as
    hm2_register (hostmot2.c) does it; [buffers] are the copies of the data
    registers that hm2_allocate_tram_regions makes. *)
Definition start (fresh : Z -> list hm2_pin_t) (md : hm2_module_descriptor_t) (reg_read reg_write : Z) (buffers : list Z * list Z) (e : enabled) : M T Z :=
  r ← check_idrom;
  if negb (r =? 0) then mret r
  else
    r ← hm2_read_pin_descriptors fresh;
    if negb (r =? 0) then mret r
    else
      r ← hm2_ioport_parse_md md reg_read reg_write;
      if r <? 0 then mret r
      else
        set_ioport (fun io => {| io with data_read_reg := fst buffers; data_write_reg := snd buffers |}) ≫= fun _ =>
        hm2_configure_pins e ≫= fun _ =>
        r ← hm2_ioport_gpio_export_hal;
        if negb (r =? 0) then mret r
        else
          hm2_ioport_force_write ≫= fun _ =>
          hm2_ioport_gpio_tram_write_init ≫= fun _ => mret 0.

(** ** What happens in operation *)

(** A HAL pin that others set. *)
Inductive gpio_pin := Out | Is_output | Is_opendrain | Invert_output.
Definition set_hal (k : gpio_pin) (b : bool) (g : hm2_gpio_instance_t) : hm2_gpio_instance_t :=
  let to (old : option bool) := match old with Some _ => Some b | None => None end in
  match k with
  | Out => {| g with out := to (out g) |}
  | Is_output => {| g with is_output := to (is_output g) |}
  | Is_opendrain => {| g with is_opendrain := to (is_opendrain g) |}
  | Invert_output => {| g with invert_output := to (invert_output g) |}
  end.

Inductive event :=
| Hal (i : nat) (k : gpio_pin) (b : bool)      (* a HAL pin changes *)
| Read | Write                                (* the functs read_gpio and write_gpio *)
| Recover.                                    (* hm2_force_write *)

Definition step (ev : event) : M T unit :=
  match ev with
  | Hal i k b => change (fun h => {| h with pin := alter (fun p => {| p with instance := set_hal k b <$> instance p |}) i (pin h) |})
  | Read => hm2_ioport_gpio_read
  | Write => hm2_ioport_gpio_write
  | Recover => hm2_ioport_force_write
  end.
Fixpoint steps (l : list event) : M T unit := match l with [] => mret tt | ev :: l => step ev ≫= fun _ => steps l end.

End Operations.

End Ioport.
