(* ===== verification/Hm2PinsTheorems.v ===== *)
(** * Theorems about the pins and ports of hostmot2 cards

    Each funct on a good state of the driver; then the start: the pins are
    handed out as the firmware and the configuration say, and from there on
    the registers of the card follow the HAL pins. *)
From S2P Require Import Prelude Hm2Pins.
Import Pins Ioport.

(** ** Bits of registers *)

Lemma put_bit_spec b i j w : 0 <= i < 32 -> 0 <= j < 32 -> Z.testbit (put_bit b i w) j = if j =? i then b else Z.testbit w j.
Proof.
  intros Hi Hj. unfold put_bit, wrapu. rewrite Z.shiftl_mul_pow2, Z.mul_1_l by lia.
  assert (Z.testbit (2 ^ i) j = (j =? i)) as Hb by (rewrite Z.pow2_bits_eqb by lia; apply Z.eqb_sym). destruct b.
  - rewrite Z.lor_spec, Z.mod_pow2_bits_low, Hb by lia. destruct (j =? i); [apply orb_true_r | apply orb_false_r].
  - rewrite Z.land_spec, Z.mod_pow2_bits_low, Z.lnot_spec, Hb by lia. destruct (j =? i); [apply andb_false_r | apply andb_true_r].
Qed.

(** The bit [k] of the register of a port. *)
Definition rbit (l : list Z) (port k : Z) : bool := Z.testbit (nth (Z.to_nat port) l 0) k.

Lemma nth_insert (l : list Z) i j x : (i < length l)%nat -> nth j (<[i := x]> l) 0 = if (j =? i)%nat then x else nth j l 0.
Proof.
  intros Hi. rewrite !nth_lookup. destruct (Nat.eqb_spec j i) as [-> | Hne]; [by rewrite list_lookup_insert_eq | by rewrite list_lookup_insert_ne by done].
Qed.

Lemma rbit_put b l port i port' k : 0 <= port < Z.of_nat (length l) -> 0 <= i < 32 -> 0 <= k < 32 -> 0 <= port' ->
  rbit (<[Z.to_nat port := put_bit b i (nth (Z.to_nat port) l 0)]> l) port' k = if (port' =? port) && (k =? i) then b else rbit l port' k.
Proof.
  intros Hp Hi Hk Hp'. unfold rbit. rewrite nth_insert by lia. destruct (Z.eqb_spec port' port) as [-> | Hne].
  - rewrite Nat.eqb_refl. rewrite put_bit_spec by done. done.
  - rewrite (proj2 (Nat.eqb_neq _ _)) by lia. done.
Qed.

(** ** Loops *)

Section Loops.
Context {S : Type}.
Implicit Types (I : Z -> S -> Prop).

Lemma for_from_spec I n a f s : (forall i s, a <= i < a + Z.of_nat n -> I i s -> exists s', f i s = (Ok tt, s') /\ I (i + 1) s') -> I a s ->
  exists s', for_from n a f s = (Ok tt, s') /\ I (a + Z.of_nat n) s'.
Proof.
  revert a s. induction n as [| n IH]; intros a s Hf Hs; cbn [for_from].
  - exists s. split; [done |]. by rewrite Z.add_0_r.
  - destruct (Hf a s) as (s1 & E1 & H1); [lia | done |]. unfold mbind, M_bind. rewrite E1.
    destruct (IH (a + 1) s1) as (s2 & E2 & H2); [intros; apply Hf; [lia | done] | done |]. exists s2. split; [done |].
    by replace (a + Z.of_nat (Datatypes.S n)) with (a + 1 + Z.of_nat n) by lia.
Qed.

Lemma for_spec I n f s : 0 <= n -> (forall i s, 0 <= i < n -> I i s -> exists s', f i s = (Ok tt, s') /\ I (i + 1) s') -> I 0 s ->
  exists s', for_ n f s = (Ok tt, s') /\ I n s'.
Proof.
  intros Hn Hf Hs. destruct (for_from_spec I (Z.to_nat n) 0 f s) as (s' & E & H'); [intros; apply Hf; [lia | done] | done |].
  exists s'. split; [done |]. by replace n with (0 + Z.of_nat (Z.to_nat n)) by lia.
Qed.
End Loops.

Section Ports.
Context {hw : Type} `{PB : PinBoard hw} `{PH : PinHost}.
Abbreviation T := (hostmot2_t * hw)%type.

(** Compute an operation. *)
Ltac run := unfold state, change, set_ioport, get, modify, mbind, M_bind, mret, M_ret; cbn [fst snd].

Definition width (t : T) : Z := port_width (idrom (fst t)).
Definition ports (t : T) : Z := num_instances (ioport (fst t)).

(** The loop over all pins visits the numbers of the pins in their order. *)
Lemma each_pin_spec (I : Z -> T -> Prop) f t : 0 <= ports t -> 0 <= width t ->
  (forall port k s, 0 <= port < ports t -> 0 <= k < width t -> I (port * width t + k) s -> exists s', f port k (port * width t + k) s = (Ok tt, s') /\ I (port * width t + k + 1) s') ->
  I 0 t -> exists s', each_pin f t = (Ok tt, s') /\ I (ports t * width t) s'.
Proof.
  intros Hp Hw Hf H0. unfold each_pin. run. change (num_instances (ioport (fst t))) with (ports t). change (port_width (idrom (fst t))) with (width t).
  apply (for_spec (fun port => I (port * width t)) (ports t)); [done | | done]. intros port s Hport Hs.
  destruct (for_spec (fun k => I (port * width t + k)) (width t) (fun k => f port k (port * width t + k)) s Hw) as (s' & E & Hs').
  - intros k s1 Hk Hs1. destruct (Hf port k s1 Hport Hk Hs1) as (s2 & E2 & Hs2). exists s2. split; [done |]. by rewrite Z.add_assoc.
  - by rewrite Z.add_0_r.
  - exists s'. split; [done |]. by replace ((port + 1) * width t) with (port * width t + width t) by lia.
Qed.

Lemma at_run {A} (l : list A) i x (s : T) : 0 <= i -> l !! Z.to_nat i = Some x -> at_ l i s = (Ok x, s).
Proof. intros Hi Hx. unfold at_. rewrite (proj2 (Z.leb_le 0 i)) by lia. by rewrite Hx. Qed.

Lemma get_pin_run i p (s : T) : 0 <= i -> pin (fst s) !! Z.to_nat i = Some p -> get_pin i s = (Ok p, s).
Proof. intros Hi Hp. unfold get_pin. run. by apply at_run. Qed.

Lemma set_pin_run i f p (s : T) : 0 <= i -> pin (fst s) !! Z.to_nat i = Some p ->
  set_pin i f s = (Ok tt, ({| (fst s) with pin := <[Z.to_nat i := f p]> (pin (fst s)) |}, snd s)).
Proof. intros Hi Hp. unfold set_pin. run. by rewrite (get_pin_run i p). Qed.

Lemma put_run reg set b port i (s : T) : 0 <= port < Z.of_nat (length (reg (ioport (fst s)))) ->
  put reg set b port i s = (Ok tt, ({| (fst s) with ioport :=
    set (<[Z.to_nat port := put_bit b i (nth (Z.to_nat port) (reg (ioport (fst s))) 0)]> (reg (ioport (fst s)))) (ioport (fst s)) |}, snd s)).
Proof.
  intros Hp. destruct (lookup_lt_is_Some_2 (reg (ioport (fst s))) (Z.to_nat port)) as [x Hx]; [lia |].
  unfold put. run. rewrite (at_run _ _ x) by (done || lia). rewrite (nth_lookup_Some _ _ _ _ Hx). done.
Qed.

(** ** The registers are computed from the pins *)

Definition flag (o : option bool) : bool := default false o.
Definition hal (p : hm2_pin_t) : hm2_gpio_instance_t := default (Gpio None None None None None None) (instance p).
Definition is_gpio (p : hm2_pin_t) : bool := gtag p =? HM2_GTAG_IOPORT.

(** Is the pin an output, what the HAL pin [is_output] or the owner says. *)
Definition outward (p : hm2_pin_t) : bool := if is_gpio p then flag (is_output (hal p)) else direction p =? HM2_PIN_DIR_IS_OUTPUT.
Definition turned (p : hm2_pin_t) : hm2_pin_t :=
  if is_gpio p then {| p with direction := if outward p then HM2_PIN_DIR_IS_OUTPUT else HM2_PIN_DIR_IS_INPUT |} else p.

(** The HAL pins that the driver reads have been exported. *)
Definition pin_ok (p : hm2_pin_t) : Prop :=
  exists g, instance p = Some g /\ is_Some (in_ g) /\ is_Some (in_not g) /\
    (is_gpio p = true -> is_Some (out g) /\ is_Some (is_output g)) /\
    (is_gpio p || (direction p =? HM2_PIN_DIR_IS_OUTPUT) = true -> is_Some (is_opendrain g) /\ is_Some (invert_output g)).

Definition length_is (n : Z) (l : list Z) : Prop := Z.of_nat (length l) = n.

Record ports_ok (h : hostmot2_t) : Prop := {
  po_ports : 0 < num_instances (ioport h);
  po_width : 0 < port_width (idrom h) <= 32;
  po_pins : Z.of_nat (length (pin h)) = num_instances (ioport h) * port_width (idrom h);
  po_regs : Forall (fun reg => length_is (num_instances (ioport h)) (reg (ioport h)))
    [data_read_reg; data_write_reg; ddr_reg; written_ddr; alt_source_reg; open_drain_reg; written_open_drain; output_invert_reg; written_output_invert];
  po_pin : Forall pin_ok (pin h);
}.

(** The pins and the registers that the driver computes, and the others. *)
Definition upd (h : hostmot2_t) (P : list hm2_pin_t) (D O V : list Z) : hostmot2_t :=
  {| h with pin := P; ioport := {| (ioport h) with ddr_reg := D; open_drain_reg := O; output_invert_reg := V |} |}.

Lemma upd_self h : upd h (pin h) (ddr_reg (ioport h)) (open_drain_reg (ioport h)) (output_invert_reg (ioport h)) = h.
Proof. destruct h as [? ? ? ? ? ? ? io]. by destruct io. Qed.

(** The pins with a number below [c] have been dealt with. *)
Record updated (h : hostmot2_t) (c : Z) (P : list hm2_pin_t) (D O V : list Z) : Prop := {
  up_pins : forall i p, pin h !! i = Some p -> P !! i = Some (if Z.of_nat i <? c then turned p else p);
  up_length : length P = length (pin h);
  up_lengths : length_is (num_instances (ioport h)) D /\ length_is (num_instances (ioport h)) O /\ length_is (num_instances (ioport h)) V;
  up_bits : forall port k p, 0 <= port < num_instances (ioport h) -> 0 <= k < port_width (idrom h) ->
    pin h !! Z.to_nat (port * port_width (idrom h) + k) = Some p -> port * port_width (idrom h) + k < c ->
    rbit D port k = outward p /\ rbit O port k = outward p && flag (is_opendrain (hal p)) /\
    (outward p = true -> rbit V port k = flag (invert_output (hal p)));
}.

Lemma number_eq w port k port' k' : 0 <= k < w -> 0 <= k' < w -> port' * w + k' = port * w + k -> port' = port /\ k' = k.
Proof. intros. assert (port' = port) by nia. split; [done | subst; lia]. Qed.

Lemma number_lt n w port k : 0 <= port < n -> 0 <= k < w -> 0 <= port * w + k < n * w.
Proof. nia. Qed.

(** The bit of one pin is stored; those before stay. *)
Lemma put_bits h D port k b port' k' : 0 < port_width (idrom h) <= 32 -> length_is (num_instances (ioport h)) D -> 0 <= port < num_instances (ioport h) -> 0 <= k < port_width (idrom h) ->
  0 <= port' -> 0 <= k' < port_width (idrom h) ->
  rbit (<[Z.to_nat port := put_bit b k (nth (Z.to_nat port) D 0)]> D) port' k' = if port' * port_width (idrom h) + k' =? port * port_width (idrom h) + k then b else rbit D port' k'.
Proof.
  intros Hw Hl Hp Hk Hp' Hk'. unfold length_is in Hl. rewrite rbit_put by lia.
  destruct (Z.eqb_spec (port' * port_width (idrom h) + k') (port * port_width (idrom h) + k)) as [E | Hne].
  - apply number_eq in E as [-> ->]; [| done | done]. by rewrite !Z.eqb_refl.
  - destruct (Z.eqb_spec port' port), (Z.eqb_spec k' k); cbn; [subst; done | done | done | done].
Qed.

Lemma updated_next h c P D O V port k p D' O' V' d o v : 0 < port_width (idrom h) <= 32 -> updated h c P D O V -> c = port * port_width (idrom h) + k ->
  0 <= port < num_instances (ioport h) -> 0 <= k < port_width (idrom h) -> pin h !! Z.to_nat c = Some p ->
  D' = <[Z.to_nat port := put_bit d k (nth (Z.to_nat port) D 0)]> D ->
  O' = <[Z.to_nat port := put_bit o k (nth (Z.to_nat port) O 0)]> O ->
  V' = (if outward p then <[Z.to_nat port := put_bit v k (nth (Z.to_nat port) V 0)]> V else V) ->
  d = outward p -> o = outward p && flag (is_opendrain (hal p)) -> v = flag (invert_output (hal p)) ->
  updated h (c + 1) (<[Z.to_nat c := turned p]> P) D' O' V'.
Proof.
  intros Hw [H1 H2 (HD & HO & HV) H4] Hc Hp Hk Hpin -> -> -> -> -> ->. split.
  - intros i q Hq. destruct (decide (i = Z.to_nat c)) as [-> | Hne].
    + rewrite list_lookup_insert_eq by (rewrite H2; by eapply lookup_lt_Some). rewrite Hq in Hpin. injection Hpin as ->. by rewrite (proj2 (Z.ltb_lt _ _)) by nia.
    + rewrite list_lookup_insert_ne by done. rewrite (H1 i q Hq). replace (Z.of_nat i <? c + 1) with (Z.of_nat i <? c); [done |]. assert (0 <= c) by nia.
      destruct (Z.ltb_spec (Z.of_nat i) c), (Z.ltb_spec (Z.of_nat i) (c + 1)); (done || lia).
  - by rewrite length_insert.
  - destruct (outward p); unfold length_is in *; by rewrite !length_insert.
  - intros port' k' q Hp' Hk' Hq Hlt. rewrite !(put_bits h) by (done || lia). rewrite <- Hc.
    destruct (Z.eqb_spec (port' * port_width (idrom h) + k') c) as [E | Hne].
    + rewrite E, Hpin in Hq. injection Hq as <-. split; [done |]. split; [done |]. intros Ho. rewrite Ho, (put_bits h) by (done || lia). by rewrite <- Hc, E, Z.eqb_refl.
    + destruct (H4 port' k' q Hp' Hk' Hq) as (B1 & B2 & B3); [lia |]. split; [done |]. split; [done |]. intros Ho. specialize (B3 Ho).
      destruct (outward p); [rewrite (put_bits h) by (done || lia); rewrite <- Hc, (proj2 (Z.eqb_neq _ _)) by done; done | done].
Qed.

Lemma turned_direction p : (direction (turned p) =? HM2_PIN_DIR_IS_OUTPUT) = outward p.
Proof. unfold turned, outward. destruct (is_gpio p) eqn:E; [| done]. destruct (flag (is_output (hal p))); done. Qed.

Lemma turned_instance p : instance (turned p) = instance p.
Proof. unfold turned. by destruct (is_gpio p). Qed.

Lemma run_bind {A B} (m : M T A) (f : A -> M T B) s a s' : m s = (Ok a, s') -> (m ≫= f) s = f a s'.
Proof. intros E. unfold mbind, M_bind. by rewrite E. Qed.

(** The first part of [update_pin] stores the direction. *)
Lemma turn_run h P D O V c p (x : hw) : 0 <= c -> P !! Z.to_nat c = Some p -> pin_ok p ->
  (if gtag p =? HM2_GTAG_IOPORT then
     g ← gpio p; o ← deref (is_output g);
     set_pin c (fun p => {| p with direction := if o : bool then HM2_PIN_DIR_IS_OUTPUT else HM2_PIN_DIR_IS_INPUT |})
   else mret tt) (upd h P D O V, x) = (Ok tt, (upd h (<[Z.to_nat c := turned p]> P) D O V, x)).
Proof.
  intros Hc Hp (g & Hg & _ & _ & Hio & _). assert (hal p = g) as Hh by (unfold hal; by rewrite Hg). unfold turned, outward. change (gtag p =? HM2_GTAG_IOPORT) with (is_gpio p).
  destruct (is_gpio p).
  - destruct (Hio eq_refl) as [_ [o Ho]]. rewrite Hh, Ho. rewrite (run_bind (gpio p) _ _ g (upd h P D O V, x)) by (unfold gpio; by rewrite Hg). rewrite Ho.
    rewrite (run_bind (deref (Some o)) _ _ o (upd h P D O V, x)) by done. by rewrite (set_pin_run c _ p).
  - run. by rewrite list_insert_id.
Qed.

Definition stored (b : bool) (port k : Z) (l : list Z) : list Z := <[Z.to_nat port := put_bit b k (nth (Z.to_nat port) l 0)]> l.

Lemma put_ddr h P D O V b port k (x : hw) : 0 <= port < Z.of_nat (length D) -> put ddr_reg set_ddr b port k (upd h P D O V, x) = (Ok tt, (upd h P (stored b port k D) O V, x)).
Proof. intros Hp. by rewrite put_run. Qed.
Lemma put_open_drain h P D O V b port k (x : hw) : 0 <= port < Z.of_nat (length O) -> put open_drain_reg set_open_drain b port k (upd h P D O V, x) = (Ok tt, (upd h P D (stored b port k O) V, x)).
Proof. intros Hp. by rewrite put_run. Qed.
Lemma put_output_invert h P D O V b port k (x : hw) : 0 <= port < Z.of_nat (length V) -> put output_invert_reg set_output_invert b port k (upd h P D O V, x) = (Ok tt, (upd h P D O (stored b port k V), x)).
Proof. intros Hp. by rewrite put_run. Qed.

Lemma update_pin_run h P D O V port k p (x : hw) : ports_ok h -> let c := port * port_width (idrom h) + k in updated h c P D O V ->
  0 <= port < num_instances (ioport h) -> 0 <= k < port_width (idrom h) -> pin h !! Z.to_nat c = Some p ->
  exists P' D' O' V', update_pin port k c (upd h P D O V, x) = (Ok tt, (upd h P' D' O' V', x)) /\ updated h (c + 1) P' D' O' V'.
Proof.
  intros Hok c Hu Hport Hk Hp. assert (0 <= c) as Hc by (destruct Hok; nia). pose proof (proj1 (Forall_lookup _ _) (po_pin h Hok) _ _ Hp) as Hpok.
  assert (P !! Z.to_nat c = Some p) as HP by (rewrite (up_pins h c P D O V Hu _ p Hp); by rewrite (proj2 (Z.ltb_ge _ _)) by lia).
  unfold update_pin. rewrite (run_bind _ _ _ p (upd h P D O V, x)) by by apply get_pin_run.
  rewrite (run_bind _ _ _ tt (upd h (<[Z.to_nat c := turned p]> P) D O V, x)) by by apply turn_run.
  rewrite (run_bind _ _ _ (turned p) (upd h (<[Z.to_nat c := turned p]> P) D O V, x)) by (apply get_pin_run; [done |]; apply list_lookup_insert_eq; by eapply lookup_lt_Some).
  rewrite turned_direction. pose proof (up_lengths h c P D O V Hu) as (HD & HO & HV). unfold length_is in *.
  destruct Hpok as (g & Hg & _ & _ & Hio & Hout). assert (hal p = g) as Hh by (unfold hal; by rewrite Hg). destruct (outward p) eqn:Eo.
  - destruct Hout as [[od Hod] [iv Hiv]].
    { unfold outward in Eo. destruct (is_gpio p); [done | by rewrite Eo]. }
    rewrite (run_bind _ _ _ tt _ (put_ddr h _ D O V true port k x ltac:(lia))). rewrite (run_bind (gpio _) _ _ g (upd h (<[Z.to_nat c := turned p]> P) (stored true port k D) O V, x)) by (unfold gpio; by rewrite turned_instance, Hg).
    rewrite Hod, Hiv. cbn [deref]. rewrite (run_bind (mret od) _ _ od _ eq_refl), (run_bind _ _ _ tt _ (put_open_drain h _ _ O V od port k x ltac:(lia))), (run_bind (mret iv) _ _ iv _ eq_refl), put_output_invert by lia.
    eexists _, _, _, _. split; [reflexivity |]. eapply (updated_next h c P D O V port k p); try done; rewrite ?Eo, ?Hh, ?Hod, ?Hiv; try done; by apply Hok.
  - rewrite (run_bind _ _ _ tt _ (put_open_drain h _ D O V false port k x ltac:(lia))), put_ddr by lia.
    eexists _, _, _, _. split; [reflexivity |]. eapply (updated_next h c P D O V port k p); try done; rewrite ?Eo; try done; by apply Hok.
Qed.

Lemma update_run h (x : hw) : ports_ok h -> exists P D O V, hm2_ioport_update (h, x) = (Ok tt, (upd h P D O V, x)) /\ updated h (num_instances (ioport h) * port_width (idrom h)) P D O V.
Proof.
  intros Hok. pose proof Hok as [Hn Hw Hpins Hregs Hpin].
  destruct (each_pin_spec (fun c s => exists P D O V, s = (upd h P D O V, x) /\ updated h c P D O V) update_pin (h, x)) as (s & E & P & D & O & V & -> & Hu).
  - unfold ports. cbn. lia.
  - unfold width. cbn. lia.
  - unfold ports, width. cbn [fst]. intros port k s Hp Hk (P & D & O & V & -> & Hu).
    destruct (lookup_lt_is_Some_2 (pin h) (Z.to_nat (port * port_width (idrom h) + k))) as [p Hpp]; [nia |].
    destruct (update_pin_run h P D O V port k p x Hok Hu Hp Hk Hpp) as (P' & D' & O' & V' & E & Hu'). exists (upd h P' D' O' V', x). split; [done |]. by exists P', D', O', V'.
  - exists (pin h), (ddr_reg (ioport h)), (open_drain_reg (ioport h)), (output_invert_reg (ioport h)). rewrite upd_self. split; [done |]. split.
    + intros i p Hp. by rewrite (proj2 (Z.ltb_ge _ _)) by lia.
    + done.
    + inversion_clear Hregs as [| ? ? _ H1]. inversion_clear H1 as [| ? ? _ H2]. inversion_clear H2 as [| ? ? Hd H3]. inversion_clear H3 as [| ? ? _ H4]. inversion_clear H4 as [| ? ? _ H5].
      inversion_clear H5 as [| ? ? Ho H6]. inversion_clear H6 as [| ? ? _ H7]. inversion_clear H7 as [| ? ? Hv _]. done.
    + nia.
  - by exists P, D, O, V.
Qed.

(** ** The card gets the registers *)

(** What is known of a board: its memory is words; a write stores words, and
    a read changes nothing. *)
Class PinBoardSpec (word : hw -> Z -> Z) : Prop := {
  word_in x a d i : 0 <= i < Z.of_nat (length d) -> word (llio_write a d x) (a + 4 * i) = nth (Z.to_nat i) d 0;
  word_out x a d b : b < a \/ a + 4 * Z.of_nat (length d) <= b -> word (llio_write a d x) b = word x b;
  word_read x a n b : word (snd (llio_read a n x)) b = word x b;
  read_length x a n : 0 <= n -> fst (fst (llio_read a n x)) = true -> Z.of_nat (length (snd (fst (llio_read a n x)))) = n;
}.

Context (word : hw -> Z -> Z) `{PS : !PinBoardSpec word}.

(** The registers of the [n] ports at [a] are [l]. *)
Definition card_is (n : Z) (x : hw) (a : Z) (l : list Z) : Prop := forall port, 0 <= port < n -> word x (a + 4 * port) = nth (Z.to_nat port) l 0.
Definition apart (n a b : Z) : Prop := a + 4 * n <= b \/ b + 4 * n <= a.

Lemma card_written n x a l : length_is n l -> card_is n (llio_write a l x) a l.
Proof. intros Hl port Hp. unfold length_is in Hl. rewrite word_in by lia. done. Qed.

Lemma card_kept n x a l b m : length_is n l -> apart n a b -> card_is n x b m -> card_is n (llio_write a l x) b m.
Proof. intros Hl Ha Hb port Hp. unfold length_is, apart in *. rewrite word_out by lia. by apply Hb. Qed.

(** The five registers lie one behind the other. *)
Record spaced (h : hostmot2_t) : Prop := {
  sp_ddr : data_addr (ioport h) + 4 * num_instances (ioport h) <= ddr_addr (ioport h);
  sp_alt : ddr_addr (ioport h) + 4 * num_instances (ioport h) <= alt_source_addr (ioport h);
  sp_od : alt_source_addr (ioport h) + 4 * num_instances (ioport h) <= open_drain_addr (ioport h);
  sp_inv : open_drain_addr (ioport h) + 4 * num_instances (ioport h) <= output_invert_addr (ioport h);
}.

(** The driver knows what the card has. *)
Record in_sync (h : hostmot2_t) (x : hw) : Prop := {
  sy_ddr : card_is (num_instances (ioport h)) x (ddr_addr (ioport h)) (written_ddr (ioport h));
  sy_od : card_is (num_instances (ioport h)) x (open_drain_addr (ioport h)) (written_open_drain (ioport h));
  sy_inv : card_is (num_instances (ioport h)) x (output_invert_addr (ioport h)) (written_output_invert (ioport h));
  sy_alt : card_is (num_instances (ioport h)) x (alt_source_addr (ioport h)) (alt_source_reg (ioport h));
}.

Lemma differs_eq n a b : length_is n a -> length_is n b -> differs n a b = false -> a = b.
Proof.
  unfold length_is, differs. intros Ha Hb H%negb_false_iff%bool_decide_eq_true. rewrite !take_ge in H by lia. done.
Qed.

Definition wrote_ddr (h : hostmot2_t) : hostmot2_t := {| h with ioport := {| (ioport h) with written_ddr := ddr_reg (ioport h) |} |}.
Definition wrote_od (h : hostmot2_t) : hostmot2_t := {| h with ioport := {| (ioport h) with written_open_drain := open_drain_reg (ioport h) |} |}.
Definition wrote_inv (h : hostmot2_t) : hostmot2_t := {| h with ioport := {| (ioport h) with written_output_invert := output_invert_reg (ioport h) |} |}.

Lemma wrote_ddr_same h : written_ddr (ioport h) = ddr_reg (ioport h) -> wrote_ddr h = h.
Proof. destruct h as [? ? ? ? ? ? ? io]. destruct io. cbn. by intros ->. Qed.
Lemma wrote_od_same h : written_open_drain (ioport h) = open_drain_reg (ioport h) -> wrote_od h = h.
Proof. destruct h as [? ? ? ? ? ? ? io]. destruct io. cbn. by intros ->. Qed.
Lemma wrote_inv_same h : written_output_invert (ioport h) = output_invert_reg (ioport h) -> wrote_inv h = h.
Proof. destruct h as [? ? ? ? ? ? ? io]. destruct io. cbn. by intros ->. Qed.

(** A register is written, or it need not be. *)
Lemma sync_ddr h x : spaced h -> in_sync h x -> length_is (num_instances (ioport h)) (ddr_reg (ioport h)) -> length_is (num_instances (ioport h)) (written_ddr (ioport h)) ->
  exists x', (if differs (num_instances (ioport h)) (written_ddr (ioport h)) (ddr_reg (ioport h)) then hm2_ioport_force_write_ddr else mret tt) (h, x) = (Ok tt, (wrote_ddr h, x')) /\ in_sync (wrote_ddr h) x'.
Proof.
  intros [S1 S2 S3 S4] [H1 H2 H3 H4] Hl Hw. destruct (differs _ _ _) eqn:E.
  - eexists. split; [reflexivity |]. split; cbn; [by apply card_written | apply card_kept; try done; unfold apart; lia ..].
  - apply differs_eq in E; [| done | done]. exists x. split; [by rewrite wrote_ddr_same |].
    split; cbn; [by rewrite <- E | done | done | done].
Qed.

Lemma sync_od h x : spaced h -> in_sync h x -> length_is (num_instances (ioport h)) (open_drain_reg (ioport h)) -> length_is (num_instances (ioport h)) (written_open_drain (ioport h)) ->
  exists x', (if differs (num_instances (ioport h)) (written_open_drain (ioport h)) (open_drain_reg (ioport h)) then hm2_ioport_force_write_open_drain else mret tt) (h, x) = (Ok tt, (wrote_od h, x')) /\ in_sync (wrote_od h) x'.
Proof.
  intros [S1 S2 S3 S4] [H1 H2 H3 H4] Hl Hw. destruct (differs _ _ _) eqn:E.
  - eexists. split; [reflexivity |]. split; cbn; [| by apply card_written | |]; apply card_kept; try done; unfold apart; lia.
  - apply differs_eq in E; [| done | done]. exists x. split; [by rewrite wrote_od_same |].
    split; cbn; [done | by rewrite <- E | done | done].
Qed.

Lemma sync_inv h x : spaced h -> in_sync h x -> length_is (num_instances (ioport h)) (output_invert_reg (ioport h)) -> length_is (num_instances (ioport h)) (written_output_invert (ioport h)) ->
  exists x', (if differs (num_instances (ioport h)) (written_output_invert (ioport h)) (output_invert_reg (ioport h)) then hm2_ioport_force_write_output_invert else mret tt) (h, x) = (Ok tt, (wrote_inv h, x')) /\ in_sync (wrote_inv h) x'.
Proof.
  intros [S1 S2 S3 S4] [H1 H2 H3 H4] Hl Hw. destruct (differs _ _ _) eqn:E.
  - eexists. split; [reflexivity |]. split; cbn; [| | by apply card_written |]; apply card_kept; try done; unfold apart; lia.
  - apply differs_eq in E; [| done | done]. exists x. split; [by rewrite wrote_inv_same |].
    split; cbn; [done | done | by rewrite <- E | done].
Qed.

Definition settled (h : hostmot2_t) : hostmot2_t := wrote_inv (wrote_od (wrote_ddr h)).

Lemma ioport_write_run h x : ports_ok h -> spaced h -> in_sync h x ->
  exists P D O V x', hm2_ioport_write (h, x) = (Ok tt, (settled (upd h P D O V), x')) /\ updated h (num_instances (ioport h) * port_width (idrom h)) P D O V /\ in_sync (settled (upd h P D O V)) x'.
Proof.
  intros Hok Hsp Hsy. destruct (update_run h x Hok) as (P & D & O & V & E & Hu). pose proof (up_lengths _ _ _ _ _ _ Hu) as (HD & HO & HV).
  pose proof (po_regs h Hok) as Hregs. rewrite !Forall_cons in Hregs. destruct Hregs as (_ & _ & _ & W1 & _ & _ & W2 & _ & W3 & _).
  destruct (sync_ddr (upd h P D O V) x) as (x1 & E1 & Hs1); [by destruct Hsp | by destruct Hsy | done | done |].
  destruct (sync_od (wrote_ddr (upd h P D O V)) x1) as (x2 & E2 & Hs2); [by destruct Hsp | done | done | done |].
  destruct (sync_inv (wrote_od (wrote_ddr (upd h P D O V))) x2) as (x3 & E3 & Hs3); [by destruct Hsp | done | done | done |].
  exists P, D, O, V, x3. split; [| done]. unfold hm2_ioport_write. rewrite (run_bind _ _ _ _ _ E). rewrite (run_bind state _ _ _ _ eq_refl), (run_bind _ _ _ _ _ E1).
  rewrite (run_bind state _ _ _ _ eq_refl), (run_bind _ _ _ _ _ E2). by rewrite (run_bind state _ _ _ _ eq_refl).
Qed.

(** ** The card follows the HAL pins *)

Definition card_bit (x : hw) (a port k : Z) : bool := Z.testbit (word x (a + 4 * port)) k.

(** The bits of the card's registers for a pin. *)
Definition follows (h : hostmot2_t) (x : hw) : Prop :=
  forall port k p, 0 <= port < num_instances (ioport h) -> 0 <= k < port_width (idrom h) -> pin h !! Z.to_nat (port * port_width (idrom h) + k) = Some p ->
    card_bit x (ddr_addr (ioport h)) port k = outward p /\
    card_bit x (open_drain_addr (ioport h)) port k = outward p && flag (is_opendrain (hal p)) /\
    (outward p = true -> card_bit x (output_invert_addr (ioport h)) port k = flag (invert_output (hal p))) /\
    (is_gpio p = true -> card_bit x (data_addr (ioport h)) port k = flag (out (hal p))).

Lemma turned_gpio p : is_gpio (turned p) = is_gpio p.
Proof. unfold turned. by destruct (is_gpio p) eqn:E. Qed.
Lemma turned_hal p : hal (turned p) = hal p.
Proof. unfold hal. by rewrite turned_instance. Qed.
Lemma turned_output p : outward (turned p) = outward p.
Proof. unfold outward at 1. rewrite turned_gpio, turned_hal, turned_direction. unfold outward. by destruct (is_gpio p). Qed.
Lemma turned_ok p : pin_ok p -> pin_ok (turned p).
Proof.
  intros (g & Hg & H1 & H2 & H3 & H4). exists g. rewrite turned_instance, turned_gpio, turned_direction. do 3 (split; [done |]). split; [done |].
  intros H. apply H4. unfold outward in H. by destruct (is_gpio p).
Qed.

Lemma updated_pins h P D O V : ports_ok h -> updated h (num_instances (ioport h) * port_width (idrom h)) P D O V -> P = turned <$> pin h.
Proof.
  intros Hok Hu. apply list_eq_same_length with (n := length (pin h)); [by rewrite length_fmap | apply (up_length _ _ _ _ _ _ Hu) |].
  intros i a b _ Ha Hb. rewrite list_lookup_fmap in Hb. destruct (pin h !! i) as [p |] eqn:Ep; [| done]. cbn in Hb. injection Hb as <-.
  pose proof (lookup_lt_Some _ _ _ Ep) as Hlt. rewrite (up_pins _ _ _ _ _ _ Hu i p Ep), (proj2 (Z.ltb_lt _ _)) in Ha by (pose proof (po_pins h Hok); lia). congruence.
Qed.

Lemma ports_ok_updated h P D O V : ports_ok h -> updated h (num_instances (ioport h) * port_width (idrom h)) P D O V -> ports_ok (settled (upd h P D O V)).
Proof.
  intros Hok Hu. pose proof (updated_pins h P D O V Hok Hu) as HP. pose proof (up_lengths _ _ _ _ _ _ Hu) as (HD & HO & HV). destruct Hok as [H1 H2 H3 H4 H5]. split; cbn.
  - done.
  - done.
  - rewrite HP, length_fmap. done.
  - rewrite !Forall_cons in H4. destruct H4 as (R1 & R2 & _ & _ & R5 & _). by repeat constructor.
  - rewrite HP. apply Forall_fmap. eapply Forall_impl; [exact H5 |]. apply turned_ok.
Qed.

(** The data register. *)
Definition data (h : hostmot2_t) (B : list Z) : hostmot2_t := {| h with ioport := {| (ioport h) with data_write_reg := B |} |}.

Lemma put_data h B b port k (x : hw) : 0 <= port < Z.of_nat (length B) -> put data_write_reg set_data_write b port k (data h B, x) = (Ok tt, (data h (stored b port k B), x)).
Proof. intros Hp. by rewrite put_run. Qed.

Definition data_done (h : hostmot2_t) (c : Z) (B : list Z) : Prop :=
  length_is (num_instances (ioport h)) B /\
  forall port k p, 0 <= port < num_instances (ioport h) -> 0 <= k < port_width (idrom h) -> pin h !! Z.to_nat (port * port_width (idrom h) + k) = Some p ->
    port * port_width (idrom h) + k < c -> is_gpio p = true -> rbit B port k = flag (out (hal p)).

Lemma stored_length n b port k l : length_is n l -> length_is n (stored b port k l).
Proof. unfold length_is, stored. by rewrite length_insert. Qed.

Lemma data_next h B port k b : 0 < port_width (idrom h) <= 32 -> 0 <= port < num_instances (ioport h) -> 0 <= k < port_width (idrom h) ->
  data_done h (port * port_width (idrom h) + k) B ->
  (forall p, pin h !! Z.to_nat (port * port_width (idrom h) + k) = Some p -> is_gpio p = true -> b = flag (out (hal p))) ->
  data_done h (port * port_width (idrom h) + k + 1) (stored b port k B).
Proof.
  intros Hw Hp Hk [Hl Hd] Hb. split; [by apply stored_length |]. intros port' k' p Hp' Hk' Hpin Hlt Hg. unfold stored. rewrite (put_bits h) by (done || lia).
  destruct (Z.eqb_spec (port' * port_width (idrom h) + k') (port * port_width (idrom h) + k)) as [E | Hne]; [apply Hb; [by rewrite <- E | done] | apply (Hd _ _ p); (done || lia)].
Qed.

Lemma stored_twice b b' port k B port' k' n : length_is n B -> 0 <= port < n -> 0 <= k < 32 -> 0 <= k' < 32 -> 0 <= port' ->
  rbit (stored b port k (stored b' port k B)) port' k' = rbit (stored b port k B) port' k'.
Proof.
  intros Hl Hp Hk Hk' Hp'. unfold length_is in Hl. unfold stored at 1. rewrite rbit_put by (unfold stored; rewrite ?length_insert; lia). unfold stored. rewrite !rbit_put by lia.
  by destruct ((port' =? port) && (k' =? k)).
Qed.

Lemma data_run h B (x : hw) : ports_ok h -> length_is (num_instances (ioport h)) B ->
  exists B', each_pin write_bit (data h B, x) = (Ok tt, (data h B', x)) /\ data_done h (num_instances (ioport h) * port_width (idrom h)) B'.
Proof.
  intros Hok HB. pose proof Hok as [Hn Hw Hpins Hregs Hpin].
  destruct (each_pin_spec (fun c s => exists B', s = (data h B', x) /\ data_done h c B') write_bit (data h B, x)) as (s & E & B' & -> & Hd).
  - unfold ports. cbn. lia.
  - unfold width. cbn. lia.
  - unfold ports, width. cbn [fst]. intros port k s Hp Hk (B' & -> & Hd). change (num_instances (ioport (data h B))) with (num_instances (ioport h)) in Hp. change (port_width (idrom (data h B))) with (port_width (idrom h)) in *.
    destruct (lookup_lt_is_Some_2 (pin h) (Z.to_nat (port * port_width (idrom h) + k))) as [p Hpp]; [nia |].
    pose proof (proj1 (Forall_lookup _ _) Hpin _ _ Hpp) as (g & Hg & _ & _ & Hio & _). assert (hal p = g) as Hh by (unfold hal; by rewrite Hg).
    unfold write_bit. rewrite (run_bind _ _ _ p (data h B', x)) by (apply get_pin_run; [nia | done]). change (gtag p =? HM2_GTAG_IOPORT) with (is_gpio p).
    pose proof (proj1 Hd) as HB'. unfold length_is in HB'. destruct (is_gpio p) eqn:Eg; cbn [negb].
    + destruct (Hio eq_refl) as [[o Ho] _]. rewrite (run_bind _ _ _ tt _ (put_data h B' false port k x ltac:(lia))).
      rewrite (run_bind (gpio p) _ _ g (data h (stored false port k B'), x)) by (unfold gpio; by rewrite Hg). rewrite Ho. rewrite (run_bind (deref (Some o)) _ _ o _ eq_refl). destruct o.
      * rewrite put_data by (unfold stored; rewrite length_insert; lia). eexists. split; [reflexivity |]. eexists. split; [reflexivity |].
        pose proof (data_next h B' port k true Hw Hp Hk Hd) as [HL HR]; [intros q Hq _; rewrite Hpp in Hq; injection Hq as <-; by rewrite Hh, Ho |].
        split; [by apply stored_length, stored_length, Hd |]. intros port' k' q Hp' Hk' Hq Hlt Hgq. rewrite (stored_twice _ _ _ _ _ _ _ (num_instances (ioport h))) by (done || lia). by apply (HR _ _ q).
      * eexists. split; [reflexivity |]. eexists. split; [reflexivity |]. apply data_next; try done. intros q Hq _. rewrite Hpp in Hq. injection Hq as <-. by rewrite Hh, Ho.
    + eexists. split; [reflexivity |]. eexists. split; [reflexivity |]. split; [apply Hd |]. intros port' k' q Hp' Hk' Hq Hlt Hgq.
      destruct (Z.eq_dec (port' * port_width (idrom h) + k') (port * port_width (idrom h) + k)) as [E | Hne]; [rewrite E, Hpp in Hq; injection Hq as <-; congruence | apply (proj2 Hd _ _ q); (done || lia)].
  - exists B. split; [done |]. split; [done |]. nia.
  - exists B'. done.
Qed.

Lemma data_self h : data h (data_write_reg (ioport h)) = h.
Proof. by destruct h as [? ? ? ? ? ? ? []]. Qed.

(** The state of the driver between its functs. *)
Record good (h : hostmot2_t) (x : hw) : Prop := { gd_ok : ports_ok h; gd_spaced : spaced h; gd_sync : in_sync h x }.

Lemma ports_ok_data h B : ports_ok h -> length_is (num_instances (ioport h)) B -> ports_ok (data h B).
Proof. intros [H1 H2 H3 H4 H5] HB. split; try done. cbn. rewrite !Forall_cons in H4. destruct H4 as (R1 & _ & R3 & R4 & R5 & R6 & R7 & R8 & R9 & _). by repeat constructor. Qed.

Lemma gpio_write_run h x : good h x ->
  exists h' x', hm2_ioport_gpio_write (h, x) = (Ok tt, (h', x')) /\ good h' x' /\ follows h' x' /\ pin h' = turned <$> pin h /\
    exists D O V B, h' = data (settled (upd h (turned <$> pin h) D O V)) B.
Proof.
  intros [Hok Hsp Hsy]. destruct (ioport_write_run h x Hok Hsp Hsy) as (P & D & O & V & x1 & E1 & Hu & Hs1).
  pose proof (ports_ok_updated h P D O V Hok Hu) as Hok1. pose proof (updated_pins h P D O V Hok Hu) as HP. pose proof (up_lengths _ _ _ _ _ _ Hu) as (HD & HO & HV). set (h1 := settled (upd h P D O V)) in *.
  assert (length_is (num_instances (ioport h)) (data_write_reg (ioport h1))) as HB0 by (pose proof (po_regs h Hok) as Hr; rewrite !Forall_cons in Hr; by destruct Hr as (_ & Hr & _)).
  destruct (data_run h1 (data_write_reg (ioport h1)) x1 Hok1 HB0) as (B & E2 & HB & Hd). rewrite data_self in E2.
  exists (data h1 B), (llio_write (data_addr (ioport h)) B x1). split; [| split; [| split; [| split]]].
  - unfold hm2_ioport_gpio_write. rewrite (run_bind state _ _ _ _ eq_refl). rewrite (proj2 (Z.leb_gt _ _)) by apply Hok.
    by rewrite (run_bind _ _ _ _ _ E1), (run_bind _ _ _ _ _ E2).
  - destruct Hs1 as [Y1 Y2 Y3 Y4], Hsp as [S1 S2 S3 S4]. split; [by apply ports_ok_data | done |].
    split; cbn in *; apply card_kept; try done; unfold apart; lia.
  - intros port k p Hp Hk Hpin. change (pin (data h1 B)) with P in Hpin. change (num_instances (ioport (data h1 B))) with (num_instances (ioport h)) in Hp. change (port_width (idrom (data h1 B))) with (port_width (idrom h)) in *.
    rewrite HP, list_lookup_fmap in Hpin. destruct (pin h !! _) as [q |] eqn:Eq; [| done]. cbn in Hpin. injection Hpin as <-. rewrite turned_output, turned_hal, turned_gpio.
    destruct (up_bits _ _ _ _ _ _ Hu port k q Hp Hk Eq) as (B1 & B2 & B3); [by apply number_lt |]. destruct Hs1 as [Y1 Y2 Y3 Y4], Hsp as [S1 S2 S3 S4]. cbn in Y1, Y2, Y3, Y4.
    unfold card_bit. cbn.
    rewrite (card_kept (num_instances (ioport h)) x1 (data_addr (ioport h)) B (ddr_addr (ioport h)) D HB ltac:(unfold apart; lia) Y1), (card_kept (num_instances (ioport h)) x1 (data_addr (ioport h)) B (open_drain_addr (ioport h)) O HB ltac:(unfold apart; lia) Y2),
      (card_kept (num_instances (ioport h)) x1 (data_addr (ioport h)) B (output_invert_addr (ioport h)) V HB ltac:(unfold apart; lia) Y3), (card_written (num_instances (ioport h)) x1 _ B HB) by done.
    split; [done |]. split; [done |]. split; [done |]. intros Hg. rewrite <- (turned_hal q). apply Hd; [done | done | | by apply number_lt | by rewrite turned_gpio].
    cbn. by rewrite HP, list_lookup_fmap, Eq.
  - exact HP.
  - rewrite <- HP. by exists D, O, V, B.
Qed.

(** ** Reading *)

Definition leveled (h : hostmot2_t) (d : list Z) (port k : Z) (p : hm2_pin_t) : hm2_pin_t :=
  {| p with instance := Some {| (hal p) with in_ := Some (rbit d port k); in_not := Some (negb (rbit d port k)) |} |}.

Definition read_regs (h : hostmot2_t) (d : list Z) : hostmot2_t := {| h with ioport := {| (ioport h) with data_read_reg := d |} |}.
Definition pins (h : hostmot2_t) (P : list hm2_pin_t) : hostmot2_t := {| h with pin := P |}.

Lemma leveled_ok h d port k p : pin_ok p -> pin_ok (leveled h d port k p).
Proof. intros (g & Hg & H1 & H2 & H3 & H4). unfold leveled, hal. rewrite Hg. eexists. split; [reflexivity |]. split; [by eexists |]. split; [by eexists |]. by split. Qed.

(** The pins that are read: all, or the inputs. *)
Record read_in (wanted : hm2_pin_t -> bool) (h : hostmot2_t) (d : list Z) (c : Z) (P : list hm2_pin_t) : Prop := {
  ri_length : length P = length (pin h);
  ri_ok : Forall pin_ok P;
  ri_pins : forall port k p, 0 <= port < num_instances (ioport h) -> 0 <= k < port_width (idrom h) -> pin h !! Z.to_nat (port * port_width (idrom h) + k) = Some p ->
    P !! Z.to_nat (port * port_width (idrom h) + k) = Some (if wanted p && (port * port_width (idrom h) + k <? c) then leveled h d port k p else p);
}.

Lemma store_in_run bit c p g h (x : hw) : 0 <= c -> pin h !! Z.to_nat c = Some p -> instance p = Some g -> is_Some (in_ g) -> is_Some (in_not g) ->
  store_in bit c (h, x) = (Ok tt, (pins h (<[Z.to_nat c := {| p with instance := Some {| g with in_ := Some bit; in_not := Some (negb bit) |} |}]> (pin h)), x)).
Proof.
  intros Hc Hp Hg [a Ha] [b Hb]. unfold store_in. rewrite (run_bind _ _ _ p (h, x)) by by apply get_pin_run.
  rewrite (run_bind (gpio p) _ _ g (h, x)) by (unfold gpio; by rewrite Hg). rewrite Ha, Hb. rewrite (run_bind (deref (Some a)) _ _ a _ eq_refl), (run_bind (deref (Some b)) _ _ b _ eq_refl).
  by rewrite (set_pin_run c _ p).
Qed.

Lemma read_step wanted h d P port k p (x : hw) : ports_ok h -> let c := port * port_width (idrom h) + k in read_in wanted (read_regs h d) d c P -> length_is (num_instances (ioport h)) d ->
  0 <= port < num_instances (ioport h) -> 0 <= k < port_width (idrom h) -> pin h !! Z.to_nat c = Some p ->
  exists P', (if negb (wanted p) then mret tt else bit ← read_bit port k; store_in bit c) (pins (read_regs h d) P, x) = (Ok tt, (pins (read_regs h d) P', x)) /\ read_in wanted (read_regs h d) d (c + 1) P'.
Proof.
  intros Hok c [H1 H2 H3] Hd Hp Hk Hpin. assert (0 <= c) as Hc by (destruct Hok; nia). pose proof (H3 port k p Hp Hk Hpin) as HP. cbn in HP. rewrite Z.ltb_irrefl, andb_false_r in HP.
  destruct (wanted p) eqn:Ew; cbn [negb].
  - destruct (lookup_lt_is_Some_2 d (Z.to_nat port)) as [v Hv]; [unfold length_is in Hd; lia |].
    assert (read_bit port k (pins (read_regs h d) P, x) = (Ok (rbit d port k), (pins (read_regs h d) P, x))) as Eb by (unfold read_bit; run; rewrite (at_run _ _ v) by (done || lia); unfold rbit; by rewrite (nth_lookup_Some _ _ _ _ Hv)).
    rewrite (run_bind _ _ _ _ _ Eb). pose proof (proj1 (Forall_lookup _ _) (po_pin h Hok) _ _ Hpin) as (g & Hg & I1 & I2 & I3).
    rewrite (store_in_run _ c p g) by done. eexists. split; [reflexivity |]. cbn [pin pins]. split.
    + by rewrite length_insert.
    + apply Forall_insert; [done |]. change g with (default g (Some g)). rewrite <- Hg. pose proof (leveled_ok h d port k p) as Hs. unfold leveled, hal in Hs. rewrite Hg in *. cbn [default] in *. apply Hs. by exists g.
    + intros port' k' q Hp' Hk' Hq. cbn [idrom ioport read_regs num_instances pin] in *. destruct (Z.eqb_spec (port' * port_width (idrom h) + k') c) as [E | Hne].
      * rewrite E. fold c in Hpin. rewrite E, Hpin in Hq. injection Hq as <-. apply number_eq in E as [-> ->]; [| done | done]. fold c. rewrite list_lookup_insert_eq by (rewrite H1; cbn; by eapply lookup_lt_Some).
        rewrite Ew, (proj2 (Z.ltb_lt _ _)) by lia. unfold leveled, hal. by rewrite Hg.
      * rewrite list_lookup_insert_ne by (destruct Hok; nia). rewrite (H3 port' k' q Hp' Hk' Hq). cbn. by replace (port' * port_width (idrom h) + k' <? c + 1) with (port' * port_width (idrom h) + k' <? c) by (destruct (Z.ltb_spec (port' * port_width (idrom h) + k') c), (Z.ltb_spec (port' * port_width (idrom h) + k') (c + 1)); (done || lia)).
  - eexists. split; [reflexivity |]. split; [done | done |]. intros port' k' q Hp' Hk' Hq. cbn [idrom ioport read_regs num_instances pin] in *. rewrite (H3 port' k' q Hp' Hk' Hq).
    destruct (Z.eqb_spec (port' * port_width (idrom h) + k') c) as [E | Hne]; [rewrite E, Hpin in Hq; injection Hq as <-; by rewrite Ew |].
    cbn. by replace (port' * port_width (idrom h) + k' <? c + 1) with (port' * port_width (idrom h) + k' <? c) by (destruct (Z.ltb_spec (port' * port_width (idrom h) + k') c), (Z.ltb_spec (port' * port_width (idrom h) + k') (c + 1)); (done || lia)).
Qed.

Lemma read_in_start wanted h d : ports_ok h -> read_in wanted (read_regs h d) d 0 (pin h).
Proof.
  intros Hok. split; [done | apply Hok |]. intros port k p Hp Hk Hpin. cbn in *. rewrite (proj2 (Z.ltb_ge _ _)) by (destruct Hok; nia). by rewrite andb_false_r.
Qed.

(** The loops of [hm2_ioport_gpio_read] and [hm2_ioport_gpio_process_tram_read]. *)
Lemma sample_run wanted h d (x : hw) f : ports_ok h -> length_is (num_instances (ioport h)) d ->
  (forall port k c P p, 0 <= c -> P !! Z.to_nat c = Some p -> f port k c (pins (read_regs h d) P, x) = (if negb (wanted p) then mret tt else bit ← read_bit port k; store_in bit c) (pins (read_regs h d) P, x)) ->
  exists P, each_pin f (read_regs h d, x) = (Ok tt, (pins (read_regs h d) P, x)) /\ read_in wanted (read_regs h d) d (num_instances (ioport h) * port_width (idrom h)) P.
Proof.
  intros Hok Hd Hf. pose proof Hok as [Hn Hw Hpins Hregs Hpin].
  destruct (each_pin_spec (fun c s => exists P, s = (pins (read_regs h d) P, x) /\ read_in wanted (read_regs h d) d c P) f (read_regs h d, x)) as (s & E & P & -> & Hr).
  - unfold ports. cbn. lia.
  - unfold width. cbn. lia.
  - unfold ports, width. cbn [fst idrom ioport read_regs num_instances]. intros port k s Hp Hk (P & -> & Hr).
    destruct (lookup_lt_is_Some_2 (pin h) (Z.to_nat (port * port_width (idrom h) + k))) as [p Hpp]; [nia |]. pose proof (number_lt _ _ _ _ Hp Hk) as [Hc _].
    pose proof (ri_pins _ _ _ _ _ Hr port k p Hp Hk Hpp) as HP. cbn in HP. rewrite Z.ltb_irrefl, andb_false_r in HP.
    destruct (read_step wanted h d P port k p x Hok Hr Hd Hp Hk Hpp) as (P' & E & Hr'). rewrite (Hf _ _ _ _ _ Hc HP). exists (pins (read_regs h d) P', x). split; [done |]. by exists P'.
  - exists (pin h). split; [done |]. by apply read_in_start.
  - by exists P.
Qed.

Lemma read_in_done wanted h d P : ports_ok h -> length_is (num_instances (ioport h)) d -> read_in wanted (read_regs h d) d (num_instances (ioport h) * port_width (idrom h)) P -> ports_ok (pins (read_regs h d) P).
Proof.
  intros [H1 H2 H3 H4 H5] Hd [R1 R2 R3]. split; try done; cbn in *; [by rewrite R1 |]. rewrite !Forall_cons in H4. destruct H4 as (_ & Q2 & Q3 & Q4 & Q5 & Q6 & Q7 & Q8 & Q9 & _). by repeat constructor.
Qed.

Definition is_input (p : hm2_pin_t) : bool := direction p =? HM2_PIN_DIR_IS_INPUT.

Lemma gpio_read_run h x : good h x ->
  exists d P x', hm2_ioport_gpio_read (h, x) = (Ok tt, (pins (read_regs h d) P, x')) /\ good (pins (read_regs h d) P) x' /\
    read_in is_input (read_regs h d) d (num_instances (ioport h) * port_width (idrom h)) P /\
    (fst (fst (llio_read (data_addr (ioport h)) (num_instances (ioport h)) x)) = true -> d = snd (fst (llio_read (data_addr (ioport h)) (num_instances (ioport h)) x))).
Proof.
  intros [Hok Hsp Hsy]. unfold hm2_ioport_gpio_read. rewrite (run_bind state _ _ _ _ eq_refl). cbn [fst]. rewrite (proj2 (Z.leb_gt _ _)) by apply Hok.
  pose proof (word_read x (data_addr (ioport h)) (num_instances (ioport h))) as Hword. pose proof (read_length x (data_addr (ioport h)) (num_instances (ioport h)) ltac:(destruct Hok; lia)) as Hlen.
  destruct (llio_read (data_addr (ioport h)) (num_instances (ioport h)) x) as [[ok d] x'] eqn:Er. cbn [fst snd] in *.
  assert (read (data_addr (ioport h)) (num_instances (ioport h)) (h, x) = (Ok (ok, d), (h, x'))) as E by (unfold read; run; by rewrite Er). rewrite (run_bind _ _ _ _ _ E). cbv beta iota.
  set (d' := if ok then d else data_read_reg (ioport h)).
  assert ((if ok then set_ioport (fun io => {| io with data_read_reg := d |}) else mret tt) (h, x') = (Ok tt, (read_regs h d', x'))) as E2 by (unfold d'; destruct ok; [done | by destruct h as [? ? ? ? ? ? ? []]]).
  assert (length_is (num_instances (ioport h)) d') as Hd by (unfold d'; destruct ok; [by apply Hlen | pose proof (po_regs h Hok) as Hr; rewrite !Forall_cons in Hr; by destruct Hr as (Hr & _)]).
  rewrite (run_bind _ _ _ _ _ E2).
  destruct (sample_run is_input h d' x' (fun port port_pin io_pin => p ← get_pin io_pin; if negb (direction p =? HM2_PIN_DIR_IS_INPUT) then mret tt else bit ← read_bit port port_pin; store_in bit io_pin) Hok Hd) as (P & E3 & Hr).
  - intros port k c P p Hc Hp. by rewrite (run_bind _ _ _ p (pins (read_regs h d') P, x')) by by apply get_pin_run.
  - exists d', P, x'. split; [exact E3 |]. split; [| split; [done | by unfold d'; intros ->]].
    split; [by apply (read_in_done is_input) | by destruct Hsp |]. destruct Hsy as [Y1 Y2 Y3 Y4]. split; intros port Hp; cbn in *; rewrite Hword; auto.
Qed.

Lemma process_read_run h x : good h x ->
  exists P, hm2_ioport_gpio_process_tram_read (h, x) = (Ok tt, (pins h P, x)) /\ good (pins h P) x /\
    read_in (fun _ => true) h (data_read_reg (ioport h)) (num_instances (ioport h) * port_width (idrom h)) P.
Proof.
  intros [Hok Hsp Hsy]. pose proof (po_regs h Hok) as Hr. rewrite !Forall_cons in Hr. destruct Hr as (Hd & _).
  assert (read_regs h (data_read_reg (ioport h)) = h) as Eh by by destruct h as [? ? ? ? ? ? ? []].
  destruct (sample_run (fun _ => true) h (data_read_reg (ioport h)) x (fun port port_pin io_pin => bit ← read_bit port port_pin; store_in bit io_pin) Hok Hd) as (P & E & Hin); [done |].
  pose proof (read_in_done _ h _ P Hok Hd Hin) as Hok'. rewrite Eh in *. exists P. split; [exact E |]. split; [| done]. split; [done | by destruct Hsp | by destruct Hsy].
Qed.

Lemma force_ddr_run h (x : hw) : hm2_ioport_force_write_ddr (h, x) = (Ok tt, (wrote_ddr h, llio_write (ddr_addr (ioport h)) (ddr_reg (ioport h)) x)).
Proof. done. Qed.
Lemma force_od_run h (x : hw) : hm2_ioport_force_write_open_drain (h, x) = (Ok tt, (wrote_od h, llio_write (open_drain_addr (ioport h)) (open_drain_reg (ioport h)) x)).
Proof. done. Qed.
Lemma force_inv_run h (x : hw) : hm2_ioport_force_write_output_invert (h, x) = (Ok tt, (wrote_inv h, llio_write (output_invert_addr (ioport h)) (output_invert_reg (ioport h)) x)).
Proof. done. Qed.
Lemma wrote_comm h : wrote_od (wrote_inv h) = wrote_inv (wrote_od h).
Proof. done. Qed.

Lemma alt_length h : ports_ok h -> length_is (num_instances (ioport h)) (alt_source_reg (ioport h)).
Proof. intros Hok. pose proof (po_regs h Hok) as Hr. rewrite !Forall_cons in Hr. by destruct Hr as (_ & _ & _ & _ & HA & _). Qed.

Lemma force_write_run h x : ports_ok h -> spaced h ->
  exists D O V x', hm2_ioport_force_write (h, x) = (Ok tt, (settled (upd h (turned <$> pin h) D O V), x')) /\ good (settled (upd h (turned <$> pin h) D O V)) x'.
Proof.
  intros Hok Hsp. destruct (update_run h x Hok) as (P & D & O & V & E & Hu). pose proof (updated_pins h P D O V Hok Hu) as HP. pose proof (up_lengths _ _ _ _ _ _ Hu) as (HD & HO & HV).
  pose proof (ports_ok_updated h P D O V Hok Hu) as Hok1. rewrite <- HP. pose proof (alt_length h Hok) as HA. set (u := upd h P D O V) in *.
  assert (spaced u) as Hsp1 by by destruct Hsp.
  exists D, O, V, (llio_write (alt_source_addr (ioport h)) (alt_source_reg (ioport h)) (llio_write (open_drain_addr (ioport h)) O
    (llio_write (output_invert_addr (ioport h)) V (llio_write (ddr_addr (ioport h)) D x)))). split.
  - unfold hm2_ioport_force_write. rewrite (run_bind _ _ _ _ _ E), (run_bind _ _ _ _ _ (force_ddr_run _ _)), (run_bind _ _ _ _ _ (force_inv_run _ _)), (run_bind _ _ _ _ _ (force_od_run _ _)).
    rewrite wrote_comm. done.
  - split; [done | by destruct Hsp |]. clear E Hok1 Hu. destruct Hsp as [S1 S2 S3 S4]. split; cbn.
    + do 3 (apply card_kept; [done | unfold apart; lia |]). by apply card_written.
    + apply card_kept; [done | unfold apart; lia |]. by apply card_written.
    + do 2 (apply card_kept; [done | unfold apart; lia |]). by apply card_written.
    + by apply card_written.
Qed.

(** ** Any sequence of events *)

Lemma set_hal_ok k b p : pin_ok p -> pin_ok {| p with instance := set_hal k b <$> instance p |}.
Proof.
  intros (g & Hg & H1 & H2 & H3 & H4). rewrite Hg. exists (set_hal k b g). split; [done |].
  assert (forall o : option bool, is_Some o -> is_Some (match o with Some _ => Some b | None => None end)) as Hto by (intros o [v ->]; by eexists).
  split; [by destruct k |]. split; [by destruct k |]. split.
  - intros Hio. destruct (H3 Hio) as [A B]. destruct k; cbn; split; auto.
  - intros Ho. destruct (H4 Ho) as [A B]. destruct k; cbn; split; auto.
Qed.

Lemma step_good ev h x : good h x -> exists h' x', step ev (h, x) = (Ok tt, (h', x')) /\ good h' x'.
Proof.
  intros Hg. destruct ev as [i k b | | |].
  - eexists _, _. split; [reflexivity |]. destruct Hg as [[H1 H2 H3 H4 H5] Hsp Hsy]. split; [| by destruct Hsp | by destruct Hsy].
    split; try done; cbn; [by rewrite length_alter |]. apply Forall_alter; [done |]. intros p Hp Hpok. by apply set_hal_ok.
  - destruct (gpio_read_run h x Hg) as (d & P & x' & E & Hg' & _). by eexists _, _.
  - destruct (gpio_write_run h x Hg) as (h' & x' & E & Hg' & _). by eexists _, _.
  - destruct Hg as [Hok Hsp _]. destruct (force_write_run h x Hok Hsp) as (D & O & V & x' & E & Hg'). by eexists _, _.
Qed.

Lemma steps_good evs h x : good h x -> exists h' x', steps evs (h, x) = (Ok tt, (h', x')) /\ good h' x'.
Proof.
  revert h x. induction evs as [| ev evs IH]; intros h x Hg; cbn [steps]; [by exists h, x |].
  destruct (step_good ev h x Hg) as (h1 & x1 & E & Hg1). rewrite (run_bind _ _ _ _ _ E). by apply IH.
Qed.
End Ports.

(** ** The start of the driver *)

Section Start.
Context {hw : Type} `{PB : PinBoard hw} `{PH : PinHost}.
Abbreviation T := (hostmot2_t * hw)%type.

Ltac run := unfold state, change, set_ioport, get, modify, mbind, M_bind, mret, M_ret; cbn [fst snd].

Lemma check_idrom_ok h (x : hw) s : check_idrom (h, x) = (Ok 0, s) -> s = (h, x) /\ port_width (idrom h) = pins_per_connector h /\
  io_width (idrom h) = u32 (io_ports (idrom h) * port_width (idrom h)) /\ io_ports (idrom h) = num_ioport_connectors h.
Proof.
  unfold check_idrom. run. intros E. destruct (_ =? pins_per_connector h) eqn:E1; [| done]. destruct (_ =? u32 _) eqn:E2; [| done]. destruct (_ =? num_ioport_connectors h) eqn:E3; [| done].
  destruct (_ <? io_width _); [done |]. cbn in E. injection E as <-. zb. done.
Qed.

(** What a pin descriptor gives. *)
Definition described (h : hostmot2_t) (i : Z) (p : hm2_pin_t) : Prop :=
  gtag p = HM2_GTAG_IOPORT /\ primary_tag p = HM2_GTAG_IOPORT /\ port_num p = u8 (i / port_width (idrom h)) /\ bit_num p = u8 (i mod port_width (idrom h)).

Lemma set_pin_pins i f p h P (x : hw) : 0 <= i -> P !! Z.to_nat i = Some p -> set_pin i f (pins h P, x) = (Ok tt, (pins h (<[Z.to_nat i := f p]> P), x)).
Proof. intros Hi Hp. by rewrite (set_pin_run i f p). Qed.

Lemma set_pin_again i q p h P (x : hw) : 0 <= i -> (Z.to_nat i < length P)%nat -> set_pin i (fun _ => p) (pins h (<[Z.to_nat i := q]> P), x) = (Ok tt, (pins h (<[Z.to_nat i := p]> P), x)).
Proof. intros Hi Hl. rewrite (set_pin_pins i _ q) by (done || by apply list_lookup_insert_eq). by rewrite list_insert_insert_eq. Qed.

Lemma read_pin_descriptor_ok i addr h P (x : hw) s : 0 <= i -> read_pin_descriptor i addr (pins h P, x) = (Ok 0, s) ->
  exists p x', s = (pins h (<[Z.to_nat i := p]> P), x') /\ described h i p.
Proof.
  intros Hi. unfold read_pin_descriptor. rewrite (run_bind state _ _ _ _ eq_refl). intros (p & s1 & E1 & E)%bind_ok.
  assert (P !! Z.to_nat i = Some p /\ s1 = (pins h P, x)) as [Hp ->].
  { unfold get_pin, at_ in E1. revert E1. run. cbn [pin pins]. rewrite (proj2 (Z.leb_le 0 i)) by done. destruct (P !! Z.to_nat i); [by intros [= -> <-] | done]. }
  pose proof (lookup_lt_Some _ _ _ Hp) as Hl. apply bind_ok in E as ([ok d] & s2 & E2 & E). unfold read in E2. revert E2. run. destruct (llio_read addr 1 x) as [[ok' d'] x'] eqn:Er. intros [= -> -> <-].
  destruct ok; cbn [negb] in E; [| done]. apply bind_ok in E as (d0 & s3 & E3 & E).
  assert (s3 = (pins h P, x')) as -> by (unfold at_ in E3; revert E3; destruct (if 0 <=? 0 then _ else _); run; [by intros [= ? <-] | done]). cbv zeta in E.
  rewrite (run_bind _ _ _ _ _ (set_pin_pins i _ p h P x' Hi Hp)) in E. cbn [primary_tag] in E.
  destruct (_ =? 0); [done |]. destruct (_ =? HM2_GTAG_IOPORT) eqn:Eg; cbn [negb] in E; [| done]. apply Z.eqb_eq in Eg. destruct (port_width _ =? 0); [done |].
  rewrite (run_bind _ _ _ _ _ (set_pin_again i _ _ h P x' Hi Hl)) in E. destruct (_ <=? _); [done |].
  rewrite (run_bind _ _ _ _ _ (set_pin_again i _ _ h P x' Hi Hl)) in E. destruct (31 <? _); [done |].
  rewrite (run_bind _ _ _ _ _ (set_pin_pins i _ _ h _ x' Hi (list_lookup_insert_eq P _ _ Hl))) in E. rewrite list_insert_insert_eq in E. injection E as <-.
  eexists _, _. split; [reflexivity |]. unfold described. cbn. by rewrite !Eg.
Qed.

Lemma read_pin_descriptors_ok n i addr h P (x : hw) s : 0 <= i -> read_pin_descriptors n i addr (pins h P, x) = (Ok 0, s) ->
  exists P' x', s = (pins h P', x') /\ length P' = length P /\ (forall j, (j < Z.to_nat i)%nat -> P' !! j = P !! j) /\
    (forall j p, (Z.to_nat i <= j < Z.to_nat i + n)%nat -> P' !! j = Some p -> described h (Z.of_nat j) p).
Proof.
  revert i addr P x. induction n as [| n IH]; intros i addr P x Hi; cbn [read_pin_descriptors].
  - intros [= <-]. exists P, x. do 3 (split; [done |]). intros. lia.
  - intros (r & s1 & E1 & E)%bind_ok. destruct (r =? 0) eqn:Er; [| injection E as -> ->; done]. zb. subst r.
    destruct (read_pin_descriptor_ok i addr h P x s1 Hi E1) as (p & x1 & -> & Hd).
    destruct (IH (i + 1) (addr + 4) _ x1 ltac:(lia) E) as (P' & x' & -> & Hl & Hlow & Hhigh). exists P', x'. split; [done |]. rewrite length_insert in Hl. split; [done |].
    split; [intros j Hj; rewrite Hlow by lia; by rewrite list_lookup_insert_ne by lia |].
    intros j q Hj Hq. destruct (decide (j = Z.to_nat i)) as [-> | Hne]; [| apply (Hhigh j q); (done || lia)].
    rewrite Hlow in Hq by lia. apply list_lookup_insert_Some in Hq as [(_ & -> & _) | [? _]]; [by rewrite Z2Nat.id | done].
Qed.

(** ** Which module gets a pin *)

(** A card with ports and described pins. *)
Record ready (h : hostmot2_t) : Prop := {
  rd_ports : 0 < num_instances (ioport h) < 256;
  rd_width : 0 < port_width (idrom h) <= 32;
  rd_num : num_pins h = num_instances (ioport h) * port_width (idrom h);
  rd_pins : Z.of_nat (length (pin h)) = num_pins h;
  rd_alt : length_is (num_instances (ioport h)) (alt_source_reg (ioport h));
  rd_described : forall i p, pin h !! i = Some p -> described h (Z.of_nat i) p;
}.

(** The pin with its owner: its secondary function, or none. *)
Definition assign (b : bool) (p : hm2_pin_t) : hm2_pin_t :=
  {| p with gtag := if b then sec_tag p else primary_tag p;
            direction := if b && Z.testbit (sec_pin p) 7 then HM2_PIN_DIR_IS_OUTPUT else HM2_PIN_DIR_IS_INPUT |}.

Definition retag (b : bool) (p : hm2_pin_t) : hm2_pin_t := {| p with gtag := if b then sec_tag p else primary_tag p |}.

Definition conf (h : hostmot2_t) (P : list hm2_pin_t) (A : list Z) : hostmot2_t :=
  {| h with pin := P; ioport := {| (ioport h) with alt_source_reg := A |} |}.

Lemma place h port k p : ready h -> 0 <= port < num_instances (ioport h) -> 0 <= k < port_width (idrom h) -> pin h !! Z.to_nat (port * port_width (idrom h) + k) = Some p ->
  port_num p = port /\ bit_num p = k.
Proof.
  intros [H1 H2 H3 H4 H5 H6] Hp Hk Hpin. destruct (H6 _ _ Hpin) as (_ & _ & -> & ->). rewrite Z2Nat.id by nia.
  rewrite Z.div_add_l, Z.div_small, Z.add_0_r, Z.add_comm, Z.mod_add, Z.mod_small by lia. split; apply wrapu_small; lia.
Qed.

Lemma valid h P A i : ready h -> 0 <= i < num_pins h -> valid_pin (conf h P A) i = true.
Proof. intros [H1 H2 H3 H4 H5 H6] Hi. unfold valid_pin. cbn. rewrite (proj2 (Z.ltb_ge i 0)), (proj2 (Z.leb_gt _ i)), (proj2 (Z.leb_gt _ 0)) by lia. done. Qed.

Lemma put_alt h P A b port k (x : hw) : 0 <= port < Z.of_nat (length A) -> put alt_source_reg set_alt_source b port k (conf h P A, x) = (Ok tt, (conf h P (stored b port k A), x)).
Proof. intros Hp. by rewrite put_run. Qed.

Lemma set_pin_conf h P A i f p (x : hw) : 0 <= i -> P !! Z.to_nat i = Some p -> set_pin i f (conf h P A, x) = (Ok tt, (conf h (<[Z.to_nat i := f p]> P) A, x)).
Proof. intros Hi Hp. by rewrite (set_pin_run i f p). Qed.

Section Pin.
Context (h : hostmot2_t) (P : list hm2_pin_t) (A : list Z) (port k : Z) (q : hm2_pin_t) (x : hw).
Context (Hrd : ready h) (Hport : 0 <= port < num_instances (ioport h)) (Hk : 0 <= k < port_width (idrom h)) (HA : length_is (num_instances (ioport h)) A).
Let i := port * port_width (idrom h) + k.
Context (HP : P !! Z.to_nat i = Some q) (Hplace : port_num q = port /\ bit_num q = k).

Lemma index_ok : 0 <= i < num_pins h.
Proof. rewrite (rd_num h Hrd). apply number_lt; done. Qed.

Lemma set_source_run b : hm2_set_pin_source i (if b : bool then HM2_PIN_SOURCE_IS_SECONDARY else HM2_PIN_SOURCE_IS_PRIMARY) (conf h P A, x) =
  (Ok tt, (conf h (<[Z.to_nat i := retag b q]> P) (stored b port k A), x)).
Proof.
  pose proof index_ok as Hi. unfold hm2_set_pin_source. rewrite (run_bind state _ _ _ _ eq_refl). cbn [fst]. rewrite valid by done. cbn [negb].
  rewrite (run_bind _ _ _ q (conf h P A, x)) by (apply get_pin_run; [lia | done]). unfold length_is in HA.
  destruct b; rewrite (proj1 Hplace), (proj2 Hplace).
  - change (HM2_PIN_SOURCE_IS_SECONDARY =? HM2_PIN_SOURCE_IS_PRIMARY) with false. change (HM2_PIN_SOURCE_IS_SECONDARY =? HM2_PIN_SOURCE_IS_SECONDARY) with true. cbv iota.
    rewrite (run_bind _ _ _ tt _ (put_alt h P A _ port k x ltac:(lia))). by rewrite (set_pin_conf h P _ i _ q) by (done || lia).
  - change (HM2_PIN_SOURCE_IS_PRIMARY =? HM2_PIN_SOURCE_IS_PRIMARY) with true. cbv iota.
    rewrite (run_bind _ _ _ tt _ (put_alt h P A _ port k x ltac:(lia))). by rewrite (set_pin_conf h P _ i _ q) by (done || lia).
Qed.

Lemma set_direction_run P' A' q' d : (d = HM2_PIN_DIR_IS_INPUT \/ d = HM2_PIN_DIR_IS_OUTPUT) -> P' !! Z.to_nat i = Some q' ->
  hm2_set_pin_direction i d (conf h P' A', x) = (Ok tt, (conf h (<[Z.to_nat i := {| q' with direction := d |}]> P') A', x)).
Proof.
  intros Hd HP'. pose proof index_ok as Hi. unfold hm2_set_pin_direction. rewrite (run_bind state _ _ _ _ eq_refl). cbn [fst]. rewrite valid by done. cbn [negb].
  destruct Hd as [-> | ->]; cbn [negb andb Z.eqb HM2_PIN_DIR_IS_INPUT HM2_PIN_DIR_IS_OUTPUT Pos.eqb]; by rewrite (set_pin_conf h P' A' i _ q') by (done || lia).
Qed.

Lemma free_pin_run : (hm2_set_pin_source i HM2_PIN_SOURCE_IS_PRIMARY ≫= fun _ => hm2_set_pin_direction i HM2_PIN_DIR_IS_INPUT) (conf h P A, x) =
  (Ok tt, (conf h (<[Z.to_nat i := assign false q]> P) (stored false port k A), x)).
Proof.
  rewrite (run_bind _ _ _ _ _ (set_source_run false)). rewrite (set_direction_run _ _ (retag false q)); [| by left | apply list_lookup_insert_eq; by eapply lookup_lt_Some].
  by rewrite list_insert_insert_eq.
Qed.

Lemma take_pin_run p b : q = assign b p -> take_pin i (conf h P A, x) = (Ok tt, (conf h (<[Z.to_nat i := assign true p]> P) (stored true port k A), x)).
Proof.
  intros Hq. pose proof index_ok as Hi. unfold take_pin. rewrite (run_bind _ _ _ _ _ (set_source_run true)).
  set (q1 := retag true q). assert (<[Z.to_nat i := q1]> P !! Z.to_nat i = Some q1) as Hq1 by (apply list_lookup_insert_eq; by eapply lookup_lt_Some).
  rewrite (run_bind _ _ _ q1 (conf h (<[Z.to_nat i := q1]> P) (stored true port k A), x)) by (apply get_pin_run; [lia | done]).
  assert (sec_pin q1 = sec_pin p) as E by (unfold q1; by rewrite Hq). rewrite E. destruct (Z.testbit (sec_pin p) 7) eqn:Eb.
  - rewrite (set_direction_run _ _ q1); [| by right | done]. rewrite list_insert_insert_eq. unfold q1, retag. rewrite Hq. unfold assign. by rewrite Eb.
  - unfold q1, retag. rewrite Hq. unfold assign. by rewrite Eb, !andb_false_r.
Qed.
End Pin.

(** The pins have their owners, and the sources are set accordingly. *)
Record assigned (h : hostmot2_t) (taken : Z -> hm2_pin_t -> bool) (P : list hm2_pin_t) (A : list Z) : Prop := {
  as_length : length P = length (pin h);
  as_alt : length_is (num_instances (ioport h)) A;
  as_pins : forall port k p, 0 <= port < num_instances (ioport h) -> 0 <= k < port_width (idrom h) -> pin h !! Z.to_nat (port * port_width (idrom h) + k) = Some p ->
    P !! Z.to_nat (port * port_width (idrom h) + k) = Some (assign (taken (port * port_width (idrom h) + k) p) p) /\
    rbit A port k = taken (port * port_width (idrom h) + k) p;
}.

Lemma assigned_ext h f g P A : assigned h f P A -> (forall i p, 0 <= i < num_pins h -> g i p = f i p) -> ready h -> assigned h g P A.
Proof.
  intros [H1 H2 H3] Hfg Hrd. split; [done | done |]. intros port k p Hp Hk Hpin. rewrite Hfg by (rewrite (rd_num h Hrd); by apply number_lt). by apply H3.
Qed.

Lemma assigned_take h f P A port k p : ready h -> assigned h f P A -> 0 <= port < num_instances (ioport h) -> 0 <= k < port_width (idrom h) ->
  let i := port * port_width (idrom h) + k in pin h !! Z.to_nat i = Some p ->
  assigned h (fun j q => f j q || (j =? i)) (<[Z.to_nat i := assign true p]> P) (stored true port k A).
Proof.
  intros Hrd [H1 H2 H3] Hp Hk i Hpin. split; [by rewrite length_insert | by apply stored_length |]. intros port' k' q Hp' Hk' Hq.
  destruct (H3 port' k' q Hp' Hk' Hq) as [HP HA]. unfold stored. rewrite (put_bits h) by (apply Hrd || done || lia). fold i.
  pose proof (number_lt _ _ _ _ Hp Hk) as [Hi _]. pose proof (number_lt _ _ _ _ Hp' Hk') as [Hi' _]. fold i in Hi.
  destruct (Z.eqb_spec (port' * port_width (idrom h) + k') i) as [E | Hne].
  - rewrite E, orb_true_r in *. rewrite Hpin in Hq. injection Hq as <-. split; [| done]. apply list_lookup_insert_eq. rewrite H1. by eapply lookup_lt_Some.
  - rewrite orb_false_r. split; [| done]. by rewrite list_lookup_insert_ne by lia.
Qed.

Lemma index_split h i : 0 < port_width (idrom h) -> 0 <= i < num_instances (ioport h) * port_width (idrom h) ->
  exists port k, i = port * port_width (idrom h) + k /\ 0 <= port < num_instances (ioport h) /\ 0 <= k < port_width (idrom h).
Proof.
  intros Hw Hi. exists (i / port_width (idrom h)), (i mod port_width (idrom h)). split; [pose proof (Z.div_mod i (port_width (idrom h))); lia |].
  split; [split; [apply Z.div_pos; lia | apply Z.div_lt_upper_bound; lia] | apply Z.mod_pos_bound; lia].
Qed.

Lemma allocate_if_run wanted h f P A (x : hw) : ready h -> (forall b p, wanted (assign b p) = wanted p) -> assigned h f P A ->
  exists P' A', allocate_if wanted (conf h P A, x) = (Ok tt, (conf h P' A', x)) /\ assigned h (fun i p => f i p || wanted p) P' A'.
Proof.
  intros Hrd Hwant Has. pose proof Hrd as [Hn Hw Hnum Hpins _ _]. unfold allocate_if. rewrite (run_bind state _ _ _ _ eq_refl). cbn [fst num_pins conf].
  destruct (for_spec (fun c s => exists P' A', s = (conf h P' A', x) /\ assigned h (fun i p => f i p || (wanted p && (i <? c))) P' A') (num_pins h)
    (fun i => p ← get_pin i; if wanted p then take_pin i else mret tt) (conf h P A, x)) as (s & E & P' & A' & -> & Has').
  - nia.
  - intros i s Hi (P1 & A1 & -> & H1). rewrite Hnum in Hi. destruct (index_split h i) as (port & k & -> & Hp & Hk); [lia | done |]. set (i := port * port_width (idrom h) + k) in *.
    destruct (lookup_lt_is_Some_2 (pin h) (Z.to_nat i)) as [p Hpp]; [lia |]. destruct (as_pins _ _ _ _ H1 port k p Hp Hk Hpp) as [HP1 _]. fold i in HP1. rewrite Z.ltb_irrefl, andb_false_r, orb_false_r in HP1.
    destruct (place h port k p Hrd Hp Hk Hpp) as [Hpl1 Hpl2]. rewrite (run_bind _ _ _ _ _ (get_pin_run i _ (conf h P1 A1, x) (proj1 Hi) HP1)). rewrite Hwant. destruct (wanted p) eqn:Ew.
    + pose proof (take_pin_run h P1 A1 port k (assign (f i p) p) x Hrd Hp Hk (as_alt _ _ _ _ H1) HP1 (conj Hpl1 Hpl2) p (f i p) eq_refl) as Et. fold i in Et. rewrite Et. eexists. split; [reflexivity |].
      eexists _, _. split; [reflexivity |]. pose proof (assigned_take h _ P1 A1 port k p Hrd H1 Hp Hk Hpp) as H2. cbv zeta in H2. fold i in H2. split; [apply H2 | apply H2 |].
      intros port' k' q Hp' Hk' Hq. destruct (as_pins _ _ _ _ H2 port' k' q Hp' Hk' Hq) as [B1 B2]. set (j := port' * port_width (idrom h) + k') in *.
      assert (f j q || wanted q && (j <? i + 1) = f j q || wanted q && (j <? i) || (j =? i)) as ->; [| done].
      destruct (Z.eqb_spec j i) as [E | Hne].
      * rewrite E, Hpp in Hq. injection Hq as <-. rewrite Ew, E, (proj2 (Z.ltb_lt i (i + 1))) by lia. cbn. by rewrite !orb_true_r.
      * rewrite orb_false_r. do 2 f_equal. destruct (Z.ltb_spec j i), (Z.ltb_spec j (i + 1)); (done || lia).
    + exists (conf h P1 A1, x). split; [done |]. exists P1, A1. split; [done |]. split; [apply H1 | apply H1 |]. intros port' k' q Hp' Hk' Hq. destruct (as_pins _ _ _ _ H1 port' k' q Hp' Hk' Hq) as [B1 B2].
      set (j := port' * port_width (idrom h) + k') in *. assert (f j q || wanted q && (j <? i + 1) = f j q || wanted q && (j <? i)) as ->; [| done]. f_equal.
      destruct (Z.eqb_spec j i) as [E | Hne]; [rewrite E, Hpp in Hq; injection Hq as <-; by rewrite Ew | f_equal; destruct (Z.ltb_spec j i), (Z.ltb_spec j (i + 1)); (done || lia)].
  - exists P, A. split; [done |]. eapply assigned_ext; [exact Has | | done]. intros i p Hi. cbn. rewrite (proj2 (Z.ltb_ge i 0)) by lia. by rewrite andb_false_r, orb_false_r.
  - exists P', A'. split; [exact E |]. eapply assigned_ext; [exact Has' | | done]. intros i p Hi. cbn. rewrite (proj2 (Z.ltb_lt i _)) by lia. by rewrite andb_true_r.
Qed.

Lemma allocate_all_run l h f P A (x : hw) : ready h -> assigned h f P A ->
  exists P' A', allocate_all l (conf h P A, x) = (Ok tt, (conf h P' A', x)) /\ assigned h (fun i p => f i p || existsb (fun '(tag, n) => of_module tag n p) l) P' A'.
Proof.
  intros Hrd. revert f P A. induction l as [| [tag n] l IH]; intros f P A Has; cbn [allocate_all existsb].
  - exists P, A. split; [done |]. eapply assigned_ext; [exact Has | | done]. intros i p _. cbn. by rewrite orb_false_r.
  - destruct (allocate_if_run (of_module tag n) h f P A x Hrd ltac:(done) Has) as (P1 & A1 & E1 & H1). unfold hm2_pins_allocate_all. rewrite (run_bind _ _ _ _ _ E1).
    destruct (IH _ P1 A1 H1) as (P2 & A2 & E2 & H2). exists P2, A2. split; [done |]. eapply assigned_ext; [exact H2 | | done]. intros i p _. cbn. by rewrite orb_assoc.
Qed.

(** Does a module take the pin? *)
Definition taken (e : enabled) (p : hm2_pin_t) : bool :=
  of_stepgen (stepgens e) (stepgen_width e) p || existsb (fun '(tag, n) => of_module tag n p) (takers e).

Lemma configure_run e h (x : hw) : ready h ->
  exists P A, hm2_configure_pins e (h, x) = (Ok tt, (conf h P A, x)) /\ assigned h (fun _ => taken e) P A.
Proof.
  intros Hrd. pose proof Hrd as [Hn Hw Hnum Hpins Halt _]. unfold hm2_configure_pins. rewrite (run_bind state _ _ _ _ eq_refl). cbn [fst].
  assert (conf h (pin h) (alt_source_reg (ioport h)) = h) as Eh by by destruct h as [? ? ? ? ? ? ? []].
  destruct (for_spec (fun c s => exists P A, s = (conf h P A, x) /\ length P = length (pin h) /\ length_is (num_instances (ioport h)) A /\
      (forall port k p, 0 <= port < num_instances (ioport h) -> 0 <= k < port_width (idrom h) -> pin h !! Z.to_nat (port * port_width (idrom h) + k) = Some p ->
        let i := port * port_width (idrom h) + k in P !! Z.to_nat i = Some (if i <? c then assign false p else p) /\ (i < c -> rbit A port k = false))) (num_pins h)
    (fun i => hm2_set_pin_source i HM2_PIN_SOURCE_IS_PRIMARY ≫= fun _ => hm2_set_pin_direction i HM2_PIN_DIR_IS_INPUT) (h, x)) as (s & E & P & A & -> & HP & HA & Hpa).
  - nia.
  - intros i s Hi (P & A & -> & HP & HA & Hpa). rewrite Hnum in Hi. destruct (index_split h i) as (port & k & -> & Hp & Hk); [lia | done |]. set (i := port * port_width (idrom h) + k) in *.
    destruct (lookup_lt_is_Some_2 (pin h) (Z.to_nat i)) as [p Hpp]; [lia |]. destruct (Hpa port k p Hp Hk Hpp) as [HP1 _]. fold i in HP1. rewrite Z.ltb_irrefl in HP1.
    pose proof (free_pin_run h P A port k p x Hrd Hp Hk HA HP1 (place h port k p Hrd Hp Hk Hpp)) as Et. fold i in Et. rewrite Et. eexists. split; [reflexivity |]. eexists _, _. split; [reflexivity |].
    split; [by rewrite length_insert |]. split; [by apply stored_length |]. intros port' k' q Hp' Hk' Hq j. destruct (Hpa port' k' q Hp' Hk' Hq) as [B1 B2]. fold j in B1, B2.
    unfold stored. rewrite (put_bits h) by (done || lia). fold i j. pose proof (number_lt _ _ _ _ Hp' Hk') as [Hj _]. fold j in Hj. fold i. destruct (Z.eqb_spec j i) as [E | Hne].
    + split; [| done]. unfold j in E. rewrite E, Hpp in Hq. injection Hq as <-. fold j in E. rewrite E. rewrite (proj2 (Z.ltb_lt i (i + 1))) by lia. apply list_lookup_insert_eq. rewrite HP. by eapply lookup_lt_Some.
    + split; [| intros; apply B2; lia]. rewrite list_lookup_insert_ne by lia. rewrite B1. replace (j <? i + 1) with (j <? i); [done |]. destruct (Z.ltb_spec j i), (Z.ltb_spec j (i + 1)); (done || lia).
  - exists (pin h), (alt_source_reg (ioport h)). rewrite Eh. split; [done |]. split; [done |]. split; [done |]. intros port k p Hp Hk Hpp i. pose proof (number_lt _ _ _ _ Hp Hk) as [Hi _]. fold i in Hi.
    rewrite (proj2 (Z.ltb_ge i 0)) by lia. split; [done | lia].
  - rewrite (run_bind _ _ _ _ _ E). assert (assigned h (fun _ _ => false) P A) as H0.
    { split; [done | done |]. intros port k p Hp Hk Hpp. destruct (Hpa port k p Hp Hk Hpp) as [B1 B2]. pose proof (number_lt _ _ _ _ Hp Hk) as Hi. rewrite (proj2 (Z.ltb_lt _ _)) in B1 by lia. split; [done | apply B2; lia]. }
    destruct (allocate_if_run (of_stepgen (stepgens e) (stepgen_width e)) h _ P A x Hrd ltac:(done) H0) as (P1 & A1 & E1 & H1). unfold hm2_stepgen_allocate_pins. rewrite (run_bind _ _ _ _ _ E1).
    destruct (allocate_all_run (takers e) h _ P1 A1 x Hrd H1) as (P2 & A2 & E2 & H2). exists P2, A2. split; [done |]. eapply assigned_ext; [exact H2 | | done]. intros i p _. done.
Qed.

(** ** The HAL pins *)

Definition exported (p : hm2_pin_t) : hm2_pin_t := {| p with instance := Some (gpio_of (pin_names p)) |}.

Lemma made_all i names : length (made_pins i names) = length names -> made_pins i names = names.
Proof.
  induction names as [| name names IH]; cbn [made_pins]; [done |]. destruct (hal_pin_bit_newf name i); [| done]. cbn [length]. intros [= Hl]. by rewrite IH.
Qed.

Lemma export_pins_ok n i h P (x : hw) s : 0 <= i -> export_pins n i (pins h P, x) = (Ok 0, s) ->
  exists P', s = (pins h P', x) /\ length P' = length P /\ forall j p, P !! j = Some p ->
    P' !! j = Some (if (Z.to_nat i <=? j)%nat && (j <? Z.to_nat i + n)%nat then exported p else p).
Proof.
  revert i P. induction n as [| n IH]; intros i P Hi; cbn [export_pins].
  - intros [= <-]. exists P. do 2 (split; [done |]). intros j p Hp. destruct (Nat.leb_spec (Z.to_nat i) j), (Nat.ltb_spec j (Z.to_nat i + 0)); (done || lia).
  - intros (r & s1 & E1 & E)%bind_ok. destruct (r =? 0) eqn:Er; [| injection E as -> ->; done]. zb. subst r.
    unfold export_pin in E1. apply bind_ok in E1 as (p & s2 & E2 & E1).
    assert (P !! Z.to_nat i = Some p /\ s2 = (pins h P, x)) as [Hp ->].
    { unfold get_pin, at_ in E2. revert E2. run. cbn [pin pins]. rewrite (proj2 (Z.leb_le 0 i)) by done. destruct (P !! Z.to_nat i); [by intros [= -> <-] | done]. }
    pose proof (lookup_lt_Some _ _ _ Hp) as Hl. destruct (hal_malloc i); cbn [negb] in E1.
    2:{ rewrite (run_bind _ _ _ _ _ (set_pin_pins i _ p h P x Hi Hp)) in E1. done. }
    cbv zeta in E1. rewrite (run_bind _ _ _ _ _ (set_pin_pins i _ p h P x Hi Hp)) in E1. destruct (length (made_pins i (pin_names p)) =? length (pin_names p))%nat eqn:El; [| done].
    apply Nat.eqb_eq, made_all in El. rewrite El in E1. injection E1 as <-.
    destruct (IH (i + 1) _ ltac:(lia) E) as (P' & -> & HP' & Hj). exists P'. split; [done |]. rewrite length_insert in HP'. split; [done |]. intros j q Hq.
    destruct (decide (j = Z.to_nat i)) as [-> | Hne].
    + rewrite Hp in Hq. injection Hq as <-. rewrite (Hj _ (exported p)) by by apply list_lookup_insert_eq.
      rewrite (proj2 (Nat.leb_gt (Z.to_nat (i + 1)) _)), (proj2 (Nat.leb_le (Z.to_nat i) _)), (proj2 (Nat.ltb_lt _ (Z.to_nat i + S n))) by lia. done.
    + rewrite (Hj j q) by by rewrite list_lookup_insert_ne. do 2 f_equal.
      destruct (Nat.leb_spec (Z.to_nat (i + 1)) j), (Nat.leb_spec (Z.to_nat i) j), (Nat.ltb_spec j (Z.to_nat (i + 1) + n)), (Nat.ltb_spec j (Z.to_nat i + S n)); (done || lia).
Qed.

Lemma exported_ok p : pin_ok (exported p).
Proof.
  unfold pin_ok, exported, is_gpio, pin_names. cbn [instance gtag direction]. eexists. split; [reflexivity |].
  destruct (gtag p =? HM2_GTAG_IOPORT), (direction p =? HM2_PIN_DIR_IS_OUTPUT); vm_compute; repeat split; intros; try done; by eexists.
Qed.

(** No module takes pins as ports. *)
Lemma taken_tag e p : taken e p = true -> sec_tag p <> HM2_GTAG_IOPORT.
Proof. intros Ht E. unfold taken, of_stepgen, of_module, takers in Ht. cbn [existsb] in Ht. rewrite E in Ht. cbn in Ht. done. Qed.

Lemma tram_init_run h B (x : hw) : 0 <= num_instances (ioport h) -> length_is (num_instances (ioport h)) B ->
  exists B', hm2_ioport_gpio_tram_write_init (data h B, x) = (Ok tt, (data h B', x)) /\ length_is (num_instances (ioport h)) B'.
Proof.
  intros Hn HB. unfold hm2_ioport_gpio_tram_write_init. rewrite (run_bind state _ _ _ _ eq_refl). cbn [fst].
  destruct (for_spec (fun _ s => exists B', s = (data h B', x) /\ length_is (num_instances (ioport h)) B') (num_instances (ioport (data h B)))
    (fun port => h ← state; _ ← at_ (data_write_reg (ioport h)) port; set_ioport (fun io => {| io with data_write_reg := <[Z.to_nat port := 0]> (data_write_reg io) |})) (data h B, x)) as (s & E & B' & -> & HB').
  - done.
  - intros port s Hp (B1 & -> & HB1). change (num_instances (ioport (data h B))) with (num_instances (ioport h)) in Hp. unfold length_is in *. rewrite (run_bind state _ _ _ _ eq_refl). cbn [fst].
    destruct (lookup_lt_is_Some_2 B1 (Z.to_nat port)) as [v Hv]; [lia |]. rewrite (run_bind _ _ _ v (data h B1, x)) by (apply at_run; [lia | done]).
    exists (data h (<[Z.to_nat port := 0]> B1), x). split; [done |]. eexists. split; [done |]. by rewrite length_insert.
  - by exists B.
  - by exists B'.
Qed.

(** ** The start *)

Context (word : hw -> Z -> Z) `{PS : !PinBoardSpec word}.
Context (fresh : Z -> list hm2_pin_t) (md : hm2_module_descriptor_t) (reg_read reg_write : Z) (buffers : list Z * list Z) (e : enabled) (h0 : hostmot2_t) (x0 : hw).
Context (fresh_length : forall n, 0 <= n -> Z.of_nat (length (fresh n)) = n).
Context (connector : 0 < pins_per_connector h0 <= 32) (instances : 0 < md_instances md < 256).
Context (stride : 4 * md_instances md <= md_register_stride md).
Context (buffers_length : length_is (md_instances md) (fst buffers) /\ length_is (md_instances md) (snd buffers)).

Lemma parse_ok h (x : hw) r s : hm2_ioport_parse_md md reg_read reg_write (h, x) = (Ok r, s) -> (r <? 0) = false ->
  exists io, s = ({| h with ioport := io |}, x) /\ num_instances io = md_instances md /\ io_ports (idrom h) = md_instances md /\
    (let reg k := md_base_address md + k * md_register_stride md in
     data_addr io = reg 0 /\ ddr_addr io = reg 1 /\ alt_source_addr io = reg 2 /\ open_drain_addr io = reg 3 /\ output_invert_addr io = reg 4) /\
    Forall (length_is (md_instances md)) [ddr_reg io; written_ddr io; alt_source_reg io; open_drain_reg io; written_open_drain io; output_invert_reg io; written_output_invert io].
Proof.
  unfold hm2_ioport_parse_md. run. destruct (hm2_md_is_consistent _ _ _ _ _); cbn [negb]; [| by intros [= <- _]]. destruct (_ =? 0); cbn [negb]; [| by intros [= <- _]].
  destruct (_ =? md_instances md) eqn:E1; cbn [negb]; [| by intros [= <- _]]. destruct (reg_read <? 0) eqn:E2; [intros [= <- _]; congruence |]. destruct (reg_write <? 0) eqn:E3; [intros [= <- _]; congruence |].
  destruct (forallb kmalloc _); cbn [negb]; [| by intros [= <- _]]. intros [= _ <-] _. zb. eexists. split; [reflexivity |]. cbn. split; [done |]. split; [done |]. split; [done |].
  repeat constructor; unfold length_is; rewrite length_replicate; lia.
Qed.

(** A pin that a module takes has its secondary function, and is an output if
    the descriptor says so; the others are inputs of the ports.  The card has
    the sources. *)
Definition allocated (h : hostmot2_t) (x : hw) : Prop :=
  forall port k, 0 <= port < num_instances (ioport h) -> 0 <= k < port_width (idrom h) ->
    exists p, pin h !! Z.to_nat (port * port_width (idrom h) + k) = Some p /\
      gtag p = (if taken e p then sec_tag p else HM2_GTAG_IOPORT) /\
      direction p = (if taken e p && Z.testbit (sec_pin p) 7 then HM2_PIN_DIR_IS_OUTPUT else HM2_PIN_DIR_IS_INPUT) /\
      card_bit word x (alt_source_addr (ioport h)) port k = taken e p.

Lemma change_run f (s : T) : change f s = (Ok tt, (f (fst s), snd s)).
Proof. done. Qed.

(** Before the pins are handed out. *)
Lemma start_ready h1 (x1 : hw) : start fresh md reg_read reg_write buffers e (h0, x0) = (Ok 0, (h1, x1)) ->
  exists h x, ready h /\ spaced h /\ Forall (fun reg => length_is (num_instances (ioport h)) (reg (ioport h)))
      [data_read_reg; data_write_reg; ddr_reg; written_ddr; alt_source_reg; open_drain_reg; written_open_drain; output_invert_reg; written_output_invert] /\
    (hm2_configure_pins e ≫= fun _ => r ← hm2_ioport_gpio_export_hal;
      if negb (r =? 0) then mret r else hm2_ioport_force_write ≫= fun _ => hm2_ioport_gpio_tram_write_init ≫= fun _ => mret 0) (h, x) = (Ok 0, (h1, x1)).
Proof.
  unfold start. intros (r1 & s1 & E1 & E)%bind_ok. destruct (r1 =? 0) eqn:Er1; cbn [negb] in E; [| injection E as ->; done]. zb. subst r1.
  apply check_idrom_ok in E1 as (-> & Hw & Hio & Hports). apply bind_ok in E as (r2 & s2 & E2 & E). destruct (r2 =? 0) eqn:Er2; cbn [negb] in E; [| injection E as ->; done]. zb. subst r2.
  unfold hm2_read_pin_descriptors in E2. revert E2. rewrite (run_bind _ _ _ _ _ (change_run _ _)). destruct (kmalloc 0); cbn [negb]; [| done]. rewrite (run_bind _ _ _ _ _ (change_run _ _)).
  rewrite (run_bind state _ _ _ _ eq_refl). cbn [fst snd num_pins idrom_offset idrom]. intros E2.
  set (hp := {| h0 with num_pins := io_width (idrom h0) |}) in *. apply (read_pin_descriptors_ok _ _ _ hp (fresh (io_width (idrom h0))) x0) in E2 as (P & x & -> & HP & _ & Hdesc); [| done].
  apply bind_ok in E as (r3 & s3 & E3 & E). destruct (r3 <? 0) eqn:Er3; [injection E as ->; done |].
  apply parse_ok in E3 as (io & -> & Hn & Hinst & Haddr & Hregs); [| done]. cbn in Hinst.
  unfold set_ioport at 1 in E. rewrite (run_bind _ _ _ _ _ (change_run _ _)) in E. cbn [fst snd] in E.
  assert (io_width (idrom h0) = md_instances md * port_width (idrom h0)) as Ewidth by (rewrite Hio, Hinst; apply wrapu_small; nia).
  match type of E with _ (?hh, _) = _ => exists hh, x end. split; [| split; [| split; [| exact E]]].
  - split; cbn.
    + lia.
    + lia.
    + rewrite Hn. exact Ewidth.
    + rewrite HP, fresh_length by nia. done.
    + rewrite Hn. rewrite !Forall_cons in Hregs. by destruct Hregs as (_ & _ & H & _).
    + intros i p Hp. apply (Hdesc i p); [| done]. apply lookup_lt_Some in Hp. rewrite HP in Hp. pose proof (fresh_length (io_width (idrom h0))). nia.
  - cbv zeta in Haddr. destruct Haddr as (A0 & A1 & A2 & A3 & A4). split; cbn; lia.
  - cbn. rewrite Hn. rewrite !Forall_cons in *. destruct Hregs as (? & ? & ? & ? & ? & ? & ? & _). destruct buffers_length. done.
Qed.

Lemma good_data h x B : good word h x -> length_is (num_instances (ioport h)) B -> good word (data h B) x.
Proof. intros [H1 H2 H3] HB. split; [by apply ports_ok_data | by destruct H2 | by destruct H3]. Qed.

Lemma taken_fields p q : sec_pin q = sec_pin p -> sec_tag q = sec_tag p -> sec_unit q = sec_unit p -> taken e q = taken e p.
Proof. intros E1 E2 E3. unfold taken, of_stepgen, of_module. by rewrite E1, E2, E3. Qed.

(** A pin that nobody has turned into an output stays as it was handed out. *)
Lemma turned_exported p : primary_tag p = HM2_GTAG_IOPORT -> let q := turned (exported (assign (taken e p) p)) in
  taken e q = taken e p /\ gtag q = (if taken e q then sec_tag q else HM2_GTAG_IOPORT) /\
  direction q = (if taken e q && Z.testbit (sec_pin q) 7 then HM2_PIN_DIR_IS_OUTPUT else HM2_PIN_DIR_IS_INPUT).
Proof.
  intros Hprim q. assert (sec_pin q = sec_pin p /\ sec_tag q = sec_tag p /\ sec_unit q = sec_unit p /\ gtag q = gtag (assign (taken e p) p)) as (E1 & E2 & E3 & E4) by (unfold q, turned; by destruct (is_gpio _)).
  pose proof (taken_fields p q E1 E2 E3) as Et. split; [done |]. rewrite Et, E4, E1, E2. unfold assign. cbn [gtag]. rewrite Hprim. split; [done |].
  unfold q, turned, is_gpio, outward. cbn [gtag exported assign]. rewrite Hprim. destruct (taken e p) eqn:Ep; cbn [andb].
  - pose proof (taken_tag e p Ep) as Hne. by rewrite (proj2 (Z.eqb_neq _ _) Hne).
  - unfold hal, exported, pin_names, assign. cbn. rewrite Hprim. by destruct (_ || _).
Qed.

Lemma start_good h1 (x1 : hw) : start fresh md reg_read reg_write buffers e (h0, x0) = (Ok 0, (h1, x1)) -> good word h1 x1 /\ allocated h1 x1.
Proof.
  intros (h & x & Hrd & Hsp & Hregs & E)%start_ready. destruct (configure_run e h x Hrd) as (P & A & E1 & Has). rewrite (run_bind _ _ _ _ _ E1) in E.
  pose proof Hrd as [Hn Hw Hnum Hpins Halt Hdesc]. destruct Has as [HP HA Hassign]. rewrite !Forall_cons in Hregs. destruct Hregs as (R1 & R2 & R3 & R4 & R5 & R6 & R7 & R8 & R9 & _).
  apply bind_ok in E as (r & s2 & E2 & E). destruct (r =? 0) eqn:Er; cbn [negb] in E; [| injection E as ->; done]. zb. subst r.
  unfold hm2_ioport_gpio_export_hal in E2. rewrite (run_bind state _ _ _ _ eq_refl) in E2. cbn [fst] in E2.
  apply (export_pins_ok _ _ (conf h P A) P x) in E2 as (P' & -> & HP' & Hexp); [| done]. cbn [num_pins conf] in Hexp.
  assert (forall j p, P !! j = Some p -> P' !! j = Some (exported p)) as Hexp'.
  { intros j p Hp. rewrite (Hexp j p Hp). pose proof (lookup_lt_Some _ _ _ Hp). rewrite (proj2 (Nat.leb_le _ _)), (proj2 (Nat.ltb_lt _ _)) by lia. done. }
  set (h3 := pins (conf h P A) P') in *. assert (ports_ok h3) as Hok3.
  { split; cbn; [lia | lia | rewrite HP', HP; lia | by repeat constructor |]. apply Forall_lookup. intros j q Hq. destruct (lookup_lt_is_Some_2 P j) as [p Hp]; [rewrite <- HP'; by eapply lookup_lt_Some |].
    rewrite (Hexp' j p Hp) in Hq. injection Hq as <-. apply exported_ok. }
  assert (spaced h3) as Hsp3 by by destruct Hsp. destruct (force_write_run word h3 x Hok3 Hsp3) as (D & O & V & x2 & E3 & Hg). rewrite (run_bind _ _ _ _ _ E3) in E.
  set (h4 := settled _) in *. rewrite <- (data_self h4) in E. destruct (tram_init_run h4 (data_write_reg (ioport h4)) x2) as (B & E4 & HB); [cbn; lia | done |].
  rewrite (run_bind _ _ _ _ _ E4) in E. injection E as <- <-. split; [by apply good_data |]. intros port k Hp Hk.
  change (num_instances (ioport (data h4 B))) with (num_instances (ioport h)) in Hp. change (port_width (idrom (data h4 B))) with (port_width (idrom h)) in *.
  pose proof (number_lt _ _ _ _ Hp Hk) as Hi. destruct (lookup_lt_is_Some_2 (pin h) (Z.to_nat (port * port_width (idrom h) + k))) as [p Hpp]; [lia |].
  destruct (Hassign port k p Hp Hk Hpp) as [HPi HAi]. destruct (Hdesc _ _ Hpp) as (_ & Hprim & _).
  destruct (turned_exported p Hprim) as (T1 & T2 & T3). eexists. split; [| split; [exact T2 | split; [exact T3 |]]].
  - change (pin (data h4 B)) with (turned <$> P'). rewrite list_lookup_fmap, (Hexp' _ _ HPi). done.
  - rewrite T1. rewrite <- HAi. unfold card_bit, rbit. destruct Hg as [_ _ Hsy]. f_equal. exact (sy_alt _ _ _ Hsy port Hp).
Qed.

(** C24: After the start every pin belongs to the module that takes it by its
    descriptor, with the direction of the descriptor, or is an input of its
    port; the source registers of the card agree.  Pins are numbered port by
    port. *)
Theorem pins_allocated h1 (x1 : hw) : start fresh md reg_read reg_write buffers e (h0, x0) = (Ok 0, (h1, x1)) -> allocated h1 x1.
Proof. intros H. by apply start_good. Qed.

(** C23: Whatever has happened since the start, the write funct does not fail,
    changes no HAL pin, and leaves the registers of the card as the HAL pins
    say: direction, open drain, inversion of outputs, and the data of the
    pins of the ports; although only registers that have changed are
    written. *)
Theorem outputs_follow evs s1 : start fresh md reg_read reg_write buffers e (h0, x0) = (Ok 0, s1) ->
  exists h x h' x', steps evs s1 = (Ok tt, (h, x)) /\ hm2_ioport_gpio_write (h, x) = (Ok tt, (h', x')) /\ map hal (pin h') = map hal (pin h) /\ follows word h' x'.
Proof.
  destruct s1 as [h1 x1]. intros [Hg _]%start_good. destruct (steps_good word evs h1 x1 Hg) as (h & x & E & Hg'). destruct (gpio_write_run word h x Hg') as (h' & x' & E' & _ & Hf & HP & _).
  exists h, x, h', x'. do 2 (split; [done |]). split; [| done]. rewrite HP. change (turned <$> pin h) with (map turned (pin h)). rewrite map_map. apply map_ext. intros p. apply turned_hal.
Qed.

(** The read funct does not fail: if the board gives the data, the HAL pins
    [in] and [in_not] of the input pins are the levels, and nothing else of
    the pins changes. *)
Theorem inputs_sampled evs s1 : start fresh md reg_read reg_write buffers e (h0, x0) = (Ok 0, s1) ->
  exists h x d h' x', steps evs s1 = (Ok tt, (h, x)) /\ hm2_ioport_gpio_read (h, x) = (Ok tt, (h', x')) /\
    (let '(ok, words, _) := llio_read (data_addr (ioport h)) (num_instances (ioport h)) x in ok = true -> d = words) /\
    forall port k p, 0 <= port < num_instances (ioport h) -> 0 <= k < port_width (idrom h) -> pin h !! Z.to_nat (port * port_width (idrom h) + k) = Some p ->
      pin h' !! Z.to_nat (port * port_width (idrom h) + k) = Some (if is_input p then leveled h d port k p else p).
Proof.
  destruct s1 as [h1 x1]. intros [Hg _]%start_good. destruct (steps_good word evs h1 x1 Hg) as (h & x & E & Hg'). destruct (gpio_read_run word h x Hg') as (d & P & x' & E' & _ & Hr & Hd).
  exists h, x, d, (pins (read_regs h d) P), x'. do 2 (split; [done |]). split; [by destruct (llio_read _ _ _) as [[ok words] ?] |].
  intros port k p Hp Hk Hpin. pose proof (ri_pins _ _ _ _ _ Hr port k p Hp Hk Hpin) as HP. cbn in HP. rewrite (proj2 (Z.ltb_lt _ _)), andb_true_r in HP by by apply number_lt. exact HP.
Qed.
End Start.

(** ** A card with one port of four pins *)

(** The memory of the card: words at their addresses. *)
#[local] Instance demo_board : PinBoard (Z -> Z) := {|
  llio_read a n x := (true, map (fun i => x (a + 4 * Z.of_nat i)) (seq 0 (Z.to_nat n)), x);
  llio_write a d x := fun b => if (a <=? b) && (b <? a + 4 * Z.of_nat (length d)) && ((b - a) mod 4 =? 0) then nth (Z.to_nat ((b - a) / 4)) d 0 else x b;
|}.
#[local] Instance demo_host : PinHost := {| kmalloc _ := true; hal_malloc _ := true; hal_pin_bit_newf _ _ := true |}.

#[local] Instance demo_spec : PinBoardSpec (fun x a => x a).
Proof.
  split; cbn.
  - intros x a d i Hi. rewrite (proj2 (Z.leb_le _ _)), (proj2 (Z.ltb_lt _ _)) by lia. replace (a + 4 * i - a) with (i * 4) by lia. rewrite Z.mod_mul, Z.div_mul by lia. done.
  - intros x a d b [Hb | Hb]; [by rewrite (proj2 (Z.leb_gt a b)) by lia | rewrite (proj2 (Z.ltb_ge b _)) by lia; by rewrite andb_false_r].
  - done.
  - intros x a n Hn _. rewrite length_map, length_seq. lia.
Qed.

(** A free pin, one of an encoder, an output of a PWM generator, one of an
    absolute encoder. *)
Definition demo_card (a : Z) : Z :=
  if a =? 0x500 then 0x03000000 else if a =? 0x504 then 0x03000401 else if a =? 0x508 then 0x03000681 else if a =? 0x50C then 0x03000801 else 0.
Definition demo_h0 : hostmot2_t :=
  {| idrom := Idrom 1 4 4 0x100; idrom_offset := 0x400; pins_per_connector := 4; num_ioport_connectors := 1; has_dmsg := false; num_pins := 0; pin := [];
     ioport := Ioport 0 0 0 0 0 0 0 0 [] [] [] [] [] [] [] [] [] |}.
Definition demo_md : hm2_module_descriptor_t := Md 3 0 33000000 1 0x1000 5 0x100 4 0x1F.
Definition demo_fresh (n : Z) : list hm2_pin_t := replicate (Z.to_nat n) (Pin 0 0 0 0 0 0 0 0 0 None).
Definition demo_enabled : enabled := Enabled 0 2 0 0 1 0 0 0 0 0 0 0 0.
Definition demo_start := start demo_fresh demo_md 0 0 ([0], [0]) demo_enabled (demo_h0, demo_card).

Lemma demo_started : start demo_fresh demo_md 0 0 ([0], [0]) demo_enabled (demo_h0, demo_card) = (Ok 0, snd demo_start).
Proof.
  unfold demo_start. assert (fst (start demo_fresh demo_md 0 0 ([0], [0]) demo_enabled (demo_h0, demo_card)) = Ok 0) as E by (vm_compute; reflexivity).
  destruct (start _ _ _ _ _ _ _) as [r s]. cbn in *. by rewrite E.
Qed.

Lemma demo_fresh_length n : 0 <= n -> Z.of_nat (length (demo_fresh n)) = n.
Proof. intros Hn. unfold demo_fresh. rewrite length_replicate. lia. Qed.

Lemma pins_allocated_witness : allocated (fun x a => x a) demo_enabled (fst (snd demo_start)) (snd (snd demo_start)).
Proof.
  pose proof demo_started as E. destruct (snd demo_start) as [h1 x1].
  apply (pins_allocated (fun x a => x a) demo_fresh demo_md 0 0 ([0], [0]) demo_enabled demo_h0 demo_card demo_fresh_length); [cbn; lia | cbn; lia | cbn; lia | by split | exact E].
Defined.

(** The free pin becomes an inverted output. *)
Definition demo_events : list event := [Hal 0 Is_output true; Hal 0 Out true; Write; Hal 0 Out false; Hal 0 Invert_output true; Read].

Lemma outputs_follow_witness : exists h x h' x', steps demo_events (snd demo_start) = (Ok tt, (h, x)) /\ hm2_ioport_gpio_write (h, x) = (Ok tt, (h', x')) /\
  map hal (pin h') = map hal (pin h) /\ follows (fun x a => x a) h' x'.
Proof.
  apply (outputs_follow (fun x a => x a) demo_fresh demo_md 0 0 ([0], [0]) demo_enabled demo_h0 demo_card demo_fresh_length); [cbn; lia | cbn; lia | cbn; lia | by split | exact demo_started].
Defined.

Lemma inputs_sampled_witness : exists h x d h' x', steps demo_events (snd demo_start) = (Ok tt, (h, x)) /\ hm2_ioport_gpio_read (h, x) = (Ok tt, (h', x')) /\
  (let '(ok, words, _) := llio_read (data_addr (ioport h)) (num_instances (ioport h)) x in ok = true -> d = words) /\
  forall port k p, 0 <= port < num_instances (ioport h) -> 0 <= k < port_width (idrom h) -> pin h !! Z.to_nat (port * port_width (idrom h) + k) = Some p ->
    pin h' !! Z.to_nat (port * port_width (idrom h) + k) = Some (if is_input p then leveled h d port k p else p).
Proof.
  apply (inputs_sampled (fun x a => x a) demo_fresh demo_md 0 0 ([0], [0]) demo_enabled demo_h0 demo_card demo_fresh_length); [cbn; lia | cbn; lia | cbn; lia | by split | exact demo_started].
Defined.

(** Pins of encoders that are not enabled stay free, but those of absolute
    encoders are always taken. *)
Example absolute_encoders_always_take : map gtag (pin (fst (snd demo_start))) = [3; 3; 6; 8].
Proof. vm_compute. reflexivity. Qed.

(** [read_gpio] leaves the pin [in] of an output alone, whatever its level;
    the read funct of the whole card sets it. *)
Example output_not_sampled :
  let run f := snd (f (snd (steps [Hal 0 Is_output true; Hal 0 Out true; Write] (snd demo_start)))) in
  (in_ ∘ hal <$> head (pin (fst (run hm2_ioport_gpio_read))), in_ ∘ hal <$> head (pin (fst (run (hm2_ioport_gpio_read ≫= fun _ => hm2_ioport_gpio_process_tram_read))))) =
  (Some (Some false), Some (Some true)).
Proof. vm_compute. reflexivity. Qed.
