(* ===== verification/Hm2Stepgen.v ===== *)
(** * Step generators of hostmot2 cards
      (modules/managed/drivers/hostmot2/hostmot2_core/src/stepgen.c)

    The card counts steps in an accumulator of 16.16 bits and steps at a rate
    that the driver writes; the driver extends the accumulator to a position,
    follows a position or a velocity within limits, and writes the timing
    registers that have changed.  A generator is one record: its HAL pins, the
    state of the driver and its registers. *)
From S2P Require Import Prelude Double.
From S2P Require Hm2Pins.

Module Hm2Stepgen.

Record stepgen := Stepgen {
  (* HAL pins *)
  position_cmd : double;
  velocity_cmd : double;
  counts : Z;
  position_fb : double;
  velocity_fb : double;
  enable : bool;
  control_type : bool;          (* false: position, true: velocity *)
  dbg_ff_vel : double;
  dbg_vel_error : double;
  dbg_s_to_match : double;
  dbg_err_at_match : double;
  dbg_step_rate : Z;
  dbg_pos_minus_prev_cmd : double;
  position_scale : double;
  maxvel : double;
  maxaccel : double;
  steplen : Z;
  stepspace : Z;
  dirsetup : Z;
  dirhold : Z;
  step_type : Z;
  table : list Z;               (* four pins, or none: the pointers are not set *)
  (* of the driver *)
  table_hash : Z;
  old_position_cmd : double;
  prev_accumulator : Z;
  subcounts : Z;                (* 48.16 bits *)
  written_steplen : Z;
  written_stepspace : Z;
  written_dirsetup : Z;
  written_dirhold : Z;
  written_step_type : Z;
  table_width : Z;
  (* registers *)
  accumulator_reg : Z;
  step_rate_reg : Z;
  mode_reg : Z;
  dir_setup_time_reg : Z;
  dir_hold_time_reg : Z;
  pulse_width_reg : Z;
  pulse_idle_width_reg : Z;
}.

(** Of the module: the clock, and where the registers of all generators are. *)
Record module_t := Module_ {
  clock_frequency : Z;
  dir_setup_time_addr : Z;
  dir_hold_time_addr : Z;
  pulse_width_addr : Z;
  pulse_idle_width_addr : Z;
  mode_addr : Z;
  table_sequence_data_setup_addr : Z;
  table_sequence_length_addr : Z;
  master_dds_addr : Z;
  dpll_timer_num_addr : Z;
  dpll_module_present : bool;
  dpll_timer_num : Z;           (* a HAL pin *)
  written_dpll_timer_num : Z;
}.

(** Writes to the card, in their order: addresses and words. *)
Abbreviation writes := (list (Z * list Z)).

Definition INT32_MAX : Z := 2147483647.
Definition INT32_MIN : Z := - 2147483647 - 1.
Definition UINT32_MAX : Z := 4294967295.

Definition d1e_6 : double := float_of_bits 0x3eb0c6f7a0b5ed8d.     (* 1e-6 *)
Definition d1e9 : double := dbl_of_Z 1000000000.
Definition f_period_s (l_period_ns : Z) : double := dmul (dbl_of_Z l_period_ns) d1e_9.

(** ** Position feedback *)

Definition reset_scale (s : stepgen) : stepgen :=
  if dlt (dabs (position_scale s)) d1e_6 then
    {| s with position_scale := if dle d0 (position_scale s) then d1 else dneg d1 |}
  else s.

(** The difference of two values of the accumulator, as the code takes it. *)
Definition acc_delta (acc prev : Z) : Z :=
  let d := acc - prev in
  if INT32_MAX <? d then d - UINT32_MAX else if d <? INT32_MIN then d + UINT32_MAX else d.

Definition process_instance (s : stepgen) : stepgen :=
  let s := reset_scale s in
  let acc := accumulator_reg s in
  let sub := s64 (subcounts s + acc_delta acc (prev_accumulator s)) in
  {| s with subcounts := sub; counts := s32 (Z.shiftr sub 16);
            position_fb := ddiv (ddiv (dbl_of_Z sub) (dbl_of_Z 65536)) (position_scale s); prev_accumulator := acc |}.

Definition hm2_stepgen_process_tram_read : list stepgen -> list stepgen := map process_instance.

(** ** The command *)

Definition match_accel_of (velocity_error T maxaccel : double) : double :=
  if dlt d0 velocity_error then if deq maxaccel d0 then ddiv (dneg velocity_error) T else dneg maxaccel
  else if dlt velocity_error d0 then if deq maxaccel d0 then ddiv velocity_error T else maxaccel
  else d0.

(** Within the acceleration limit of one period. *)
Definition limit_accel (v T : double) (s : stepgen) : double :=
  if dlt d0 (maxaccel s) then
    let dv := dmul (maxaccel s) T in
    if dlt (dadd (velocity_fb s) dv) v then dadd (velocity_fb s) dv
    else if dlt v (dsub (velocity_fb s) dv) then dsub (velocity_fb s) dv
    else v
  else v.

(** The new velocity. *)
Definition hm2_stepgen_instance_position_control (l_period_ns : Z) (s : stepgen) : double * stepgen :=
  let T := f_period_s l_period_ns in
  let s := {| s with dbg_pos_minus_prev_cmd := dsub (position_fb s) (old_position_cmd s) |} in
  let ff_vel := ddiv (dsub (position_cmd s) (old_position_cmd s)) T in
  let velocity_error := dsub (velocity_fb s) ff_vel in
  let match_accel := match_accel_of velocity_error T (maxaccel s) in
  let seconds := if deq match_accel d0 then d0 else ddiv (dneg velocity_error) match_accel in
  let avg_v := dmul (dadd ff_vel (velocity_fb s)) d_half in
  let position_at_match := dadd (position_fb s) (dmul avg_v (dadd seconds T)) in
  let position_cmd_at_match := dadd (position_cmd s) (dmul ff_vel seconds) in
  let error_at_match := dsub position_at_match position_cmd_at_match in
  let s := {| s with dbg_ff_vel := ff_vel; old_position_cmd := position_cmd s; dbg_vel_error := velocity_error;
                     dbg_s_to_match := seconds; dbg_err_at_match := error_at_match |} in
  if dlt seconds T then
    (limit_accel (dsub ff_vel (ddiv (dmul d_half error_at_match) T)) T s, s)
  else
    let dv := dmul (dmul (dneg (dbl_of_Z 2)) match_accel) T in
    let dp := dmul dv seconds in
    let match_accel := if dlt (dabs (dadd error_at_match (dmul dp (dbl_of_Z 2)))) (dabs error_at_match) then dneg match_accel else match_accel in
    (dadd (velocity_fb s) (dmul match_accel T), s).

Definition velocity_control (l_period_ns : Z) (s : stepgen) : double :=
  let T := f_period_s l_period_ns in
  let new_vel := velocity_cmd s in
  if dlt d0 (maxaccel s) then
    let a := ddiv (dsub new_vel (velocity_fb s)) T in
    if dlt (maxaccel s) a then dadd (velocity_fb s) (dmul (maxaccel s) T)
    else if dlt a (dneg (maxaccel s)) then dsub (velocity_fb s) (dmul (maxaccel s) T)
    else new_vel
  else new_vel.

(** The greatest velocity of the step timing. *)
Definition physical_maxvel (s : stepgen) : double :=
  ddiv (ddiv d1e9 (dbl_of_Z (u32 (steplen s + stepspace s)))) (dabs (position_scale s)).

(** The parameters are put right; the velocity limit of this period. *)
Definition check_limits (s : stepgen) : double * stepgen :=
  let mv := maxvel s in
  let mv := if dlt mv d0 then dabs mv else mv in
  let mv := if dlt (physical_maxvel s) mv then physical_maxvel s else mv in
  (if deq mv d0 then physical_maxvel s else mv,
   {| s with maxvel := mv; maxaccel := if dlt (maxaccel s) d0 then dabs (maxaccel s) else maxaccel s |}).

(** [None]: the rate is no number of the register's type. *)
Definition hm2_stepgen_instance_prepare_tram_write (md : module_t) (l_period_ns : Z) (s : stepgen) : option stepgen :=
  let '(limit, s) := check_limits s in
  let '(new_vel, s) := if control_type s then (velocity_control l_period_ns s, s) else hm2_stepgen_instance_position_control l_period_ns s in
  let new_vel := dclamp new_vel (dneg limit) limit in
  let steps_per_sec_cmd := dmul new_vel (position_scale s) in
  rate ← dbl_to_sint 32 (dmul steps_per_sec_cmd (ddiv (dbl_of_Z 4294967296) (dbl_of_Z (clock_frequency md))));
  Some {| s with velocity_fb := new_vel; step_rate_reg := u32 rate; dbg_step_rate := s32 (u32 rate) |}.

Definition prepare_instance (md : module_t) (l_period_ns : Z) (s : stepgen) : option stepgen :=
  if negb (enable s) then Some {| s with step_rate_reg := 0; old_position_cmd := position_cmd s; velocity_fb := d0 |}
  else hm2_stepgen_instance_prepare_tram_write md l_period_ns s.

Definition hm2_stepgen_prepare_tram_write (md : module_t) (l_period_ns : Z) (l : list stepgen) : option (list stepgen) :=
  mapM (prepare_instance md l_period_ns) l.

(** At the start the position is zero where the accumulator is. *)
Definition hm2_stepgen_tram_init : list stepgen -> list stepgen :=
  map (fun s => {| s with prev_accumulator := accumulator_reg s; old_position_cmd := position_cmd s |}).

(** ** Timing registers *)

Definition dbl_to_u32 (d : double) : option Z :=
  z ← dbl_to_sint 33 d; if 0 <=? z then Some z else None.

(** A time in nanoseconds as clock periods of 14 bits; the pin is set to the
    longest if it does not fit. *)
Definition time_reg (md : module_t) (ns : Z) : option (Z * Z) :=
  reg ← dbl_to_u32 (dmul (dbl_of_Z ns) (ddiv (dbl_of_Z (clock_frequency md)) d1e9));
  if 0x3FFF <? reg then
    ns ← dbl_to_u32 (dmul (dbl_of_Z 0x3FFF) (ddiv d1e9 (dbl_of_Z (clock_frequency md)))); Some (0x3FFF, ns)
  else Some (reg, ns).

Definition hm2_stepgen_update_dir_setup_time (md : module_t) (s : stepgen) : option stepgen :=
  '(reg, ns) ← time_reg md (dirsetup s); Some {| s with dir_setup_time_reg := reg; dirsetup := ns; written_dirsetup := ns |}.
Definition hm2_stepgen_update_dir_hold_time (md : module_t) (s : stepgen) : option stepgen :=
  '(reg, ns) ← time_reg md (dirhold s); Some {| s with dir_hold_time_reg := reg; dirhold := ns; written_dirhold := ns |}.
Definition hm2_stepgen_update_pulse_idle_width (md : module_t) (s : stepgen) : option stepgen :=
  '(reg, ns) ← time_reg md (stepspace s); Some {| s with pulse_idle_width_reg := reg; stepspace := ns; written_stepspace := ns |}.
Definition hm2_stepgen_update_pulse_width (md : module_t) (s : stepgen) : option stepgen :=
  '(reg, ns) ← time_reg md (steplen s); Some {| s with pulse_width_reg := reg; steplen := ns; written_steplen := ns |}.

(** The entries of the table from [j] down to 0; there are four pins. *)
Fixpoint table_writes (addr : Z) (tbl : list Z) (j : nat) : option writes :=
  match j with
  | O => Some []
  | S j =>
      w ← tbl !! (j / 4)%nat;
      l ← table_writes addr tbl j;
      Some ((addr, [Z.land (Z.shiftr w (Z.of_nat (j mod 4) * 8)) 0xFF]) :: l)
  end.

(** [None]: there are no pins of a table. *)
Definition table_xor (s : stepgen) : option Z :=
  match table s with [a; b; c; d] => Some (Z.lxor (Z.lxor (Z.lxor a b) c) d) | _ => None end.

(** The messages say that the mode goes back to 0, but the function goes on. *)
Definition hm2_stepgen_update_mode (md : module_t) (i : Z) (s : stepgen) : option (writes * stepgen) :=
  let s := {| s with written_step_type := step_type s |} in
  if step_type s <=? 2 then Some ([], {| s with mode_reg := step_type s |})
  else
    h ← table_xor s;
    let s := {| s with table_hash := h |} in
    l ← table_writes (table_sequence_data_setup_addr md + i * 4) (table s) (Z.to_nat (s32 (step_type s - 1) + 1));
    Some (l ++ [(table_sequence_length_addr md + i * 4, [step_type s])], {| s with mode_reg := 3 |}).

(** One register, if its pin has changed. *)
Definition write_changed (changed : bool) (update : stepgen -> option stepgen) (addr : Z) (reg : stepgen -> Z) (s : stepgen) : option (writes * stepgen) :=
  if changed then s ← update s; Some ([(addr, [reg s])], s) else Some ([], s).

Definition mode_changed (s : stepgen) : option bool :=
  if negb (step_type s =? written_step_type s) then Some true
  else if 2 <? step_type s then h ← table_xor s; Some (negb (h =? table_hash s))
  else Some false.

Definition write_instance (md : module_t) (i : Z) (s : stepgen) : option (writes * stepgen) :=
  '(w1, s) ← write_changed (negb (dirsetup s =? written_dirsetup s)) (hm2_stepgen_update_dir_setup_time md) (dir_setup_time_addr md + i * 4) dir_setup_time_reg s;
  '(w2, s) ← write_changed (negb (dirhold s =? written_dirhold s)) (hm2_stepgen_update_dir_hold_time md) (dir_hold_time_addr md + i * 4) dir_hold_time_reg s;
  '(w3, s) ← write_changed (negb (steplen s =? written_steplen s)) (hm2_stepgen_update_pulse_width md) (pulse_width_addr md + i * 4) pulse_width_reg s;
  '(w4, s) ← write_changed (negb (stepspace s =? written_stepspace s)) (hm2_stepgen_update_pulse_idle_width md) (pulse_idle_width_addr md + i * 4) pulse_idle_width_reg s;
  mode ← mode_changed s;
  '(w5, s) ← (if mode : bool then '(l, s) ← hm2_stepgen_update_mode md i s; Some (l ++ [(mode_addr md + i * 4, [mode_reg s])], s) else Some ([], s));
  Some (w1 ++ w2 ++ w3 ++ w4 ++ w5, s).

Definition hm2_stepgen_set_dpll_timer (md : module_t) : writes * module_t :=
  let num := if (dpll_timer_num md <? -1) || (4 <? dpll_timer_num md) then 0 else dpll_timer_num md in
  let data := if -1 <? num then Z.lor (Z.shiftl num 12) (Z.shiftl 1 15) else 0 in
  ([(dpll_timer_num_addr md, [data])], {| md with dpll_timer_num := num; written_dpll_timer_num := u32 num |}).

(** Each generator in turn. *)
Fixpoint for_each (f : Z -> stepgen -> option (writes * stepgen)) (i : Z) (l : list stepgen) : option (writes * list stepgen) :=
  match l with
  | [] => Some ([], [])
  | s :: l => '(w, s) ← f i s; '(ws, l) ← for_each f (i + 1) l; Some (w ++ ws, s :: l)
  end.

Definition hm2_stepgen_write (md : module_t) (l : list stepgen) : option (writes * module_t * list stepgen) :=
  '(w, l) ← for_each (write_instance md) 0 l;
  if (0 <? length l)%nat && dpll_module_present md && negb (u32 (dpll_timer_num md) =? written_dpll_timer_num md) then
    let '(wd, md) := hm2_stepgen_set_dpll_timer md in Some (w ++ wd, md, l)
  else Some (w, md, l).

(** All registers of one kind. *)
Definition force_register (update : stepgen -> option stepgen) (addr : Z) (reg : stepgen -> Z) (l : list stepgen) : option (writes * list stepgen) :=
  l ← mapM update l; Some ([(addr, map reg l)], l).
Definition force_mode (md : module_t) (l : list stepgen) : option (writes * list stepgen) :=
  '(w, l) ← for_each (hm2_stepgen_update_mode md) 0 l; Some (w ++ [(mode_addr md, map mode_reg l)], l).

Definition force_write_dpll_timer (md : module_t) (l : list stepgen) : writes * module_t :=
  if (0 <? length l)%nat && dpll_module_present md then hm2_stepgen_set_dpll_timer md else ([], md).

Definition hm2_stepgen_force_write (md : module_t) (l : list stepgen) : option (writes * module_t * list stepgen) :=
  if (length l =? 0)%nat then Some ([], md, l)
  else
    '(w1, l) ← force_mode md l;
    '(w2, l) ← force_register (hm2_stepgen_update_dir_setup_time md) (dir_setup_time_addr md) dir_setup_time_reg l;
    '(w3, l) ← force_register (hm2_stepgen_update_dir_hold_time md) (dir_hold_time_addr md) dir_hold_time_reg l;
    '(w4, l) ← force_register (hm2_stepgen_update_pulse_width md) (pulse_width_addr md) pulse_width_reg l;
    '(w5, l) ← force_register (hm2_stepgen_update_pulse_idle_width md) (pulse_idle_width_addr md) pulse_idle_width_reg l;
    let '(w6, md) := force_write_dpll_timer md l in
    Some (w1 ++ w2 ++ w3 ++ w4 ++ w5 ++ [(master_dds_addr md, [0xffffffff])] ++ w6, md, l).

(** ** The module descriptor *)

(** The pins of generator [i]: the greatest number of a pin in a descriptor,
    with the bit of its direction. *)
Definition table_width_of (pins : list Hm2Pins.Pins.hm2_pin_t) (i : Z) : Z :=
  fold_left (fun w p => if (Hm2Pins.Pins.sec_tag p =? Hm2Pins.Pins.HM2_GTAG_STEPGEN) && (Hm2Pins.Pins.sec_unit p =? i) && (w <? Hm2Pins.Pins.sec_pin p) then Hm2Pins.Pins.sec_pin p else w) pins 0.

(** What the block of a generator holds before is [raw]; [None]: the clock
    gives no time. *)
Definition init_instance (clock : Z) (pins : list Hm2Pins.Pins.hm2_pin_t) (i : Z) (raw : stepgen) : option stepgen :=
  let width := table_width_of pins i in
  slowest ← dbl_to_u32 (dmul (dbl_of_Z 0x3FFF) (ddiv d1e9 (dbl_of_Z clock)));
  Some {| raw with table_width := width; table := if 2 <? width then [0; 0; 0; 0] else [];
    position_cmd := d0; counts := 0; position_fb := d0; velocity_fb := d0; enable := false; control_type := false;
    position_scale := d1; maxvel := d0; maxaccel := d1; subcounts := 0;
    steplen := slowest; stepspace := slowest; dirsetup := slowest; dirhold := slowest; step_type := 0;
    written_steplen := 0; written_stepspace := 0; written_dirsetup := 0; written_dirhold := 0; written_step_type := 0xffffffff; prev_accumulator := 0 |}.

Fixpoint init_instances (clock : Z) (pins : list Hm2Pins.Pins.hm2_pin_t) (i : Z) (raws : list stepgen) : option (list stepgen) :=
  match raws with [] => Some [] | raw :: raws => s ← init_instance clock pins i raw; l ← init_instances clock pins (i + 1) raws; Some (s :: l) end.

(** What HAL, the TRAM and the kernel answer while the module is set up. *)
Record answers := Answers {
  hal_malloc : nat -> bool;
  register_write : Z;
  register_read : Z;
  kmalloc : nat -> bool;
  new_timer_pin : bool;
  new_pins : bool;              (* all pins of the generators *)
}.

(** [Refused r]: the function returns [r] and there are no new generators;
    [Unfinished r n]: it returns [r] but counts [n] generators. *)
Inductive parsed := Refused (r : Z) | Unfinished (r n : Z) | Ready (r : Z) (md : module_t) (l : list stepgen).

Definition known_version (md : Hm2Pins.Pins.hm2_module_descriptor_t) : bool :=
  existsb (fun v => Hm2Pins.Ioport.hm2_md_is_consistent md v 10 4 0x01FF) [0; 1; 2].

Definition module_of (md : Hm2Pins.Pins.hm2_module_descriptor_t) (dpll : bool) : module_t :=
  let reg k := Hm2Pins.Pins.md_base_address md + k * Hm2Pins.Pins.md_register_stride md in
  Module_ (Hm2Pins.Pins.md_clock_freq md) (reg 3) (reg 4) (reg 5) (reg 6) (reg 2) (reg 7) (reg 8) (reg 9) (reg 10) dpll (-1) 0.

(** [present] generators so far, [num_stepgens] of the configuration; [raws]
    is the memory that [hal_malloc] gives. *)
Definition hm2_stepgen_parse_md (md : Hm2Pins.Pins.hm2_module_descriptor_t) (present num_stepgens : Z) (dpll : bool) (pins : list Hm2Pins.Pins.hm2_pin_t) (raws : nat -> list stepgen) (a : answers) : option parsed :=
  if negb (known_version md) then Some (Refused (- EINVAL))
  else if negb (present =? 0) then Some (Refused (- EINVAL))
  else if Hm2Pins.Pins.md_instances md <? num_stepgens then Some (Refused (- EINVAL))
  else if num_stepgens =? 0 then Some (Refused 0)
  else
    let n := if num_stepgens =? -1 then Hm2Pins.Pins.md_instances md else num_stepgens in
    if negb (hal_malloc a 0 && hal_malloc a 1) then Some (Refused (- ENOMEM))
    else if register_write a <? 0 then Some (Refused (register_write a))
    else if register_read a <? 0 then Some (Refused (register_read a))
    else if negb (forallb (kmalloc a) (seq 0 5)) then Some (Refused (- ENOMEM))
    else if dpll && negb (new_timer_pin a) then Some (Unfinished (- EINVAL) n)
    else if negb (new_pins a) then Some (Refused (- ENOMEM))
    else l ← init_instances (Hm2Pins.Pins.md_clock_freq md) pins 0 (raws (Z.to_nat n)); Some (Ready n (module_of md dpll) l).

End Hm2Stepgen.

(** * Theorems

    Positions up to the wraps of the accumulator, the limits of velocities,
    and that registers are written when they have changed. *)
Import Hm2Stepgen.

(** ** Positions *)

(** The card has gone to the position [x], of which it shows 32 bits. *)
Definition sample (s : stepgen) (x : Z) : stepgen := process_instance {| s with accumulator_reg := x mod 2 ^ 32 |}.

Definition close (x y : Z) : Prop := - INT32_MAX <= y - x <= INT32_MAX.
Fixpoint closes (x : Z) (xs : list Z) : Prop := match xs with [] => True | y :: xs => close x y /\ closes y xs end.
Definition far (x : Z) : Prop := - 2 ^ 61 <= x <= 2 ^ 61.

Lemma acc_delta_wraps x y : close x y -> acc_delta (y mod 2 ^ 32) (x mod 2 ^ 32) = (y - y / 2 ^ 32) - (x - x / 2 ^ 32).
Proof.
  intros Hc. unfold close, acc_delta, INT32_MAX, INT32_MIN, UINT32_MAX in *.
  pose proof (Z.div_mod x (2 ^ 32)). pose proof (Z.div_mod y (2 ^ 32)). pose proof (Z.mod_pos_bound x (2 ^ 32)). pose proof (Z.mod_pos_bound y (2 ^ 32)).
  destruct (Z.ltb_spec 2147483647 (y mod 2 ^ 32 - x mod 2 ^ 32)), (Z.ltb_spec (y mod 2 ^ 32 - x mod 2 ^ 32) (- 2147483647 - 1)); lia.
Qed.

Lemma position_step s x y : prev_accumulator s = x mod 2 ^ 32 -> close x y -> - 2 ^ 63 <= subcounts s + ((y - y / 2 ^ 32) - (x - x / 2 ^ 32)) < 2 ^ 63 ->
  subcounts (sample s y) = subcounts s + ((y - y / 2 ^ 32) - (x - x / 2 ^ 32)) /\ prev_accumulator (sample s y) = y mod 2 ^ 32 /\
  counts (sample s y) = s32 (subcounts (sample s y) / 2 ^ 16).
Proof.
  intros Hp Hc Hr. assert (subcounts (sample s y) = s64 (subcounts s + acc_delta (y mod 2 ^ 32) (prev_accumulator s))) as E by (unfold sample, process_instance, reset_scale; by destruct (dlt _ _)).
  split; [| split].
  - rewrite E, Hp, acc_delta_wraps by done. by apply wraps_small.
  - unfold sample, process_instance, reset_scale. by destruct (dlt _ _).
  - rewrite E. unfold sample, process_instance, reset_scale. rewrite <- Z.shiftr_div_pow2 by lia. by destruct (dlt _ _).
Qed.

(** C25: The position in subcounts after any sequence of samples: the way the
    card has gone, less one subcount for each wrap of the accumulator to the
    next 2^32, and one more for each wrap back; between two samples less than
    2^31 subcounts.  Without a wrap the position is exact. *)
Theorem subcounts_drift s x0 xs : prev_accumulator s = x0 mod 2 ^ 32 -> closes x0 xs -> far x0 -> Forall far xs -> far (subcounts s) ->
  let x := default x0 (last xs) in
  subcounts (fold_left sample xs s) = subcounts s + (x - x0) - (x / 2 ^ 32 - x0 / 2 ^ 32) /\
  (xs <> [] -> counts (fold_left sample xs s) = s32 (subcounts (fold_left sample xs s) / 2 ^ 16)).
Proof.
  intros Hp Hc H0 Hx Hs. cbv zeta.
  enough (forall x c, prev_accumulator s = x mod 2 ^ 32 -> closes x xs -> far x -> far c -> subcounts s = c + ((x - x / 2 ^ 32) - (x0 - x0 / 2 ^ 32)) ->
    let y := default x (last xs) in
    subcounts (fold_left sample xs s) = c + ((y - y / 2 ^ 32) - (x0 - x0 / 2 ^ 32)) /\ (xs <> [] -> counts (fold_left sample xs s) = s32 (subcounts (fold_left sample xs s) / 2 ^ 16))) as H.
  { destruct (H x0 (subcounts s) Hp Hc H0 Hs) as [H1 H2]; [lia |]. split; [| exact H2]. cbv zeta in H1. lia. }
  clear Hp Hc Hs. revert s. induction Hx as [| y xs Hy Hxs IH]; intros s x c Hp Hc Hfx Hfc Hs; [done |]. destruct Hc as [Hc Hcs]. cbn [fold_left].
  destruct (position_step s x y Hp Hc) as (E1 & E2 & E3).
  { rewrite Hs. unfold far in *. pose proof (Z.div_mod x0 (2 ^ 32)). pose proof (Z.mod_pos_bound x0 (2 ^ 32)). pose proof (Z.div_mod y (2 ^ 32)). pose proof (Z.mod_pos_bound y (2 ^ 32)). lia. }
  destruct (IH (sample s y) y c E2 Hcs Hy Hfc) as [H1 H2]; [rewrite E1, Hs; lia |].
  assert (default x (last (y :: xs)) = default y (last xs)) as -> by (destruct xs as [| z xs]; [done | change (last (y :: z :: xs)) with (last (z :: xs)); by destruct (last_is_Some (z :: xs)) as [_ [v ->]]]).
  split; [exact H1 |]. intros _. destruct xs; [exact E3 | by apply H2].
Qed.

(** ** Limits *)

Lemma check_limits_nonneg s : nonneg (fst (check_limits s)) = true.
Proof.
  assert (nonneg (physical_maxvel s) = true) as Hp by (apply ddiv_nonneg; [apply ddiv_nonneg; [done | apply dbl_of_Z_nonneg, wrapu_range; lia] | apply dabs_nonneg]).
  unfold check_limits. cbn [fst]. set (mv := if dlt (maxvel s) d0 then dabs (maxvel s) else maxvel s).
  assert (nonneg mv = true \/ deq mv d0 = true) as Hmv by (unfold mv; destruct (maxvel s) as [[] | [] | | [] m e]; auto).
  destruct (dlt (physical_maxvel s) mv); [destruct (deq (physical_maxvel s) d0); exact Hp |]. destruct (deq mv d0) eqn:E; [done | by destruct Hmv].
Qed.

(** The velocity of an enabled generator is within the limit of its
    parameters and its step timing, in both directions; a generator that is
    not enabled stands still and takes the commanded position as the old
    one. *)
Theorem velocity_limited md l_period_ns s s' : prepare_instance md l_period_ns s = Some s' ->
  if enable s then let limit := fst (check_limits s) in dlt limit (velocity_fb s') = false /\ dlt (velocity_fb s') (dneg limit) = false
  else step_rate_reg s' = 0 /\ velocity_fb s' = d0 /\ old_position_cmd s' = position_cmd s.
Proof.
  unfold prepare_instance. destruct (enable s); cbn [negb]; [| by intros [= <-]]. unfold hm2_stepgen_instance_prepare_tram_write.
  pose proof (check_limits_nonneg s) as Hl. destruct (check_limits s) as [limit s1]. cbn [fst] in *. destruct (if control_type s1 then _ else _) as [v s2].
  destruct (dbl_to_sint 32 _) as [rate |]; cbn [mbind option_bind]; [| done]. intros [= <-]. cbv zeta. cbn [velocity_fb].
  split; [apply dclamp_hi | apply dclamp_lo]; by apply nonneg_limits.
Qed.

(** ** Registers *)

(** The registers are 14 bits wide. *)
Lemma time_reg_range md ns reg ns' : time_reg md ns = Some (reg, ns') -> 0 <= reg <= 0x3FFF.
Proof.
  unfold time_reg. destruct (dbl_to_u32 (dmul (dbl_of_Z ns) _)) as [z |] eqn:Ez; cbn [mbind option_bind]; [| done].
  assert (0 <= z) as Hz by (unfold dbl_to_u32 in Ez; destruct (dbl_to_sint 33 _) as [y |]; cbn [mbind option_bind] in Ez; [| done]; destruct (0 <=? y) eqn:E; zb; [by injection Ez as <- | done]).
  destruct (0x3FFF <? z) eqn:E2; zb; [| intros [= <- _]; lia].
  destruct (dbl_to_u32 (dmul (dbl_of_Z 0x3FFF) (ddiv d1e9 (dbl_of_Z (clock_frequency md))))) as [n |]; [| done]. intros E. change (Some (0x3FFF, n) = Some (reg, ns')) in E. injection E as E1 _. lia.
Qed.

(** What has been written. *)
Definition mode_known (s : stepgen) : Prop := written_step_type s = step_type s /\ (2 < step_type s -> table_xor s = Some (table_hash s)).
Definition setup_known (s : stepgen) : Prop := written_dirsetup s = dirsetup s.
Definition hold_known (s : stepgen) : Prop := written_dirhold s = dirhold s.
Definition width_known (s : stepgen) : Prop := written_steplen s = steplen s.
Definition idle_known (s : stepgen) : Prop := written_stepspace s = stepspace s.

Ltac updated := unfold hm2_stepgen_update_dir_setup_time, hm2_stepgen_update_dir_hold_time, hm2_stepgen_update_pulse_width, hm2_stepgen_update_pulse_idle_width, mode_known, setup_known, hold_known, width_known, idle_known;
  destruct (time_reg _ _) as [[? ?] |]; cbn [mbind option_bind]; [intros [= <-]; cbn; tauto | done].

Lemma setup_updated md s s' : hm2_stepgen_update_dir_setup_time md s = Some s' -> setup_known s' /\ (mode_known s -> mode_known s').
Proof. updated. Qed.
Lemma hold_updated md s s' : hm2_stepgen_update_dir_hold_time md s = Some s' -> hold_known s' /\ (mode_known s -> mode_known s') /\ (setup_known s -> setup_known s').
Proof. updated. Qed.
Lemma width_updated md s s' : hm2_stepgen_update_pulse_width md s = Some s' ->
  width_known s' /\ (mode_known s -> mode_known s') /\ (setup_known s -> setup_known s') /\ (hold_known s -> hold_known s').
Proof. updated. Qed.
Lemma idle_updated md s s' : hm2_stepgen_update_pulse_idle_width md s = Some s' ->
  idle_known s' /\ (mode_known s -> mode_known s') /\ (setup_known s -> setup_known s') /\ (hold_known s -> hold_known s') /\ (width_known s -> width_known s').
Proof. updated. Qed.

Lemma mode_updated md i s w s' : hm2_stepgen_update_mode md i s = Some (w, s') -> mode_known s'.
Proof.
  unfold hm2_stepgen_update_mode, mode_known. cbn. destruct (step_type s <=? 2) eqn:E; zb; [intros [= _ <-]; cbn; split; [done | lia] |].
  destruct (table_xor _) as [h |] eqn:Eh; cbn [mbind option_bind]; [| done]. destruct (table_writes _ _ _); cbn [mbind option_bind]; [| done]. intros [= _ <-]. done.
Qed.

Lemma force_mode_known md l w l' : force_mode md l = Some (w, l') -> Forall mode_known l'.
Proof.
  unfold force_mode. destruct (for_each _ 0 l) as [[w1 l1] |] eqn:E; cbn [mbind option_bind]; [| done]. intros [= _ <-]. revert w1 l1 E. generalize 0.
  induction l as [| s l IH]; intros i w1 l1; cbn [for_each]; [by intros [= _ <-] |]. destruct (hm2_stepgen_update_mode md i s) as [[w2 s2] |] eqn:E2; cbn [mbind option_bind]; [| done].
  destruct (for_each _ (i + 1) l) as [[w3 l3] |] eqn:E3; cbn [mbind option_bind]; [| done]. intros [= _ <-]. constructor; [by apply mode_updated in E2 | by apply (IH (i + 1) w3)].
Qed.

Lemma force_register_known (P Q : stepgen -> Prop) update addr reg l w l' : (forall s s', update s = Some s' -> P s -> Q s') ->
  force_register update addr reg l = Some (w, l') -> Forall P l -> Forall Q l'.
Proof.
  intros Hu. unfold force_register. destruct (mapM update l) as [l1 |] eqn:E; cbn [mbind option_bind]; [| done]. intros [= _ <-] HP. apply mapM_Some in E.
  revert HP. induction E as [| s s' l l1 Hs _ IH]; intros HP; [done |]. inversion HP; subst. constructor; [by eapply Hu | by apply IH].
Qed.

Definition known (s : stepgen) : Prop := mode_known s /\ setup_known s /\ hold_known s /\ width_known s /\ idle_known s.

Lemma write_known md i s : known s -> write_instance md i s = Some ([], s).
Proof.
  intros ([H1 H1'] & H2 & H3 & H4 & H5). unfold setup_known, hold_known, width_known, idle_known in *. unfold write_instance, write_changed. rewrite H2, Z.eqb_refl. cbn [negb mbind option_bind]. rewrite H3, Z.eqb_refl. cbn [negb mbind option_bind].
  rewrite H4, Z.eqb_refl. cbn [negb mbind option_bind]. rewrite H5, Z.eqb_refl. cbn [negb mbind option_bind].
  unfold mode_changed. rewrite H1, Z.eqb_refl. cbn [negb]. destruct (2 <? step_type s) eqn:E; zb; [rewrite H1' by lia; cbn [mbind option_bind]; rewrite Z.eqb_refl; done | done].
Qed.

Lemma timer_known md l : let md' := snd (force_write_dpll_timer md l) in
  (0 <? length l)%nat && dpll_module_present md' && negb (u32 (dpll_timer_num md') =? written_dpll_timer_num md') = false.
Proof.
  cbv zeta. unfold force_write_dpll_timer. destruct ((0 <? length l)%nat && dpll_module_present md) eqn:E.
  - cbn. by rewrite Z.eqb_refl, andb_false_r.
  - cbn [snd]. by rewrite E.
Qed.

Lemma for_each_quiet md i l : Forall known l -> for_each (write_instance md) i l = Some ([], l).
Proof.
  intros H. revert i. induction H as [| s l Hs _ IH]; intros i; [done |]. cbn [for_each]. rewrite write_known by done. cbn [mbind option_bind]. by rewrite IH.
Qed.

(** After the registers have been written by force, the write funct writes
    none of them again, until a parameter changes. *)
Theorem write_quiet md l w md' l' : hm2_stepgen_force_write md l = Some (w, md', l') -> hm2_stepgen_write md' l' = Some ([], md', l').
Proof.
  unfold hm2_stepgen_force_write. intros E. destruct (length l =? 0)%nat eqn:El; [injection E as _ <- <-; apply Nat.eqb_eq in El; by destruct l |].
  destruct (force_mode md l) as [[w1 l1] |] eqn:E1; cbn [mbind option_bind] in E; [| done]. destruct (force_register _ _ _ l1) as [[w2 l2] |] eqn:E2; cbn [mbind option_bind] in E; [| done].
  destruct (force_register _ _ _ l2) as [[w3 l3] |] eqn:E3; cbn [mbind option_bind] in E; [| done]. destruct (force_register _ _ _ l3) as [[w4 l4] |] eqn:E4; cbn [mbind option_bind] in E; [| done].
  destruct (force_register _ _ _ l4) as [[w5 l5] |] eqn:E5; cbn [mbind option_bind] in E; [| done]. pose proof (timer_known md l5) as Ht.
  destruct (force_write_dpll_timer md l5) as [w6 md6]. cbv zeta in Ht. cbn [snd] in Ht. injection E as _ <- <-. apply force_mode_known in E1.
  apply (force_register_known mode_known (fun s => mode_known s /\ setup_known s)) in E2; [| intros s s' [? ?]%setup_updated ?; tauto | done].
  apply (force_register_known (fun s => mode_known s /\ setup_known s) (fun s => mode_known s /\ setup_known s /\ hold_known s)) in E3; [| intros s s' (? & ? & ?)%hold_updated ?; tauto | done].
  apply (force_register_known (fun s => mode_known s /\ setup_known s /\ hold_known s) (fun s => mode_known s /\ setup_known s /\ hold_known s /\ width_known s)) in E4; [| intros s s' (? & ? & ? & ?)%width_updated ?; tauto | done].
  apply (force_register_known (fun s => mode_known s /\ setup_known s /\ hold_known s /\ width_known s) known) in E5; [| intros s s' (? & ? & ? & ? & ?)%idle_updated ?; unfold known; tauto | done].
  unfold hm2_stepgen_write. rewrite for_each_quiet by done. cbn [mbind option_bind]. by rewrite Ht.
Qed.

(** ** Examples *)

Definition demo : stepgen := {|
  position_cmd := d0; velocity_cmd := dbl_of_Z 1000000; counts := 0; position_fb := d0; velocity_fb := d0; enable := true; control_type := true;
  dbg_ff_vel := d0; dbg_vel_error := d0; dbg_s_to_match := d0; dbg_err_at_match := d0; dbg_step_rate := 0; dbg_pos_minus_prev_cmd := d0;
  position_scale := dbl_of_Z 100; maxvel := d0; maxaccel := d0; steplen := 2000; stepspace := 3000; dirsetup := 100; dirhold := 1000000; step_type := 0; table := [0; 0; 0; 0];
  table_hash := 0; old_position_cmd := d0; prev_accumulator := 2 ^ 32 - 65536; subcounts := 0; written_steplen := 0; written_stepspace := 0; written_dirsetup := 0; written_dirhold := 0;
  written_step_type := 0; table_width := 6;
  accumulator_reg := 0; step_rate_reg := 0; mode_reg := 0; dir_setup_time_reg := 0; dir_hold_time_reg := 0; pulse_width_reg := 0; pulse_idle_width_reg := 0
|}.
Definition demo_md : module_t := Module_ 100000000 0x100 0x200 0x300 0x400 0x500 0x600 0x700 0x800 0x900 true 7 0.

Lemma subcounts_drift_witness : let xs := [2 ^ 32 + 65536; 2 ^ 32 - 65536] in
  let x := default (2 ^ 32 - 65536) (last xs) in
  subcounts (fold_left sample xs demo) = subcounts demo + (x - (2 ^ 32 - 65536)) - (x / 2 ^ 32 - (2 ^ 32 - 65536) / 2 ^ 32) /\
  (xs <> [] -> counts (fold_left sample xs demo) = s32 (subcounts (fold_left sample xs demo) / 2 ^ 16)).
Proof.
  apply (subcounts_drift demo (2 ^ 32 - 65536) [2 ^ 32 + 65536; 2 ^ 32 - 65536]); [reflexivity | | | |].
  - unfold closes, close, INT32_MAX. lia.
  - unfold far. lia.
  - repeat constructor; unfold far; lia.
  - unfold far, demo. cbn. lia.
Defined.

(** Two steps over the wrap are counted as one. *)
Example wrap_loses_a_step : counts (sample demo (2 ^ 32 + 65536)) = 1 /\ subcounts (sample demo (2 ^ 32 + 65536)) = 2 * 65536 - 1.
Proof. vm_compute. done. Qed.

Lemma velocity_limited_witness : let s' := default demo (prepare_instance demo_md 1000000 demo) in
  dlt (fst (check_limits demo)) (velocity_fb s') = false /\ dlt (velocity_fb s') (dneg (fst (check_limits demo))) = false.
Proof. apply (velocity_limited demo_md 1000000 demo (default demo (prepare_instance demo_md 1000000 demo))). vm_compute. reflexivity. Defined.

Lemma write_quiet_witness : let r := default ([], demo_md, []) (hm2_stepgen_force_write demo_md [demo]) in
  hm2_stepgen_write (snd (fst r)) (snd r) = Some ([], snd (fst r), snd r).
Proof.
  apply (write_quiet demo_md [demo] (fst (fst (default ([], demo_md, []) (hm2_stepgen_force_write demo_md [demo]))))). vm_compute. reflexivity.
Defined.

(** The pins of step and direction of a generator.  As they are outputs, 128
    is added to their numbers, and the generator counts as one with a table
    of 130 pins, so that a pattern is never too wide.  A pattern of 17 entries
    is reported, and so is one that is too wide, but neither is refused: the
    pins behind the fourth are read, and the mode is that of a table, while
    the message says that it goes back to 0. *)
Definition step_dir : list Hm2Pins.Pins.hm2_pin_t :=
  map (fun n => Hm2Pins.Pins.Pin n Hm2Pins.Pins.HM2_GTAG_STEPGEN 0 0 0 0 0 0 0 None) [0x81; 0x82].
Definition step_dir_demo : option stepgen := init_instance 100000000 step_dir 0 demo.
Definition with_type (n : Z) (s : stepgen) : stepgen := {| s with step_type := n |}.
Example unsupported_type : (s ← step_dir_demo; Some (table_width s)) = Some 130 /\
  (s ← step_dir_demo; r ← hm2_stepgen_update_mode demo_md 0 (with_type 17 s); Some r) = None /\
  (r ← hm2_stepgen_update_mode demo_md 0 (with_type 8 demo); Some (mode_reg (snd r))) = Some 3 /\ table_width demo < 8.
Proof. vm_compute. done. Qed.

(** The pins of a table are not made for a generator without outputs; a
    pattern then reads through pointers that are not set. *)
Example no_table_pins : (s ← init_instance 100000000 [] 0 demo; hm2_stepgen_update_mode demo_md 0 (with_type 4 s)) = None.
Proof. vm_compute. done. Qed.

(** When the pin of the timer cannot be made, the generators still count. *)
Definition demo_descriptor : Hm2Pins.Pins.hm2_module_descriptor_t := Hm2Pins.Pins.Md 5 2 100000000 4 0x2000 10 0x100 4 0x01FF.
Example timer_pin_fails : hm2_stepgen_parse_md demo_descriptor 0 2 true step_dir (fun n => replicate n demo) (Answers (fun _ => true) 0 0 (fun _ => true) false true) = Some (Unfinished (- EINVAL) 2).
Proof. vm_compute. done. Qed.
