(* ===== verification/Bitfile.v ===== *)
(** * FPGA configuration files

    Module [Bitfile]: the library that reads, changes and writes bitfiles
    (libraries/upci/src/bitfile.c).  Module [Firmware]: the parser of the
    driver (libraries/hostmot2_bitfile/src/bitfile.c), which looks at the same
    format in memory.  A file is the list of its bytes; reading reaches the
    end of the file and no other error, writing stops where the disk is full.
    Messages are not modelled, but for the one that is undefined behaviour. *)
From S2P Require Import Prelude.

(** What malloc does with a size. *)
Class Malloc := malloc_ok : Z -> bool.

Module Bitfile.

Definition BITFILE_MAXCHUNKS : nat := 50.
Definition BITFILE_SMALLCHUNKS : list Z := [97; 98; 99; 100].        (* abcd *)
Definition XILINX_CHUNKS : list Z := [97; 98; 99; 100; 101].         (* abcde *)
Definition BITFILE_HEADERLEN : nat := 13.
Definition header : list Z := [0x00; 0x09; 0x0f; 0xf0; 0x0f; 0xf0; 0x0f; 0xf0; 0x0f; 0xf0; 0x00; 0x00; 0x01].

Record bitfile_chunk := Chunk { tag : Z; len : Z; body : option (list Z) }.
Record bitfile := BitFile {
  filename : option string;
  bf_header : list Z;
  num_chunks : nat;
  chunks : list bitfile_chunk;
}.

(** Is the result of [strchr s c] not NULL?  It finds the terminator as well. *)
Definition strchr (s : list Z) (c : Z) : bool := (c =? 0) || existsb (Z.eqb c) s.

Definition small (t : Z) : bool := strchr BITFILE_SMALLCHUNKS t.
Definition len_len (t : Z) : nat := if small t then 2 else 4.

Definition no_chunk : bitfile_chunk := Chunk 0 0 None.

Section Operations.
Context `{Malloc}.

Definition bitfile_new (room : bool) : option bitfile :=
  if room then Some (BitFile None header 0 (replicate BITFILE_MAXCHUNKS no_chunk)) else None.

(** ** Reading *)

(** [read(fd, buf, n)]: the bytes read, what is left; [n] is a size_t. *)
Definition read (n : Z) (f : list Z) : list Z * list Z :=
  let k := Z.to_nat (Z.min (u64 n) (Z.of_nat (length f))) in (take k f, drop k f).

Definition big_endian (l : list Z) : Z := fold_left (fun acc b => Z.lor (Z.shiftl acc 8) b) l 0.

(** The result code, the chunk, the rest of the file. *)
Definition read_chunk (ch : bitfile_chunk) (f : list Z) : Z * bitfile_chunk * list Z :=
  let '(t, f) := read 1 f in
  match t with
  | [] => (1, ch, f)
  | t :: _ =>
      let '(lenbuf, f) := read (Z.of_nat (len_len t)) f in
      if negb (length lenbuf =? len_len t)%nat then (-1, Chunk t (len ch) (body ch), f)
      else
        let n := s32 (big_endian lenbuf) in
        if negb (malloc_ok (u64 n)) then (-1, Chunk t n None, f)
        else
          let '(data, f) := read n f in
          (if negb (s32 (Z.of_nat (length data)) =? n) then -1 else 0, Chunk t n (Some data), f)
  end.

Definition set_chunk (n : nat) (ch : bitfile_chunk) (bf : bitfile) : bitfile :=
  {| bf with chunks := <[n := ch]> (chunks bf) |}.

(** The loop over the chunks, [fuel] more at most. *)
Fixpoint read_chunks (fuel : nat) (bf : bitfile) (f : list Z) : option (bitfile * list Z) :=
  match fuel with
  | O => Some (bf, f)
  | S fuel =>
      match chunks bf !! num_chunks bf with
      | None => None
      | Some ch =>
          let '(rv, ch, f) := read_chunk ch f in
          let bf := set_chunk (num_chunks bf) ch bf in
          if rv <? 0 then None
          else if 0 <? rv then Some (bf, f)
          else read_chunks fuel {| bf with num_chunks := S (num_chunks bf) |} f
      end
  end.

(** [file] is [None] if it cannot be opened; [room] tells if the struct and
    the copy of the name can be allocated. *)
Definition bitfile_read (room room' : bool) (fname : string) (file : option (list Z)) : option bitfile :=
  bf ← bitfile_new room;
  f ← file;
  let '(h, f) := read (Z.of_nat BITFILE_HEADERLEN) f in
  if (length h <? BITFILE_HEADERLEN)%nat then None
  else if negb (bool_decide (h = header)) then None
  else
    '(bf, f) ← read_chunks (BITFILE_MAXCHUNKS - num_chunks bf) {| bf with bf_header := h |} f;
    let '(c, f) := read 1 f in
    if (length c =? 1)%nat then None
    else if room' then Some {| bf with filename := Some fname |} else None.

(** ** Chunks in memory *)
Fixpoint find_chunk (l : list bitfile_chunk) (t : Z) (n : Z) : option bitfile_chunk :=
  match l with
  | [] => None
  | ch :: l =>
      if tag ch =? t then (if n =? 0 then Some ch else find_chunk l t (n - 1)) else find_chunk l t n
  end.
Definition bitfile_find_chunk (bf : bitfile) (t : Z) (n : Z) : option bitfile_chunk :=
  find_chunk (take (num_chunks bf) (chunks bf)) t n.

(** [memcpy] of [n] bytes of the object [data]: reading more is undefined. *)
Definition bitfile_add_chunk (t : Z) (n : Z) (data : list Z) : M bitfile unit :=
  if small t && (0xFFFF <? n) then raise (-1)
  else
    bf ← get;
    if (BITFILE_MAXCHUNKS - 1 <=? num_chunks bf)%nat then raise (-1)
    else if negb (malloc_ok (u64 n)) then
      modify (set_chunk (num_chunks bf) {| (nth (num_chunks bf) (chunks bf) no_chunk) with body := None |}) ≫= fun _ => raise (-1)
    else if negb (u64 n <=? Z.of_nat (length data)) then crash
    else modify (fun bf =>
      {| (set_chunk (num_chunks bf) (Chunk t n (Some (take (Z.to_nat (u64 n)) data))) bf) with num_chunks := S (num_chunks bf) |}).

Definition bitfile_validate_xilinx_info (bf : bitfile) : Z :=
  if forallb (fun t => match bitfile_find_chunk bf t 0 with Some _ => true | None => false end) XILINX_CHUNKS then 0 else -1.

(** ** Writing *)
Record disk := Disk { written : list Z; space : Z }.

(** [write(fd, buf, n)] of a buffer of [n] bytes: how many the disk has taken. *)
Definition write (buf : list Z) : M disk Z :=
  d ← get;
  let k := Z.min (Z.of_nat (length buf)) (space d) in
  put (Disk (written d ++ take (Z.to_nat k) buf) (space d - k)) ≫= fun _ => mret k.

(** [write(fd, body, n)]: a NULL pointer is refused by the system, reading
    behind the end of the object is undefined. *)
Definition write_body (b : option (list Z)) (n : Z) : M disk Z :=
  match b with
  | None => if u64 n =? 0 then mret 0 else mret (-1)
  | Some b => if u64 n <=? Z.of_nat (length b) then write (take (Z.to_nat (u64 n)) b) else crash
  end.

Definition length_bytes (t n : Z) : list Z :=
  if small t then [Z.land (Z.shiftr n 8) 0xFF; Z.land n 0xFF]
  else [Z.land (Z.shiftr n 24) 0xFF; Z.land (Z.shiftr n 16) 0xFF; Z.land (Z.shiftr n 8) 0xFF; Z.land n 0xFF].

(** The message about a header that cannot be written takes the tag for the
    address of a string. *)
Definition write_chunk (ch : bitfile_chunk) : M disk unit :=
  rv ← write (tag ch :: length_bytes (tag ch) (len ch));
  if negb (rv =? Z.of_nat (len_len (tag ch)) + 1) then crash
  else
    rv ← write_body (body ch) (len ch);
    if negb (rv =? len ch) then raise (-1) else mret tt.

Fixpoint write_chunks (l : list bitfile_chunk) : M disk unit :=
  match l with [] => mret tt | ch :: l => write_chunk ch ≫= fun _ => write_chunks l end.

(** The chunks in the order of the file. *)
Definition xilinx_chunks (bf : bitfile) : list bitfile_chunk :=
  omap (fun t => bitfile_find_chunk bf t 0) XILINX_CHUNKS.
Definition other_chunks (bf : bitfile) : list bitfile_chunk :=
  List.filter (fun ch => negb (strchr XILINX_CHUNKS (tag ch))) (take (num_chunks bf) (chunks bf)).

Definition bitfile_write (bf : bitfile) : M disk unit :=
  rv ← write (bf_header bf);
  if rv <? Z.of_nat BITFILE_HEADERLEN then raise (-1)
  else write_chunks (xilinx_chunks bf) ≫= fun _ => write_chunks (other_chunks bf).

End Operations.
End Bitfile.

(** ** The driver's parser *)
Module Firmware.

(** [data] is the offset of the chunk in the firmware. *)
Record bitfile_chunk_t := FChunk { size : Z; data : option Z }.
Record bitfile_t := FBitFile { fa : bitfile_chunk_t; fb : bitfile_chunk_t; fc : bitfile_chunk_t; fd : bitfile_chunk_t; fe : bitfile_chunk_t }.

Section Parser.
Context (fw : list Z).

Definition fw_size : Z := Z.of_nat (length fw).

(** [fw->data[k]] *)
Definition byte {S} (k : Z) : M S Z :=
  if k <? 0 then crash else match fw !! Z.to_nat k with Some b => mret b | None => crash end.

(** The index has type [int], whose additions wrap, the size of the firmware
    [size_t]. *)
Definition beyond (k : Z) : bool := fw_size <? u64 (s32 k).

Definition bitfile_do_small_chunk (i : Z) : M bitfile_t (bitfile_chunk_t * Z) :=
  if beyond (i + 2) then raise (- 14)
  else
    h ← byte i; l ← byte (i + 1);
    let n := h * 256 + l in
    let i := i + 2 in
    if beyond (i + n) then raise (- 14)
    else
      z ← byte (i + n - 1);
      if negb (z =? 0) then raise (- EINVAL) else mret (FChunk n (Some i), s32 (i + n)).

Definition bitfile_do_big_chunk (i : Z) : M bitfile_t (bitfile_chunk_t * Z) :=
  if beyond (i + 4) then raise (- 14)
  else
    b0 ← byte i; b1 ← byte (i + 1); b2 ← byte (i + 2); b3 ← byte (i + 3);
    let n := s32 (u32 (Z.shiftl b0 24) + u32 (Z.shiftl b1 16) + u32 (Z.shiftl b2 8) + b3) in
    let i := i + 4 in
    if beyond (i + n) then raise (- 14) else mret (FChunk n (Some i), s32 (i + n)).

Definition bitfile_parse_and_verify_chunk (i : Z) : M bitfile_t Z :=
  t ← byte i;
  let i := s32 (i + 1) in
  if beyond i then raise (- 14)
  else if t =? 97 then '(c, i) ← bitfile_do_small_chunk i; modify (fun b => {| b with fa := c |}) ≫= fun _ => mret i
  else if t =? 98 then '(c, i) ← bitfile_do_small_chunk i; modify (fun b => {| b with fb := c |}) ≫= fun _ => mret i
  else if t =? 99 then '(c, i) ← bitfile_do_small_chunk i; modify (fun b => {| b with fc := c |}) ≫= fun _ => mret i
  else if t =? 100 then '(c, i) ← bitfile_do_small_chunk i; modify (fun b => {| b with fd := c |}) ≫= fun _ => mret i
  else if t =? 101 then '(c, i) ← bitfile_do_big_chunk i; modify (fun b => {| b with fe := c |}) ≫= fun _ => mret i
  else raise (- EINVAL).

(** The loop over the chunks; [false]: it has not ended after [fuel] chunks. *)
Fixpoint parse_chunks (fuel : nat) (i : Z) : M bitfile_t bool :=
  match fuel with
  | O => mret false
  | S fuel => if u64 i <? fw_size then i ← bitfile_parse_and_verify_chunk i; parse_chunks fuel i else mret true
  end.

Definition empty_chunk : bitfile_chunk_t := FChunk 0 None.

Definition bitfile_parse_and_verify (fuel : nat) : M bitfile_t bool :=
  put (FBitFile empty_chunk empty_chunk empty_chunk empty_chunk empty_chunk) ≫= fun _ =>
  if fw_size <? Z.of_nat Bitfile.BITFILE_HEADERLEN then raise (- 14)
  else if negb (bool_decide (take Bitfile.BITFILE_HEADERLEN fw = Bitfile.header)) then raise (- EINVAL)
  else
    ended ← parse_chunks fuel (Z.of_nat Bitfile.BITFILE_HEADERLEN);
    if negb ended then mret false else
    b ← get;
    if bool_decide (data (fb b) = None) then raise (- EINVAL)
    else if bool_decide (data (fe b) = None) then raise (- EINVAL)
    else mret true.

End Parser.

(** ** Bit order of the configuration *)
Definition swaptab : list Z := [
    0x00; 0x80; 0x40; 0xC0; 0x20; 0xA0; 0x60; 0xE0; 0x10; 0x90; 0x50; 0xD0; 0x30; 0xB0; 0x70; 0xF0;
    0x08; 0x88; 0x48; 0xC8; 0x28; 0xA8; 0x68; 0xE8; 0x18; 0x98; 0x58; 0xD8; 0x38; 0xB8; 0x78; 0xF8;
    0x04; 0x84; 0x44; 0xC4; 0x24; 0xA4; 0x64; 0xE4; 0x14; 0x94; 0x54; 0xD4; 0x34; 0xB4; 0x74; 0xF4;
    0x0C; 0x8C; 0x4C; 0xCC; 0x2C; 0xAC; 0x6C; 0xEC; 0x1C; 0x9C; 0x5C; 0xDC; 0x3C; 0xBC; 0x7C; 0xFC;
    0x02; 0x82; 0x42; 0xC2; 0x22; 0xA2; 0x62; 0xE2; 0x12; 0x92; 0x52; 0xD2; 0x32; 0xB2; 0x72; 0xF2;
    0x0A; 0x8A; 0x4A; 0xCA; 0x2A; 0xAA; 0x6A; 0xEA; 0x1A; 0x9A; 0x5A; 0xDA; 0x3A; 0xBA; 0x7A; 0xFA;
    0x06; 0x86; 0x46; 0xC6; 0x26; 0xA6; 0x66; 0xE6; 0x16; 0x96; 0x56; 0xD6; 0x36; 0xB6; 0x76; 0xF6;
    0x0E; 0x8E; 0x4E; 0xCE; 0x2E; 0xAE; 0x6E; 0xEE; 0x1E; 0x9E; 0x5E; 0xDE; 0x3E; 0xBE; 0x7E; 0xFE;
    0x01; 0x81; 0x41; 0xC1; 0x21; 0xA1; 0x61; 0xE1; 0x11; 0x91; 0x51; 0xD1; 0x31; 0xB1; 0x71; 0xF1;
    0x09; 0x89; 0x49; 0xC9; 0x29; 0xA9; 0x69; 0xE9; 0x19; 0x99; 0x59; 0xD9; 0x39; 0xB9; 0x79; 0xF9;
    0x05; 0x85; 0x45; 0xC5; 0x25; 0xA5; 0x65; 0xE5; 0x15; 0x95; 0x55; 0xD5; 0x35; 0xB5; 0x75; 0xF5;
    0x0D; 0x8D; 0x4D; 0xCD; 0x2D; 0xAD; 0x6D; 0xED; 0x1D; 0x9D; 0x5D; 0xDD; 0x3D; 0xBD; 0x7D; 0xFD;
    0x03; 0x83; 0x43; 0xC3; 0x23; 0xA3; 0x63; 0xE3; 0x13; 0x93; 0x53; 0xD3; 0x33; 0xB3; 0x73; 0xF3;
    0x0B; 0x8B; 0x4B; 0xCB; 0x2B; 0xAB; 0x6B; 0xEB; 0x1B; 0x9B; 0x5B; 0xDB; 0x3B; 0xBB; 0x7B; 0xFB;
    0x07; 0x87; 0x47; 0xC7; 0x27; 0xA7; 0x67; 0xE7; 0x17; 0x97; 0x57; 0xD7; 0x37; 0xB7; 0x77; 0xF7;
    0x0F; 0x8F; 0x4F; 0xCF; 0x2F; 0xAF; 0x6F; 0xEF; 0x1F; 0x9F; 0x5F; 0xDF; 0x3F; 0xBF; 0x7F; 0xFF].

(** The index is a byte, so within the table. *)
Definition bitfile_reverse_bits (d : Z) : Z := nth (Z.to_nat d) swaptab 0.

End Firmware.
