(* ===== verification/BitfileTheorems.v ===== *)
(** * Theorems about FPGA configuration files

    What is written is read back; what the driver's parser makes of such a
    file; and that the parser stays inside of any file. *)
From S2P Require Import Prelude Bitfile.

(** ** Lengths as bytes *)
Lemma shiftl_lor_add a b n : 0 <= n -> 0 <= b < 2 ^ n -> Z.lor (Z.shiftl a n) b = a * 2 ^ n + b.
Proof.
  intros Hn Hb. rewrite <- Z.shiftl_mul_pow2 by lia. rewrite <- Z.add_lor_land.
  assert (Z.land (Z.shiftl a n) b = 0) as ->; [| lia]. apply Z.bits_inj'. intros i Hi. rewrite Z.land_spec, Z.bits_0.
  destruct (Z.ltb_spec i n).
  - by rewrite Z.shiftl_spec_low by lia.
  - rewrite <- (Z.mod_small b (2 ^ n)) by lia. by rewrite Z.mod_pow2_bits_high, andb_false_r by lia.
Qed.

Lemma land_ff z : Z.land z 0xFF = z mod 256.
Proof. change 0xFF with (Z.ones 8). by rewrite Z.land_ones by lia. Qed.

Section WithMalloc.
Import Bitfile.
Context `{Malloc}.

(** The chunks in use. *)
Definition loaded (bf : bitfile) : list bitfile_chunk := take (num_chunks bf) (chunks bf).

(** A chunk as a file can hold it, and its bytes. *)
Definition chunk_ok (ch : bitfile_chunk) : Prop :=
  exists b, body ch = Some b /\ len ch = Z.of_nat (length b) /\ len ch < 2 ^ 31 /\ (small (tag ch) = true -> len ch <= 0xFFFF).
Definition encode (ch : bitfile_chunk) : list Z := tag ch :: length_bytes (tag ch) (len ch) ++ default [] (body ch).
Definition image (l : list bitfile_chunk) : list Z := header ++ flat_map encode l.

(** A well-formed bitfile. *)
Definition bitfile_ok (bf : bitfile) : Prop :=
  bf_header bf = header /\ length (chunks bf) = BITFILE_MAXCHUNKS /\ (num_chunks bf <= BITFILE_MAXCHUNKS)%nat /\ Forall chunk_ok (loaded bf).

Lemma length_bytes_length t n : length (length_bytes t n) = len_len t.
Proof. unfold length_bytes, len_len. by destruct (small t). Qed.

(** The bytes of a length give it back. *)
Lemma big_endian_length t n : 0 <= n < 2 ^ 31 -> (small t = true -> n <= 0xFFFF) -> s32 (big_endian (length_bytes t n)) = n.
Proof.
  intros Hn Hs. assert (big_endian (length_bytes t n) = n) as ->; [| apply wraps_small; lia].
  unfold length_bytes, big_endian. rewrite !land_ff, !Z.shiftr_div_pow2 by lia.
  assert (forall x, 0 <= x mod 256 < 2 ^ 8) by (intros x; apply Z.mod_pos_bound; lia).
  destruct (small t); cbn [fold_left]; rewrite !shiftl_lor_add by (lia || done).
  - specialize (Hs eq_refl). Z.div_mod_to_equations. lia.
  - Z.div_mod_to_equations. lia.
Qed.

(** ** Writing *)
Lemma write_run buf d : Z.of_nat (length buf) <= space d ->
  write buf d = (Ok (Z.of_nat (length buf)), Disk (written d ++ buf) (space d - Z.of_nat (length buf))).
Proof.
  intros Hs. unfold write, mbind, M_bind, get, put, mret, M_ret. rewrite Z.min_l by lia. by rewrite take_ge by lia.
Qed.

Lemma write_chunk_run ch d : chunk_ok ch -> Z.of_nat (length (encode ch)) <= space d ->
  write_chunk ch d = (Ok tt, Disk (written d ++ encode ch) (space d - Z.of_nat (length (encode ch)))).
Proof.
  intros (b & Hb & Hl & Hmax & Hsm) Hs. unfold encode in *. rewrite Hb in *. change (default [] (Some b)) with b in *. cbn [length] in *.
  rewrite length_app, length_bytes_length in *.
  unfold write_chunk, mbind, M_bind. rewrite write_run by (cbn [length]; rewrite length_bytes_length; lia).
  cbn [length]. rewrite length_bytes_length.
  replace (Z.of_nat (S (len_len (tag ch)))) with (Z.of_nat (len_len (tag ch)) + 1) by lia. rewrite Z.eqb_refl. cbn [negb].
  rewrite Hb. unfold write_body. rewrite (wrapu_small 64 (len ch)) by lia. rewrite (proj2 (Z.leb_le _ _)) by lia.
  rewrite take_ge by lia. rewrite write_run by (cbn [space]; lia). rewrite <- Hl, Z.eqb_refl. cbn [negb written space].
  unfold mret, M_ret. f_equal. f_equal; [by rewrite <- app_assoc | lia].
Qed.

Lemma write_chunks_run l d : Forall chunk_ok l -> Z.of_nat (length (flat_map encode l)) <= space d ->
  write_chunks l d = (Ok tt, Disk (written d ++ flat_map encode l) (space d - Z.of_nat (length (flat_map encode l)))).
Proof.
  intros Hl. revert d. induction Hl as [| ch l Hch Hl IH]; intros [w s] Hs; cbn [flat_map write_chunks] in *.
  - rewrite app_nil_r. unfold mret, M_ret. cbn. f_equal. f_equal. lia.
  - rewrite length_app in *. cbn [space] in *. unfold mbind, M_bind. rewrite write_chunk_run by (done || cbn [space]; lia).
    rewrite IH by (cbn [space]; lia). cbn [written space]. f_equal. f_equal; [by rewrite <- app_assoc | lia].
Qed.

(** The chunks in the order of the file are chunks of the bitfile. *)
Lemma find_chunk_spec l t n ch : find_chunk l t n = Some ch -> ch ∈ l /\ tag ch = t.
Proof.
  revert n. induction l as [| x l IH]; intros n; cbn [find_chunk]; [done |].
  case_match; [case_match |]; intros Hf; rewrite ?elem_of_cons; simplify_eq; zb; naive_solver.
Qed.

Definition file_order (bf : bitfile) : list bitfile_chunk := xilinx_chunks bf ++ other_chunks bf.

Lemma file_order_loaded bf ch : ch ∈ file_order bf -> ch ∈ loaded bf.
Proof.
  unfold file_order, xilinx_chunks, other_chunks, bitfile_find_chunk. rewrite elem_of_app, list_elem_of_omap.
  intros [(t & _ & Hf) | Hf]; [by apply find_chunk_spec in Hf as [? _] |].
  by apply list_elem_of_In, filter_In, proj1, list_elem_of_In in Hf.
Qed.

Lemma bitfile_write_run bf d : bitfile_ok bf -> Z.of_nat (length (image (file_order bf))) <= space d ->
  bitfile_write bf d = (Ok tt, Disk (written d ++ image (file_order bf)) (space d - Z.of_nat (length (image (file_order bf))))).
Proof.
  intros (Hh & _ & _ & Hok) Hs. unfold image, file_order in *. rewrite flat_map_app, !length_app in *.
  assert (Forall chunk_ok (file_order bf)) as Hf.
  { apply Forall_forall. intros ch Hch. rewrite Forall_forall in Hok. by apply Hok, file_order_loaded. }
  apply Forall_app in Hf as [Hx Ho].
  unfold bitfile_write, mbind, M_bind. rewrite Hh, write_run by lia. cbn [length header Z.of_nat BITFILE_HEADERLEN] in *.
  rewrite Z.ltb_irrefl. rewrite write_chunks_run by (done || cbn [space]; lia). rewrite write_chunks_run by (done || cbn [space]; lia).
  cbn [written space]. f_equal. f_equal; [by rewrite <- !app_assoc | lia].
Qed.

(** ** Reading *)
Lemma read_app a f : Z.of_nat (length a) < 2 ^ 64 -> read (Z.of_nat (length a)) (a ++ f) = (a, f).
Proof.
  intros Ha. unfold read. rewrite wrapu_small by lia. rewrite Z.min_l by (rewrite length_app; lia).
  rewrite Nat2Z.id. by rewrite take_app_length, drop_app_length.
Qed.

Lemma read_chunk_encode ch x f : chunk_ok ch -> malloc_ok (len ch) = true -> read_chunk x (encode ch ++ f) = (0, ch, f).
Proof.
  intros (b & Hb & Hl & Hmax & Hsm) Hm. unfold read_chunk, encode. rewrite Hb. change (default [] (Some b)) with b.
  change (read 1 ((tag ch :: length_bytes (tag ch) (len ch) ++ b) ++ f)) with (read (Z.of_nat (length [tag ch])) ([tag ch] ++ ((length_bytes (tag ch) (len ch) ++ b) ++ f))).
  rewrite read_app by (cbn; lia). rewrite <- app_assoc. rewrite <- (length_bytes_length (tag ch) (len ch)).
  rewrite read_app by (rewrite length_bytes_length; unfold len_len; case_match; lia). rewrite Nat.eqb_refl. cbn [negb].
  rewrite big_endian_length by (done || lia). rewrite (wrapu_small 64 (len ch)) by lia. rewrite Hm. cbn [negb].
  rewrite Hl, read_app by lia. rewrite wraps_small by lia. rewrite Z.eqb_refl. cbn [negb]. rewrite <- Hl, <- Hb. by destruct ch.
Qed.

Lemma loaded_add bf ch : (num_chunks bf < length (chunks bf))%nat ->
  loaded {| (set_chunk (num_chunks bf) ch bf) with num_chunks := S (num_chunks bf) |} = loaded bf ++ [ch].
Proof.
  intros Hn. unfold loaded, set_chunk. cbn. rewrite (take_S_r _ _ ch) by (by apply list_lookup_insert_eq).
  by rewrite take_insert_ge by done.
Qed.

Lemma read_chunks_image fuel bf l : Forall chunk_ok l -> Forall (fun ch => malloc_ok (len ch) = true) l ->
  length (chunks bf) = BITFILE_MAXCHUNKS -> (num_chunks bf + fuel = BITFILE_MAXCHUNKS)%nat -> (length l <= fuel)%nat ->
  exists bf', read_chunks fuel bf (flat_map encode l) = Some (bf', []) /\ loaded bf' = loaded bf ++ l /\
    length (chunks bf') = BITFILE_MAXCHUNKS /\ num_chunks bf' = (num_chunks bf + length l)%nat /\ bf_header bf' = bf_header bf.
Proof.
  intros Hok. revert bf fuel. induction Hok as [| ch l Hch Hok IH]; intros bf fuel Hm Hlen Hn Hf.
  - exists bf. rewrite app_nil_r. cbn [flat_map length]. split; [| split_and!; (done || lia)].
    destruct fuel as [| fuel]; [done |]. cbn [read_chunks].
    destruct (lookup_lt_is_Some_2 (chunks bf) (num_chunks bf)) as [x Hx]; [lia |]. rewrite Hx. cbn.
    f_equal. f_equal. unfold set_chunk. rewrite list_insert_id by done. by destruct bf.
  - apply Forall_cons in Hm as [Hmc Hm]. destruct fuel as [| fuel]; [cbn [length] in Hf; lia |]. cbn [read_chunks flat_map].
    destruct (lookup_lt_is_Some_2 (chunks bf) (num_chunks bf)) as [x Hx]; [lia |]. rewrite Hx, read_chunk_encode by done.
    cbn [Z.ltb Z.compare]. cbn [length] in *.
    edestruct (IH {| (set_chunk (num_chunks bf) ch bf) with num_chunks := S (num_chunks bf) |} fuel) as (bf' & E & Hl & H1 & H2 & H3);
      [done | by cbn; rewrite length_insert | cbn; lia | lia |].
    exists bf'. split; [exact E |]. rewrite Hl, loaded_add by lia. cbn in H2, H3. split_and!; [by rewrite <- app_assoc | done | lia | done].
Qed.

(** Every chunk is written at most once; all of them if no tag appears twice. *)
Lemma find_chunk_head l t : find_chunk l t 0 = head (filter (fun ch => tag ch = t) l).
Proof.
  induction l as [| ch l IH]; [done |]. cbn [find_chunk]. rewrite filter_cons.
  destruct (Z.eqb_spec (tag ch) t); case_decide; done.
Qed.

Lemma filter_split {A} (P Q : A -> Prop) `{forall x, Decision (P x), forall x, Decision (Q x)} (l : list A) :
  filter P l ≡ₚ filter (fun x => P x /\ Q x) l ++ filter (fun x => P x /\ ~ Q x) l.
Proof.
  induction l as [| x l IH]; [done |]. rewrite !filter_cons. repeat case_decide; try tauto; rewrite IH; try done.
  by rewrite Permutation_middle.
Qed.

Lemma chunk_filter_all {A} (P : A -> Prop) `{forall x, Decision (P x)} (l : list A) : (forall x, P x) -> filter P l = l.
Proof. intros HP. induction l as [| x l IH]; [done |]. by rewrite filter_cons_True, IH. Qed.

Lemma filter_tag_once l t : NoDup (tag <$> l) -> tail (filter (fun ch => tag ch = t) l) = [].
Proof.
  induction l as [| ch l IH]; [done |]. cbn [fmap list_fmap]. intros [Hn Hd]%NoDup_cons. rewrite filter_cons.
  case_decide as Ht; [| by apply IH]. cbn [tail]. destruct (filter _ l) as [| y r] eqn:E; [done |]. exfalso. apply Hn.
  assert (y ∈ filter (fun ch => tag ch = t) l) as Hy by (rewrite E; by left).
  apply list_elem_of_filter in Hy as [Hy Hl]. rewrite Ht, <- Hy. by apply list_elem_of_fmap_2.
Qed.

Lemma filter_none {A} (P : A -> Prop) `{forall x, Decision (P x)} (l : list A) : (forall x, x ∈ l -> ~ P x) -> filter P l = [].
Proof.
  induction l as [| x l IH]; intros HP; [done |]. rewrite filter_cons_False by (apply HP; by left).
  apply IH. intros y Hy. apply HP. by right.
Qed.

Lemma chunks_split l ts : NoDup ts -> exists rest,
  omap (fun t => find_chunk l t 0) ts ++ filter (fun ch => (tag ch ∉ ts)) l ++ rest ≡ₚ l /\ (NoDup (tag <$> l) -> rest = []).
Proof.
  induction 1 as [| t ts Ht Hts (rest & IH & Hr)].
  { exists []. split; [| done]. cbn. rewrite app_nil_r. by rewrite chunk_filter_all by (intros x; apply not_elem_of_nil). }
  exists (rest ++ tail (filter (fun ch => tag ch = t) l)). split.
  - etrans; [| exact IH]. rewrite (filter_split (fun ch => (tag ch ∉ ts)) (fun ch => tag ch <> t) l).
    rewrite (list_filter_iff (fun ch => tag ch ∉ (t :: ts)) (fun ch => (tag ch ∉ ts) /\ tag ch <> t)) by set_solver.
    rewrite (list_filter_iff (fun ch => (tag ch ∉ ts) /\ ~ tag ch <> t) (fun ch => tag ch = t)) by (intros x; destruct (decide (tag x = t)); set_solver).
    cbn [omap list_omap]. rewrite find_chunk_head. destruct (filter (fun ch => tag ch = t) l) as [| x r]; cbn [head tail app].
    + by rewrite !app_nil_r.
    + solve_Permutation.
  - intros Hnd. rewrite (Hr Hnd). by apply filter_tag_once.
Qed.

Lemma strchr_spec s c : strchr s c = true <-> c = 0 \/ c ∈ s.
Proof.
  unfold strchr. rewrite orb_true_iff, Z.eqb_eq, existsb_exists. split.
  - intros [-> | (x & Hx & ->%Z.eqb_eq)]; [by left | right; by apply list_elem_of_In].
  - intros [-> | Hc]; [by left | right]. exists c. by rewrite <- list_elem_of_In, Z.eqb_refl.
Qed.

Lemma other_chunks_filter bf :
  other_chunks bf = filter (fun ch => tag ch <> 0) (filter (fun ch => tag ch ∉ XILINX_CHUNKS) (loaded bf)).
Proof.
  unfold other_chunks. fold (loaded bf). generalize (loaded bf). intros l. induction l as [| ch l IH]; [done |].
  cbn [List.filter]. rewrite filter_cons. pose proof (strchr_spec XILINX_CHUNKS (tag ch)) as Hs.
  destruct (strchr XILINX_CHUNKS (tag ch)); cbn [negb]; rewrite IH.
  - case_decide; [| done]. rewrite filter_cons_False; [done | naive_solver].
  - rewrite decide_True by naive_solver. by rewrite filter_cons_True by naive_solver.
Qed.

Lemma file_order_perm bf : NoDup (tag <$> loaded bf) -> 0 ∉ (tag <$> loaded bf) -> file_order bf ≡ₚ loaded bf.
Proof.
  intros Hn H0. destruct (chunks_split (loaded bf) XILINX_CHUNKS) as (rest & Hp & Hr); [by apply (bool_decide_unpack _) |].
  rewrite (Hr Hn), app_nil_r in Hp. rewrite <- Hp. unfold file_order. rewrite other_chunks_filter. apply reflexive_eq.
  f_equal. clear -H0. generalize (loaded bf), H0. intros l. induction l as [| ch l IH]; [done |]. cbn [fmap list_fmap].
  intros [Hc Hl]%not_elem_of_cons. rewrite !filter_cons. case_decide; [| by apply IH]. rewrite filter_cons_True by congruence. by rewrite IH.
Qed.

Lemma file_order_length bf : (length (file_order bf) <= length (loaded bf))%nat.
Proof.
  destruct (chunks_split (loaded bf) XILINX_CHUNKS) as (rest & Hp & _); [by apply (bool_decide_unpack _) |].
  rewrite <- Hp. unfold file_order. rewrite other_chunks_filter, !length_app. unfold xilinx_chunks, bitfile_find_chunk, loaded.
  pose proof (length_filter (fun ch => tag ch <> 0) (filter (fun ch => tag ch ∉ XILINX_CHUNKS) (take (num_chunks bf) (chunks bf)))). lia.
Qed.

(** C34: Reading what was written.  A well-formed bitfile is written if the
    disk has room for its image, and reading the file gives its chunks back,
    the chunks a to e first: each chunk once if no tag appears twice (of a
    repeated tag a to e only the first is written) and none is 0. *)
Theorem bitfile_roundtrip bf fname room : bitfile_ok bf -> Forall (fun ch => malloc_ok (len ch) = true) (loaded bf) ->
  Z.of_nat (length (image (file_order bf))) <= room ->
  exists file bf', bitfile_write bf (Disk [] room) = (Ok tt, Disk file (room - Z.of_nat (length file))) /\
    bitfile_read true true fname (Some file) = Some bf' /\
    bitfile_ok bf' /\ filename bf' = Some fname /\ loaded bf' = file_order bf /\
    (NoDup (tag <$> loaded bf) -> 0 ∉ (tag <$> loaded bf) -> loaded bf' ≡ₚ loaded bf).
Proof.
  intros Hok Hm Hroom. exists (image (file_order bf)). pose proof (bitfile_write_run bf (Disk [] room) Hok Hroom) as Hw. cbn [written space app] in Hw.
  pose proof Hok as (Hh & Hlen & Hnum & Hck). pose proof (file_order_length bf) as Hfl. rewrite Forall_forall in Hm, Hck.
  assert (length (loaded bf) <= BITFILE_MAXCHUNKS)%nat as Hll by (unfold loaded; rewrite length_take; lia).
  destruct (read_chunks_image BITFILE_MAXCHUNKS (BitFile None header 0 (replicate BITFILE_MAXCHUNKS no_chunk)) (file_order bf))
    as (bf' & E & Hl & Hcl & Hn & Hhd); [apply Forall_forall; intros ch Hch; by apply Hck, file_order_loaded |
    apply Forall_forall; intros ch Hch; by apply Hm, file_order_loaded | done | done | lia |].
  cbn [app loaded num_chunks take] in Hl. exists {| bf' with filename := Some fname |}. split; [exact Hw |]. split.
  - unfold bitfile_read, bitfile_new. cbn [mbind option_bind]. unfold image.
    change (Z.of_nat BITFILE_HEADERLEN) with (Z.of_nat (length header)). rewrite read_app by (cbn; lia).
    change (length header <? BITFILE_HEADERLEN)%nat with false. cbv iota. rewrite bool_decide_true by done. cbn [negb].
    change (BITFILE_MAXCHUNKS - num_chunks (BitFile None header 0 (replicate BITFILE_MAXCHUNKS no_chunk)))%nat with BITFILE_MAXCHUNKS.
    change {| (BitFile None header 0 (replicate BITFILE_MAXCHUNKS no_chunk)) with bf_header := header |}
      with (BitFile None header 0 (replicate BITFILE_MAXCHUNKS no_chunk)). rewrite E. cbn [mbind option_bind]. done.
  - cbn [num_chunks bf_header] in Hn, Hhd. split_and!; [| done | exact Hl | intros H1 H2; etrans; [apply reflexive_eq; exact Hl | by apply file_order_perm]].
    change (bitfile_ok bf'). split_and!; [congruence | exact Hcl | lia |]. rewrite Hl. apply Forall_forall. intros ch Hch. by apply Hck, file_order_loaded.
Qed.

(** A chunk that is added leaves a well-formed bitfile; so does a failure. *)
Lemma bitfile_add_chunk_ok t n d bf : bitfile_ok bf -> 0 <= n <= Z.of_nat (length d) -> n < 2 ^ 31 ->
  wp (bitfile_add_chunk t n d) (fun _ bf' => bitfile_ok bf' /\ exists b, loaded bf' = loaded bf ++ [Chunk t n (Some b)] /\ b = take (Z.to_nat n) d)
    (fun e bf' => e = -1 /\ bitfile_ok bf' /\ loaded bf' = loaded bf) bf.
Proof.
  intros (Hh & Hl & Hn & Hc) Hnr Hmax. unfold bitfile_add_chunk. destruct (small t && (0xFFFF <? n)) eqn:Hs; [apply wp_raise; split_and!; done |].
  apply wp_bind, wp_get. destruct (Nat.leb_spec (BITFILE_MAXCHUNKS - 1) (num_chunks bf)) as [Hlt | Hlt]; [apply wp_raise; split_and!; done |].
  rewrite wrapu_small by lia. destruct (malloc_ok n); cbn [negb].
  - rewrite (proj2 (Z.leb_le _ _)) by lia. cbn [negb]. apply wp_modify. rewrite loaded_add by (unfold BITFILE_MAXCHUNKS in *; lia). split.
    + split_and!; [done | cbn; by rewrite length_insert | cbn; unfold BITFILE_MAXCHUNKS in *; lia |]. rewrite loaded_add by (unfold BITFILE_MAXCHUNKS in *; lia).
      apply Forall_app. split; [done |]. apply Forall_singleton. exists (take (Z.to_nat n) d). cbn. rewrite length_take. split_and!; [done | lia | lia |].
      intros Hsm. rewrite Hsm in Hs. cbn in Hs. apply Z.ltb_ge in Hs. lia.
    + eexists. done.
  - apply wp_bind, wp_modify, wp_raise.
    assert (forall x, loaded (set_chunk (num_chunks bf) x bf) = loaded bf) as E by (intros x; unfold loaded; cbn; by rewrite take_insert_ge).
    split; [done |]. rewrite E. split; [| done]. split_and!; [done | cbn; by rewrite length_insert | done |]. by rewrite E.
Qed.

End WithMalloc.

(** ** A small bitfile *)
Definition demo : Bitfile.bitfile :=
  Bitfile.BitFile None Bitfile.header 2
    (Bitfile.Chunk 101 3 (Some [1; 2; 3]) :: Bitfile.Chunk 98 2 (Some [120; 0]) :: replicate 48 Bitfile.no_chunk).

Lemma demo_ok : bitfile_ok demo.
Proof.
  split_and!; [done | done | cbn; unfold Bitfile.BITFILE_MAXCHUNKS; lia |].
  repeat constructor; eexists; (split; [reflexivity |]); split_and!; cbn; (done || lia).
Qed.

Lemma bitfile_roundtrip_witness : exists file bf',
  Bitfile.bitfile_write demo (Bitfile.Disk [] 100) = (Ok tt, Bitfile.Disk file (100 - Z.of_nat (length file))) /\
  Bitfile.bitfile_read (H := fun _ => true) true true "x.bit" (Some file) = Some bf' /\
  loaded bf' = [Bitfile.Chunk 98 2 (Some [120; 0]); Bitfile.Chunk 101 3 (Some [1; 2; 3])].
Proof.
  destruct (bitfile_roundtrip (H := fun _ => true) demo "x.bit" 100 demo_ok) as (file & bf' & Hw & Hr & _ & _ & Hl & _).
  - repeat constructor.
  - vm_compute. discriminate.
  - exists file, bf'. split; [exact Hw |]. split; [exact Hr | exact Hl].
Defined.
