(* ===== verification/FirmwareTheorems.v ===== *)
(** * Theorems about the driver's parser of FPGA configuration files

    It never looks outside of the file, whatever the file holds; it accepts
    the files that [bitfile_write] writes and finds their chunks; a chunk with
    a length of 2^31 and more can make it run forever. *)
From S2P Require Import Prelude Bitfile BitfileTheorems.
Import Firmware.

(** ** Staying inside *)
Section Parser.
Context (fw : list Z) (Hbytes : Forall (fun b => 0 <= b < 256) fw) (Hsize : fw_size fw < 2 ^ 31).

Lemma wp_byte {S} k (Q : Z -> S -> Prop) E s : 0 <= k < fw_size fw ->
  (forall b, fw !! Z.to_nat k = Some b -> 0 <= b < 256 -> Q b s) -> wp (byte fw k) Q E s.
Proof.
  intros Hk HQ. unfold byte. rewrite (proj2 (Z.ltb_ge k 0)) by lia. unfold fw_size in Hk.
  destruct (lookup_lt_is_Some_2 fw (Z.to_nat k)) as [b Hb]; [lia |]. rewrite Hb. apply wp_ret, HQ; [done |].
  by eapply Forall_lookup_1 in Hbytes.
Qed.

Lemma beyond_spec k : - 2 ^ 31 <= k < 2 ^ 32 -> beyond fw k = false -> 0 <= k <= fw_size fw.
Proof.
  intros Hk. unfold beyond. rewrite Z.ltb_ge. unfold wrapu, wraps. change (2 ^ (32 - 1)) with (2 ^ 31).
  Z.div_mod_to_equations. lia.
Qed.

(** What the parser may say of a string chunk, and of the configuration. *)
Definition string_in (c : bitfile_chunk_t) : Prop :=
  match data c with None => True | Some o => 0 <= o /\ 0 <= size c /\ o + size c <= fw_size fw /\ fw !! Z.to_nat (o + size c - 1) = Some 0 end.
Definition config_in (c : bitfile_chunk_t) : Prop :=
  match data c with None => True | Some o => 0 <= o <= fw_size fw /\ 0 <= o + size c <= fw_size fw end.
Definition file_in (b : bitfile_t) : Prop := string_in (fa b) /\ string_in (fb b) /\ string_in (fc b) /\ string_in (fd b) /\ config_in (fe b).

Lemma wp_small i b E : 0 <= i <= fw_size fw -> (forall e, E e b) ->
  wp (bitfile_do_small_chunk fw i) (fun ci b' => b' = b /\ string_in (fst ci) /\ 0 <= snd ci <= fw_size fw) E b.
Proof.
  intros Hi HE. unfold bitfile_do_small_chunk. destruct (beyond fw (i + 2)) eqn:E2; [by apply wp_raise |].
  apply beyond_spec in E2; [| lia].
  apply wp_bind, wp_byte; [lia |]. intros h Hh Hhr. apply wp_bind, wp_byte; [lia |]. intros l Hl Hlr. cbv zeta.
  destruct (beyond fw (i + 2 + (h * 256 + l))) eqn:E3; [by apply wp_raise |]. apply beyond_spec in E3; [| lia].
  apply wp_bind, wp_byte; [lia |]. intros z Hz _. destruct (Z.eqb_spec z 0) as [-> |]; cbn [negb]; [| by apply wp_raise].
  apply wp_ret. cbn [fst snd]. split_and!; [done | | |]; try (rewrite wraps_small by lia; lia).
  unfold string_in. cbn [data size]. split_and!; (lia || exact Hz).
Qed.

Lemma wp_big i b E : 0 <= i <= fw_size fw -> (forall e, E e b) ->
  wp (bitfile_do_big_chunk fw i) (fun ci b' => b' = b /\ config_in (fst ci) /\ 0 <= snd ci <= fw_size fw) E b.
Proof.
  intros Hi HE. unfold bitfile_do_big_chunk. destruct (beyond fw (i + 4)) eqn:E2; [by apply wp_raise |].
  apply beyond_spec in E2; [| lia].
  do 4 (apply wp_bind, wp_byte; [lia |]; intros ? _ _). cbv zeta.
  match goal with |- context [i + 4 + wraps 32 ?x] => pose proof (wraps_range 32 x ltac:(lia)) as Hn; generalize dependent (wraps 32 x) end.
  intros n Hn. destruct (beyond fw (i + 4 + n)) eqn:E3; [by apply wp_raise |]. apply beyond_spec in E3; [| lia].
  apply wp_ret. cbn [fst snd]. rewrite wraps_small by lia. split_and!; [done | | lia | lia].
  unfold config_in. cbn [data size]. lia.
Qed.

Lemma wp_chunk i b E : 0 <= i < fw_size fw -> file_in b -> (forall e b', file_in b' -> E e b') ->
  wp (bitfile_parse_and_verify_chunk fw i) (fun i' b' => file_in b' /\ 0 <= i' <= fw_size fw) E b.
Proof.
  intros Hi Hb HE. unfold bitfile_parse_and_verify_chunk. apply wp_bind, wp_byte; [done |]. intros t _ _. cbv zeta.
  rewrite wraps_small by lia. destruct (beyond fw (i + 1)) eqn:E1; [apply wp_raise; auto |].
  destruct Hb as (Ha & Hb & Hc & Hd & He).
  repeat match goal with |- wp (if ?c then _ else _) _ _ _ => destruct c end; try (apply wp_raise, HE; unfold file_in; tauto);
    (apply wp_bind; eapply wp_mono; [first [apply wp_small | apply wp_big]; [lia | intros e; apply HE; unfold file_in; tauto] | | done];
     intros [c i'] b' (-> & Hci & Hi'); cbn [fst snd] in *; apply wp_bind, wp_modify, wp_ret; unfold file_in; cbn; tauto).
Qed.

Lemma wp_chunks fuel i b E : 0 <= i <= fw_size fw -> file_in b -> (forall e b', file_in b' -> E e b') ->
  wp (parse_chunks fw fuel i) (fun _ b' => file_in b') E b.
Proof.
  revert i b. induction fuel as [| fuel IH]; intros i b Hi Hb HE; cbn [parse_chunks]; [done |].
  rewrite wrapu_small by lia. destruct (Z.ltb_spec i (fw_size fw)); [| done]. apply wp_bind.
  eapply wp_mono; [apply wp_chunk; [lia | done | exact HE] | | done]. intros i' b' [Hb' Hi']. by apply IH.
Qed.

(** C36: The parser never looks outside of the firmware, whatever it holds and
    as long as it runs; the chunks it has found lie inside, and the names are
    terminated. *)
Theorem firmware_safe fuel b : wp (bitfile_parse_and_verify fw fuel) (fun _ b' => file_in b') (fun _ b' => file_in b') b.
Proof.
  assert (file_in (FBitFile empty_chunk empty_chunk empty_chunk empty_chunk empty_chunk)) as H0 by (unfold file_in; cbn; tauto).
  unfold bitfile_parse_and_verify. apply wp_bind.
  unfold put, wp at 1. destruct (_ <? _) eqn:Hl; [exact H0 |]. apply Z.ltb_ge in Hl. destruct (negb _); [exact H0 |].
  apply wp_bind. eapply (wp_mono _ _ _ (fun _ b' => file_in b')); [apply wp_chunks; [cbn in *; lia | exact H0 | done] | | done]. intros ended b' Hb'.
  destruct (negb ended); [done |]. apply wp_bind, wp_get. repeat case_match; done.
Qed.
End Parser.

(** ** Accepting what [bitfile_write] writes *)
Section Accept.
Context (fw : list Z) (Hsize : fw_size fw < 2 ^ 31).

Lemma byte_run {S} k x (s : S) : 0 <= k -> fw !! Z.to_nat k = Some x -> byte fw k s = (Ok x, s).
Proof. intros Hk Hx. unfold byte. rewrite (proj2 (Z.ltb_ge k 0)) by lia. by rewrite Hx. Qed.

Lemma beyond_inside k : 0 <= k <= fw_size fw -> beyond fw k = false.
Proof. intros Hk. unfold beyond. rewrite wraps_small, wrapu_small by lia. apply Z.ltb_ge. lia. Qed.

Definition string_chunk (ch : Bitfile.bitfile_chunk) : Prop :=
  Bitfile.tag ch = 101 \/ Bitfile.body ch = Some [] \/ exists b, Bitfile.body ch = Some b /\ last b = Some 0.

Definition place (t : Z) (c : bitfile_chunk_t) (b : bitfile_t) : bitfile_t :=
  if t =? 97 then {| b with fa := c |} else if t =? 98 then {| b with fb := c |} else if t =? 99 then {| b with fc := c |}
  else if t =? 100 then {| b with fd := c |} else if t =? 101 then {| b with fe := c |} else b.
Definition field (t : Z) (b : bitfile_t) : bitfile_chunk_t :=
  if t =? 97 then fa b else if t =? 98 then fb b else if t =? 99 then fc b else if t =? 100 then fd b else fe b.

(** The chunk [ch] is at hand. *)
Definition stored (c : bitfile_chunk_t) (ch : Bitfile.bitfile_chunk) : Prop :=
  exists o, c = FChunk (Bitfile.len ch) (Some o) /\ 0 <= o /\
    Bitfile.body ch = Some (take (Z.to_nat (Bitfile.len ch)) (drop (Z.to_nat o) fw)).

Lemma lookup_at pre ch post j x : fw = pre ++ encode ch ++ post -> (encode ch ++ post) !! j = Some x ->
  fw !! Z.to_nat (Z.of_nat (length pre) + Z.of_nat j) = Some x.
Proof. intros -> Hx. rewrite lookup_app_r by lia. by replace (Z.to_nat _ - length pre)%nat with j by lia. Qed.

Lemma byte_at {S} pre ch post j k x (s : S) : fw = pre ++ encode ch ++ post -> (encode ch ++ post) !! j = Some x ->
  k = Z.of_nat (length pre) + Z.of_nat j -> byte fw k s = (Ok x, s).
Proof. intros Hfw Hx ->. apply byte_run; [lia |]. by eapply lookup_at. Qed.

Lemma small_run pre ch post b : fw = pre ++ encode ch ++ post -> chunk_ok ch -> Bitfile.small (Bitfile.tag ch) = true ->
  Bitfile.tag ch <> 101 -> string_chunk ch ->
  bitfile_do_small_chunk fw (Z.of_nat (length pre) + 1) b =
    (Ok (FChunk (Bitfile.len ch) (Some (Z.of_nat (length pre) + 3)), Z.of_nat (length pre) + 3 + Bitfile.len ch), b).
Proof.
  intros Hfw (body & Hb & Hl & Hmax & Hsm) Hs Ht Hstr. specialize (Hsm Hs).
  assert (fw_size fw = Z.of_nat (length pre) + 3 + Bitfile.len ch + Z.of_nat (length post)) as Hsz.
  { unfold fw_size. rewrite Hfw. unfold encode, Bitfile.length_bytes. rewrite Hb, Hs. cbn. rewrite !length_app. cbn. rewrite length_app. change (id body) with body. lia. }
  assert (forall j k x, (encode ch ++ post) !! j = Some x -> k = Z.of_nat (length pre) + Z.of_nat j -> byte fw k b = (Ok x, b)) as Hat
    by (intros j k x; by apply byte_at).
  assert (encode ch ++ post = Bitfile.tag ch :: Z.land (Z.shiftr (Bitfile.len ch) 8) 0xFF :: Z.land (Bitfile.len ch) 0xFF :: body ++ post) as Henc
    by (unfold encode, Bitfile.length_bytes; rewrite Hb, Hs; done).
  rewrite Henc in Hat. rewrite !land_ff, Z.shiftr_div_pow2 in Hat by lia. clear Henc.
  unfold bitfile_do_small_chunk. rewrite beyond_inside by lia. unfold mbind, M_bind.
  erewrite (Hat 1%nat); [| reflexivity | lia].
  erewrite (Hat 2%nat); [| reflexivity | lia].
  replace (Bitfile.len ch / 2 ^ 8 mod 256 * 256 + Bitfile.len ch mod 256) with (Bitfile.len ch) by (Z.div_mod_to_equations; lia).
  cbv zeta. replace (Z.of_nat (length pre) + 1 + 2) with (Z.of_nat (length pre) + 3) by lia. rewrite beyond_inside by lia.
  assert (byte fw (Z.of_nat (length pre) + 3 + Bitfile.len ch - 1) b = (Ok 0, b)) as Hz.
  { destruct Hstr as [? | [He | (b' & He & Hlast)]]; [done | |].
    - rewrite Hb in He. injection He as ->. cbn [length] in Hl. rewrite Hl in Hat |- *. apply (Hat 2%nat); [reflexivity | lia].
    - rewrite Hb in He. injection He as <-. rewrite last_lookup in Hlast. pose proof (lookup_lt_Some _ _ _ Hlast) as Hlt.
      apply (Hat (3 + pred (length body))%nat); [| lia]. cbn [lookup list_lookup Nat.add]. by apply lookup_app_l_Some. }
  rewrite Hz. cbn [Z.eqb negb]. unfold mret, M_ret. rewrite wraps_small by lia. done.
Qed.

Lemma big_run pre ch post b : fw = pre ++ encode ch ++ post -> chunk_ok ch -> Bitfile.tag ch = 101 ->
  bitfile_do_big_chunk fw (Z.of_nat (length pre) + 1) b =
    (Ok (FChunk (Bitfile.len ch) (Some (Z.of_nat (length pre) + 5)), Z.of_nat (length pre) + 5 + Bitfile.len ch), b).
Proof.
  intros Hfw (body & Hb & Hl & Hmax & _) Ht. assert (Bitfile.small (Bitfile.tag ch) = false) as Hs by (by rewrite Ht).
  assert (fw_size fw = Z.of_nat (length pre) + 5 + Bitfile.len ch + Z.of_nat (length post)) as Hsz.
  { unfold fw_size. rewrite Hfw. unfold encode, Bitfile.length_bytes. rewrite Hb, Hs. cbn. rewrite !length_app. cbn. rewrite length_app. change (id body) with body. lia. }
  assert (forall j k x, (encode ch ++ post) !! j = Some x -> k = Z.of_nat (length pre) + Z.of_nat j -> byte fw k b = (Ok x, b)) as Hat
    by (intros j k x; by apply byte_at).
  unfold encode, Bitfile.length_bytes in Hat. rewrite Hb, Hs in Hat. rewrite !land_ff, !Z.shiftr_div_pow2 in Hat by lia.
  unfold bitfile_do_big_chunk. rewrite beyond_inside by lia. unfold mbind, M_bind.
  erewrite (Hat 1%nat); [| reflexivity | lia].
  erewrite (Hat 2%nat); [| reflexivity | lia].
  erewrite (Hat 3%nat); [| reflexivity | lia].
  erewrite (Hat 4%nat); [| reflexivity | lia]. cbv zeta.
  assert (forall x, 0 <= x mod 256 < 256) as Hm by (intros x; apply Z.mod_pos_bound; lia).
  rewrite !Z.shiftl_mul_pow2 by lia. pose proof (Hm (Bitfile.len ch / 2 ^ 24)). pose proof (Hm (Bitfile.len ch / 2 ^ 16)). pose proof (Hm (Bitfile.len ch / 2 ^ 8)).
  rewrite !(wrapu_small 32) by lia. rewrite (wraps_small 32 (_ + _)) by (Z.div_mod_to_equations; lia).
  match goal with |- context [FChunk ?x _] => replace x with (Bitfile.len ch) by (Z.div_mod_to_equations; lia) end.
  replace (Z.of_nat (length pre) + 1 + 4) with (Z.of_nat (length pre) + 5) by lia. rewrite beyond_inside by lia.
  unfold mret, M_ret. rewrite wraps_small by lia. done.
Qed.

Lemma encode_length ch : chunk_ok ch -> Z.of_nat (length (encode ch)) = 1 + Z.of_nat (Bitfile.len_len (Bitfile.tag ch)) + Bitfile.len ch.
Proof.
  intros (b & Hb & Hl & _). unfold encode. rewrite Hb. cbn [length]. rewrite length_app, length_bytes_length. cbn. change (id b) with b. lia.
Qed.

Lemma chunk_run pre ch post b : fw = pre ++ encode ch ++ post -> chunk_ok ch -> Bitfile.tag ch ∈ Bitfile.XILINX_CHUNKS -> string_chunk ch ->
  exists c, bitfile_parse_and_verify_chunk fw (Z.of_nat (length pre)) b = (Ok (Z.of_nat (length (pre ++ encode ch))), place (Bitfile.tag ch) c b) /\
    stored c ch.
Proof.
  intros Hfw Hok Ht Hstr. pose proof (encode_length ch Hok) as Hen. pose proof Hok as (body & Hb & Hl & _).
  assert (fw_size fw = Z.of_nat (length pre) + Z.of_nat (length (encode ch)) + Z.of_nat (length post)) as Hsz
    by (unfold fw_size; rewrite Hfw, !length_app; lia).
  exists (FChunk (Bitfile.len ch) (Some (Z.of_nat (length pre) + 1 + Z.of_nat (Bitfile.len_len (Bitfile.tag ch))))). split.
  - unfold bitfile_parse_and_verify_chunk, mbind, M_bind. rewrite (byte_at pre ch post 0 _ (Bitfile.tag ch)) by (done || lia). cbv zeta.
    rewrite wraps_small, beyond_inside by lia.
    assert (Bitfile.tag ch = 101 \/ Bitfile.tag ch ∈ Bitfile.BITFILE_SMALLCHUNKS) as [He | Hs]
      by (revert Ht; clear; unfold Bitfile.XILINX_CHUNKS, Bitfile.BITFILE_SMALLCHUNKS; set_solver).
    + rewrite He in *. change (Z.of_nat (Bitfile.len_len 101)) with 4 in *. cbn [Z.eqb Pos.eqb].
      rewrite (big_run pre ch post), length_app by done. unfold modify, mret, M_ret.
      replace (Z.of_nat (length pre + length (encode ch))) with (Z.of_nat (length pre) + 5 + Bitfile.len ch) by lia.
      by replace (Z.of_nat (length pre) + 1 + 4) with (Z.of_nat (length pre) + 5) by lia.
    + assert (Bitfile.small (Bitfile.tag ch) = true) as Hsm by (apply strchr_spec; by right).
      assert (Bitfile.tag ch <> 101) as Hne by (intros E; by rewrite E in Hsm).
      pose proof (small_run pre ch post b Hfw Hok Hsm Hne Hstr) as Hrun.
      unfold Bitfile.len_len in *. rewrite Hsm in *. rewrite length_app.
      replace (Z.of_nat (length pre + length (encode ch))) with (Z.of_nat (length pre) + 3 + Bitfile.len ch) by lia.
      replace (Z.of_nat (length pre) + 1 + Z.of_nat 2) with (Z.of_nat (length pre) + 3) by lia.
      revert Hs. unfold Bitfile.BITFILE_SMALLCHUNKS. rewrite !elem_of_cons, elem_of_nil.
      intros [E | [E | [E | [E | []]]]]; rewrite E; cbn [Z.eqb Pos.eqb]; by rewrite Hrun.
  - eexists. split; [reflexivity |]. split; [lia |]. rewrite Hb, Hfw. f_equal. unfold encode. rewrite Hb. change (default [] (Some body)) with body.
    replace (pre ++ (Bitfile.tag ch :: Bitfile.length_bytes (Bitfile.tag ch) (Bitfile.len ch) ++ body) ++ post)
      with ((pre ++ Bitfile.tag ch :: Bitfile.length_bytes (Bitfile.tag ch) (Bitfile.len ch)) ++ body ++ post)
      by (rewrite <- app_assoc; cbn [app]; by rewrite <- app_assoc).
    rewrite drop_app_length' by (rewrite length_app; cbn [length]; rewrite length_bytes_length; lia). by rewrite take_app_length' by lia.
Qed.

Lemma field_place t u c b : t ∈ Bitfile.XILINX_CHUNKS -> u ∈ Bitfile.XILINX_CHUNKS -> field t (place u c b) = if t =? u then c else field t b.
Proof.
  unfold Bitfile.XILINX_CHUNKS. rewrite !elem_of_cons, !elem_of_nil.
  intros [-> | [-> | [-> | [-> | [-> |]]]]] [-> | [-> | [-> | [-> | [-> |]]]]]; done.
Qed.

Lemma chunks_run l pre b fuel : fw = pre ++ flat_map encode l -> Forall chunk_ok l -> Forall (fun ch => Bitfile.tag ch ∈ Bitfile.XILINX_CHUNKS) l ->
  Forall string_chunk l -> NoDup (Bitfile.tag <$> l) -> (length l < fuel)%nat ->
  exists b', parse_chunks fw fuel (Z.of_nat (length pre)) b = (Ok true, b') /\
    forall t, t ∈ Bitfile.XILINX_CHUNKS -> match Bitfile.find_chunk l t 0 with Some ch => stored (field t b') ch | None => field t b' = field t b end.
Proof.
  revert pre b fuel. induction l as [| ch l IH]; intros pre b [| fuel] Hfw Hok Ht Hs Hn Hf; cbn [length] in Hf; try lia; cbn [parse_chunks flat_map] in *.
  - exists b. assert (fw_size fw = Z.of_nat (length pre)) as Hsz by (unfold fw_size; rewrite Hfw, app_nil_r; done).
    rewrite Hsz, wrapu_small, Z.ltb_irrefl by lia. done.
  - apply Forall_cons in Hok as [Hok Hoks], Ht as [Ht Hts], Hs as [Hs Hss]. cbn [fmap list_fmap] in Hn. apply NoDup_cons in Hn as [Hnin Hn].
    destruct (chunk_run pre ch (flat_map encode l) b Hfw Hok Ht Hs) as (c & Hrun & Hst).
    pose proof (encode_length ch Hok) as Hen. pose proof Hok as (body & _ & Hl & _).
    assert (fw_size fw = Z.of_nat (length pre) + Z.of_nat (length (encode ch)) + Z.of_nat (length (flat_map encode l))) as Hsz
      by (unfold fw_size; rewrite Hfw, !length_app; lia).
    rewrite wrapu_small, (proj2 (Z.ltb_lt _ _)) by lia. unfold mbind, M_bind. rewrite Hrun.
    destruct (IH (pre ++ encode ch) (place (Bitfile.tag ch) c b) fuel) as (b' & Hb' & Hfd); [by rewrite <- app_assoc | done | done | done | done | lia |].
    exists b'. split; [exact Hb' |]. intros t Htx. specialize (Hfd t Htx). cbn [Bitfile.find_chunk].
    rewrite field_place in Hfd by done. rewrite Z.eqb_sym in Hfd. destruct (Z.eqb_spec (Bitfile.tag ch) t) as [Et |]; [subst t | exact Hfd].
    cbn [Z.eqb]. destruct (Bitfile.find_chunk l (Bitfile.tag ch) 0) as [ch' |] eqn:E; [| by rewrite Hfd].
    exfalso. apply Hnin. apply find_chunk_spec in E as [Hin <-]. by apply list_elem_of_fmap_2.
Qed.

End Accept.

Lemma find_xilinx l ts t : NoDup ts -> t ∈ ts ->
  Bitfile.find_chunk (omap (fun t => Bitfile.find_chunk l t 0) ts) t 0 = Bitfile.find_chunk l t 0.
Proof.
  assert (forall us, t ∉ us -> Bitfile.find_chunk (omap (fun t => Bitfile.find_chunk l t 0) us) t 0 = None) as Hno.
  { induction us as [| u us IH]; [done |]. intros [Hu Hus]%not_elem_of_cons. cbn. destruct (Bitfile.find_chunk l u 0) as [ch |] eqn:E; [| by apply IH].
    apply find_chunk_spec in E as [_ E]. cbn. destruct (Z.eqb_spec (Bitfile.tag ch) t); [congruence | by apply IH]. }
  induction 1 as [| u ts Hu Hts IH]; [by intros ?%elem_of_nil |]. intros [-> | Ht]%elem_of_cons; cbn.
  - destruct (Bitfile.find_chunk l u 0) as [ch |] eqn:E; [| by apply Hno].
    apply find_chunk_spec in E as [_ E]. cbn. by rewrite E, Z.eqb_refl.
  - destruct (Bitfile.find_chunk l u 0) as [ch |] eqn:E; [| by apply IH].
    apply find_chunk_spec in E as [_ E]. cbn. destruct (Z.eqb_spec (Bitfile.tag ch) t); [congruence | by apply IH].
Qed.

Lemma xilinx_nodup l ts : NoDup ts -> NoDup (Bitfile.tag <$> omap (fun t => Bitfile.find_chunk l t 0) ts).
Proof.
  induction 1 as [| u ts Hu Hts IH]; [constructor |]. cbn. destruct (Bitfile.find_chunk l u 0) as [ch |] eqn:E; [| done].
  cbn. apply NoDup_cons. split; [| done]. apply find_chunk_spec in E as [_ E]. rewrite list_elem_of_fmap. intros (ch' & E' & Hin).
  apply list_elem_of_omap in Hin as (v & Hv & Hf). apply find_chunk_spec in Hf as [_ Hf]. congruence.
Qed.

(** C35: The driver accepts what [bitfile_write] writes.  A bitfile of chunks
    a to e with terminated names, a part name and a configuration is accepted
    in a number of steps no larger than the file; the chunk found for each
    tag is the first one of the bitfile. *)
Theorem firmware_accepts bf room b : bitfile_ok bf ->
  Forall (fun ch => Bitfile.tag ch ∈ Bitfile.XILINX_CHUNKS /\ string_chunk ch) (loaded bf) ->
  Bitfile.bitfile_find_chunk bf 98 0 <> None -> Bitfile.bitfile_find_chunk bf 101 0 <> None ->
  Z.of_nat (length (image (file_order bf))) < 2 ^ 31 -> Z.of_nat (length (image (file_order bf))) <= room ->
  exists file rest b', Bitfile.bitfile_write bf (Bitfile.Disk [] room) = (Ok tt, Bitfile.Disk file rest) /\
    bitfile_parse_and_verify file (length file) b = (Ok true, b') /\
    forall t, t ∈ Bitfile.XILINX_CHUNKS ->
      match Bitfile.bitfile_find_chunk bf t 0 with Some ch => stored file (field t b') ch | None => field t b' = empty_chunk end.
Proof.
  intros Hok Hall Hb He Hmax Hroom. exists (image (file_order bf)). rewrite Forall_forall in Hall.
  pose proof Hok as (_ & _ & _ & Hck). rewrite Forall_forall in Hck.
  assert (file_order bf = Bitfile.xilinx_chunks bf) as Hfo.
  { unfold file_order. rewrite other_chunks_filter, (filter_none _ (loaded bf)); [by rewrite app_nil_r |].
    intros ch Hch Hn. by apply Hn, Hall. }
  pose proof (file_order_loaded bf) as Hin. eexists.
  destruct (chunks_run (image (file_order bf)) Hmax (file_order bf) Bitfile.header (FBitFile empty_chunk empty_chunk empty_chunk empty_chunk empty_chunk)
    (length (image (file_order bf)))) as (b' & Hrun & Hfd); [done | | | | | |].
  1-3: apply Forall_forall; intros ch Hch; by (apply Hck || apply Hall); apply Hin.
  { rewrite Hfo. apply xilinx_nodup. by apply (bool_decide_unpack _). }
  { unfold image. rewrite length_app. clear. induction (file_order bf) as [| ch l IH]; cbn in *; [lia |]. rewrite length_app. lia. }
  exists b'. split; [exact (bitfile_write_run bf (Bitfile.Disk [] room) Hok Hroom) |].
  assert (forall t, t ∈ Bitfile.XILINX_CHUNKS ->
    match Bitfile.bitfile_find_chunk bf t 0 with Some ch => stored (image (file_order bf)) (field t b') ch | None => field t b' = empty_chunk end) as Hres.
  { intros t Ht. specialize (Hfd t Ht). assert (Bitfile.find_chunk (file_order bf) t 0 = Bitfile.bitfile_find_chunk bf t 0) as Heq
      by (rewrite Hfo; apply find_xilinx; [by apply (bool_decide_unpack _) | done]).
    rewrite Heq in Hfd. destruct (Bitfile.bitfile_find_chunk bf t 0); [exact Hfd |].
    rewrite Hfd. revert Ht. clear. unfold Bitfile.XILINX_CHUNKS. rewrite !elem_of_cons, elem_of_nil.
    intros [-> | [-> | [-> | [-> | [-> |]]]]]; done. }
  split; [| exact Hres]. unfold bitfile_parse_and_verify, mbind, M_bind, put.
  rewrite (proj2 (Z.ltb_ge (fw_size _) _)) by (unfold fw_size, image; rewrite length_app; change (length Bitfile.header) with 13%nat; change (Z.of_nat Bitfile.BITFILE_HEADERLEN) with 13; lia).
  rewrite bool_decide_true by done. cbn [negb]. change (length Bitfile.header) with Bitfile.BITFILE_HEADERLEN in Hrun.
  rewrite Hrun. cbn [negb get]. pose proof (Hres 98 ltac:(by apply (bool_decide_unpack _))) as Hrb. pose proof (Hres 101 ltac:(by apply (bool_decide_unpack _))) as Hre.
  destruct (Bitfile.bitfile_find_chunk bf 98 0) as [cb |]; [| done]. destruct (Bitfile.bitfile_find_chunk bf 101 0) as [ce |]; [| done].
  destruct Hrb as (ob & Hrb & _), Hre as (oe & Hre & _). cbn in Hrb, Hre. unfold get, mret, M_ret. rewrite Hrb, Hre. done.
Qed.

(** ** A chunk of negative length *)
Lemma negative_run rest b : Z.of_nat (length rest) < 2 ^ 31 - 18 -> exists c,
  bitfile_parse_and_verify_chunk (Bitfile.header ++ 101 :: 255 :: 255 :: 255 :: 251 :: rest) 13 b = (Ok 13, {| b with fe := c |}).
Proof.
  intros Hr. eexists. set (fw := Bitfile.header ++ _).
  assert (fw_size fw = 18 + Z.of_nat (length rest)) as Hsz by (unfold fw, fw_size; rewrite length_app; cbn; lia).
  unfold bitfile_parse_and_verify_chunk, mbind, M_bind. rewrite (byte_run fw 13 101) by done. cbv zeta.
  change (s32 (13 + 1)) with 14. rewrite beyond_inside by lia. cbn [Z.eqb Pos.eqb]. unfold bitfile_do_big_chunk.
  change (14 + 4) with 18. rewrite beyond_inside by lia. unfold mbind, M_bind.
  rewrite (byte_run fw 14 255), (byte_run fw 15 255), (byte_run fw 16 255), (byte_run fw 17 251) by done. cbv zeta.
  change (s32 (u32 (255 ≪ 24) + u32 (255 ≪ 16) + u32 (255 ≪ 8) + 251)) with (-5). change (18 + -5) with 13.
  rewrite beyond_inside by lia. reflexivity.
Qed.

(** A configuration chunk with the length 2^32 - 5 directly behind the
    header takes the parser back to its own tag: it never ends, whatever
    follows. *)
Theorem negative_chunk_loops rest fuel b : Z.of_nat (length rest) < 2 ^ 31 - 18 -> exists b',
  bitfile_parse_and_verify (Bitfile.header ++ 101 :: 255 :: 255 :: 255 :: 251 :: rest) fuel b = (Ok false, b').
Proof.
  intros Hr. unfold bitfile_parse_and_verify, mbind, M_bind, put.
  assert (fw_size (Bitfile.header ++ 101 :: 255 :: 255 :: 255 :: 251 :: rest) = 18 + Z.of_nat (length rest)) as Hsz
    by (unfold fw_size; rewrite length_app; cbn; lia).
  rewrite Hsz, (proj2 (Z.ltb_ge _ _)) by (change (Z.of_nat Bitfile.BITFILE_HEADERLEN) with 13; lia).
  rewrite bool_decide_true by done. cbn [negb]. change (Z.of_nat Bitfile.BITFILE_HEADERLEN) with 13.
  generalize (FBitFile empty_chunk empty_chunk empty_chunk empty_chunk empty_chunk). intros b0.
  assert (exists b', parse_chunks (Bitfile.header ++ 101 :: 255 :: 255 :: 255 :: 251 :: rest) fuel 13 b0 = (Ok false, b')) as (b' & ->).
  { revert b0. induction fuel as [| fuel IH]; intros b0; [by eexists |]. cbn [parse_chunks].
    rewrite Hsz, wrapu_small, (proj2 (Z.ltb_lt _ _)) by lia.
    destruct (negative_run rest b0 Hr) as (c & Hc). unfold mbind, M_bind. rewrite Hc. apply IH. }
  by exists b'.
Qed.

(** ** Concrete files *)
Lemma firmware_safe_witness : Firmware.fw_size [0; 9] < 2 ^ 31 /\
  wp (bitfile_parse_and_verify [0; 9] 5) (fun _ b => file_in [0; 9] b) (fun _ b => file_in [0; 9] b)
    (FBitFile empty_chunk empty_chunk empty_chunk empty_chunk empty_chunk).
Proof.
  split; [reflexivity |]. apply (firmware_safe [0; 9]); [| reflexivity]. repeat constructor; discriminate.
Defined.

Lemma firmware_accepts_witness : exists file rest b', Bitfile.bitfile_write demo (Bitfile.Disk [] 100) = (Ok tt, Bitfile.Disk file rest) /\
  bitfile_parse_and_verify file (length file) (FBitFile empty_chunk empty_chunk empty_chunk empty_chunk empty_chunk) = (Ok true, b') /\
  stored file (fb b') (Bitfile.Chunk 98 2 (Some [120; 0])) /\ stored file (fe b') (Bitfile.Chunk 101 3 (Some [1; 2; 3])) /\ fa b' = empty_chunk.
Proof.
  destruct (firmware_accepts demo 100 (FBitFile empty_chunk empty_chunk empty_chunk empty_chunk empty_chunk) demo_ok) as (file & rest & b' & Hw & Hp & Hf).
  - apply Forall_cons. split; [split; [by apply (bool_decide_unpack _) | by left] |]. apply Forall_singleton.
    split; [by apply (bool_decide_unpack _) |]. right. right. by eexists.
  - done.
  - done.
  - reflexivity.
  - vm_compute. discriminate.
  - exists file, rest, b'. split; [exact Hw |]. split; [exact Hp |].
    split; [exact (Hf 98 ltac:(by apply (bool_decide_unpack _))) |]. split; [exact (Hf 101 ltac:(by apply (bool_decide_unpack _))) |].
    exact (Hf 97 ltac:(by apply (bool_decide_unpack _))).
Defined.

Lemma negative_chunk_loops_witness : exists b',
  bitfile_parse_and_verify (Bitfile.header ++ [101; 255; 255; 255; 251]) 1000 (FBitFile empty_chunk empty_chunk empty_chunk empty_chunk empty_chunk) = (Ok false, b').
Proof. apply (negative_chunk_loops []). reflexivity. Defined.

(** The table of the bit order is what its name says. *)
Lemma reverse_bits_spec d i : 0 <= d < 256 -> 0 <= i < 8 -> Z.testbit (bitfile_reverse_bits d) i = Z.testbit d (7 - i).
Proof.
  intros Hd Hi.
  assert (forallb (fun d => forallb (fun i => Bool.eqb (Z.testbit (bitfile_reverse_bits (Z.of_nat d)) (Z.of_nat i)) (Z.testbit (Z.of_nat d) (7 - Z.of_nat i)))
    (seq 0 8)) (seq 0 256) = true) as H by (vm_compute; reflexivity).
  rewrite forallb_forall in H. specialize (H (Z.to_nat d)). rewrite in_seq in H. specialize (H ltac:(lia)).
  rewrite forallb_forall in H. specialize (H (Z.to_nat i)). rewrite in_seq in H. specialize (H ltac:(lia)).
  rewrite !Z2Nat.id in H by lia. by apply Bool.eqb_prop.
Qed.
