(* ===== verification/CString.v ===== *)
(** * Strings of the C library

    A NUL-terminated string is a [string] without NUL.  The conversions are
    those of the "C" locale with 64-bit [long]; they return the value and the
    rest of the string, as through the [endptr] argument. *)
From Stdlib Require Import Ascii.
From S2P Require Import Prelude Double.

Definition code (c : ascii) : Z := Z.of_N (N_of_ascii c).
Definition chr (z : Z) : ascii := ascii_of_N (Z.to_N z).

Definition isspace (c : ascii) : bool := (code c =? 32) || ((9 <=? code c) && (code c <=? 13)).
Definition isdigit (c : ascii) : bool := (48 <=? code c) && (code c <=? 57).
Definition tolower (c : ascii) : ascii :=
  if (65 <=? code c) && (code c <=? 90) then chr (code c + 32) else c.

Fixpoint str_take (n : nat) (s : string) : string :=
  match n, s with S n, String c s => String c (str_take n s) | _, _ => EmptyString end.
Fixpoint str_drop (n : nat) (s : string) : string :=
  match n, s with S n, String _ s => str_drop n s | _, _ => s end.

Definition first_is (p : ascii -> bool) (s : string) : bool :=
  match s with String c _ => p c | EmptyString => false end.

Fixpoint str_mem (c : ascii) (s : string) : bool :=
  match s with String d s => Ascii.eqb c d || str_mem c s | EmptyString => false end.

(** Lengths of the initial parts that consist of, or avoid, a set. *)
Fixpoint strspn (s set : string) : nat :=
  match s with String c s => if str_mem c set then S (strspn s set) else O | EmptyString => O end.
Fixpoint strcspn (s set : string) : nat :=
  match s with String c s => if str_mem c set then O else S (strcspn s set) | EmptyString => O end.

Fixpoint str_map (f : ascii -> ascii) (s : string) : string :=
  match s with String c s => String (f c) (str_map f s) | EmptyString => EmptyString end.

(** Equality as strcasecmp, strncmp and strncasecmp tell it. *)
Definition strcaseeq (a b : string) : bool := String.eqb (str_map tolower a) (str_map tolower b).
Definition strneq (a b : string) (n : nat) : bool := String.eqb (str_take n a) (str_take n b).
Definition strncaseeq (a b : string) (n : nat) : bool := strcaseeq (str_take n a) (str_take n b).

(** The part behind the first [c]. *)
Fixpoint strchr (s : string) (c : ascii) : option string :=
  match s with
  | String d s' => if Ascii.eqb c d then Some s else strchr s' c
  | EmptyString => None
  end.

Fixpoint skip_space (s : string) : string :=
  match s with String c s' => if isspace c then skip_space s' else s | EmptyString => s end.

(** ** Integers: strtol and its relatives *)
Definition digit_value (c : ascii) : Z :=
  let c := code (tolower c) in
  if (48 <=? c) && (c <=? 57) then c - 48 else if (97 <=? c) && (c <=? 122) then c - 87 else 99.

(** The digits of [s] in [base]: are there any, their value, the rest. *)
Fixpoint digits (base : Z) (any : bool) (acc : Z) (s : string) : bool * Z * string :=
  match s with
  | String c s' =>
      if digit_value c <? base then digits base true (acc * base + digit_value c) s' else (any, acc, s)
  | EmptyString => (any, acc, s)
  end.

(** The sign: negative?, the rest. *)
Definition sign (s : string) : bool * string :=
  match s with
  | String c s' => if Ascii.eqb c "-" then (true, s') else if Ascii.eqb c "+" then (false, s') else (false, s)
  | EmptyString => (false, s)
  end.

(** The base of the digits and their text; 0 takes it from the text. *)
Definition number_base (base : Z) (s : string) : Z * string :=
  match s with
  | String c (String x (String d _ as t)) =>
      if ((base =? 0) || (base =? 16)) && Ascii.eqb c "0" && Ascii.eqb (tolower x) "x" && (digit_value d <? 16)
      then (16, t)
      else if base =? 0 then (if Ascii.eqb c "0" then 8 else 10, s) else (base, s)
  | _ => if base =? 0 then (if first_is (fun c => Ascii.eqb c "0") s then 8 else 10, s) else (base, s)
  end.

(** Magnitude without limit; no digits: 0, and nothing is consumed. *)
Definition strtox (s : string) (base : Z) : bool * Z * string :=
  let '(neg, t) := sign (skip_space s) in
  let '(b, t) := number_base base t in
  let '(any, v, rest) := digits b false 0 t in
  if any then (neg, v, rest) else (false, 0, s).

Definition strtol (s : string) (base : Z) : Z * string :=
  let '(neg, v, rest) := strtox s base in
  (if neg then Z.max (- 2 ^ 63) (- v) else Z.min (2 ^ 63 - 1) v, rest).

Definition strtoul (s : string) (base : Z) : Z * string :=
  let '(neg, v, rest) := strtox s base in
  (if 2 ^ 64 <=? v then 2 ^ 64 - 1 else if neg then u64 (- v) else v, rest).

(** ** Doubles: strtod *)
Fixpoint fraction_digits (base : Z) (any : bool) (acc n : Z) (s : string) : bool * Z * Z * string :=
  match s with
  | String c s' =>
      if digit_value c <? base
      then fraction_digits base true (acc * base + digit_value c) (n + 1) s'
      else (any, acc, n, s)
  | EmptyString => (any, acc, n, s)
  end.

(** An exponent behind one of the letters [e]; without digits it is not one. *)
Definition exponent (e : ascii) (s : string) : Z * string :=
  match s with
  | String c s' =>
      if Ascii.eqb (tolower c) e then
        let '(neg, t) := sign s' in
        let '(any, v, rest) := digits 10 false 0 t in
        if any then (if neg then - v else v, rest) else (0, s)
      else (0, s)
  | EmptyString => (0, s)
  end.

(** Mantissa times a power of the base, rounded once. *)
Definition scaled (neg : bool) (m b e : Z) : double :=
  match m with
  | Zpos p =>
      if 0 <=? e then binary_normalize 53 1024 (if neg then - (m * b ^ e) else m * b ^ e) 0 neg
      else match b ^ (- e) with
           | Zpos q => SFdiv 53 1024 (S754_finite neg p 0) (S754_finite false q 0)
           | _ => S754_nan
           end
  | _ => S754_zero neg
  end.

(** The optional character sequence behind nan. *)
Definition skip_payload (t : string) : string :=
  match t with
  | String c u =>
      if Ascii.eqb c "(" then
        match str_drop (strspn u "0123456789abcdefghijklmnopqrstuvwxyzABCDEFGHIJKLMNOPQRSTUVWXYZ_") u with
        | String d r => if Ascii.eqb d ")" then r else t
        | EmptyString => t
        end
      else t
  | EmptyString => t
  end.

Definition strtod (s : string) : double * string :=
  let '(neg, t) := sign (skip_space s) in
  if strncaseeq t "infinity" 8 then (S754_infinity neg, str_drop 8 t)
  else if strncaseeq t "inf" 3 then (S754_infinity neg, str_drop 3 t)
  else if strncaseeq t "nan" 3 then (S754_nan, skip_payload (str_drop 3 t))
  else
    let hex := String.eqb (str_map tolower (str_take 2 t)) "0x" in
    let number base t :=
      let '(any, m, rest) := digits base false 0 t in
      match rest with
      | String c rest' =>
          if Ascii.eqb c "." then
            let '(any', m', n, rest'') := fraction_digits base any m 0 rest' in
            if any' then (any', m', n, rest'') else (any, m, 0, rest)
          else (any, m, 0, rest)
      | EmptyString => (any, m, 0, rest)
      end in
    let decimal :=
      let '(any, m, n, rest) := number 10 t in
      if any then let '(e, rest) := exponent "e" rest in (scaled neg m 10 (e - n), rest)
      else (S754_zero false, s) in
    if hex then
      let '(any, m, n, rest) := number 16 (str_drop 2 t) in
      if any then let '(e, rest) := exponent "p" rest in (scaled neg m 2 (e - 4 * n), rest) else decimal
    else decimal.

(** The test that follows every conversion: nothing, or whitespace, is left. *)
Definition converted (rest : string) : bool :=
  match rest with EmptyString => true | String c _ => isspace c end.

(** ** Lemmas *)
Lemma str_take_drop n s : (str_take n s ++ str_drop n s)%string = s.
Proof. revert s. induction n as [| n IH]; intros [| c s]; try done.
  change (String c (str_take n s ++ str_drop n s) = String c s). by rewrite IH. Qed.

Lemma str_take_length n s : (n <= String.length s)%nat -> String.length (str_take n s) = n.
Proof. revert s. induction n as [| n IH]; intros [| c s]; simpl; try done; try lia. intros. rewrite IH; lia. Qed.

Lemma str_drop_length n s : String.length (str_drop n s) = (String.length s - n)%nat.
Proof. revert s. induction n as [| n IH]; intros [| c s]; simpl; try done. Qed.

Lemma strcspn_le s set : (strcspn s set <= String.length s)%nat.
Proof. induction s; simpl; [done |]. case_match; lia. Qed.

Lemma strspn_le s set : (strspn s set <= String.length s)%nat.
Proof. induction s; simpl; [done |]. case_match; lia. Qed.

Lemma str_app_cons c a b : (String c a ++ b)%string = String c (a ++ b).
Proof. done. Qed.

Lemma str_app_length a b : String.length (a ++ b) = (String.length a + String.length b)%nat.
Proof. induction a as [| c a IH]; [done |]. rewrite str_app_cons. simpl. by rewrite IH. Qed.

Lemma str_app_nil a : (a ++ EmptyString)%string = a.
Proof. induction a as [| c a IH]; [done |]. by rewrite str_app_cons, IH. Qed.

Lemma str_app_assoc a b c : (a ++ b ++ c)%string = ((a ++ b) ++ c)%string.
Proof. induction a as [| x a IH]; [done |]. by rewrite !str_app_cons, IH. Qed.
