(* ===== verification/HalCmdLine.v ===== *)
(** * halcmd: lines and commands (libraries/hal_command/src/halcmd.c)

    A line loses its comment, gets its variables replaced, is split into
    tokens and dispatched.  Buffers are strings without NUL; a pointer that
    moved beyond the terminator of a string makes the result [Crash].  The
    environment, the ini file and the expansion of tildes are parameters.
    Messages are not modelled. *)
From Stdlib Require Import Ascii.
From S2P Require Import Prelude Double CString.

Module HalCmdLine.

Definition MAX_TOK : nat := 20.
Definition MAX_CMD_LEN : Z := 1024.

Definition squote : ascii := chr 39.
Definition dquote : ascii := chr 34.
Definition newline : ascii := chr 10.
Definition cr : ascii := chr 13.

Definition snoc (s : string) (c : ascii) : string := s ++ String c EmptyString.

(** ** [strip_comments] *)
Inductive quoting := NORMAL | SINGLE_QUOTE | DOUBLE_QUOTE.

(** Status, and the line up to the comment, the newline or the end. *)
Fixpoint strip_comments (q : quoting) (s : string) : Z * string :=
  match s with
  | EmptyString => (match q with NORMAL => 0 | _ => -1 end, EmptyString)
  | String c s' =>
      let keep q := let '(rc, r) := strip_comments q s' in (rc, String c r) in
      match q with
      | NORMAL =>
          if Ascii.eqb c "#" || Ascii.eqb c newline then (0, EmptyString)
          else if Ascii.eqb c squote then keep SINGLE_QUOTE
          else if Ascii.eqb c dquote then keep DOUBLE_QUOTE
          else keep NORMAL
      | SINGLE_QUOTE =>
          if Ascii.eqb c newline then (-1, EmptyString)
          else if Ascii.eqb c squote then keep NORMAL else keep SINGLE_QUOTE
      | DOUBLE_QUOTE =>
          if Ascii.eqb c newline then (-1, EmptyString)
          else if Ascii.eqb c dquote then keep NORMAL else keep DOUBLE_QUOTE
      end
  end.

(** ** [tokenize] *)
Inductive token_state := BETWEEN_TOKENS | IN_TOKEN | IN_QUOTE (q : ascii).

(** A carriage return that does not end the line. *)
Definition embedded_cr (c : ascii) (rest : string) : bool :=
  Ascii.eqb c cr && negb (match rest with EmptyString => true | String n _ => Ascii.eqb n newline end).

(** [m] tokens may still come, [cur] is the token that has begun; quotes stay
    in it.  [None]: -1. *)
Fixpoint tokenize (st : token_state) (cur : string) (m : nat) (s : string) : option (list string) :=
  match m with
  | O => None
  | S m' =>
      match s with
      | EmptyString =>
          Some (match st with BETWEEN_TOKENS => replicate m EmptyString | _ => cur :: replicate m' EmptyString end)
      | String c s' =>
          if embedded_cr c s' then None
          else
            match st with
            | BETWEEN_TOKENS =>
                if isspace c then tokenize BETWEEN_TOKENS EmptyString m s'
                else if Ascii.eqb c squote || Ascii.eqb c dquote then tokenize (IN_QUOTE c) (snoc EmptyString c) m s'
                else tokenize IN_TOKEN (snoc EmptyString c) m s'
            | IN_TOKEN =>
                if Ascii.eqb c squote || Ascii.eqb c dquote then tokenize (IN_QUOTE c) (snoc cur c) m s'
                else if isspace c then cons cur <$> tokenize BETWEEN_TOKENS EmptyString m' s'
                else tokenize IN_TOKEN (snoc cur c) m s'
            | IN_QUOTE q =>
                tokenize (if Ascii.eqb c q then IN_TOKEN else st) (snoc cur c) m s'
            end
      end
  end.

(** ** [replace_vars] *)
Definition words : string := "0123456789abcdefghijklmnopqrstuvwxyzABCDEFGHIJKLMNOPQRSTUVWXYZ.-_".

(** The destination so far and the space that is left. *)
Definition strlimcpy (dest : string) (src : string) (srclen : nat) (space : Z) : option (string * Z) :=
  if space <? Z.of_nat srclen then None
  else let part := str_take srclen src in Some (dest ++ part, space - Z.of_nat (String.length part))%string.

Section Replace.
Variable getenv : string -> option string.
Variable iniFind : string -> option string -> option string.

(** The name of a variable at [sp], in parentheses or not: its length, its
    text, and where the source goes on ([None]: behind the terminator).
    [strict]: does the search for the parenthesis notice the end? *)
Definition var_name (strict : bool) (sp : string) : result (string * option string) :=
  match sp with
  | String c varP =>
      if Ascii.eqb c "(" then
        let next_delim := strcspn varP ")" in
        if strict && (String.length varP <=? next_delim)%nat then Err (-1)
        else if (next_delim =? 0)%nat then Err (-2)
        else if (127 <? next_delim)%nat then Err (-7)
        else Ok (str_take next_delim varP,
                 if (next_delim <? String.length varP)%nat then Some (str_drop (S next_delim) varP) else None)
      else
        let next_delim := strspn sp words in
        if (next_delim =? 0)%nat then Err (-2)
        else if (127 <? next_delim)%nat then Err (-7)
        else Ok (str_take next_delim sp, Some (str_drop next_delim sp))
  | EmptyString => Err (-2)
  end.

(** One reference, behind its [$] or [[]: its value, and the rest of the source. *)
Definition reference (delim : ascii) (sp : string) : result (string * option string) :=
  if Ascii.eqb delim "$" then
    match var_name true sp with
    | Ok (var, rest) =>
        match getenv var with Some replacement => Ok (replacement, rest) | None => Err (-4) end
    | Err e => Err e
    | Crash => Crash
    end
  else
    let next_delim := strcspn sp "]" in
    if (String.length sp <=? next_delim)%nat then Err (-3)
    else if (127 <? next_delim)%nat then Err (-7)
    else
      let sec := str_take next_delim sp in
      match var_name false (str_drop (S next_delim) sp) with
      | Ok (var, rest) =>
          match iniFind var (if (0 <? String.length sec)%nat then Some sec else None) with
          | Some replacement => Ok (replacement, rest)
          | None => Err (-5)
          end
      | Err e => Err e
      | Crash => Crash
      end.

(** The loop; each turn that goes on consumes a delimiter of the source. *)
Fixpoint replace_from (fuel : nat) (sp : option string) (dest : string) (space : Z) : result string :=
  match fuel, sp with
  | O, _ | _, None => Crash
  | S fuel, Some sp =>
      match sp with
      | EmptyString => Ok dest
      | _ =>
          let next_delim := strcspn sp "$[" in
          match strlimcpy dest sp next_delim space with
          | None => Err (-6)
          | Some (dest, space) =>
              match str_drop next_delim sp with
              | EmptyString => Ok dest
              | String delim sp =>
                  match reference delim sp with
                  | Ok (replacement, sp) =>
                      match strlimcpy dest replacement (String.length replacement) space with
                      | None => Err (-6)
                      | Some (dest, space) => replace_from fuel sp dest space
                      end
                  | Err e => Err e
                  | Crash => Crash
                  end
              end
          end
      end
  end.

Definition replace_vars (source : string) (max_chars : Z) : result string :=
  replace_from (S (String.length source)) (Some source) EmptyString (max_chars - 1).

(** ** [halcmd_preprocess_line]: the tokens of a line, and an empty one *)
Definition halcmd_preprocess_line (line : string) : result (list string) :=
  let '(rc, line) := strip_comments NORMAL line in
  if negb (rc =? 0) then Err (-1)
  else
    match replace_vars line (2 * MAX_CMD_LEN - 2) with
    | Ok cmd_buf =>
        match tokenize BETWEEN_TOKENS EmptyString MAX_TOK cmd_buf with
        | Some tokens => Ok (tokens ++ [EmptyString])
        | None => Err (-3)
        end
    | Err _ => Err (-2)
    | Crash => Crash
    end.
End Replace.

(** ** [parse_cmd1] *)

(** The flags of a command: positional arguments, and what may differ. *)
Record argtype := Args {
  a_nargs : nat;
  a_plus : bool;
  a_remove_arrows : bool;
  a_optional : bool;
  a_tilde : bool;
}.

Definition A (n : nat) : argtype := Args n false false false false.
Definition PLUS (a : argtype) : argtype := Args (a_nargs a) true (a_remove_arrows a) (a_optional a) (a_tilde a).
Definition ARROWS (a : argtype) : argtype := Args (a_nargs a) (a_plus a) true (a_optional a) (a_tilde a).
Definition OPT (a : argtype) : argtype := Args (a_nargs a) (a_plus a) (a_remove_arrows a) true (a_tilde a).
Definition TILDE (a : argtype) : argtype := Args (a_nargs a) (a_plus a) (a_remove_arrows a) (a_optional a) true.

Definition halcmd_commands : list (string * argtype) := [
  ("addf", PLUS (A 2)); ("delf", OPT (A 2)); ("delsig", A 1); ("echo", A 0); ("delthread", A 1);
  ("getp", A 1); ("gets", A 1); ("ptype", A 1); ("stype", A 1); ("help", OPT (A 1));
  ("linkpp", ARROWS (A 2)); ("linkps", ARROWS (A 2)); ("linksp", ARROWS (A 2)); ("list", PLUS (A 1));
  ("loadrt", PLUS (A 1)); ("loadusr", TILDE (PLUS (A 0))); ("lock", OPT (A 1)); ("log", OPT (A 2));
  ("net", ARROWS (PLUS (A 1))); ("newsig", A 2); ("ping", A 0); ("save", TILDE (OPT (A 2)));
  ("setexact_for_test_suite_only", A 0); ("setp", A 2); ("sets", A 2); ("sete", A 2);
  ("show", OPT (PLUS (A 1))); ("sweep", OPT (A 1)); ("shutdown", A 0); ("sleep", A 1);
  ("source", TILDE (A 1)); ("start", A 0); ("status", OPT (A 1)); ("stop", A 0); ("unecho", A 0);
  ("unlinkp", A 1); ("unload", A 1); ("unloadrt", A 1); ("unloadusr", A 1); ("unlock", OPT (A 1));
  ("waitusr", OPT (A 2)); ("newthread", PLUS (A 1)); ("newg", PLUS (A 1)); ("delg", A 1);
  ("newm", OPT (PLUS (A 2))); ("delm", A 2); ("setrmb", A 1); ("setwmb", A 1); ("clearrmb", A 1);
  ("clearwmb", A 1); ("newring", PLUS (A 2)); ("delring", A 1); ("ringdump", A 1); ("ringflush", A 1);
  ("ringwrite", OPT (PLUS (A 1))); ("newcomp", PLUS (A 1)); ("newpin", PLUS (A 3)); ("ready", OPT (A 1));
  ("waitbound", OPT (A 1)); ("waitexists", A 1); ("waitunbound", OPT (A 1)); ("newinst", PLUS (A 2));
  ("delinst", A 1); ("call", PLUS (A 1)); ("autoload", OPT (A 1))].

(** Up to the first empty string: [count_args]. *)
Fixpoint until_empty (l : list string) : list string :=
  match l with [] => [] | x :: l => if String.eqb x EmptyString then [] else x :: until_empty l end.

Definition find_command (name : string) : option (string * argtype) :=
  List.find (fun c => String.eqb (fst c) name) halcmd_commands.

Definition is_arrow (s : string) : bool := first_is (fun c => Ascii.eqb c "<" || Ascii.eqb c "=") s.

Section Dispatch.
Context {S : Type}.
(** The handlers: name, positional arguments ([None]: NULL), the others. *)
Variable func : string -> list (option string) -> list string -> M S Z.
Variable TildeExpansion : string -> string.

Definition EINVAL_rc : Z := - EINVAL.

Definition parse_cmd1 (argv : list string) : M S Z :=
  let args := until_empty argv in
  match args with
  | [] => mret 0
  | name :: _ =>
      match find_command name with
      | None =>
          match args with
          | [a; op; v] => if negb (String.eqb op "=") then func "setp" [Some a; Some v] [] else raise EINVAL_rc
          | _ => raise EINVAL_rc
          end
      | Some (name, ty) =>
          let args := if a_remove_arrows ty then List.filter (fun s => negb (is_arrow s)) args else args in
          let posargs := pred (length args) in
          if (posargs <? a_nargs ty)%nat && negb (a_optional ty) then raise EINVAL_rc
          else if (a_nargs ty <? posargs)%nat && negb (a_plus ty) then raise EINVAL_rc
          else
            let args := if a_tilde ty then map TildeExpansion args else args in
            let arg i := args !! i in
            func name (map arg (seq 1 (a_nargs ty))) (if a_plus ty then drop (Datatypes.S (a_nargs ty)) args else [])
      end
  end.

(** [halcmd_parse_line] *)
Definition halcmd_parse_line getenv iniFind (line : string) : M S Z :=
  match halcmd_preprocess_line getenv iniFind line with
  | Ok tokens => parse_cmd1 tokens
  | Err e => raise e
  | Crash => crash
  end.
End Dispatch.
End HalCmdLine.
