(* ===== verification/HalCmd.v ===== *)
(** * halcmd: the commands (libraries/hal_command/src/halcmd_commands.c)

    A command is a computation over the HAL state, composed of the calls of
    the HAL library that it makes; its result is the return code.  Commands
    that only print, that talk to rtapi_app or that start processes are left
    to a parameter.  Barriers, groups and rings print nothing of interest;
    messages are not modelled. *)
From Stdlib Require Import Ascii.
From S2P Require Import Prelude Double CString HalCmdLine RtapiTask HalData HalMemory HalObject HalPin HalSignal HalFunct HalThread RtapiShmem HalRing HalComp HalGroup.
Import HalCmdLine.

Definition ENOSYS : Z := 38.

(** strtok_r with the delimiter [=]: the token, and what is left. *)
Fixpoint skip_eq (s : string) : string :=
  match s with String c s' => if Ascii.eqb c "=" then skip_eq s' else s | EmptyString => s end.

Definition strtok (s : string) : option (string * string) :=
  let t := skip_eq s in
  if String.eqb t EmptyString then None
  else let n := strcspn t "=" in Some (str_take n t, str_drop (S n) t).

(** An option [key] or [key=value]. *)
Definition key_value (s : string) : option (string * option string) :=
  match strtok s with
  | None => None
  | Some (s1, rest) => Some (s1, fst <$> strtok rest)
  end.

(** Signal and pin types by name. *)
Definition type_of_name (type : string) : option Z :=
  if strcaseeq type "bit" then Some HAL_BIT
  else if strcaseeq type "float" then Some HAL_FLOAT
  else if strcaseeq type "u32" then Some HAL_U32
  else if strcaseeq type "s32" then Some HAL_S32
  else if strcaseeq type "u64" then Some HAL_U64
  else if strcaseeq type "s64" then Some HAL_S64
  else None.

Section HalCmd.
Context {H : Type} {HA : Allocator H} {PF : Platform} {CB : Callbacks H} {SM : SharedMemory}
  {FL : Flavor} {TH : ThreadFuncts H} {OS : ShmOS}.
Abbreviation HM := (M (hal_state H)).

(** A lookup by name; NULL selects the first object of the type. *)
Definition find_named (type : Z) (name : option string) : HM (option Z) :=
  r ← halg_foreach0 (Sel type 0 0 0 name) yield_match None; mret (snd r).

(** ** Locking *)
Definition HAL_LOCK_ALL : Z := 255.

Definition do_lock_cmd (command : option string) : HM Z :=
  match command with
  | None => hal_set_lock HAL_LOCK_ALL
  | Some c =>
      if String.eqb c "all" then hal_set_lock HAL_LOCK_ALL
      else if String.eqb c "none" then hal_set_lock HAL_LOCK_NONE
      else if String.eqb c "tune" then hal_set_lock (Z.land HAL_LOCK_LOAD HAL_LOCK_CONFIG)
      else mret 0
  end.

Definition do_unlock_cmd (command : option string) : HM Z :=
  match command with
  | None => hal_set_lock HAL_LOCK_NONE
  | Some c =>
      if String.eqb c "all" then hal_set_lock HAL_LOCK_NONE
      else if String.eqb c "tune" then hal_set_lock (Z.land HAL_LOCK_LOAD HAL_LOCK_CONFIG)
      else mret 0
  end.

(** ** Links *)
Definition do_linkps_cmd (pin sig : string) : HM Z := halg_link (Some pin) (Some sig).
Definition do_linksp_cmd (sig pin : string) : HM Z := do_linkps_cmd pin sig.
Definition do_unlinkp_cmd (pin : string) : HM Z := halg_unlink (Some pin).

Definition do_linkpp_cmd (first_pin_name second_pin_name : string) : HM Z :=
  s ← hal_data;
  first_pin ← halpr_find_pin_by_name first_pin_name;
  second_pin ← halpr_find_pin_by_name second_pin_name;
  match first_pin, second_pin with
  | Some a, Some b =>
      p ← get_pin a;
      q ← get_pin b;
      if negb (p_type p =? p_type q) then raise (- EINVAL)
      else
        halg_signal_new (Some first_pin_name) (p_type p) ≫= fun _ =>
        halg_link (Some first_pin_name) (Some first_pin_name) ≫= fun _ =>
        halg_link (Some second_pin_name) (Some first_pin_name)
  | _, _ => raise (- EINVAL)
  end.

(** ** [net] *)

(** What the signal is going to be: its type (-1: not known), its writers and
    bidirectional pins, and the number of its pins. *)
Record net_plan := NetPlan { n_type : Z; n_writers : Z; n_bidirs : Z; n_pincnt : Z }.

Definition preflight_pin (sig : option Z) (n : net_plan) (pin : string) : HM net_plan :=
  o ← halpr_find_pin_by_name pin;
  match o with
  | None => raise (- ENOENT)
  | Some o =>
      p ← get_pin o;
      if bool_decide (signal_of p = sig) then
        mret (NetPlan (n_type n) (n_writers n) (n_bidirs n) (s32 (n_pincnt n + 1)))
      else if pin_is_linked o p then raise (- EINVAL)
      else
        let type := if n_type n =? -1 then p_type p else n_type n in
        if negb (type =? p_type p) then raise (- EINVAL)
        else if (p_dir p =? HAL_OUT) && (negb (n_writers n =? 0) || negb (n_bidirs n =? 0)) then raise (- EINVAL)
        else
          let writers := if p_dir p =? HAL_OUT then s32 (n_writers n + 1) else n_writers n in
          if (p_dir p =? HAL_IO) && negb (writers =? 0) then raise (- EINVAL)
          else
            mret (NetPlan type writers (if p_dir p =? HAL_IO then s32 (n_bidirs n + 1) else n_bidirs n)
                    (s32 (n_pincnt n + 1)))
  end.

Fixpoint preflight_pins (sig : option Z) (n : net_plan) (pins : list string) : HM net_plan :=
  match pins with
  | [] => mret n
  | pin :: pins => n ← preflight_pin sig n pin; preflight_pins sig n pins
  end.

Definition preflight_net_cmd (sig : option Z) (pins : list string) : HM Z :=
  n ← match sig with
      | Some o => s ← get_sig o; mret (NetPlan (s_type s) (s_writers s) (s_bidirs s) 0)
      | None => mret (NetPlan (-1) 0 0 0)
      end;
  n ← preflight_pins sig n pins;
  if n_pincnt n =? 0 then raise (- EINVAL) else mret 0.

Fixpoint link_pins (signal : string) (pins : list string) : HM Z :=
  match pins with
  | [] => mret 0
  | pin :: pins => do_linkps_cmd pin signal ≫= fun _ => link_pins signal pins
  end.

Definition do_net_cmd (signal : string) (pins : list string) : HM Z :=
  s ← hal_data;
  sig ← halpr_find_sig_by_name signal;
  preflight_net_cmd sig pins ≫= fun _ =>
  pin ← halpr_find_pin_by_name signal;
  match pin with
  | Some _ => raise (- ENOENT)
  | None =>
      match sig with
      | Some _ => mret 0
      | None =>
          first ← halpr_find_pin_by_name (hd EmptyString pins);
          match first with
          | None => raise (- ENOENT)
          | Some o => p ← get_pin o; halg_signal_new (Some signal) (p_type p)
          end
      end ≫= fun _ => link_pins signal pins
  end.

(** ** Signals *)
Definition do_newsig_cmd (name type : string) : HM Z :=
  match type_of_name type with
  | Some t => halg_signal_new (Some name) t
  | None => raise (- EINVAL)
  end.

(** The name of the selection: any signal unless the command says "all". *)
Definition do_delsig_cmd (sig_name : string) : HM Z :=
  halg_foreach (Sel HAL_SIGNAL 0 0 0 (if negb (String.eqb sig_name "all") then None else Some sig_name))
    (unlocked_delete_halobject HAL_SIGNAL) tt ≫= fun _ => mret 0.

Definition do_sweep_cmd : HM Z := ignore hal_sweep ≫= fun _ => mret 0.

(** ** Values *)
Definition set_common (type : Z) (d_ptr : vaddr) (value : string) : HM Z :=
  let number (r : Z * string) (set : hal_data_u -> Z -> hal_data_u) :=
    if converted (snd r) then store_value d_ptr (fun u => set u (fst r)) ≫= fun _ => mret 0
    else raise (- EINVAL) in
  if type =? HAL_BIT then
    if String.eqb value "1" || strcaseeq "TRUE" value
    then store_value d_ptr (fun u => set_bit_value u 1) ≫= fun _ => mret 0
    else if String.eqb value "0" || strcaseeq "FALSE" value
    then store_value d_ptr (fun u => set_bit_value u 0) ≫= fun _ => mret 0
    else raise (- EINVAL)
  else if type =? HAL_FLOAT then
    let '(fval, rest) := strtod value in number (bits_of_float fval, rest) set_float_value
  else if type =? HAL_S32 then number (strtol value 0) set_s32_value
  else if type =? HAL_U32 then number (strtoul value 0) set_u32_value
  else if type =? HAL_S64 then number (strtol value 0) set_s64_value
  else if type =? HAL_U64 then number (strtoul value 0) set_u64_value
  else raise (- EINVAL).

Definition do_setp_cmd (name value : string) : HM Z :=
  s ← hal_data;
  param ← halpr_find_param_by_name name;
  match param with
  | Some o =>
      p ← get_param o;
      if pa_dir p =? HAL_RO then raise (- EINVAL) else set_common (pa_type p) (pa_data_ptr p) value
  | None =>
      pin ← halpr_find_pin_by_name name;
      match pin with
      | None => raise (- EINVAL)
      | Some o =>
          ob ← get_obj o;
          comp ← halpr_find_owning_comp (hh_owner_id (o_hdr ob));
          p ← get_pin o;
          unwritable ← (if p_dir p =? HAL_OUT then
                          match comp with
                          | Some c => cb ← get_comp c; mret (negb (c_state cb =? COMP_UNBOUND))
                          | None => crash
                          end
                        else mret false);
          if (unwritable : bool) then raise (- EINVAL)
          else if pin_is_linked o p then raise (- EINVAL)
          else set_common (p_type p) (ADummy o) value
      end
  end.

Definition do_sets_cmd (name value : string) : HM Z :=
  s ← hal_data;
  sig ← halpr_find_sig_by_name name;
  match sig with
  | None => raise (- EINVAL)
  | Some o =>
      s ← get_sig o;
      if 0 <? s_writers s then raise (- EINVAL) else set_common (s_type s) (ASig o) value
  end.

(** ** Threads *)
Definition do_start_cmd : HM Z := ignore hal_start_threads ≫= fun _ => mret 0.
Definition do_stop_cmd : HM Z := ignore hal_stop_threads ≫= fun _ => mret 0.

(** Position and barriers; an invalid position is reported and used. *)
Fixpoint addf_options (opt : list string) (position rmb wmb : Z) : Z * Z * Z :=
  match opt with
  | [] => (position, rmb, wmb)
  | s :: opt =>
      if strcaseeq s "rmb" then addf_options opt position 1 wmb
      else if strcaseeq s "wmb" then addf_options opt position rmb 1
      else addf_options opt (s32 (fst (strtol s 0))) rmb wmb
  end.

Definition do_addf_cmd (func thread : string) (opt : list string) : HM Z :=
  let '(position, rmb, wmb) := addf_options opt (-1) 0 0 in
  hal_add_funct_to_thread (Some func) (Some thread) position rmb wmb.

Definition do_delf_cmd (func thread : option string) : HM Z := hal_del_funct_from_thread func thread.

Definition do_setexact_cmd : HM Z :=
  s ← hal_data;
  if negb (hs_base_period s =? 0) then raise (- EINVAL)
  else modify (set_exact_base_period 1) ≫= fun _ => mret 0.

(** ** Barriers: the first object of that name *)
Definition yield_objects (read_barrier write_barrier o : Z) (_ : unit) : HM (Z * unit) :=
  halg_object_setbarriers (Some o) read_barrier write_barrier ≫= fun _ => mret (1, tt).

Definition change_barrier (object : string) (read_barrier write_barrier : Z) : HM Z :=
  halg_foreach (Sel 0 0 0 0 (Some object)) (yield_objects read_barrier write_barrier) tt ≫= fun _ => mret 0.

Definition do_setrmb_cmd (object : string) : HM Z := change_barrier object 1 (-1).
Definition do_setwmb_cmd (object : string) : HM Z := change_barrier object (-1) 1.
Definition do_clear_rmb_cmd (object : string) : HM Z := change_barrier object 0 (-1).
Definition do_clear_wmb_cmd (object : string) : HM Z := change_barrier object (-1) 0.

(** ** Groups *)
Definition newg_option (args : Z * Z) (s : string) : HM (Z * Z) :=
  let '(arg1, arg2) := args in
  match key_value s with
  | None => mret args
  | Some (k, Some v) =>
      if String.eqb k "timer" then
        let '(n, rest) := strtol v 0 in
        if converted rest then mret (s32 n, arg2) else raise (- EINVAL)
      else raise (- EINVAL)
  | Some (k, None) =>
      if String.eqb k "onchange" then mret (arg1, Z.lor arg2 GROUP_REPORT_ON_CHANGE)
      else if String.eqb k "always" then mret (arg1, Z.land arg2 (Z.lnot GROUP_REPORT_ON_CHANGE))
      else if String.eqb k "monitorall" then mret (arg1, Z.lor arg2 GROUP_MONITOR_ALL_MEMBERS)
      else if String.eqb k "reportchanged" then mret (arg1, Z.lor arg2 GROUP_REPORT_CHANGED_MEMBERS)
      else if String.eqb k "reportall" then mret (arg1, Z.land arg2 (Z.lnot GROUP_REPORT_CHANGED_MEMBERS))
      else
        let '(n, rest) := strtol k 0 in
        if converted rest then mret (arg1, s32 n) else raise (- EINVAL)
  end.

Fixpoint foldM {A B} (f : A -> B -> HM A) (a : A) (l : list B) : HM A :=
  match l with [] => mret a | b :: l => a ← f a b; foldM f a l end.

Definition do_newg_cmd (group : string) (opt : list string) : HM Z :=
  args ← foldM newg_option (0, Z.lor GROUP_REPORT_ON_CHANGE GROUP_REPORT_CHANGED_MEMBERS) opt;
  halg_group_new (Some group) (fst args) (snd args).

Definition do_delg_cmd (group : string) : HM Z := halg_group_delete (Some group).

(** [sig]: the signal of that name; a group may have the name as well. *)
Definition newm_option (sig : option Z) (args : Z * Z) (s : string) : HM (Z * Z) :=
  let '(arg1, eps_index) := args in
  match key_value s with
  | None => mret args
  | Some (k, Some v) =>
      if String.eqb k "epsilon" then
        let '(n, rest) := strtoul v 0 in
        if negb (converted rest) then raise (- EINVAL)
        else
          match sig with
          | Some o => s ← get_sig o;
              if negb (s_type s =? HAL_FLOAT) then raise (- EINVAL) else mret (arg1, s32 n)
          | None => mret (arg1, s32 n)
          end
      else raise (- EINVAL)
  | Some (k, None) =>
      if String.eqb k "nomonitor" then mret (Z.land arg1 (Z.lnot MEMBER_MONITOR_CHANGE), eps_index)
      else
        let '(n, rest) := strtol k 0 in
        if converted rest then mret (s32 n, eps_index) else raise (- EINVAL)
  end.

Definition do_newm_cmd (group member : option string) (opt : list string) : HM Z :=
  s ← hal_data;
  sig ← find_named HAL_SIGNAL member;
  grp ← find_named HAL_GROUP member;
  match sig, grp with
  | None, None => raise (- EINVAL)
  | _, _ =>
      args ← foldM (newm_option sig) (MEMBER_MONITOR_CHANGE, 0) opt;
      halg_member_new group member (fst args) (snd args)
  end.

Definition do_delm_cmd (group member : string) : HM Z := halg_member_delete (Some group) (Some member).

(** ** Rings *)
Definition MAX_SPSIZE : Z := 1024 * 1024.
Definition rmax : Z := 50000000.

Definition newring_option (args : Z * Z) (s : string) : HM (Z * Z) :=
  let '(mode, spsize) := args in
  if strcaseeq s "rmutex" then mret (Z.lor mode 4, spsize)
  else if strcaseeq s "wmutex" then mret (Z.lor mode 8, spsize)
  else if strcaseeq s "halmem" then mret (Z.lor mode ALLOC_HALMEM, spsize)
  else if strcaseeq s "record" then mret args
  else if strcaseeq s "stream" then mret (Z.lor mode 2, spsize)
  else if strcaseeq s "multi" then mret (Z.lor mode 1, spsize)
  else if strncaseeq s "scratchpad=" 11 then
    let '(n, rest) := strtol (default EmptyString (str_drop 1 <$> strchr s "=")) 0 in
    let spsize := s32 n in
    if negb (converted rest) then raise (- EINVAL)
    else if (spsize <? 0) || (MAX_SPSIZE <? spsize) then raise (- EINVAL)
    else mret (mode, spsize)
  else raise (- EINVAL).

(** The name is used as a format; a negative size is huge as a [size_t]. *)
Definition do_newring_cmd (ring ring_size : string) (opt : list string) : HM Z :=
  let '(n, rest) := strtol ring_size 0 in
  let size := s32 n in
  if negb (converted rest) then raise (- EINVAL)
  else if rmax <? u64 size then raise (- EINVAL)
  else
    args ← foldM newring_option (0, 0) opt;
    match fmt_noargs ring with
    | None => crash
    | Some ring =>
        r ← attempt (halg_ring_newfv size (snd args) (fst args) (Some ring));
        match r with Some _ => mret 0 | None => s ← get; raise (hs_halerrno s) end
    end.

Definition do_delring_cmd (ring : string) : HM Z :=
  match fmt_noargs ring with None => crash | Some ring => halg_ring_deletefv (Some ring) end.

(** ** Remote components *)
Definition newcomp_option (args : Z * Z) (s : string) : HM (Z * Z) :=
  let '(arg1, arg2) := args in
  match key_value s with
  | None => mret args
  | Some (k, Some v) =>
      if String.eqb k "timer" then
        let '(n, rest) := strtol v 0 in
        if converted rest then mret (s32 n, arg2) else raise (- EINVAL)
      else raise (- EINVAL)
  | Some (k, None) =>
      if String.eqb k "acceptdefaults" then mret (arg1, Z.lor arg2 1)
      else
        let '(n, rest) := strtol k 0 in
        if converted rest then mret (arg1, s32 n) else raise (- EINVAL)
  end.

Definition do_newcomp_cmd (comp : string) (opt : list string) : HM Z :=
  args ← foldM newcomp_option (0, 0) opt;
  comp_id ← hal_xinit TYPE_REMOTE (fst args) (snd args) None None comp;
  if comp_id <? 1 then raise (- EINVAL) else mret 0.

Definition do_ready_cmd (comp_name : option string) : HM Z :=
  s ← hal_data;
  comp ← find_named HAL_COMPONENT comp_name;
  match comp with
  | None => raise (- ENOENT)
  | Some c =>
      cb ← get_comp c;
      if negb (c_type cb =? TYPE_REMOTE) then raise (- ENOSYS)
      else
        ob ← get_obj c;
        r ← attempt (halg_ready (hh_id (o_hdr ob)));
        match r with Some _ => mret 0 | None => raise (- EINVAL) end
  end.

(** Direction, epsilon index and flags. *)
Definition newpin_option (type : Z) (args : Z * Z * Z) (s : string) : HM (Z * Z * Z) :=
  let '(dir, eps_index, flags) := args in
  let value := default EmptyString (str_drop 1 <$> strchr s "=") in
  if strcaseeq s "in" then mret (HAL_IN, eps_index, flags)
  else if strcaseeq s "out" then mret (HAL_OUT, eps_index, flags)
  else if strcaseeq s "inout" || strcaseeq s "io" then mret (HAL_IO, eps_index, flags)
  else if strncaseeq s "eps=" 4 then
    if negb (type =? HAL_FLOAT) then raise (- EINVAL)
    else
      let '(n, rest) := strtoul value 0 in
      if converted rest then mret (dir, s32 n, flags) else raise (- EINVAL)
  else if strncaseeq s "flags=" 6 then
    let '(n, rest) := strtoul value 10 in
    if converted rest then mret (dir, eps_index, s32 n) else raise (- EINVAL)
  else raise (- EINVAL).

(** An unknown type is reported, and the pin becomes a bit. *)
Definition do_newpin_cmd (comp_name pin_name type_name : string) (opt : list string) : HM Z :=
  s ← hal_data;
  comp ← halpr_find_comp_by_name comp_name;
  pin ← halpr_find_pin_by_name pin_name;
  match comp with
  | None => raise (- ENOENT)
  | Some c =>
      cb ← get_comp c;
      if negb (c_type cb =? TYPE_REMOTE) then raise (- ENOSYS)
      else
        match pin with
        | Some _ => raise (- ENOENT)
        | None =>
            let type := default HAL_BIT (type_of_name type_name) in
            args ← foldM (newpin_option type) (HAL_IN, 0, 0) opt;
            let '(dir, eps_index, flags) := args in
            cob ← get_obj c;
            r ← attempt (halg_pin_newf type dir None (hh_id (o_hdr cob)) (Some pin_name));
            match r with
            | None => raise (- EINVAL)
            | Some o =>
                p ← get_pin o;
                set_body o (BPin (HalPin (p_data_ptr_addr p) (p_data_ptr p) (p_signal p) (p_dummysig p)
                                    (p_type p) (p_dir p) flags (u8 eps_index))) ≫= fun _ => mret 0
            end
        end
  end.

(** ** The dispatcher for the commands that are modelled *)
Section Dispatch.
Variable other : string -> list (option string) -> list string -> HM Z.

Definition do_cmd (name : string) (args : list (option string)) (rest : list string) : HM Z :=
  let cmd := String.eqb name in
  match args with
  | [] =>
      if cmd "start" then do_start_cmd else if cmd "stop" then do_stop_cmd
      else if cmd "echo" || cmd "unecho" then mret 0
      else if cmd "setexact_for_test_suite_only" then do_setexact_cmd
      else other name args rest
  | [a] =>
      if cmd "lock" then do_lock_cmd a else if cmd "unlock" then do_unlock_cmd a
      else if cmd "sweep" then do_sweep_cmd
      else if cmd "ready" then do_ready_cmd a
      else
        match a with
        | Some a =>
            if cmd "net" then do_net_cmd a rest
            else if cmd "delsig" then do_delsig_cmd a
            else if cmd "unlinkp" then do_unlinkp_cmd a
            else if cmd "newg" then do_newg_cmd a rest
            else if cmd "delg" then do_delg_cmd a
            else if cmd "delring" then do_delring_cmd a
            else if cmd "newcomp" then do_newcomp_cmd a rest
            else if cmd "setrmb" then do_setrmb_cmd a else if cmd "setwmb" then do_setwmb_cmd a
            else if cmd "clearrmb" then do_clear_rmb_cmd a else if cmd "clearwmb" then do_clear_wmb_cmd a
            else other name args rest
        | None => other name args rest
        end
  | [a; b] =>
      if cmd "delf" then do_delf_cmd a b else if cmd "newm" then do_newm_cmd a b rest
      else
        match a, b with
        | Some a, Some b =>
            if cmd "addf" then do_addf_cmd a b rest
            else if cmd "linkps" then do_linkps_cmd a b
            else if cmd "linksp" then do_linksp_cmd a b
            else if cmd "linkpp" then do_linkpp_cmd a b
            else if cmd "newsig" then do_newsig_cmd a b
            else if cmd "setp" then do_setp_cmd a b
            else if cmd "sets" then do_sets_cmd a b
            else if cmd "delm" then do_delm_cmd a b
            else if cmd "newring" then do_newring_cmd a b rest
            else other name args rest
        | _, _ => other name args rest
        end
  | [Some a; Some b; Some c] => if cmd "newpin" then do_newpin_cmd a b c rest else other name args rest
  | _ => other name args rest
  end.
End Dispatch.
End HalCmd.
