(* ===== verification/HalCmdTheorems.v ===== *)
(** * Theorems about halcmd

    [net] on an existing signal links all of its pins once its checks pass;
    on a new signal the checks do not look at the pins.  Variable replacement
    stays within its buffers, up to one unterminated form.  Tokens of a line
    come back as they were written. *)
From Stdlib Require Import Ascii.
From S2P Require Import Prelude Double CString HalCmdLine RtapiTask HalData HalMemory HalObject HalObjectFacts HalPin HalSignal HalLinks HalLinkOps HalLinkSteps HalBoot HalReach HalTheorems HalFunct HalThread RtapiShmem HalRing HalComp HalGroup HalCmd.
Import HalCmdLine.

(** ** [net] on an existing signal *)
Section Net.
Context {H : Type} {HA : Allocator H} {HS : AllocatorSpec H} {PF : Platform}.
Implicit Types s : hal_state H.


Lemma same_key_refl ob : same_key ob ob.
Proof. done. Qed.



Definition pin_named s (pin : string) (o : Z) (p : hal_pin) : Prop :=
  find_obj (sel_ok (sel_type_name HAL_PIN pin)) s = Some o /\
  exists h, hs_objs s !! o = Some (HalObj h (BPin p)).












(** On a new signal the checks of [net] let every unlinked pin pass,
    whatever its type and direction: NULL, the signal of such a pin, is taken
    for the signal of the command. *)
Theorem net_new_unchecked s pins :
  link_inv s -> pins <> [] -> Z.of_nat (length pins) < 2 ^ 31 ->
  (forall pin, pin ∈ pins -> exists o p, pin_named s pin o p /\ p_signal p = 0) ->
  preflight_net_cmd None pins s = (Ok 0, s).
Proof.
  intros Hl Hne Hlen Hall.
  assert (forall l n, (forall pin, pin ∈ l -> pin ∈ pins) -> 0 <= n_pincnt n ->
    n_pincnt n + Z.of_nat (length l) < 2 ^ 31 ->
    preflight_pins None n l s =
      (Ok (NetPlan (n_type n) (n_writers n) (n_bidirs n) (n_pincnt n + Z.of_nat (length l))), s)) as Hpf.
  { induction l as [| pin l IH]; intros n Hin H0 Hn; cbn [preflight_pins].
    { rewrite Z.add_0_r. by destruct n. }
    destruct (Hall pin (Hin pin ltac:(by left))) as (o & p & [Hf [h Ho]] & E0).
    cbn [length] in Hn.
    assert (preflight_pin None n pin s = (Ok (NetPlan (n_type n) (n_writers n) (n_bidirs n) (n_pincnt n + 1)), s)) as Hp.
    { unfold preflight_pin, halpr_find_pin_by_name, mbind, M_bind.
      rewrite find_by_name_run by apply Hl. rewrite Hf. unfold get_pin, get_obj, mbind, M_bind. rewrite Ho. simpl.
      unfold signal_of. rewrite E0. simpl. rewrite (wraps_small 32) by lia. done. }
    unfold mbind at 1, M_bind at 1. rewrite Hp, IH; simpl; try lia; [| intros; apply Hin; by right].
    do 3 f_equal. lia. }
  unfold preflight_net_cmd, mbind, M_bind, mret, M_ret. rewrite Hpf; [| done | done | simpl; lia].
  cbn [n_pincnt]. destruct pins; [done |]. simpl length. destruct (Z.eqb_spec (0 + Z.of_nat (S (length pins))) 0); [lia | done].
Qed.
End Net.

(** ** The commands on a concrete HAL *)


(** Two output pins of different types for a new signal: the checks pass, the
    command fails, and the signal and the first link stay. *)
Definition w_outs : hal_state bump := run_ops
  [OPinNew HAL_S32 HAL_OUT None 1 7 (Some "a"); OPinNew HAL_BIT HAL_OUT None 1 0 (Some "b")] boot.

Lemma w_outs_inv : link_inv w_outs.
Proof. apply run_ops_inv; [apply boot_hal_inv | ops_tac]. Qed.

Lemma net_new_unchecked_witness :
  preflight_net_cmd None ["a"; "b"] w_outs = (Ok 0, w_outs) /\
  fst (do_net_cmd "new" ["a"; "b"] w_outs) = Err (- EINVAL) /\
  is_Some (find_obj (sel_ok (sel_type_name HAL_SIGNAL "new")) (snd (do_net_cmd "new" ["a"; "b"] w_outs))).
Proof.
  split; [| split; [vm_compute; reflexivity | vm_compute; eexists; reflexivity]].
  apply net_new_unchecked; [apply w_outs_inv | discriminate | reflexivity |].
  intros pin Hin. apply elem_of_cons in Hin as [-> | Hin].
  - found HAL_PIN "a" w_outs Ea Ha. eexists _, _. split; [split; [exact Ea | eexists; exact Ha] | reflexivity].
  - apply list_elem_of_singleton in Hin as ->. found HAL_PIN "b" w_outs Eb Hb.
    eexists _, _. split; [split; [exact Eb | eexists; exact Hb] | reflexivity].
Defined.

(** [delsig] with any name but "all" deletes every signal. *)
Example delsig_deletes_others :
  fst (do_delsig_cmd "nosuch" w_pins) = Ok 0 /\
  is_Some (find_obj (sel_ok (sel_type_name HAL_SIGNAL "sig")) w_pins) /\
  find_obj (sel_ok (sel_type_name HAL_SIGNAL "sig")) (snd (do_delsig_cmd "nosuch" w_pins)) = None.
Proof. split; [vm_compute; reflexivity |]. split; [vm_compute; eexists; reflexivity | vm_compute; reflexivity]. Qed.

(** "lock tune" unlocks everything. *)
Example lock_tune_unlocks : hs_lock (snd (do_lock_cmd (Some "tune") (set_lock 255 w_pins))) = 0.
Proof. vm_compute. reflexivity. Qed.

(** The short form of setp works with any word but the equals sign. *)
Example setp_short_form {S} (func : string -> list (option string) -> list string -> M S Z) tilde :
  parse_cmd1 func tilde ["sig"; "="; "1"; EmptyString] = raise (- EINVAL) /\
  parse_cmd1 func tilde ["sig"; "is"; "1"; EmptyString] = func "setp" [Some "sig"; Some "1"] [].
Proof. done. Qed.

(** An addf with an invalid position adds the funct at the end. *)
Example addf_bad_position : addf_options ["bogus"] (-1) 0 0 = (0, 0, 0) /\ addf_options ["1x"] (-1) 0 0 = (1, 0, 0).
Proof. vm_compute. done. Qed.

(** ** Tokens *)

(** A token as it is written: plain characters and quoted parts. *)
Inductive token_part : Type := Plain (c : ascii) | Quoted (q : ascii) (s : string).

Definition plain_char (c : ascii) : bool :=
  negb (isspace c) && negb (Ascii.eqb c squote) && negb (Ascii.eqb c dquote).

Fixpoint no_char (p : ascii -> bool) (s : string) : bool :=
  match s with String c s => negb (p c) && no_char p s | EmptyString => true end.

Definition part_ok (p : token_part) : bool :=
  match p with
  | Plain c => plain_char c
  | Quoted q s => (Ascii.eqb q squote || Ascii.eqb q dquote) && no_char (fun c => Ascii.eqb c q || Ascii.eqb c cr) s
  end.

Definition part_text (p : token_part) : string :=
  match p with Plain c => String c EmptyString | Quoted q s => String q (s ++ String q EmptyString) end.

Fixpoint token_text (l : list token_part) : string :=
  match l with [] => EmptyString | p :: l => part_text p ++ token_text l end.

Definition token_ok (l : list token_part) : bool :=
  match l with [] => false | _ => forallb part_ok l end.

(** Whitespace between tokens. *)
Definition blank (s : string) : bool := no_char (fun c => negb (isspace c) || Ascii.eqb c cr) s.

(** Tokens, each behind some whitespace; none is needed before the first. *)
Fixpoint line_text (l : list (string * list token_part)) : string :=
  match l with [] => EmptyString | (sep, t) :: l => sep ++ token_text t ++ line_text l end.

Lemma plain_not_cr c : plain_char c = true -> Ascii.eqb c cr = false.
Proof.
  unfold plain_char. destruct (Ascii.eqb_spec c cr) as [-> |]; [vm_compute; discriminate | done].
Qed.

Lemma plain_facts c : plain_char c = true ->
  isspace c = false /\ Ascii.eqb c squote = false /\ Ascii.eqb c dquote = false.
Proof. unfold plain_char. rewrite !andb_true_iff, !negb_true_iff. tauto. Qed.

Lemma quote_facts q : Ascii.eqb q squote || Ascii.eqb q dquote = true ->
  isspace q = false /\ Ascii.eqb q cr = false.
Proof. rewrite orb_true_iff, !Ascii.eqb_eq. intros [-> | ->]; vm_compute; done. Qed.

Lemma not_embedded c s : Ascii.eqb c cr = false -> embedded_cr c s = false.
Proof. unfold embedded_cr. by intros ->. Qed.

Lemma snoc_app cur c s : (snoc cur c ++ s)%string = (cur ++ String c s)%string.
Proof. unfold snoc. by rewrite <- str_app_assoc. Qed.

(** Within a quotation. *)
Lemma tokenize_quoted q s cur m rest :
  no_char (fun c => Ascii.eqb c q || Ascii.eqb c cr) s = true ->
  tokenize (IN_QUOTE q) cur (S m) (s ++ rest) = tokenize (IN_QUOTE q) (cur ++ s) (S m) rest.
Proof.
  revert cur. induction s as [| c s IH]; intros cur Hs; [by rewrite str_app_nil |].
  rewrite str_app_cons. cbn [tokenize]. simpl in Hs.
  apply andb_true_iff in Hs as [Hc Hs]. apply negb_true_iff, orb_false_iff in Hc as [Hq Hcr].
  rewrite (not_embedded c) by done. rewrite Hq. rewrite IH by done. by rewrite snoc_app.
Qed.

(** Within a token. *)
Lemma tokenize_parts l cur m rest :
  forallb part_ok l = true ->
  tokenize IN_TOKEN cur (S m) (token_text l ++ rest) = tokenize IN_TOKEN (cur ++ token_text l) (S m) rest.
Proof.
  revert cur. induction l as [| p l IH]; intros cur Hl; [by rewrite str_app_nil |].
  simpl in Hl. apply andb_true_iff in Hl as [Hp Hl]. cbn [token_text]. rewrite <- str_app_assoc.
  destruct p as [c | q s]; simpl in Hp; cbn [part_text].
  - destruct (plain_facts c Hp) as (E1 & E2 & E3). rewrite str_app_cons. cbn [tokenize].
    rewrite (not_embedded c) by (by apply plain_not_cr). rewrite E1, E2, E3. simpl orb. cbv iota.
    change ((EmptyString ++ (token_text l ++ rest))%string) with (token_text l ++ rest)%string.
    rewrite IH by done. by rewrite snoc_app.
  - apply andb_true_iff in Hp as [Hq Hs]. destruct (quote_facts q Hq) as [E1 E2].
    rewrite str_app_cons. cbn [tokenize]. rewrite (not_embedded q) by done. rewrite Hq.
    rewrite <- str_app_assoc, tokenize_quoted by done. rewrite str_app_cons. cbn [tokenize].
    rewrite (not_embedded q) by done. rewrite Ascii.eqb_refl.
    change ((EmptyString ++ (token_text l ++ rest))%string) with (token_text l ++ rest)%string.
    rewrite IH by done. f_equal.
    by rewrite snoc_app, <- (str_app_assoc (snoc cur q)), snoc_app, str_app_cons, <- (str_app_assoc s).
Qed.

(** The whitespace in front of a token. *)
Lemma tokenize_blank sep m rest :
  blank sep = true -> tokenize BETWEEN_TOKENS EmptyString (S m) (sep ++ rest) = tokenize BETWEEN_TOKENS EmptyString (S m) rest.
Proof.
  induction sep as [| c sep IH]; intros Hs; [done |]. unfold blank in Hs. simpl in Hs.
  apply andb_true_iff in Hs as [Hc Hs]. apply negb_true_iff, orb_false_iff in Hc as [Hsp Hcr].
  apply negb_false_iff in Hsp. rewrite str_app_cons. cbn [tokenize].
  rewrite (not_embedded c), Hsp by done. by apply IH.
Qed.

(** The whitespace behind a token ends it. *)
Lemma tokenize_end c sep cur m rest :
  blank (String c sep) = true ->
  tokenize IN_TOKEN cur (S m) (String c sep ++ rest) = cons cur <$> tokenize BETWEEN_TOKENS EmptyString m (sep ++ rest).
Proof.
  intros Hs. unfold blank in Hs. simpl in Hs.
  apply andb_true_iff in Hs as [Hc Hs]. apply negb_true_iff, orb_false_iff in Hc as [Hsp Hcr].
  apply negb_false_iff in Hsp. rewrite str_app_cons. cbn [tokenize]. rewrite (not_embedded c) by done.
  destruct (Ascii.eqb_spec c squote) as [-> |]; [vm_compute in Hsp; discriminate |].
  destruct (Ascii.eqb_spec c dquote) as [-> |]; [vm_compute in Hsp; discriminate |].
  simpl orb. cbv iota. by rewrite Hsp.
Qed.

(** The first part of a token. *)
Lemma tokenize_begin p l m rest :
  forallb part_ok (p :: l) = true ->
  tokenize BETWEEN_TOKENS EmptyString (S m) (token_text (p :: l) ++ rest)
  = tokenize IN_TOKEN (token_text (p :: l)) (S m) rest.
Proof.
  intros Hl. transitivity (tokenize IN_TOKEN (EmptyString ++ token_text (p :: l)) (S m) rest); [| done].
  rewrite <- (tokenize_parts (p :: l) EmptyString m rest) by done. simpl in Hl.
  apply andb_true_iff in Hl as [Hp Hl]. cbn [token_text]. rewrite <- str_app_assoc.
  destruct p as [c | q s]; simpl in Hp; cbn [part_text]; rewrite !str_app_cons; cbn [tokenize].
  - destruct (plain_facts c Hp) as (E1 & E2 & E3). rewrite (not_embedded c) by (by apply plain_not_cr).
    by rewrite E1, E2, E3.
  - apply andb_true_iff in Hp as [Hq Hs]. destruct (quote_facts q Hq) as [E1 E2].
    rewrite (not_embedded q) by done. by rewrite E1, Hq.
Qed.

(** Do the tokens of a line fit?  A last token that is followed by
    whitespace needs one place more. *)
Definition fits (m : nat) (l : list (string * list token_part)) (tl : string) : bool :=
  (length l <? m)%nat || ((length l =? m)%nat && (0 <? m)%nat && String.eqb tl EmptyString).

Lemma blank_drop c sep m rest :
  blank (String c sep) = true ->
  tokenize BETWEEN_TOKENS EmptyString m (sep ++ rest) = tokenize BETWEEN_TOKENS EmptyString m (String c sep ++ rest).
Proof.
  intros Hs. destruct m as [| m]; [by destruct sep, rest |].
  rewrite !tokenize_blank; [done | exact Hs |]. unfold blank in *. simpl in Hs. by apply andb_true_iff in Hs as [_ ?].
Qed.

Lemma tokenize_lines m l tl :
  Forall (fun x => blank (fst x) = true /\ token_ok (snd x) = true) l ->
  Forall (fun x => fst x <> EmptyString) (tail l) -> blank tl = true ->
  tokenize BETWEEN_TOKENS EmptyString m (line_text l ++ tl)
  = if fits m l tl then Some (map (fun x => token_text (snd x)) l ++ replicate (m - length l) EmptyString) else None.
Proof.
  intros Hl. revert m. induction Hl as [| [sep t] l [Hsep Ht] Hl IH]; intros m Hne Htl.
  - cbn [line_text]. change ((EmptyString ++ tl)%string) with tl. destruct m as [| m]; [by destruct tl |].
    pose proof (tokenize_blank tl m EmptyString Htl) as Hb. rewrite str_app_nil in Hb. rewrite Hb. done.
  - cbn [line_text]. destruct m as [| m]; [destruct ((sep ++ token_text t ++ line_text l) ++ tl)%string; done |].
    simpl in Hsep, Ht. rewrite <- !str_app_assoc, tokenize_blank by done.
    destruct t as [| p t]; [done |]. rewrite tokenize_begin by done.
    destruct l as [| [sep2 t2] l2].
    + cbn [line_text]. change ((EmptyString ++ tl)%string) with tl. destruct tl as [| c tl].
      * cbn [tokenize]. unfold fits. simpl. rewrite Nat.sub_0_r. by destruct m.
      * rewrite <- (str_app_nil (String c tl)), tokenize_end by done.
        destruct m as [| m]; [by destruct tl |].
        assert (blank tl = true) as Hb by (unfold blank in *; simpl in Htl; by apply andb_true_iff in Htl as [_ ?]).
        rewrite tokenize_blank by done. done.
    + inversion Hne as [| ? ? Hn1 Hn2]; subst. simpl in Hn1. destruct sep2 as [| c sep2]; [done |].
      inversion Hl as [| ? ? [Hb2 Ht2] Hl2]; subst. simpl in Hb2.
      cbn [line_text] in *. rewrite <- !str_app_assoc in *.
      rewrite tokenize_end by done. rewrite (blank_drop c) by done.
      rewrite IH by done. unfold fits. cbn [length map]. destruct m as [| m]; [done |].
      change (S (S (length l2)) <? S (S m))%nat with (S (length l2) <? S m)%nat.
      change (S (S (length l2)) =? S (S m))%nat with (S (length l2) =? S m)%nat.
      change (0 <? S (S m))%nat with (0 <? S m)%nat. by destruct (_ || _).
Qed.

(** A line whose tokens are plain characters and quoted parts (of either
    quote, with anything but the quote inside), separated by whitespace, is
    split into exactly these tokens, quotes included, and padded with empty
    ones, when there are fewer than 20; a line of 20 tokens must not end in
    whitespace, and more tokens are refused. *)
Theorem tokenize_roundtrip l tl :
  Forall (fun x => blank (fst x) = true /\ token_ok (snd x) = true) l ->
  Forall (fun x => fst x <> EmptyString) (tail l) -> blank tl = true ->
  tokenize BETWEEN_TOKENS EmptyString MAX_TOK (line_text l ++ tl)
  = if (length l <? 20)%nat || ((length l =? 20)%nat && String.eqb tl EmptyString)
    then Some (map (fun x => token_text (snd x)) l ++ replicate (20 - length l) EmptyString) else None.
Proof.
  intros Hl Hne Htl. rewrite tokenize_lines by done. unfold fits, MAX_TOK. simpl. by rewrite andb_true_r.
Qed.

Lemma tokenize_roundtrip_witness :
  tokenize BETWEEN_TOKENS EmptyString MAX_TOK "net sig  <= 'a b'" = Some (["net"; "sig"; "<="; "'a b'"] ++ replicate 16 EmptyString).
Proof.
  pose (word s := map Plain (String.list_ascii_of_string s)).
  pose (l := [(EmptyString, word "net"); (" ", word "sig"); ("  ", word "<="); (" ", [Quoted squote "a b"])]%string).
  exact (tokenize_roundtrip l EmptyString ltac:(repeat constructor) ltac:(repeat constructor; discriminate) eq_refl).
Defined.

(** ** Variable replacement *)
Definition suffix (r s : string) : Prop := exists pre, s = (pre ++ r)%string.

Lemma suffix_drop n s : suffix (str_drop n s) s.
Proof. exists (str_take n s). by rewrite str_take_drop. Qed.

Lemma suffix_trans a b c : suffix a b -> suffix b c -> suffix a c.
Proof. intros [p ->] [q ->]. exists (q ++ p)%string. by rewrite str_app_assoc. Qed.

Lemma suffix_cons c s : suffix s (String c s).
Proof. exists (String c EmptyString). done. Qed.

(** The form whose end is not noticed: an ini variable in an unclosed parenthesis. *)
Definition unclosed (s : string) : Prop := exists sec var,
  suffix ("[" ++ sec ++ "](" ++ var)%string s /\ str_mem ")" var = false.

Lemma strcspn_full s c : (String.length s <= strcspn s (String c EmptyString))%nat -> str_mem c s = false.
Proof.
  induction s as [| d s IH]; simpl; [done |]. rewrite orb_false_r, (Ascii.eqb_sym c d).
  destruct (Ascii.eqb d c); simpl; [lia |]. intros Hl. apply IH. lia.
Qed.

(** The delimiter behind the part that has none. *)
Lemma strcspn_stop s c : (strcspn s (String c EmptyString) < String.length s)%nat ->
  str_drop (strcspn s (String c EmptyString)) s = String c (str_drop (S (strcspn s (String c EmptyString))) s).
Proof.
  induction s as [| d s IH]; [simpl; lia |]. cbn [strcspn str_mem]. rewrite orb_false_r.
  destruct (Ascii.eqb_spec d c) as [-> |]; [done |]. cbn [String.length]. intros Hl.
  cbn [str_drop] in *. apply IH. lia.
Qed.

(** Where a variable name ends: further on in the source, or beyond its end. *)
Lemma var_name_rest strict sp var rest : var_name strict sp = Ok (var, rest) ->
  match rest with
  | Some r => suffix r sp
  | None => strict = false /\ exists varP, sp = String "(" varP /\ str_mem ")" varP = false
  end.
Proof.
  unfold var_name. destruct sp as [| c varP]; [done |]. destruct (Ascii.eqb_spec c "(") as [-> |].
  - destruct (strict && _) eqn:Es; [done |]. destruct (_ =? 0)%nat; [done |]. destruct (127 <? _)%nat; [done |].
    intros [= _ <-]. destruct (_ <? String.length varP)%nat eqn:E.
    + exact (suffix_trans _ _ _ (suffix_drop (S (strcspn varP (String ")" EmptyString))) varP) (suffix_cons _ varP)).
    + apply Nat.ltb_ge in E. split; [| exists varP; split; [done | by apply strcspn_full]].
      destruct strict; [| done]. simpl in Es. apply Nat.leb_gt in Es. lia.
  - destruct (_ =? 0)%nat; [done |]. destruct (127 <? _)%nat; [done |]. intros [= _ <-]. apply suffix_drop.
Qed.

Section Bounds.
Variable getenv : string -> option string.
Variable iniFind : string -> option string -> option string.

Lemma reference_rest delim sp repl rest : Ascii.eqb delim "$" || Ascii.eqb delim "[" = true ->
  reference getenv iniFind delim sp = Ok (repl, rest) ->
  match rest with Some r => suffix r sp | None => unclosed (String delim sp) end.
Proof.
  intros Hd. unfold reference. destruct (Ascii.eqb_spec delim "$") as [-> |].
  - destruct (var_name true sp) as [[var r] | |] eqn:Ev; try done. apply var_name_rest in Ev.
    destruct (getenv var); [| done]. intros [= _ <-]. destruct r; [done | by destruct Ev].
  - simpl in Hd. apply Ascii.eqb_eq in Hd as ->.
    destruct (_ <=? _)%nat eqn:El; [done |]. apply Nat.leb_gt in El. destruct (127 <? _)%nat; [done |].
    destruct (var_name false _) as [[var r] | |] eqn:Ev; try done. apply var_name_rest in Ev.
    destruct (iniFind _ _); [| done]. intros [= _ <-]. destruct r as [r |].
    + eapply suffix_trans; [exact Ev | apply suffix_drop].
    + destruct Ev as (_ & varP & Ev & Hno). exists (str_take (strcspn sp "]") sp), varP. split; [| done].
      exists EmptyString. apply strcspn_stop in El. rewrite Ev in El.
      rewrite <- (str_take_drop (strcspn sp "]") sp) at 1. rewrite El. done.
Qed.

Lemma reference_no_crash delim sp : reference getenv iniFind delim sp <> Crash.
Proof.
  assert (forall strict x, var_name strict x <> Crash) as Hv.
  { intros strict x. unfold var_name. repeat case_match; done. }
  unfold reference. destruct (Ascii.eqb delim "$").
  - pose proof (Hv true sp). destruct (var_name true sp) as [[] | |]; try done. by destruct (getenv _).
  - destruct (_ <=? _)%nat; [done |]. destruct (127 <? _)%nat; [done |].
    pose proof (Hv false (str_drop (S (strcspn sp "]")) sp)).
    destruct (var_name false _) as [[] | |]; try done. by destruct (iniFind _ _).
Qed.

Lemma strlimcpy_length dest src n space dest' space' : strlimcpy dest src n space = Some (dest', space') ->
  0 <= space' /\ Z.of_nat (String.length dest') + space' = Z.of_nat (String.length dest) + space.
Proof.
  unfold strlimcpy. destruct (Z.ltb_spec space (Z.of_nat n)); [done |]. intros [= <- <-].
  rewrite str_app_length. assert (String.length (str_take n src) <= n)%nat.
  { clear. revert src. induction n; intros [| c s]; simpl; try lia. specialize (IHn s). lia. }
  lia.
Qed.

Lemma suffix_length r s : suffix r s -> (String.length r <= String.length s)%nat.
Proof. intros [pre ->]. rewrite str_app_length. lia. Qed.

Lemma unclosed_suffix r s : unclosed r -> suffix r s -> unclosed s.
Proof. intros (sec & var & Hs & Hv) Hr. exists sec, var. split; [by eapply suffix_trans | done]. Qed.

(** What stops [strcspn] is one of the delimiters. *)
Lemma strcspn_delim s d c s' : str_drop (strcspn s d) s = String c s' -> str_mem c d = true.
Proof.
  induction s as [| x s IH]; [done |]. cbn [strcspn]. destruct (str_mem x d) eqn:E.
  - cbn [str_drop]. by intros [= -> ->].
  - cbn [str_drop]. exact IH.
Qed.

Lemma reference_err delim sp e : reference getenv iniFind delim sp = Err e -> -7 <= e <= -1.
Proof. unfold reference, var_name. intros H. repeat case_match; simplify_eq; lia. Qed.

Lemma replace_from_step fuel sp dest space : sp <> EmptyString ->
  replace_from getenv iniFind (S fuel) (Some sp) dest space =
  let next_delim := strcspn sp "$[" in
  match strlimcpy dest sp next_delim space with
  | None => Err (-6)
  | Some (dest, space) =>
      match str_drop next_delim sp with
      | EmptyString => Ok dest
      | String delim sp =>
          match reference getenv iniFind delim sp with
          | Ok (replacement, sp) =>
              match strlimcpy dest replacement (String.length replacement) space with
              | None => Err (-6)
              | Some (dest, space) => replace_from getenv iniFind fuel sp dest space
              end
          | Err e => Err e
          | Crash => Crash
          end
      end
  end.
Proof. by destruct sp. Qed.

(** The loop: it ends, never writes beyond the space, and leaves the source
    only behind an unclosed parenthesis. *)
Lemma replace_from_spec fuel sp dest space source :
  (String.length sp < fuel)%nat -> 0 <= space -> suffix sp source ->
  match replace_from getenv iniFind fuel (Some sp) dest space with
  | Ok r => Z.of_nat (String.length r) <= Z.of_nat (String.length dest) + space
  | Err e => -7 <= e <= -1
  | Crash => unclosed source
  end.
Proof.
  revert sp dest space. induction fuel as [| fuel IH]; intros sp dest space Hf Hs Hsuf; [lia |].
  destruct (decide (sp = EmptyString)) as [-> |]; [simpl; lia |].
  rewrite replace_from_step by done. cbv zeta.
  destruct (strlimcpy dest sp _ space) as [[dest1 space1] |] eqn:E1; [| lia].
  apply strlimcpy_length in E1 as [Hs1 Hl1].
  destruct (str_drop (strcspn sp "$[") sp) as [| delim sp1] eqn:Ed; [lia |].
  pose proof (suffix_drop (strcspn sp "$[") sp) as Hd. rewrite Ed in Hd.
  pose proof (suffix_length _ _ Hd) as Hld. cbn [String.length] in Hld.
  pose proof (reference_no_crash delim sp1) as Hnc. pose proof (reference_err delim sp1) as He.
  destruct (reference getenv iniFind delim sp1) as [[repl rest] | e |] eqn:Er; [| by apply He | done].
  apply reference_rest in Er; [| apply strcspn_delim in Ed; simpl in Ed; by rewrite orb_false_r in Ed].
  destruct (strlimcpy dest1 repl _ space1) as [[dest2 space2] |] eqn:E2; [| lia].
  apply strlimcpy_length in E2 as [Hs2 Hl2]. destruct rest as [r |].
  - pose proof (suffix_length _ _ Er). specialize (IH r dest2 space2 ltac:(lia) Hs2).
    specialize (IH (suffix_trans _ _ _ Er (suffix_trans _ _ _ (suffix_cons delim sp1) (suffix_trans _ _ _ Hd Hsuf)))).
    destruct (replace_from _ _ _ _ _ _); [lia | done | done].
  - assert (replace_from getenv iniFind fuel None dest2 space2 = Crash) as -> by (by destruct fuel).
    eapply unclosed_suffix; [exact Er |]. exact (suffix_trans _ _ _ Hd Hsuf).
Qed.
End Bounds.

(** [replace_vars] ends on every line, never stores more characters than
    the destination has room for beside the terminator, and every failure is
    one of the seven codes of its callers.  It reads behind the end of the
    line only if the line has a reference [[section](variable] whose
    parenthesis is not closed. *)
Theorem replace_vars_bounds getenv iniFind (source : string) (max_chars : Z) : 1 <= max_chars ->
  match replace_vars getenv iniFind source max_chars with
  | Ok r => Z.of_nat (String.length r) <= max_chars - 1
  | Err e => -7 <= e <= -1
  | Crash => unclosed source
  end.
Proof.
  intros Hm. unfold replace_vars.
  pose proof (replace_from_spec getenv iniFind (S (String.length source)) source EmptyString (max_chars - 1) source) as H.
  specialize (H ltac:(lia) ltac:(lia) ltac:(by exists EmptyString)). cbn [String.length] in H.
  destruct (replace_from _ _ _ _ _ _); [lia | done | done].
Qed.

Definition getenv1 (v : string) : option string := if String.eqb v "HOME" then Some "/h"%string else None.
Definition iniFind1 (v : string) (s : option string) : option string :=
  if String.eqb v "MAX" then Some "12.5"%string else None.

Lemma replace_vars_bounds_witness :
  replace_vars getenv1 iniFind1 "setp $HOME/x [AXIS](MAX)" 100 = Ok "setp /h/x 12.5"%string /\
  Z.of_nat (String.length "setp /h/x 12.5") <= 100 - 1.
Proof.
  pose proof (replace_vars_bounds getenv1 iniFind1 "setp $HOME/x [AXIS](MAX)" 100 ltac:(lia)) as H.
  split; [reflexivity |]. exact H.
Defined.

(** The exception is real: the parenthesis of an ini reference may stay open. *)
Example unclosed_reference_overruns : replace_vars getenv1 iniFind1 "setp x [AXIS](MAX" 100 = Crash.
Proof. reflexivity. Qed.

(** An open parenthesis of the environment is an error. *)
Example unclosed_environment_refused : replace_vars getenv1 iniFind1 "setp x $(HOME" 100 = Err (-1).
Proof. reflexivity. Qed.
