(* ===== verification/HyComm.v ===== *)
(** * Huanyang VFD protocol (modules/unmanaged/drivers/huanyang_vfd/src/hy_comm.c)

    Requests and replies of an inverter on a serial line: a slave address, a
    function code, a length, data, and a CRC.  What arrives on the line is a
    list of events, as select and read report them; what is written is
    recorded.  Messages are not modelled; [flush] is what tcflush leaves of
    the input, [junk] what an array on the stack holds before it is written. *)
From S2P Require Import Prelude.

Module HyComm.

Definition COMM_TIME_OUT : Z := - 0x0C.
Definition PORT_SOCKET_FAILURE : Z := - 0x0D.
Definition SELECT_FAILURE : Z := - 0x0E.
Definition INVALID_CRC : Z := - 0x10.
Definition ILLEGAL_FUNCTION : Z := -1.
Definition PORT_FAILURE : Z := -11.
Definition MAX_PACKET_SIZE : Z := 8.

Definition FUNCTION_READ : Z := 0x01.
Definition FUNCTION_WRITE : Z := 0x02.
Definition WRITE_CONTROL_DATA : Z := 0x03.
Definition READ_CONTROL_STATUS : Z := 0x04.
Definition WRITE_FREQ_DATA : Z := 0x05.

Record hycomm_data_t := HycommData {
  slave : Z;
  function : Z;
  parameter : Z;
  data : Z;                 (* int *)
  ret_length : Z;
  ret_parameter : Z;
  ret_data : Z;             (* int *)
}.

(** ** CRC *)
Definition table_crc_hi : list Z := [
  0x00; 0xC1; 0x81; 0x40; 0x01; 0xC0; 0x80; 0x41; 0x01; 0xC0; 0x80; 0x41; 0x00; 0xC1; 0x81; 0x40;
  0x01; 0xC0; 0x80; 0x41; 0x00; 0xC1; 0x81; 0x40; 0x00; 0xC1; 0x81; 0x40; 0x01; 0xC0; 0x80; 0x41;
  0x01; 0xC0; 0x80; 0x41; 0x00; 0xC1; 0x81; 0x40; 0x00; 0xC1; 0x81; 0x40; 0x01; 0xC0; 0x80; 0x41;
  0x00; 0xC1; 0x81; 0x40; 0x01; 0xC0; 0x80; 0x41; 0x01; 0xC0; 0x80; 0x41; 0x00; 0xC1; 0x81; 0x40;
  0x01; 0xC0; 0x80; 0x41; 0x00; 0xC1; 0x81; 0x40; 0x00; 0xC1; 0x81; 0x40; 0x01; 0xC0; 0x80; 0x41;
  0x00; 0xC1; 0x81; 0x40; 0x01; 0xC0; 0x80; 0x41; 0x01; 0xC0; 0x80; 0x41; 0x00; 0xC1; 0x81; 0x40;
  0x00; 0xC1; 0x81; 0x40; 0x01; 0xC0; 0x80; 0x41; 0x01; 0xC0; 0x80; 0x41; 0x00; 0xC1; 0x81; 0x40;
  0x01; 0xC0; 0x80; 0x41; 0x00; 0xC1; 0x81; 0x40; 0x00; 0xC1; 0x81; 0x40; 0x01; 0xC0; 0x80; 0x41;
  0x01; 0xC0; 0x80; 0x41; 0x00; 0xC1; 0x81; 0x40; 0x00; 0xC1; 0x81; 0x40; 0x01; 0xC0; 0x80; 0x41;
  0x00; 0xC1; 0x81; 0x40; 0x01; 0xC0; 0x80; 0x41; 0x01; 0xC0; 0x80; 0x41; 0x00; 0xC1; 0x81; 0x40;
  0x00; 0xC1; 0x81; 0x40; 0x01; 0xC0; 0x80; 0x41; 0x01; 0xC0; 0x80; 0x41; 0x00; 0xC1; 0x81; 0x40;
  0x01; 0xC0; 0x80; 0x41; 0x00; 0xC1; 0x81; 0x40; 0x00; 0xC1; 0x81; 0x40; 0x01; 0xC0; 0x80; 0x41;
  0x00; 0xC1; 0x81; 0x40; 0x01; 0xC0; 0x80; 0x41; 0x01; 0xC0; 0x80; 0x41; 0x00; 0xC1; 0x81; 0x40;
  0x01; 0xC0; 0x80; 0x41; 0x00; 0xC1; 0x81; 0x40; 0x00; 0xC1; 0x81; 0x40; 0x01; 0xC0; 0x80; 0x41;
  0x01; 0xC0; 0x80; 0x41; 0x00; 0xC1; 0x81; 0x40; 0x00; 0xC1; 0x81; 0x40; 0x01; 0xC0; 0x80; 0x41;
  0x00; 0xC1; 0x81; 0x40; 0x01; 0xC0; 0x80; 0x41; 0x01; 0xC0; 0x80; 0x41; 0x00; 0xC1; 0x81; 0x40].

Definition table_crc_lo : list Z := [
  0x00; 0xC0; 0xC1; 0x01; 0xC3; 0x03; 0x02; 0xC2; 0xC6; 0x06; 0x07; 0xC7; 0x05; 0xC5; 0xC4; 0x04;
  0xCC; 0x0C; 0x0D; 0xCD; 0x0F; 0xCF; 0xCE; 0x0E; 0x0A; 0xCA; 0xCB; 0x0B; 0xC9; 0x09; 0x08; 0xC8;
  0xD8; 0x18; 0x19; 0xD9; 0x1B; 0xDB; 0xDA; 0x1A; 0x1E; 0xDE; 0xDF; 0x1F; 0xDD; 0x1D; 0x1C; 0xDC;
  0x14; 0xD4; 0xD5; 0x15; 0xD7; 0x17; 0x16; 0xD6; 0xD2; 0x12; 0x13; 0xD3; 0x11; 0xD1; 0xD0; 0x10;
  0xF0; 0x30; 0x31; 0xF1; 0x33; 0xF3; 0xF2; 0x32; 0x36; 0xF6; 0xF7; 0x37; 0xF5; 0x35; 0x34; 0xF4;
  0x3C; 0xFC; 0xFD; 0x3D; 0xFF; 0x3F; 0x3E; 0xFE; 0xFA; 0x3A; 0x3B; 0xFB; 0x39; 0xF9; 0xF8; 0x38;
  0x28; 0xE8; 0xE9; 0x29; 0xEB; 0x2B; 0x2A; 0xEA; 0xEE; 0x2E; 0x2F; 0xEF; 0x2D; 0xED; 0xEC; 0x2C;
  0xE4; 0x24; 0x25; 0xE5; 0x27; 0xE7; 0xE6; 0x26; 0x22; 0xE2; 0xE3; 0x23; 0xE1; 0x21; 0x20; 0xE0;
  0xA0; 0x60; 0x61; 0xA1; 0x63; 0xA3; 0xA2; 0x62; 0x66; 0xA6; 0xA7; 0x67; 0xA5; 0x65; 0x64; 0xA4;
  0x6C; 0xAC; 0xAD; 0x6D; 0xAF; 0x6F; 0x6E; 0xAE; 0xAA; 0x6A; 0x6B; 0xAB; 0x69; 0xA9; 0xA8; 0x68;
  0x78; 0xB8; 0xB9; 0x79; 0xBB; 0x7B; 0x7A; 0xBA; 0xBE; 0x7E; 0x7F; 0xBF; 0x7D; 0xBD; 0xBC; 0x7C;
  0xB4; 0x74; 0x75; 0xB5; 0x77; 0xB7; 0xB6; 0x76; 0x72; 0xB2; 0xB3; 0x73; 0xB1; 0x71; 0x70; 0xB0;
  0x50; 0x90; 0x91; 0x51; 0x93; 0x53; 0x52; 0x92; 0x96; 0x56; 0x57; 0x97; 0x55; 0x95; 0x94; 0x54;
  0x9C; 0x5C; 0x5D; 0x9D; 0x5F; 0x9F; 0x9E; 0x5E; 0x5A; 0x9A; 0x9B; 0x5B; 0x99; 0x59; 0x58; 0x98;
  0x88; 0x48; 0x49; 0x89; 0x4B; 0x8B; 0x8A; 0x4A; 0x4E; 0x8E; 0x8F; 0x4F; 0x8D; 0x4D; 0x4C; 0x8C;
  0x44; 0x84; 0x85; 0x45; 0x87; 0x47; 0x46; 0x86; 0x82; 0x42; 0x43; 0x83; 0x41; 0x81; 0x80; 0x40].

(** The bytes [crc_hi] and [crc_lo]. *)
Definition crc_step (c : Z * Z) (b : Z) : Z * Z :=
  let '(crc_hi, crc_lo) := c in
  let i := Z.to_nat (Z.lxor crc_hi b) in
  (Z.lxor crc_lo (nth i table_crc_hi 0), nth i table_crc_lo 0).

Definition crc_state (buffer : list Z) : Z * Z := fold_left crc_step buffer (0xFF, 0xFF).

Definition crc16 (buffer : list Z) : Z :=
  let '(crc_hi, crc_lo) := crc_state buffer in Z.lor (Z.shiftl crc_hi 8) crc_lo.

(** ** The serial line *)
Inductive event :=
| EvData (bytes : list Z)      (* at least one byte can be read *)
| EvEof                        (* read returns 0 *)
| EvReadError
| EvTimeout                    (* select returns 0 *)
| EvSignal                     (* select fails with EINTR *)
| EvSelectError.

Record port := Port {
  rx : list event;
  tx : list (list Z);          (* what was written *)
  write_results : list Z;      (* of the next calls of write; by default all is written *)
}.

Definition set_rx (l : list event) (p : port) : port := Port l (tx p) (write_results p).

Section Line.
Variable flush : list event -> list event.
Variable junk : nat -> Z.

Definition error_treat : M port unit := modify (fun p => set_rx (flush (rx p)) p).

(** The byte [i] of an array of which [msg] is written. *)
Definition byte_at (msg : list Z) (i : nat) : Z := default (junk i) (msg !! i).

Definition check_crc16 (msg : list Z) : M port Z :=
  let n := length msg in
  if (n <? 2)%nat then crash
  else
    let crc_calc := crc16 (take (n - 2) msg) in
    let crc_received := Z.lor (Z.shiftl (byte_at msg (n - 2)) 8) (byte_at msg (n - 1)) in
    if crc_calc =? crc_received then mret 0 else error_treat ≫= fun _ => mret INVALID_CRC.

(** ** Receiving *)

(** [WAIT_DATA]: there is something to read ([None]), or the code to return.
    When no event is left nothing arrives any more. *)
Fixpoint wait_events (l : list event) : option Z * list event :=
  match l with
  | [] => (Some COMM_TIME_OUT, [])
  | EvTimeout :: l => (Some COMM_TIME_OUT, l)
  | EvSelectError :: l => (Some SELECT_FAILURE, l)
  | EvSignal :: l => wait_events l
  | _ => (None, l)
  end.

Definition WAIT_DATA : M port (option Z) := fun p =>
  let '(r, l) := wait_events (rx p) in
  match r with
  | Some code =>
      if code =? SELECT_FAILURE
      then (error_treat ≫= fun _ => mret (Some code)) (set_rx l p) else (Ok (Some code), set_rx l p)
  | None => (Ok None, set_rx l p)
  end.

(** read of at most [n] bytes: [None] is -1. *)
Definition read (n : Z) : M port (option (list Z)) := fun p =>
  match rx p with
  | EvData bytes :: l =>
      let got := take (Z.to_nat (u64 n)) bytes in
      let left := drop (Z.to_nat (u64 n)) bytes in
      (Ok (Some got), set_rx (match left with [] => l | _ => EvData left :: l end) p)
  | EvEof :: l => (Ok (Some []), set_rx l p)
  | _ :: l => (Ok None, set_rx l p)
  | [] => (Ok None, p)
  end.

(** The loop of receive_msg behind the first wait: [msg] has been read, and
    [length_to_read] is missing.  The array has [MAX_PACKET_SIZE] bytes. *)
Fixpoint receive_loop (fuel : nat) (computed : Z) (msg : list Z) (length_to_read : Z) : M port (Z * list Z) :=
  match fuel with
  | O => crash
  | S fuel =>
      r ← read length_to_read;
      match r with
      | None | Some [] => error_treat ≫= fun _ => mret (PORT_SOCKET_FAILURE, msg)
      | Some got =>
          let msg := msg ++ got in
          let msg_length := Z.of_nat (length msg) in
          if MAX_PACKET_SIZE <? msg_length then crash
          else
            let length_to_read :=
              if msg_length <? computed then
                if (2 <=? msg_length) && (msg_length =? byte_at msg 2 + 5) then 0 else computed - msg_length
              else 0 in
            if 0 <? length_to_read then
              w ← WAIT_DATA;
              match w with
              | Some code => mret (code, msg)
              | None => receive_loop fuel computed msg length_to_read
              end
            else mret (0, msg)
      end
  end.

Definition receive_msg (computed : Z) : M port (Z * list Z) :=
  w ← WAIT_DATA;
  match w with
  | Some code => mret (code, [])
  | None => receive_loop (Z.to_nat MAX_PACKET_SIZE + 1) computed [] computed
  end.

(** ** Queries *)

(** -1 for the reserved functions. *)
Definition compute_response_length (function : Z) : Z :=
  if (function =? 0x01) || (function =? 0x02) then 8
  else if function =? 0x03 then 6
  else if function =? 0x04 then 8
  else if function =? 0x05 then 7
  else -1.

(** The packet without its CRC; [None]: -1. *)
Definition build_query (d : hycomm_data_t) : option (list Z) :=
  if (function d =? FUNCTION_READ) || (function d =? FUNCTION_WRITE) then
    Some [slave d; function d; 0x03; parameter d; u8 (Z.shiftr (data d) 8); Z.land (data d) 0xFF]
  else if (function d =? WRITE_CONTROL_DATA) || (function d =? READ_CONTROL_STATUS) then
    Some [slave d; function d; 0x01; Z.land (data d) 0xFF]
  else if function d =? WRITE_FREQ_DATA then
    Some [slave d; function d; 0x02; u8 (Z.shiftr (data d) 8); Z.land (data d) 0xFF]
  else None.

Definition write (bytes : list Z) : M port Z := fun p =>
  match write_results p with
  | ret :: l => (Ok ret, Port (rx p) (tx p ++ [bytes]) l)
  | [] => (Ok (Z.of_nat (length bytes)), Port (rx p) (tx p ++ [bytes]) [])
  end.

Definition hycomm_send (query : list Z) : M port Z :=
  let s_crc := crc16 query in
  let packet := query ++ [Z.shiftr s_crc 8; Z.land s_crc 0xFF] in
  ret ← write packet;
  if (ret =? -1) || negb (ret =? Z.of_nat (length packet))
  then error_treat ≫= fun _ => mret PORT_FAILURE else mret ret.

(** The code, and the bytes of the response. *)
Definition hycomm_check_response (function : Z) : M port (Z * list Z) :=
  r ← receive_msg (compute_response_length function);
  let '(ret, response) := r in
  if ret =? 0 then crc ← check_crc16 response; mret (crc, response)
  else if ret =? COMM_TIME_OUT then error_treat ≫= fun _ => mret (ret, response)
  else mret (ret, response).

(** What the response says. *)
Definition parse_response (d : hycomm_data_t) (response : list Z) : Z * hycomm_data_t :=
  let at_ := byte_at response in
  let word i := Z.lor (Z.shiftl (at_ i) 8) (at_ (i + 1)%nat) in
  let answer p v := (0, HycommData (slave d) (function d) (parameter d) (data d) (at_ 2%nat) p v) in
  let code := at_ 1%nat in
  if negb (code =? function d) then (ILLEGAL_FUNCTION, d)
  else if (code =? FUNCTION_READ) || (code =? FUNCTION_WRITE) then
    answer (at_ 3%nat) (if at_ 2%nat =? 2 then at_ 4%nat else word 4%nat)
  else if code =? WRITE_CONTROL_DATA then answer 0 (at_ 3%nat)
  else if code =? READ_CONTROL_STATUS then answer (at_ 3%nat) (word 4%nat)
  else if code =? WRITE_FREQ_DATA then answer (at_ 3%nat) (word 3%nat)
  else (-1, HycommData (slave d) (function d) (parameter d) (data d) (at_ 2%nat) (ret_parameter d) (ret_data d)).

(** A query of length -1 makes the CRC run over 65535 bytes of the stack. *)
Definition hy_comm (d : hycomm_data_t) : M port (Z * hycomm_data_t) :=
  match build_query d with
  | None => crash
  | Some query =>
      query_ret ← hycomm_send query;
      if 0 <? query_ret then
        r ← hycomm_check_response (function d);
        let '(response_ret, response) := r in
        if response_ret =? 0 then mret (parse_response d response) else mret (response_ret, d)
      else mret (query_ret, d)
  end.
End Line.
End HyComm.
