(* ===== verification/HyCommTheorems.v ===== *)
(** * Theorems about the Huanyang protocol

    The table-driven CRC is the bit-serial one; a corruption of two adjacent
    bytes never passes the check; a reply is understood however the line cuts
    it into pieces, and no supported request can overrun a buffer. *)
From S2P Require Import Prelude HyComm.
Import HyComm.

(** ** The CRC, bit by bit: polynomial x^16 + x^15 + x^2 + 1, reflected *)
Definition crc_bit (c : Z) : Z := if Z.odd c then Z.lxor (Z.shiftr c 1) 0xA001 else Z.shiftr c 1.

Definition crc_byte (c b : Z) : Z := Nat.iter 8 crc_bit (Z.lxor c b).

Definition crc_reference (m : list Z) : Z := fold_left crc_byte m 0xFFFF.

Definition is_byte (b : Z) : Prop := 0 <= b < 256.

(** A shift does not see bits above the lowest one. *)
Lemma crc_bit_high y x k : 1 <= k -> crc_bit (Z.lxor (Z.shiftl y k) x) = Z.lxor (Z.shiftl y (k - 1)) (crc_bit x).
Proof.
  intros Hk. unfold crc_bit. rewrite <- (Z.bit0_odd (Z.lxor _ x)), Z.lxor_spec, !Z.bit0_odd.
  replace (Z.odd (Z.shiftl y k)) with false.
  - rewrite xorb_false_l, Z.shiftr_lxor. rewrite Z.shiftr_shiftl_l by lia.
    destruct (Z.odd x); [by rewrite Z.lxor_assoc | done].
  - rewrite <- Z.bit0_odd, Z.shiftl_spec_low by lia. done.
Qed.

Lemma iter_crc_high y x n k : Z.of_nat n <= k ->
  Nat.iter n crc_bit (Z.lxor (Z.shiftl y k) x) = Z.lxor (Z.shiftl y (k - Z.of_nat n)) (Nat.iter n crc_bit x).
Proof.
  induction n as [| n IH]; intros Hk; [by rewrite Z.sub_0_r |].
  rewrite !Nat.iter_succ, IH by lia. rewrite crc_bit_high by lia. do 2 f_equal. lia.
Qed.

(** The tables hold the remainders of the 256 bytes. *)
Lemma tables_ok i : is_byte i ->
  nth (Z.to_nat i) table_crc_hi 0 = Z.land (Nat.iter 8 crc_bit i) 0xFF /\
  nth (Z.to_nat i) table_crc_lo 0 = Z.shiftr (Nat.iter 8 crc_bit i) 8 /\
  0 <= Nat.iter 8 crc_bit i < 2 ^ 16.
Proof.
  intros Hi.
  assert (forallb (fun n => (nth n table_crc_hi 0 =? Z.land (Nat.iter 8 crc_bit (Z.of_nat n)) 0xFF) &&
    (nth n table_crc_lo 0 =? Z.shiftr (Nat.iter 8 crc_bit (Z.of_nat n)) 8) &&
    (0 <=? Nat.iter 8 crc_bit (Z.of_nat n)) && (Nat.iter 8 crc_bit (Z.of_nat n) <? 2 ^ 16)) (seq 0 256) = true) as Hall
    by (vm_compute; reflexivity).
  rewrite forallb_forall in Hall. specialize (Hall (Z.to_nat i)). rewrite !andb_true_iff in Hall.
  destruct Hall as [[[H1 H2] H3] H4]; [apply in_seq; unfold is_byte in Hi; lia |].
  rewrite Z2Nat.id in * by apply Hi. zb. done.
Qed.

(** The pair of the code, as the register of the reference. *)
Definition register (c : Z * Z) : Z := Z.lxor (Z.shiftl (snd c) 8) (fst c).

Lemma lxor_byte a b : is_byte a -> is_byte b -> is_byte (Z.lxor a b).
Proof.
  unfold is_byte. intros Ha Hb. split; [apply Z.lxor_nonneg; lia |].
  destruct (Z.eq_dec (Z.lxor a b) 0) as [-> |]; [lia |]. apply Z.log2_lt_cancel.
  change (Z.log2 256) with 8. pose proof (Z.log2_lxor a b ltac:(lia) ltac:(lia)).
  assert (Z.log2 a < 8) by (destruct (Z.eq_dec a 0) as [-> |]; [done | apply Z.log2_lt_pow2; lia]).
  assert (Z.log2 b < 8) by (destruct (Z.eq_dec b 0) as [-> |]; [done | apply Z.log2_lt_pow2; lia]). lia.
Qed.

Definition pair_ok (c : Z * Z) : Prop := is_byte (fst c) /\ is_byte (snd c).

Lemma table_bytes i : is_byte i -> is_byte (nth (Z.to_nat i) table_crc_hi 0) /\ is_byte (nth (Z.to_nat i) table_crc_lo 0).
Proof.
  intros Hi. destruct (tables_ok i Hi) as (-> & -> & Hr). unfold is_byte.
  change 0xFF with (Z.ones 8). rewrite Z.land_ones, Z.shiftr_div_pow2 by lia.
  pose proof (Z.mod_pos_bound (Nat.iter 8 crc_bit i) (2 ^ 8) ltac:(lia)). split; [lia |].
  split; [apply Z.div_pos; lia |]. apply Z.div_lt_upper_bound; lia.
Qed.

Lemma crc_step_ok c b : pair_ok c -> is_byte b -> pair_ok (crc_step c b).
Proof.
  destruct c as [hi lo]. intros [Hh Hl] Hb. simpl in *.
  pose proof (table_bytes _ (lxor_byte _ _ Hh Hb)) as [? ?]. split; simpl; [by apply lxor_byte | done].
Qed.

Lemma crc_state_ok m c : pair_ok c -> Forall is_byte m -> pair_ok (fold_left crc_step m c).
Proof.
  intros Hc Hm. revert c Hc. induction Hm as [| b m Hb _ IH]; intros c Hc; [done |]. by apply IH, crc_step_ok.
Qed.

(** One byte is the same step. *)
Lemma crc_step_register c b : pair_ok c -> is_byte b -> register (crc_step c b) = crc_byte (register c) b.
Proof.
  destruct c as [hi lo]. intros [Hh Hl] Hb. unfold register, crc_byte, crc_step. cbn [fst snd] in *.
  destruct (tables_ok _ (lxor_byte _ _ Hh Hb)) as (-> & -> & Hr).
  rewrite Z.lxor_assoc, (iter_crc_high lo (Z.lxor hi b) 8 8) by lia. rewrite Z.sub_diag, Z.shiftl_0_r.
  set (x := Nat.iter 8 crc_bit (Z.lxor hi b)) in *.
  rewrite (Z.lxor_comm lo), <- Z.lxor_assoc, Z.lxor_comm. f_equal.
  apply Z.bits_inj'. intros n Hn. rewrite Z.lxor_spec, Z.land_spec. change 0xFF with (Z.ones 8).
  destruct (Z.ltb_spec n 8).
  - rewrite Z.shiftl_spec_low, Z.ones_spec_low by lia. by rewrite andb_true_r.
  - rewrite Z.shiftl_spec_high, Z.shiftr_spec, Z.ones_spec_high by lia. rewrite andb_false_r, xorb_false_r. f_equal. lia.
Qed.

Lemma crc_state_register m : Forall is_byte m -> register (crc_state m) = crc_reference m.
Proof.
  intros Hm. unfold crc_state, crc_reference. change 0xFFFF with (register (0xFF, 0xFF)) at 1.
  assert (pair_ok (0xFF, 0xFF)) as Hc by (split; unfold is_byte; simpl; lia). revert Hc. generalize (0xFF, 0xFF) as c.
  induction Hm as [| b m Hb _ IH]; intros c Hc; [done |]. cbn [fold_left].
  rewrite <- crc_step_register by done. by apply IH, crc_step_ok.
Qed.

(** C10: The CRC that the tables compute is the CRC of the reference, one bit
    at a time, with its two bytes exchanged: the byte that goes first on the
    line is the low one. *)
Theorem crc16_is_reference m : Forall is_byte m ->
  crc16 m = 256 * (crc_reference m mod 256) + crc_reference m / 256 /\ 0 <= crc_reference m < 2 ^ 16.
Proof.
  intros Hm. rewrite <- crc_state_register by done. unfold crc16.
  assert (pair_ok (crc_state m)) as [Hh Hl] by (apply crc_state_ok; [by split; unfold is_byte; simpl; lia | done]).
  destruct (crc_state m) as [hi lo]. unfold register, is_byte in *. cbn [fst snd] in *.
  assert (forall a b, 0 <= a < 256 -> 0 <= b < 256 -> Z.lxor (Z.shiftl a 8) b = 256 * a + b /\ Z.lor (Z.shiftl a 8) b = 256 * a + b) as Hab.
  { intros a b Ha Hb. assert (Z.land (Z.shiftl a 8) b = 0) as Hand.
    { apply Z.bits_inj'. intros n Hn. rewrite Z.land_spec, Z.bits_0. destruct (Z.ltb_spec n 8).
      - by rewrite Z.shiftl_spec_low.
      - rewrite (Z.bits_above_log2 b), andb_false_r by (first [lia | destruct (Z.eq_dec b 0) as [-> |]; [simpl; lia |];
          apply Z.lt_le_trans with 8; [apply Z.log2_lt_pow2; lia | lia]]). done. }
    rewrite <- Z.add_nocarry_lxor by done. split; [rewrite Z.shiftl_mul_pow2 by lia; lia |].
    rewrite <- Z.lxor_lor by done. rewrite <- Z.add_nocarry_lxor by done. rewrite Z.shiftl_mul_pow2 by lia. lia. }
  destruct (Hab lo hi ltac:(lia) ltac:(lia)) as [-> _]. destruct (Hab hi lo ltac:(lia) ltac:(lia)) as [_ ->].
  split; [| lia]. replace (256 * lo + hi) with (hi + lo * 256) by lia. rewrite Z.mod_add, Z.div_add by lia.
  rewrite Z.mod_small, Z.div_small by lia. lia.
Qed.

(** The two bytes of a CRC. *)
Lemma crc16_split m : Forall is_byte m ->
  crc16 m = Z.lor (Z.shiftl (Z.shiftr (crc16 m) 8) 8) (Z.land (crc16 m) 0xFF).
Proof.
  intros _. apply Z.bits_inj'. intros n Hn. rewrite Z.lor_spec, Z.land_spec. change 0xFF with (Z.ones 8).
  destruct (Z.ltb_spec n 8).
  - rewrite Z.shiftl_spec_low, Z.ones_spec_low by lia. by rewrite andb_true_r.
  - rewrite Z.shiftl_spec_high, Z.shiftr_spec, Z.ones_spec_high by lia. rewrite andb_false_r, orb_false_r. f_equal. lia.
Qed.

Lemma crc16_bytes m : Forall is_byte m -> is_byte (Z.shiftr (crc16 m) 8) /\ is_byte (Z.land (crc16 m) 0xFF).
Proof.
  intros Hm. destruct (crc16_is_reference m Hm) as [Hc Hr]. set (r := crc_reference m) in *. unfold is_byte.
  change 0xFF with (Z.ones 8). rewrite Z.land_ones, Z.shiftr_div_pow2 by lia. change (2 ^ 8) with 256.
  pose proof (Z.mod_pos_bound (crc16 m) 256 ltac:(lia)). split; [| lia].
  pose proof (Z.mod_pos_bound r 256 ltac:(lia)). pose proof (Z.div_pos r 256 ltac:(lia) ltac:(lia)).
  pose proof (Z.div_lt_upper_bound r 256 256 ltac:(lia) ltac:(lia)).
  split; [apply Z.div_pos; lia | apply Z.div_lt_upper_bound; lia].
Qed.

(** ** Corruption *)
Lemma table_lo_injective i j : is_byte i -> is_byte j ->
  nth (Z.to_nat i) table_crc_lo 0 = nth (Z.to_nat j) table_crc_lo 0 -> i = j.
Proof.
  intros Hi Hj Heq. assert (NoDup table_crc_lo) as Hnd by (apply (bool_decide_unpack _); vm_compute; exact I).
  assert (length table_crc_lo = 256%nat) as Hlen by reflexivity. unfold is_byte in *.
  assert (Z.to_nat i = Z.to_nat j); [| lia].
  destruct (nth_lookup_or_length table_crc_lo (Z.to_nat i) 0) as [Hli |]; [| lia].
  destruct (nth_lookup_or_length table_crc_lo (Z.to_nat j) 0) as [Hlj |]; [| lia].
  rewrite Heq in Hli. exact (NoDup_lookup _ _ _ _ Hnd Hli Hlj).
Qed.

Lemma lxor_cancel a b c : Z.lxor a b = Z.lxor a c -> b = c.
Proof.
  intros He. rewrite <- (Z.lxor_0_l b), <- (Z.lxor_0_l c), <- (Z.lxor_nilpotent a), !Z.lxor_assoc. by rewrite He.
Qed.

(** Different states or bytes are told apart, over two bytes as well. *)
Lemma crc_step_injective c1 c2 b1 b2 : pair_ok c1 -> pair_ok c2 -> is_byte b1 -> is_byte b2 ->
  crc_step c1 b1 = crc_step c2 b2 -> Z.lxor (fst c1) b1 = Z.lxor (fst c2) b2 /\ snd c1 = snd c2.
Proof.
  destruct c1 as [h1 l1], c2 as [h2 l2]. intros [Hh1 Hl1] [Hh2 Hl2] Hb1 Hb2 [= H1 H2]. cbn [fst snd] in *.
  apply table_lo_injective in H2; [| by apply lxor_byte | by apply lxor_byte]. rewrite H2 in H1.
  split; [done |]. rewrite (Z.lxor_comm l1), (Z.lxor_comm l2) in H1. by eapply lxor_cancel.
Qed.

Lemma crc_state_injective m c1 c2 : pair_ok c1 -> pair_ok c2 -> Forall is_byte m ->
  fold_left crc_step m c1 = fold_left crc_step m c2 -> c1 = c2.
Proof.
  intros H1 H2 Hm. revert c1 c2 H1 H2. induction Hm as [| b m Hb _ IH]; intros c1 c2 H1 H2 He; [done |].
  apply IH in He; [| by apply crc_step_ok | by apply crc_step_ok].
  apply crc_step_injective in He as [Ha Hs]; try done. destruct c1 as [h1 l1], c2 as [h2 l2]. cbn [fst snd] in *.
  rewrite (Z.lxor_comm h1), (Z.lxor_comm h2) in Ha. apply lxor_cancel in Ha. congruence.
Qed.

(** The check passes exactly for the messages whose CRC, its own bytes included, is 0. *)
Lemma residue m a b : Forall is_byte m -> is_byte a -> is_byte b ->
  crc16 m = Z.lor (Z.shiftl a 8) b <-> crc_state (m ++ [a; b]) = (0, 0).
Proof.
  intros Hm Ha Hb. unfold crc16, crc_state. rewrite fold_left_app.
  assert (pair_ok (fold_left crc_step m (0xFF, 0xFF))) as Hok by (apply crc_state_ok; [by split; unfold is_byte; simpl; lia | done]).
  destruct (fold_left crc_step m (0xFF, 0xFF)) as [hi lo]. destruct Hok as [Hh Hl]. cbn [fst snd] in *.
  assert (crc_step (crc_step (hi, lo) hi) lo = (0, 0)) as Hself.
  { unfold crc_step. rewrite Z.lxor_nilpotent. simpl. rewrite Z.lxor_0_r, Z.lxor_nilpotent. done. }
  cbn [fold_left]. split.
  - intros He. assert (a = hi /\ b = lo) as [-> ->]; [| exact Hself].
    assert (forall x y n, is_byte y -> 0 <= n -> Z.testbit (Z.lor (Z.shiftl x 8) y) n = if n <? 8 then Z.testbit y n else Z.testbit x (n - 8)) as Hbits.
    { intros x y n Hy Hn. rewrite Z.lor_spec. destruct (Z.ltb_spec n 8).
      - by rewrite Z.shiftl_spec_low.
      - rewrite Z.shiftl_spec_high by lia. rewrite (Z.bits_above_log2 y n), orb_false_r; [done | apply Hy |].
        destruct (Z.eq_dec y 0) as [-> |]; [simpl; lia |]. apply Z.lt_le_trans with 8; [| lia].
        unfold is_byte in Hy. apply Z.log2_lt_pow2; lia. }
    split; apply Z.bits_inj'; intros n Hn.
    + pose proof (f_equal (fun z => Z.testbit z (n + 8)) He) as Hx. simpl in Hx. rewrite !Hbits in Hx by (done || lia).
      rewrite (proj2 (Z.ltb_ge (n + 8) 8)) in Hx by lia. replace (n + 8 - 8) with n in Hx by lia. done.
    + destruct (Z.ltb_spec n 8) as [Hn8 |].
      * pose proof (f_equal (fun z => Z.testbit z n) He) as Hx. simpl in Hx. rewrite !Hbits in Hx by (done || lia).
        by rewrite (proj2 (Z.ltb_lt n 8)) in Hx by lia.
      * unfold is_byte in *. rewrite !Z.bits_above_log2; [done | lia | | lia |].
        all: match goal with |- Z.log2 ?y < _ => destruct (Z.eq_dec y 0) as [-> |]; [simpl; lia | apply Z.lt_le_trans with 8; [apply Z.log2_lt_pow2; lia | lia]] end.
  - intros He. assert (crc_step (crc_step (hi, lo) a) b = crc_step (crc_step (hi, lo) hi) lo) as Heq by congruence.
    apply crc_step_injective in Heq as [H1 H2]; try done; try (apply crc_step_ok; done).
    unfold crc_step in H1, H2. cbn [fst snd] in H1, H2. apply table_lo_injective in H2; [| by apply lxor_byte | by apply lxor_byte].
    apply lxor_cancel in H2. subst a. apply lxor_cancel in H1. by subst b.
Qed.

Section Check.
Variable flush : list event -> list event.
Variable junk : nat -> Z.

Lemma check_run m x y p : Forall is_byte m -> is_byte x -> is_byte y ->
  (crc_state (m ++ [x; y]) = (0, 0) /\ check_crc16 flush junk (m ++ [x; y]) p = (Ok 0, p)) \/
  (crc_state (m ++ [x; y]) <> (0, 0) /\ check_crc16 flush junk (m ++ [x; y]) p = (Ok INVALID_CRC, set_rx (flush (rx p)) p)).
Proof.
  intros Hm Hx Hy. unfold check_crc16, byte_at. rewrite length_app. cbn [length].
  rewrite (proj2 (Nat.ltb_ge _ 2)) by lia. replace (length m + 2 - 2)%nat with (length m) by lia.
  replace (length m + 2 - 1)%nat with (S (length m)) by lia.
  rewrite take_app_length, (list_lookup_middle m [y] x (length m)) by done.
  replace (m ++ [x; y]) with ((m ++ [x]) ++ [y]) by by rewrite <- app_assoc.
  rewrite (list_lookup_middle (m ++ [x]) [] y (S (length m))) by (rewrite length_app; simpl; lia). cbn [default from_option id].
  rewrite <- app_assoc. cbn [app]. destruct (Z.eqb_spec (crc16 m) (Z.lor (Z.shiftl x 8) y)) as [He | He].
  - left. split; [by apply residue | done].
  - right. split; [| done]. intros Hr. apply He. by apply residue.
Qed.

Lemma split_last_two (m : list Z) : (2 <= length m)%nat -> exists m' x y, m = m' ++ [x; y].
Proof.
  intros Hl. destruct m as [| y m _] using rev_ind; [simpl in Hl; lia |].
  destruct m as [| x m _] using rev_ind; [simpl in Hl; lia |]. exists m, x, y. by rewrite <- app_assoc.
Qed.

(** C12: A message whose check passed fails it when two adjacent bytes, its
    CRC included, have been corrupted in any way. *)
Theorem burst_detected l a b a' b' r p :
  Forall is_byte (l ++ [a; b] ++ r) -> is_byte a' -> is_byte b' -> (a, b) <> (a', b') ->
  fst (check_crc16 flush junk (l ++ [a; b] ++ r) p) = Ok 0 ->
  fst (check_crc16 flush junk (l ++ [a'; b'] ++ r) p) = Ok INVALID_CRC.
Proof.
  intros Hb Ha' Hb' Hne Hok. rewrite !Forall_app, !Forall_cons in Hb. destruct Hb as (Hl & (Ha & Hb & _) & Hr).
  assert (forall m, Forall is_byte m -> (2 <= length m)%nat ->
    (crc_state m = (0, 0) /\ check_crc16 flush junk m p = (Ok 0, p)) \/
    (crc_state m <> (0, 0) /\ check_crc16 flush junk m p = (Ok INVALID_CRC, set_rx (flush (rx p)) p))) as Hrun.
  { intros m Hm Hlen. destruct (split_last_two m Hlen) as (m' & x & y & ->).
    rewrite Forall_app, !Forall_cons in Hm. destruct Hm as (? & ? & ? & _). by apply check_run. }
  destruct (Hrun (l ++ [a; b] ++ r)) as [[Hz _] | [_ E]]; [| | | rewrite E in Hok; discriminate].
  { rewrite !Forall_app, !Forall_cons. split_and!; try done; constructor. } { rewrite !length_app. simpl. lia. }
  destruct (Hrun (l ++ [a'; b'] ++ r)) as [[Hz' _] | [_ E]]; [| | | by rewrite E].
  { rewrite !Forall_app, !Forall_cons. split_and!; try done; constructor. } { rewrite !length_app. simpl. lia. }
  exfalso. apply Hne. rewrite <- Hz' in Hz. unfold crc_state in Hz. rewrite !fold_left_app in Hz. cbn [fold_left] in Hz.
  assert (pair_ok (fold_left crc_step l (0xFF, 0xFF))) as Hok1 by (apply crc_state_ok; [by split; unfold is_byte; simpl; lia | done]).
  apply crc_state_injective in Hz; [| by repeat apply crc_step_ok | by repeat apply crc_step_ok | done].
  destruct (fold_left crc_step l (0xFF, 0xFF)) as [hi lo].
  apply crc_step_injective in Hz as [H1 H2]; try done; try (apply crc_step_ok; done).
  destruct Hok1 as [Hh Hlo]. unfold crc_step in H1, H2. cbn [fst snd] in *.
  apply table_lo_injective in H2; [| by apply lxor_byte | by apply lxor_byte].
  apply lxor_cancel in H2 as ->. apply lxor_cancel in H1 as ->. done.
Qed.
End Check.

(** ** Every request that the code knows runs within its buffers *)
Definition supported (f : Z) : Prop := 1 <= f <= 5.

Definition comm_code (rc : Z) : Prop :=
  In rc [0; COMM_TIME_OUT; PORT_SOCKET_FAILURE; SELECT_FAILURE; INVALID_CRC; ILLEGAL_FUNCTION; PORT_FAILURE].

Ltac comm_tac := unfold comm_code; simpl; tauto.

(** An outcome that is not a crash, whose value satisfies [P]. *)
Definition returns {S A} (m : M S A) (P : A -> S -> Prop) (s : S) : Prop := wp m P (fun _ _ => False) s.

Lemma returns_bind {S A B} (m : M S A) (f : A -> M S B) P s :
  returns m (fun a => returns (f a) P) s -> returns (m ≫= f) P s.
Proof. apply wp_bind. Qed.

Section Safe.
Variable flush : list event -> list event.
Variable junk : nat -> Z.

Lemma wait_data_returns (P : option Z -> port -> Prop) p :
  (forall r l, (r = None \/ r = Some COMM_TIME_OUT \/ r = Some SELECT_FAILURE) -> P r (set_rx l p)) ->
  returns (WAIT_DATA flush) P p.
Proof.
  intros HP. unfold returns, wp, WAIT_DATA.
  assert (forall l, fst (wait_events l) = None \/ fst (wait_events l) = Some COMM_TIME_OUT \/ fst (wait_events l) = Some SELECT_FAILURE) as Hw.
  { induction l as [| [] l IH]; simpl; auto. }
  specialize (Hw (rx p)). destruct (wait_events (rx p)) as [r l]. cbn [fst] in Hw.
  destruct r as [code |]; [| by apply HP; left].
  destruct (code =? SELECT_FAILURE); [| by apply HP]. cbn. by apply (HP (Some code) (flush l)).
Qed.

Lemma read_returns (P : option (list Z) -> port -> Prop) n p : 0 <= n < 2 ^ 63 ->
  (forall r l, (forall got, r = Some got -> Z.of_nat (length got) <= n) -> P r (set_rx l p)) -> returns (read n) P p.
Proof.
  intros Hn HP. unfold returns, wp, read. rewrite wrapu_small by lia.
  assert (set_rx (rx p) p = p) as Hid by by destruct p.
  destruct (rx p) as [| [] l] eqn:E; try (apply HP; intros got Hg; injection Hg as <-; simpl; lia); try (apply HP; discriminate).
  - rewrite <- Hid. apply HP. discriminate.
  - apply HP. intros got [= <-]. rewrite length_take. lia.
Qed.

Definition received (r : Z * list Z) : Prop :=
  comm_code (fst r) /\ (length (snd r) <= 8)%nat /\ (fst r = 0 -> (2 <= length (snd r))%nat).

Lemma receive_loop_returns fuel computed msg n p :
  Z.of_nat (length msg) + n = computed -> 0 < n -> 2 <= computed <= 8 -> n < Z.of_nat fuel ->
  returns (receive_loop flush junk fuel computed msg n) (fun r p' => received r /\ tx p' = tx p) p.
Proof.
  revert msg n p. induction fuel as [| fuel IH]; intros msg n p Hlen Hn Hc Hf; [lia |]. cbn [receive_loop].
  apply returns_bind, read_returns; [lia |]. intros r l Hr.
  assert (forall q, tx q = tx p -> returns (error_treat flush ≫= fun _ => mret (PORT_SOCKET_FAILURE, msg))
    (fun r p' => received r /\ tx p' = tx p) q) as Herr.
  { intros q Hq. split; [| exact Hq]. split; [comm_tac |]. split; [simpl; lia | done]. }
  destruct r as [[| b got] |]; [by apply Herr | | by apply Herr]. specialize (Hr _ eq_refl).
  set (msg' := msg ++ b :: got). assert (Z.of_nat (length msg') = Z.of_nat (length msg) + Z.of_nat (length (b :: got))) as Hl'
    by (unfold msg'; rewrite length_app; lia).
  assert (1 <= Z.of_nat (length (b :: got))) as H1 by (simpl; lia).
  rewrite (proj2 (Z.ltb_ge MAX_PACKET_SIZE _)) by (unfold MAX_PACKET_SIZE; lia).
  assert (forall q, tx q = tx p -> 2 <= Z.of_nat (length msg') ->
    returns (mret (0, msg')) (fun r p' => received r /\ tx p' = tx p) q) as Hdone.
  { intros q Hq H2. split; [| exact Hq]. split; [comm_tac |]. simpl. lia. }
  destruct (Z.ltb_spec (Z.of_nat (length msg')) computed); [| cbn [Z.ltb]; apply Hdone; [done | lia]].
  destruct ((2 <=? Z.of_nat (length msg')) && _) eqn:E.
  { apply andb_prop in E as [E _]. zb. by apply Hdone. }
  rewrite (proj2 (Z.ltb_lt 0 _)) by lia. apply returns_bind, wait_data_returns. intros w l' Hw.
  destruct w as [code |]; [| apply (IH msg' (computed - Z.of_nat (length msg')) (set_rx l' (set_rx l p))); lia].
  split; [| done]. split; [| split; [simpl; lia |]].
  - destruct Hw as [| [[= ->] | [= ->]]]; [done | comm_tac | comm_tac].
  - simpl. intros ->. by destruct Hw as [| [|]].
Qed.

Lemma check_response_returns f p : supported f ->
  returns (hycomm_check_response flush junk f) (fun r p' => comm_code (fst r) /\ tx p' = tx p) p.
Proof.
  intros Hf. unfold hycomm_check_response. assert (6 <= compute_response_length f <= 8) as Hc.
  { unfold supported in Hf. assert (f = 1 \/ f = 2 \/ f = 3 \/ f = 4 \/ f = 5) as [-> | [-> | [-> | [-> | ->]]]] by lia; vm_compute; split; discriminate. }
  apply returns_bind. apply (wp_mono _ (fun r p' => received r /\ tx p' = tx p) _ (fun _ _ => False)); [| | done].
  - unfold receive_msg. apply returns_bind, wait_data_returns. intros w l Hw. destruct w as [code |].
    + split; [| done]. split; [| split; [simpl; lia |]].
      * destruct Hw as [| [[= ->] | [= ->]]]; [done | comm_tac | comm_tac].
      * simpl. intros ->. by destruct Hw as [| [|]].
    + apply (receive_loop_returns _ _ [] _ (set_rx l p)); unfold MAX_PACKET_SIZE; simpl; lia.
  - intros [ret response] q [(Hret & Hlen & Htwo) Htx]. cbn [fst snd] in *.
    destruct (Z.eqb_spec ret 0) as [-> |]; [| by destruct (ret =? COMM_TIME_OUT)].
    specialize (Htwo eq_refl). apply returns_bind. unfold check_crc16. rewrite (proj2 (Nat.ltb_ge _ 2)) by lia.
    destruct (_ =? _); (split; [comm_tac | exact Htx]).
Qed.

(** C11: A request with one of the five function codes always returns,
    whatever arrives on the line and whatever write reports: it writes one
    packet of at most 8 bytes, stores at most 8 bytes of response, and
    returns 0 or one of the negative codes.  With any other function code
    the query has length -1, and the CRC reads beyond it. *)
Theorem hy_comm_safe d p :
  (supported (function d) ->
     exists rc d' p' packet, hy_comm flush junk d p = (Ok (rc, d'), p') /\ comm_code rc /\
       tx p' = tx p ++ [packet] /\ (length packet <= 8)%nat) /\
  (~ supported (function d) -> fst (hy_comm flush junk d p) = Crash).
Proof.
  split.
  - intros Hf. assert (exists query, build_query d = Some query /\ (length query <= 6)%nat) as (query & Hq & Hlen).
    { unfold build_query, supported in *.
      assert (function d = 1 \/ function d = 2 \/ function d = 3 \/ function d = 4 \/ function d = 5) as [-> | [-> | [-> | [-> | ->]]]] by lia;
        cbn; (eexists; split; [reflexivity | simpl; lia]). }
    set (packet := query ++ [Z.shiftr (crc16 query) 8; Z.land (crc16 query) 0xFF]).
    assert (returns (hy_comm flush junk d) (fun r p' => comm_code (fst r) /\ tx p' = tx p ++ [packet]) p) as Hr.
    { unfold hy_comm. rewrite Hq. apply returns_bind. unfold hycomm_send. fold packet.
      apply returns_bind. unfold returns at 1, wp, write.
      assert (forall ret q, tx q = tx p ++ [packet] ->
        returns (if (ret =? -1) || negb (ret =? Z.of_nat (length packet)) then error_treat flush ≫= fun _ => mret PORT_FAILURE else mret ret)
          (fun query_ret => returns (if 0 <? query_ret
            then r ← hycomm_check_response flush junk (function d);
                 let '(response_ret, response) := r in
                 if response_ret =? 0 then mret (parse_response junk d response) else mret (response_ret, d)
            else mret (query_ret, d)) (fun r p' => comm_code (fst r) /\ tx p' = tx p ++ [packet])) q) as Hw.
      { intros ret q Hq'. destruct (_ || _) eqn:E; [split; [comm_tac | exact Hq'] |].
        apply orb_false_iff in E as [_ E]. apply negb_false_iff in E. zb.
        assert (0 < ret) by (rewrite E; unfold packet; rewrite length_app; simpl; lia).
        unfold returns at 1, wp, mret, M_ret. cbv beta iota. rewrite (proj2 (Z.ltb_lt 0 ret)) by done.
        apply returns_bind. eapply wp_mono; [by apply check_response_returns | | done].
        intros [rc response] q' [Hrc Htx]. cbn [fst] in Hrc. rewrite Hq' in Htx.
        destruct (Z.eqb_spec rc 0); [| by split]. split; [| exact Htx].
        unfold parse_response. repeat case_match; comm_tac. }
      destruct (write_results p) as [| ret l]; by apply Hw. }
    unfold returns, wp in Hr. destruct (hy_comm flush junk d p) as [[[rc d'] | |] p']; try done.
    exists rc, d', p', packet. split; [done |]. split; [apply Hr |]. split; [apply Hr |].
    unfold packet. rewrite length_app. simpl. lia.
  - intros Hf. unfold hy_comm. assert (build_query d = None) as ->; [| done].
    unfold build_query, FUNCTION_READ, FUNCTION_WRITE, WRITE_CONTROL_DATA, READ_CONTROL_STATUS, WRITE_FREQ_DATA, supported in *.
    destruct (Z.eqb_spec (function d) 1), (Z.eqb_spec (function d) 2), (Z.eqb_spec (function d) 3),
      (Z.eqb_spec (function d) 4), (Z.eqb_spec (function d) 5); (lia || done).
Qed.
End Safe.

(** ** Replies *)

(** A packet as it is sent: the CRC behind the payload. *)
Definition framed (payload : list Z) : list Z :=
  payload ++ [Z.shiftr (crc16 payload) 8; Z.land (crc16 payload) 0xFF].

(** What an inverter answers to function [f]: a payload, and what it means
    (length, parameter, data).  Read and write may answer with one byte. *)
Inductive reply (sl f : Z) : list Z -> Z -> Z -> Z -> Prop :=
| reply_word p hi lo : f = FUNCTION_READ \/ f = FUNCTION_WRITE -> is_byte p -> is_byte hi -> is_byte lo ->
    reply sl f [sl; f; 3; p; hi; lo] 3 p (Z.lor (Z.shiftl hi 8) lo)
| reply_byte p v : f = FUNCTION_READ \/ f = FUNCTION_WRITE -> is_byte p -> is_byte v -> reply sl f [sl; f; 2; p; v] 2 p v
| reply_control st : f = WRITE_CONTROL_DATA -> is_byte st -> reply sl f [sl; f; 1; st] 1 0 st
| reply_status p hi lo : f = READ_CONTROL_STATUS -> is_byte p -> is_byte hi -> is_byte lo ->
    reply sl f [sl; f; 3; p; hi; lo] 3 p (Z.lor (Z.shiftl hi 8) lo)
| reply_freq hi lo : f = WRITE_FREQ_DATA -> is_byte hi -> is_byte lo ->
    reply sl f [sl; f; 2; hi; lo] 2 hi (Z.lor (Z.shiftl hi 8) lo).

(** The bytes arrive in pieces, with signals in between. *)
Inductive arrives : list Z -> list event -> list event -> Prop :=
| arrives_all l : arrives [] l l
| arrives_signal m l l' : m <> [] -> arrives m l l' -> arrives m (EvSignal :: l) l'
| arrives_data c m l l' : c <> [] -> arrives m l l' -> arrives (c ++ m) (EvData c :: l) l'.

(** Waiting for bytes that arrive. *)
Lemma arrives_wait m l l' : arrives m l l' -> m <> [] ->
  exists c m' l2, m = c ++ m' /\ c <> [] /\ wait_events l = (None, EvData c :: l2) /\ arrives m' l2 l'.
Proof.
  induction 1 as [l | m l l' Hm Ha IH | c m l l' Hc Ha IH]; intros Hne; [done | |].
  - destruct (IH Hne) as (c & m' & l2 & -> & Hc & Hw & Ha'). by exists c, m', l2.
  - by exists c, m, l.
Qed.

Section Reply.
Variable flush : list event -> list event.
Variable junk : nat -> Z.
Hypothesis Hjunk : forall i, 0 <= junk i.

Lemma wait_data_arrives m p l' : arrives m (rx p) l' -> m <> [] ->
  exists c m' l2, m = c ++ m' /\ c <> [] /\ WAIT_DATA flush p = (Ok None, set_rx (EvData c :: l2) p) /\ arrives m' l2 l'.
Proof.
  intros Ha Hm. destruct (arrives_wait _ _ _ Ha Hm) as (c & m' & l2 & E & Hc & Hw & Ha').
  exists c, m', l2. split; [done |]. split; [done |]. split; [| done]. unfold WAIT_DATA. by rewrite Hw.
Qed.

(** A frame whose third byte tells its length is received as it is. *)
Lemma receive_loop_arrives fuel computed f msg c m l2 l' p :
  f = msg ++ c ++ m -> c <> [] -> rx p = EvData c :: l2 -> arrives m l2 l' ->
  f !! 2%nat = Some (Z.of_nat (length f) - 5) -> Z.of_nat (length f) <= computed <= 8 ->
  (length (c ++ m) < fuel)%nat ->
  exists l, receive_loop flush junk fuel computed msg (computed - Z.of_nat (length msg)) p = (Ok (0, f), set_rx l p).
Proof.
  intros Hf Hc Hrx Ha H2 Hlen Hfuel. revert msg c m l2 p Hf Hc Hrx Ha Hfuel.
  induction fuel as [| fuel IH]; intros msg c m l2 p Hf Hc Hrx Ha Hfuel; [lia |]. cbn [receive_loop].
  assert (length f = length msg + length c + length m)%nat as Hl by (rewrite Hf, !length_app; lia).
  assert (1 <= length c)%nat as Hc1 by (destruct c; [done | simpl; lia]).
  assert (3 <= length f)%nat as Hf3 by (by apply lookup_lt_Some in H2).
  unfold mbind, M_bind, read. rewrite Hrx. rewrite wrapu_small by lia.
  rewrite take_ge, drop_ge by lia. destruct c as [| b c']; [done |]. set (c := b :: c') in *.
  set (msg' := msg ++ c). assert (length msg' = length msg + length c)%nat as Hl' by apply length_app.
  rewrite (proj2 (Z.ltb_ge MAX_PACKET_SIZE _)) by (unfold MAX_PACKET_SIZE; lia).
  assert (f = msg' ++ m) as Hf' by (unfold msg'; by rewrite <- app_assoc).
  destruct m as [| b2 m'].
  - rewrite app_nil_r in Hf'. rewrite <- Hf'. unfold byte_at. rewrite H2. cbn [default from_option id].
    replace (Z.of_nat (length f) - 5 + 5) with (Z.of_nat (length f)) by lia. rewrite Z.eqb_refl.
    rewrite (proj2 (Z.leb_le 2 _)) by lia. cbn [andb]. exists l2. by destruct (_ <? computed).
  - set (m := b2 :: m') in *. assert (1 <= length m)%nat by (simpl; lia).
    rewrite (proj2 (Z.ltb_lt _ computed)) by lia.
    assert ((2 <=? Z.of_nat (length msg')) && (Z.of_nat (length msg') =? byte_at junk msg' 2 + 5) = false) as ->.
    { apply andb_false_iff. destruct (Z.leb_spec 2 (Z.of_nat (length msg'))); [right | by left]. apply Z.eqb_neq.
      unfold byte_at. destruct (decide (3 <= length msg')%nat).
      - destruct (lookup_lt_is_Some_2 msg' 2 ltac:(lia)) as [x Hx].
        assert (f !! 2%nat = Some x) as Hx' by (rewrite Hf'; by apply lookup_app_l_Some).
        rewrite Hx. cbn [default from_option id]. rewrite H2 in Hx'. injection Hx' as <-. lia.
      - rewrite lookup_ge_None_2 by lia. cbn [default from_option id]. pose proof (Hjunk 2). lia. }
    rewrite (proj2 (Z.ltb_lt 0 _)) by lia.
    destruct (wait_data_arrives m (set_rx l2 p) l' Ha ltac:(done)) as (d & n & l3 & Hm & Hd & Hw & Ha3).
    rewrite Hw. destruct (IH msg' d n l3 (set_rx (EvData d :: l3) (set_rx l2 p))) as [l Hrun]; try done.
    + by rewrite <- Hm.
    + rewrite <- Hm. unfold c, m in Hfuel. rewrite length_app in Hfuel. simpl in *. lia.
    + exists l. exact Hrun.
Qed.

Lemma receive_arrives computed f p l' :
  arrives f (rx p) l' -> f !! 2%nat = Some (Z.of_nat (length f) - 5) -> Z.of_nat (length f) <= computed <= 8 ->
  exists l, receive_msg flush junk computed p = (Ok (0, f), set_rx l p).
Proof.
  intros Ha H2 Hlen. assert (f <> []) as Hne by (by intros ->).
  destruct (wait_data_arrives f p l' Ha Hne) as (c & m & l2 & -> & Hc & Hw & Ha2).
  unfold receive_msg, mbind, M_bind. rewrite Hw.
  destruct (receive_loop_arrives (Z.to_nat MAX_PACKET_SIZE + 1) computed (c ++ m) [] c m l2 l'
    (set_rx (EvData c :: l2) p)) as [l Hrun]; try done.
  - unfold MAX_PACKET_SIZE. lia.
  - cbn [length] in Hrun. rewrite Z.sub_0_r in Hrun. exists l. exact Hrun.
Qed.

(** The check of a framed payload passes. *)
Lemma framed_check payload p : Forall is_byte payload -> check_crc16 flush junk (framed payload) p = (Ok 0, p).
Proof.
  intros Hp. destruct (crc16_bytes payload Hp) as [Hhi Hlo]. unfold framed.
  destruct (check_run flush junk payload _ _ p Hp Hhi Hlo) as [[_ Hc] | [Hn _]]; [done |].
  exfalso. apply Hn. apply residue; try done. by apply crc16_split.
Qed.

(** A reply is a frame whose third byte tells its length, within what is read. *)
Lemma reply_frame sl f payload len par val : is_byte sl -> reply sl f payload len par val ->
  Forall is_byte payload /\ framed payload !! 2%nat = Some (Z.of_nat (length (framed payload)) - 5) /\
  Z.of_nat (length (framed payload)) <= compute_response_length f <= 8.
Proof.
  intros Hs Hr.
  assert (is_byte 1 /\ is_byte 2 /\ is_byte 3 /\ is_byte 4 /\ is_byte 5) as (? & ? & ? & ? & ?) by (unfold is_byte; lia).
  inversion Hr as [p hi lo E | p v E | st -> | p hi lo -> | hi lo ->]; subst; try destruct E as [-> | ->];
    (split; [repeat (apply Forall_cons_2; [assumption |]); constructor |]);
    (split; [reflexivity | split; discriminate]).
Qed.

Lemma reply_parsed d payload len par val : reply (slave d) (function d) payload len par val ->
  parse_response junk d (framed payload) = (0, HycommData (slave d) (function d) (parameter d) (data d) len par val).
Proof.
  intros Hr. unfold parse_response. remember (function d) as f eqn:Ef.
  inversion Hr as [p hi lo [E|E] | p v [E|E] | st E | p hi lo E | hi lo E]; subst payload; rewrite E in *; reflexivity.
Qed.

Lemma send_all query p : write_results p = [] ->
  hycomm_send flush query p = (Ok (Z.of_nat (length (framed query))), Port (rx p) (tx p ++ [framed query]) []).
Proof.
  intros Hw. unfold hycomm_send, mbind, M_bind, write. rewrite Hw. fold (framed query).
  rewrite Z.eqb_refl. rewrite (proj2 (Z.eqb_neq _ (-1))) by lia. reflexivity.
Qed.

Lemma supported_query d : supported (function d) -> exists query, build_query d = Some query.
Proof.
  unfold build_query, supported. intros Hf.
  assert (function d = 1 \/ function d = 2 \/ function d = 3 \/ function d = 4 \/ function d = 5) as [-> | [-> | [-> | [-> | ->]]]] by lia;
    by eexists.
Qed.

Lemma reply_supported sl f payload len par val : reply sl f payload len par val -> supported f.
Proof.
  intros Hr. unfold supported. by inversion Hr as [p hi lo [->| ->] | p v [->| ->] | st -> | p hi lo -> | hi lo ->].
Qed.

(** C9: Whatever pieces a reply arrives in, hy_comm returns 0 and what the
    reply says; and the request on the line was the packet of the query. *)
Theorem hy_comm_reply d p l' payload len par val :
  is_byte (slave d) -> reply (slave d) (function d) payload len par val -> write_results p = [] ->
  arrives (framed payload) (rx p) l' ->
  exists p' query, build_query d = Some query /\ tx p' = tx p ++ [framed query] /\
    hy_comm flush junk d p = (Ok (0, HycommData (slave d) (function d) (parameter d) (data d) len par val), p').
Proof.
  intros Hs Hr Hw Ha. destruct (supported_query d (reply_supported _ _ _ _ _ _ Hr)) as [query Hq].
  destruct (reply_frame _ _ _ _ _ _ Hs Hr) as (Hb & H2 & Hl).
  destruct (receive_arrives (compute_response_length (function d)) (framed payload)
    (Port (rx p) (tx p ++ [framed query]) []) l' Ha H2 Hl) as [l Hrun].
  exists (set_rx l (Port (rx p) (tx p ++ [framed query]) [])), query. split; [done |]. split; [done |].
  unfold hy_comm. rewrite Hq. unfold mbind at 1, M_bind at 1. rewrite send_all by done. cbv beta iota.
  rewrite (proj2 (Z.ltb_lt 0 _)) by (unfold framed; rewrite length_app; simpl; lia).
  unfold hycomm_check_response, mbind, M_bind. rewrite Hrun. cbv beta iota. rewrite Z.eqb_refl.
  rewrite framed_check by done. unfold mret, M_ret. cbv beta iota. rewrite Z.eqb_refl.
  by rewrite (reply_parsed _ _ _ _ _ Hr).
Qed.
End Reply.

(** ** Concrete runs *)
Lemma crc16_is_reference_witness :
  crc16 [1; 4; 1; 0] = 0x4189 /\ 256 * (crc_reference [1; 4; 1; 0] mod 256) + crc_reference [1; 4; 1; 0] / 256 = 0x4189.
Proof.
  assert (Forall is_byte [1; 4; 1; 0]) as H by (repeat (apply Forall_cons_2; [unfold is_byte; lia |]); constructor).
  split; [reflexivity |]. rewrite <- (proj1 (crc16_is_reference _ H)). reflexivity.
Defined.

(** A line that keeps its input when flushed, an array of zeros. *)
Definition keep (l : list event) : list event := l.
Definition zeros (i : nat) : Z := 0.

Definition status_request : hycomm_data_t := HycommData 1 READ_CONTROL_STATUS 0 3 0 0 0.
Definition status_reply : list Z := [1; READ_CONTROL_STATUS; 3; 3; 0x27; 0x10].

Lemma burst_detected_witness :
  fst (check_crc16 keep zeros (framed status_reply) (Port [] [] [])) = Ok 0 /\
  fst (check_crc16 keep zeros (take 2 (framed status_reply) ++ [9; 9] ++ drop 4 (framed status_reply)) (Port [] [] [])) = Ok INVALID_CRC.
Proof.
  split; [vm_compute; reflexivity |].
  apply (burst_detected keep zeros (take 2 (framed status_reply)) 3 3 9 9 (drop 4 (framed status_reply)) (Port [] [] [])).
  - repeat (apply Forall_cons_2; [unfold is_byte; vm_compute; split; (discriminate || reflexivity) |]). constructor.
  - unfold is_byte. lia.
  - unfold is_byte. lia.
  - discriminate.
  - vm_compute. reflexivity.
Defined.

(** The reply arrives in three pieces and a signal interrupts the wait. *)
Definition in_pieces : list event :=
  [EvData (take 1 (framed status_reply)); EvData (take 4 (drop 1 (framed status_reply))); EvSignal; EvData (drop 5 (framed status_reply))].

Lemma hy_comm_reply_witness :
  exists p' query, build_query status_request = Some query /\ tx p' = [framed query] /\
    hy_comm keep zeros status_request (Port in_pieces [] []) = (Ok (0, HycommData 1 4 0 3 3 3 10000), p').
Proof.
  refine (hy_comm_reply keep zeros (fun _ => Z.le_refl 0) status_request (Port in_pieces [] []) [] status_reply 3 3 10000 _ _ eq_refl _).
  - unfold is_byte. simpl. lia.
  - apply (reply_status 1 READ_CONTROL_STATUS 3 0x27 0x10); unfold is_byte; (reflexivity || lia).
  - apply (arrives_data (take 1 (framed status_reply)) (drop 1 (framed status_reply))); [discriminate |].
    apply (arrives_data (take 4 (drop 1 (framed status_reply))) (drop 5 (framed status_reply))); [discriminate |].
    apply arrives_signal; [discriminate |].
    apply (arrives_data (drop 5 (framed status_reply)) []); [discriminate | constructor].
Defined.

(** With a function code that is not one of the five the query has no
    length; with a corrupted byte the data of the request are unchanged. *)
Example reserved_function_crashes : fst (hy_comm keep zeros (HycommData 1 6 0 0 0 0 0) (Port [] [] [])) = Crash.
Proof. reflexivity. Qed.

Example corrupted_reply : fst (hy_comm keep zeros status_request (Port [EvData [1; 4; 3; 3; 0x27; 0x11; 0; 0]] [] [])) = Ok (INVALID_CRC, status_request).
Proof. vm_compute. reflexivity. Qed.

(** The reply of another inverter on the line is taken for the answer. *)
Example other_slave_accepted :
  fst (hy_comm keep zeros status_request (Port [EvData (framed [2; 4; 3; 3; 0x27; 0x10])] [] [])) = Ok (0, HycommData 1 4 0 3 3 3 10000).
Proof. vm_compute. reflexivity. Qed.
