(* ===== verification/RtapiApp.v ===== *)
(** * The realtime application (executables/rtapi_app/src/rtapi_app.cc)

    Modules are loaded, their parameters are set from arguments name=value,
    instances are made, modules are unloaded.  What a module does is a
    parameter ([Modules]); the calls into it are logged. *)
From Stdlib Require Import Ascii.
From S2P Require Import Prelude Double CString.

Module RtapiApp.

(** ** Parameters of modules *)

(** A variable of a parameter: a number, or a string that may be NULL. *)
Inductive item := INum (z : Z) | IStr (s : option string).

(** The type string of a parameter, if the symbol exists, and the variables;
    more than one for an array. *)
Record param := Param { p_type : option string; p_cells : list item }.
Abbreviation params := (gmap string param).

Definition quote : ascii := "034".
Fixpoint remove_quotes (s : string) : string :=
  match s with
  | EmptyString => EmptyString
  | String c s => if Ascii.eqb c quote then remove_quotes s else String c (remove_quotes s)
  end.

(** The parts before and behind the first [c]. *)
Fixpoint split_at (c : ascii) (s : string) : option (string * string) :=
  match s with
  | EmptyString => None
  | String d s => if Ascii.eqb d c then Some (EmptyString, s) else '(a, b) ← split_at c s; Some (String d a, b)
  end.

(** The parts between commas: at least one. *)
Fixpoint split_comma (s : string) : list string :=
  match s with
  | EmptyString => [EmptyString]
  | String c s =>
      if Ascii.eqb c "," then EmptyString :: split_comma s
      else match split_comma s with p :: ps => String c p :: ps | [] => [String c EmptyString] end
  end.

(** [sscanf(s, "%d")]: the value and the rest, if there are digits. *)
Definition scan_int (s : string) : option (Z * string) :=
  let '(neg, v, rest) := strtox s 10 in
  if (String.length rest <? String.length s)%nat then
    Some (s32 (if neg : bool then Z.max (- 2 ^ 63) (- v) else Z.min (2 ^ 63 - 1) v), rest)
  else None.

(** [sscanf(s, "%d-%d%c")] with three conversions. *)
Definition array_type (s : string) : option (Z * Z * ascii) :=
  '(a, s) ← scan_int s;
  match s with
  | String c s =>
      if Ascii.eqb c "-" then
        '(b, s) ← scan_int s;
        match s with String t _ => Some (a, b, t) | EmptyString => None end
      else None
  | EmptyString => None
  end.

(** The value of an item; the flag says whether all of the text was used. *)
Definition convert (ty : ascii) (value : string) : option (item * bool) :=
  if Ascii.eqb ty "l" then let '(v, rest) := strtol value 0 in Some (INum v, String.eqb rest EmptyString)
  else if Ascii.eqb ty "i" then let '(v, rest) := strtol value 0 in Some (INum (s32 v), String.eqb rest EmptyString)
  else if Ascii.eqb ty "u" then let '(v, rest) := strtoul value 0 in Some (INum (u32 v), String.eqb rest EmptyString)
  else if Ascii.eqb ty "s" then Some (IStr (Some value), true)
  else None.

(** The variable is set even if the text is wrong.  [None]: there is no such
    variable, memory behind the array is overwritten. *)
Definition do_one_item (ty : ascii) (value : string) (idx : Z) (cells : list item) : option (Z * list item) :=
  match convert ty value with
  | None => Some (-1, cells)
  | Some (v, complete) =>
      if (0 <=? idx) && (idx <? Z.of_nat (length cells)) then Some (if complete : bool then 0 else -1, <[Z.to_nat idx := v]> cells)
      else None
  end.

(** The items of an array that can take [b] of them. *)
Fixpoint do_items (b : Z) (ty : ascii) (values : list string) (i : Z) (cells : list item) : option (Z * list item) :=
  match values with
  | [] => Some (0, cells)
  | value :: values =>
      if i =? b then Some (-1, cells)
      else
        '(result, cells) ← do_one_item ty value i cells;
        if result =? 0 then do_items b ty values (i + 1) cells else Some (result, cells)
  end.

Definition do_module_arg (arg : string) (ps : params) : option (Z * params) :=
  match split_at "=" (remove_quotes arg) with
  | None => Some (-1, ps)
  | Some (name, value) =>
      match ps !! name with
      | None => Some (-1, ps)
      | Some p =>
          match p_type p with
          | None => Some (-1, ps)
          | Some ty =>
              let set (r : option (Z * list item)) :=
                '(result, cells) ← r; Some (result, <[name := {| p with p_cells := cells |}]> ps) in
              if (1 <? String.length ty)%nat then
                match array_type ty with
                | None => Some (-1, ps)
                | Some (_, b, t) => set (do_items b t (split_comma value) 0 (p_cells p))
                end
              else set (do_one_item (match ty with String t _ => t | EmptyString => "000" end) value 0 (p_cells p))
          end
      end
  end.

(** Up to the first argument that fails. *)
Fixpoint do_module_args (args : list string) (ps : params) : option (Z * params) :=
  match args with
  | [] => Some (0, ps)
  | arg :: args =>
      '(result, ps) ← do_module_arg arg ps;
      if result =? 0 then do_module_args args ps else Some (result, ps)
  end.

(** Arguments name=value, and what is left for the constructor. *)
Definition is_option (s : string) : bool := String.prefix "--" s.
Fixpoint separate_kv (extra : bool) (args : list string) : list string * list string :=
  match args with
  | [] => ([], [])
  | arg :: args =>
      let s := remove_quotes arg in
      if String.eqb s "--" then separate_kv true args
      else
        let extra := extra || is_option s in
        let r := separate_kv extra args in
        if extra then (fst r, s :: snd r) else (s :: fst r, snd r)
  end.

(** ** Modules *)

(** A loaded module: its parameters and its instance parameters; does it
    have the entry points? *)
Record module_ := Mod { m_name : string; m_mp : params; m_ip : params; m_main : bool; m_exit : bool }.

(** The calls into modules and into the dynamic linker. *)
Inductive call :=
| Main (name : string) (mp : params)                     (* rtapi_app_main *)
| Exit (name : string)                                   (* rtapi_app_exit *)
| Dlclose (name : string)
| StopThreads                                            (* hal_stop_threads *)
| ExitUsercomps                                          (* hal_exit_usercomps *)
| CreateThread (name : string) (period : Z)              (* hal_create_xthread *)
| DeleteThread (name : string)                           (* hal_thread_delete *)
| Usrfunct (func : string) (argv : list string) (ip : option params).   (* a constructor reads its instance parameters *)

(** The pointer to hal_call_usrfunct; it is not cleared when the library that it
    points into is closed. *)
Inductive pointer := Null | Valid | Dangling.

Record app := App {
  modules : gmap string module_;
  iparms : gmap string (list string);
  loading_order : list string;
  usrfunct : pointer;         (* call_usrfunct *)
  log : list call;
}.

(** What the dynamic linker finds for a file (its name is set by the caller),
    and what the modules return. *)
Class Modules := {
  dl_load : string -> option module_;
  hal_sym : module_ -> string -> bool;                  (* does the module have the symbol? *)
  hal_result : call -> Z;                               (* of a function on threads *)
  app_main : module_ -> Z;
  run_usrfunct : string -> list string -> option params -> Z * Z;   (* result, ureturn *)
}.

Section App.
Context `{!Modules}.

Definition act (c : call) : M app unit := modify (fun a => {| a with log := log a ++ [c] |}).
Definition set_module (m : module_) : M app unit := modify (fun a => {| a with modules := <[m_name m := m]> (modules a) |}).

(** The name of a module is the part of the path behind the last slash. *)
Fixpoint basename (s : string) : string :=
  match s with
  | EmptyString => EmptyString
  | String c s' => if str_mem "/" s' then basename s' else if Ascii.eqb c "/" then s' else s
  end.
Definition load (path : string) : option module_ :=
  let '(name, dlpath) :=
    if str_mem "/" path then (basename path, (path ++ ".so")%string) else (path, ("mod" ++ path ++ ".so")%string) in
  m ← dl_load dlpath; Some {| m with m_name := name |}.

(** The list in the map is a copy that stays empty: the defaults are added to
    the local one. *)
Definition record_instparms (m : module_) : M app unit := modify (fun a => {| a with iparms := <[m_name m := []]> (iparms a) |}).

Definition apply_args (args : list string) (ps : params) : M app (Z * params) :=
  match do_module_args args ps with Some r => mret r | None => crash end.

(** A module that is not kept is closed when the last pointer to it goes. *)
Definition do_load_cmd (path : string) (args : list string) : M app Z :=
  match load path with
  | None => mret (-1)
  | Some m =>
      a ← get;
      match modules a !! m_name m with
      | Some _ => act (Dlclose (m_name m)) ≫= fun _ => mret (-1)
      | None =>
          record_instparms m ≫= fun _ =>
          if negb (m_main m) then act (Dlclose (m_name m)) ≫= fun _ => mret (-1)
          else
            '(result, mp) ← apply_args args (m_mp m);
            if result <? 0 then act (Dlclose (m_name m)) ≫= fun _ => act (Dlclose (m_name m)) ≫= fun _ => mret (-1)
            else
              let m := {| m with m_mp := mp |} in
              act (Main (m_name m) mp) ≫= fun _ =>
              let result := app_main m in
              if result <? 0 then act (Dlclose (m_name m)) ≫= fun _ => mret result
              else
                set_module m ≫= fun _ =>
                modify (fun a => {| a with loading_order := loading_order a ++ [m_name m] |}) ≫= fun _ => mret 0
      end
  end.

(** [std::remove] moves the elements that stay to the front; the vector keeps
    its length.  Behind the new end are elements that were not touched, or
    moved-from strings, which are empty. *)
Fixpoint std_tail (name : string) (l : list string) (found : bool) : list string :=
  match l with
  | [] => []
  | x :: l => if String.eqb x name then x :: std_tail name l true else (if found then EmptyString else x) :: std_tail name l found
  end.
Definition std_remove (name : string) (l : list string) : list string :=
  let kept := List.filter (fun x => negb (String.eqb x name)) l in
  kept ++ drop (length kept) (std_tail name l false).
Definition remove_module (name : string) : M app unit := modify (fun a => {| a with loading_order := std_remove name (loading_order a) |}).

Definition HALMOD : string := "hal".
Definition RTAPIMOD : string := "runtime".

Definition closed (name : string) (p : pointer) : pointer :=
  match p with Valid => if String.eqb name HALMOD then Dangling else Valid | p => p end.

(** The module is closed, and once more when the last pointer to it goes. *)
Definition do_unload_cmd (name : string) : M app Z :=
  a ← get;
  match modules a !! name with
  | None => mret (-1)
  | Some m =>
      (if m_exit m then act (Exit name) else mret tt) ≫= fun _ =>
      act (Dlclose name) ≫= fun _ =>
      modify (fun a => {| a with modules := delete name (modules a); usrfunct := closed name (usrfunct a) |}) ≫= fun _ =>
      remove_module name ≫= fun _ =>
      act (Dlclose name) ≫= fun _ => mret 0
  end.

(** In reverse loading order; the loop goes over a vector that the calls
    change. *)
Fixpoint unload_from (n : nat) : M app unit :=
  match n with
  | O => mret tt
  | S n =>
      a ← get;
      match loading_order a !! n with
      | Some name => do_unload_cmd name ≫= fun _ => unload_from n
      | None => crash
      end
  end.
(** Without the HAL library the pointer to it is NULL. *)
Definition exit_actions : M app unit :=
  a ← get;
  match modules a !! HALMOD with
  | None => crash
  | Some _ =>
      act StopThreads ≫= fun _ => act ExitUsercomps ≫= fun _ =>
      unload_from (length (loading_order a))
  end.

Definition init_actions : M app Z :=
  retval ← do_load_cmd RTAPIMOD [];
  if negb (retval =? 0) then mret retval
  else
    retval ← do_load_cmd HALMOD [];
    if negb (retval =? 0) then mret retval
    else
      a ← get;
      match modules a !! HALMOD with
      | None => crash
      | Some hallib =>
          let found := hal_sym hallib "hal_call_usrfunct" in
          modify (fun a => {| a with usrfunct := if found then Valid else Null |}) ≫= fun _ => mret (if found then 0 else -1)
      end.

Definition do_callfunc_cmd (func : string) (args : list string) (ip : option params) : M app Z :=
  a ← get;
  match usrfunct a with
  | Null => mret (-1)
  | Dangling => crash
  | Valid =>
      act (Usrfunct func args ip) ≫= fun _ =>
      let '(retval, ureturn) := run_usrfunct func args ip in
      mret (if retval =? 0 then ureturn else retval)
  end.

Definition do_newinst_cmd (comp instname : string) (args : list string) : M app Z :=
  a ← get;
  if match usrfunct a with Null => true | _ => false end then mret (-1)
  else
    match modules a !! comp with
    | None => mret (-1)
    | Some m =>
        '(retval, ip) ← apply_args (default [] (iparms a !! comp)) (m_ip m);
        set_module {| m with m_ip := ip |} ≫= fun _ =>
        if retval <? 0 then mret retval
        else
          let '(kvpairs, leftovers) := separate_kv false args in
          '(retval, ip) ← apply_args kvpairs ip;
          set_module {| m with m_ip := ip |} ≫= fun _ =>
          if retval <? 0 then mret retval
          else do_callfunc_cmd "newinst" (comp :: instname :: leftovers) (Some ip)
    end.

Definition do_delinst_cmd (instname : string) : M app Z := do_callfunc_cmd "delinst" [instname] None.

(** The requests that change modules, and the reply's return code. *)
Inductive request :=
| LoadRt (modname : string) (argv : list string)
| UnloadRt (modname : string)
| NewInst (comp instname : string) (argv : list string)
| DelInst (instname : string)
| CallFunc (func : string) (argv : list string)
| NewThread (threadname : string) (period : Z)
| DelThread (threadname : string)
| Ping
| ExitApp.

(** A function of the HAL library on threads. *)
Definition hal_call (sym : string) (c : call) : M app Z :=
  a ← get;
  match modules a !! HALMOD with
  | None => mret (-1)
  | Some mi => if hal_sym mi sym then act c ≫= fun _ => mret (hal_result c) else mret (-1)
  end.

Definition rtapi_request (r : request) : M app Z :=
  match r with
  | LoadRt modname argv => do_load_cmd modname argv
  | UnloadRt modname => do_unload_cmd modname
  | NewInst comp instname argv => do_newinst_cmd comp instname argv
  | DelInst instname => do_delinst_cmd instname
  | CallFunc func argv => do_callfunc_cmd func argv None
  | NewThread name period => hal_call "hal_create_xthread" (CreateThread name period)
  | DelThread name => hal_call "hal_thread_delete" (DeleteThread name)
  | Ping => mret 0
  | ExitApp => exit_actions ≫= fun _ => mret 0
  end.

Fixpoint requests (rs : list request) : M app (list Z) :=
  match rs with
  | [] => mret []
  | r :: rs => retcode ← rtapi_request r; retcodes ← requests rs; mret (retcode :: retcodes)
  end.

End App.

End RtapiApp.

(** * Theorems

    Arguments are stored within the variables of the parameters; the modules
    are shut down in reverse loading order. *)
Import RtapiApp.

(** ** Parameters *)

(** The type string does not promise more variables than there are. *)
Definition param_ok (p : param) : Prop :=
  forall ty, p_type p = Some ty ->
    if (1 <? String.length ty)%nat then forall a b t, array_type ty = Some (a, b, t) -> 0 <= b <= Z.of_nat (length (p_cells p))
    else (1 <= length (p_cells p))%nat.

Definition params_ok (ps : params) : Prop := forall name p, ps !! name = Some p -> param_ok p.

(** The declaration of a parameter does not change. *)
Definition same_shape (p p' : param) : Prop := p_type p' = p_type p /\ length (p_cells p') = length (p_cells p).
Definition same_shapes (ps ps' : params) : Prop := forall name, option_relation same_shape (fun _ => False) (fun _ => False) (ps !! name) (ps' !! name).

Lemma same_shapes_refl ps : same_shapes ps ps.
Proof. intros name. by destruct (ps !! name). Qed.

Lemma same_shapes_trans a b c : same_shapes a b -> same_shapes b c -> same_shapes a c.
Proof.
  intros H1 H2 name. specialize (H1 name). specialize (H2 name). destruct (a !! name), (b !! name), (c !! name); cbn in *; try done.
  destruct H1, H2. split; congruence.
Qed.

Lemma do_one_item_bounds ty value idx cells : 0 <= idx < Z.of_nat (length cells) -> exists r cells', do_one_item ty value idx cells = Some (r, cells') /\ length cells' = length cells.
Proof.
  intros Hi. unfold do_one_item. destruct (convert ty value) as [[v []] |]; [| | by eexists _, _];
    rewrite (proj2 (Z.leb_le 0 idx)), (proj2 (Z.ltb_lt idx _)) by lia; eexists _, _; (split; [reflexivity |]); apply length_insert.
Qed.

Lemma do_items_bounds b ty values i cells : 0 <= i <= b -> b <= Z.of_nat (length cells) -> exists r cells', do_items b ty values i cells = Some (r, cells') /\ length cells' = length cells.
Proof.
  revert i cells. induction values as [| value values IH]; intros i cells Hi Hb; cbn [do_items]; [by eexists _, _ |].
  destruct (i =? b) eqn:E; zb; [by eexists _, _ |]. destruct (do_one_item_bounds ty value i cells) as (r & cells' & -> & Hl); [lia |]. cbn [mbind option_bind].
  destruct (r =? 0); [| by eexists _, _]. destruct (IH (i + 1) cells') as (r' & c' & E' & Hl'); [lia | lia |]. exists r', c'. split; [done | congruence].
Qed.

Lemma set_shape ps name p cells : ps !! name = Some p -> length cells = length (p_cells p) -> params_ok ps ->
  params_ok (<[name := {| p with p_cells := cells |}]> ps) /\ same_shapes ps (<[name := {| p with p_cells := cells |}]> ps).
Proof.
  intros Hp Hl Hok. split.
  - intros n q Hq. destruct (decide (n = name)) as [-> | Hne]; [| rewrite lookup_insert_ne in Hq by done; by apply (Hok n)].
    rewrite lookup_insert_eq in Hq. injection Hq as <-. intros ty Hty. cbn in *. specialize (Hok name p Hp ty Hty). by rewrite Hl.
  - intros n. destruct (decide (n = name)) as [-> | Hne]; [rewrite lookup_insert_eq, Hp; by split | rewrite lookup_insert_ne by done; apply same_shapes_refl].
Qed.

Lemma do_module_arg_bounds arg ps : params_ok ps -> exists r ps', do_module_arg arg ps = Some (r, ps') /\ params_ok ps' /\ same_shapes ps ps'.
Proof.
  intros Hok. assert (exists r ps', Some (-1, ps) = Some (r, ps') /\ params_ok ps' /\ same_shapes ps ps') as Hfail by (eexists _, ps; by split; [| split; [| apply same_shapes_refl]]).
  unfold do_module_arg. destruct (split_at "=" (remove_quotes arg)) as [[name value] |]; [| done].
  destruct (ps !! name) as [p |] eqn:Ep; [| done]. destruct (p_type p) as [ty |] eqn:Et; [| done]. pose proof (Hok name p Ep ty Et) as Hp.
  destruct (1 <? String.length ty)%nat.
  - destruct (array_type ty) as [[[a b] t] |]; [| done]. specialize (Hp a b t eq_refl).
    destruct (do_items_bounds b t (split_comma value) 0 (p_cells p)) as (r & cells & -> & Hl); [lia | lia |]. cbn [mbind option_bind].
    rewrite <- Et. exists r, (<[name := {| p with p_cells := cells |}]> ps). split; [done |]. by apply set_shape.
  - destruct (do_one_item_bounds (match ty with String t _ => t | EmptyString => "000" end) value 0 (p_cells p)) as (r & cells & -> & Hl); [lia |]. cbn [mbind option_bind].
    rewrite <- Et. exists r, (<[name := {| p with p_cells := cells |}]> ps). split; [done |]. by apply set_shape.
Qed.

(** The arguments of a module, whatever their text, are stored within the
    variables of its parameters, if no parameter declares more variables than
    it has: every list of arguments gives a result, and neither the
    declarations nor the sizes of arrays change. *)
Theorem args_in_bounds args ps : params_ok ps -> exists r ps', do_module_args args ps = Some (r, ps') /\ params_ok ps' /\ same_shapes ps ps'.
Proof.
  revert ps. induction args as [| arg args IH]; intros ps Hok; cbn [do_module_args]; [eexists _, ps; by split; [| split; [| apply same_shapes_refl]] |].
  destruct (do_module_arg_bounds arg ps Hok) as (r & ps1 & -> & Hok1 & Hs1). cbn [mbind option_bind]. destruct (r =? 0); [| by eexists _, _].
  destruct (IH ps1 Hok1) as (r' & ps2 & E & Hok2 & Hs2). exists r', ps2. split; [done |]. split; [done |]. by eapply same_shapes_trans.
Qed.

(** ** The text of arguments *)

Fixpoint join (vs : list string) : string :=
  match vs with [] => EmptyString | [v] => v | v :: vs => (v ++ String "," (join vs))%string end.

Lemma split_comma_app v s : str_mem "," v = false -> split_comma (v ++ String "," s) = v :: split_comma s.
Proof.
  induction v as [| c v IH]; rewrite ?str_app_nil, ?str_app_cons; cbn [split_comma str_mem]; [done |]. intros H. apply orb_false_iff in H as [Hc Hv]. rewrite IH by done.
  rewrite Ascii.eqb_sym in Hc. by rewrite Hc.
Qed.

Lemma split_comma_plain v : str_mem "," v = false -> split_comma v = [v].
Proof.
  induction v as [| c v IH]; cbn [split_comma str_mem]; [done |]. intros H. apply orb_false_iff in H as [Hc Hv]. rewrite IH by done.
  rewrite Ascii.eqb_sym in Hc. by rewrite Hc.
Qed.

Lemma split_join vs : vs <> [] -> Forall (fun v => str_mem "," v = false) vs -> split_comma (join vs) = vs.
Proof.
  intros Hne H. induction H as [| v vs Hv Hvs IH]; [done |]. destruct vs as [| w vs]; [by apply split_comma_plain |].
  change (join (v :: w :: vs)) with (v ++ String "," (join (w :: vs)))%string. rewrite split_comma_app by done. by rewrite IH.
Qed.

Lemma remove_quotes_plain s : str_mem quote s = false -> remove_quotes s = s.
Proof.
  induction s as [| c s IH]; cbn [remove_quotes str_mem]; [done |]. intros H. apply orb_false_iff in H as [Hc Hv]. rewrite IH by done.
  rewrite Ascii.eqb_sym in Hc. by rewrite Hc.
Qed.

Lemma str_mem_app c a b : str_mem c (a ++ b) = str_mem c a || str_mem c b.
Proof. induction a as [| d a IH]; rewrite ?str_app_nil, ?str_app_cons; cbn [str_mem]; [done |]. by rewrite IH, orb_assoc. Qed.

Lemma split_at_app c a b : str_mem c a = false -> split_at c (a ++ String c b) = Some (a, b).
Proof.
  induction a as [| d a IH]; rewrite ?str_app_nil, ?str_app_cons; cbn [split_at str_mem]; [change (EmptyString ++ String c b)%string with (String c b); cbn [split_at]; by rewrite Ascii.eqb_refl |]. intros H. apply orb_false_iff in H as [Hc Hv].
  rewrite IH by done. rewrite Ascii.eqb_sym in Hc. by rewrite Hc.
Qed.

Lemma join_plain c vs : Ascii.eqb c "," = false -> Forall (fun v => str_mem c v = false) vs -> str_mem c (join vs) = false.
Proof.
  intros Hc H. induction H as [| v vs Hv Hvs IH]; [done |]. destruct vs as [| w vs]; [done |].
  change (join (v :: w :: vs)) with (v ++ String "," (join (w :: vs)))%string. rewrite str_mem_app, Hv. cbn [str_mem orb]. by rewrite Hc, IH.
Qed.

Lemma do_items_values b ty values items i cells : Forall2 (fun v x => convert ty v = Some (x, true)) values items ->
  0 <= i -> i + Z.of_nat (length values) <= b -> b <= Z.of_nat (length cells) ->
  do_items b ty values i cells = Some (0, take (Z.to_nat i) cells ++ items ++ drop (Z.to_nat i + length items) cells).
Proof.
  intros H. revert i cells. induction H as [| v x values items Hv Hvs IH]; intros i cells Hi Hb Hl; cbn [do_items].
  - cbn [length List.app]. by rewrite Nat.add_0_r, take_drop.
  - cbn [length] in Hb. rewrite (proj2 (Z.eqb_neq i b)) by lia. unfold do_one_item. rewrite Hv, (proj2 (Z.leb_le 0 i)), (proj2 (Z.ltb_lt i _)) by lia. cbn [andb mbind option_bind].
    rewrite Z.eqb_refl. rewrite IH by (rewrite ?length_insert; lia). do 2 f_equal. replace (Z.to_nat (i + 1)) with (S (Z.to_nat i)) by lia.
    rewrite (take_S_r _ _ x) by (apply list_lookup_insert_eq; lia). rewrite take_insert_ge by lia. rewrite drop_insert_lt by lia. rewrite <- app_assoc. cbn [List.app length]. by rewrite Nat.add_succ_r.
Qed.

(** An array parameter takes the values of name=v1,v2,...: for values
    without a comma or quotes that convert, no more than the declaration
    allows, they are stored from the first variable on, and the other
    variables keep what they have. *)
Theorem array_arg_stored name p ty a b t values items ps : ps !! name = Some p -> param_ok p -> p_type p = Some ty -> (1 < String.length ty)%nat -> array_type ty = Some (a, b, t) ->
  str_mem "=" name = false -> str_mem quote name = false ->
  values <> [] -> Forall (fun v => str_mem "," v = false) values -> Forall (fun v => str_mem quote v = false) values ->
  Forall2 (fun v x => convert t v = Some (x, true)) values items -> Z.of_nat (length values) <= b ->
  do_module_args [(name ++ String "=" (join values))%string] ps = Some (0, <[name := {| p with p_cells := items ++ drop (length items) (p_cells p) |}]> ps).
Proof.
  intros Hp Hok Hty Hlen Harr He Hq Hne Hc Hqv Hconv Hb. cbn [do_module_args]. unfold do_module_arg.
  rewrite remove_quotes_plain by (rewrite str_mem_app, Hq; cbn [str_mem orb]; by rewrite join_plain). rewrite split_at_app by done. rewrite Hp, Hty.
  rewrite (proj2 (Nat.ltb_lt 1 _)) by lia. rewrite Harr. specialize (Hok ty Hty). rewrite (proj2 (Nat.ltb_lt 1 _)) in Hok by lia. specialize (Hok a b t Harr).
  rewrite split_join by done. rewrite (do_items_values b t values items 0) by (done || lia). done.
Qed.

(** ** Modules *)

(** The names of the modules that are loaded, the newest last: what the
    requests and their return codes say. *)
Fixpoint live (rs : list request) (retcodes : list Z) (l : list string) : list string :=
  match rs, retcodes with
  | r :: rs, retcode :: retcodes =>
      live rs retcodes
        match r with
        | LoadRt path _ => if retcode =? 0 then l ++ [basename path] else l
        | UnloadRt name => if retcode =? 0 then List.filter (fun x => negb (String.eqb x name)) l else l
        | _ => l
        end
  | _, _ => l
  end.

(** The calls that shut a module down. *)
Definition closing (a : app) (name : string) : list call :=
  match modules a !! name with
  | Some m => (if m_exit m then [Exit name] else []) ++ [Dlclose name; Dlclose name]
  | None => []
  end.

Definition loaded (a : app) (name : string) : bool := match modules a !! name with Some _ => true | None => false end.
Definition other (name x : string) : bool := negb (String.eqb x name).

Lemma other_same name : other name name = false.
Proof. unfold other. by rewrite String.eqb_refl. Qed.

(** The first occurrences. *)
Fixpoint firsts (l : list string) : list string :=
  match l with [] => [] | x :: l => x :: List.filter (other x) (firsts l) end.

Lemma filter_ext_on {A} (f g : A -> bool) l : (forall x, In x l -> f x = g x) -> List.filter f l = List.filter g l.
Proof. apply List.filter_ext_in. Qed.

Lemma filter_and {A} (f g : A -> bool) l : List.filter f (List.filter g l) = List.filter (fun x => g x && f x) l.
Proof. induction l as [| x l IH]; [done |]. cbn. destruct (g x); cbn; by rewrite IH. Qed.

Lemma filter_firsts f l : List.filter f (firsts l) = firsts (List.filter f l).
Proof.
  induction l as [| x l IH]; [done |]. cbn. destruct (f x) eqn:E; cbn.
  - f_equal. rewrite filter_and, <- IH, filter_and. apply filter_ext_on. intros y _. apply andb_comm.
  - rewrite filter_and, <- IH. apply filter_ext_on. intros y _. unfold other. destruct (String.eqb_spec y x) as [-> |]; by rewrite ?E.
Qed.

Lemma filter_nil {A} (f : A -> bool) l : (forall x, In x l -> f x = false) -> List.filter f l = [].
Proof. induction l as [| x l IH]; [done |]. intros H. cbn. rewrite (H x) by by left. apply IH. intros y Hy. apply H. by right. Qed.

(** [std_remove] leaves only the name itself and empty strings behind. *)
Lemma std_tail_rest name l : Forall (fun x => x = name \/ x = EmptyString) (std_tail name l true).
Proof. induction l as [| x l IH]; cbn; [done |]. destruct (String.eqb_spec x name); constructor; auto. Qed.

Lemma std_remove_rest name l : Forall (fun x => x = name \/ x = EmptyString) (drop (length (List.filter (other name) l)) (std_tail name l false)).
Proof.
  induction l as [| x l IH]; cbn; [done |]. unfold other at 1. destruct (String.eqb_spec x name); cbn; [| done].
  apply Forall_drop. constructor; [by left | apply std_tail_rest].
Qed.

Lemma length_std_tail name l b : length (std_tail name l b) = length l.
Proof. revert b. induction l as [| x l IH]; intros b; cbn; [done |]. destruct (String.eqb x name); cbn; by rewrite IH. Qed.

Lemma length_std_remove name l : length (std_remove name l) = length l.
Proof. unfold std_remove. rewrite length_app, length_drop, length_std_tail. pose proof (List.filter_length_le (fun x => negb (String.eqb x name)) l). lia. Qed.

Lemma filter_std_remove f name l : f name = false -> f EmptyString = false -> List.filter f (std_remove name l) = List.filter f l.
Proof.
  intros Hn He. unfold std_remove. rewrite List.filter_app. rewrite (filter_nil f (drop _ _)).
  - rewrite app_nil_r, filter_and. apply filter_ext_on. intros x _. destruct (String.eqb_spec x name) as [-> |]; cbn; by rewrite ?Hn.
  - intros x Hx. apply list_elem_of_In in Hx. pose proof (proj1 (Forall_forall _ _) (std_remove_rest name l) x Hx) as [-> | ->]; done.
Qed.

(** Compute a command. *)
Ltac run := unfold act, set_module, record_instparms, apply_args, modify, get, crash, mbind, M_bind, mret, M_ret; cbn [List.app modules iparms loading_order usrfunct log m_name m_mp m_ip m_main m_exit negb].

Section Order.
Context `{HM : !Modules}.

(** The modules that are loaded are in the loading order, the newest first
    from the end; what else is there is not loaded. *)
Record order_inv (a : app) (l : list string) : Prop := {
  oi_loaded : forall name, In name l <-> loaded a name = true;
  oi_firsts : firsts (List.filter (loaded a) (rev (loading_order a))) = rev l;
  oi_named : loaded a EmptyString = false;
  oi_name : forall name m, modules a !! name = Some m -> m_name m = name;
}.

Lemma order_inv_same a a' l : modules a' = modules a -> loading_order a' = loading_order a -> order_inv a l -> order_inv a' l.
Proof. intros Hm Ho [H1 H2 H3 H4]. unfold loaded in *. split; intros; unfold loaded in *; rewrite ?Hm, ?Ho in *; auto. Qed.

Lemma unload_run name (a : app) : do_unload_cmd name a =
  match modules a !! name with
  | None => (Ok (-1), a)
  | Some m => (Ok 0, {| modules := delete name (modules a); iparms := iparms a; loading_order := std_remove name (loading_order a);
      usrfunct := closed name (usrfunct a); log := log a ++ closing a name |})
  end.
Proof.
  unfold do_unload_cmd, closing, remove_module. run. destruct (modules a !! name) as [m |]; [| done].
  destruct (m_exit m); run; by rewrite <- ?app_assoc.
Qed.

Lemma loaded_delete a a' name x : modules a' = delete name (modules a) -> loaded a' x = other name x && loaded a x.
Proof.
  intros E. unfold loaded, other. rewrite E. destruct (String.eqb_spec x name) as [-> | Hne]; [by rewrite lookup_delete_eq |].
  by rewrite lookup_delete_ne by congruence.
Qed.

Lemma order_inv_unload name a l r a' : order_inv a l -> do_unload_cmd name a = (Ok r, a') ->
  order_inv a' (if r =? 0 then List.filter (other name) l else l).
Proof.
  intros [H1 H2 H3 H4]. rewrite unload_run. destruct (modules a !! name) as [m |] eqn:Em; intros [= <- <-]; [| by split].
  rewrite Z.eqb_refl. set (a' := App _ _ _ _ _). pose proof (fun x => loaded_delete a a' name x eq_refl) as HL. split.
  - intros x. rewrite HL, List.filter_In, H1, andb_true_iff. tauto.
  - rewrite <- filter_rev, <- H2, filter_firsts. f_equal. change (loading_order a') with (std_remove name (loading_order a)).
    rewrite filter_and, !filter_rev. f_equal. rewrite filter_std_remove.
    + apply filter_ext_on. intros x _. rewrite HL. apply andb_comm.
    + by rewrite HL, other_same.
    + rewrite HL, H3. apply andb_false_r.
  - by rewrite HL, H3, andb_false_r.
  - intros x mx. cbn. intros [_ Hx]%lookup_delete_Some. by apply H4.
Qed.

Lemma load_name path m : load path = Some m -> m_name m = basename path.
Proof.
  unfold load. assert (str_mem "/" path = false -> basename path = path) as Hb.
  { destruct path as [| c s]; [done |]. cbn [str_mem basename]. intros H. apply orb_false_iff in H as [Hc Hs]. rewrite Hs. rewrite Ascii.eqb_sym in Hc. by rewrite Hc. }
  destruct (str_mem "/" path); cbv beta iota; (destruct (dl_load _) as [m' |]; cbn [mbind option_bind]; [intros [= <-] | done]); cbn; first [done | by rewrite Hb].
Qed.

Lemma loaded_insert a a' m x : modules a' = <[m_name m := m]> (modules a) -> loaded a' x = negb (other (m_name m) x) || loaded a x.
Proof.
  intros E. unfold loaded, other. rewrite E, negb_involutive. destruct (String.eqb_spec x (m_name m)) as [-> | Hne]; [by rewrite lookup_insert_eq |].
  by rewrite lookup_insert_ne by congruence.
Qed.

(** A load leaves the modules alone or adds one. *)
Lemma load_outcome path args a r a' : do_load_cmd path args a = (Ok r, a') ->
  (r <> 0 /\ modules a' = modules a /\ loading_order a' = loading_order a) \/
  (r = 0 /\ exists m, load path <> None /\ m_name m = basename path /\ modules a !! m_name m = None /\ modules a' = <[m_name m := m]> (modules a) /\ loading_order a' = loading_order a ++ [m_name m]).
Proof.
  unfold do_load_cmd. destruct (load path) as [m |] eqn:El; [| intros [= <- <-]; by left]. pose proof (load_name path m El) as Hn.
  run. destruct (modules a !! m_name m) eqn:Em; [intros [= <- <-]; by left |].
  destruct (m_main m); run; [| intros [= <- <-]; by left].
  destruct (do_module_args args (m_mp m)) as [[result mp] |]; run; [| done].
  destruct (result <? 0); run; [intros [= <- <-]; by left |].
  destruct (app_main _ <? 0) eqn:Er; run; intros [= <- <-]; [left; split; [intros E; by rewrite E in Er | done] |].
  right. split; [done |]. by exists {| m_name := m_name m; m_mp := mp; m_ip := m_ip m; m_main := true; m_exit := m_exit m |}.
Qed.

Lemma order_inv_load path args a l r a' : basename path <> EmptyString -> order_inv a l -> do_load_cmd path args a = (Ok r, a') -> order_inv a' (if r =? 0 then l ++ [basename path] else l).
Proof.
  intros Hbase Hi E. apply load_outcome in E as [(Hr & Hm & Ho) | (-> & m & Hp & Hn & Hnone & Hm & Ho)].
  - rewrite (proj2 (Z.eqb_neq r 0)) by done. by apply (order_inv_same a).
  - rewrite Z.eqb_refl. destruct Hi as [H1 H2 H3 H4]. pose proof (fun x => loaded_insert a a' m x Hm) as HL. rewrite <- Hn in *.
    assert (loaded a (m_name m) = false) as Hl by (unfold loaded; by rewrite Hnone). split.
    + intros x. rewrite in_app_iff, HL, H1, orb_true_iff. unfold other. rewrite negb_involutive, String.eqb_eq. cbn. intuition congruence.
    + rewrite Ho, !rev_app_distr. cbn [rev List.app List.filter]. rewrite HL at 1. unfold other at 1. rewrite String.eqb_refl. cbn [negb orb firsts].
      f_equal. rewrite filter_firsts, filter_and, <- H2. f_equal. apply filter_ext_on. intros x _. rewrite HL. unfold other.
      destruct (String.eqb_spec x (m_name m)) as [-> |]; cbn; [by rewrite Hl | by rewrite andb_true_r].
    + rewrite HL, H3. unfold other. rewrite negb_involutive, orb_false_r. apply String.eqb_neq. intros He. congruence.
    + intros x mx. rewrite Hm. intros [[<- <-] | [_ Hx]]%lookup_insert_Some; [done | by apply H4].
Qed.

(** A module that is replaced by one with the same name stays in its place. *)
Lemma order_inv_set a l comp m m' : order_inv a l -> modules a !! comp = Some m -> m_name m' = m_name m -> order_inv (snd (set_module m' a)) l.
Proof.
  intros [H1 H2 H3 H4] Em Hn. pose proof (H4 comp m Em) as Hc. set (a' := snd (set_module m' a)).
  assert (forall x, loaded a' x = loaded a x) as HL.
  { intros x. rewrite (loaded_insert a a' m') by done. unfold other. rewrite negb_involutive, Hn, Hc. destruct (String.eqb_spec x comp) as [-> |]; [| done]. unfold loaded. by rewrite Em. }
  split.
  - intros x. by rewrite HL.
  - rewrite <- H2. f_equal. apply filter_ext_on. auto.
  - by rewrite HL.
  - intros x mx. cbn. intros [[<- <-] | [_ Hx]]%lookup_insert_Some; [done | by apply H4].
Qed.

Definition with_ip (m : module_) (ip : params) : module_ := {| m with m_ip := ip |}.

Lemma order_inv_callfunc func args ip a l : order_inv a l -> order_inv (snd (do_callfunc_cmd func args ip a)) l.
Proof.
  intros Hi. unfold do_callfunc_cmd. run. destruct (usrfunct a); run; [done | | done]. destruct (run_usrfunct func args ip); run. by apply (order_inv_same a).
Qed.

Lemma order_inv_newinst comp instname args a l : order_inv a l -> order_inv (snd (do_newinst_cmd comp instname args a)) l.
Proof.
  intros Hi. unfold do_newinst_cmd. unfold apply_args, get, crash, mbind, M_bind, mret, M_ret. destruct (match usrfunct a with Null => true | _ => false end); [done |]. destruct (modules a !! comp) as [m |] eqn:Em; [| done].
  destruct (do_module_args _ _) as [[retval ip] |]; [| done].
  unfold set_module, modify. cbv beta iota.
  match goal with |- order_inv (snd (_ ?st)) l => assert (order_inv st l /\ modules st !! comp = Some (with_ip m ip)) as [Hi1 Em1]; [| generalize dependent st] end.
  { split; [exact (order_inv_set a l comp m (with_ip m ip) Hi Em eq_refl) |]. cbn. apply lookup_insert_Some. left. split; [by apply (oi_name a l Hi) | done]. }
  intros a1 Hi1 Em1. destruct (retval <? 0); [done |]. destruct (separate_kv false args) as [kvpairs leftovers].
  destruct (do_module_args kvpairs ip) as [[retval' ip'] |]; [| done]. cbv beta iota.
  match goal with |- order_inv (snd (_ ?st)) l => assert (order_inv st l) as Hi2; [| generalize dependent st] end.
  { exact (order_inv_set a1 l comp _ (with_ip m ip') Hi1 Em1 eq_refl). }
  intros a2 Hi2. destruct (retval' <? 0); [done |]. by apply order_inv_callfunc.
Qed.

Lemma hal_call_same sym c a l r a' : order_inv a l -> hal_call sym c a = (Ok r, a') -> order_inv a' l.
Proof.
  intros Hi. unfold hal_call. run. destruct (modules a !! HALMOD) as [m |]; [| by intros [= <- <-]].
  destruct (hal_sym m sym); run; intros [= <- <-]; [by apply (order_inv_same a) | done].
Qed.

(** No module without a name, and no exit. *)
Definition plain_request (r : request) : Prop :=
  match r with LoadRt path _ => basename path <> EmptyString | ExitApp => False | _ => True end.

Lemma order_inv_request r a l retcode a' : plain_request r -> order_inv a l -> rtapi_request r a = (Ok retcode, a') -> order_inv a' (live [r] [retcode] l).
Proof.
  intros Hr Hi. destruct r as [path args | name | comp inst args | inst | f args | name period | name | |]; cbn [rtapi_request live]; intros E; try done.
  - by apply (order_inv_load path args a).
  - by apply (order_inv_unload name a).
  - pose proof (order_inv_newinst comp inst args a l Hi) as H. by rewrite E in H.
  - pose proof (order_inv_callfunc "delinst" [inst] None a l Hi) as H. unfold do_delinst_cmd in E. by rewrite E in H.
  - pose proof (order_inv_callfunc f args None a l Hi) as H. by rewrite E in H.
  - by apply (hal_call_same _ _ _ _ _ _ Hi E).
  - by apply (hal_call_same _ _ _ _ _ _ Hi E).
  - by injection E as _ <-.
Qed.

Lemma live_cons r rs c cs l : live (r :: rs) (c :: cs) l = live rs cs (live [r] [c] l).
Proof. by destruct r. Qed.

Lemma order_inv_requests rs a l retcodes a' : Forall plain_request rs -> order_inv a l -> requests rs a = (Ok retcodes, a') -> order_inv a' (live rs retcodes l).
Proof.
  intros Hr. revert a l retcodes. induction Hr as [| r rs Hr Hrs IH]; intros a l retcodes Hi; cbn [requests].
  - by intros [= <- <-].
  - intros (c & a1 & E1 & (cs & a2 & E2 & [= <- <-])%bind_ok)%bind_ok. rewrite live_cons. apply (IH a1); [| done].
    by apply (order_inv_request r a).
Qed.

Lemma closing_delete a a' name x : modules a' = delete name (modules a) -> x <> name -> closing a' x = closing a x.
Proof. intros E Hx. unfold closing. rewrite E. by rewrite lookup_delete_ne by congruence. Qed.

Lemma loaded_map a name : loaded a name = true <-> exists m, modules a !! name = Some m.
Proof. unfold loaded. destruct (modules a !! name); [split; [by eexists | done] | split; [done | by intros (? & ?)]]. Qed.

(** Behind the elements before [k], nothing is loaded. *)
Definition rest_gone (a : app) (k : nat) : Prop := List.filter (loaded a) (drop k (loading_order a)) = [].

Lemma filter_drop_nil {A} (f : A -> bool) k l : List.filter f l = [] -> List.filter f (drop k l) = [].
Proof. intros H. rewrite <- (take_drop k l), List.filter_app in H. by apply app_eq_nil in H as [_ ->]. Qed.

Lemma rest_gone_unload a a' name k : rest_gone a (S k) -> loading_order a !! k = Some name -> modules a' = delete name (modules a) ->
  loading_order a' = std_remove name (loading_order a) -> loaded a EmptyString = false -> rest_gone a' k.
Proof.
  intros Hr Hk Hm Ho He. pose proof (fun x => loaded_delete a a' name x Hm) as HL. unfold rest_gone in *. rewrite Ho. unfold std_remove.
  set (l := loading_order a) in *. change (fun x : string => negb (x =? name)%string) with (other name).
  assert (List.filter (loaded a') (drop (length (List.filter (other name) l)) (std_tail name l false)) = []) as Ht.
  { apply filter_nil. intros x Hx. apply list_elem_of_In in Hx. rewrite HL. pose proof (proj1 (Forall_forall _ _) (std_remove_rest name l) x Hx) as [-> | ->]; [by rewrite other_same | by rewrite He, andb_false_r]. }
  rewrite <- (take_drop k l) at 1. rewrite List.filter_app, <- app_assoc. rewrite drop_app_ge.
  - apply filter_drop_nil. rewrite List.filter_app, Ht, app_nil_r, filter_and. rewrite (drop_S l name k Hk). cbn [List.filter].
    rewrite other_same. cbn [andb].
    apply filter_nil. intros x Hx. rewrite HL. destruct (loaded a x) eqn:E; [| by rewrite !andb_false_r]. exfalso.
    enough (In x []) by done. rewrite <- Hr. by apply List.filter_In.
  - etransitivity; [apply List.filter_length_le |]. rewrite length_take. lia.
Qed.

Lemma exit_loop k a l : order_inv a l -> rest_gone a k -> (k <= length (loading_order a))%nat ->
  exists a', unload_from k a = (Ok tt, a') /\ modules a' = ∅ /\ log a' = log a ++ concat (map (closing a) (rev l)).
Proof.
  revert a l. induction k as [| k IH]; intros a l Hi Hr Hk; cbn [unload_from].
  - exists a. split; [done |]. unfold rest_gone in Hr. rewrite drop_0 in Hr. destruct Hi as [H1 H2 H3 H4].
    rewrite filter_rev, Hr in H2. cbn in H2. rewrite <- H2. cbn. rewrite app_nil_r. split; [| done]. apply map_eq. intros x. rewrite lookup_empty.
    destruct (modules a !! x) eqn:E; [| done]. assert (loaded a x = true) as Hx by (apply loaded_map; by eexists). apply H1 in Hx. by rewrite <- (rev_involutive l), <- H2 in Hx.
  - destruct (lookup_lt_is_Some_2 (loading_order a) k) as [name Hn]; [lia |]. run. rewrite Hn. rewrite unload_run.
    destruct (modules a !! name) as [m |] eqn:Em.
    + set (a' := App _ _ _ _ _). pose proof (order_inv_unload name a l 0 a' Hi) as Hi'. rewrite unload_run, Em in Hi'. specialize (Hi' eq_refl). rewrite Z.eqb_refl in Hi'.
      destruct (IH a' _ Hi') as (a2 & -> & Hm2 & Hl2).
      * by apply (rest_gone_unload a a' name); [| | | | apply (oi_named a l)].
      * cbn. rewrite length_std_remove. lia.
      * exists a2. split; [done |]. split; [done |]. rewrite Hl2. cbn [log a']. rewrite <- app_assoc. f_equal.
        assert (rev l = name :: List.filter (other name) (rev l)) as El.
        { rewrite <- (oi_firsts a l Hi). rewrite filter_rev. rewrite <- (take_drop (S k) (loading_order a)), List.filter_app, Hr, app_nil_r, <- filter_rev.
          rewrite (take_S_r _ _ _ Hn), rev_app_distr. cbn [rev List.app List.filter].
          rewrite (proj2 (loaded_map a name)) by by eexists. cbn [firsts List.filter]. rewrite other_same.
          f_equal. rewrite filter_and. apply filter_ext_on. intros x _. by rewrite andb_diag. }
        rewrite El. cbn [map concat]. f_equal. rewrite filter_rev. f_equal. apply map_ext_in. intros x Hx. apply List.in_rev, List.filter_In in Hx as [_ Hx].
        apply (closing_delete a a' name); [done |]. intros ->. by rewrite other_same in Hx.
    + apply IH with (l := l); [done | | lia]. unfold rest_gone. rewrite (drop_S _ _ _ Hn). cbn [List.filter]. unfold loaded at 1. by rewrite Em.
Qed.

Lemma order_inv_start u : order_inv {| modules := ∅; iparms := ∅; loading_order := []; usrfunct := u; log := [] |} [].
Proof. split; [intros name; unfold loaded; cbn; by rewrite lookup_empty | done | done | intros name m H; cbn in H; by rewrite lookup_empty in H]. Qed.

(** C27: After any requests that have all been answered, none of them for a
    module without a name: when the application exits, the modules that are
    loaded, as the requests and their return codes tell, are shut down in
    reverse loading order, each once, and none is left: although modules that
    were unloaded earlier are still in the list of names, and the list changes
    as it is run through.  This needs the HAL library; if it is not loaded any
    more, the exit crashes before anything is shut down. *)
Theorem exit_reverse rs retcodes a u : Forall plain_request rs ->
  requests rs {| modules := ∅; iparms := ∅; loading_order := []; usrfunct := u; log := [] |} = (Ok retcodes, a) ->
  if existsb (String.eqb HALMOD) (live rs retcodes []) then
    exists a', exit_actions a = (Ok tt, a') /\ modules a' = ∅ /\
      log a' = log a ++ [StopThreads; ExitUsercomps] ++ concat (map (closing a) (rev (live rs retcodes [])))
  else exit_actions a = (Crash, a).
Proof.
  intros Hr E. pose proof (order_inv_requests rs _ [] retcodes a Hr (order_inv_start u) E) as Hi. unfold exit_actions. run.
  destruct (existsb _ _) eqn:Eh.
  2: { destruct (modules a !! HALMOD) as [m |] eqn:Em; [| done]. assert (In HALMOD (live rs retcodes [])) as Hin by (apply (oi_loaded _ _ Hi), loaded_map; by eexists).
       rewrite (proj2 (List.existsb_exists _ _)) in Eh; [done |]. exists HALMOD. split; [done | apply String.eqb_refl]. }
  apply List.existsb_exists in Eh as (h & Hh & <-%String.eqb_eq).
  pose proof (proj1 (oi_loaded _ _ Hi HALMOD) Hh) as [m ->]%loaded_map. rewrite <- app_assoc. cbn [List.app]. set (a1 := App _ _ _ _ _).
  destruct (exit_loop (length (loading_order a)) a1 (live rs retcodes [])) as (a' & E' & Hm & Hl).
  - by apply (order_inv_same a).
  - unfold rest_gone. cbn. by rewrite drop_all.
  - done.
  - exists a'. split; [done |]. split; [done |]. rewrite Hl. cbn [log a1]. by rewrite <- app_assoc.
Qed.
End Order.

(** ** Examples *)

(** A machine that has four modules. *)
Definition demo_ip : params := <["count" := Param (Some "i") [INum 1]]> ∅.
#[local] Instance demo : Modules := {|
  dl_load file :=
    if existsb (String.eqb file) ["modruntime.so"; "modhal.so"; "modsiggen.so"; "modpid.so"] then Some (Mod "" ∅ demo_ip true true) else None;
  hal_sym _ _ := true;
  hal_result _ := 0;
  app_main _ := 0;
  run_usrfunct _ _ _ := (0, 0)
|}.
Definition demo_start (u : pointer) : app := {| modules := ∅; iparms := ∅; loading_order := []; usrfunct := u; log := [] |}.

Definition demo_requests : list request :=
  [LoadRt "runtime" []; LoadRt "hal" []; LoadRt "siggen" []; LoadRt "pid" []; UnloadRt "siggen"; LoadRt "siggen" []; UnloadRt "nothing"].

Lemma args_in_bounds_witness : params_ok demo_ip /\ exists r ps', do_module_args ["count=7"; "count=a"; "count=8"] demo_ip = Some (r, ps') /\ params_ok ps' /\ same_shapes demo_ip ps'.
Proof.
  assert (params_ok demo_ip) as H.
  { intros name p Hp. unfold demo_ip in Hp. destruct (decide (name = "count")) as [-> |]; [| by rewrite lookup_insert_ne in Hp by congruence].
    rewrite lookup_insert_eq in Hp. injection Hp as <-. intros ty [= <-]. cbn. lia. }
  split; [exact H | apply (args_in_bounds ["count=7"; "count=a"; "count=8"] demo_ip H)].
Defined.

Lemma array_arg_stored_witness :
  do_module_args ["ch=4,-2"] (<["ch" := Param (Some "1-3i") [INum 9; INum 9; INum 9]]> ∅) =
  Some (0, <["ch" := Param (Some "1-3i") [INum 4; INum (-2); INum 9]]> (<["ch" := Param (Some "1-3i") [INum 9; INum 9; INum 9]]> ∅)).
Proof.
  apply (array_arg_stored "ch" (Param (Some "1-3i") [INum 9; INum 9; INum 9]) "1-3i" 1 3 "i" ["4"; "-2"] [INum 4; INum (-2)]); try reflexivity.
  - intros ty [= <-]. change (1 <? String.length "1-3i")%nat with true. cbv iota. intros a b t E. vm_compute in E. injection E as <- <- <-. cbn. lia.
  - cbn. lia.
  - discriminate.
  - by repeat constructor.
  - by repeat constructor.
  - by repeat constructor.
  - cbn. lia.
Defined.

(** The module that was loaded again is shut down first. *)
Lemma exit_reverse_witness : exists a', exit_actions (snd (requests demo_requests (demo_start Valid))) = (Ok tt, a') /\ modules a' = ∅ /\
  log a' = log (snd (requests demo_requests (demo_start Valid))) ++ [StopThreads; ExitUsercomps;
    Exit "siggen"; Dlclose "siggen"; Dlclose "siggen"; Exit "pid"; Dlclose "pid"; Dlclose "pid";
    Exit "hal"; Dlclose "hal"; Dlclose "hal"; Exit "runtime"; Dlclose "runtime"; Dlclose "runtime"].
Proof.
  change [StopThreads; ExitUsercomps; Exit "siggen"; Dlclose "siggen"; Dlclose "siggen"; Exit "pid"; Dlclose "pid"; Dlclose "pid";
    Exit "hal"; Dlclose "hal"; Dlclose "hal"; Exit "runtime"; Dlclose "runtime"; Dlclose "runtime"]
    with ([StopThreads; ExitUsercomps] ++ [Exit "siggen"; Dlclose "siggen"; Dlclose "siggen"; Exit "pid"; Dlclose "pid"; Dlclose "pid";
      Exit "hal"; Dlclose "hal"; Dlclose "hal"; Exit "runtime"; Dlclose "runtime"; Dlclose "runtime"]).
  replace [Exit "siggen"; Dlclose "siggen"; Dlclose "siggen"; Exit "pid"; Dlclose "pid"; Dlclose "pid";
      Exit "hal"; Dlclose "hal"; Dlclose "hal"; Exit "runtime"; Dlclose "runtime"; Dlclose "runtime"]
    with (concat (map (closing (snd (requests demo_requests (demo_start Valid)))) (rev (live demo_requests [0; 0; 0; 0; 0; 0; -1] [])))) by (vm_compute; reflexivity).
  apply (exit_reverse demo_requests [0; 0; 0; 0; 0; 0; -1] (snd (requests demo_requests (demo_start Valid))) Valid).
  - repeat constructor; vm_compute; discriminate.
  - vm_compute. reflexivity.
Defined.

(** The instance parameters of one instance are those of the next, if it does
    not set them: the default 1 is not restored. *)
Example defaults_not_replayed :
  let a := snd (requests [LoadRt "siggen" []; NewInst "siggen" "a" ["count=7"]; NewInst "siggen" "b" []] (demo_start Valid)) in
  exists ip, log a !! 2%nat = Some (Usrfunct "newinst" ["siggen"; "b"] (Some ip)) /\ ip !! "count" = Some (Param (Some "i") [INum 7]).
Proof. eexists. split; [vm_compute; reflexivity | vm_compute; reflexivity]. Qed.

(** Numbers that do not fit are truncated, and an empty text is zero. *)
Example numbers_truncated : convert "i" "4294967297" = Some (INum 1, true) /\ convert "u" "-1" = Some (INum 4294967295, true) /\ convert "i" "" = Some (INum 0, true).
Proof. vm_compute. done. Qed.

(** The names of modules that were unloaded stay in the list. *)
Example names_stay : loading_order (snd (requests [LoadRt "siggen" []; UnloadRt "siggen"; LoadRt "siggen" []] (demo_start Valid))) = ["siggen"; "siggen"].
Proof. vm_compute. done. Qed.

(** Exit after the HAL library was unloaded follows a NULL pointer. *)
Example exit_without_hal : fst (requests [LoadRt "hal" []; UnloadRt "hal"; ExitApp] (demo_start Valid)) = Crash.
Proof. vm_compute. done. Qed.

(** A user function is called through a pointer into a library that has been
    closed. *)
Example call_without_hal : fst (requests [LoadRt "hal" []; UnloadRt "hal"; DelInst "x"] (demo_start Valid)) = Crash.
Proof. vm_compute. done. Qed.

(** A module without a name is not shut down in its turn: the names that are
    left over in the list are empty. *)
#[local] Instance unnamed : Modules := {|
  dl_load _ := Some (Mod "" ∅ ∅ true true); hal_sym _ _ := true; hal_result _ := 0; app_main _ := 0; run_usrfunct _ _ _ := (0, 0)
|}.
Definition exits (l : list call) : list string := omap (fun c => match c with Exit name => Some name | _ => None end) l.
Example unnamed_module : let a := snd (@requests unnamed [LoadRt "hal" []; LoadRt "foo/" []; LoadRt "a" []; UnloadRt "hal"; LoadRt "hal" []] (demo_start Valid)) in
  exists a', @exit_actions a = (Ok tt, a') /\ exits (drop (length (log a)) (log a')) = ["hal"; ""; "a"]%string.
Proof. eexists. split; vm_compute; reflexivity. Qed.
