(* ===== verification/Inifile.v ===== *)
(** * Ini files (libraries/mkini/src/inifile.cc)

    A variable is found by reading the file line by line: to the section, and
    then to the tag.  The file is its text, without NUL characters; a reader
    has it open, and the errors in its mask are thrown. *)
From Stdlib Require Import Ascii.
From S2P Require Import Prelude CString.

Module Inifile.

Definition LINELEN : nat := 255.
Definition newline : ascii := "010".
Definition return_ : ascii := "013".
Definition tabulator : ascii := "009".

Definition ERR_NOT_OPEN : Z := 1.
Definition ERR_SECTION_NOT_FOUND : Z := 2.
Definition ERR_TAG_NOT_FOUND : Z := 4.
Definition ERR_CONVERSION : Z := 8.
Definition ERR_LIMITS : Z := 16.

(** A reader: the text of its file, if one is open, and the errors it throws. *)
Record IniFile := Ini { fp : option string; errMask : Z }.

(** A call returns, or throws with the number of the line, or has written
    behind the end of a buffer. *)
Inductive outcome (A : Type) := Returns (a : A) | Throws (err lineNo : Z) | Overruns.
#[global] Arguments Returns {A} a.
#[global] Arguments Throws {A} err lineNo.
#[global] Arguments Overruns {A}.

Definition ThrowException {A} (f : IniFile) (err lineNo : Z) (a : A) : outcome A :=
  if Z.land err (errMask f) =? 0 then Returns a else Throws err lineNo.

(** ** Lines *)

(** [fgets] of a buffer of [n + 1]: the line, the rest, and whether it has met
    the end of the file. *)
Fixpoint fgets (n : nat) (s : string) : string * string * bool :=
  match n with
  | O => (EmptyString, s, false)
  | S n =>
      match s with
      | EmptyString => (EmptyString, EmptyString, true)
      | String c s => if Ascii.eqb c newline then (String c EmptyString, s, false) else let '(l, rest, eof) := fgets n s in (String c l, rest, eof)
      end
  end.

(** All lines as [fgets] gives them, each with the end-of-file indicator
    behind it. *)
Fixpoint lines_of (fuel : nat) (s : string) : list (string * bool) :=
  match fuel, s with
  | S fuel, String _ _ => let '(l, rest, eof) := fgets LINELEN s in (l, eof) :: lines_of fuel rest
  | _, _ => []
  end.
Definition lines (s : string) : list (string * bool) := lines_of (String.length s) s.

Fixpoint check_line_endings (s : string) : bool :=
  match s with
  | EmptyString => false
  | String c s =>
      if Ascii.eqb c return_ then
        match s with
        | EmptyString => check_line_endings s
        | String d _ => if Ascii.eqb d newline then check_line_endings s else true
        end
      else check_line_endings s
  end.

Fixpoint strip_newline (s : string) : string :=
  match s with
  | EmptyString => EmptyString
  | String c EmptyString => if Ascii.eqb c newline then EmptyString else s
  | String c s => String c (strip_newline s)
  end.

Definition white (c : ascii) : bool := Ascii.eqb c " " || Ascii.eqb c tabulator || Ascii.eqb c return_ || Ascii.eqb c newline.
Definition comment (c : ascii) : bool := Ascii.eqb c ";" || Ascii.eqb c "#".

Fixpoint SkipWhite (s : string) : option string :=
  match s with
  | EmptyString => None
  | String c s' => if comment c then None else if negb (white c) then Some s else SkipWhite s'
  end.

(** Behind the equals sign: the first character that is not white. *)
Fixpoint skip_blanks (s : string) : option string :=
  match s with
  | EmptyString => None
  | String c s' => if negb (white c) then Some s else skip_blanks s'
  end.
Fixpoint AfterEqual (s : string) : option string :=
  match s with
  | EmptyString => None
  | String c s' => if Ascii.eqb c "=" then skip_blanks s' else AfterEqual s'
  end.

(** Without blanks at the end. *)
Definition blank (c : ascii) : bool := Ascii.eqb c " " || Ascii.eqb c tabulator || Ascii.eqb c return_.
Fixpoint trim_end (s : string) : string :=
  match s with
  | EmptyString => EmptyString
  | String c s => match trim_end s with EmptyString => if blank c then EmptyString else String c EmptyString | t => String c t end
  end.

(** What may follow a tag. *)
Definition tag_end (c : ascii) : bool := white c || Ascii.eqb c "=".

(** ** Find *)

(** An error and the line where it was found, or what was looked for. *)
Definition found (A : Type) : Type := (Z * Z) + A.

(** The lines behind the section; the loop also ends with the file. *)
Fixpoint find_section (bracketSection : string) (ls : list (string * bool)) (lineNo : Z) : found (list (string * bool) * bool * Z) :=
  match ls with
  | [] => inl (ERR_SECTION_NOT_FOUND, lineNo)
  | (line, eof) :: ls =>
      if check_line_endings line then inl (ERR_CONVERSION, lineNo)
      else
        let lineNo := lineNo + 1 in
        let next := if eof : bool then inr (ls, eof, lineNo) else find_section bracketSection ls lineNo in
        match SkipWhite (strip_newline line) with
        | None => next
        | Some nonWhite => if strneq bracketSection nonWhite (String.length bracketSection) then inr (ls, eof, lineNo) else next
        end
  end.

Fixpoint find_tag (in_section : bool) (tag : string) (num : Z) (ls : list (string * bool)) (eof : bool) (lineNo : Z) : found (string * Z) :=
  if eof then inl (ERR_TAG_NOT_FOUND, lineNo)
  else
    match ls with
    | [] => inl (ERR_TAG_NOT_FOUND, lineNo)
    | (line, eof) :: ls =>
        if check_line_endings line then inl (ERR_CONVERSION, lineNo)
        else
          let lineNo := lineNo + 1 in
          match SkipWhite (strip_newline line) with
          | None => find_tag in_section tag num ls eof lineNo
          | Some nonWhite =>
              if in_section && first_is (fun c => Ascii.eqb c "[") nonWhite then inl (ERR_TAG_NOT_FOUND, lineNo)
              else if negb (strneq tag nonWhite (String.length tag)) then find_tag in_section tag num ls eof lineNo
              else
                let behind := str_drop (String.length tag) nonWhite in
                if first_is tag_end behind then
                  if 0 <? num - 1 then find_tag in_section tag (num - 1) ls eof lineNo
                  else match AfterEqual behind with
                       | None => inl (ERR_TAG_NOT_FOUND, lineNo)
                       | Some value => inr (trim_end value, lineNo)
                       end
                else find_tag in_section tag num ls eof lineNo
          end
    end.

(** [sprintf] of the section with its brackets into a buffer of
    [LINELEN + 2], without a check. *)
Definition bracket (section : string) : option string :=
  let s := ("[" ++ section ++ "]")%string in
  if (String.length s + 1 <=? LINELEN + 2)%nat then Some s else None.

(** [None]: the section does not fit. *)
Definition find_in (text tag : string) (section : option string) (num : Z) : option (found (string * Z)) :=
  match section with
  | None => Some (find_tag false tag num (lines text) false 0)
  | Some section =>
      bracketSection ← bracket section;
      Some (match find_section bracketSection (lines text) 0 with
            | inl e => inl e
            | inr (ls, eof, lineNo) => find_tag true tag num ls eof lineNo
            end)
  end.

(** The value and its line, or NULL. *)
Definition Find (f : IniFile) (tag : string) (section : option string) (num : Z) : outcome (option (string * Z)) :=
  match fp f with
  | None => ThrowException f ERR_NOT_OPEN 0 None
  | Some text =>
      match find_in text tag section num with
      | None => Overruns
      | Some (inl (err, lineNo)) => ThrowException f err lineNo None
      | Some (inr v) => Returns (Some v)
      end
  end.

(** [Find] of an integer: the value, or an error code. *)
Definition Find_int (f : IniFile) (tag : string) (section : option string) (num : Z) : outcome (Z + Z) :=
  match Find f tag section num with
  | Throws err lineNo => Throws err lineNo
  | Overruns => Overruns
  | Returns None => Returns (inl ERR_TAG_NOT_FOUND)
  | Returns (Some (s, lineNo)) =>
      let '(v, rest) := strtol s 0 in
      if (String.length rest <? String.length s)%nat then Returns (inr (s32 v)) else ThrowException f ERR_CONVERSION lineNo (inl ERR_CONVERSION)
  end.

(** The same within limits, ... *)
Definition Find_limits (f : IniFile) (min max : Z) (tag : string) (section : option string) (num : Z) : outcome (Z + Z) :=
  match Find_int f tag section num with
  | Returns (inr v) => Returns (if (max <? v) || (v <? min) then inl ERR_LIMITS else inr v)
  | r => r
  end.

(** ... or as one of several words. *)
Fixpoint pair_value (s : string) (pairs : list (string * Z)) : option Z :=
  match pairs with [] => None | (word, v) :: pairs => if strcaseeq s word then Some v else pair_value s pairs end.
Definition Find_pair (f : IniFile) (pairs : list (string * Z)) (tag : string) (section : option string) (num : Z) : outcome (Z + Z) :=
  match Find f tag section num with
  | Throws err lineNo => Throws err lineNo
  | Overruns => Overruns
  | Returns None => Returns (inl ERR_TAG_NOT_FOUND)
  | Returns (Some (s, lineNo)) =>
      let '(v, rest) := strtol s 0 in
      if (String.length rest <? String.length s)%nat then Returns (inr (s32 v))
      else match pair_value s pairs with
           | Some v => Returns (inr v)
           | None => ThrowException f ERR_CONVERSION lineNo (inl ERR_CONVERSION)
           end
  end.

(** A copy into a buffer of [n]. *)
Definition FindString (f : IniFile) (n : Z) (tag : string) (section : option string) (num : Z) : outcome (option string) :=
  match Find f tag section num with
  | Throws err lineNo => Throws err lineNo
  | Overruns => Overruns
  | Returns None => Returns None
  | Returns (Some (s, lineNo)) => if n <=? Z.of_nat (String.length s) then ThrowException f ERR_CONVERSION lineNo None else Returns (Some s)
  end.

(** The result in the buffer, or an error; [home] is the environment's. *)
Definition TildeExpansion (f : IniFile) (home : option string) (file : string) (size lineNo : Z) : outcome (Z + string) :=
  if size <=? Z.of_nat (String.length file) then Returns (inl ERR_CONVERSION)
  else if negb (String.prefix "~/" file) then Returns (inr file)
  else
    match home with
    | None => ThrowException f ERR_CONVERSION lineNo (inl ERR_CONVERSION)
    | Some home =>
        let path := (home ++ str_drop 1 file)%string in
        if size <=? Z.of_nat (String.length path) then ThrowException f ERR_CONVERSION lineNo (inl ERR_CONVERSION) else Returns (inr path)
    end.

Definition FindPath (f : IniFile) (home : option string) (n : Z) (tag : string) (section : option string) (num : Z) : outcome (option string) :=
  match Find f tag section num with
  | Throws err lineNo => Throws err lineNo
  | Overruns => Overruns
  | Returns None => Returns None
  | Returns (Some (s, lineNo)) =>
      match TildeExpansion f home s n lineNo with
      | Throws err lineNo => Throws err lineNo
      | Overruns => Overruns
      | Returns (inl _) => Returns None
      | Returns (inr path) => Returns (Some path)
      end
  end.

(** iniFind and iniFindInt: nothing is thrown. *)
Definition iniFind (fp : option string) (tag : string) (section : option string) : outcome (option (string * Z)) := Find (Ini fp 0) tag section 1.
Definition iniFindInt (fp : option string) (tag : string) (section : option string) : outcome (Z + Z) := Find_int (Ini fp 0) tag section 1.

End Inifile.

(** * Theorems

    What a file with sections and entries says is what is found. *)
Import Inifile.

(** ** Lines *)

Lemma fgets_all n s l rest eof : fgets n s = (l, rest, eof) -> (l ++ rest)%string = s.
Proof.
  revert s l rest eof. induction n as [| n IH]; intros s l rest eof; cbn [fgets]; [by intros [= <- <- _] |]. destruct s as [| c s]; [by intros [= <- <- _] |].
  destruct (Ascii.eqb c newline); [by intros [= <- <- _] |]. destruct (fgets n s) as [[l' r'] e'] eqn:E. intros [= <- <- _]. rewrite str_app_cons. by rewrite (IH _ _ _ _ E).
Qed.

Lemma fgets_step n c s : fgets (S n) (String c s) = if Ascii.eqb c newline then (String c EmptyString, s, false) else let '(l, rest, eof) := fgets n s in (String c l, rest, eof).
Proof. done. Qed.

Fixpoint concat_lines (ls : list (string * bool)) : string := match ls with [] => EmptyString | (l, _) :: ls => (l ++ concat_lines ls)%string end.

Lemma lines_of_all fuel s : (String.length s <= fuel)%nat -> concat_lines (lines_of fuel s) = s.
Proof.
  revert s. induction fuel as [| fuel IH]; intros s Hl; [destruct s; [done | cbn in Hl; lia] |]. destruct s as [| c s]; [done |]. unfold lines_of. fold lines_of.
  destruct (fgets LINELEN (String c s)) as [[l rest] eof] eqn:E. cbn [concat_lines]. pose proof (fgets_all _ _ _ _ _ E) as Ha. rewrite IH; [done |].
  assert (0 < String.length l)%nat as Hpos.
  { change LINELEN with (S 254) in E. rewrite fgets_step in E. destruct (Ascii.eqb c newline); [injection E as <- _ _; cbn; lia |]. destruct (fgets 254 s) as [[l' r'] e']. injection E as <- _ _. cbn. lia. }
  apply (f_equal String.length) in Ha. rewrite str_app_length in Ha. lia.
Qed.

(** The lines that are read are the whole file, however long they are. *)
Theorem lines_all s : concat_lines (lines s) = s.
Proof. by apply lines_of_all. Qed.

(** A line without a newline that fits into the buffer. *)
Definition short (l : string) : Prop := (String.length l < LINELEN)%nat /\ str_mem newline l = false /\ str_mem return_ l = false.
Definition ended (l : string) : string := (l ++ String newline EmptyString)%string.

Lemma fgets_line n l s : (String.length l < n)%nat -> str_mem newline l = false -> fgets n (ended l ++ s)%string = (ended l, s, false).
Proof.
  revert n. induction l as [| c l IH]; intros n Hn Hl; (destruct n as [| n]; [cbn in Hn; lia |]).
  - done.
  - cbn [String.length str_mem] in *. apply orb_false_iff in Hl as [Hc Hl]. unfold ended. rewrite !str_app_cons. cbn [fgets]. rewrite Ascii.eqb_sym, Hc.
    fold (ended l). rewrite IH by (done || lia). done.
Qed.

Definition text_of (ls : list string) : string := fold_right (fun l s => (ended l ++ s)%string) EmptyString ls.

Lemma lines_of_text ls fuel : (String.length (text_of ls) <= fuel)%nat -> Forall short ls -> lines_of fuel (text_of ls) = map (fun l => (ended l, false)) ls.
Proof.
  intros Hf H. revert fuel Hf. induction H as [| l ls (Hl & Hn & Hr) _ IH]; intros fuel Hf; [by destruct fuel |].
  cbn [text_of fold_right map] in *. fold (text_of ls) in *.
  assert (exists c s, (ended l ++ text_of ls)%string = String c s) as (c & s & Ec) by (unfold ended; destruct l as [| c l]; rewrite ?str_app_cons; by eexists _, _).
  destruct fuel as [| fuel]; [rewrite Ec in Hf; cbn in Hf; lia |].
  assert (lines_of (S fuel) (ended l ++ text_of ls)%string = (ended l, false) :: lines_of fuel (text_of ls)) as ->.
  { pose proof (fgets_line LINELEN l (text_of ls) Hl Hn) as Eg. rewrite Ec in *. unfold lines_of. fold lines_of. by rewrite Eg. }
  f_equal. apply IH. rewrite str_app_length in Hf. unfold ended in Hf. rewrite str_app_length in Hf. cbn in Hf. lia.
Qed.

Lemma lines_text ls : Forall short ls -> lines (text_of ls) = map (fun l => (ended l, false)) ls.
Proof. intros H. by apply lines_of_text. Qed.

Lemma check_ended l : str_mem return_ l = false -> check_line_endings (ended l) = false.
Proof.
  induction l as [| c l IH]; [done |]. cbn [str_mem]. intros H. apply orb_false_iff in H as [Hc Hl]. unfold ended. rewrite str_app_cons. cbn [check_line_endings]. rewrite Ascii.eqb_sym, Hc. by apply IH.
Qed.

Lemma strip_ended l : strip_newline (ended l) = l.
Proof.
  induction l as [| c l IH]; [done |]. unfold ended in *. rewrite str_app_cons. destruct l as [| d l]; [reflexivity |]. rewrite str_app_cons in *. cbn [strip_newline] in *. by rewrite IH.
Qed.

(** ** Sections and entries *)

Record sect := Sect { s_name : string; s_entries : list (string * string) }.

Fixpoint str_all (p : ascii -> bool) (s : string) : bool := match s with EmptyString => true | String c s => p c && str_all p s end.
Fixpoint last_is (p : ascii -> bool) (s : string) : bool :=
  match s with EmptyString => false | String c EmptyString => p c | String _ s => last_is p s end.

(** A key has no blanks and no equals sign, and does not begin like a comment
    or a section; a value has no blanks around it. *)
Definition key_ok (k : string) : bool := str_all (fun c => negb (tag_end c)) k && first_is (fun c => negb (comment c || Ascii.eqb c "[")) k.
Definition value_ok (v : string) : bool := first_is (fun c => negb (white c)) v && last_is (fun c => negb (blank c)) v.
Definition name_ok (n : string) : bool := negb (str_mem "]" n).

Definition header (n : string) : string := String "[" (n ++ "]")%string.
Definition entry (e : string * string) : string := (fst e ++ " = " ++ snd e)%string.
Definition sect_lines (s : sect) : list string := header (s_name s) :: map entry (s_entries s).
Definition file (ss : list sect) : string := text_of (concat (map sect_lines ss)).

Definition entry_ok (e : string * string) : Prop := key_ok (fst e) = true /\ value_ok (snd e) = true /\ short (entry e).
Definition sect_ok (s : sect) : Prop := name_ok (s_name s) = true /\ short (header (s_name s)) /\ Forall entry_ok (s_entries s).

(** What the file says: the values of a tag in the first section with a name. *)
Definition values (tag : string) (es : list (string * string)) : list string := map snd (List.filter (fun e => String.eqb tag (fst e)) es).
Fixpoint says (ss : list sect) (section tag : string) (num : Z) : Z + string :=
  match ss with
  | [] => inl ERR_SECTION_NOT_FOUND
  | s :: ss =>
      if String.eqb section (s_name s) then match values tag (s_entries s) !! Z.to_nat (num - 1) with Some v => inr v | None => inl ERR_TAG_NOT_FOUND end
      else says ss section tag num
  end.

Definition result {A} (r : found (A * Z)) : Z + A := match r with inl (err, _) => inl err | inr (v, _) => inr v end.

Lemma skip_white_id s : first_is (fun c => negb (comment c) && negb (white c)) s = true -> SkipWhite s = Some s.
Proof. destruct s as [| c s]; [done |]. cbn. intros H. apply andb_true_iff in H as [->%negb_true_iff Hw]. by rewrite Hw. Qed.

Lemma key_line k v : key_ok k = true -> SkipWhite (entry (k, v)) = Some (entry (k, v)) /\ first_is (fun c => Ascii.eqb c "[") (entry (k, v)) = false.
Proof.
  unfold key_ok. intros H. apply andb_true_iff in H as [Ha Hf]. destruct k as [| c k]; [done |]. cbn [str_all first_is] in *. apply andb_true_iff in Ha as [Hc _].
  unfold tag_end in Hc. apply negb_true_iff, orb_false_iff in Hc as [Hw _]. apply negb_true_iff, orb_false_iff in Hf as [Hcm Hb].
  unfold entry. cbn [fst snd]. rewrite str_app_cons. split; [| done]. apply skip_white_id. cbn [first_is]. by rewrite Hcm, Hw.
Qed.

Lemma skip_header n : SkipWhite (header n) = Some (header n).
Proof. by apply skip_white_id. Qed.

(** The comparison of tags is equality of keys. *)
Lemma tag_matches tag k rest : str_all (fun c => negb (tag_end c)) tag = true -> str_all (fun c => negb (tag_end c)) k = true ->
  strneq tag (k ++ String " " rest)%string (String.length tag) && first_is tag_end (str_drop (String.length tag) (k ++ String " " rest)%string) = String.eqb tag k.
Proof.
  revert k. induction tag as [| c tag IH]; intros k Ht Hk.
  - destruct k as [| d k]; [done |]. rewrite str_app_cons. cbn in *. by apply andb_true_iff in Hk as [->%negb_true_iff _].
  - cbn [str_all] in Ht. apply andb_true_iff in Ht as [Hc Ht]. destruct k as [| d k].
    + change ("" ++ String " " rest)%string with (String " " rest). unfold strneq. cbn [String.length str_take String.eqb]. destruct (Ascii.eqb_spec c " ") as [-> |]; done.
    + cbn [str_all] in Hk. apply andb_true_iff in Hk as [_ Hk]. rewrite str_app_cons. unfold strneq in *. cbn [String.length str_take str_drop String.eqb]. destruct (Ascii.eqb c d); [by apply IH | done].
Qed.

Lemma header_matches s n : name_ok s = true -> name_ok n = true -> strneq (header s) (header n) (String.length (header s)) = String.eqb s n.
Proof.
  unfold header, name_ok, strneq. intros Hs%negb_true_iff Hn%negb_true_iff. cbn [String.length str_take String.eqb]. rewrite Ascii.eqb_refl. revert n Hn. induction s as [| c s IH]; intros n Hn.
  - destruct n as [| d n]; [done |]. rewrite str_app_cons. cbn [str_mem] in Hn. apply orb_false_iff in Hn as [Hd _]. change ("" ++ "]")%string with "]". cbn [String.length str_take String.eqb]. by rewrite Hd.
  - cbn [str_mem] in Hs. apply orb_false_iff in Hs as [Hc Hs]. destruct n as [| d n].
    + rewrite str_app_cons. change ("" ++ "]")%string with "]". cbn [String.length str_take String.eqb]. rewrite Ascii.eqb_sym, Hc. done.
    + cbn [str_mem] in Hn. apply orb_false_iff in Hn as [_ Hn]. rewrite !str_app_cons. cbn [String.length str_take String.eqb]. destruct (Ascii.eqb c d); [by apply IH | done].
Qed.

Lemma header_entry s k v : key_ok k = true -> strneq (header s) (entry (k, v)) (String.length (header s)) = false.
Proof.
  intros H. destruct (key_line k v H) as [_ Hf]. unfold header, strneq. destruct (entry (k, v)) as [| c e]; [done |]. cbn [String.length str_take String.eqb first_is] in *.
  rewrite Ascii.eqb_sym in Hf. by rewrite Hf.
Qed.

Lemma trim_end_id s : last_is (fun c => negb (blank c)) s = true -> trim_end s = s.
Proof.
  induction s as [| c s IH]; [done |]. destruct s as [| d s]; [cbn; intros ->%negb_true_iff; done |]. intros H. change (last_is (fun c => negb (blank c)) (String d s) = true) in H.
  specialize (IH H). change (match trim_end (String d s) with EmptyString => if blank c then EmptyString else String c EmptyString | t => String c t end = String c (String d s)). by rewrite IH.
Qed.

Lemma value_found v : value_ok v = true -> option_map trim_end (AfterEqual (" = " ++ v)%string) = Some v.
Proof.
  unfold value_ok. intros H. apply andb_true_iff in H as [Hf Hl]. destruct v as [| c v]; [done |].
  change (AfterEqual (" = " ++ String c v)%string) with (if negb (white c) then Some (String c v) else skip_blanks v). cbn [first_is] in Hf. rewrite Hf. cbn [option_map]. by rewrite trim_end_id by done.
Qed.

Lemma str_drop_app a b : str_drop (String.length a) (a ++ b)%string = b.
Proof. induction a as [| c a IH]; [by destruct b |]. rewrite str_app_cons. exact IH. Qed.

(** ** The search *)

Definition whole (l : string) : string * bool := (ended l, false).

Lemma find_tag_entries tag num es more lineNo : str_all (fun c => negb (tag_end c)) tag = true -> Forall entry_ok es ->
  (more = [] \/ exists n more', short (header n) /\ more = whole (header n) :: more') ->
  result (find_tag true tag num (map (fun e => whole (entry e)) es ++ more) false lineNo) =
    match values tag es !! Z.to_nat (num - 1) with Some v => inr v | None => inl ERR_TAG_NOT_FOUND end.
Proof.
  intros Ht H Hmore. revert num lineNo. induction H as [| [k v] es (Hk & Hv & _ & _ & Hr) _ IH]; intros num lineNo.
  - cbn [map List.app]. change (values tag []) with (@nil string). destruct Hmore as [-> | (n & more' & (_ & _ & Hr) & ->)]; [done |].
    cbn [whole find_tag]. rewrite check_ended by done. rewrite strip_ended, skip_header. done.
  - cbn [fst snd] in *. cbn [map List.app whole find_tag]. fold find_tag. rewrite check_ended by done. rewrite strip_ended. destruct (key_line k v Hk) as [-> Hf]. rewrite Hf. cbn [andb].
    unfold key_ok in Hk. apply andb_true_iff in Hk as [Hka _]. pose proof (tag_matches tag k ("= " ++ v)%string Ht Hka) as Hm. change (k ++ String " " ("= " ++ v))%string with (entry (k, v)) in Hm.
    unfold values. cbn [List.filter fst]. destruct (strneq tag (entry (k, v)) (String.length tag)); cbn [negb andb] in *.
    + rewrite Hm. destruct (String.eqb_spec tag k) as [-> |]; [| apply IH]. cbn [map snd]. destruct (0 <? num - 1) eqn:En; zb.
      * rewrite IH. replace (Z.to_nat (num - 1)) with (S (Z.to_nat (num - 1 - 1))) by lia. done.
      * replace (Z.to_nat (num - 1)) with 0%nat by lia. unfold entry. cbn [fst snd]. rewrite str_drop_app. pose proof (value_found v Hv) as Hvf.
        destruct (AfterEqual (" = " ++ v)%string); [| done]. cbn in Hvf. injection Hvf as Hvf. cbn. by rewrite Hvf.
    + rewrite <- Hm. apply IH.
Qed.

Lemma find_section_entries s es more lineNo : Forall entry_ok es -> exists n, find_section (header s) (map (fun e => whole (entry e)) es ++ more) lineNo = find_section (header s) more n.
Proof.
  intros H. revert lineNo. induction H as [| [k v] es (Hk & _ & _ & _ & Hr) _ IH]; intros lineNo; [by exists lineNo |].
  cbn [map List.app whole find_section]. rewrite check_ended by done. rewrite strip_ended. destruct (key_line k v Hk) as [-> _]. rewrite header_entry by done. apply IH.
Qed.

Lemma sections_found ss section tag num lineNo : Forall sect_ok ss -> name_ok section = true -> str_all (fun c => negb (tag_end c)) tag = true ->
  result (match find_section (header section) (map whole (concat (map sect_lines ss))) lineNo with
          | inl e => inl e
          | inr (ls, eof, lineNo) => find_tag true tag num ls eof lineNo
          end) = says ss section tag num.
Proof.
  intros H Hs Ht. revert lineNo. induction H as [| s ss (Hn & Hh & He) Hss IH]; intros lineNo; [done |].
  cbn [map concat sect_lines says List.app]. rewrite map_app, map_map. cbn [whole find_section]. rewrite check_ended by apply Hh. rewrite strip_ended, skip_header, header_matches by done.
  destruct (String.eqb section (s_name s)).
  - apply find_tag_entries; [done | done |]. destruct Hss as [| s' ss' (_ & Hh' & _) _]; [by left | right]. exists (s_name s'). by eexists.
  - destruct (find_section_entries section (s_entries s) (map whole (concat (map sect_lines ss))) (lineNo + 1) He) as [n E]. rewrite E. apply IH.
Qed.

Lemma file_lines ss : Forall sect_ok ss -> lines (file ss) = map whole (concat (map sect_lines ss)).
Proof.
  intros H. unfold file. apply lines_text. induction H as [| s ss (_ & Hh & He) _ IH]; [done |]. cbn [map concat]. apply Forall_app. split; [| done].
  constructor; [done |]. apply Forall_map. eapply Forall_impl; [exact He |]. by intros e (_ & _ & ?).
Qed.

Lemma bracket_header section : bracket section = if (String.length section <=? 254)%nat then Some (header section) else None.
Proof.
  unfold bracket. change ("[" ++ section ++ "]")%string with (header section). unfold header. cbn [String.length]. rewrite str_app_length. cbn [String.length].
  unfold LINELEN. destruct (_ <=? 255 + 2)%nat eqn:E1, (_ <=? 254)%nat eqn:E2; try done; rewrite ?Nat.leb_le, ?Nat.leb_gt in *; lia.
Qed.

(** C28: Of a file that is made of sections and entries key = value, [Find]
    gives what the file says: the value of the [num]-th entry with the tag in
    the first section of the name, or the error, thrown if the mask has it.
    This holds up to 254 characters of the name of the section that is looked
    for; a longer one overruns a buffer, whatever the file is. *)
Theorem file_roundtrip f ss section tag num : Forall sect_ok ss -> fp f = Some (file ss) -> name_ok section = true -> str_all (fun c => negb (tag_end c)) tag = true ->
  if (String.length section <=? 254)%nat then
    exists n, Find f tag (Some section) num =
      match says ss section tag num with
      | inr v => Returns (Some (v, n))
      | inl err => if Z.land err (errMask f) =? 0 then Returns None else Throws err n
      end
  else Find f tag (Some section) num = Overruns.
Proof.
  intros Hss Hf Hs Ht. unfold Find. rewrite Hf. unfold find_in. rewrite bracket_header. destruct (_ <=? 254)%nat; cbn [mbind option_bind]; [| done].
  rewrite file_lines by done. rewrite <- (sections_found ss section tag num 0) by done. destruct (find_section _ _ _) as [[err n] | [[ls eof] l]].
  - exists n. done.
  - destruct (find_tag _ _ _ _ _ _) as [[err n] | [v n]]; by exists n.
Qed.

(** ** Examples *)

Definition demo_ini : list sect := [Sect "HAL" [("HALFILE", "a.hal"); ("HALFILE", "b.hal arg"); ("HALUI", "0x10")]; Sect "AXIS_0" [("HOME", "1.5")]; Sect "HAL" [("TWOPASS", "on")]].

Lemma file_roundtrip_witness : exists n, Find (Ini (Some (file demo_ini)) 0) "HALFILE" (Some "HAL") 2 = Returns (Some ("b.hal arg", n)).
Proof.
  apply (file_roundtrip (Ini (Some (file demo_ini)) 0) demo_ini "HAL" "HALFILE" 2); [| reflexivity | reflexivity | reflexivity].
  unfold demo_ini. repeat constructor; vm_compute; reflexivity || lia.
Defined.

(** Only the first section of a name counts. *)
Example second_section_hidden : Find (Ini (Some (file demo_ini)) 0) "TWOPASS" (Some "HAL") 1 = Returns None.
Proof. vm_compute. done. Qed.

(** An entry without a value hides those behind it. *)
Example empty_value_hides : Find (Ini (Some (text_of ["[A]"; "B ="; "B = 1"])) 0) "B" (Some "A") 1 = Returns None.
Proof. vm_compute. done. Qed.

(** Without a newline at the end of the file, another error is thrown for a
    section that is missing. *)
Example missing_section_error :
  Find (Ini (Some "[A]") 31) "B" (Some "C") 1 = Throws ERR_TAG_NOT_FOUND 1 /\ Find (Ini (Some (text_of ["[A]"])) 31) "B" (Some "C") 1 = Throws ERR_SECTION_NOT_FOUND 1.
Proof. vm_compute. done. Qed.

(** The rest of a line that is too long counts as a line of its own. *)
Definition long_comment : string := (String "#" (String.concat "" (replicate 254 "x")) ++ "B = 1")%string.
Example long_comment_is_read : Find (Ini (Some (text_of ["[A]"; long_comment])) 0) "B" (Some "A") 1 = Returns (Some ("1", 3)).
Proof. vm_compute. done. Qed.

(** The longest name that fits, and one that is longer by a character. *)
Definition name_of (n : nat) : string := String.concat "" (replicate n "x").
Example long_section : Find (Ini (Some (text_of ["[A]"])) 0) "B" (Some (name_of 254)) 1 = Returns None /\
  Find (Ini (Some (text_of ["[A]"])) 0) "B" (Some (name_of 255)) 1 = Overruns.
Proof. vm_compute. done. Qed.
